(* ===== verification/_CoqProject ===== *)
-Q . S2P
Prelude.v
PyFloat.v
PyValue.v
SelLexer.v
SelParser.v
SelEval.v
SelTemplate.v
WorkflowModels.v
Graph.v
Linter.v
LinterFacts.v
Join.v
RunStore.v
Executors.v
RunEngine.v
RunEngineFacts.v
EventDispatch.v
Permissions.v
Tenancy.v
RoomAccess.v
WaitProtocol.v
OrchBase.v
Approvals.v
ApprovalFacts.v
ApprovalRace.v
Wakeup.v
RoomWakeup.v
Interleave.v
Envelope.v
A2AConsumer.v
ConsumerFacts.v
ConsumerClaims.v
A2A.v
A2AFacts.v
Instruct.v
InstructFacts.v
InstructClaims.v
WakeupState.v
WakeupService.v
WakeupFacts.v
AutostopFacts.v
ClassStart.v
ClassStartFacts.v
ClassCheck.v
KeyPolicy.v
UsageBuckets.v
KeyStore.v
KeyServices.v
KeyServiceFacts.v
RouterBase.v
ProviderRouter.v
RouterFacts.v
RouterRotation.v
RouterStream.v
RouterClaims.v
RateLimit.v
AuthStore.v
RefreshTokens.v
AuthService.v
AccountAdmin.v
SessionFacts.v
SessionLedger.v
SessionClaims.v
LoginFacts.v
LinkFacts.v
Transactions.v
Consent.v
ActivityRows.v
Activities.v
ActivityFacts.v
ActivitySteps.v
ActivityOps.v
ActivityRequests.v
ActivityRounds.v
ActivityClaims.v
