(* ===== verification/Prelude.v ===== *)
(** * Verification of the SMAP back end

    SMAP (Smart Multi-Agent Platform) is a FastAPI back end ([src/backend]) organised
    in bounded contexts over PostgreSQL and Redis, with arq workers beside the web
    processes.  Users draw workflows, graphs of nodes that workers execute; members of
    organisations and projects meet agents in chat rooms guarded by a permission matrix
    and room flags; agents are woken by what happens in a room, talk to each other over
    Redis streams, instruct each other and ask for approvals; every model call goes
    through a router that spends the provider keys members carry into a group; accounts,
    sessions and one-time links decide who is asking; classes work on activities in
    rounds, alone or in groups that vote on what they hand in.  This library models those parts
    as they are written and proves what makes them correct.

    ** How the library is laid out

    A component has a file for its data and operations, translated from the source, and
    one or more files for its theorems, so that a statement can be read without the
    proofs and the definitions without either.  What the source calls and does not
    define (the standard library's identifiers and clocks, re2, argon2, Vault, the
    providers, the turn engine) is a parameter with the hypotheses the code relies on.
    Three styles of effect are used, chosen by what the code has to withstand:
    - the engine, the provider router and the room settings thread a state with a
      schedule: before each statement the next batch of what others commit takes
      effect, and a theorem quantifies over all schedules ([RunStore], [RouterBase],
      [RoomWakeup]);
    - the consumers, the transport, instructions, wake-ups and activities are processes
      of [Interleave] (the last over the transactions of [Transactions]): atomic steps, interleaved with each other, with crashes and with an
      environment; [safe] is the rely-guarantee triple, [reach_good] its soundness;
    - services whose requests are transactions that follow each other are state
      transformers with exceptions ([OrchBase], [KeyServices], [AuthStore]).

    ** Files: foundations

    - [Prelude]: the result type [res] of Python calls (a value, an exception class, or
      the marker [NoFuel] of a model bound that was too small), its monad, sequencing,
      span and filtering lemmas, character classes, the hint databases [smap], [chars].
    - [PyFloat], [PyValue]: Python numbers, strings and JSON values.  Floats are IEEE
      binary64 ([SpecFloat]); [dict] is an insertion-ordered association list; strings
      are sequences of the code points U+0000 to U+00FF.
    - [Interleave]: processes over a shared store and the logic for them.

    ** Files: the workflow context

    - [SelLexer], [SelParser], [SelEval], [SelTemplate]: the expression language of
      [contexts/workflow/sel] (lexer.py, parser.py, evaluator.py, template.py).  Clock
      readings and the re2 engine are the fields of [SelEval.Env].
    - [WorkflowModels]: [contexts/workflow/domain] (models.py, claim_ttl.py).
    - [Graph]: the traversals that the linter and the join use, each proved equal to
      reachability in the graph.
    - [Linter], [LinterFacts]: [application/linter.py], the seventeen blocking rules,
      the warnings and [validate_definition]; a definition-level notion [wellformed] and
      its equivalence with the linter's verdict.
    - [Join]: [application/executors/join.py], the atomic arrival script, the
      classification of incoming edges and the executor.
    - [RunStore]: the run and step tables behind
      [contexts/workflow/infrastructure/repositories.py] and [shared_kernel/db/cas.py].
    - [Executors]: the executors that stay inside the context.  Agent calls, approval
      gates and instructions go to the orchestration context; their outcome is the
      parameter [External.ext_execute].
    - [RunEngine], [RunEngineFacts]: [application/run_engine.py] and step_recorder.py:
      node execution, error strategies, continuation after parks, retries, finalisation.
    - [EventDispatch]: [application/event_dispatch.py] and the signal tasks of
      [app/workers/tasks/workflow_signals.py].
    - [WaitProtocol]: [workflow_event_resume], [workflow_event_timeout] and
      workflow_common.py: how competing jobs claim one parked wait.

    ** Files: authorisation

    - [Permissions]: [shared_kernel/auth/permissions.py]; the class [RoleResolver] is the
      interface the decision is proved against.
    - [Tenancy]: [contexts/tenancy/interfaces/role_resolver.py] with the queries it
      makes; the instance of [RoleResolver].
    - [RoomAccess]: [contexts/conversation/application/access.py].

    ** Files: the orchestration context

    - [OrchBase]: the monad of its services and what they share.
    - [Approvals], [ApprovalFacts], [ApprovalRace]: approval_service.py with its tasks;
      the service as a transition system; two ballots, or a ballot and the timeout, in
      concurrent database sessions over one gate.
    - [Wakeup]: the stored wake-up configuration and its three layers.  [RoomWakeup]:
      room_wakeup_service.py, who may write a room's setting, against concurrent writers.
    - [Envelope]: the wire format of inter-agent messages.  [A2AConsumer],
      [ConsumerFacts], [ConsumerClaims]: a2a_consumer.py over a2a_streams.py, processes
      that share a consumer group, with leases, backoff, dead letters, claims and the
      eviction of old entries.
    - [A2A], [A2AFacts]: a2a_service.py with scope checks, the call chain, the reply
      rendezvous and pending notifications.
    - [Instruct], [InstructFacts], [InstructClaims]: instruct_service.py, a2a_handler.py
      and the deadline task.
    - [WakeupState], [WakeupService]: the counters of wakeup_state.py and every decision
      of wakeup_service.py; [WakeupFacts] (the message trigger), [AutostopFacts] (the
      bound on what agents do among themselves).
    - [ClassStart], [ClassStartFacts], [ClassCheck]: opening and closing a room's class;
      the race of the checks; what one check decides.

    ** Files: the keys context

    - [KeyPolicy]: providers.py, groups.py and router_policy.py, the pure decisions.
      [UsageBuckets]: [shared_kernel/infra/redis_buckets.py].
    - [KeyStore], [KeyServices], [KeyServiceFacts]: the tables and repositories; groups,
      carries and revocation; the invariant they keep.
    - [RouterBase], [ProviderRouter]: provider_router.py with its caches.  [RouterFacts]
      (the gate before a call, the account after it), [RouterRotation] (order and
      budgets), [RouterStream] (streams and pinned calls), [RouterClaims] (the theorems
      about whole calls).

    ** Files: the identity context

    - [RateLimit]: the Lua scripts of [shared_kernel/auth/ratelimit.py].
    - [AuthStore], [RefreshTokens]: the tables, the Redis keys and the request's
      transaction; sessions, refresh tokens and login throttling.
    - [AuthService]: auth_service.py; [AccountAdmin]: admin_service.py,
      impersonation_service.py and the gate of [app/api/middleware/auth.py].
    - [SessionFacts] (what becomes of a refresh token under every interleaving),
      [SessionLedger] and [SessionClaims] (the table and Redis agree, so that ending a
      user's sessions ends all of them), [LoginFacts], [LinkFacts].

    ** Files: the activities context

    - [Transactions]: concurrent transactions over rows at READ COMMITTED: drafts, row
      locks, statements that wait and look again, unique indexes, commit, rollback.
    - [Consent]: group_consent.py, with the float division it makes.
    - [ActivityRows]: the rows of rounds, sessions, submissions, proposals and ballots,
      with their unique indexes.  [Activities]: the repositories and
      activation_service.py, session_service.py, submission_service.py,
      group_proposal_service.py, each operation the body of a transaction.
    - [ActivityFacts]: the invariant of the committed rows, how rows change, what others
      leave to a transaction, and what a transaction's own rows satisfy, up to a [debt] it
      has to settle before it commits.  [ActivitySteps], [ActivityOps]: each statement
      respects this.  [ActivityRequests], [ActivityRounds]: each operation does.
      [ActivityClaims]: the pool of requests and the theorems about its runs.

    ** What the theorems show

    - Expression language: the lexer is specified and inverts a printer; the parser
      accepts everything the documented grammar generates within the depth budget, with
      the tree the grammar gives, and beyond it only a fractional number as an index,
      which the code truncates ([parse_iff_grammar]); evaluation returns or raises one of the listed
      exceptions; the time budget stops it.  Templates: resolution agrees with the
      evaluator's.
    - Linter: it accepts exactly the well-formed definitions
      ([validate_iff_wellformed]); the exceptions it lets through are listed.
    - Workflow runs: a continuation terminates; runs only make legal transitions and
      nothing of an ended run changes ([run_lifecycle], [engine_terminates]); a join's
      wave fires at most once; a parked wait is resumed at most once.
    - Authorisation: the decision in closed form; room access in terms of the tables
      ([room_read_spec]); batch forms agree with single ones.
    - Approvals: under concurrent database sessions a gate resolves once, on what one
      tally saw or by its deadline, and no verdict is missed while ballots do not overlap
      ([gate_resolved_once]); the tally is the consensus rule ([tally_refines_rule]).
    - Messages between agents: one handler at a time per inbox and no message
      acknowledged before it is settled (the cap of a stream may evict one unread, and
      the theorem says so); a call is answered by its callee only, and an
      inbox holds messages of its own tenant only; an instruction settles once and its
      deadline settles it.
    - Wake-ups: the cadence is a function of the room's history; autostop bounds the
      rounds agents complete by themselves for as long as its counter lasts (seven days); a class opens once; human and tool writes
      of a room's setting do not lose each other.
    - Keys: only carried keys of eligible members are spent; a revoked carry stays
      revoked; a call terminates, tries members in order, accounts for each provider
      call once, and its outcome says what the providers answered.
    - Identity: the whole behaviour of a login and of a refresh; a spent refresh token
      never works again, and a replay that reaches the rotation ends its family; the operations that end a user's sessions end all of them; the
      guesses at a password are bounded; a one-time link works once; a Google sign-in
      leaves nothing of whoever registered the address without verifying it.
    - Activities: whatever requests run at the same time, a group's submission comes from
      one proposal that enough of its pinned voters approved, and an open proposal's
      ballots leave its outcome open ([consent_respected]); nothing is added to a round
      that has ended ([ended_round_final]); the attempts of a session are numbered without
      gap ([attempts_numbered]); the approvals required are exact, in spite of the floats
      ([approvals_exact]).
    - Some theorems state behaviour that differs from a comment or a document; they say
      what the code does.

    ** Bounds

    Recursions that are not structural take fuel computed from their input, and a
    theorem says it suffices: the lexer and the parser from the number of characters and
    tokens ([parse_source_total]), the traversals from the number of vertices and arrows,
    a continuation of a run from the number of nodes times the loop guard ([run_fuel],
    [engine_terminates]); the retries of a key group's member from its policy (one more
    than [retry_max]), the passes of the router over a group from the wait it was given
    (two more than twice the seconds: each sleep lasts at least half a second,
    [call_terminates]).  Limits of the code (AST depth 16, 5 ms, 1000 characters, 1000
    visits, 210 retries, chain depth 10) are those of the source.

    ** Not modelled

    - Message texts, metrics, logs, most audit metadata, mail, display names, client
      addresses.
    - Expiry of Redis keys where nothing is proved of it: join tracks, cadence counters
      and cooldowns, reply rendezvous.  Those of the autostop counter, wait claims, leases, sessions, lockouts,
      rate limits and usage counters are modelled.
    - Row locks where each statement is atomic; they only remove interleavings.  In
      [A2A], [Instruct] and [WakeupService] a statement takes effect at once; the key
      services and the account services run one request at a time, except in
      [SessionFacts] and the theorems of [SessionClaims] about tokens, which hold under
      every interleaving of Redis commands.  A wait for a row is
      a step that cannot be taken yet: deadlocks are not shown to be absent.
    - Of the activities: type authoring and the catalogue, validators (parameters),
      dashboards and exports, the deadline and completion claims, erasure and retention.
    - A statement of the database that fails for no reason of the program; the rounding
      of the router's backoff; configuration values of a type the schema forbids, read
      by [cfg_str] and the like as absent.
    - The turn engine (model calls, tools, sandboxes, compaction) is a parameter of what
      starts a turn: it is orchestration of external services.  Sub-agents are never
      spawned by the code.  Tenancy cascades, guest tokens, the e-mail domain policy's
      reader, the audit log's readers.
    - Knowledge, skills, canvas, prompt studio, dashboard, notifications, the HTTP layer,
      the sidecar services and the front end: storage, listings, external processes and
      wiring around the parts above.

    ** What could follow

    The orchestration-calling executors against the models of the services they call;
    the workflow service and the cron and watchdog tasks; the authoring of activity types
    and their reports; the requests of the key and
    account services interleaved with each other; the pure decisions of other contexts
    (the egress proxy's destination policy, chunking). *)

From Stdlib Require Export Ascii String ZArith Lia ZifyBool.
From stdpp Require Export base gmap strings list option.

#[global] Open Scope Z_scope.

(** Identifiers of users, agents, projects, rooms: [uuid.UUID], always true as a
    condition. *)
Abbreviation uuid := positive.

(** ** Python exceptions and results

    A Python call either returns or raises.  [exn] lists the exception classes
    the modelled code raises or lets through; an exception is identified by its
    class, the message text is not modelled. *)
Inductive exn :=
  | SELSyntaxError | SELBudgetExceeded | SELForbiddenConstruct
  | ValueError | TypeError | OverflowError | IndexError | KeyError | NotImplementedError | AttributeError.

#[global] Instance exn_eq_dec : EqDecision exn.
Proof. solve_decision. Defined.

(** [NoFuel] is not an outcome of the program: it marks a recursion bound of the
    model that was chosen too small, and the development proves that the bounds
    it uses never produce it. *)
Inductive res (A : Type) :=
  | Ok (a : A)
  | Raise (e : exn)
  | NoFuel.
Arguments Ok {A} a.
Arguments Raise {A} e.
Arguments NoFuel {A}.

#[global] Instance res_ret : MRet res := fun A a => Ok a.
#[global] Instance res_bind : MBind res := fun A B f m =>
  match m with Ok a => f a | Raise e => Raise e | NoFuel => NoFuel end.
#[global] Instance res_fmap : FMap res := fun A B f m =>
  match m with Ok a => Ok (f a) | Raise e => Raise e | NoFuel => NoFuel end.

(** Outcomes of a computation that was given enough fuel. *)
Definition has_fuel {A} (m : res A) : Prop := m <> NoFuel.

(** [only_raises P m]: whatever exception [m] raises satisfies [P]. *)
Definition only_raises {A} (P : exn -> Prop) (m : res A) : Prop :=
  match m with Raise e => P e | _ => True end.

Lemma bind_Ok {A B} (m : res A) (f : A -> res B) b :
  (m ≫= f) = Ok b <-> exists a, m = Ok a /\ f a = Ok b.
Proof. destruct m; simpl; naive_solver. Qed.

Lemma bind_Raise {A B} (m : res A) (f : A -> res B) e :
  (m ≫= f) = Raise e <-> m = Raise e \/ exists a, m = Ok a /\ f a = Raise e.
Proof. destruct m; simpl; naive_solver. Qed.

Lemma bind_has_fuel {A B} (m : res A) (f : A -> res B) :
  has_fuel m -> (forall a, m = Ok a -> has_fuel (f a)) -> has_fuel (m ≫= f).
Proof. unfold has_fuel; destruct m; simpl; naive_solver. Qed.

Lemma bind_only_raises {A B} P (m : res A) (f : A -> res B) :
  only_raises P m -> (forall a, m = Ok a -> only_raises P (f a)) -> only_raises P (m ≫= f).
Proof. destruct m; simpl; naive_solver. Qed.

Lemma only_raises_mono {A} (P Q : exn -> Prop) (m : res A) :
  (forall e, P e -> Q e) -> only_raises P m -> only_raises Q m.
Proof. destruct m; simpl; auto. Qed.

Lemma has_fuel_Ok {A} (a : A) : has_fuel (Ok a).
Proof. discriminate. Qed.
Lemma has_fuel_Raise {A} e : has_fuel (@Raise A e).
Proof. discriminate. Qed.

Create HintDb smap discriminated.
#[export] Hint Resolve has_fuel_Ok has_fuel_Raise : smap.

(** [res] case analysis: destruct the innermost scrutinee of a match, in the
    goal or in a hypothesis, and clean up. *)
Ltac case_step :=
  match goal with
  | |- context [ match ?x with _ => _ end ] =>
      lazymatch x with context [ match _ with _ => _ end ] => fail | _ => destruct x eqn:? end
  | H : context [ match ?x with _ => _ end ] |- _ =>
      lazymatch x with context [ match _ with _ => _ end ] => fail | _ => destruct x eqn:? end
  end.

Ltac inv_res :=
  repeat match goal with
    | H : Ok _ = Ok _ |- _ => injection H as H; subst
    | H : Raise _ = Raise _ |- _ => injection H as H; subst
    | H : Ok _ = Raise _ |- _ => discriminate H
    | H : Raise _ = Ok _ |- _ => discriminate H
    | H : NoFuel = _ |- _ => discriminate H
    | H : _ = NoFuel |- _ => discriminate H
    | H : (_ ≫= _) = Ok _ |- _ => apply bind_Ok in H as (? & ? & ?)
    end; simplify_eq/=.

(** ** Sequencing over lists *)

(** A Python [for] loop whose body may raise, threading an accumulator. *)
Fixpoint foldM {A B} (f : A -> B -> res A) (a : A) (l : list B) : res A :=
  match l with
  | [] => Ok a
  | x :: l => a ← f a x; foldM f a l
  end.

Fixpoint mapMr {A B} (f : A -> res B) (l : list A) : res (list B) :=
  match l with
  | [] => Ok []
  | x :: l => y ← f x; ys ← mapMr f l; Ok (y :: ys)
  end.

Lemma mapMr_Ok {A B} (f : A -> res B) l ys :
  mapMr f l = Ok ys <-> Forall2 (fun x y => f x = Ok y) l ys.
Proof.
  revert ys. induction l as [|x l IH]; intros ys; simpl; split.
  - intros [= <-]. constructor.
  - inversion 1. done.
  - intros H. inv_res. constructor; [done|]. by apply IH.
  - inversion 1 as [|? y ? ys' Hx Hl]; subst. apply IH in Hl. by rewrite Hx, Hl.
Qed.

Lemma mapMr_has_fuel {A B} (f : A -> res B) l :
  Forall (fun x => has_fuel (f x)) l -> has_fuel (mapMr f l).
Proof.
  induction 1 as [|x l Hx _ IH]; simpl; [auto with smap|].
  apply bind_has_fuel; [done|]. intros y _.
  apply bind_has_fuel; [done|]. auto with smap.
Qed.

Lemma mapMr_only_raises {A B} P (f : A -> res B) l :
  Forall (fun x => only_raises P (f x)) l -> only_raises P (mapMr f l).
Proof.
  induction 1 as [|x l Hx _ IH]; simpl; [done|].
  apply bind_only_raises; [done|]. intros y _.
  apply bind_only_raises; [done|]. done.
Qed.

(** [for x in l: f(x)], results dropped. *)
Section iterM.
Context {A : Type} (f : A -> res unit).
Fixpoint iterM (l : list A) : res unit :=
  match l with [] => Ok tt | x :: l => _ ← f x; iterM l end.

Lemma iterM_Ok l : iterM l = Ok tt <-> Forall (fun x => f x = Ok tt) l.
Proof.
  induction l as [|x l IH]; simpl; [split; [constructor|done]|].
  rewrite bind_Ok, Forall_cons_iff, <- IH. split; [by intros ([] & ? & ?)|intros [? ?]; by exists tt].
Qed.
Lemma iterM_has_fuel l : Forall (fun x => has_fuel (f x)) l -> has_fuel (iterM l).
Proof. induction 1; simpl; [auto with smap|]. by apply bind_has_fuel. Qed.
Lemma iterM_only_raises P l : Forall (fun x => only_raises P (f x)) l -> only_raises P (iterM l).
Proof. induction 1; simpl; [done|]. by apply bind_only_raises. Qed.
End iterM.

(** [[f(x) for x in l]] for an [f] that threads a counter. *)
Section threadM.
Context {A B : Type} (f : A -> nat -> res (B * nat)).
Fixpoint threadM (l : list A) (i : nat) : res (list B * nat) :=
  match l with
  | [] => Ok ([], i)
  | x :: l => '(y, i) ← f x i; '(ys, i) ← threadM l i; Ok (y :: ys, i)
  end.

Lemma threadM_has_fuel l : Forall (fun x => forall i, has_fuel (f x i)) l ->
  forall i, has_fuel (threadM l i).
Proof.
  induction 1 as [|x l Hx _ IH]; intros i; simpl; [auto with smap|].
  apply bind_has_fuel; [done|]. intros [y j] _.
  apply bind_has_fuel; [done|]. intros [ys k] _. auto with smap.
Qed.
Lemma threadM_only_raises P l : Forall (fun x => forall i, only_raises P (f x i)) l ->
  forall i, only_raises P (threadM l i).
Proof.
  induction 1 as [|x l Hx _ IH]; intros i; simpl; [done|].
  apply bind_only_raises; [done|]. intros [y j] _.
  by apply bind_only_raises; [|intros [ys k] _].
Qed.
End threadM.

(** ** Filtering *)

Lemma filter_sublist {A} (f : A -> bool) (l : list A) : List.filter f l `sublist_of` l.
Proof. induction l as [|x l IH]; simpl; [constructor|]. destruct (f x); by constructor. Qed.

(** ** Spans

    [span p l] splits [l] at the first element that fails [p]: the shape of
    every [while i < n and p(source[i]): i += 1] of the lexers. *)
Fixpoint span {A} (p : A -> bool) (l : list A) : list A * list A :=
  match l with
  | [] => ([], [])
  | x :: l' => if p x then let '(a, b) := span p l' in (x :: a, b) else ([], l)
  end.

Lemma span_app {A} (p : A -> bool) l a b : span p l = (a, b) -> l = a ++ b.
Proof.
  revert a b. induction l as [|x l IH]; simpl; intros a b H; [by simplify_eq|].
  destruct (p x); [|by simplify_eq].
  destruct (span p l) as [a' b'] eqn:E. simplify_eq/=. f_equal. by apply IH.
Qed.

Lemma span_all {A} (p : A -> bool) l a b : span p l = (a, b) -> Forall (fun x => p x = true) a.
Proof.
  revert a b. induction l as [|x l IH]; simpl; intros a b H; [by simplify_eq; constructor|].
  destruct (p x) eqn:Hp; [|by simplify_eq; constructor].
  destruct (span p l) as [a' b'] eqn:E. simplify_eq/=. constructor; [done|]. by eapply IH.
Qed.

Lemma span_stop {A} (p : A -> bool) l a b x :
  span p l = (a, b) -> head b = Some x -> p x = false.
Proof.
  revert a b. induction l as [|y l IH]; simpl; intros a b H Hb; [by simplify_eq|].
  destruct (p y) eqn:Hp; [|by simplify_eq/=].
  destruct (span p l) as [a' b'] eqn:E. simplify_eq/=. by eapply IH.
Qed.

(** The converse: a maximal run is what [span] returns. *)
Lemma span_eq {A} (p : A -> bool) a b :
  Forall (fun x => p x = true) a ->
  match b with [] => True | x :: _ => p x = false end ->
  span p (a ++ b) = (a, b).
Proof.
  induction 1 as [|x a Hx _ IH]; simpl; intros Hb.
  - destruct b as [|y b]; simpl; [done|]. by rewrite Hb.
  - by rewrite Hx, IH.
Qed.

Lemma span_length {A} (p : A -> bool) l a b :
  span p l = (a, b) -> (length l = length a + length b)%nat.
Proof. intros H%span_app. subst. apply length_app. Qed.

(** ** Strings as character sequences

    A Python [str] is modelled as a [string] whose characters are the code
    points U+0000 to U+00FF. *)
Abbreviation chars := list_ascii_of_string.
Abbreviation unchars := string_of_list_ascii.

Definition code (c : ascii) : nat := nat_of_ascii c.

(** A boolean property of characters is decided by its 256 instances. *)
Lemma ascii_forallb (p : ascii -> bool) :
  forallb (fun n => p (ascii_of_nat n)) (seq 0 256) = true -> forall c, p c = true.
Proof.
  intros H c. rewrite <- (ascii_nat_embedding c).
  rewrite forallb_forall in H. apply H, in_seq.
  pose proof (nat_ascii_bounded c). lia.
Qed.

Definition between (lo hi n : nat) : bool := (lo <=? n)%nat && (n <=? hi)%nat.

Lemma chars_app s t : chars (s +:+ t) = chars s ++ chars t.
Proof. induction s as [|c s IH]; simpl; [done|]. by rewrite IH. Qed.

Lemma unchars_app s t : unchars (s ++ t) = unchars s +:+ unchars t.
Proof. induction s as [|c s IH]; simpl; [done|]. by rewrite IH. Qed.

Lemma chars_unchars l : chars (unchars l) = l.
Proof. apply list_ascii_of_string_of_list_ascii. Qed.
Lemma unchars_chars s : unchars (chars s) = s.
Proof. apply string_of_list_ascii_of_string. Qed.
Lemma length_chars s : length (chars s) = String.length s.
Proof. induction s as [|c s IH]; simpl; [done|]. by rewrite IH. Qed.

Create HintDb chars discriminated.
#[export] Hint Rewrite chars_unchars unchars_chars chars_app unchars_app length_chars : chars.

(** [str.isdecimal], [str.isdigit], [str.isalpha], [str.isalnum] and [str.isspace] of a
    one-character string, for the code points U+0000 to U+00FF. *)
Definition is_decimal (c : ascii) : bool := between 48 57 (code c).
Definition is_digit (c : ascii) : bool :=
  is_decimal c || between 178 179 (code c) || between 185 185 (code c).
Definition is_alpha (c : ascii) : bool :=
  let n := code c in
  between 65 90 n || between 97 122 n || between 170 170 n || between 181 181 n
  || between 186 186 n || between 192 214 n || between 216 246 n || between 248 255 n.
Definition is_alnum (c : ascii) : bool :=
  is_alpha c || is_digit c || between 188 190 (code c).
Definition is_space (c : ascii) : bool :=
  let n := code c in
  between 9 13 n || between 28 32 n || between 133 133 n || between 160 160 n.

(** [str.lower] and [str.upper] character by character.  The upper case of U+00B5
    and U+00FF lies outside U+0000 to U+00FF; those two characters are left alone. *)
Definition lower_char (c : ascii) : ascii :=
  let n := code c in
  if between 65 90 n || between 192 214 n || between 216 222 n then ascii_of_nat (n + 32) else c.
Definition upper_char (c : ascii) : list ascii :=
  let n := code c in
  if between 223 223 n then ["S"%char; "S"%char]
  else if between 97 122 n || between 224 246 n || between 248 254 n then [ascii_of_nat (n - 32)]
  else [c].

(** [s.strip(p)]: drop the leading and trailing characters that satisfy [p]. *)
Definition lstrip_chars (p : ascii -> bool) (l : list ascii) : list ascii := snd (span p l).
Definition strip_chars (p : ascii -> bool) (l : list ascii) : list ascii :=
  rev (lstrip_chars p (rev (lstrip_chars p l))).

(** [s.find(c, i)] on the suffix at [i]: the characters before the first [c] and
    the suffix that starts with it. *)
Definition split_at (c : ascii) (l : list ascii) : option (list ascii * list ascii) :=
  match span (fun x => negb (Ascii.eqb x c)) l with
  | (a, _ :: b) => Some (a, b)
  | (_, []) => None
  end.

Lemma split_at_app c l a b : split_at c l = Some (a, b) -> l = a ++ c :: b.
Proof.
  unfold split_at. destruct (span _ l) as [x [|y r]] eqn:E; [done|]. intros [= -> ->].
  pose proof (span_app _ _ _ _ E) as ->.
  pose proof (span_stop _ _ _ _ y E eq_refl) as H.
  apply negb_false_iff, Ascii.eqb_eq in H. by subst.
Qed.

(** [p in s] on character lists. *)
Fixpoint is_prefix (p l : list ascii) : bool :=
  match p, l with
  | [], _ => true
  | x :: p, y :: l => Ascii.eqb x y && is_prefix p l
  | _ :: _, [] => false
  end.
Fixpoint is_infix (p l : list ascii) : bool :=
  is_prefix p l || match l with [] => false | _ :: l => is_infix p l end.

Lemma is_prefix_spec p l : is_prefix p l = true <-> exists r, l = p ++ r.
Proof.
  revert l. induction p as [|x p IH]; intros l; simpl; [naive_solver|].
  destruct l as [|y l]; simpl; [naive_solver|].
  rewrite andb_true_iff, Ascii.eqb_eq, IH. naive_solver.
Qed.

Lemma is_infix_spec p l : is_infix p l = true <-> exists a b, l = a ++ p ++ b.
Proof.
  induction l as [|y l IH]; simpl; rewrite orb_true_iff, is_prefix_spec.
  - split; [intros [[r ->]|[=]]; by exists [], r|]. intros (a & b & H).
    left. exists b. destruct a; [done|discriminate].
  - rewrite IH. split.
    + intros [[r H]|(a & b & ->)]; [by exists [], r|by exists (y :: a), b].
    + intros ([|z a] & b & H); [left; by exists b|]. simplify_eq/=. right. by exists a, b.
Qed.
