(* ===== verification/PyFloat.v ===== *)
(** * Python numbers

    The integers and floats of the language: a Python [int] is a [Z]; a Python
    [float] is an IEEE 754 binary64 number, given by the executable
    specification [SpecFloat] of the Standard Library at precision 53 and
    maximal exponent 1024.  The file holds the conversions the interpreter
    relies on: exact comparison of an [int] with a [float], [float(n)], [int(x)],
    [str] of both types, and the parsers behind [int(s)] and [float(s)]. *)

From Stdlib Require Export SpecFloat.
From S2P Require Import Prelude.
Abbreviation float := spec_float.
Definition fprec : Z := 53.
Definition femax : Z := 1024.

Definition fadd : float -> float -> float := SFadd fprec femax.
Definition fsub : float -> float -> float := SFsub fprec femax.
Definition fmul : float -> float -> float := SFmul fprec femax.
Definition fdiv : float -> float -> float := SFdiv fprec femax.
Definition fzero (s : bool) : float := S754_zero s.
Definition fis_inf (x : float) : bool := match x with S754_infinity _ => true | _ => false end.
Definition fis_zero (x : float) : bool := match x with S754_zero _ => true | _ => false end.
Definition fneg (x : float) : bool := (** the sign test [x < 0] of the C code *)
  match x with S754_infinity s => s | S754_finite s _ _ => s | _ => false end.

(** [float(n)] for an integer: rounds to nearest, raises when the result overflows. *)
Definition float_of_int (n : Z) : res float :=
  let x := binary_normalize fprec femax n 0 false in
  if fis_inf x then Raise OverflowError else Ok x.

(** [int(x)]: truncation towards zero. *)
Definition int_of_float (x : float) : res Z :=
  match x with
  | S754_zero _ => Ok 0
  | S754_infinity _ => Raise OverflowError
  | S754_nan => Raise ValueError
  | S754_finite s m e =>
      let a := if 0 <=? e then Zpos m * 2 ^ e else Zpos m / 2 ^ (- e) in
      Ok (if s then - a else a)
  end.

(** [n / d] on integers, [d <> 0]: the correctly rounded quotient. *)
Definition int_truediv (n d : Z) : res float :=
  let s := xorb (n <? 0) (d <? 0) in
  if n =? 0 then Ok (fzero s) else
  let '(mz, ez, lz) := SFdiv_core_binary fprec femax (Z.abs n) 0 (Z.abs d) 0 in
  let x := binary_round_aux fprec femax s mz ez lz in
  if fis_inf x then Raise OverflowError else Ok x.

(** [x % y] on floats, [y <> 0]: C [fmod], then the sign correction of the
    divisor.  The remainder of two finite floats is exact. *)
Definition fmod_c (x y : float) : float :=
  match x, y with
  | S754_nan, _ | _, S754_nan | S754_infinity _, _ | _, S754_zero _ => S754_nan
  | S754_zero _, _ | _, S754_infinity _ => x
  | S754_finite sx mx ex, S754_finite _ my ey =>
      let e := Z.min ex ey in
      let r := Z.rem (Zpos mx * 2 ^ (ex - e)) (Zpos my * 2 ^ (ey - e)) in
      if r =? 0 then fzero sx else binary_normalize fprec femax (if sx then - r else r) e sx
  end.
Definition fmod (x y : float) : float :=
  let r := fmod_c x y in
  if fis_zero r then fzero (match y with S754_finite s _ _ | S754_infinity s => s | _ => false end)
  else if xorb (fneg y) (fneg r) then fadd r y else r.

(** Exact comparison of an integer with a float; [None] for a NaN. *)
Definition cmp_int_float (n : Z) (x : float) : option comparison :=
  match x with
  | S754_nan => None
  | S754_zero _ => Some (n ?= 0)
  | S754_infinity s => Some (if s then Gt else Lt)
  | S754_finite s m e =>
      let a := if s then Zneg m else Zpos m in
      Some (if 0 <=? e then n ?= a * 2 ^ e else n * 2 ^ (- e) ?= a)
  end.

(** ** Decimal digits *)

Definition digit_char (d : Z) : ascii := ascii_of_nat (48 + Z.to_nat d).
Definition digit_val (c : ascii) : Z := Z.of_nat (code c) - 48.

Fixpoint dec_digits_go (fuel : nat) (n : Z) (acc : list ascii) : list ascii :=
  match fuel with
  | O => acc
  | S fuel =>
      let acc := digit_char (n mod 10) :: acc in
      if n <? 10 then acc else dec_digits_go fuel (n / 10) acc
  end.
Definition dec_digits (n : Z) : list ascii := dec_digits_go (S (Z.to_nat (Z.log2 n))) n [].

Definition digits_val (l : list ascii) : Z := fold_left (fun v c => v * 10 + digit_val c) l 0.

(** [sys.int_info.default_max_str_digits]. *)
Definition int_max_str_digits : nat := 4300.

(** [str(n)] *)
Definition str_of_int (n : Z) : res string :=
  let ds := dec_digits (Z.abs n) in
  if (int_max_str_digits <? length ds)%nat then Raise ValueError
  else Ok (unchars (if n <? 0 then "-"%char :: ds else ds)).

(** The white space that [int] and [float] skip around a number. *)
Definition is_num_space (c : ascii) : bool :=
  let n := code c in
  between 9 13 n || between 32 32 n || between 133 133 n || between 160 160 n.

(** Single underscores between digits are dropped, any other one is an error. *)
Fixpoint drop_underscores (prev : bool) (l : list ascii) : option (list ascii) :=
  match l with
  | [] => Some []
  | c :: l' =>
      if Ascii.eqb c "_" then
        if prev && match l' with d :: _ => is_decimal d | [] => false end
        then drop_underscores false l' else None
      else cons c <$> drop_underscores (is_decimal c) l'
  end.

Definition take_sign (l : list ascii) : bool * list ascii :=
  match l with
  | "-"%char :: l => (true, l)
  | "+"%char :: l => (false, l)
  | _ => (false, l)
  end.

(** [int(s)] *)
Definition int_of_str (s : string) : res Z :=
  let '(neg, body) := take_sign (strip_chars is_num_space (chars s)) in
  match drop_underscores false body with
  | Some ((_ :: _) as ds) =>
      if forallb is_decimal ds then
        if (int_max_str_digits <? length ds)%nat then Raise ValueError
        else Ok (if neg then - digits_val ds else digits_val ds)
      else Raise ValueError
  | _ => Raise ValueError
  end.

(** The binary64 number nearest to [(-1)^s * m * 10^e] for [0 <= m < 10^nd]. *)
Definition float_of_decimal (s : bool) (m : Z) (nd : nat) (e : Z) : float :=
  if m =? 0 then fzero s
  else if 400 <? e then S754_infinity s
  else if Z.of_nat nd + e <? -400 then fzero s
  else if 0 <=? e then binary_normalize fprec femax ((if s then -1 else 1) * m * 10 ^ e) 0 s
  else let '(mz, ez, lz) := SFdiv_core_binary fprec femax m 0 (10 ^ (- e)) 0 in
       binary_round_aux fprec femax s mz ez lz.

Definition lower_str (l : list ascii) : string := unchars (map lower_char l).

(** [float(s)] *)
Definition float_of_str (s : string) : res float :=
  let '(neg, body) := take_sign (strip_chars is_num_space (chars s)) in
  let word := lower_str body in
  if String.eqb word "inf" || String.eqb word "infinity" then Ok (S754_infinity neg)
  else if String.eqb word "nan" then Ok S754_nan else
  match drop_underscores false body with
  | None => Raise ValueError
  | Some body =>
      let '(ip, r) := span is_decimal body in
      let '(fp, r) := match r with "."%char :: r => span is_decimal r | _ => ([], r) end in
      if (length ip + length fp =? 0)%nat then Raise ValueError else
      let m := digits_val (ip ++ fp) in
      let nd := length (ip ++ fp) in
      let e0 := - Z.of_nat (length fp) in
      match r with
      | [] => Ok (float_of_decimal neg m nd e0)
      | c :: r =>
          if Ascii.eqb (lower_char c) "e" then
            let '(eneg, r) := take_sign r in
            match r with
            | [] => Raise ValueError
            | _ => if forallb is_decimal r then
                     Ok (float_of_decimal neg m nd (e0 + (if eneg then - digits_val r else digits_val r)))
                   else Raise ValueError
            end
          else Raise ValueError
      end
  end.

(** ** [str(x)]: the shortest decimal that reads back as [x] *)

Fixpoint decpt_small (fuel : nat) (num den : Z) : Z :=
  match fuel with
  | O => 0
  | S fuel => if den <=? num * 10 then 0 else decpt_small fuel (num * 10) den - 1
  end.
Definition decpt (num den : Z) : Z :=
  if den <=? num then Z.of_nat (length (dec_digits (num / den))) else decpt_small 400 num den.

(** The decimal [c * 10^(k-n)] with [n] digits that reads back as [num/den], if any. *)
Definition shortest_at (num den k n : Z) : option Z :=
  let p := n - k in
  let a := if 0 <=? p then num * 10 ^ p else num in
  let b := if 0 <=? p then den else den * 10 ^ (- p) in
  let q := a / b in
  let r2 := 2 * (a mod b) in
  let up := (b <? r2) || ((r2 =? b) && Z.odd q) in
  let ok c := SFeqb (float_of_decimal false c (length (dec_digits c)) (k - n))
                    (let '(mz, ez, lz) := SFdiv_core_binary fprec femax num 0 den 0 in
                     binary_round_aux fprec femax false mz ez lz) in
  let near := if up then q + 1 else q in
  let far := if up then q else q + 1 in
  if ok near then Some near else if ok far then Some far else None.

Fixpoint shortest (fuel : nat) (num den k n : Z) : Z * Z :=
  match fuel with
  | O => (0, 0)
  | S fuel => match shortest_at num den k n with
              | Some c => (c, k - n)
              | None => shortest fuel num den k (n + 1)
              end
  end.

Definition drop_trailing_zeros (l : list ascii) : list ascii :=
  rev (snd (span (Ascii.eqb "0") (rev l))).
Definition zeros (n : Z) : list ascii := repeat "0"%char (Z.to_nat n).

Definition str_of_float (x : float) : string :=
  match x with
  | S754_nan => "nan"
  | S754_infinity s => if s then "-inf" else "inf"
  | S754_zero s => if s then "-0.0" else "0.0"
  | S754_finite s m e =>
      let num := if 0 <=? e then Zpos m * 2 ^ e else Zpos m in
      let den := if 0 <=? e then 1 else 2 ^ (- e) in
      let '(c, e10) := shortest 17 num den (decpt num den) 1 in
      let all := dec_digits c in
      let ds := drop_trailing_zeros all in
      let n := Z.of_nat (length ds) in
      let pt := Z.of_nat (length all) + e10 in
      let body :=
        if (pt <=? -4) || (16 <? pt) then
          let x := pt - 1 in
          let xs := dec_digits (Z.abs x) in
          firstn 1 ds ++ (match skipn 1 ds with [] => [] | r => "."%char :: r end)
          ++ "e"%char :: (if x <? 0 then "-"%char else "+"%char)
          :: (if (length xs <? 2)%nat then "0"%char :: xs else xs)
        else if pt <=? 0 then "0"%char :: "."%char :: zeros (- pt) ++ ds
        else if n <=? pt then ds ++ zeros (pt - n) ++ ["."%char; "0"%char]
        else firstn (Z.to_nat pt) ds ++ "."%char :: skipn (Z.to_nat pt) ds in
      unchars (if s then "-"%char :: body else body)
  end.

(** ** Facts *)

Lemma fold_digits l v :
  fold_left (fun v c => v * 10 + digit_val c) l v = v * 10 ^ Z.of_nat (length l) + digits_val l.
Proof.
  unfold digits_val. revert v. induction l as [|c l IH]; intros v; simpl fold_left; simpl length.
  - lia.
  - rewrite IH, (IH (0 * 10 + digit_val c)), Nat2Z.inj_succ, Z.pow_succ_r by lia. ring.
Qed.

Lemma digits_val_cons c l :
  digits_val (c :: l) = digit_val c * 10 ^ Z.of_nat (length l) + digits_val l.
Proof. unfold digits_val at 1. simpl. rewrite fold_digits. f_equal; ring. Qed.

Lemma digit_char_spec d :
  0 <= d < 10 -> digit_val (digit_char d) = d /\ is_decimal (digit_char d) = true.
Proof.
  intros H. assert (Hc : code (digit_char d) = (48 + Z.to_nat d)%nat).
  { unfold code, digit_char. apply nat_ascii_embedding. lia. }
  unfold digit_val, is_decimal, between. rewrite Hc. split; [lia|].
  rewrite andb_true_iff, !Nat.leb_le. lia.
Qed.

Lemma dec_digits_go_spec fuel n acc :
  0 <= n < 2 ^ Z.of_nat fuel -> (0 < fuel)%nat ->
  exists ds, dec_digits_go fuel n acc = ds ++ acc /\ ds <> [] /\
    digits_val ds = n /\ Forall (fun c => is_decimal c = true) ds.
Proof.
  revert n acc. induction fuel as [|fuel IH]; intros n acc Hn Hf; [lia|]. simpl.
  destruct (digit_char_spec (n mod 10)) as [Hv Hd]; [apply Z.mod_pos_bound; lia|].
  case Z.ltb_spec; intros H10.
  - exists [digit_char (n mod 10)]. rewrite digits_val_cons. split; [done|].
    split; [done|]. rewrite Hv, (Z.mod_small n 10) by lia. split; [cbn; lia|].
    rewrite (Z.mod_small n 10) in Hd by lia. by repeat constructor.
  - rewrite Nat2Z.inj_succ, Z.pow_succ_r in Hn by lia.
    destruct fuel as [|fuel]; [simpl in Hn; lia|].
    destruct (IH (n / 10) (digit_char (n mod 10) :: acc)) as (ds & -> & Hne & Hval & Hall).
    { pose proof (Z.div_mod n 10). pose proof (Z.mod_pos_bound n 10). lia. }
    { lia. }
    exists (ds ++ [digit_char (n mod 10)]). rewrite <- app_assoc. split; [done|]. split.
    { by destruct ds. }
    split; [|apply Forall_app; split; [done|]; by repeat constructor].
    unfold digits_val. rewrite fold_left_app. fold (digits_val ds). rewrite Hval. simpl.
    rewrite Hv. pose proof (Z.div_mod n 10). lia.
Qed.

Lemma dec_digits_spec n :
  0 <= n -> dec_digits n <> [] /\ digits_val (dec_digits n) = n /\
    Forall (fun c => is_decimal c = true) (dec_digits n).
Proof.
  intros Hn. unfold dec_digits.
  destruct (dec_digits_go_spec (S (Z.to_nat (Z.log2 n))) n []) as (ds & -> & H); [|lia|].
  - split; [done|]. rewrite Nat2Z.inj_succ, Z2Nat.id by apply Z.log2_nonneg.
    destruct (Z.eq_dec n 0) as [->|]; [done|]. apply Z.log2_spec. lia.
  - by rewrite app_nil_r.
Qed.

Lemma drop_underscores_decimals p l :
  Forall (fun c => is_decimal c = true) l -> drop_underscores p l = Some l.
Proof.
  intros H. revert p. induction H as [|c l Hc _ IH]; intros p; simpl; [done|].
  destruct (Ascii.eqb_spec c "_") as [->|]; [done|]. by rewrite IH.
Qed.

Lemma strip_chars_id p c l d :
  p c = false -> p d = false -> strip_chars p (c :: l ++ [d]) = c :: l ++ [d].
Proof.
  intros Hc Hd. unfold strip_chars, lstrip_chars. simpl. rewrite Hc. simpl.
  rewrite rev_app_distr. simpl. rewrite Hd. simpl. rewrite rev_app_distr, rev_involutive. done.
Qed.

Lemma strip_chars_decimals c l :
  is_num_space c = false -> Forall (fun c => is_decimal c = true) l ->
  strip_chars is_num_space (c :: l) = c :: l.
Proof.
  intros Hc Hl. assert (Hns : Forall (fun c => is_num_space c = false) l).
  { eapply Forall_impl; [|exact Hl]. intros d. unfold is_decimal, is_num_space, between. lia. }
  destruct (exists_last (l := c :: l)) as (l' & d & E); [done|].
  destruct l' as [|c' l']; simplify_eq/=.
  - unfold strip_chars, lstrip_chars. simpl. by rewrite Hc; simpl; rewrite Hc.
  - apply strip_chars_id; [done|]. apply Forall_app in Hns as [_ Hd]. by apply Forall_inv in Hd.
Qed.

(** [int(str(n)) = n] whenever [str(n)] does not hit the digit limit. *)
Lemma int_of_str_of_int n s : str_of_int n = Ok s -> int_of_str s = Ok n.
Proof.
  unfold str_of_int. case_match eqn:Hlen; [done|]. intros [= <-].
  destruct (dec_digits_spec (Z.abs n)) as (Hne & Hv & Hd); [lia|].
  destruct (dec_digits (Z.abs n)) as [|c ds] eqn:E; [done|].
  assert (Hc : is_decimal c = true) by (by inversion Hd).
  assert (Hsgn : forall l, take_sign (c :: l) = (false, c :: l)).
  { intros l. assert (c <> "-"%char) by (by intros ->). assert (c <> "+"%char) by (by intros ->).
    destruct c as [[] [] [] [] [] [] [] []]; done. }
  assert (Hall : forallb is_decimal (c :: ds) = true).
  { apply forallb_forall. intros x Hx. rewrite List.Forall_forall in Hd. by apply Hd. }
  unfold int_of_str. rewrite chars_unchars. case Z.ltb_spec; intros Hs.
  - rewrite strip_chars_decimals by done. cbn [take_sign].
    rewrite drop_underscores_decimals by done. rewrite Hall, Hlen, Hv. f_equal. lia.
  - rewrite strip_chars_decimals;
      [|unfold is_decimal, is_num_space, between in *; lia|by inversion Hd].
    rewrite Hsgn, drop_underscores_decimals by done. rewrite Hall, Hlen, Hv. f_equal. lia.
Qed.

(** The only exceptions of the two conversions. *)
Lemma int_of_str_raises s : only_raises (fun e => e = ValueError) (int_of_str s).
Proof. unfold int_of_str. repeat case_match; done. Qed.
Lemma float_of_str_raises s : only_raises (fun e => e = ValueError) (float_of_str s).
Proof. unfold float_of_str. repeat case_match; done. Qed.
Lemma str_of_int_raises n : only_raises (fun e => e = ValueError) (str_of_int n).
Proof. unfold str_of_int. by case_match. Qed.
Lemma float_of_int_raises n : only_raises (fun e => e = OverflowError) (float_of_int n).
Proof. unfold float_of_int. by case_match. Qed.
Lemma int_of_float_raises x :
  only_raises (fun e => e = OverflowError \/ e = ValueError) (int_of_float x).
Proof. destruct x; simpl; auto. Qed.
Lemma int_truediv_raises n d : only_raises (fun e => e = OverflowError) (int_truediv n d).
Proof. unfold int_truediv. by repeat case_match. Qed.

Lemma int_of_str_fuel s : has_fuel (int_of_str s).
Proof. unfold int_of_str. repeat case_match; auto with smap. Qed.
Lemma float_of_str_fuel s : has_fuel (float_of_str s).
Proof. unfold float_of_str. repeat case_match; auto with smap. Qed.
Lemma int_of_float_fuel x : has_fuel (int_of_float x).
Proof. destruct x; simpl; auto with smap. Qed.
#[export] Hint Resolve int_of_str_fuel float_of_str_fuel int_of_float_fuel : smap.
