(* ===== verification/PyValue.v ===== *)
(** * Python values

    The values that flow through workflow definitions, run variables and SEL
    expressions: the JSON data model plus Python's [int]/[float]/[bool]
    distinctions.  A [dict] is an insertion-ordered association list; the keys
    of JSON objects are strings.  Values are compared structurally: the identity
    shortcut of [==] and [in] on containers, which only shows for NaN, is not
    modelled. *)

From S2P Require Import Prelude PyFloat.
Inductive pyval :=
  | VNone
  | VBool (b : bool)
  | VInt (n : Z)
  | VFloat (x : float)
  | VStr (s : string)
  | VList (l : list pyval)
  | VDict (d : list (string * pyval)).

Abbreviation pydict := (list (string * pyval)).

Section pyval_ind.
Variable P : pyval -> Prop.
Hypothesis Hnone : P VNone.
Hypothesis Hbool : forall b, P (VBool b).
Hypothesis Hint : forall n, P (VInt n).
Hypothesis Hfloat : forall x, P (VFloat x).
Hypothesis Hstr : forall s, P (VStr s).
Hypothesis Hlist : forall l, Forall P l -> P (VList l).
Hypothesis Hdict : forall d, Forall (fun kv => P kv.2) d -> P (VDict d).

Fixpoint pyval_rect' (v : pyval) : P v :=
  match v with
  | VNone => Hnone | VBool b => Hbool b | VInt n => Hint n
  | VFloat x => Hfloat x | VStr s => Hstr s
  | VList l => Hlist l ((fix go l := match l return Forall P l with
      | [] => Forall_nil _ | x :: l => Forall_cons _ x l (pyval_rect' x) (go l) end) l)
  | VDict d => Hdict d ((fix go d := match d return Forall (fun kv => P kv.2) d with
      | [] => Forall_nil _ | kv :: d => Forall_cons _ kv d (pyval_rect' kv.2) (go d) end) d)
  end.
End pyval_ind.

(** ** Dictionaries *)

Fixpoint dict_get (k : string) (d : pydict) : option pyval :=
  match d with
  | [] => None
  | (k', v) :: d => if String.eqb k k' then Some v else dict_get k d
  end.

(** [d[k] = v]: overwrites in place or appends. *)
Fixpoint dict_set (k : string) (v : pyval) (d : pydict) : pydict :=
  match d with
  | [] => [(k, v)]
  | (k', v') :: d => if String.eqb k k' then (k, v) :: d else (k', v') :: dict_set k v d
  end.

Definition dict_has (k : string) (d : pydict) : bool :=
  match dict_get k d with Some _ => true | None => false end.

(** [d.get(k)] and [d.get(k, v)] *)
Definition dict_get_none (k : string) (d : pydict) : pyval := default VNone (dict_get k d).
Definition dict_get_or (k : string) (v : pyval) (d : pydict) : pyval := default v (dict_get k d).

(** [{**d1, **d2}] *)
Definition dict_update (d1 d2 : pydict) : pydict :=
  fold_left (fun d kv => dict_set kv.1 kv.2 d) d2 d1.

Lemma dict_get_set k k' v d :
  dict_get k (dict_set k' v d) = if String.eqb k k' then Some v else dict_get k d.
Proof.
  induction d as [|[k2 v2] d IH]; simpl; [done|].
  destruct (String.eqb_spec k' k2) as [->|Hne]; simpl.
  - by destruct (String.eqb_spec k k2).
  - rewrite IH. destruct (String.eqb_spec k k2) as [->|]; [|done].
    by destruct (String.eqb_spec k2 k').
Qed.

(** ** [isinstance] views *)

Inductive num := NInt (n : Z) | NFloat (x : float).

(** [isinstance(v, int | float)]: a [bool] is an [int]. *)
Definition as_num (v : pyval) : option num :=
  match v with
  | VBool b => Some (NInt (Z.b2z b))
  | VInt n => Some (NInt n)
  | VFloat x => Some (NFloat x)
  | _ => None
  end.
Definition is_num (v : pyval) : bool := match as_num v with Some _ => true | None => false end.
Definition of_num (n : num) : pyval := match n with NInt n => VInt n | NFloat x => VFloat x end.

(** ** Arithmetic and comparison *)

Definition num_float (a : num) : res float :=
  match a with NInt n => float_of_int n | NFloat x => Ok x end.

Definition num_op (fi : Z -> Z -> Z) (ff : float -> float -> float) (a b : num) : res pyval :=
  match a, b with
  | NInt m, NInt n => Ok (VInt (fi m n))
  | _, _ => x ← num_float a; y ← num_float b; Ok (VFloat (ff x y))
  end.
Definition num_add := num_op Z.add fadd.
Definition num_sub := num_op Z.sub fsub.
Definition num_mul := num_op Z.mul fmul.
Definition num_mod := num_op Z.modulo fmod.
Definition num_div (a b : num) : res pyval :=
  match a, b with
  | NInt m, NInt n => VFloat <$> int_truediv m n
  | _, _ => x ← num_float a; y ← num_float b; Ok (VFloat (fdiv x y))
  end.
Definition num_is_zero (a : num) : bool :=
  match a with NInt n => n =? 0 | NFloat x => fis_zero x end.
Definition num_opp (a : num) : pyval :=
  match a with NInt n => VInt (- n) | NFloat x => VFloat (SFopp x) end.
Definition num_abs (a : num) : pyval :=
  match a with NInt n => VInt (Z.abs n) | NFloat x => VFloat (SFabs x) end.

(** Exact comparison; [None] when a NaN is involved. *)
Definition num_compare (a b : num) : option comparison :=
  match a, b with
  | NInt m, NInt n => Some (m ?= n)
  | NInt m, NFloat y => cmp_int_float m y
  | NFloat x, NInt n => CompOpp <$> cmp_int_float n x
  | NFloat x, NFloat y => SFcompare x y
  end.
Definition num_eqb (a b : num) : bool := match num_compare a b with Some Eq => true | _ => false end.
Definition num_ltb (a b : num) : bool := match num_compare a b with Some Lt => true | _ => false end.
Definition num_leb (a b : num) : bool :=
  match num_compare a b with Some (Lt | Eq) => true | _ => false end.

(** [a == b] *)
Fixpoint py_eq (a b : pyval) {struct a} : bool :=
  match a, b with
  | VNone, VNone => true
  | VStr s, VStr t => String.eqb s t
  | VList l, VList m =>
      (fix go l m := match l, m with
        | [], [] => true
        | x :: l, y :: m => py_eq x y && go l m
        | _, _ => false end) l m
  | VDict d, VDict e =>
      (length d =? length e)%nat &&
      (fix go d := match d with
        | [] => true
        | (k, x) :: d => match dict_get k e with Some y => py_eq x y | None => false end && go d
        end) d
  | _, _ => match as_num a, as_num b with Some m, Some n => num_eqb m n | _, _ => false end
  end.

(** [type(a) is type(b)] *)
Definition same_type (a b : pyval) : bool :=
  match a, b with
  | VNone, VNone | VBool _, VBool _ | VInt _, VInt _ | VFloat _, VFloat _
  | VStr _, VStr _ | VList _, VList _ | VDict _, VDict _ => true
  | _, _ => false
  end.

(** [bool(v)] *)
Definition py_bool (v : pyval) : bool :=
  match v with
  | VNone => false
  | VBool b => b
  | VInt n => negb (n =? 0)
  | VFloat x => negb (fis_zero x)
  | VStr s => negb (String.eqb s "")
  | VList l => match l with [] => false | _ => true end
  | VDict d => match d with [] => false | _ => true end
  end.

(** ** [str] and [repr] *)

Definition hex_digit (n : nat) : ascii := ascii_of_nat (if (n <? 10)%nat then 48 + n else 87 + n).

Definition repr_char (quote c : ascii) : list ascii :=
  let n := code c in
  if Ascii.eqb c quote || Ascii.eqb c "\" then ["\"%char; c]
  else if (n =? 9)%nat then ["\"; "t"]%char
  else if (n =? 10)%nat then ["\"; "n"]%char
  else if (n =? 13)%nat then ["\"; "r"]%char
  else if between 0 31 n || between 127 160 n || (n =? 173)%nat
  then ["\"%char; "x"%char; hex_digit (n / 16); hex_digit (n mod 16)]
  else [c].

Definition squote : ascii := "'"%char.
Definition dquote : ascii := ascii_of_nat 34.

Definition repr_str (s : string) : string :=
  let l := chars s in
  let q := if existsb (Ascii.eqb squote) l && negb (existsb (Ascii.eqb dquote) l)
           then dquote else squote in
  unchars (q :: flat_map (repr_char q) l ++ [q]).

Fixpoint join_with (sep : string) (l : list string) : string :=
  match l with
  | [] => ""
  | [s] => s
  | s :: l => s +:+ sep +:+ join_with sep l
  end.

Fixpoint py_repr (v : pyval) : res string :=
  match v with
  | VNone => Ok "None"
  | VBool b => Ok (if b then "True" else "False")
  | VInt n => str_of_int n
  | VFloat x => Ok (str_of_float x)
  | VStr s => Ok (repr_str s)
  | VList l => ss ← (fix go l := match l with
      | [] => Ok [] | x :: l => s ← py_repr x; ss ← go l; Ok (s :: ss) end) l;
      Ok ("[" +:+ join_with ", " ss +:+ "]")
  | VDict d => ss ← (fix go d := match d with
      | [] => Ok [] | (k, x) :: d => s ← py_repr x; ss ← go d;
        Ok ((repr_str k +:+ ": " +:+ s) :: ss) end) d;
      Ok ("{" +:+ join_with ", " ss +:+ "}")
  end.

(** [str(v)] *)
Definition py_str (v : pyval) : res string :=
  match v with VStr s => Ok s | _ => py_repr v end.

(** [int(v)] *)
Definition py_int (v : pyval) : res Z :=
  match v with
  | VBool b => Ok (Z.b2z b)
  | VInt n => Ok n
  | VFloat x => int_of_float x
  | VStr s => int_of_str s
  | VNone | VList _ | VDict _ => Raise TypeError
  end.

(** [float(v)] *)
Definition py_float (v : pyval) : res float :=
  match v with
  | VBool b => float_of_int (Z.b2z b)
  | VInt n => float_of_int n
  | VFloat x => Ok x
  | VStr s => float_of_str s
  | VNone | VList _ | VDict _ => Raise TypeError
  end.

Definition py_lower (s : string) : string := unchars (map lower_char (chars s)).
Definition py_upper (s : string) : string := unchars (flat_map upper_char (chars s)).

(** ** Facts *)

Lemma py_repr_raises v : only_raises (fun e => e = ValueError) (py_repr v).
Proof.
  induction v as [| | | | |l IH|d IH] using pyval_rect'; simpl; try done.
  - apply str_of_int_raises.
  - apply bind_only_raises; [|done]. induction IH as [|x l Hx _ IH']; [done|].
    apply bind_only_raises; [done|]. intros s _. by apply bind_only_raises.
  - apply bind_only_raises; [|done]. induction IH as [|[k x] d Hx _ IH']; [done|].
    apply bind_only_raises; [done|]. intros s _. by apply bind_only_raises.
Qed.

Lemma py_str_raises v : only_raises (fun e => e = ValueError) (py_str v).
Proof. destruct v; first [done|apply py_repr_raises]. Qed.

Lemma str_of_int_fuel n : has_fuel (str_of_int n).
Proof. unfold str_of_int. case_match; auto with smap. Qed.

Lemma py_repr_fuel v : has_fuel (py_repr v).
Proof.
  induction v as [| | | | |l IH|d IH] using pyval_rect'; simpl; auto with smap.
  - apply str_of_int_fuel.
  - apply bind_has_fuel; [|auto with smap]. induction IH as [|x l Hx _ IH']; [auto with smap|].
    apply bind_has_fuel; [done|]. intros s _. apply bind_has_fuel; auto with smap.
  - apply bind_has_fuel; [|auto with smap]. induction IH as [|[k x] d Hx _ IH']; [auto with smap|].
    apply bind_has_fuel; [done|]. intros s _. apply bind_has_fuel; auto with smap.
Qed.

Lemma py_str_fuel v : has_fuel (py_str v).
Proof. destruct v; first [apply has_fuel_Ok|apply py_repr_fuel]. Qed.

Lemma float_of_int_fuel n : has_fuel (float_of_int n).
Proof. unfold float_of_int. case_match; auto with smap. Qed.
Lemma num_float_fuel a : has_fuel (num_float a).
Proof. destruct a; simpl; auto using float_of_int_fuel with smap. Qed.
Lemma num_op_fuel fi ff a b : has_fuel (num_op fi ff a b).
Proof.
  destruct a, b; simpl; auto with smap;
    repeat (apply bind_has_fuel; [auto using float_of_int_fuel with smap|intros ? _]); auto with smap.
Qed.
Lemma int_truediv_fuel m n : has_fuel (int_truediv m n).
Proof. unfold int_truediv. repeat case_match; auto with smap. Qed.
Lemma num_div_fuel a b : has_fuel (num_div a b).
Proof.
  destruct a, b; simpl;
    repeat (apply bind_has_fuel; [auto using float_of_int_fuel with smap|intros ? _]); auto with smap.
  pose proof (int_truediv_fuel n n0). destruct (int_truediv n n0); simpl; auto with smap.
Qed.

Definition arith_error (e : exn) : Prop := e = OverflowError.
Lemma num_float_raises a : only_raises arith_error (num_float a).
Proof. destruct a; [apply float_of_int_raises|done]. Qed.
Lemma num_op_raises fi ff a b : only_raises arith_error (num_op fi ff a b).
Proof.
  assert (H : only_raises arith_error
    (x ← num_float a; y ← num_float b; Ok (VFloat (ff x y)))).
  { apply bind_only_raises; [apply num_float_raises|]. intros x _.
    apply bind_only_raises; [apply num_float_raises|done]. }
  destruct a, b; done.
Qed.
Lemma num_div_raises a b : only_raises arith_error (num_div a b).
Proof.
  assert (H : only_raises arith_error
    (x ← num_float a; y ← num_float b; Ok (VFloat (fdiv x y)))).
  { apply bind_only_raises; [apply num_float_raises|]. intros x _.
    apply bind_only_raises; [apply num_float_raises|done]. }
  destruct a as [m|x], b as [n|y]; try done. simpl.
  pose proof (int_truediv_raises m n). by destruct (int_truediv m n).
Qed.

Lemma py_int_fuel v : has_fuel (py_int v).
Proof. destruct v; simpl; auto with smap. Qed.
Lemma py_float_fuel v : has_fuel (py_float v).
Proof. destruct v; simpl; auto using float_of_int_fuel with smap. Qed.
Lemma py_int_raises v :
  only_raises (fun e => e = OverflowError \/ e = ValueError \/ e = TypeError) (py_int v).
Proof.
  destruct v; simpl; auto.
  - eapply only_raises_mono; [|apply int_of_float_raises]. naive_solver.
  - eapply only_raises_mono; [|apply int_of_str_raises]. naive_solver.
Qed.
Lemma py_float_raises v :
  only_raises (fun e => e = OverflowError \/ e = ValueError \/ e = TypeError) (py_float v).
Proof.
  destruct v; simpl; auto.
  1,2: eapply only_raises_mono; [|apply float_of_int_raises]; naive_solver.
  eapply only_raises_mono; [|apply float_of_str_raises]. naive_solver.
Qed.

#[export] Hint Resolve py_int_fuel py_float_fuel : smap.
#[export] Hint Resolve py_str_fuel num_op_fuel num_div_fuel : smap.
#[export] Hint Resolve py_str_raises num_op_raises num_div_raises : smap.
