(* ===== verification/SelLexer.v ===== *)
(** * SEL lexer

    [contexts/workflow/sel/tokens.py] and [contexts/workflow/sel/lexer.py]: the
    token alphabet and [tokenize].  The source is the suffix that remains from
    index [i] on, so [source[i]] is the head and [i + 1 < n] says there is a
    second character; one iteration of the main loop is [lex_one]. *)

From Stdlib Require Import Sorted.
From S2P Require Import Prelude PyFloat PyValue.
Inductive TokenType :=
  | NUMBER | STRING | TRUE | FALSE | NULL
  | IDENT | VAR_REF_START | VAR_REF_END
  | PLUS | MINUS | STAR | SLASH | PERCENT
  | EQ | NEQ | LT | LTE | GT | GTE
  | AND | OR | NOT
  | LPAREN | RPAREN | LBRACKET | RBRACKET | DOT | COMMA
  | EOF.

#[global] Instance TokenType_eq_dec : EqDecision TokenType.
Proof. solve_decision. Defined.

(** [Token.value] is a [str], a number, a [bool] or [None]: a [pyval]. *)
Record Token := mkToken { tk_type : TokenType; tk_value : pyval; tk_pos : nat }.

Definition tok_str (t : TokenType) (s : string) (i : nat) : Token := mkToken t (VStr s) i.

Definition keyword (text : string) : TokenType :=
  if String.eqb text "and" then AND else if String.eqb text "or" then OR
  else if String.eqb text "not" then NOT else if String.eqb text "true" then TRUE
  else if String.eqb text "false" then FALSE else if String.eqb text "null" then NULL
  else IDENT.

Definition single_char_table : list (ascii * TokenType) :=
  [("+"%char, PLUS); ("-"%char, MINUS); ("*"%char, STAR); ("/"%char, SLASH);
   ("%"%char, PERCENT); ("("%char, LPAREN); (")"%char, RPAREN); ("["%char, LBRACKET);
   ("]"%char, RBRACKET); ("."%char, DOT); (","%char, COMMA)].
Definition single_char (c : ascii) : option TokenType :=
  snd <$> List.find (fun p => Ascii.eqb c p.1) single_char_table.

Lemma single_char_not_eof c t : single_char c = Some t -> t <> EOF.
Proof.
  unfold single_char. intros H. destruct (List.find _ _) as [p|] eqn:E; [|done].
  apply List.find_some in E as [Hin _]. injection H as <-. simpl in Hin. intros Ht.
  repeat (destruct Hin as [<-|Hin]; [done|]). done.
Qed.

Definition nl_char : ascii := ascii_of_nat 10.
Definition tab_char : ascii := ascii_of_nat 9.
Definition cr_char : ascii := ascii_of_nat 13.

Definition is_blank (c : ascii) : bool :=
  Ascii.eqb c " " || Ascii.eqb c tab_char || Ascii.eqb c cr_char || Ascii.eqb c nl_char.

(** The body of a string literal up to its closing quote, escapes resolved. *)
Fixpoint scan_string (quote : ascii) (l : list ascii) : option (list ascii * list ascii) :=
  match l with
  | [] => None
  | c :: l' =>
      if Ascii.eqb c quote then Some ([], l')
      else if Ascii.eqb c "\" then
        match l' with
        | esc :: l'' =>
            let out := if Ascii.eqb esc "n" then nl_char
                       else if Ascii.eqb esc "t" then tab_char else esc in
            '(parts, r) ← scan_string quote l''; Some (out :: parts, r)
        | [] => None
        end
      else '(parts, r) ← scan_string quote l'; Some (c :: parts, r)
  end.

Definition is_number_char (c : ascii) : bool := is_digit c || Ascii.eqb c ".".
Definition is_ident_start (c : ascii) : bool := is_alpha c || Ascii.eqb c "_".
Definition is_ident_char (c : ascii) : bool := is_alnum c || Ascii.eqb c "_".

(** [float(text) if "." in text else int(text)]; a [ValueError] becomes a
    [SELSyntaxError]. *)
Definition number_value (text : list ascii) : res pyval :=
  let r := if existsb (Ascii.eqb ".") text then VFloat <$> float_of_str (unchars text)
           else VInt <$> int_of_str (unchars text) in
  match r with
  | Raise ValueError => Raise SELSyntaxError
  | r => r
  end.

(** The value stored with an identifier or keyword token. *)
Definition word_token (text : string) (start : nat) : Token :=
  let ty := keyword text in
  match ty with
  | TRUE => mkToken ty (VBool true) start
  | FALSE => mkToken ty (VBool false) start
  | NULL => mkToken ty VNone start
  | _ => mkToken ty (VStr text) start
  end.

(** One iteration of the loop at index [i], on the non-empty suffix [ch :: rest]:
    the token it appends, if any, and the suffix it leaves. *)
Definition lex_one (i : nat) (ch : ascii) (rest : list ascii)
    : res (option Token * list ascii) :=
  let next := head rest in
  let two t s := Ok (Some (tok_str t s i), tail rest) in
  let one t s := Ok (Some (tok_str t s i), rest) in
  if is_blank ch then Ok (None, rest)
  else if bool_decide (ch = "{"%char /\ next = Some "{"%char) then two VAR_REF_START "{{"
  else if bool_decide (ch = "}"%char /\ next = Some "}"%char) then two VAR_REF_END "}}"
  else if bool_decide (ch = "="%char /\ next = Some "="%char) then two EQ "=="
  else if bool_decide (ch = "!"%char /\ next = Some "="%char) then two NEQ "!="
  else if bool_decide (ch = "<"%char /\ next = Some "="%char) then two LTE "<="
  else if bool_decide (ch = ">"%char /\ next = Some "="%char) then two GTE ">="
  else if Ascii.eqb ch "<" then one LT "<"
  else if Ascii.eqb ch ">" then one GT ">"
  else match single_char ch with
  | Some t => one t (String ch "")
  | None =>
      if is_digit ch then
        let '(text, r) := span is_number_char (ch :: rest) in
        val ← number_value text; Ok (Some (mkToken NUMBER val i), r)
      else if Ascii.eqb ch dquote || Ascii.eqb ch squote then
        match scan_string ch rest with
        | Some (parts, r) => Ok (Some (tok_str STRING (unchars parts) i), r)
        | None => Raise SELSyntaxError
        end
      else if is_ident_start ch then
        let '(text, r) := span is_ident_char (ch :: rest) in
        Ok (Some (word_token (unchars text) i), r)
      else Raise SELSyntaxError
  end.

(** The main loop; every iteration consumes a character, so [length src] rounds
    are enough. *)
Fixpoint tokenize_go (fuel i : nat) (src : list ascii) : res (list Token) :=
  match src with
  | [] => Ok [mkToken EOF VNone i]
  | ch :: rest =>
      match fuel with
      | O => NoFuel
      | S fuel =>
          '(t, r) ← lex_one i ch rest;
          ts ← tokenize_go fuel (i + (length src - length r)) r;
          Ok (match t with Some t => t :: ts | None => ts end)
      end
  end.

Definition tokenize (source : string) : res (list Token) :=
  tokenize_go (String.length source) 0 (chars source).

(** ** Facts about one iteration *)

Lemma scan_string_length q l p r : scan_string q l = Some (p, r) -> (length r < length l)%nat.
Proof.
  revert p r. induction l as [l IH] using (induction_ltof1 _ (@length ascii)).
  unfold ltof in IH. intros p r H. destruct l as [|c l]; simpl in H; [done|].
  destruct (Ascii.eqb c q); [simplify_eq/=; lia|].
  destruct (Ascii.eqb c "\").
  - destruct l as [|e l]; [done|]. destruct (scan_string q l) as [[p' r']|] eqn:E; [|done].
    apply IH in E; simplify_eq/=; lia.
  - destruct (scan_string q l) as [[p' r']|] eqn:E; [|done].
    apply IH in E; simplify_eq/=; lia.
Qed.

Lemma number_value_raises text : only_raises (fun e => e = SELSyntaxError) (number_value text).
Proof.
  unfold number_value.
  pose proof (float_of_str_raises (unchars text)). pose proof (int_of_str_raises (unchars text)).
  case_match eqn:E; [done| |done].
  destruct (existsb _ _); [destruct (float_of_str _)|destruct (int_of_str _)];
    simplify_eq/=; by subst.
Qed.

Lemma number_value_fuel text : has_fuel (number_value text).
Proof.
  unfold number_value.
  pose proof (float_of_str_fuel (unchars text)). pose proof (int_of_str_fuel (unchars text)).
  destruct (existsb _ _); [destruct (float_of_str _) as [|[]|]|destruct (int_of_str _) as [|[]|]];
    unfold has_fuel in *; simpl; congruence.
Qed.

Lemma keyword_cases text :
  keyword text = AND \/ keyword text = OR \/ keyword text = NOT \/ keyword text = TRUE \/
  keyword text = FALSE \/ keyword text = NULL \/ keyword text = IDENT.
Proof. unfold keyword. repeat (case_match; [tauto|]). tauto. Qed.

Lemma lex_one_raises i ch rest : only_raises (fun e => e = SELSyntaxError) (lex_one i ch rest).
Proof.
  unfold lex_one. repeat (case_match; try done).
  apply bind_only_raises; [apply number_value_raises|done].
Qed.

Lemma lex_one_fuel i ch rest : has_fuel (lex_one i ch rest).
Proof.
  unfold lex_one. repeat (case_match; auto with smap).
  apply bind_has_fuel; [apply number_value_fuel|auto with smap].
Qed.

Lemma span_head_length {A} (p : A -> bool) x l a b :
  p x = true -> span p (x :: l) = (a, b) -> (length b <= length l)%nat.
Proof.
  intros Hp H. simpl in H. rewrite Hp in H. destruct (span p l) as [a' b'] eqn:E.
  apply span_length in E. simplify_eq/=. lia.
Qed.

(** Every iteration consumes at least one character, and a token it emits starts
    at the current index and is not the end marker. *)
Lemma lex_one_progress i ch rest t r :
  lex_one i ch rest = Ok (t, r) ->
  (length r <= length rest)%nat /\
  (forall tok, t = Some tok -> tk_pos tok = i /\ tk_type tok <> EOF).
Proof.
  unfold lex_one. intros H.
  assert (Htail : (length (tail rest) <= length rest)%nat) by (destruct rest; simpl; lia).
  repeat (case_match; [simplify_eq/=; split; [first [exact Htail|exact (Nat.le_refl _)]
    |intros ? Ht; simplify_eq/=; by split]|]).
  case_match eqn:Hs; [simplify_eq/=; split; [exact (Nat.le_refl _)
    |intros ? Ht; simplify_eq/=; split; [done|]]|].
  { by eapply single_char_not_eof. }
  destruct (is_digit ch) eqn:Hd.
  { destruct (span _ (ch :: rest)) as [a b] eqn:Hsp. inv_res.
    apply span_head_length in Hsp; [|by unfold is_number_char; rewrite Hd].
    split; [done|]. by intros ? [= <-]. }
  case_match.
  { case_match eqn:Hsc; [|done]. case_match; simplify_eq/=. apply scan_string_length in Hsc.
    split; [by apply Nat.lt_le_incl|]. by intros ? [= <-]. }
  destruct (is_ident_start ch) eqn:Hi; [|done].
  destruct (span _ (ch :: rest)) as [a b] eqn:Hsp. simplify_eq/=.
  change (span is_ident_char (ch :: rest) = (a, r)) in Hsp.
  apply span_head_length in Hsp.
  2: { unfold is_ident_start, is_ident_char, is_alnum in *. destruct (is_alpha ch); [done|].
       simpl in Hi. rewrite Hi. apply orb_true_r. }
  split; [done|]. intros ? [= <-]. unfold word_token, keyword.
  split; repeat case_match; done.
Qed.

(** ** [tokenize] *)

Lemma tokenize_go_fuel fuel i src :
  (length src <= fuel)%nat -> has_fuel (tokenize_go fuel i src).
Proof.
  revert i src. induction fuel as [|fuel IH]; intros i src Hl; destruct src as [|ch rest];
    simpl in *; auto with smap; [lia|].
  apply bind_has_fuel; [apply lex_one_fuel|]. intros [t r] [Hr _]%lex_one_progress.
  apply bind_has_fuel; [apply IH; lia|auto with smap].
Qed.

Lemma tokenize_go_raises fuel i src :
  only_raises (fun e => e = SELSyntaxError) (tokenize_go fuel i src).
Proof.
  revert i src. induction fuel as [|fuel IH]; intros i src; destruct src as [|ch rest];
    simpl; try done.
  apply bind_only_raises; [apply lex_one_raises|]. intros [t r] _.
  apply bind_only_raises; [apply IH|done].
Qed.

(** The shape of a token stream that covers [i .. n): strictly increasing start
    positions, no end marker but the last token. *)
Inductive stream (n : nat) : nat -> list Token -> Prop :=
  | stream_eof i : i = n -> stream n i [mkToken EOF VNone n]
  | stream_tok i t ts :
      (i <= tk_pos t < n)%nat -> tk_type t <> EOF -> stream n (S (tk_pos t)) ts ->
      stream n i (t :: ts)
  | stream_skip i j ts : (i <= j)%nat -> stream n j ts -> stream n i ts.

Lemma tokenize_go_stream fuel i src ts :
  tokenize_go fuel i src = Ok ts -> stream (i + length src) i ts.
Proof.
  revert i src ts. induction fuel as [|fuel IH]; intros i src ts H; destruct src as [|ch rest];
    simpl in H.
  - inv_res. rewrite Nat.add_0_r. by constructor.
  - done.
  - inv_res. rewrite Nat.add_0_r. by constructor.
  - inv_res. destruct x as [t r]. inv_res. 
    match goal with H : lex_one _ _ _ = _ |- _ => apply lex_one_progress in H as [Hr Ht] end.
    match goal with H : tokenize_go _ _ _ = _ |- _ => apply IH in H as Hs end.
    replace (i + (S (length rest) - length r) + length r)%nat
      with (i + length (ch :: rest))%nat in Hs by (simpl; lia).
    destruct t as [t|].
    + destruct (Ht t eq_refl) as [Hp Hne]. apply stream_tok; [simpl; lia|done|].
      eapply stream_skip; [|exact Hs]. lia.
    + eapply stream_skip; [|exact Hs]. lia.
Qed.

(** A list of tokens that ends with the end marker and has it nowhere else: what
    the parser relies on. *)
Inductive ends_with_eof : list Token -> Prop :=
  | ends_eof t : tk_type t = EOF -> ends_with_eof [t]
  | ends_cons t ts : tk_type t <> EOF -> ends_with_eof ts -> ends_with_eof (t :: ts).

Lemma stream_ends_with_eof n i ts : stream n i ts -> ends_with_eof ts.
Proof. induction 1; [by constructor|by constructor|done]. Qed.

Lemma tokenize_ends_with_eof source ts : tokenize source = Ok ts -> ends_with_eof ts.
Proof. intros H%tokenize_go_stream. by eapply stream_ends_with_eof. Qed.

(** The positions of a stream increase strictly up to the end marker's. *)
Lemma stream_positions n i ts :
  stream n i ts -> StronglySorted lt (map tk_pos ts) /\ Forall (fun t => (i <= tk_pos t)%nat) ts.
Proof.
  induction 1 as [i ->|i t ts Hi Hne Hts [IHs IHf]|i j ts Hij Hts [IHs IHf]].
  - split; constructor; constructor.
  - split.
    + simpl. constructor; [done|]. apply List.Forall_forall. intros p (t' & <- & Ht')%in_map_iff.
      rewrite List.Forall_forall in IHf. apply IHf in Ht'. lia.
    + constructor; [lia|]. eapply Forall_impl, IHf. simpl. intros; lia.
  - split; [done|]. eapply Forall_impl, IHf. simpl. intros; lia.
Qed.

Lemma stream_nonempty n i ts : stream n i ts -> ts <> [].
Proof. by induction 1. Qed.

Lemma stream_last n i ts : stream n i ts -> List.last ts (mkToken EOF VNone 0) = mkToken EOF VNone n.
Proof.
  induction 1 as [|i t ts ? ? Hts IH|]; [done| |done].
  apply stream_nonempty in Hts. by destruct ts.
Qed.

Lemma tokenize_fuel source : has_fuel (tokenize source).
Proof. apply tokenize_go_fuel. by rewrite length_chars. Qed.
Lemma tokenize_raises source : only_raises (fun e => e = SELSyntaxError) (tokenize source).
Proof. apply tokenize_go_raises. Qed.

#[export] Hint Resolve tokenize_fuel tokenize_raises : smap.

(** ** Printing tokens

    A canonical text for each token, and the proof that the lexer reads it back:
    the tokens are separated by a blank, strings are written between double
    quotes with the two escapes they need. *)

Definition escape (c : ascii) : list ascii :=
  if Ascii.eqb c dquote || Ascii.eqb c "\" then ["\"%char; c] else [c].

Definition symbol_text (t : TokenType) : option string :=
  match t with
  | VAR_REF_START => Some "{{" | VAR_REF_END => Some "}}"
  | PLUS => Some "+" | MINUS => Some "-" | STAR => Some "*" | SLASH => Some "/"
  | PERCENT => Some "%" | EQ => Some "==" | NEQ => Some "!=" | LT => Some "<"
  | LTE => Some "<=" | GT => Some ">" | GTE => Some ">="
  | AND => Some "and" | OR => Some "or" | NOT => Some "not"
  | LPAREN => Some "(" | RPAREN => Some ")" | LBRACKET => Some "["
  | RBRACKET => Some "]" | DOT => Some "." | COMMA => Some ","
  | _ => None
  end%string.

Definition tok_text (t : Token) : list ascii :=
  match tk_type t, tk_value t with
  | NUMBER, VInt n => dec_digits n
  | STRING, VStr s => dquote :: flat_map escape (chars s) ++ [dquote]
  | IDENT, VStr s => chars s
  | TRUE, _ => chars "true"
  | FALSE, _ => chars "false"
  | NULL, _ => chars "null"
  | ty, _ => chars (default "" (symbol_text ty))
  end.

(** The tokens the canonical text determines. *)
Definition printable (t : Token) : Prop :=
  match tk_type t, tk_value t with
  | NUMBER, VInt n => 0 <= n /\ (length (dec_digits n) <= int_max_str_digits)%nat
  | STRING, VStr s => True
  | IDENT, VStr s =>
      match chars s with c :: l => is_ident_start c = true | [] => False end /\
      Forall (fun c => is_ident_char c = true) (chars s) /\ keyword s = IDENT
  | TRUE, VBool true | FALSE, VBool false | NULL, VNone => True
  | ty, VStr s => symbol_text ty = Some s
  | _, _ => False
  end.

Lemma starts_plain c :
  is_digit c = true \/ is_ident_start c = true \/ c = dquote ->
  is_blank c = false /\ c <> "{"%char /\ c <> "}"%char /\ c <> "="%char /\ c <> "!"%char /\
  Ascii.eqb c "<" = false /\ Ascii.eqb c ">" = false /\ single_char c = None.
Proof.
  pose (p c := implb (is_digit c || is_ident_start c || Ascii.eqb c dquote)
    (negb (is_blank c || Ascii.eqb c "{" || Ascii.eqb c "}" || Ascii.eqb c "="
       || Ascii.eqb c "!" || Ascii.eqb c "<" || Ascii.eqb c ">"
       || match single_char c with Some _ => true | None => false end))).
  assert (Hp : p c = true) by (apply (ascii_forallb p); vm_compute; reflexivity).
  intros H. unfold p in Hp. assert (Hc : is_digit c || is_ident_start c || Ascii.eqb c dquote = true).
  { destruct H as [->|[->| ->]]; [done|by rewrite orb_true_r|by rewrite orb_true_r]. }
  rewrite Hc in Hp.
  simpl in Hp. rewrite negb_true_iff, !orb_false_iff, !Ascii.eqb_neq in Hp.
  destruct Hp as (((((((H1 & H2) & H3) & H4) & H5) & H6) & H7) & H8).
  apply Ascii.eqb_neq in H6, H7.
  repeat (split; [done|]). by destruct (single_char c).
Qed.

(** A character that starts a number, a string or a word reaches that branch. *)
Lemma lex_one_plain i c rest :
  is_digit c = true \/ is_ident_start c = true \/ c = dquote ->
  lex_one i c rest =
    (if is_digit c then
       let '(text, r) := span is_number_char (c :: rest) in
       val ← number_value text; Ok (Some (mkToken NUMBER val i), r)
     else if Ascii.eqb c dquote || Ascii.eqb c squote then
       match scan_string c rest with
       | Some (parts, r) => Ok (Some (tok_str STRING (unchars parts) i), r)
       | None => Raise SELSyntaxError
       end
     else if is_ident_start c then
       let '(text, r) := span is_ident_char (c :: rest) in
       Ok (Some (word_token (unchars text) i), r)
     else Raise SELSyntaxError).
Proof.
  intros (Hb & H1 & H2 & H3 & H4 & H5 & H6 & H7)%starts_plain.
  unfold lex_one. rewrite Hb.
  rewrite !bool_decide_false by (intros [-> _]; done). by rewrite H5, H6, H7.
Qed.

Lemma scan_string_escape s r :
  scan_string dquote (flat_map escape s ++ dquote :: r) = Some (s, r).
Proof.
  induction s as [|c s IH]; [done|]. simpl. unfold escape at 1.
  destruct (Ascii.eqb_spec c dquote) as [->|Hq]; simpl; [by rewrite IH|].
  destruct (Ascii.eqb_spec c "\") as [->|Hb]; simpl; [by rewrite IH|].
  destruct (Ascii.eqb_spec c dquote); [done|].
  destruct (Ascii.eqb_spec c "\"); [done|]. by rewrite IH.
Qed.

Lemma number_value_int n :
  0 <= n -> (length (dec_digits n) <= int_max_str_digits)%nat ->
  number_value (dec_digits n) = Ok (VInt n).
Proof.
  intros Hn Hl. destruct (dec_digits_spec n Hn) as (_ & _ & Hd).
  unfold number_value. replace (existsb _ _) with false.
  - rewrite (int_of_str_of_int n); [done|]. unfold str_of_int.
    rewrite Z.abs_eq by done. apply Nat.ltb_ge in Hl. rewrite Hl.
    by rewrite (proj2 (Z.ltb_ge n 0) Hn).
  - symmetry. apply not_true_is_false. intros (c & Hc & E)%existsb_exists.
    rewrite List.Forall_forall in Hd. apply Hd in Hc. apply Ascii.eqb_eq in E. by subst.
Qed.

(** The lexer reads one canonical text back. *)
Lemma lex_one_text i t rest :
  printable t ->
  match tok_text t with
  | [] => False
  | c :: l => lex_one i c (l ++ " "%char :: rest) =
      Ok (Some (mkToken (tk_type t) (tk_value t) i), " "%char :: rest)
  end.
Proof.
  destruct t as [ty v p]. unfold printable, tok_text. simpl. intros Hp.
  destruct ty, v; try done; simpl in Hp; simplify_eq; try done.
  - destruct Hp as [Hn Hl]. destruct (dec_digits_spec _ Hn) as (Hne & _ & Hd).
    pose proof (number_value_int _ Hn Hl) as Hv.
    destruct (dec_digits n) as [|c l]; [done|]. inversion Hd as [|? ? Hc Hl']; subst.
    assert (Hdig : is_digit c = true) by (unfold is_digit; by rewrite Hc).
    rewrite lex_one_plain by auto. rewrite Hdig, app_comm_cons, span_eq.
    + by rewrite Hv.
    + eapply Forall_impl; [|exact Hd]. intros x Hx. unfold is_number_char, is_digit. by rewrite Hx.
    + done.
  - rewrite lex_one_plain by auto.
    change (Ascii.eqb dquote dquote || _) with true. cbn [is_digit].
    change (is_digit dquote) with false. cbn iota.
    rewrite <- app_assoc. cbn [app].
    by rewrite scan_string_escape, unchars_chars.
  - destruct b; done.
  - destruct b; done.
  - destruct Hp as (Hs & Hall & Hk). destruct (chars s) as [|c l] eqn:E; [done|].
    rewrite lex_one_plain by auto. rewrite Hs.
    replace (is_digit c) with false.
    2: { symmetry. destruct c as [[] [] [] [] [] [] [] []]; try done. }
    replace (Ascii.eqb c dquote || Ascii.eqb c squote) with false.
    2: { symmetry. destruct c as [[] [] [] [] [] [] [] []]; try done. }
    rewrite app_comm_cons, span_eq by done. rewrite <- E, unchars_chars.
    unfold word_token. by rewrite Hk.
Qed.

Definition erase (t : Token) : TokenType * pyval := (tk_type t, tk_value t).

Lemma tokenize_go_print ts fuel i :
  let src := flat_map (fun t => tok_text t ++ [" "%char]) ts in
  Forall printable ts -> (length src <= fuel)%nat ->
  exists ts', tokenize_go fuel i src = Ok ts' /\
    map erase ts' = map erase ts ++ [(EOF, VNone)].
Proof.
  simpl. intros Hts. revert fuel i. induction Hts as [|t ts Ht _ IH]; intros fuel i Hl.
  - destruct fuel; by eexists.
  - simpl in *. pose proof (lex_one_text i t (flat_map (fun t => tok_text t ++ [" "%char]) ts) Ht) as H.
    destruct (tok_text t) as [|c l]; [done|]. rewrite <- !app_assoc in *. simpl in *.
    destruct fuel as [|[|fuel]]; [lia|rewrite length_app in Hl; simpl in Hl; lia|].
    simpl. rewrite H. simpl.
    rewrite length_app in Hl. simpl in Hl.
    edestruct IH as (ts' & E & He); [|erewrite E; simpl; eexists; split; [done|]].
    + lia.
    + simpl. by rewrite He.
Qed.

(** ** Well-typed tokens

    What the parser may assume of a token's value. *)
Definition tok_ok (t : Token) : Prop :=
  match tk_type t, tk_value t with
  | NUMBER, VInt _ | NUMBER, VFloat _ => True
  | TRUE, VBool _ | FALSE, VBool _ | NULL, VNone | EOF, _ => True
  | (NUMBER | TRUE | FALSE | NULL), _ => False
  | _, VStr _ => True
  | _, _ => False
  end.

Lemma number_value_num text v :
  number_value text = Ok v -> match v with VInt _ | VFloat _ => True | _ => False end.
Proof.
  unfold number_value. intros H.
  destruct (existsb _ _); [destruct (float_of_str _) as [|[]|]|destruct (int_of_str _) as [|[]|]];
    by inv_res.
Qed.

Lemma single_char_value c t : single_char c = Some t -> tok_ok (tok_str t (String c "") 0).
Proof.
  unfold single_char. intros H. destruct (List.find _ _) as [p|] eqn:E; [|done].
  apply List.find_some in E as [Hin _]. injection H as <-. simpl in Hin.
  repeat (destruct Hin as [<-|Hin]; [done|]). done.
Qed.

Lemma word_token_ok text i : tok_ok (word_token text i).
Proof.
  unfold word_token.
  destruct (keyword_cases text) as [E|[E|[E|[E|[E|[E|E]]]]]]; by rewrite E.
Qed.

Lemma lex_one_tok_ok i ch rest t r : lex_one i ch rest = Ok (Some t, r) -> tok_ok t.
Proof.
  unfold lex_one. intros H.
  repeat (case_match; [by simplify_eq/=|]).
  case_match eqn:Hs; [simplify_eq/=; by apply single_char_value in Hs|].
  case_match.
  { destruct (span _ (ch :: rest)) as [a b]. inv_res.
    match goal with H : number_value _ = _ |- _ => apply number_value_num in H end.
    unfold tok_ok; simpl. by case_match. }
  case_match; [repeat case_match; by simplify_eq/=|].
  case_match; [|done]. destruct (span _ (ch :: rest)) as [a b]. simplify_eq/=.
  apply word_token_ok.
Qed.

Lemma tokenize_tok_ok source ts : tokenize source = Ok ts -> Forall tok_ok ts.
Proof.
  unfold tokenize. generalize (String.length source) 0%nat (chars source).
  intros fuel. revert ts. induction fuel as [|fuel IH]; intros ts i src H;
    destruct src as [|c src]; simpl in H; inv_res; try by repeat constructor.
  destruct x as [t r]. inv_res.
  match goal with H : tokenize_go _ _ _ = _ |- _ => apply IH in H end.
  destruct t; [|done]. constructor; [|done]. by eapply lex_one_tok_ok.
Qed.

(** * Properties *)

(** Tokenizing any text terminates, with [SELSyntaxError] as the only exception;
    the tokens it returns have strictly increasing source positions, end with one
    end marker placed at the length of the text and hold no other. *)
Theorem tokenize_spec source :
  match tokenize source with
  | Ok ts => StronglySorted lt (map tk_pos ts) /\ ends_with_eof ts /\
      List.last ts (mkToken EOF VNone 0) = mkToken EOF VNone (String.length source)
  | Raise e => e = SELSyntaxError
  | NoFuel => False
  end.
Proof.
  pose proof (tokenize_fuel source). pose proof (tokenize_raises source).
  destruct (tokenize source) as [ts|e|] eqn:E; [|done|done].
  split; [|split; [by eapply tokenize_ends_with_eof|]].
  - unfold tokenize in E. by eapply tokenize_go_stream, stream_positions in E as [? _].
  - unfold tokenize in E. apply tokenize_go_stream, stream_last in E. by rewrite length_chars in E.
Qed.

(** The text of a token list: each token followed by a blank. *)
Definition print_tokens (ts : list Token) : string :=
  unchars (flat_map (fun t => tok_text t ++ [" "%char]) ts).

(** The lexer reads back what the printer writes: tokenizing the text of any list
    of printable tokens (natural number literals, strings of any characters,
    identifiers, keywords, operators and punctuation) gives those tokens, with their
    values, and the end marker. *)
Theorem tokenize_print_roundtrip ts :
  Forall printable ts ->
  exists ts', tokenize (print_tokens ts) = Ok ts' /\ map erase ts' = map erase ts ++ [(EOF, VNone)].
Proof.
  intros H. unfold tokenize, print_tokens. rewrite chars_unchars, <- length_chars, chars_unchars.
  by apply tokenize_go_print.
Qed.

Definition sample_printable : list Token :=
  [mkToken IDENT (VStr "len") 0; mkToken LPAREN (VStr "(") 0; mkToken STRING (VStr "a\'b") 0;
   mkToken RPAREN (VStr ")") 0; mkToken GTE (VStr ">=") 0; mkToken NUMBER (VInt 42) 0].

Lemma tokenize_print_roundtrip_witness :
  exists ts', tokenize (print_tokens sample_printable) = Ok ts' /\
    map erase ts' = map erase sample_printable ++ [(EOF, VNone)].
Proof.
  apply (tokenize_print_roundtrip sample_printable).
  repeat (apply List.Forall_cons); [..|apply List.Forall_nil].
  all: try exact I; try reflexivity.
  - split; [reflexivity|]. split; [repeat constructor|reflexivity].
  - split; [lia|]. apply Nat.leb_le. vm_compute. reflexivity.
Defined.
