(* ===== verification/SelParser.v ===== *)
(** * SEL parser

    [contexts/workflow/sel/ast_nodes.py] and [contexts/workflow/sel/parser.py].
    The parser state [(_tokens, _pos)] is the suffix [_tokens[_pos:]]; a method
    returns its node and the suffix it leaves, or raises.  The grammar levels
    that share the shape [sub (op sub)*] share the combinator [chain].

    The file also states the grammar of the module docstring as an inductive
    relation with the depth each rule runs at, and proves that [parse] returns what it
    derives, and nothing else as long as the indices between brackets are integers,
    which the grammar asks for and the code does not ([fractional_index]). *)

From S2P Require Import Prelude PyFloat PyValue SelLexer.
(** ** Syntax trees *)

Inductive seg := SegName (s : string) | SegIndex (n : Z).

Inductive ASTNode :=
  | NumberLit (value : pyval) (depth : nat)
  | StringLit (value : string) (depth : nat)
  | BoolLit (value : bool) (depth : nat)
  | NullLit (depth : nat)
  | VarRef (segments : list seg) (depth : nat)
  | BinOp (op : string) (left right : ASTNode) (depth : nat)
  | UnaryOp (op : string) (operand : ASTNode) (depth : nat)
  | FuncCall (name : string) (args : list ASTNode) (depth : nat).

Definition node_depth (a : ASTNode) : nat :=
  match a with
  | NumberLit _ d | StringLit _ d | BoolLit _ d | NullLit d | VarRef _ d
  | BinOp _ _ _ d | UnaryOp _ _ d | FuncCall _ _ d => d
  end.

(** ** The recursive descent *)

Definition MAX_AST_DEPTH : nat := 16.

Abbreviation presult := (res (ASTNode * list Token)).
Abbreviation parser := (nat -> list Token -> presult).

Definition peek (ts : list Token) : res Token :=
  match ts with t :: _ => Ok t | [] => Raise IndexError end.
Definition advance (ts : list Token) : res (Token * list Token) :=
  match ts with t :: ts => Ok (t, ts) | [] => Raise IndexError end.
Definition expect (ty : TokenType) (ts : list Token) : res (Token * list Token) :=
  '(tok, ts) ← advance ts;
  if decide (tk_type tok = ty) then Ok (tok, ts) else Raise SELSyntaxError.
Definition check_depth (depth : nat) : res unit :=
  if (MAX_AST_DEPTH <? depth)%nat then Raise SELBudgetExceeded else Ok tt.

(** The loop [while peek().type in ops: left = BinOp(op, left, sub(depth + 1))].
    Every round consumes the operator, so the number of remaining tokens bounds
    the rounds. *)
Fixpoint chain_loop (fuel : nat) (ops : TokenType -> bool) (opname : Token -> res string)
    (sub : parser) (depth : nat) (left : ASTNode) (ts : list Token) : presult :=
  tok ← peek ts;
  if ops (tk_type tok) then
    match fuel with
    | O => NoFuel
    | S fuel =>
        '(op_tok, ts) ← advance ts;
        '(rhs, ts) ← sub (S depth) ts;
        op ← opname op_tok;
        chain_loop fuel ops opname sub depth (BinOp op left rhs depth) ts
    end
  else Ok (left, ts).

Definition chain (ops : TokenType -> bool) (opname : Token -> res string) (sub : parser) : parser :=
  fun depth ts =>
    _ ← check_depth depth;
    '(lhs, ts) ← sub (S depth) ts;
    chain_loop (length ts) ops opname sub depth lhs ts.

Definition tok_value_str (t : Token) : res string := py_str (tk_value t).

Definition or_ops (t : TokenType) : bool := bool_decide (t = OR).
Definition and_ops (t : TokenType) : bool := bool_decide (t = AND).
Definition cmp_ops (t : TokenType) : bool :=
  match t with EQ | NEQ | LT | LTE | GT | GTE => true | _ => false end.
Definition add_ops (t : TokenType) : bool := match t with PLUS | MINUS => true | _ => false end.
Definition mul_ops (t : TokenType) : bool :=
  match t with STAR | SLASH | PERCENT => true | _ => false end.

(** The index between brackets. *)
Definition path_index (ts : list Token) : res (seg * list Token) :=
  idx ← peek ts;
  if decide (tk_type idx = NUMBER) then
    '(_, ts) ← advance ts; n ← py_int (tk_value idx); Ok (SegIndex n, ts)
  else if decide (tk_type idx = STRING) then
    '(_, ts) ← advance ts; s ← tok_value_str idx; Ok (SegName s, ts)
  else Raise SELSyntaxError.

(** Additional path segments: [.ident], [[int]] or [[string]]. *)
Fixpoint var_ref_loop (fuel : nat) (segments : list seg) (ts : list Token)
    : res (list seg * list Token) :=
  tok ← peek ts;
  if decide (tk_type tok = DOT \/ tk_type tok = LBRACKET) then
    match fuel with
    | O => NoFuel
    | S fuel =>
        if decide (tk_type tok = DOT) then
          '(_, ts) ← advance ts;
          '(s, ts) ← expect IDENT ts;
          name ← tok_value_str s;
          var_ref_loop fuel (segments ++ [SegName name]) ts
        else
          '(_, ts) ← advance ts;
          '(sg, ts) ← path_index ts;
          '(_, ts) ← expect RBRACKET ts;
          var_ref_loop fuel (segments ++ [sg]) ts
    end
  else Ok (segments, ts).

Definition var_ref : parser := fun depth ts =>
  '(_, ts) ← expect VAR_REF_START ts;
  '(tok, ts) ← expect IDENT ts;
  name ← tok_value_str tok;
  '(segments, ts) ← var_ref_loop (length ts) [SegName name] ts;
  '(_, ts) ← expect VAR_REF_END ts;
  Ok (VarRef segments depth, ts).

(** [while peek().type == COMMA: args.append(or_expr(depth + 1))] *)
Fixpoint args_loop (fuel : nat) (or_expr : parser) (depth : nat) (args : list ASTNode)
    (ts : list Token) : res (list ASTNode * list Token) :=
  tok ← peek ts;
  if decide (tk_type tok = COMMA) then
    match fuel with
    | O => NoFuel
    | S fuel =>
        '(_, ts) ← advance ts;
        '(a, ts) ← or_expr (S depth) ts;
        args_loop fuel or_expr depth (args ++ [a]) ts
    end
  else Ok (args, ts).

Definition func_call (or_expr : parser) : parser := fun depth ts =>
  '(name_tok, ts) ← advance ts;
  '(_, ts) ← expect LPAREN ts;
  tok ← peek ts;
  '(args, ts) ←
    (if decide (tk_type tok = RPAREN) then Ok ([], ts)
     else '(a, ts) ← or_expr (S depth) ts; args_loop (length ts) or_expr depth [a] ts);
  '(_, ts) ← expect RPAREN ts;
  name ← tok_value_str name_tok;
  Ok (FuncCall name args depth, ts).

Definition primary (or_expr : parser) : parser := fun depth ts =>
  _ ← check_depth depth;
  tok ← peek ts;
  match tk_type tok with
  | NUMBER => '(_, ts) ← advance ts; Ok (NumberLit (tk_value tok) depth, ts)
  | STRING => '(_, ts) ← advance ts; s ← tok_value_str tok; Ok (StringLit s depth, ts)
  | TRUE | FALSE => '(_, ts) ← advance ts; Ok (BoolLit (py_bool (tk_value tok)) depth, ts)
  | NULL => '(_, ts) ← advance ts; Ok (NullLit depth, ts)
  | VAR_REF_START => var_ref depth ts
  | IDENT =>
      match ts with
      | _ :: t' :: _ => if decide (tk_type t' = LPAREN) then func_call or_expr depth ts
                        else Raise SELSyntaxError
      | _ => Raise SELSyntaxError
      end
  | LPAREN =>
      '(_, ts) ← advance ts;
      '(e, ts) ← or_expr (S depth) ts;
      '(_, ts) ← expect RPAREN ts;
      Ok (e, ts)
  | _ => Raise SELSyntaxError
  end.

(** The two self-recursive levels recurse on the suffix after their operator. *)
Fixpoint unary (or_expr : parser) (depth : nat) (ts : list Token) {struct ts} : presult :=
  _ ← check_depth depth;
  tok ← peek ts;
  if decide (tk_type tok = MINUS) then
    match ts with
    | _ :: ts => '(operand, ts) ← unary or_expr (S depth) ts; Ok (UnaryOp "-" operand depth, ts)
    | [] => Raise IndexError
    end
  else primary or_expr depth ts.

Definition mul_expr (or_expr : parser) : parser := chain mul_ops tok_value_str (unary or_expr).
Definition add_expr (or_expr : parser) : parser := chain add_ops tok_value_str (mul_expr or_expr).

Definition cmp_expr (or_expr : parser) : parser := fun depth ts =>
  _ ← check_depth depth;
  '(lhs, ts) ← add_expr or_expr (S depth) ts;
  tok ← peek ts;
  if cmp_ops (tk_type tok) then
    '(op_tok, ts) ← advance ts;
    '(rhs, ts) ← add_expr or_expr (S depth) ts;
    op ← tok_value_str op_tok;
    Ok (BinOp op lhs rhs depth, ts)
  else Ok (lhs, ts).

Fixpoint not_expr (or_expr : parser) (depth : nat) (ts : list Token) {struct ts} : presult :=
  _ ← check_depth depth;
  tok ← peek ts;
  if decide (tk_type tok = NOT) then
    match ts with
    | _ :: ts => '(operand, ts) ← not_expr or_expr (S depth) ts; Ok (UnaryOp "not" operand depth, ts)
    | [] => Raise IndexError
    end
  else cmp_expr or_expr depth ts.

Definition and_expr (or_expr : parser) : parser :=
  chain and_ops (fun _ => Ok "and"%string) (not_expr or_expr).

(** [_or_expr], tied into the knot.  The fuel bounds the nesting of parentheses
    and calls; each nested call runs at a larger depth, and past [MAX_AST_DEPTH]
    the depth check raises first. *)
Fixpoint or_expr (fuel : nat) : parser := fun depth ts =>
  match fuel with
  | O => _ ← check_depth depth; NoFuel
  | S fuel => chain or_ops (fun _ => Ok "or"%string) (and_expr (or_expr fuel)) depth ts
  end.

Definition parse (tokens : list Token) : res ASTNode :=
  '(node, ts) ← or_expr MAX_AST_DEPTH 1 tokens;
  tok ← peek ts;
  if decide (tk_type tok = EOF) then Ok node else Raise SELSyntaxError.

(** ** The grammar

    [derives_by index l d ts a]: rule [l] of the grammar, run at depth [d], derives the
    tokens [ts] with tree [a].  Every rule of the grammar respects the depth
    limit; the rules are those of the module docstring. *)
Inductive level := LOr | LAnd | LNot | LCmp | LAdd | LMul | LUnary | LPrimary.

(** The levels of shape [sub (op sub)*]: sub-level, operators, operator name. *)
Definition chain_level (l : level) : option (level * (TokenType -> bool) * (Token -> res string)) :=
  match l with
  | LOr => Some (LAnd, or_ops, fun _ => Ok "or"%string)
  | LAnd => Some (LNot, and_ops, fun _ => Ok "and"%string)
  | LAdd => Some (LMul, add_ops, tok_value_str)
  | LMul => Some (LUnary, mul_ops, tok_value_str)
  | _ => None
  end.

Section grammar.
(** Which literals are an index, and of which position. *)
Context (index : pyval -> Z -> Prop).

Inductive seg_path_by : list Token -> list seg -> Prop :=
  | segs_nil : seg_path_by [] []
  | segs_dot o n s ts p :
      tk_type o = DOT -> tk_type n = IDENT -> tok_value_str n = Ok s ->
      seg_path_by ts p -> seg_path_by (o :: n :: ts) (SegName s :: p)
  | segs_index o n z c ts p :
      tk_type o = LBRACKET -> tk_type n = NUMBER -> index (tk_value n) z ->
      tk_type c = RBRACKET -> seg_path_by ts p -> seg_path_by (o :: n :: c :: ts) (SegIndex z :: p)
  | segs_key o n s c ts p :
      tk_type o = LBRACKET -> tk_type n = STRING -> tok_value_str n = Ok s ->
      tk_type c = RBRACKET -> seg_path_by ts p -> seg_path_by (o :: n :: c :: ts) (SegName s :: p).

Inductive derives_by : level -> nat -> list Token -> ASTNode -> Prop :=
  | d_chain_one l sub ops nm d ts a :
      chain_level l = Some (sub, ops, nm) -> (d <= MAX_AST_DEPTH)%nat ->
      derives_by sub (S d) ts a -> derives_by l d ts a
  | d_chain_more l sub ops nm d ts1 a o op ts2 b :
      chain_level l = Some (sub, ops, nm) ->
      derives_by l d ts1 a -> ops (tk_type o) = true -> nm o = Ok op ->
      derives_by sub (S d) ts2 b -> derives_by l d (ts1 ++ o :: ts2) (BinOp op a b d)
  | d_not d o ts a :
      (d <= MAX_AST_DEPTH)%nat -> tk_type o = NOT ->
      derives_by LNot (S d) ts a -> derives_by LNot d (o :: ts) (UnaryOp "not" a d)
  | d_not_cmp d ts a : derives_by LCmp d ts a -> derives_by LNot d ts a
  | d_cmp_one d ts a :
      (d <= MAX_AST_DEPTH)%nat -> derives_by LAdd (S d) ts a -> derives_by LCmp d ts a
  | d_cmp_op d ts1 a o op ts2 b :
      (d <= MAX_AST_DEPTH)%nat -> derives_by LAdd (S d) ts1 a ->
      cmp_ops (tk_type o) = true -> tok_value_str o = Ok op ->
      derives_by LAdd (S d) ts2 b -> derives_by LCmp d (ts1 ++ o :: ts2) (BinOp op a b d)
  | d_neg d o ts a :
      (d <= MAX_AST_DEPTH)%nat -> tk_type o = MINUS ->
      derives_by LUnary (S d) ts a -> derives_by LUnary d (o :: ts) (UnaryOp "-" a d)
  | d_primary d ts a : derives_by LPrimary d ts a -> derives_by LUnary d ts a
  | d_number d t :
      (d <= MAX_AST_DEPTH)%nat -> tk_type t = NUMBER ->
      derives_by LPrimary d [t] (NumberLit (tk_value t) d)
  | d_string d t s :
      (d <= MAX_AST_DEPTH)%nat -> tk_type t = STRING -> tok_value_str t = Ok s ->
      derives_by LPrimary d [t] (StringLit s d)
  | d_bool d t :
      (d <= MAX_AST_DEPTH)%nat -> tk_type t = TRUE \/ tk_type t = FALSE ->
      derives_by LPrimary d [t] (BoolLit (py_bool (tk_value t)) d)
  | d_null d t :
      (d <= MAX_AST_DEPTH)%nat -> tk_type t = NULL -> derives_by LPrimary d [t] (NullLit d)
  | d_var d o n s ts p c :
      (d <= MAX_AST_DEPTH)%nat -> tk_type o = VAR_REF_START -> tk_type n = IDENT ->
      tok_value_str n = Ok s -> seg_path_by ts p -> tk_type c = VAR_REF_END ->
      derives_by LPrimary d (o :: n :: ts ++ [c]) (VarRef (SegName s :: p) d)
  | d_call0 d n s o c :
      (d <= MAX_AST_DEPTH)%nat -> tk_type n = IDENT -> tok_value_str n = Ok s ->
      tk_type o = LPAREN -> tk_type c = RPAREN ->
      derives_by LPrimary d [n; o; c] (FuncCall s [] d)
  | d_call d n s o ts args c :
      (d <= MAX_AST_DEPTH)%nat -> tk_type n = IDENT -> tok_value_str n = Ok s ->
      tk_type o = LPAREN -> derives_args_by d ts args -> tk_type c = RPAREN ->
      derives_by LPrimary d (n :: o :: ts ++ [c]) (FuncCall s args d)
  | d_paren d o ts a c :
      (d <= MAX_AST_DEPTH)%nat -> tk_type o = LPAREN -> derives_by LOr (S d) ts a ->
      tk_type c = RPAREN -> derives_by LPrimary d (o :: ts ++ [c]) a
with derives_args_by : nat -> list Token -> list ASTNode -> Prop :=
  | da_one d ts a : derives_by LOr (S d) ts a -> derives_args_by d ts [a]
  | da_more d ts1 args o ts2 a :
      derives_args_by d ts1 args -> tk_type o = COMMA -> derives_by LOr (S d) ts2 a ->
      derives_args_by d (ts1 ++ o :: ts2) (args ++ [a]).
End grammar.

(** The literals the grammar allows, and those the code allows, truncated. *)
Definition integer (v : pyval) (z : Z) : Prop := v = VInt z.
Definition truncated (v : pyval) (z : Z) : Prop := py_int v = Ok z.
Abbreviation seg_path := (seg_path_by truncated).
Abbreviation derives := (derives_by truncated).
Abbreviation derives_args := (derives_args_by truncated).

(** ** Soundness and safety

    One statement per parser: on well-typed tokens that end with the end marker
    it never runs out of fuel or of tokens, raises only the errors below, and
    what it returns is derived from a non-empty prefix of its input. *)
Definition parse_error (e : exn) : Prop :=
  e = SELSyntaxError \/ e = SELBudgetExceeded \/ e = OverflowError \/ e = ValueError.

Definition wf_tokens (ts : list Token) : Prop := ends_with_eof ts /\ Forall tok_ok ts.

Definition yields {A} (ts : list Token) (P : list Token -> A -> Prop) (m : res (A * list Token)) : Prop :=
  match m with
  | Ok (a, r) => wf_tokens r /\ exists c, ts = c ++ r /\ P c a
  | Raise e => parse_error e
  | NoFuel => False
  end.

Arguments yields : simpl never.

Definition sound (l : level) (p : parser) (d : nat) : Prop :=
  forall ts, wf_tokens ts ->
    yields ts (fun c a => c <> [] /\ derives l d c a) (p d ts).

Lemma wf_tokens_nil : ~ wf_tokens [].
Proof. intros [H _]. inversion H. Qed.

Lemma wf_tokens_cons t ts :
  wf_tokens (t :: ts) -> tk_type t <> EOF -> wf_tokens ts /\ tok_ok t.
Proof. intros [H1 H2] Ht. inversion H1; inversion H2; subst; done. Qed.

Lemma wf_tokens_tok_ok t ts : wf_tokens (t :: ts) -> tok_ok t.
Proof. intros [_ H]. by inversion H. Qed.

(** Consuming the head, in continuation style. *)
Lemma yields_bind {A B} ts (P : list Token -> A -> Prop) (Q : list Token -> B -> Prop)
    (m : res (A * list Token)) (f : A * list Token -> res (B * list Token)) :
  yields ts P m ->
  (forall c a r, ts = c ++ r -> wf_tokens r -> P c a ->
     yields r (fun c' b => Q (c ++ c') b) (f (a, r))) ->
  yields ts Q (m ≫= f).
Proof.
  destruct m as [[a r]|e|]; unfold yields; simpl; [|done|done]. intros (Hr & c & -> & HP) Hf.
  specialize (Hf c a r eq_refl Hr HP). unfold yields in *.
  destruct (f (a, r)) as [[b r']|e|]; [|done|done]. destruct Hf as (Hr' & c' & -> & HQ).
  split; [done|]. exists (c ++ c'). by rewrite app_assoc.
Qed.

Lemma yields_expect ty ts :
  wf_tokens ts -> ty <> EOF ->
  yields ts (fun c t => c = [t] /\ tk_type t = ty /\ tok_ok t) (expect ty ts).
Proof.
  intros Hts Hty. destruct ts as [|t ts]; [by apply wf_tokens_nil in Hts|].
  unfold expect. simpl. case_decide as Ht; simpl; [|by left]. subst.
  apply wf_tokens_cons in Hts as [Hts Ht]; [|done]. split; [done|]. by exists [t].
Qed.

Lemma yields_ret {A} ts (Q : list Token -> A -> Prop) a :
  wf_tokens ts -> Q [] a -> yields ts Q (Ok (a, ts)).
Proof. intros Hts HQ. split; [done|]. by exists []. Qed.

Lemma tok_ok_str t :
  tok_ok t -> match tk_type t with NUMBER | TRUE | FALSE | NULL | EOF => False | _ => True end ->
  exists s, tk_value t = VStr s /\ tok_value_str t = Ok s.
Proof.
  unfold tok_ok, tok_value_str. intros H1 H2.
  destruct (tk_type t); try done; destruct (tk_value t); try done; by eexists.
Qed.

Lemma chain_level_ok l sl ops nm :
  chain_level l = Some (sl, ops, nm) ->
  ops EOF = false /\
  forall t, tok_ok t -> ops (tk_type t) = true -> exists op, nm t = Ok op.
Proof.
  destruct l; intros H; simplify_eq/=; split; try done; intros t Ht Ho; try by eexists.
  all: destruct (tok_ok_str t Ht) as (s & _ & Hs); [by destruct (tk_type t)|by eexists].
Qed.

Lemma check_depth_cases d :
  (check_depth d = Ok tt /\ (d <= MAX_AST_DEPTH)%nat) \/
  (check_depth d = Raise SELBudgetExceeded /\ (MAX_AST_DEPTH < d)%nat).
Proof.
  unfold check_depth. case Nat.ltb_spec; intros H; [right|left]; done.
Qed.

Lemma yields_depth {A} ts (Q : list Token -> A -> Prop) d (m : res (A * list Token)) :
  ((d <= MAX_AST_DEPTH)%nat -> yields ts Q m) ->
  yields ts Q (_ ← check_depth d; m).
Proof.
  intros H. destruct (check_depth_cases d) as [[-> Hd]|[-> _]]; simpl; [auto|].
  right; by left.
Qed.

Lemma yields_mono {A} ts (P Q : list Token -> A -> Prop) m :
  (forall c a, P c a -> Q c a) -> yields ts P m -> yields ts Q m.
Proof. unfold yields. destruct m as [[a r]| |]; naive_solver. Qed.

Section chain_sound.
Context (l sl : level) (ops : TokenType -> bool) (nm : Token -> res string).
Hypothesis Hl : chain_level l = Some (sl, ops, nm).
Context (sub : parser) (d : nat).
Hypothesis Hsub : sound sl sub (S d).

Lemma chain_loop_yields fuel left ts c0 :
  derives l d c0 left -> (length ts <= fuel)%nat -> wf_tokens ts ->
  yields ts (fun c a => derives l d (c0 ++ c) a) (chain_loop fuel ops nm sub d left ts).
Proof.
  destruct (chain_level_ok _ _ _ _ Hl) as [Heof Hnm].
  revert left ts c0. induction fuel as [|fuel IH]; intros left ts c0 Hd Hlen Hts;
    (destruct ts as [|t ts]; [by apply wf_tokens_nil in Hts|]); simpl in *; [lia|].
  destruct (ops (tk_type t)) eqn:Hop.
  2: { apply yields_ret; [done|]. by rewrite app_nil_r. }
  pose proof (wf_tokens_tok_ok _ _ Hts) as Htok.
  destruct (wf_tokens_cons _ _ Hts) as [Hts' _]; [intros E; by rewrite E, Heof in Hop|].
  destruct (Hnm t Htok Hop) as [op Hnm']. 
  specialize (Hsub ts Hts'). destruct (sub (S d) ts) as [[b r]|e|]; simpl in *; [|done|done].
  destruct Hsub as (Hr & c & -> & Hne & Hb). rewrite Hnm'. simpl.
  assert (Hd' : derives l d (c0 ++ t :: c) (BinOp op left b d)) by (by eapply d_chain_more).
  rewrite length_app in Hlen.
  pose proof (IH _ r _ Hd' ltac:(lia) Hr) as H. unfold yields in *.
  destruct (chain_loop _ _ _ _ _ _ _) as [[a r']|e|]; [|done|done].
  destruct H as (Hr' & c' & -> & H). split; [done|]. exists (t :: c ++ c').
  simpl. rewrite <- !app_assoc in *. done.
Qed.

Lemma chain_sound : sound l (chain ops nm sub) d.
Proof.
  intros ts Hts. unfold chain. apply yields_depth. intros Hd.
  eapply yields_bind; [by apply Hsub|]. intros c a r -> Hr [Hne Ha]. simpl.
  eapply yields_mono; [|apply chain_loop_yields; [by eapply d_chain_one| |done]].
  - simpl. intros c' a' H. split; [by destruct c|done].
  - done.
Qed.
End chain_sound.

Lemma yields_advance t ts :
  wf_tokens (t :: ts) -> tk_type t <> EOF ->
  yields (t :: ts) (fun c u => c = [t] /\ u = t) (advance (t :: ts)).
Proof. intros Hts Ht. apply wf_tokens_cons in Hts as [Hts _]; [|done]. split; [done|]. by exists [t]. Qed.

(** A step that consumes nothing. *)
Lemma yields_pure {A B} ts (Q : list Token -> B -> Prop) (m : res A) (f : A -> res (B * list Token)) :
  has_fuel m -> only_raises parse_error m ->
  (forall a, m = Ok a -> yields ts Q (f a)) -> yields ts Q (m ≫= f).
Proof. destruct m; simpl; intros Hf He H; [by apply H|done|by destruct Hf]. Qed.

Lemma tok_ok_str_ty t ty :
  tok_ok t -> tk_type t = ty ->
  match ty with NUMBER | TRUE | FALSE | NULL | EOF => False | _ => True end ->
  exists s, tok_value_str t = Ok s.
Proof. intros H <- Hty. destruct (tok_ok_str t H Hty) as (s & _ & Hs). by exists s. Qed.

Definition index_of (n : Token) (sg : seg) : Prop :=
  (tk_type n = NUMBER /\ exists z, py_int (tk_value n) = Ok z /\ sg = SegIndex z) \/
  (tk_type n = STRING /\ exists s, tok_value_str n = Ok s /\ sg = SegName s).

Lemma path_index_yields ts :
  wf_tokens ts -> yields ts (fun c sg => exists n, c = [n] /\ index_of n sg) (path_index ts).
Proof.
  intros Hts. destruct ts as [|n ts]; [by apply wf_tokens_nil in Hts|].
  pose proof (wf_tokens_tok_ok _ _ Hts) as Hok. unfold path_index. simpl peek.
  cbn [mbind res_bind]. case_decide as Hn; [|case_decide as Hs; [|by left]].
  - eapply yields_bind; [apply yields_advance; [done|by rewrite Hn]|].
    intros c u r E Hr [-> ->]. simplify_eq/=.
    apply yields_pure; [apply py_int_fuel| |].
    + unfold tok_ok in Hok. rewrite Hn in Hok. destruct (tk_value n); try done; simpl.
      eapply only_raises_mono; [|apply int_of_float_raises]. unfold parse_error. naive_solver.
    + intros z Hz. apply yields_ret; [done|]. exists n. split; [done|]. left. eauto.
  - eapply yields_bind; [apply yields_advance; [done|by rewrite Hs]|].
    intros c u r E Hr [-> ->]. simplify_eq/=.
    destruct (tok_ok_str_ty n _ Hok Hs) as [s Hv]; [done|]. rewrite Hv. simpl.
    apply yields_ret; [done|]. exists n. split; [done|]. right. eauto.
Qed.

Lemma var_ref_loop_yields fuel segs ts :
  (length ts <= fuel)%nat -> wf_tokens ts ->
  yields ts (fun c p => exists q, p = segs ++ q /\ seg_path c q) (var_ref_loop fuel segs ts).
Proof.
  revert segs ts. induction fuel as [|fuel IH]; intros segs ts Hlen Hts;
    (destruct ts as [|o ts]; [by apply wf_tokens_nil in Hts|]); simpl in Hlen; [lia|].
  cbn -[advance expect path_index]. case_decide as Ho.
  2: { apply yields_ret; [done|]. exists []. rewrite app_nil_r. split; [done|constructor]. }
  assert (Hne : tk_type o <> EOF) by (intros E; rewrite E in Ho; naive_solver).
  case_decide as Hdot;
    (eapply yields_bind; [by apply yields_advance|]; intros c u r E Hr [-> ->]; simplify_eq/=).
  - eapply yields_bind; [by apply yields_expect|]. intros c n r' -> Hr' (-> & Hn & Hok).
    destruct (tok_ok_str_ty n _ Hok Hn) as [s Hs]; [done|]. rewrite Hs.
    eapply yields_mono; [|apply IH; [simpl in Hlen; lia|done]].
    intros c p (q & -> & Hq). exists (SegName s :: q). rewrite <- app_assoc. split; [done|].
    by econstructor.
  - destruct Ho as [|Hlb]; [done|].
    eapply yields_bind; [by apply path_index_yields|]. intros c sg r' -> Hr' (n & -> & Hi).
    eapply yields_bind; [by apply yields_expect|]. intros c rb r2 -> Hr2 (-> & Hrb & _).
    eapply yields_mono; [|apply IH; [simpl in Hlen; lia|done]].
    intros c p (q & -> & Hq). exists (sg :: q). rewrite <- app_assoc. split; [done|].
    destruct Hi as [(Hn & z & Hz & ->)|(Hn & s & Hs & ->)]; by econstructor.
Qed.

Lemma var_ref_sound d o ts :
  (d <= MAX_AST_DEPTH)%nat -> wf_tokens (o :: ts) -> tk_type o = VAR_REF_START ->
  yields (o :: ts) (fun c a => c <> [] /\ derives LPrimary d c a) (var_ref d (o :: ts)).
Proof.
  intros Hd Hts Ho. unfold var_ref.
  eapply yields_bind; [by apply yields_expect|]. intros c o' r E Hr (-> & Ho' & _).
  simplify_eq/=.
  eapply yields_bind; [by apply yields_expect|]. intros c n r' -> Hr' (-> & Hn & Hok).
  destruct (tok_ok_str_ty n _ Hok Hn) as [s Hs]; [done|]. rewrite Hs. cbn [mbind res_bind].
  eapply yields_bind; [by apply var_ref_loop_yields|]. intros c p r2 -> Hr2 (q & -> & Hq).
  eapply yields_bind; [by apply yields_expect|]. intros c' e r3 -> Hr3 (-> & He & _).
  apply yields_ret; [done|]. simpl. split; [done|]. by apply d_var.
Qed.

(** What the grammar levels need from the nested expression parser: soundness at
    every larger depth. *)
Section levels_sound.
Context (orp : parser) (k : nat).
Hypothesis Hor : forall d, (k < d)%nat -> sound LOr orp d.

Lemma args_loop_yields fuel d args ts c0 :
  (k <= d)%nat -> derives_args d c0 args -> (length ts <= fuel)%nat -> wf_tokens ts ->
  yields ts (fun c p => derives_args d (c0 ++ c) p) (args_loop fuel orp d args ts).
Proof.
  intros Hk. revert args ts c0. induction fuel as [|fuel IH]; intros args ts c0 Hd Hlen Hts;
    (destruct ts as [|o ts]; [by apply wf_tokens_nil in Hts|]); simpl in Hlen; [lia|].
  cbn -[advance]. case_decide as Ho.
  2: { apply yields_ret; [done|]. by rewrite app_nil_r. }
  eapply yields_bind; [apply yields_advance; [done|by rewrite Ho]|].
  intros c u r E Hr [-> ->]. simplify_eq/=.
  eapply yields_bind; [apply Hor; [lia|done]|]. intros c a r' -> Hr' [Hne Ha].
  rewrite length_app in Hlen.
  eapply yields_mono; [|apply (IH _ _ (c0 ++ o :: c)); [by econstructor|lia|done]].
  intros c' p Hp. simpl in *. by rewrite <- app_assoc in Hp.
Qed.

Lemma func_call_sound d n o ts :
  (k <= d)%nat -> (d <= MAX_AST_DEPTH)%nat -> wf_tokens (n :: o :: ts) ->
  tk_type n = IDENT -> tk_type o = LPAREN ->
  yields (n :: o :: ts) (fun c a => c <> [] /\ derives LPrimary d c a)
    (func_call orp d (n :: o :: ts)).
Proof.
  intros Hk Hd Hts Hn Ho. unfold func_call.
  destruct (tok_ok_str_ty n IDENT (wf_tokens_tok_ok _ _ Hts) Hn) as [s Hs]; [done|].
  eapply yields_bind; [apply yields_advance; [done|by rewrite Hn]|].
  intros c u r E Hr [-> ->]. simplify_eq/=.
  eapply yields_bind; [by apply yields_expect|]. intros c o' r E Hr' (-> & Ho' & _).
  simplify_eq/=. destruct r as [|t r]; [by apply wf_tokens_nil in Hr'|].
  cbn [peek mbind res_bind]. case_decide as Ht.
  - eapply yields_bind; [apply yields_ret with (Q := fun c p => c = [] /\ p = []); [done|by split]|].
    intros c p r' E Hr2 [-> ->]. simplify_eq/=.
    eapply yields_bind; [by apply yields_expect|]. intros c e r3 E Hr3 (-> & He & _).
    simplify_eq/=. rewrite Hs. apply yields_ret; [done|]. simpl. split; [done|]. by apply d_call0.
  - eapply yields_bind with (P := fun c p => derives_args d c p).
    { eapply yields_bind; [apply Hor; [lia|done]|]. intros c a r' E Hr2 [_ Ha].
      apply args_loop_yields; [done|by constructor|done|done]. }
    intros c p r' E Hr2 Hp.
    eapply yields_bind; [by apply yields_expect|]. intros c' e r3 -> Hr3 (-> & He & _).
    rewrite Hs. apply yields_ret; [done|]. simpl. split; [done|]. by apply d_call.
Qed.

Lemma paren_sound d o ts :
  (k <= d)%nat -> (d <= MAX_AST_DEPTH)%nat -> wf_tokens ts -> tk_type o = LPAREN ->
  yields ts (fun c a => o :: c <> [] /\ derives LPrimary d (o :: c) a)
    ('(e, ts) ← orp (S d) ts; '(_, ts) ← expect RPAREN ts; Ok (e, ts)).
Proof.
  intros Hk Hd Hts Ho. eapply yields_bind; [apply Hor; [lia|done]|].
  intros c a r -> Hr [_ Ha].
  eapply yields_bind; [by apply yields_expect|]. intros c' e r' -> Hr' (-> & He & _).
  apply yields_ret; [done|]. simpl. split; [done|]. by apply d_paren.
Qed.

Lemma primary_sound d : (k <= d)%nat -> sound LPrimary (primary orp) d.
Proof.
  intros Hk ts Hts. unfold primary. apply yields_depth. intros Hd.
  destruct ts as [|t ts]; [by apply wf_tokens_nil in Hts|].
  cbn [peek mbind res_bind]. pose proof (wf_tokens_tok_ok _ _ Hts) as Hok.
  assert (Hadv : tk_type t <> EOF -> forall (Q : list Token -> ASTNode -> Prop) f,
    (wf_tokens ts -> yields ts (fun c' b => Q ([t] ++ c') b) (f (t, ts))) ->
    yields (t :: ts) Q (advance (t :: ts) ≫= f)).
  { intros Ht Q f Hf. eapply yields_bind; [by apply yields_advance|].
    intros c u r E Hr [-> ->]. simplify_eq/=. by apply Hf. }
  destruct (tk_type t) eqn:Ht; try (by left);
    try (apply Hadv; [done|intros Hts']; cbn [mbind res_bind];
         apply yields_ret; [done|]; simpl; split; [done|]; auto using d_number, d_bool, d_null; fail).
  - apply Hadv; [done|]. intros Hts'.
    destruct (tok_ok_str_ty t _ Hok Ht) as [s Hs]; [done|]. rewrite Hs.
    apply yields_ret; [done|]. split; [done|]. by apply d_string.
  - destruct ts as [|o ts]; [by left|]. case_decide as Ho; [|by left].
    by apply func_call_sound.
  - by apply var_ref_sound.
  - apply Hadv; [done|]. intros Hts'. by apply paren_sound.
Qed.

Lemma unary_sound d : (k <= d)%nat -> sound LUnary (unary orp) d.
Proof.
  intros Hk ts. revert d Hk. induction ts as [|t ts IH]; intros d Hk Hts;
    [by apply wf_tokens_nil in Hts|].
  cbn -[check_depth primary]. apply yields_depth. intros Hd. case_decide as Ht.
  - destruct (wf_tokens_cons _ _ Hts) as [Hts' _]; [by rewrite Ht|].
    specialize (IH (S d) ltac:(lia) Hts').
    eapply (yields_bind (t :: ts) (fun c a => exists c', c = t :: c' /\ derives LUnary (S d) c' a)).
    + unfold yields in *. destruct (unary orp (S d) ts) as [[a r]|e|]; [|done|done].
      destruct IH as (Hr & c & -> & _ & Ha). split; [done|]. exists (t :: c). eauto.
    + intros c a r E Hr (c' & -> & Ha). apply yields_ret; [done|]. rewrite app_nil_r.
      split; [done|]. by apply d_neg.
  - eapply yields_mono; [|by apply primary_sound]. intros c a [Hne Ha].
    split; [done|]. by apply d_primary.
Qed.

Lemma add_sound d : (k <= S d)%nat -> sound LAdd (add_expr orp) d.
Proof.
  intros Hk. apply (chain_sound LAdd LMul); [done|]. apply (chain_sound LMul LUnary); [done|].
  apply unary_sound. lia.
Qed.

Lemma cmp_sound d : (k <= d)%nat -> sound LCmp (cmp_expr orp) d.
Proof.
  intros Hk ts Hts. unfold cmp_expr. apply yields_depth. intros Hd.
  eapply yields_bind; [apply add_sound; [lia|done]|]. intros c a r -> Hr [Hne Ha].
  destruct r as [|o r]; [by apply wf_tokens_nil in Hr|].
  cbn [peek mbind res_bind]. destruct (cmp_ops (tk_type o)) eqn:Ho.
  - pose proof (wf_tokens_tok_ok _ _ Hr) as Hok.
    eapply yields_bind; [apply yields_advance; [done|intros E; by rewrite E in Ho]|].
    intros c' u r' E Hr' [-> ->]. simplify_eq/=.
    eapply yields_bind; [apply add_sound; [lia|done]|]. intros c2 b r2 -> Hr2 [Hne2 Hb].
    destruct (tok_ok_str o Hok) as (s & _ & Hs); [by destruct (tk_type o)|].
    rewrite Hs. apply yields_ret; [done|]. simpl. rewrite app_nil_r.
    split; [by destruct c|]. by eapply d_cmp_op.
  - apply yields_ret; [done|]. rewrite app_nil_r. split; [done|]. by apply d_cmp_one.
Qed.

Lemma not_sound d : (k <= d)%nat -> sound LNot (not_expr orp) d.
Proof.
  intros Hk ts. revert d Hk. induction ts as [|t ts IH]; intros d Hk Hts;
    [by apply wf_tokens_nil in Hts|].
  cbn -[check_depth cmp_expr]. apply yields_depth. intros Hd. case_decide as Ht.
  - destruct (wf_tokens_cons _ _ Hts) as [Hts' _]; [by rewrite Ht|].
    specialize (IH (S d) ltac:(lia) Hts').
    eapply (yields_bind (t :: ts) (fun c a => exists c', c = t :: c' /\ derives LNot (S d) c' a)).
    + unfold yields in *. destruct (not_expr orp (S d) ts) as [[a r]|e|]; [|done|done].
      destruct IH as (Hr & c & -> & _ & Ha). split; [done|]. exists (t :: c). eauto.
    + intros c a r E Hr (c' & -> & Ha). apply yields_ret; [done|]. rewrite app_nil_r.
      split; [done|]. by apply d_not.
  - eapply yields_mono; [|by apply cmp_sound]. intros c a [Hne Ha].
    split; [done|]. by apply d_not_cmp.
Qed.
End levels_sound.

Lemma or_expr_sound fuel d : (MAX_AST_DEPTH < fuel + d)%nat -> sound LOr (or_expr fuel) d.
Proof.
  revert d. induction fuel as [|fuel IH]; intros d Hd.
  - intros ts Hts. simpl. apply yields_depth. simpl in Hd. lia.
  - intros ts Hts. simpl or_expr. revert ts Hts. change (sound LOr (chain or_ops (fun _ => Ok "or"%string) (and_expr (or_expr fuel))) d).
    apply (chain_sound LOr LAnd); [done|]. apply (chain_sound LAnd LNot); [done|].
    apply (not_sound _ d); [|lia]. intros d' Hd'. apply IH. lia.
Qed.

(** ** Completeness *)

(** The tokens a rule can start with, and the tokens that would extend it. *)
Definition starts_primary (t : TokenType) : bool :=
  match t with
  | NUMBER | STRING | TRUE | FALSE | NULL | VAR_REF_START | IDENT | LPAREN => true
  | _ => false
  end.
Definition starts (l : level) (t : TokenType) : bool :=
  starts_primary t ||
  match l with
  | LPrimary => false
  | LUnary | LMul | LAdd | LCmp => bool_decide (t = MINUS)
  | LNot | LAnd | LOr => bool_decide (t = MINUS) || bool_decide (t = NOT)
  end.
Definition extends (l : level) (t : TokenType) : bool :=
  match l with
  | LPrimary | LUnary => false
  | LMul => mul_ops t
  | LAdd => add_ops t || mul_ops t
  | LCmp | LNot => cmp_ops t || add_ops t || mul_ops t
  | LAnd => and_ops t || cmp_ops t || add_ops t || mul_ops t
  | LOr => or_ops t || and_ops t || cmp_ops t || add_ops t || mul_ops t
  end.

Lemma derives_head l d ts a :
  derives l d ts a -> exists t ts', ts = t :: ts' /\ starts l (tk_type t) = true.
Proof.
  assert (Hup : forall l l' t, starts l t = true ->
    match l, l' with
    | LAnd, LOr | LNot, LAnd | LMul, LAdd | LUnary, LMul | LCmp, LNot | LAdd, LCmp
    | LPrimary, LUnary => starts l' t = true
    | _, _ => True end).
  { intros l1 l2 t. destruct l1, l2; try done; unfold starts; rewrite !orb_true_iff; naive_solver. }
  induction 1 as [l sub ops nm d ts a Hl _ _ (t & ts' & -> & Ht)
    |l sub ops nm d ts1 a o op ts2 b Hl _ (t & ts' & -> & Ht) Hop _ _ _
    |d o ts a _ Ho _ _|d ts a _ (t & ts' & -> & Ht)|d ts a _ _ (t & ts' & -> & Ht)
    |d ts1 a o op ts2 b _ _ (t & ts' & -> & Ht) _ _ _ _|d o ts a _ Ho _ _
    |d ts a _ (t & ts' & -> & Ht)|d t _ Ht|d t s _ Ht _|d t _ Ht|d t _ Ht
    |d o n s ts p c _ Ho _ _ _ _|d n s o c _ Hn _ _ _|d n s o ts args c _ Hn _ _ _ _
    |d o ts a c _ Ho _ _ _];
    simpl; do 2 eexists; (split; [done|]);
    try (apply (Hup _ LNot) in Ht; done); try (apply (Hup _ LCmp) in Ht; done);
    try (apply (Hup _ LUnary) in Ht; done); try done.
  1: destruct l; simplify_eq/=;
      first [by apply (Hup _ LOr) in Ht|by apply (Hup _ LAnd) in Ht
            |by apply (Hup _ LAdd) in Ht|by apply (Hup _ LMul) in Ht].
  all: first [by rewrite Ho|by rewrite Ht|by rewrite Hn|by destruct Ht as [-> | ->]].
Qed.

Definition stops (l : level) (r : list Token) : Prop :=
  match r with t :: _ => extends l (tk_type t) = false | [] => False end.

Definition complete (l : level) (p : parser) (d : nat) : Prop :=
  forall ts a r, derives l d ts a -> stops l r -> p d (ts ++ r) = Ok (a, r).

Lemma check_depth_ok d : (d <= MAX_AST_DEPTH)%nat -> check_depth d = Ok tt.
Proof. intros H. destruct (check_depth_cases d) as [[? _]|[_ ?]]; [done|lia]. Qed.

Lemma chain_level_extends l sl ops nm t :
  chain_level l = Some (sl, ops, nm) ->
  (ops t = true -> extends sl t = false) /\
  (extends l t = false -> ops t = false /\ extends sl t = false).
Proof.
  destruct l; intros H; simplify_eq/=; split;
    rewrite ?orb_false_iff; try tauto; by destruct t.
Qed.

Section chain_complete.
Context (l sl : level) (ops : TokenType -> bool) (nm : Token -> res string).
Hypothesis Hl : chain_level l = Some (sl, ops, nm).
Context (sub : parser) (d : nat).
Hypothesis Hsub : complete sl sub (S d).

(** After deriving [ts], the parser is at the head of the loop with the tree. *)
Lemma chain_reaches_loop ts a r :
  derives l d ts a -> stops sl r ->
  exists fuel, (length r <= fuel)%nat /\
    chain ops nm sub d (ts ++ r) = chain_loop fuel ops nm sub d a r.
Proof.
  intros H. remember l as l' eqn:El. remember d as d' eqn:Ed. revert El Ed r.
  induction H as [l0 sub0 ops0 nm0 d0 ts a Hl0 Hd Ha _
    |l0 sub0 ops0 nm0 d0 ts1 a o op ts2 b Hl0 _ IH Hop Hnm Hb _| | | | | | | | | | | | | |];
    intros El Ed r Hr; subst; try (by rewrite Hl in *; simplify_eq); try (by simplify_eq/=).
  - rewrite Hl in Hl0. simplify_eq. exists (length r). split; [done|]. unfold chain.
    rewrite check_depth_ok by done. cbn [mbind res_bind].
    by rewrite (Hsub _ _ _ Ha Hr).
  - rewrite Hl in Hl0. simplify_eq.
    destruct (IH Hl Hsub eq_refl eq_refl (o :: ts2 ++ r)) as (fuel & Hf & E).
    { destruct (chain_level_extends _ _ _ _ (tk_type o) Hl) as [Hx _]. by apply Hx. }
    rewrite <- app_assoc. simpl. rewrite E. simpl in Hf. destruct fuel as [|fuel]; [lia|].
    exists fuel. rewrite length_app in Hf. split; [lia|]. simpl. rewrite Hop. simpl.
    rewrite (Hsub _ _ _ Hb Hr). simpl. by rewrite Hnm.
Qed.

Lemma chain_complete : complete l (chain ops nm sub) d.
Proof.
  intros ts a r H Hr. destruct r as [|t r]; [done|]. simpl in Hr.
  destruct (chain_level_extends _ _ _ _ (tk_type t) Hl) as [_ Hx].
  destruct (Hx Hr) as [Hop Hsl].
  destruct (chain_reaches_loop ts a (t :: r) H Hsl) as (fuel & _ & ->).
  destruct fuel; simpl; by rewrite Hop.
Qed.
End chain_complete.

Lemma expect_ok ty t r : tk_type t = ty -> expect ty (t :: r) = Ok (t, r).
Proof. intros H. unfold expect. simpl. by rewrite decide_True. Qed.

Lemma var_ref_loop_complete ts p segs r fuel :
  seg_path ts p -> (length ts <= fuel)%nat ->
  match r with t :: _ => tk_type t = VAR_REF_END | [] => False end ->
  var_ref_loop fuel segs (ts ++ r) = Ok (segs ++ p, r).
Proof.
  intros H. revert segs fuel.
  induction H as [|o n s ts p Ho Hn Hs _ IH|o n z c ts p Ho Hn Hz Hc _ IH|o n s c ts p Ho Hn Hs Hc _ IH];
    intros segs fuel Hf Hr.
  - destruct r as [|t r]; [done|]. rewrite app_nil_r. simpl.
    destruct fuel; simpl; by rewrite decide_False by (rewrite Hr; naive_solver).
  - simpl in Hf. destruct fuel as [|fuel]; [lia|]. cbn -[expect].
    rewrite decide_True, decide_True by auto. rewrite expect_ok by done. simpl. rewrite Hs. simpl.
    rewrite IH by (lia || done). by rewrite <- app_assoc.
  - simpl in Hf. destruct fuel as [|fuel]; [lia|]. cbn -[expect].
    rewrite decide_True, decide_False by (rewrite ?Ho; auto). simpl.
    rewrite (decide_True _ _ Hn). rewrite Hz. simpl. rewrite expect_ok by done. simpl.
    rewrite IH by (lia || done). by rewrite <- app_assoc.
  - simpl in Hf. destruct fuel as [|fuel]; [lia|]. cbn -[expect].
    rewrite decide_True, decide_False by (rewrite ?Ho; auto). simpl.
    rewrite decide_False, (decide_True _ _ Hn) by (rewrite Hn; done). rewrite Hs. simpl.
    rewrite expect_ok by done. simpl. rewrite IH by (lia || done). by rewrite <- app_assoc.
Qed.

Section levels_complete.
Context (orp : parser) (k : nat).
Hypothesis Hor : forall d, (k < d)%nat -> complete LOr orp d.

(** After an argument comes a comma or the closing parenthesis. *)
Lemma args_loop_reaches d ts args r :
  (k <= d)%nat -> derives_args d ts args -> stops LOr r ->
  exists fuel, (length r <= fuel)%nat /\
    ('(a, ts) ← orp (S d) (ts ++ r); args_loop (length ts) orp d [a] ts)
    = args_loop fuel orp d args r.
Proof.
  intros Hk H. revert r.
  induction H as [d ts a Ha|d ts1 args o ts2 a _ IH Ho Ha]; intros r Hr.
  - exists (length r). split; [done|]. rewrite (Hor (S d) ltac:(lia) _ _ _ Ha Hr). done.
  - destruct (IH Hk (o :: ts2 ++ r)) as (fuel & Hf & E); [simpl; by rewrite Ho|].
    rewrite <- app_assoc. simpl app. rewrite E. simpl in Hf. destruct fuel as [|fuel]; [lia|].
    exists fuel. rewrite length_app in Hf. split; [lia|]. simpl.
    rewrite decide_True by done. rewrite (Hor (S d) ltac:(lia) _ _ _ Ha Hr). done.
Qed.

Lemma args_loop_stop fuel d args t r :
  tk_type t = RPAREN -> args_loop fuel orp d args (t :: r) = Ok (args, t :: r).
Proof. intros Ht. destruct fuel; simpl; by rewrite decide_False by (by rewrite Ht). Qed.

Lemma primary_complete d : (k <= d)%nat -> complete LPrimary (primary orp) d.
Proof.
  intros Hk ts a r H Hr. unfold primary.
  inversion H; subst; try (by simplify_eq/=);
    rewrite check_depth_ok by done; cbn -[advance var_ref func_call expect];
    match goal with H : tk_type ?t = _ |- context [tk_type ?t] => rewrite ?H
      | H : tk_type ?t = TRUE \/ _ |- _ => idtac end; cbn -[var_ref func_call expect].
  - done.
  - match goal with H : tok_value_str _ = _ |- _ => by rewrite H end.
  - match goal with H : _ \/ _ |- _ => by destruct H as [-> | ->] end.
  - done.
  - unfold var_ref. rewrite expect_ok by done. cbn -[expect var_ref_loop].
    rewrite expect_ok by done. cbn -[expect var_ref_loop].
    match goal with H : tok_value_str _ = _ |- _ => rewrite H end. cbn -[expect var_ref_loop].
    rewrite <- app_assoc, var_ref_loop_complete with (p := p)
      by (simpl; first [done|rewrite length_app; lia]).
    cbn -[expect]. by rewrite expect_ok.
  - rewrite decide_True by done. unfold func_call. cbn -[expect].
    rewrite expect_ok by done. cbn -[expect]. rewrite decide_True by done. cbn -[expect].
    rewrite expect_ok by done. simpl. by match goal with H : tok_value_str _ = _ |- _ => rewrite H end.
  - rewrite decide_True by done. unfold func_call. cbn -[expect].
    rewrite expect_ok by done. cbn -[expect].
    match goal with H : derives_args _ _ _ |- _ => rename H into Hargs end.
    rewrite <- app_assoc. 
    destruct (args_loop_reaches d ts0 args ([c] ++ r) Hk Hargs) as (fuel & _ & E);
      [simpl; match goal with H : tk_type c = _ |- _ => by rewrite H end|].
    assert (Hhd : exists t' ts', ts0 = t' :: ts' /\ tk_type t' <> RPAREN).
    { clear -Hargs. induction Hargs as [d ts a Ha|d ts1 args o ts2 a _ (t & ts' & -> & Ht) _ _].
      - apply derives_head in Ha as (t & ts' & -> & Ht). exists t, ts'.
        split; [done|]. intros E. by rewrite E in Ht.
      - by exists t, (ts' ++ o :: ts2). }
    destruct Hhd as (t' & ts' & -> & Ht'). cbn -[expect args_loop] in *.
    rewrite decide_False by done. rewrite E. rewrite args_loop_stop by done.
    cbn -[expect]. rewrite expect_ok by done. simpl.
    by match goal with H : tok_value_str _ = _ |- _ => rewrite H end.
  - rewrite <- app_assoc.
    match goal with H : derives LOr _ _ _ |- _ => rename H into Ha end.
    rewrite (Hor (S d) ltac:(lia) _ _ _ Ha);
      [|simpl; match goal with H : tk_type c = _ |- _ => by rewrite H end].
    cbn -[expect]. by rewrite expect_ok.
Qed.

Lemma unary_complete d : (k <= d)%nat -> complete LUnary (unary orp) d.
Proof.
  intros Hk ts. revert d Hk. induction ts as [|t ts IH]; intros d Hk a r H Hr.
  { apply derives_head in H as (? & ? & ? & _). done. }
  inversion H as [| | | | | |? ? ? a' Hd Ho Ha'|? ? ? Hp| | | | | | | |]; subst; try by simplify_eq/=.
  - cbn -[check_depth]. rewrite check_depth_ok by done. simpl. rewrite decide_True by done.
    rewrite (IH (S d) ltac:(lia) _ _ Ha' Hr). done.
  - pose proof (derives_head _ _ _ _ Hp) as (t' & ts' & E & Ht). simplify_eq.
    assert (Hd : (d <= MAX_AST_DEPTH)%nat) by (inversion Hp; subst; try done; by simplify_eq/=).
    cbn -[check_depth primary]. rewrite check_depth_ok by done. cbn -[primary].
    rewrite decide_False by (intros E; by rewrite E in Ht).
    rewrite <- (primary_complete d Hk _ _ r Hp); [done|by destruct r].
Qed.

Lemma add_complete d : (k <= S d)%nat -> complete LAdd (add_expr orp) d.
Proof.
  intros Hk. apply (chain_complete LAdd LMul); [done|]. apply (chain_complete LMul LUnary); [done|].
  apply unary_complete. lia.
Qed.

Lemma cmp_complete d : (k <= d)%nat -> complete LCmp (cmp_expr orp) d.
Proof.
  intros Hk ts a r H Hr. unfold cmp_expr.
  assert (Hstop : forall r, stops LCmp r -> stops LAdd r).
  { intros [|t r0]; [done|]. simpl. rewrite !orb_false_iff. tauto. }
  inversion H as [| | | |? ? ? Hd Ha'|? ts1 b o op ts2 c Hd Hb Ho Hop Hc| | | | | | | | | |];
    subst; try (by simplify_eq/=); rewrite check_depth_ok by done; cbn [mbind res_bind].
  - rewrite (add_complete (S d) ltac:(lia) _ _ _ Ha' (Hstop _ Hr)). cbn [mbind res_bind].
    destruct r as [|t r]; [done|]. simpl in *. rewrite !orb_false_iff in Hr.
    destruct Hr as [[-> _] _]. done.
  - rewrite <- app_assoc. simpl app.
    rewrite (add_complete (S d) ltac:(lia) _ _ (o :: ts2 ++ r) Hb) by (simpl; by destruct (tk_type o)).
    cbn -[add_expr]. rewrite Ho. cbn -[add_expr].
    rewrite (add_complete (S d) ltac:(lia) _ _ _ Hc (Hstop _ Hr)). simpl. by rewrite Hop.
Qed.

Lemma not_complete d : (k <= d)%nat -> complete LNot (not_expr orp) d.
Proof.
  intros Hk ts. revert d Hk. induction ts as [|t ts IH]; intros d Hk a r H Hr.
  { apply derives_head in H as (? & ? & ? & _). done. }
  inversion H as [| |? ? ? a' Hd Ho Ha'|? ? ? Hp| | | | | | | | | | | |]; subst; try by simplify_eq/=.
  - cbn -[check_depth]. rewrite check_depth_ok by done. simpl. rewrite decide_True by done.
    rewrite (IH (S d) ltac:(lia) _ _ Ha' Hr). done.
  - pose proof (derives_head _ _ _ _ Hp) as (t' & ts' & E & Ht). simplify_eq.
    assert (Hd : (d <= MAX_AST_DEPTH)%nat) by (inversion Hp; subst; try done; by simplify_eq/=).
    cbn -[check_depth cmp_expr]. rewrite check_depth_ok by done. cbn -[cmp_expr].
    rewrite decide_False by (intros E; by rewrite E in Ht).
    by rewrite <- (cmp_complete d Hk _ _ r Hp).
Qed.
End levels_complete.

(** A derivation runs within the depth limit. *)
Lemma derives_depth l d ts a : derives l d ts a -> (d <= MAX_AST_DEPTH)%nat.
Proof. by induction 1. Qed.

Lemma or_expr_complete fuel d : (MAX_AST_DEPTH < fuel + d)%nat -> complete LOr (or_expr fuel) d.
Proof.
  revert d. induction fuel as [|fuel IH]; intros d Hd.
  - intros ts a r H%derives_depth. simpl in Hd. lia.
  - change (complete LOr (chain or_ops (fun _ => Ok "or"%string) (and_expr (or_expr fuel))) d).
    apply (chain_complete LOr LAnd); [done|]. apply (chain_complete LAnd LNot); [done|].
    apply (not_complete _ d); [|lia]. intros d' Hd'. apply IH. lia.
Qed.

(** The whole token sequence but its end marker is derived by the start rule at depth
    1. *)
Definition sentence (index : pyval -> Z -> Prop) (tokens : list Token) (a : ASTNode) : Prop :=
  exists ts e, tokens = ts ++ [e] /\ tk_type e = EOF /\ derives_by index LOr 1 ts a.
(** The documented language, and the one the parser accepts. *)
Definition grammar : list Token -> ASTNode -> Prop := sentence integer.
Abbreviation accepted := (sentence truncated).

(** ** Integers between brackets *)

Definition integer_indices (ts : list Token) : Prop := forall pre o n post, ts = pre ++ o :: n :: post ->
  tk_type o = LBRACKET -> tk_type n = NUMBER -> exists z, tk_value n = VInt z.
(** As a test. *)
Fixpoint integers (ts : list Token) : bool :=
  match ts with
  | o :: (n :: _) as ts' =>
      (if decide (tk_type o = LBRACKET /\ tk_type n = NUMBER) then match tk_value n with VInt _ => true | _ => false end else true) && integers ts'
  | _ => true
  end.
Lemma integers_ok ts : integers ts = true -> integer_indices ts.
Proof.
  intros H pre o n post -> Ho Hn. induction pre as [|t pre IH]; simpl in H.
  - rewrite decide_True in H by done. destruct (tk_value n); try done. by eexists.
  - apply IH. destruct pre; simpl in *; by apply andb_true_iff in H as [_ H].
Qed.
Lemma integer_part pre ts post : integer_indices (pre ++ ts ++ post) -> integer_indices ts.
Proof. intros H p o n q -> Ho Hn. apply (H (pre ++ p) o n (q ++ post)); [by rewrite <- !app_assoc|done..]. Qed.

Lemma integer_left a o b : integer_indices (a ++ o :: b) -> integer_indices a.
Proof. apply (integer_part [] a (o :: b)). Qed.
Lemma integer_right a o b : integer_indices (a ++ o :: b) -> integer_indices b.
Proof. intros H. apply (integer_part (a ++ [o]) b []). by rewrite app_nil_r, <- app_assoc. Qed.
Lemma integer_tail o b : integer_indices (o :: b) -> integer_indices b.
Proof. apply (integer_right []). Qed.
Ltac parts := repeat match goal with
  | H : integer_indices (_ :: _) |- _ => apply integer_tail in H
  | H : integer_indices (?a ++ ?o :: ?b) |- _ => pose proof (integer_left a o b H); apply integer_right in H
  end.

Scheme derives_mut := Minimality for derives_by Sort Prop
  with derives_args_mut := Minimality for derives_args_by Sort Prop.
(** What the grammar derives, the parser's own rules derive. *)
Lemma path_truncated ts p : seg_path_by integer ts p -> seg_path ts p.
Proof.
  induction 1 as [| |o n z c ts p Ho Hn Hz Hc _ IH|]; [by constructor|by constructor| |by constructor].
  apply segs_index; [done|done| |done|done]. unfold truncated. by rewrite Hz.
Qed.
Lemma derives_truncated l d ts a : derives_by integer l d ts a -> derives l d ts a.
Proof.
  revert l d ts a. apply (derives_mut integer (fun l d ts a => derives l d ts a) (fun d ts args => derives_args d ts args)); intros.
  all: [> eapply d_chain_one|eapply d_chain_more|apply d_not|apply d_not_cmp|apply d_cmp_one|apply d_cmp_op|apply d_neg|apply d_primary|
    apply d_number|apply d_string|apply d_bool|apply d_null|apply d_var|apply d_call0|apply d_call|apply d_paren|apply da_one|apply da_more];
    eauto using path_truncated.
Qed.
(** And back, where the indices are integers. *)
Lemma path_integer ts p : seg_path ts p -> integer_indices ts -> seg_path_by integer ts p.
Proof.
  induction 1 as [|o n s ts p Ho Hn Hs _ IH|o n z c ts p Ho Hn Hz Hc _ IH|o n s c ts p Ho Hn Hs Hc _ IH]; intros Hi; [constructor|..].
  - apply segs_dot; [done..|]. apply IH. by parts.
  - destruct (Hi [] o n (c :: ts)) as [i Ei]; [done..|]. apply segs_index; [done|done| |done|].
    + unfold truncated in Hz. rewrite Ei in Hz. unfold integer. injection Hz as <-. done.
    + apply IH. by parts.
  - apply segs_key; [done..|]. apply IH. by parts.
Qed.
Lemma derives_integer l d ts a : derives l d ts a -> integer_indices ts -> derives_by integer l d ts a.
Proof.
  revert l d ts a. apply (derives_mut truncated (fun l d ts a => integer_indices ts -> derives_by integer l d ts a)
    (fun d ts args => integer_indices ts -> derives_args_by integer d ts args)); intros.
  all: parts.
  all: [> eapply d_chain_one|eapply d_chain_more|apply d_not|apply d_not_cmp|apply d_cmp_one|apply d_cmp_op|apply d_neg|apply d_primary|
    apply d_number|apply d_string|apply d_bool|apply d_null|apply d_var|apply d_call0|apply d_call|apply d_paren|apply da_one|apply da_more];
    eauto using path_integer.
Qed.

(** ** Height of the tree *)

Fixpoint ast_height (a : ASTNode) : nat :=
  match a with
  | BinOp _ l r _ => S (Nat.max (ast_height l) (ast_height r))
  | UnaryOp _ x _ => S (ast_height x)
  | FuncCall _ args _ => S (foldr Nat.max 0%nat (map ast_height args))
  | _ => 1%nat
  end.

(** The largest depth recorded in a tree. *)
Fixpoint max_node_depth (a : ASTNode) : nat :=
  match a with
  | BinOp _ l r d => Nat.max d (Nat.max (max_node_depth l) (max_node_depth r))
  | UnaryOp _ x d => Nat.max d (max_node_depth x)
  | FuncCall _ args d => Nat.max d (foldr Nat.max 0%nat (map max_node_depth args))
  | NumberLit _ d | StringLit _ d | BoolLit _ d | NullLit d | VarRef _ d => d
  end.

Lemma foldr_max_app l n : foldr Nat.max 0%nat (l ++ [n]) = Nat.max (foldr Nat.max 0%nat l) n.
Proof. induction l as [|m l IH]; simpl; [lia|]. rewrite IH. lia. Qed.

(** Every node carries the depth of the rule that built it. *)
Lemma derives_node_depth l d ts a :
  derives l d ts a -> (max_node_depth a <= MAX_AST_DEPTH)%nat.
Proof.
  apply (derives_mut truncated (fun _ d _ a => d <= MAX_AST_DEPTH /\ max_node_depth a <= MAX_AST_DEPTH)%nat
    (fun d _ args => foldr Nat.max 0 (map max_node_depth args) <= MAX_AST_DEPTH)%nat);
    simpl; intros; try lia.
  rewrite map_app. simpl. rewrite foldr_max_app. lia.
Qed.

Lemma grammar_node_depth tokens a :
  accepted tokens a -> (max_node_depth a <= MAX_AST_DEPTH)%nat.
Proof. intros (ts & e & _ & _ & H). by apply derives_node_depth in H. Qed.

(** ** [parse] *)

Lemma parse_spec tokens :
  wf_tokens tokens ->
  match parse tokens with
  | Ok a => accepted tokens a
  | Raise e => parse_error e
  | NoFuel => False
  end.
Proof.
  intros Hts. unfold parse.
  pose proof (or_expr_sound MAX_AST_DEPTH 1 ltac:(unfold MAX_AST_DEPTH; lia) tokens Hts) as H. unfold yields in H.
  destruct (or_expr _ _ _) as [[a r]|e|]; simpl; [|done|done].
  destruct H as (Hr & c & -> & _ & Ha).
  destruct r as [|t r]; [by apply wf_tokens_nil in Hr|]. simpl.
  case_decide as Ht; [|by left]. exists c, t.
  destruct Hr as [Hr _]. inversion Hr as [|? ? Hne]; subst; done.
Qed.

Lemma parse_derives ts e a : derives LOr 1 ts a -> tk_type e = EOF -> parse (ts ++ [e]) = Ok a.
Proof.
  intros Ha He. unfold parse.
  rewrite (or_expr_complete MAX_AST_DEPTH 1 ltac:(unfold MAX_AST_DEPTH; lia) _ _ [e] Ha) by (simpl; by rewrite He).
  simpl. by rewrite decide_True.
Qed.

Lemma tokenize_wf source tokens : tokenize source = Ok tokens -> wf_tokens tokens.
Proof. split; [by eapply tokenize_ends_with_eof|by eapply tokenize_tok_ok]. Qed.

(** The errors of tokenizing and parsing together. *)
Lemma parse_source_spec source :
  match ts ← tokenize source; parse ts with
  | Ok a => exists tokens, tokenize source = Ok tokens /\ accepted tokens a
  | Raise e => parse_error e
  | NoFuel => False
  end.
Proof.
  pose proof (tokenize_fuel source) as Hf. pose proof (tokenize_raises source) as Hr.
  destruct (tokenize source) as [tokens|e|] eqn:E; simpl in *; [|subst; by left|done].
  pose proof (parse_spec tokens (tokenize_wf _ _ E)) as H.
  destruct (parse tokens); [by exists tokens|done|done].
Qed.

(** * Properties *)

(** C36. [parse] implements the documented grammar.  On the tokens of any source text it
    returns the tree the start rule derives, within the depth limit as the parser
    charges it, and there is at most one; and where every number between brackets is an
    integer, as the grammar has it, it returns no tree that the grammar does not derive.
    A fractional number between brackets is not in the grammar and is accepted all the
    same ([fractional_index]). *)
Theorem parse_iff_grammar source tokens a : tokenize source = Ok tokens ->
  (grammar tokens a -> parse tokens = Ok a) /\
  (integer_indices tokens -> parse tokens = Ok a -> grammar tokens a).
Proof.
  intros H. split.
  - intros (ts & e & -> & He & Hd). apply parse_derives; [by apply derives_truncated|done].
  - intros Hi Ha. pose proof (parse_spec tokens (tokenize_wf _ _ H)) as Hs. rewrite Ha in Hs. destruct Hs as (ts & e & -> & He & Hd).
    exists ts, e. split_and!; [done..|]. apply derives_integer; [done|]. by eapply (integer_part [] ts [e]).
Qed.

(** A sample source, its tokens and its tree. *)
Definition sample_source : string := "1 + len({{ xs[0] }}) * 2 == 7".
Definition sample_tokens : list Token :=
  Eval vm_compute in match tokenize sample_source with Ok ts => ts | _ => [] end.
Definition sample_tree : ASTNode :=
  Eval vm_compute in match parse sample_tokens with Ok a => a | _ => NullLit 0 end.

Lemma parse_iff_grammar_witness :
  tokenize sample_source = Ok sample_tokens /\ grammar sample_tokens sample_tree.
Proof.
  assert (H : tokenize sample_source = Ok sample_tokens) by (vm_compute; reflexivity).
  split; [exact H|]. apply (parse_iff_grammar _ _ sample_tree H); [by apply integers_ok|vm_compute; reflexivity].
Defined.

(** [1.5] between brackets: not in the grammar, and read as [1]. *)
Definition fractional_source : string := "{{ xs[1.5] }}".
Definition fractional_tokens : list Token :=
  Eval vm_compute in match tokenize fractional_source with Ok ts => ts | _ => [] end.
Example fractional_index : tokenize fractional_source = Ok fractional_tokens /\ integers fractional_tokens = false /\
  parse fractional_tokens = Ok (VarRef [SegName "xs"; SegIndex 1] 6).
Proof. vm_compute. done. Qed.

(** Tokenizing and parsing any text terminates without running off the token
    list, raises only [SELSyntaxError], [SELBudgetExceeded] or an arithmetic error
    of an index literal, and every node of a tree that comes back was built at a
    depth within [MAX_AST_DEPTH]. *)
Theorem parse_source_total source :
  match ts ← tokenize source; parse ts with
  | Ok a => (max_node_depth a <= MAX_AST_DEPTH)%nat
  | Raise e => parse_error e
  | NoFuel => False
  end.
Proof.
  pose proof (parse_source_spec source) as H.
  destruct (ts ← tokenize source; parse ts) as [a| |]; [|done|done].
  destruct H as (tokens & _ & H). by apply grammar_node_depth in H.
Qed.

(** [1 + 1 + ... + 1] with [n] additions. *)
Definition one_tok : Token := mkToken NUMBER (VInt 1) 0.
Definition plus_tok : Token := mkToken PLUS (VStr "+") 0.
Definition eof_tok : Token := mkToken EOF VNone 0.
Fixpoint ones (n : nat) : list Token :=
  match n with O => [one_tok] | S n => ones n ++ plus_tok :: [one_tok] end.

Lemma ones_derives n :
  exists a, derives LAdd 4 (ones n) a /\ ast_height a = S n.
Proof.
  assert (H1 : derives LMul 5 [one_tok] (NumberLit (VInt 1) 6)).
  { eapply d_chain_one; [done|unfold MAX_AST_DEPTH; lia|]. apply d_primary.
    apply (d_number truncated 6 one_tok); [unfold MAX_AST_DEPTH; lia|done]. }
  induction n as [|n (a & Ha & Hh)].
  - exists (NumberLit (VInt 1) 6). split; [|done].
    eapply d_chain_one; [done|unfold MAX_AST_DEPTH; lia|exact H1].
  - exists (BinOp "+" a (NumberLit (VInt 1) 6) 4). split; [|simpl; lia].
    eapply d_chain_more; [done|exact Ha|done|done|exact H1].
Qed.

(** The depth limit does not bound the height of the tree: operator chains are
    built by a loop that stays at one depth, so for every [n] the chain of [n]
    additions is accepted with a tree of height [n + 1]. *)
Theorem parse_height_unbounded n :
  exists a, parse (ones n ++ [eof_tok]) = Ok a /\ ast_height a = S n.
Proof.
  destruct (ones_derives n) as (a & Ha & Hh). exists a. split; [|done].
  apply parse_derives; [|done].
  eapply d_chain_one; [done|unfold MAX_AST_DEPTH; lia|]. eapply d_chain_one; [done|unfold MAX_AST_DEPTH; lia|].
  apply d_not_cmp. apply d_cmp_one; [unfold MAX_AST_DEPTH; lia|exact Ha].
Qed.

(** The depth budget is charged per grammar level, not per tree level: any
    input that starts with two parentheses is over budget, whatever follows. *)
Theorem double_paren_over_budget v1 p1 v2 p2 ts :
  ends_with_eof ts ->
  parse (mkToken LPAREN v1 p1 :: mkToken LPAREN v2 p2 :: ts) = Raise SELBudgetExceeded.
Proof.
  intros H. destruct ts as [|[ty v p] ts]; [inversion H|].
  destruct (decide (ty = NOT)) as [->|Hn].
  - inversion H as [? Hx|? ? _ H']; subst; [discriminate Hx|].
    destruct ts as [|[ty' v' p'] ts]; [inversion H'|].
    destruct ty'; first [reflexivity|by destruct ts].
  - destruct ty; first [reflexivity|done].
Qed.

Lemma double_paren_over_budget_witness :
  parse [tok_str LPAREN "(" 0; tok_str LPAREN "(" 1; mkToken NUMBER (VInt 1) 2;
         tok_str RPAREN ")" 3; tok_str RPAREN ")" 4; mkToken EOF VNone 5]
  = Raise SELBudgetExceeded.
Proof.
  apply double_paren_over_budget.
  repeat first [by apply ends_eof|apply ends_cons; [done|]].
Defined.
