(* ===== verification/SelEval.v ===== *)
(** * SEL evaluator

    [contexts/workflow/sel/evaluator.py].  The evaluator reads two clocks and the
    regular expression engine; they are the environment [Env] of the section.
    An evaluation threads the number of clock readings made so far, so the
    [i]-th reading of either clock is [env_clock i] or [env_time i]. *)

From S2P Require Import Prelude PyFloat PyValue SelLexer SelParser.
Definition MAX_EXPR_LENGTH : nat := 1000.
(** [EVAL_BUDGET_MS / 1000] seconds, on a clock in nanoseconds. *)
Definition EVAL_BUDGET_NS : Z := 5000000.

(** [google-re2] is a third-party package: [None] when it cannot be imported,
    otherwise [search pattern text], which is [None] when compiling or searching
    raises. *)
Record Env := mkEnv {
  env_clock : nat -> Z;
  env_time : nat -> float;
  env_re2 : option (string -> string -> option bool);
}.

Definition ALLOWED_FUNCTIONS : list string :=
  ["len"; "lower"; "upper"; "contains"; "startswith"; "endswith"; "matches"; "int";
   "float"; "str"; "json_get"; "coalesce"; "now_unix"; "abs"; "min"; "max"]%string.

Definition allowed_function (name : string) : bool :=
  existsb (String.eqb name) ALLOWED_FUNCTIONS.

(** ** Variables and paths *)

(** [obj[n]] of a list, [0 <= n < len(obj)] checked. *)
Definition list_index (l : list pyval) (n : Z) : option pyval :=
  if (0 <=? n) && (n <? Z.of_nat (length l)) then nth_error l (Z.to_nat n) else None.

Fixpoint resolve_path (obj : pyval) (rest : list seg) : pyval :=
  match rest with
  | [] => obj
  | s :: rest =>
      match obj, s with
      | VNone, _ => VNone
      | VList l, SegIndex n =>
          match list_index l n with Some v => resolve_path v rest | None => VNone end
      | VDict d, SegName k => resolve_path (dict_get_none k d) rest
      | _, _ => VNone
      end
  end.

Definition resolve_var (segments : list seg) (variables : pydict) : pyval :=
  match segments with
  | [] => VNone
  | SegName "trigger" :: rest => resolve_path (dict_get_or "__trigger__" (VDict []) variables) rest
  | SegName "ctx" :: rest => resolve_path (dict_get_or "__ctx__" (VDict []) variables) rest
  | _ => resolve_path (VDict variables) segments
  end.

Definition is_quote (c : ascii) : bool := Ascii.eqb c squote || Ascii.eqb c dquote.
Definition skip_dot (l : list ascii) : list ascii :=
  match l with "."%char :: l => l | _ => l end.

(** [_json_get] from index [i] on; every round consumes a character. *)
Fixpoint json_get_go (fuel : nat) (current : pyval) (path : list ascii) : res pyval :=
  match path with
  | [] => Ok current
  | c :: rest =>
      match current with
      | VNone => Ok VNone
      | _ =>
          match fuel with
          | O => NoFuel
          | S fuel =>
              if Ascii.eqb c "[" then
                match split_at "]" rest with
                | None => Raise ValueError
                | Some (idx_str, after) =>
                    match int_of_str (unchars idx_str) with
                    | Ok idx =>
                        match current with
                        | VList l => match list_index l idx with
                                     | Some v => json_get_go fuel v (skip_dot after)
                                     | None => Ok VNone
                                     end
                        | _ => Ok VNone
                        end
                    | _ =>
                        match current with
                        | VDict d => json_get_go fuel
                            (dict_get_none (unchars (strip_chars is_quote idx_str)) d) (skip_dot after)
                        | _ => Ok VNone
                        end
                    end
                end
              else
                let '(key, r) := span (fun x => negb (Ascii.eqb x "." || Ascii.eqb x "[")) path in
                match current with
                | VDict d => json_get_go fuel (dict_get_none (unchars key) d) (skip_dot r)
                | _ => Ok VNone
                end
          end
      end
  end.

Definition json_get (obj : pyval) (path : string) : res pyval :=
  json_get_go (String.length path) obj (chars path).

(** ** Helpers on values *)

Definition truthy (val : pyval) : bool :=
  match val with
  | VNone => false
  | VBool b => b
  | VInt n => negb (n =? 0)
  | VFloat x => negb (fis_zero x)
  | VStr s => (0 <? String.length s)%nat
  | VList l => (0 <? length l)%nat
  | VDict d => (0 <? length d)%nat
  end.

Definition safe_eq (a b : pyval) : bool :=
  match a, b with
  | VNone, VNone => true
  | VNone, _ | _, VNone => false
  | _, _ => if same_type a b then py_eq a b
            else if is_num a && is_num b then py_eq a b else false
  end.

Definition safe_cmp (op : string) (a b : pyval) : bool :=
  match as_num a, as_num b with
  | Some m, Some n =>
      if String.eqb op "<" then num_ltb m n
      else if String.eqb op "<=" then num_leb m n
      else if String.eqb op ">" then num_ltb n m
      else if String.eqb op ">=" then num_leb n m
      else false
  | _, _ => false
  end.

(** [min] and [max] over the numeric arguments: the first extreme element wins. *)
Fixpoint extreme (better : num -> num -> bool) (best : pyval) (l : list pyval) : pyval :=
  match l with
  | [] => best
  | x :: l =>
      match as_num x, as_num best with
      | Some m, Some n => extreme better (if better m n then x else best) l
      | _, _ => extreme better best l
      end
  end.
Definition py_extreme (better : num -> num -> bool) (args : list pyval) : pyval :=
  match List.filter is_num args with [] => VNone | x :: l => extreme better x l end.

(** [str(p) in str(s)], [startswith], [endswith] on strings. *)
Definition str_contains (h n : string) : bool := is_infix (chars n) (chars h).
Definition str_startswith (s p : string) : bool := is_prefix (chars p) (chars s).
Definition str_endswith (s p : string) : bool := is_prefix (rev (chars p)) (rev (chars s)).

(** [except (ValueError, TypeError) as exc: raise SELSyntaxError(f"... {v!r}")] *)
Definition cast_error {A} (v : pyval) (m : res A) : res A :=
  match m with
  | Raise ValueError | Raise TypeError => _ ← py_repr v; Raise SELSyntaxError
  | m => m
  end.

Section evaluator.
Context (env : Env).

Definition regex_match (text pattern : string) : bool :=
  match env_re2 env with
  | None => false
  | Some search => default false (search pattern text)
  end.

Definition bad_arity : res (pyval * nat) := Raise SELSyntaxError.
Definition pure (i : nat) (m : res pyval) : res (pyval * nat) := v ← m; Ok (v, i).

(** [_call_func]; [i] is the number of clock readings made so far. *)
Definition call_func (name : string) (args : list pyval) (i : nat) : res (pyval * nat) :=
  if String.eqb name "len" then
    match args with
    | [v] => pure i (Ok (VInt (match v with
        | VStr s => Z.of_nat (String.length s)
        | VList l => Z.of_nat (length l)
        | VDict d => Z.of_nat (length d)
        | _ => 0 end)))
    | _ => bad_arity
    end
  else if String.eqb name "lower" then
    match args with
    | a :: _ => s ← py_str a; Ok (VStr (py_lower s), i)
    | [] => Ok (VStr "", i)
    end
  else if String.eqb name "upper" then
    match args with
    | a :: _ => s ← py_str a; Ok (VStr (py_upper s), i)
    | [] => Ok (VStr "", i)
    end
  else if String.eqb name "contains" then
    match args with
    | [haystack; needle] =>
        match haystack with
        | VStr h => n ← py_str needle; Ok (VBool (str_contains h n), i)
        | VList l => Ok (VBool (existsb (fun x => py_eq x needle) l), i)
        | _ => Ok (VBool false, i)
        end
    | _ => bad_arity
    end
  else if String.eqb name "startswith" then
    match args with
    | [a; b] => s ← py_str a; p ← py_str b; Ok (VBool (str_startswith s p), i)
    | _ => bad_arity
    end
  else if String.eqb name "endswith" then
    match args with
    | [a; b] => s ← py_str a; p ← py_str b; Ok (VBool (str_endswith s p), i)
    | _ => bad_arity
    end
  else if String.eqb name "matches" then
    match args with
    | [a; b] => s ← py_str a; p ← py_str b; Ok (VBool (regex_match s p), i)
    | _ => bad_arity
    end
  else if String.eqb name "int" then
    match args with
    | [VNone] => Ok (VInt 0, i)
    | [VBool b] => Ok (VInt (if b then 1 else 0), i)
    | [v] => n ← cast_error v (py_int v); Ok (VInt n, i)
    | _ => bad_arity
    end
  else if String.eqb name "float" then
    match args with
    | [VNone] => Ok (VFloat (fzero false), i)
    | [v] => x ← cast_error v (py_float v); Ok (VFloat x, i)
    | _ => bad_arity
    end
  else if String.eqb name "str" then
    match args with
    | [VNone] => Ok (VStr "null", i)
    | [VBool b] => Ok (VStr (if b then "true" else "false"), i)
    | [v] => s ← py_str v; Ok (VStr s, i)
    | _ => bad_arity
    end
  else if String.eqb name "json_get" then
    match args with
    | [obj; p] => path ← py_str p; pure i (json_get obj path)
    | _ => bad_arity
    end
  else if String.eqb name "coalesce" then
    Ok (default VNone (List.find (fun a => match a with VNone => false | _ => true end) args), i)
  else if String.eqb name "now_unix" then Ok (VFloat (env_time env i), S i)
  else if String.eqb name "abs" then
    match args with
    | [v] => Ok (match as_num v with Some n => num_abs n | None => VInt 0 end, i)
    | _ => bad_arity
    end
  else if String.eqb name "min" then
    match args with [] => bad_arity | _ => Ok (py_extreme num_ltb args, i) end
  else if String.eqb name "max" then
    match args with [] => bad_arity | _ => Ok (py_extreme (fun m n => num_ltb n m) args, i) end
  else Raise SELForbiddenConstruct.

(** The value of a unary operator on its operand. *)
Definition eval_unary (op : string) (val : pyval) : res pyval :=
  if String.eqb op "-" then Ok (match as_num val with Some n => num_opp n | None => VInt 0 end)
  else if String.eqb op "not" then Ok (VBool (negb (truthy val)))
  else Raise SELSyntaxError.

Definition arith (f : num -> num -> res pyval) (l r : pyval) : res pyval :=
  match as_num l, as_num r with Some m, Some n => f m n | _, _ => Ok (VInt 0) end.
(** [0] when the right operand equals zero. *)
Definition guard_zero (f : num -> num -> res pyval) (m n : num) : res pyval :=
  if num_is_zero n then Ok (VInt 0) else f m n.

(** The value of a strict binary operator on its operands. *)
Definition eval_strict_binop (op : string) (l r : pyval) : res pyval :=
  if String.eqb op "==" then Ok (VBool (safe_eq l r))
  else if String.eqb op "!=" then Ok (VBool (negb (safe_eq l r)))
  else if existsb (String.eqb op) ["<"; "<="; ">"; ">="]%string then Ok (VBool (safe_cmp op l r))
  else if String.eqb op "+" then
    match l, r with
    | VStr s, VStr t => Ok (VStr (s +:+ t))
    | _, _ => arith num_add l r
    end
  else if String.eqb op "-" then arith num_sub l r
  else if String.eqb op "*" then arith num_mul l r
  else if String.eqb op "/" then arith (guard_zero num_div) l r
  else if String.eqb op "%" then arith (guard_zero num_mod) l r
  else Raise SELSyntaxError.

Context (variables : pydict) (deadline : Z).

Fixpoint visit (node : ASTNode) (i : nat) {struct node} : res (pyval * nat) :=
  if deadline <? env_clock env i then Raise SELBudgetExceeded else
  let i := S i in
  match node with
  | NumberLit v _ => Ok (v, i)
  | StringLit s _ => Ok (VStr s, i)
  | BoolLit b _ => Ok (VBool b, i)
  | NullLit _ => Ok (VNone, i)
  | VarRef segments _ => Ok (resolve_var segments variables, i)
  | UnaryOp op operand _ => '(val, i) ← visit operand i; pure i (eval_unary op val)
  | BinOp op l r _ =>
      if String.eqb op "and" then
        '(lv, i) ← visit l i; if negb (truthy lv) then Ok (lv, i) else visit r i
      else if String.eqb op "or" then
        '(lv, i) ← visit l i; if truthy lv then Ok (lv, i) else visit r i
      else
        '(lv, i) ← visit l i; '(rv, i) ← visit r i; pure i (eval_strict_binop op lv rv)
  | FuncCall name args _ =>
      if negb (allowed_function name) then Raise SELForbiddenConstruct else
      '(vs, i) ← threadM visit args i;
      call_func name vs i
  end.
End evaluator.

(** [_walk_validate] *)
Fixpoint walk_validate (node : ASTNode) : res unit :=
  match node with
  | FuncCall name args _ =>
      if negb (allowed_function name) then Raise SELForbiddenConstruct
      else iterM walk_validate args
  | BinOp _ l r _ => _ ← walk_validate l; walk_validate r
  | UnaryOp _ x _ => walk_validate x
  | _ => Ok tt
  end.

Definition check_length (expression : string) : res unit :=
  if (MAX_EXPR_LENGTH <? String.length expression)%nat then Raise SELBudgetExceeded else Ok tt.

Definition validate (expression : string) : res unit :=
  _ ← check_length expression;
  tokens ← tokenize expression;
  ast ← parse tokens;
  walk_validate ast.

(** [evaluate]: the deadline is set from the first clock reading. *)
Definition evaluate (env : Env) (expression : string) (variables : pydict) : res pyval :=
  _ ← check_length expression;
  tokens ← tokenize expression;
  ast ← parse tokens;
  let deadline := env_clock env 0 + EVAL_BUDGET_NS in
  '(v, _) ← visit env variables deadline ast 1;
  Ok v.

(** ** Facts *)

Section ast_ind.
Variable P : ASTNode -> Prop.
Hypothesis Hnum : forall v d, P (NumberLit v d).
Hypothesis Hstr : forall s d, P (StringLit s d).
Hypothesis Hbool : forall b d, P (BoolLit b d).
Hypothesis Hnull : forall d, P (NullLit d).
Hypothesis Hvar : forall segs d, P (VarRef segs d).
Hypothesis Hbin : forall op l r d, P l -> P r -> P (BinOp op l r d).
Hypothesis Hun : forall op x d, P x -> P (UnaryOp op x d).
Hypothesis Hcall : forall n args d, Forall P args -> P (FuncCall n args d).
Fixpoint ast_ind' (a : ASTNode) : P a :=
  match a with
  | NumberLit v d => Hnum v d | StringLit s d => Hstr s d | BoolLit b d => Hbool b d
  | NullLit d => Hnull d | VarRef segs d => Hvar segs d
  | BinOp op l r d => Hbin op l r d (ast_ind' l) (ast_ind' r)
  | UnaryOp op x d => Hun op x d (ast_ind' x)
  | FuncCall n args d => Hcall n args d ((fix go l := match l return Forall P l with
      | [] => Forall_nil _ | x :: l => Forall_cons _ x l (ast_ind' x) (go l) end) args)
  end.
End ast_ind.

(** The number of nodes: a bound on the visits. *)
Fixpoint ast_size (a : ASTNode) : nat :=
  match a with
  | BinOp _ l r _ => S (ast_size l + ast_size r)
  | UnaryOp _ x _ => S (ast_size x)
  | FuncCall _ args _ => S (sum_list (map ast_size args))
  | _ => 1%nat
  end.

(** The exceptions a function or operator can raise at run time: the arity and
    cast errors, and the Python errors the code does not convert. *)
Definition value_error (e : exn) : Prop :=
  e = SELSyntaxError \/ e = ValueError \/ e = OverflowError.

Lemma skip_dot_length l : (length (skip_dot l) <= length l)%nat.
Proof. destruct l as [|[[] [] [] [] [] [] [] []] l]; simpl; lia. Qed.

Lemma skip_dot_le l k : (length l <= k)%nat -> (length (skip_dot l) <= k)%nat.
Proof. pose proof (skip_dot_length l). lia. Qed.

Lemma split_at_length c l a b : split_at c l = Some (a, b) -> (length b < length l)%nat.
Proof. intros ->%split_at_app. rewrite length_app. simpl. lia. Qed.

(** What is left after a key is shorter: the key is not empty or a dot follows. *)
Lemma span_key_length c rest key r :
  Ascii.eqb c "[" = false ->
  span (fun x => negb (Ascii.eqb x "." || Ascii.eqb x "[")) (c :: rest) = (key, r) ->
  (length (skip_dot r) <= length rest)%nat.
Proof.
  intros Hc. simpl. rewrite Hc. destruct (Ascii.eqb c ".") eqn:Hd; simpl.
  - apply Ascii.eqb_eq in Hd as ->. intros [= <- <-]. done.
  - destruct (span _ rest) as [a b] eqn:E. intros [= <- <-].
    apply skip_dot_le. apply span_length in E. lia.
Qed.

Lemma json_get_go_fuel fuel cur path :
  (length path <= fuel)%nat -> has_fuel (json_get_go fuel cur path).
Proof.
  revert cur path. induction fuel as [|fuel IH]; intros cur [|c rest] Hl;
    cbn -[int_of_str span split_at skip_dot]; simpl in Hl; try lia; auto with smap.
  destruct (Ascii.eqb c "[") eqn:Hc.
  - destruct (split_at "]" rest) as [[a b]|] eqn:Hs; [|destruct cur; auto with smap].
    assert (forall v, has_fuel (json_get_go fuel v (skip_dot b))) as Hgo.
    { intros v. apply IH, skip_dot_le. apply split_at_length in Hs. lia. }
    repeat case_match; auto with smap.
  - destruct (span _ (c :: rest)) as [key r] eqn:Hs.
    pose proof (span_key_length _ _ _ _ Hc Hs).
    destruct cur; auto with smap. apply IH. lia.
Qed.

Lemma json_get_fuel obj path : has_fuel (json_get obj path).
Proof. apply json_get_go_fuel. by rewrite length_chars. Qed.

Lemma json_get_go_raises fuel cur path :
  only_raises (fun e => e = ValueError) (json_get_go fuel cur path).
Proof.
  revert cur path. induction fuel as [|fuel IH]; intros cur [|c rest];
    cbn -[int_of_str span split_at skip_dot]; try done; [by destruct cur|].
  repeat case_match; try done; apply IH.
Qed.
Lemma json_get_raises obj path : only_raises (fun e => e = ValueError) (json_get obj path).
Proof. apply json_get_go_raises. Qed.

Lemma cast_error_fuel {A} v (m : res A) : has_fuel m -> has_fuel (cast_error v m).
Proof.
  intros Hm. destruct m as [a|e|]; [done| |done].
  destruct e; try done; apply bind_has_fuel; auto using py_repr_fuel with smap.
Qed.

Lemma cast_error_raises {A} v (m : res A) :
  only_raises (fun e => e = ValueError \/ e = TypeError \/ e = OverflowError) m ->
  only_raises value_error (cast_error v m).
Proof.
  unfold value_error. destruct m as [a|e|]; simpl; [done| |done].
  pose proof (py_repr_raises v) as Hr.
  intros [-> | [-> | ->]]; simpl; [| |by auto]; destruct (py_repr v); simpl in *; auto.
Qed.

#[export] Hint Resolve json_get_fuel cast_error_fuel : smap.

(** ** Exceptions and totality of the evaluator *)

Section total.
Context (env : Env).

Lemma call_func_fuel name args i : has_fuel (call_func env name args i).
Proof.
  unfold call_func, bad_arity, pure.
  repeat match goal with
    | |- has_fuel (_ ≫= _) => apply bind_has_fuel; [|intros ? _]
    | |- has_fuel (if ?b then _ else _) => destruct b
    | |- has_fuel (match ?x with _ => _ end) => destruct x
    end; auto with smap.
Qed.

Lemma call_func_raises name args i :
  allowed_function name = true -> only_raises value_error (call_func env name args i).
Proof.
  assert (Hs : forall v, only_raises value_error (py_str v)).
  { intros v. eapply only_raises_mono, py_str_raises. unfold value_error. auto. }
  assert (Hj : forall o p, only_raises value_error (json_get o p)).
  { intros o p. eapply only_raises_mono, json_get_raises. unfold value_error. auto. }
  assert (Hi : forall v, only_raises value_error (cast_error v (py_int v))).
  { intros v. apply cast_error_raises. eapply only_raises_mono, py_int_raises. naive_solver. }
  assert (Hf : forall v, only_raises value_error (cast_error v (py_float v))).
  { intros v. apply cast_error_raises. eapply only_raises_mono, py_float_raises. naive_solver. }
  assert (He : value_error SELSyntaxError) by (unfold value_error; auto).
  unfold allowed_function, call_func, bad_arity, pure, ALLOWED_FUNCTIONS.
  cbn [existsb]. intros Hallowed.
  repeat (match goal with
    | |- only_raises _ (_ ≫= _) => apply bind_only_raises; [|intros ? _]
    | |- only_raises _ (if String.eqb name ?s then _ else _) => destruct (String.eqb name s) eqn:?
    | |- only_raises _ (match ?x with _ => _ end) => destruct x
    end; try done).
Qed.
End total.

Lemma eval_unary_fuel op v : has_fuel (eval_unary op v).
Proof. unfold eval_unary. repeat case_match; auto with smap. Qed.
Lemma eval_unary_raises op v : only_raises value_error (eval_unary op v).
Proof. unfold eval_unary, value_error. repeat case_match; simpl; auto. Qed.

Lemma arith_fuel f l r : (forall m n, has_fuel (f m n)) -> has_fuel (arith f l r).
Proof. intros. unfold arith. repeat case_match; auto with smap. Qed.
Lemma arith_raises f l r :
  (forall m n, only_raises arith_error (f m n)) -> only_raises value_error (arith f l r).
Proof.
  intros H. unfold arith. repeat case_match; try done.
  eapply only_raises_mono, H. unfold value_error. auto.
Qed.
Lemma guard_zero_fuel f m n : has_fuel (f m n) -> has_fuel (guard_zero f m n).
Proof. unfold guard_zero. case_match; auto with smap. Qed.
Lemma guard_zero_raises f m n :
  only_raises arith_error (f m n) -> only_raises arith_error (guard_zero f m n).
Proof. unfold guard_zero. by case_match. Qed.

Lemma eval_strict_binop_fuel op l r : has_fuel (eval_strict_binop op l r).
Proof.
  assert (Ha : has_fuel (match l, r with
      | VStr s, VStr t => Ok (VStr (s +:+ t)) | _, _ => arith num_add l r end)).
  { destruct l, r; try apply has_fuel_Ok; apply arith_fuel; intros; apply num_op_fuel. }
  unfold eval_strict_binop.
  repeat (apply (fun b => match b return forall X Y : res pyval, has_fuel X -> has_fuel Y ->
      has_fuel (if b then X else Y) with true => fun _ _ H _ => H | false => fun _ _ _ H => H end));
    auto with smap; apply arith_fuel; intros; try apply guard_zero_fuel; auto with smap;
    apply num_op_fuel.
Qed.

Lemma eval_strict_binop_raises op l r : only_raises value_error (eval_strict_binop op l r).
Proof.
  assert (He : value_error SELSyntaxError) by (unfold value_error; auto).
  assert (Ha : only_raises value_error (match l, r with
      | VStr s, VStr t => Ok (VStr (s +:+ t)) | _, _ => arith num_add l r end)).
  { destruct l, r; try done; apply arith_raises; intros; apply num_op_raises. }
  unfold eval_strict_binop.
  repeat (apply (fun b => match b return forall X Y : res pyval, only_raises value_error X ->
      only_raises value_error Y -> only_raises value_error (if b then X else Y)
      with true => fun _ _ H _ => H | false => fun _ _ _ H => H end));
    try done; apply arith_raises; intros; try apply guard_zero_raises;
    first [apply num_op_raises | apply num_div_raises].
Qed.
#[export] Hint Resolve eval_unary_fuel eval_strict_binop_fuel call_func_fuel : smap.
#[export] Hint Resolve eval_unary_raises eval_strict_binop_raises : smap.

Section visit_facts.
Context (env : Env) (variables : pydict) (deadline : Z).
Notation visit := (visit env variables deadline).

Lemma visit_fuel node : forall i, has_fuel (visit node i).
Proof.
  induction node as [| | | | |op l r d IHl IHr|op x d IHx|n args d IH] using ast_ind'; intros i;
    cbn -[eval_strict_binop eval_unary call_func]; destruct (deadline <? env_clock env i);
    auto with smap.
  - destruct (String.eqb op "and"); [|destruct (String.eqb op "or")].
    1,2: apply bind_has_fuel; [done|]; intros [v j] _; case_match; auto with smap.
    apply bind_has_fuel; [done|]; intros [v j] _. apply bind_has_fuel; [done|]; intros [w k] _.
    apply bind_has_fuel; auto with smap.
  - apply bind_has_fuel; [done|]; intros [v j] _. apply bind_has_fuel; auto with smap.
  - case_match; auto with smap. apply bind_has_fuel; [by apply threadM_has_fuel|].
    intros [vs j] _. auto with smap.
Qed.

(** The exceptions of a run: the budget error only if the deadline passed, the
    whitelist error only if the static check fails. *)
Lemma visit_raises (P : exn -> Prop) :
  (forall i, deadline < env_clock env i -> P SELBudgetExceeded) ->
  (forall e, value_error e -> P e) ->
  forall node, (walk_validate node = Ok tt \/ P SELForbiddenConstruct) ->
  forall i, only_raises P (visit node i).
Proof.
  intros Hclock Hval.
  assert (Hmono : forall {A} (m : res A), only_raises value_error m -> only_raises P m)
    by (intros A m; by apply only_raises_mono).
  induction node as [| | | | |op l r d IHl IHr|op x d IHx|n args d IH] using ast_ind'; intros Hw i;
    cbn -[eval_strict_binop eval_unary call_func allowed_function walk_validate];
    destruct (deadline <? env_clock env i) eqn:Ht; try done;
    try (apply (Hclock i); lia).
  - assert ((walk_validate l = Ok tt /\ walk_validate r = Ok tt) \/ P SELForbiddenConstruct) as Hlr.
    { destruct Hw as [Hw|]; [left|by right]. simpl in Hw. by apply bind_Ok in Hw as ([] & ? & ?). }
    assert (forall i, only_raises P (visit l i)) by (apply IHl; tauto).
    assert (forall i, only_raises P (visit r i)) by (apply IHr; tauto).
    destruct (String.eqb op "and"); [|destruct (String.eqb op "or")].
    1,2: apply bind_only_raises; [done|]; intros [v j] _; by case_match.
    apply bind_only_raises; [done|]; intros [v j] _. apply bind_only_raises; [done|]; intros [w k] _.
    apply bind_only_raises; [apply Hmono, eval_strict_binop_raises|done].
  - apply bind_only_raises; [auto|]; intros [v j] _.
    apply bind_only_raises; [apply Hmono, eval_unary_raises|done].
  - cbn -[allowed_function] in Hw.
    destruct (allowed_function n) eqn:Hn; simpl; [|destruct Hw; [discriminate|auto]].
    apply bind_only_raises.
    + apply threadM_only_raises. apply List.Forall_forall. intros x Hx.
      rewrite List.Forall_forall in IH. apply IH; [done|].
      destruct Hw as [Hw|]; [left|by right].
      apply (iterM_Ok walk_validate) in Hw. rewrite List.Forall_forall in Hw. auto.
    + intros [vs j] _. apply Hmono, call_func_raises, Hn.
Qed.
End visit_facts.

(** ** The time budget *)

(** [within r r']: [r] is [r'] cut short by the budget, or [r'] itself. *)
Definition within {A} (r r' : res A) : Prop := r = Raise SELBudgetExceeded \/ r = r'.

Lemma within_refl {A} (r : res A) : within r r.
Proof. by right. Qed.
Lemma within_bind {A B} (m m' : res A) (f f' : A -> res B) :
  within m m' -> (forall a, within (f a) (f' a)) -> within (m ≫= f) (m' ≫= f').
Proof. intros [-> | ->] Hf; [by left|]. destruct m'; simpl; [apply Hf|by right..]. Qed.
#[export] Hint Resolve within_refl within_bind : smap.

Lemma threadM_within {A B} (f f' : A -> nat -> res (B * nat)) l :
  Forall (fun x => forall i, within (f x i) (f' x i)) l ->
  forall i, within (threadM f l i) (threadM f' l i).
Proof.
  induction 1 as [|x l Hx _ IH]; intros i; simpl; auto with smap.
  apply within_bind; [done|]. intros [y j]. apply within_bind; [done|]. intros [ys k]. auto with smap.
Qed.

Lemma visit_within env variables d d' node :
  d <= d' -> forall i, within (visit env variables d node i) (visit env variables d' node i).
Proof.
  intros Hd.
  induction node as [| | | | |op l r dd IHl IHr|op x dd IHx|n args dd IH] using ast_ind'; intros i;
    cbn -[eval_strict_binop eval_unary call_func allowed_function];
    destruct (d <? env_clock env i) eqn:Ht; try (by left);
    (destruct (d' <? env_clock env i) eqn:Ht'; [lia|]); auto with smap.
  - destruct (String.eqb op "and"); [|destruct (String.eqb op "or")];
      apply within_bind; try done; intros [v j]; try (case_match; auto with smap; fail).
    apply within_bind; [done|]. intros [w k]. auto with smap.
  - destruct (allowed_function n); cbn [negb]; auto with smap.
    apply within_bind; [by apply threadM_within|]. intros [vs j]. auto with smap.
Qed.

Lemma call_func_readings env name args i v j :
  call_func env name args i = Ok (v, j) -> (i <= j <= S i)%nat.
Proof.
  unfold call_func, bad_arity, pure. intros H.
  repeat (match type of H with
    | (_ ≫= _) = Ok _ => apply bind_Ok in H as (? & _ & H)
    | (if ?b then _ else _) = _ => destruct b
    | (match ?x with _ => _ end) = _ => destruct x
    end; try discriminate); injection H as <- <-; lia.
Qed.

(** A visit reads the clock once per node visited, [now_unix] once more. *)
Lemma visit_readings env variables d node : forall i v j,
  visit env variables d node i = Ok (v, j) -> (i < j <= i + 2 * ast_size node)%nat.
Proof.
  induction node as [| | | | |op l r dd IHl IHr|op x dd IHx|n args dd IH] using ast_ind'; intros i res_v j;
    cbn -[eval_strict_binop eval_unary call_func allowed_function Nat.mul Nat.add];
    destruct (d <? env_clock env i); try discriminate; try (intros [= <- <-]; lia).
  - destruct (String.eqb op "and"); [|destruct (String.eqb op "or")];
      intros ([lv k] & Hl%IHl & H)%bind_Ok;
      try (case_match; [injection H as <- <-|apply IHr in H]; lia).
    apply bind_Ok in H as ([rv m] & Hr%IHr & (z & _ & [= <- <-])%bind_Ok). lia.
  - intros ([lv k] & Hl%IHx & (z & _ & [= <- <-])%bind_Ok)%bind_Ok. lia.
  - destruct (allowed_function n); cbn [negb]; [|discriminate].
    intros ([vs k] & Hvs & H%call_func_readings)%bind_Ok.
    enough (S i <= k <= S i + 2 * sum_list (map ast_size args))%nat by lia.
    clear H. revert vs k Hvs. generalize (S i). induction IH as [|x l Hx _ IHl']; intros m vs k.
    + intros [= <- <-]. lia.
    + cbn -[Nat.mul Nat.add].
      intros ([y m'] & Hy%Hx & ([ys k'] & Hys%IHl' & [= <- <-])%bind_Ok)%bind_Ok. lia.
Qed.

(** * Properties *)

(** What [evaluate] may raise: its three documented errors, and two Python errors
    that it does not convert. *)
Definition evaluate_error (e : exn) : Prop :=
  e = SELBudgetExceeded \/ e = SELForbiddenConstruct \/ value_error e.

Lemma parse_error_evaluate e : parse_error e -> evaluate_error e.
Proof. unfold parse_error, evaluate_error, value_error. naive_solver. Qed.

Lemma check_length_cases e : check_length e = Ok tt \/ check_length e = Raise SELBudgetExceeded.
Proof. unfold check_length. case_match; auto. Qed.

(** [validate] and [evaluate] start alike: an over-long, ill-formed or too deep
    expression gives the same exception in both. *)
Lemma front_cases e :
  (exists a ts, check_length e = Ok tt /\ tokenize e = Ok ts /\ parse ts = Ok a) \/
  (exists x, parse_error x /\ forall B (k : list Token -> ASTNode -> res B),
    (_ ← check_length e; ts ← tokenize e; a ← parse ts; k ts a) = Raise x).
Proof.
  destruct (check_length_cases e) as [Hc|Hc]; rewrite Hc; simpl.
  2: { right. eexists. split; [|done]. unfold parse_error. tauto. }
  pose proof (parse_source_spec e) as H.
  destruct (tokenize e) as [ts|x|]; simpl in *; [|by right; exists x|done].
  destruct (parse ts) as [a|x|] eqn:Hp; simpl in *; [|by right; exists x|done].
  left. by exists a, ts.
Qed.

Lemma walk_validate_cases a :
  walk_validate a = Ok tt \/ walk_validate a = Raise SELForbiddenConstruct.
Proof.
  induction a as [| | | | |op l r dd [IHl|IHl] IHr|op x dd IHx|n args dd IH] using ast_ind'; auto.
  - simpl. rewrite IHl. exact IHr.
  - simpl. rewrite IHl. by right.
  - cbn -[allowed_function]. destruct (allowed_function n); simpl; [|by right].
    induction IH as [|x l [Hx|Hx] _ IHl]; simpl; [by left|by rewrite Hx|rewrite Hx; by right].
Qed.

Lemma validate_cases s :
  validate s = Ok tt \/ exists e, validate s = Raise e /\ (parse_error e \/ e = SELForbiddenConstruct).
Proof.
  unfold validate. destruct (front_cases s) as [(a & ts & Hc & Ht & Hp)|(x & Hx & H)].
  - rewrite Hc, Ht. cbn -[parse walk_validate]. rewrite Hp. cbn -[walk_validate].
    destruct (walk_validate_cases a) as [Hw|Hw]; rewrite Hw; eauto.
  - right. exists x. split; [apply (H _ (fun _ a => walk_validate a))|auto].
Qed.

(** Evaluating any text on any variables, with any clock and regular expression
    engine, terminates with a value or an exception of the list: the three
    documented ones, [ValueError] or [OverflowError].  Nothing else escapes. *)
Theorem evaluate_total env expression variables :
  match evaluate env expression variables with
  | Ok _ => True
  | Raise e => evaluate_error e
  | NoFuel => False
  end.
Proof.
  unfold evaluate. destruct (front_cases expression) as [(a & ts & Hc & Ht & Hp)|(x & Hx & H)].
  - rewrite Hc, Ht. cbn -[parse visit walk_validate]. rewrite Hp. cbn -[visit walk_validate]. set (d := _ + _).
    pose proof (visit_fuel env variables d a 1) as Hf.
    pose proof (visit_raises env variables d evaluate_error) as Hr.
    specialize (Hr ltac:(unfold evaluate_error; auto) ltac:(unfold evaluate_error; auto) a
      ltac:(unfold evaluate_error; auto) 1%nat).
    by destruct (visit env variables d a 1) as [[]| |].
  - rewrite (H _ (fun _ a => '(v, _) ← visit env variables _ a 1; Ok v)).
    by apply parse_error_evaluate.
Qed.

(** The save-time check covers the run-time one.  An expression that [validate]
    accepts is parsed and evaluated without ever meeting a forbidden function, and
    it exceeds its budget only if some clock reading is past the deadline; an
    expression that [validate] rejects for another reason than a forbidden function
    is rejected with the same exception by [evaluate]. *)
Theorem validate_covers_evaluate env expression variables :
  match validate expression with
  | Ok _ => only_raises (fun e => value_error e \/
      e = SELBudgetExceeded /\ exists i, env_clock env 0 + EVAL_BUDGET_NS < env_clock env i)
      (evaluate env expression variables)
  | Raise SELForbiddenConstruct => True
  | Raise e => evaluate env expression variables = Raise e
  | NoFuel => False
  end.
Proof.
  unfold evaluate, validate.
  destruct (front_cases expression) as [(a & ts & Hc & Ht & Hp)|(x & Hx & H)].
  - rewrite Hc, Ht. cbn -[parse visit walk_validate]. rewrite Hp. cbn -[visit walk_validate].
    destruct (walk_validate_cases a) as [Hw|Hw]; rewrite Hw; [|done].
    eapply bind_only_raises; [|by intros []].
    apply visit_raises; [eauto..|by left].
  - rewrite (H _ (fun _ a => walk_validate a)).
    rewrite (H _ (fun _ a => '(v, _) ← visit env variables _ a 1; Ok v)).
    by destruct x.
Qed.

(** The time budget is only ever seen as the budget error: with a later
    deadline an evaluation that was not cut short gives the same outcome, an
    evaluation that returns has read the clock at most twice per node, and one that
    starts past its deadline is cut short at once. *)
Theorem visit_budget env variables d node i :
  (forall d', d <= d' -> visit env variables d node i = Raise SELBudgetExceeded \/
     visit env variables d node i = visit env variables d' node i) /\
  (forall v j, visit env variables d node i = Ok (v, j) ->
     (i < j <= i + 2 * ast_size node)%nat /\ env_clock env i <= d) /\
  (d < env_clock env i -> visit env variables d node i = Raise SELBudgetExceeded).
Proof.
  assert (Hlate : d < env_clock env i -> visit env variables d node i = Raise SELBudgetExceeded).
  { intros H%Z.ltb_lt. by destruct node; cbn -[allowed_function]; rewrite H. }
  split; [intros d' Hd; by apply visit_within|]. split; [|done].
  intros v j H. split; [by eapply visit_readings|].
  apply Z.nlt_ge. intros Hl%Hlate. congruence.
Qed.

(** Integers survive a round trip through text: whatever [str(n)] gives,
    [int(...)] of it is [n] again, and neither reads the clock. *)
Lemma int_str_roundtrip env n s i j :
  call_func env "str" [VInt n] i = Ok (VStr s, j) ->
  call_func env "int" [VStr s] j = Ok (VInt n, i).
Proof.
  cbn. intros (t & Ht & [= <- <-])%bind_Ok. change (str_of_int n = Ok t) in Ht.
  by rewrite (int_of_str_of_int n t Ht).
Qed.

Definition frozen : Env := mkEnv (fun _ => 0) (fun _ => fzero false) None.
