(* ===== verification/SelTemplate.v ===== *)
(** * SEL template interpolation

    [contexts/workflow/sel/template.py].  The module's regular expression
    [_VAR_RE] is deterministic: after every prefix of a match the next character
    decides the alternative, and a longer name or blank run can never be given back.
    [match_var] is that matcher, [interpolate] the left-most non-overlapping
    substitution of [re.sub]. *)

From S2P Require Import Prelude PyFloat PyValue SelLexer SelParser SelEval.
(** ** [_VAR_RE] *)

Definition is_ascii_alpha (c : ascii) : bool :=
  between 65 90 (code c) || between 97 122 (code c) || Ascii.eqb c "_".
Definition is_ascii_word (c : ascii) : bool := is_ascii_alpha c || is_decimal c.

(** [[a-zA-Z_][a-zA-Z0-9_]*] *)
Definition match_name (l : list ascii) : option (list ascii * list ascii) :=
  match l with
  | c :: _ => if is_ascii_alpha c then Some (span is_ascii_word l) else None
  | [] => None
  end.

(** The rest of a quoted segment: [[^q]*q\]]. *)
Definition match_quoted (q : ascii) (l : list ascii) : option (list ascii * list ascii) :=
  match split_at q l with
  | Some (a, "]"%char :: r) => Some (a ++ [q; "]"%char], r)
  | _ => None
  end.

(** One of [\.NAME], [\[\d+\]], [\["..."\]] and [\['...'\]]. *)
Definition match_seg (l : list ascii) : option (list ascii * list ascii) :=
  match l with
  | "."%char :: l =>
      match match_name l with Some (a, r) => Some ("."%char :: a, r) | None => None end
  | "["%char :: c :: l =>
      if is_decimal c then
        let '(a, r) := span is_decimal l in
        match r with "]"%char :: r => Some ("["%char :: c :: a ++ ["]"%char], r) | _ => None end
      else if is_quote c then
        match match_quoted c l with Some (a, r) => Some ("["%char :: c :: a, r) | None => None end
      else None
  | _ => None
  end.

Fixpoint match_segs (fuel : nat) (l : list ascii) : list ascii * list ascii :=
  match fuel with
  | O => ([], l)
  | S fuel =>
      match match_seg l with
      | Some (a, r) => let '(b, r) := match_segs fuel r in (a ++ b, r)
      | None => ([], l)
      end
  end.

(** A match at the head of the text: group 1, group 0 and what follows. *)
Definition match_var (l : list ascii) : option (list ascii * list ascii * list ascii) :=
  match l with
  | "{"%char :: "{"%char :: l1 =>
      let '(w1, l2) := span is_space l1 in
      match match_name l2 with
      | Some (a, l3) =>
          let '(b, l4) := match_segs (length l3) l3 in
          let '(w2, l5) := span is_space l4 in
          match l5 with
          | "}"%char :: "}"%char :: l6 =>
              Some (a ++ b, ["{"%char; "{"%char] ++ w1 ++ a ++ b ++ w2 ++ ["}"%char; "}"%char], l6)
          | _ => None
          end
      | None => None
      end
  | _ => None
  end.

(** ** [_parse_path] *)

Definition is_key_char (c : ascii) : bool := negb (Ascii.eqb c "." || Ascii.eqb c "[").

(** [inner.isdigit()] is false of the empty string. *)
Definition all_digits (l : list ascii) : bool :=
  match l with [] => false | _ => forallb is_digit l end.

Fixpoint parse_path_go (fuel : nat) (l : list ascii) : res (list seg) :=
  match l with
  | [] => Ok []
  | c :: rest =>
      match fuel with
      | O => NoFuel
      | S fuel =>
          if Ascii.eqb c "[" then
            match split_at "]" rest with
            | None => Raise ValueError
            | Some (inner, after) =>
                s ← (if all_digits inner then n ← int_of_str (unchars inner); Ok (SegIndex n)
                     else Ok (SegName (unchars (strip_chars is_quote inner))));
                segs ← parse_path_go fuel (skip_dot after);
                Ok (s :: segs)
            end
          else if Ascii.eqb c "." then parse_path_go fuel rest
          else
            let '(key, r) := span is_key_char l in
            segs ← parse_path_go fuel r;
            Ok (SegName (unchars key) :: segs)
      end
  end.

Definition parse_path (path_str : string) : res (list seg) :=
  parse_path_go (String.length path_str) (chars path_str).

(** ** [_resolve]; [None] is [_UNRESOLVED] *)

Fixpoint resolve_go (obj : pyval) (rest : list seg) : option pyval :=
  match rest with
  | [] => Some obj
  | s :: rest =>
      match obj, s with
      | VNone, _ => None
      | VList l, SegIndex n =>
          match list_index l n with Some v => resolve_go v rest | None => None end
      | VDict d, SegName k =>
          match dict_get k d with Some v => resolve_go v rest | None => None end
      | _, _ => None
      end
  end.

Definition resolve (segments : list seg) (variables : pydict) : option pyval :=
  match segments with
  | [] => None
  | SegName "trigger" :: rest => resolve_go (dict_get_or "__trigger__" (VDict []) variables) rest
  | SegName "ctx" :: rest => resolve_go (dict_get_or "__ctx__" (VDict []) variables) rest
  | _ => resolve_go (VDict variables) segments
  end.

Definition format_value (v : pyval) : res string :=
  match v with
  | VNone => Ok "null"%string
  | VBool b => Ok (if b then "true" else "false")%string
  | v => py_str v
  end.

(** [_replace]: the text that stands for a match. *)
Definition replace (variables : pydict) (path whole : list ascii) : res (list ascii) :=
  segments ← parse_path (unchars path);
  match resolve segments variables with
  | None => Ok whole
  | Some v => s ← format_value v; Ok (chars s)
  end.

Fixpoint interpolate_go (fuel : nat) (variables : pydict) (l : list ascii) : res (list ascii) :=
  match l with
  | [] => Ok []
  | c :: rest =>
      match fuel with
      | O => NoFuel
      | S fuel =>
          match match_var l with
          | Some (path, whole, after) =>
              s ← replace variables path whole;
              r ← interpolate_go fuel variables after;
              Ok (s ++ r)
          | None => r ← interpolate_go fuel variables rest; Ok (c :: r)
          end
      end
  end.

Definition interpolate (template : string) (variables : pydict) : res string :=
  r ← interpolate_go (String.length template) variables (chars template);
  Ok (unchars r).

Example interpolate_1 :
  interpolate "Hi {{ user.name }}, {{x[1]}} {{ y }} {{b}}"
    [("user", VDict [("name", VStr "Ann")]); ("x", VList [VInt 1; VInt 2]); ("b", VBool true)]
  = Ok "Hi Ann, 2 {{ y }} true"%string.
Proof. vm_compute. reflexivity. Qed.

(** ** Matches are pieces of the text *)

Lemma match_name_app l a r : match_name l = Some (a, r) -> l = a ++ r /\ a <> [].
Proof.
  destruct l as [|c l]; cbn -[span]; [done|]. destruct (is_ascii_alpha c) eqn:Hc; [|done].
  intros [= H]. split; [by eapply span_app|]. intros ->. cbn in H.
  unfold is_ascii_word in H. rewrite Hc in H. simpl in H. by destruct (span _ l).
Qed.

Lemma match_quoted_app q l a r : match_quoted q l = Some (a, r) -> l = a ++ r.
Proof.
  unfold match_quoted. destruct (split_at q l) as [[b s]|] eqn:E; [|done].
  apply split_at_app in E as ->.
  destruct s as [|c s]; [done|]. destruct (Ascii.eqb_spec c "]") as [->|Hc].
  - intros [= <- <-]. by rewrite <- app_assoc.
  - by destruct c as [[] [] [] [] [] [] [] []].
Qed.

Lemma match_close (A : Type) (r : list ascii) (f : list ascii -> option A) x :
  match r with "]"%char :: r => f r | _ => None end = Some x ->
  exists r', r = "]"%char :: r' /\ f r' = Some x.
Proof.
  destruct r as [|c r]; [done|]. destruct (Ascii.eqb_spec c "]") as [->|Hc]; [by eauto|].
  by destruct c as [[] [] [] [] [] [] [] []].
Qed.

Lemma match_seg_app l a r : match_seg l = Some (a, r) -> l = a ++ r /\ a <> [].
Proof.
  destruct l as [|c l]; [done|].
  destruct (Ascii.eqb_spec c ".") as [->|Hd].
  { cbn -[match_name]. destruct (match_name l) as [[b s]|] eqn:E; [|done].
    intros [= <- <-]. by apply match_name_app in E as [-> _]. }
  destruct (Ascii.eqb_spec c "[") as [->|Hb]; [|by destruct c as [[] [] [] [] [] [] [] []]].
  destruct l as [|c l]; [done|]. cbn -[match_quoted span is_decimal is_quote].
  destruct (is_decimal c).
  - destruct (span is_decimal l) as [b s] eqn:E. intros (s' & -> & [= <- <-])%match_close.
    apply span_app in E as ->. split; [simpl; by rewrite <- app_assoc|done].
  - destruct (is_quote c); [|done]. destruct (match_quoted c l) as [[b s]|] eqn:E; [|done].
    intros [= <- <-]. by apply match_quoted_app in E as ->.
Qed.

Lemma match_segs_app fuel l a r : match_segs fuel l = (a, r) -> l = a ++ r.
Proof.
  revert l a r. induction fuel as [|fuel IH]; intros l a r; simpl; [by intros [= <- <-]|].
  destruct (match_seg l) as [[b s]|] eqn:E; [|by intros [= <- <-]].
  destruct (match_segs fuel s) as [b' s'] eqn:E'. intros [= <- <-].
  apply match_seg_app in E as [-> _]. apply IH in E' as ->. by rewrite app_assoc.
Qed.

(** Only a text that starts with two braces matches. *)
Lemma match_var_braces l x : match_var l = Some x -> exists l', l = "{"%char :: "{"%char :: l'.
Proof.
  destruct l as [|c l]; [done|].
  destruct (Ascii.eqb_spec c "{") as [->|Hc]; [|by destruct c as [[] [] [] [] [] [] [] []]].
  destruct l as [|c l]; [done|].
  destruct (Ascii.eqb_spec c "{") as [->|Hc]; [by eauto|by destruct c as [[] [] [] [] [] [] [] []]].
Qed.

Lemma close_braces (A : Type) (r : list ascii) (f : list ascii -> A) x :
  match r with "}"%char :: "}"%char :: r => Some (f r) | _ => None end = Some x ->
  exists r', r = "}"%char :: "}"%char :: r' /\ f r' = x.
Proof.
  destruct r as [|c r]; [done|].
  destruct (Ascii.eqb_spec c "}") as [->|Hc]; [|by destruct c as [[] [] [] [] [] [] [] []]].
  destruct r as [|c r]; [done|].
  destruct (Ascii.eqb_spec c "}") as [->|Hc]; [|by destruct c as [[] [] [] [] [] [] [] []]].
  intros [= <-]. by eauto.
Qed.

Lemma match_var_app l path whole after :
  match_var l = Some (path, whole, after) -> l = whole ++ after /\ (2 <= length whole)%nat.
Proof.
  intros H. destruct (match_var_braces _ _ H) as [l1 ->]. revert H.
  cbn -[span match_name match_segs].
  destruct (span is_space l1) as [w1 l2] eqn:E1.
  destruct (match_name l2) as [[a l3]|] eqn:E2; [|done].
  destruct (match_segs _ l3) as [b l4] eqn:E3. destruct (span is_space l4) as [w2 l5] eqn:E4.
  intros (l6 & -> & [= _ <- <-])%close_braces.
  apply span_app in E1 as ->. apply match_name_app in E2 as [-> _].
  apply match_segs_app in E3 as ->. apply span_app in E4 as ->.
  simpl. rewrite <- !app_assoc. split; [done|lia].
Qed.

(** ** Totality *)

Lemma parse_path_go_fuel fuel l : (length l <= fuel)%nat -> has_fuel (parse_path_go fuel l).
Proof.
  revert l. induction fuel as [|fuel IH]; intros [|c rest] Hl; simpl in Hl; try lia;
    cbn -[span split_at skip_dot all_digits int_of_str is_key_char]; auto with smap.
  destruct (Ascii.eqb c "[") eqn:Hb; [|destruct (Ascii.eqb c ".") eqn:Hd].
  - destruct (split_at "]" rest) as [[a b]|] eqn:E; auto with smap. apply split_at_length in E.
    apply bind_has_fuel.
    + case_match; auto with smap. apply bind_has_fuel; [apply int_of_str_fuel|auto with smap].
    + intros s _. apply bind_has_fuel; [apply IH, skip_dot_le; lia|auto with smap].
  - apply IH. lia.
  - destruct (span _ (c :: rest)) as [a b] eqn:E.
    apply bind_has_fuel; [apply IH|auto with smap]. simpl in E. unfold is_key_char at 1 in E.
    rewrite Hb, Hd in E. simpl in E. destruct (span _ rest) eqn:E'. injection E as <- <-.
    apply span_length in E'. lia.
Qed.

Lemma parse_path_go_raises fuel l : only_raises (fun e => e = ValueError) (parse_path_go fuel l).
Proof.
  revert l. induction fuel as [|fuel IH]; intros [|c rest];
    cbn -[span split_at skip_dot all_digits int_of_str is_key_char]; try done.
  repeat case_match; try done; repeat (apply bind_only_raises; [try done|intros ? _]); try done;
    try apply int_of_str_raises; apply IH.
Qed.

Lemma replace_fuel variables p w : has_fuel (replace variables p w).
Proof.
  apply bind_has_fuel; [apply parse_path_go_fuel; by rewrite length_chars|]. intros segs _.
  case_match; auto with smap. apply bind_has_fuel; [|auto with smap].
  unfold format_value. case_match; auto with smap.
Qed.
Lemma replace_raises variables p w : only_raises (fun e => e = ValueError) (replace variables p w).
Proof.
  apply bind_only_raises; [apply parse_path_go_raises|]. intros segs _.
  case_match; [|done]. apply bind_only_raises; [|done].
  unfold format_value. case_match; try done; apply py_str_raises.
Qed.

Lemma interpolate_go_fuel fuel variables l :
  (length l <= fuel)%nat -> has_fuel (interpolate_go fuel variables l).
Proof.
  revert l. induction fuel as [|fuel IH]; intros [|c rest] Hl; simpl in Hl; try lia;
    cbn -[match_var]; auto with smap.
  destruct (match_var (c :: rest)) as [[[p w] after]|] eqn:E.
  - apply match_var_app in E as [E Hw]. apply (f_equal length) in E. rewrite length_app in E.
    simpl in E. apply bind_has_fuel; [apply replace_fuel|]. intros s _.
    apply bind_has_fuel; [apply IH; lia|auto with smap].
  - apply bind_has_fuel; [apply IH; lia|auto with smap].
Qed.

Lemma interpolate_go_raises fuel variables l :
  only_raises (fun e => e = ValueError) (interpolate_go fuel variables l).
Proof.
  revert l. induction fuel as [|fuel IH]; intros [|c rest]; cbn -[match_var]; try done.
  destruct (match_var (c :: rest)) as [[[p w] after]|]; apply bind_only_raises; try done.
  - apply replace_raises.
  - intros s _. apply bind_only_raises; [apply IH|done].
Qed.

(** More fuel than characters changes nothing. *)
Lemma interpolate_go_mono fuel fuel' variables l :
  (length l <= fuel)%nat -> (length l <= fuel')%nat ->
  interpolate_go fuel variables l = interpolate_go fuel' variables l.
Proof.
  revert fuel' l. induction fuel as [|fuel IH]; intros [|fuel'] [|c rest] H H'; simpl in H, H';
    try lia; try done. cbn -[match_var].
  destruct (match_var (c :: rest)) as [[[p w] after]|] eqn:E.
  - apply match_var_app in E as [E Hw]. apply (f_equal length) in E. rewrite length_app in E.
    simpl in E. rewrite (IH fuel' after) by lia. done.
  - by rewrite (IH fuel' rest) by lia.
Qed.

(** ** Placeholders of dotted names *)

(** An identifier of the path grammar. *)
Definition ident (s : string) : Prop :=
  match chars s with c :: l => is_ascii_alpha c = true /\ Forall (fun c => is_ascii_word c = true) l
  | [] => False end.

Definition dotted_tail (names : list string) : list ascii :=
  flat_map (fun s => "."%char :: chars s) names.
Definition dotted (s : string) (names : list string) : list ascii := chars s ++ dotted_tail names.

(** [{{ n1.n2...nk }}] *)
Definition placeholder (s : string) (names : list string) : list ascii :=
  ["{"%char; "{"%char; " "%char] ++ dotted s names ++ [" "%char; "}"%char; "}"%char].

Definition stops (p : ascii -> bool) (l : list ascii) : Prop :=
  match l with [] => True | c :: _ => p c = false end.

Lemma match_name_ident s rest :
  ident s -> stops is_ascii_word rest -> match_name (chars s ++ rest) = Some (chars s, rest).
Proof.
  unfold ident. destruct (chars s) as [|c l] eqn:E; [done|]. intros [Hc Hl] Hr.
  cbn -[span]. rewrite Hc. f_equal. apply (span_eq is_ascii_word (c :: l)); [|exact Hr].
  constructor; [|done]. unfold is_ascii_word. by rewrite Hc.
Qed.

Lemma dotted_tail_stops p names rest :
  p "."%char = false -> stops p rest -> stops p (dotted_tail names ++ rest).
Proof. intros Hp Hr. by destruct names. Qed.

Lemma match_segs_dotted names rest fuel :
  Forall ident names -> stops is_ascii_word rest -> match_seg rest = None ->
  (length (dotted_tail names) < fuel)%nat ->
  match_segs fuel (dotted_tail names ++ rest) = (dotted_tail names, rest).
Proof.
  intros Hn Hr Hs. revert fuel. induction Hn as [|n names Hn Hns IH]; intros fuel Hf;
    (destruct fuel as [|fuel]; [simpl in Hf; lia|]).
  - simpl. by rewrite Hs.
  - assert (Hl : (0 < length (chars n))%nat) by (unfold ident in Hn; destruct (chars n); simpl; [done|lia]).
    simpl in Hf. rewrite length_app in Hf.
    cbn -[match_seg match_name]. rewrite <- app_assoc. cbn -[match_name].
    rewrite match_name_ident by (try done; by apply dotted_tail_stops).
    rewrite IH by lia. by rewrite app_comm_cons.
Qed.

Lemma match_var_placeholder s names rest :
  ident s -> Forall ident names ->
  match_var (placeholder s names ++ rest) = Some (dotted s names, placeholder s names, rest).
Proof.
  intros Hs Hn. unfold placeholder, dotted. cbn -[span match_name match_segs is_space].
  rewrite <- !app_assoc. cbn -[span match_name match_segs is_space].
  pose proof Hs as Hs'. unfold ident in Hs'. destruct (chars s) as [|c l] eqn:E; [done|].
  assert (Hc : is_space c = false).
  { pose (p c := implb (is_ascii_alpha c) (negb (is_space c))).
    assert (p c = true) as Hp by (apply ascii_forallb; vm_compute; reflexivity).
    unfold p in Hp. rewrite (proj1 Hs') in Hp. by apply negb_true_iff. }
  set (tl := dotted_tail names ++ " "%char :: "}"%char :: "}"%char :: rest).
  assert (Hsp : span is_space (" "%char :: (c :: l) ++ tl) = ([" "%char], (c :: l) ++ tl)).
  { apply (span_eq is_space [" "%char]); [by repeat constructor|done]. }
  rewrite Hsp, <- E. rewrite match_name_ident by (try done; by apply dotted_tail_stops).
  subst tl. rewrite match_segs_dotted; [|done..|rewrite length_app; simpl; lia].
  assert (Hsp2 : span is_space (" "%char :: "}"%char :: "}"%char :: rest)
    = ([" "%char], "}"%char :: "}"%char :: rest)) by reflexivity.
  by rewrite Hsp2.
Qed.

Lemma ident_key_chars s : ident s ->
  Forall (fun c => is_key_char c = true) (chars s) /\
  (exists c l, chars s = c :: l /\ Ascii.eqb c "[" = false /\ Ascii.eqb c "." = false).
Proof.
  assert (Hp : forall c, implb (is_ascii_word c)
    (is_key_char c && negb (Ascii.eqb c "[") && negb (Ascii.eqb c "."))%bool = true)
    by (apply ascii_forallb; vm_compute; reflexivity).
  unfold ident. destruct (chars s) as [|c l]; [done|]. intros [Hc Hl].
  assert (is_ascii_word c = true) as Hw by (unfold is_ascii_word; by rewrite Hc).
  pose proof (Hp c) as H. rewrite Hw in H. simpl in H.
  apply andb_true_iff in H as [[H1 H2]%andb_true_iff H3].
  apply negb_true_iff in H2, H3. split; [|by exists c, l].
  constructor; [done|]. eapply Forall_impl, Hl. intros x Hx. pose proof (Hp x) as H.
  rewrite Hx in H. simpl in H. by apply andb_true_iff in H as [[? _]%andb_true_iff _].
Qed.

Lemma parse_path_dotted s names fuel :
  ident s -> Forall ident names -> (length (dotted s names) <= fuel)%nat ->
  parse_path_go fuel (dotted s names) = Ok (map SegName (s :: names)).
Proof.
  intros Hs Hn. revert s Hs fuel. induction Hn as [|n names Hn Hns IH]; intros s Hs fuel Hf;
    destruct (ident_key_chars s Hs) as (Hk & c & l & E & Hb & Hd);
    unfold dotted in *; rewrite length_app, E in Hf; simpl in Hf;
    (destruct fuel as [|fuel]; [lia|]); rewrite E; cbn -[span is_key_char]; rewrite Hb, Hd.
  - rewrite app_nil_r. rewrite <- E. rewrite <- (app_nil_r (chars s)) at 1.
    rewrite span_eq by done. rewrite unchars_chars.
    by destruct fuel.
  - rewrite app_comm_cons, <- E. rewrite span_eq by done. rewrite unchars_chars.
    destruct fuel as [|fuel]; [lia|]. cbn -[dotted_tail].
    change (flat_map (fun s => "."%char :: chars s) names) with (dotted_tail names).
    rewrite IH; [done|done|]. rewrite !length_app in *. lia.
Qed.

Lemma interpolate_go_match fuel variables l p w after :
  match_var l = Some (p, w, after) ->
  interpolate_go (S fuel) variables l =
  (s ← replace variables p w; r ← interpolate_go fuel variables after; Ok (s ++ r)).
Proof. intros H. destruct l as [|c l]; [done|]. cbn -[match_var]. by rewrite H. Qed.

(** Text without an opening brace before a suffix is copied. *)
Lemma interpolate_go_plain variables pre l fuel :
  Forall (fun c => c <> "{"%char) pre -> (length (pre ++ l) <= fuel)%nat ->
  interpolate_go fuel variables (pre ++ l) =
  (r ← interpolate_go fuel variables l; Ok (pre ++ r)).
Proof.
  intros Hpre. revert fuel. induction Hpre as [|c pre Hc Hpre IH]; intros fuel Hf.
  - simpl. by destruct (interpolate_go fuel variables l).
  - simpl in Hf. destruct fuel as [|fuel]; [lia|].
    rewrite (interpolate_go_mono (S fuel) fuel variables l) by (rewrite length_app in Hf; lia).
    cbn -[match_var]. destruct (match_var (c :: pre ++ l)) as [x|] eqn:E.
    { apply match_var_braces in E as [l' [= -> _]]. done. }
    rewrite IH by lia. by destruct (interpolate_go fuel variables l).
Qed.

(** * Properties *)

(** The two path walks differ only on a miss. *)
Lemma resolve_path_go obj rest : resolve_path obj rest = default VNone (resolve_go obj rest).
Proof.
  revert obj. induction rest as [|s rest IH]; intros obj; [done|]. simpl.
  destruct obj as [| | | | |l|d], s as [k|m]; try done.
  - destruct (list_index l m); [apply IH|done].
  - unfold dict_get_none. destruct (dict_get k d); simpl; [apply IH|].
    clear IH. by destruct rest.
Qed.

(** Templates and expressions read variables alike.  On every path the value an
    expression sees is the value a template renders, and exactly the paths a
    template leaves unresolved are [null] by default in an expression; both
    resolve [trigger] and [ctx] in their reserved scopes. *)
Theorem resolve_var_refines_template segments variables :
  resolve_var segments variables = default VNone (resolve segments variables).
Proof.
  destruct segments as [|[k|n] rest]; [done| |apply resolve_path_go].
  unfold resolve_var, resolve.
  repeat (case_match; try apply resolve_path_go).
Qed.

(** Interpolating any template terminates and raises nothing but [ValueError] (of
    a conversion between integers and text); a template without an opening brace is returned
    as it is. *)
Theorem interpolate_total template variables :
  match interpolate template variables with
  | Ok r => Forall (fun c => c <> "{"%char) (chars template) -> r = template
  | Raise e => e = ValueError
  | NoFuel => False
  end.
Proof.
  unfold interpolate. rewrite <- length_chars.
  pose proof (interpolate_go_fuel (length (chars template)) variables (chars template) (le_n _)) as Hf.
  pose proof (interpolate_go_raises (length (chars template)) variables (chars template)) as Hr.
  destruct (interpolate_go _ _ _) as [r|e|] eqn:E; [|done|done]. simpl. intros Hc.
  rewrite <- (app_nil_r (chars template)) in E. rewrite interpolate_go_plain in E by done.
  rewrite app_nil_r in E. destruct (length (chars template)); simpl in E; injection E as <-;
    by rewrite app_nil_r, unchars_chars.
Qed.

(** A placeholder of dotted names renders the value its path resolves to, written
    by [_format_value], or itself when the path is unresolved; the text before it
    (without braces) is copied and the text after it is interpolated on its own. *)
Theorem interpolate_placeholder pre s names post variables :
  Forall (fun c => c <> "{"%char) (chars pre) -> ident s -> Forall ident names ->
  interpolate (pre +:+ unchars (placeholder s names) +:+ post) variables =
  (v ← match resolve (map SegName (s :: names)) variables with
       | Some v => format_value v
       | None => Ok (unchars (placeholder s names))
       end;
   r ← interpolate post variables;
   Ok (pre +:+ v +:+ r)).
Proof.
  intros Hpre Hs Hn. unfold interpolate. rewrite <- !length_chars.
  rewrite !chars_app, chars_unchars. rewrite interpolate_go_plain by done.
  set (fuel := length (chars pre ++ placeholder s names ++ chars post)).
  assert (Hf : (length (chars post) < fuel)%nat).
  { unfold fuel. rewrite !length_app. simpl. lia. }
  clearbody fuel. destruct fuel as [|fuel]; [lia|].
  assert (Hstep : interpolate_go (S fuel) variables (placeholder s names ++ chars post) =
    (t ← replace variables (dotted s names) (placeholder s names);
     r ← interpolate_go fuel variables (chars post); Ok (t ++ r))).
  { pose proof (match_var_placeholder s names (chars post) Hs Hn) as Hm.
    by apply interpolate_go_match. }
  rewrite Hstep. unfold replace, parse_path.
  rewrite <- length_chars, chars_unchars, parse_path_dotted by done.
  rewrite (interpolate_go_mono fuel (length (chars post))) by lia.
  cbn [mbind res_bind]. generalize (resolve (map SegName (s :: names)) variables).
  clear. intros [v|]; cbn [mbind res_bind].
  - destruct (format_value v); cbn [mbind res_bind]; [|done|done].
    destruct (interpolate_go _ _ _); cbn [mbind res_bind]; [|done|done].
    by rewrite !unchars_app, !unchars_chars.
  - destruct (interpolate_go _ _ _); cbn [mbind res_bind]; [|done|done].
    by rewrite !unchars_app, !unchars_chars.
Qed.

Lemma interpolate_placeholder_witness :
  interpolate ("Dear " +:+ unchars (placeholder "user" ["name"%string]) +:+ ", {{x}}")
    [("user"%string, VDict [("name"%string, VStr "Ann")])] = Ok "Dear Ann, {{x}}"%string.
Proof.
  rewrite (interpolate_placeholder "Dear " "user" ["name"%string] ", {{x}}").
  - vm_compute. reflexivity.
  - repeat (apply List.Forall_cons; [discriminate|]). apply List.Forall_nil.
  - split; [reflexivity|]. repeat (apply List.Forall_cons; [reflexivity|]). apply List.Forall_nil.
  - apply List.Forall_cons; [split; [reflexivity|]|apply List.Forall_nil].
    repeat (apply List.Forall_cons; [reflexivity|]). apply List.Forall_nil.
Defined.
