(* ===== verification/WorkflowModels.v ===== *)
(** * Workflow domain models

    [contexts/workflow/domain/models.py] and [domain/claim_ttl.py]: the enumerations,
    the parsed views of a definition, the outcome of a node executor, the context of
    a run and the lint result.  Identifiers are the strings the database prints,
    timestamps seconds.

    A definition is the document after the JSON schema [docs/workflow.schema.json] has
    accepted it: [WorkflowService] runs the schema before the linter and the engine
    only reads stored definitions.  The keys the schema requires are fields, the
    optional ones options, and a node's [config] stays the dictionary it is. *)

From S2P Require Import Prelude PyFloat PyValue.
(** ** Enumerations *)

Inductive NodeType : Set :=
  TRIGGER | AGENT_INVOCATION | APPROVAL_GATE | CONDITION | INSTRUCT | SUBAGENT_SPAWN
| WAIT_FOR_EVENT | PARALLEL | JOIN | SET_VARIABLE | END.

Inductive TriggerType : Set :=
  TT_MANUAL | TT_CRON | TT_MESSAGE_RECEIVED | TT_A2A_EVENT | TT_WAKEUP_SIGNAL
| TT_ACTIVITY_EVENT | TT_DRY_RUN.

Inductive RunState : Set := RUNNING | WAITING | SUCCEEDED | FAILED | CANCELLED.

Inductive StepState : Set :=
  S_PENDING | S_RUNNING | S_SUCCEEDED | S_FAILED | S_SKIPPED | S_CANCELLED.

Inductive OnErrorStrategy : Set := FAIL | CONTINUE | RETRY | FALLBACK.

Inductive JoinMode : Set := ALL | ANY | COUNT.

#[export] Instance NodeType_eq_dec : EqDecision NodeType.
Proof. solve_decision. Defined.
#[export] Instance TriggerType_eq_dec : EqDecision TriggerType.
Proof. solve_decision. Defined.
#[export] Instance RunState_eq_dec : EqDecision RunState.
Proof. solve_decision. Defined.
#[export] Instance StepState_eq_dec : EqDecision StepState.
Proof. solve_decision. Defined.
#[export] Instance OnErrorStrategy_eq_dec : EqDecision OnErrorStrategy.
Proof. solve_decision. Defined.
#[export] Instance JoinMode_eq_dec : EqDecision JoinMode.
Proof. solve_decision. Defined.

(** The [.value] of the members. *)
Definition NodeType_value (t : NodeType) : string :=
  match t with
  | TRIGGER => "trigger" | AGENT_INVOCATION => "agent_invocation"
  | APPROVAL_GATE => "approval_gate" | CONDITION => "condition" | INSTRUCT => "instruct"
  | SUBAGENT_SPAWN => "subagent_spawn" | WAIT_FOR_EVENT => "wait_for_event"
  | PARALLEL => "parallel" | JOIN => "join" | SET_VARIABLE => "set_variable" | END => "end"
  end.

Definition RunState_value (s : RunState) : string :=
  match s with
  | RUNNING => "running" | WAITING => "waiting" | SUCCEEDED => "succeeded"
  | FAILED => "failed" | CANCELLED => "cancelled"
  end.

Definition is_terminal (s : RunState) : bool :=
  match s with SUCCEEDED | FAILED | CANCELLED => true | RUNNING | WAITING => false end.

Definition OnErrorStrategy_of (s : string) : OnErrorStrategy :=
  if String.eqb s "continue" then CONTINUE
  else if String.eqb s "retry" then RETRY
  else if String.eqb s "fallback" then FALLBACK
  else FAIL.

Definition JoinMode_of (s : string) : JoinMode :=
  if String.eqb s "any" then ANY else if String.eqb s "count" then COUNT else ALL.

(** ** Definitions *)

Record node := mkNode {
  n_id : string;
  n_type : NodeType;
  n_config : pydict;
}.

Record edge := mkEdge {
  e_id : string;
  e_from : string;
  e_to : string;
  e_port : option string;  (** the key [from_port] *)
  e_guard : option string;
}.

(** [e.get("from_port", "default")] *)
Definition from_port (e : edge) : string := default "default"%string (e_port e).

Record definition := mkDef {
  d_entry : string;
  d_nodes : list node;
  d_edges : list edge;
  d_variables : list (string * pydict);  (** name, its declaration *)
  d_run_max : option Z;
  d_idle_max : option Z;
  d_max_visits : option Z;
}.

(** Reads of a configuration whose type the schema fixes: the value, or the default
    given to [config.get]. *)
Definition cfg_str (k d : string) (c : pydict) : string :=
  match dict_get k c with Some (VStr s) => s | _ => d end.
Definition cfg_int (k : string) (d : Z) (c : pydict) : Z :=
  match dict_get k c with Some (VInt n) => n | _ => d end.
Definition cfg_list (k : string) (c : pydict) : list pyval :=
  match dict_get k c with Some (VList l) => l | _ => [] end.
Definition cfg_dict (k : string) (c : pydict) : pydict :=
  match dict_get k c with Some (VDict d) => d | _ => [] end.

(** The strings, or the dictionaries, of a list of the document. *)
Definition str_items (l : list pyval) : list string :=
  omap (fun v => match v with VStr s => Some s | _ => None end) l.
Definition dict_items (l : list pyval) : list pydict :=
  omap (fun v => match v with VDict d => Some d | _ => None end) l.

(** ** Value objects *)

Record OnErrorConfig := mkOnError {
  oe_strategy : OnErrorStrategy;
  oe_retry_max : Z;
  oe_retry_backoff_ms : Z;
  oe_fallback_node_id : option string;
}.

Record NodeSpec := mkNodeSpec {
  ns_id : string;
  ns_type : NodeType;
  ns_config : pydict;
  ns_on_error : OnErrorConfig;
}.

Record EdgeSpec := mkEdgeSpec {
  es_id : string;
  es_from : string;
  es_to : string;
  es_port : string;
  es_guard : option string;
}.

Record StepOutcome := mkOutcome {
  o_state : StepState;
  o_output : pydict;
  o_port : string;
  o_error : option string;
  o_park : bool;
  o_skip_edges : bool;
  o_timeout_ms : Z;
  o_timeout_task : string;
}.

(** [StepOutcome(state=..., output=..., port=...)] with the other fields' defaults. *)
Definition outcome (s : StepState) (output : pydict) (port : string) : StepOutcome :=
  mkOutcome s output port None false false 0 "".

Record RunContext := mkCtx {
  c_run_id : string;
  c_workflow_id : string;
  c_def : definition;
  c_variables : pydict;
  c_project_id : option string;
  c_trigger_payload : pydict;
  c_visits : gmap string Z;
  c_cancelled : bool;
  c_dry_run : bool;
  c_arrived_via : option string;
}.

Definition run_max_seconds (d : definition) : Z := default 3600 (d_run_max d).
Definition idle_max_seconds (d : definition) : Z := default 1800 (d_idle_max d).
(** [max(1, min(int(raw), 1000))] *)
Definition max_visits_per_node (d : definition) : Z :=
  Z.max 1 (Z.min (default 200 (d_max_visits d)) 1000).

(** ** Lint result; the message texts are not modelled *)

Inductive level : Set := error | warning.

Record LintIssue := mkIssue {
  i_rule : nat;
  i_level : level;
  i_node_id : option string;
  i_edge_id : option string;
}.

Record ValidationResult := mkResult {
  valid : bool;
  errors : list LintIssue;
  warnings : list LintIssue;
}.

(** ** Resume claims: [domain/claim_ttl.py] *)

Definition CLAIM_RESUME_DELAY_S : Z := 3.
Definition CLAIM_RESUME_MAX_ATTEMPTS : Z := 210.
Definition CLAIM_CONSUMER_BUDGET_S : Z := CLAIM_RESUME_MAX_ATTEMPTS * CLAIM_RESUME_DELAY_S.
Definition GATE_CLAIM_GRACE_S : Z := 300.
Definition WAIT_CLAIM_GRACE_S : Z := 60.

Definition initial_claim_ttl (timeout_seconds grace_s : Z) : Z := timeout_seconds + grace_s.
Definition remaining_budget_ttl (max_attempts delay_s attempt : Z) : Z :=
  Z.max 0 (max_attempts - attempt + 1) * delay_s.

(** The retries still to come at [attempt], [delay_s] apart, as times from now. *)
Definition retry_times (max_attempts delay_s attempt : Z) : list Z :=
  map (fun k => Z.of_nat k * delay_s) (seq 1 (Z.to_nat (max_attempts - attempt))).

(** * Facts *)

(** The loop guard's clamp: whatever the document says, between 1 and 1000 visits;
    the document's own number when it lies in that range. *)
Lemma max_visits_clamped d :
  1 <= max_visits_per_node d <= 1000 /\
  (forall n, d_max_visits d = Some n -> 1 <= n <= 1000 -> max_visits_per_node d = n).
Proof.
  unfold max_visits_per_node. split; [lia|]. intros n -> Hn. simpl. lia.
Qed.

(** A claim restored at any attempt of a consumer outlives every retry the
    consumer still has to make, with a whole delay to spare; the budget shrinks by
    one delay from each attempt to the next, and at the first retry it is the whole
    budget [CLAIM_CONSUMER_BUDGET_S]. *)
Lemma claim_outlives_retries max_attempts delay_s attempt t :
  0 < delay_s -> 1 <= attempt <= max_attempts ->
  (In t (retry_times max_attempts delay_s attempt) ->
     t + delay_s <= remaining_budget_ttl max_attempts delay_s attempt) /\
  remaining_budget_ttl max_attempts delay_s (attempt + 1) + delay_s
    = remaining_budget_ttl max_attempts delay_s attempt /\
  remaining_budget_ttl CLAIM_RESUME_MAX_ATTEMPTS CLAIM_RESUME_DELAY_S 1 = CLAIM_CONSUMER_BUDGET_S.
Proof.
  intros Hd Ha. unfold remaining_budget_ttl. split; [|split; [|done]].
  - intros (k & <- & Hk)%in_map_iff. apply in_seq in Hk. rewrite Z.max_r by lia.
    assert (Z.of_nat k + 1 <= max_attempts - attempt + 1) by lia. nia.
  - rewrite !Z.max_r by lia. lia.
Qed.
