(* ===== verification/Graph.v ===== *)
(** * Directed graphs

    The graph walks of the workflow context, on a list of arrows [(from, to)]: the
    stack walk of the linter's rules 4 and 5 ([dfs]), the walk that classifies the
    edges into a join ([worklist]), the backward sweep of rule 5 ([sweeps]) and the
    colouring search of rule 10 ([color_dfs]).  Each is proved to terminate with the
    fuel its callers give and to compute the relation it stands for. *)

From stdpp Require Import relations.
From S2P Require Import Prelude.
Definition arrows := list (string * string).

(** [adjacency.get(x, [])], in the order of the arrows. *)
Definition succs (es : arrows) (x : string) : list string :=
  map snd (List.filter (fun e => String.eqb (fst e) x) es).

Definition arrow (es : arrows) (x y : string) : Prop := In (x, y) es.
Definition reach (es : arrows) : string -> string -> Prop := rtc (arrow es).
Definition reach1 (es : arrows) : string -> string -> Prop := tc (arrow es).

Lemma succs_spec es x y : In y (succs es x) <-> arrow es x y.
Proof.
  unfold succs, arrow. rewrite in_map_iff. split.
  - intros ([a b] & <- & [H Hx]%filter_In). simpl in *. apply String.eqb_eq in Hx. by subst.
  - intros H. exists (x, y). split; [done|]. apply filter_In. split; [done|]. apply String.eqb_refl.
Qed.

Lemma succs_length es x :
  length (succs es x) = length (List.filter (fun e => String.eqb (fst e) x) es).
Proof. apply length_map. Qed.

(** ** The stack walk *)

Fixpoint dfs (fuel : nat) (es : arrows) (stack : list string) (seen : gset string)
    : option (gset string) :=
  match stack with
  | [] => Some seen
  | x :: stack =>
      match fuel with
      | O => None
      | S fuel =>
          if decide (x ∈ seen) then dfs fuel es stack seen
          else dfs fuel es (rev (succs es x) ++ stack) ({[x]} ∪ seen)
      end
  end.

Definition dfs_fuel (es : arrows) : nat := S (length es).

(** The arrows out of nodes not seen yet. *)
Definition unseen (es : arrows) (seen : gset string) : arrows :=
  List.filter (fun e => negb (bool_decide (fst e ∈ seen))) es.

Lemma unseen_visit es seen x :
  x ∉ seen ->
  (length (unseen es ({[x]} ∪ seen)) + length (succs es x) = length (unseen es seen))%nat.
Proof.
  intros Hx. rewrite succs_length. unfold unseen. induction es as [|[a b] es IH]; [done|]. simpl.
  destruct (String.eqb_spec a x) as [->|Ha].
  - rewrite (bool_decide_true (x ∈ {[x]} ∪ seen)) by set_solver.
    rewrite (bool_decide_false (x ∈ seen)) by done. simpl. lia.
  - destruct (decide (a ∈ seen)).
    + rewrite (bool_decide_true (a ∈ {[x]} ∪ seen)) by set_solver.
      rewrite (bool_decide_true (a ∈ seen)) by done. simpl. lia.
    + rewrite (bool_decide_false (a ∈ {[x]} ∪ seen)) by set_solver.
      rewrite (bool_decide_false (a ∈ seen)) by done. simpl. lia.
Qed.

Lemma dfs_total fuel es stack seen :
  (length stack + length (unseen es seen) <= fuel)%nat -> is_Some (dfs fuel es stack seen).
Proof.
  revert stack seen. induction fuel as [|fuel IH]; intros [|x stack] seen H; simpl in *;
    try lia; eauto.
  case_decide as Hx; apply IH; [lia|].
  rewrite length_app, length_rev. pose proof (unseen_visit es seen x Hx). lia.
Qed.

(** A set closed under arrows, up to a boundary still to visit. *)
Definition closed_upto (es : arrows) (seen : gset string) (boundary : list string) : Prop :=
  forall x y, x ∈ seen -> arrow es x y -> y ∈ seen \/ In y boundary.

Lemma closed_reach es seen x y : closed_upto es seen [] -> x ∈ seen -> reach es x y -> y ∈ seen.
Proof.
  intros Hc Hx H. induction H as [|x z y Hxz _ IH]; [done|].
  apply IH. by destruct (Hc x z Hx Hxz).
Qed.

Lemma dfs_spec root fuel es stack seen r :
  dfs fuel es stack seen = Some r ->
  (forall x, x ∈ seen \/ In x stack -> reach es root x) ->
  root ∈ seen \/ In root stack ->
  closed_upto es seen stack ->
  forall y, y ∈ r <-> reach es root y.
Proof.
  revert stack seen. induction fuel as [|fuel IH]; intros [|x stack] seen Hr Hs Hroot Hc;
    simpl in Hr; try discriminate.
  1,2: injection Hr as <-; intros y; split; [naive_solver|];
    intros Hy; apply (closed_reach es seen root y); [exact Hc| |exact Hy];
    by destruct Hroot.
  case_decide as Hx.
  - apply (IH _ _ Hr); [intros z Hz; apply Hs; simpl; tauto| |].
    + destruct Hroot as [?|[<-|?]]; auto.
    + intros a b Ha Hab. destruct (Hc a b Ha Hab) as [?|[<-|?]]; auto.
  - apply (IH _ _ Hr).
    + intros z Hz. rewrite elem_of_union, elem_of_singleton, in_app_iff, <- in_rev, succs_spec in Hz.
      destruct Hz as [[-> | Hz]|[Hz|Hz]]; try (apply Hs; simpl; tauto).
      apply (rtc_r root x z); [apply Hs; right; by left|done].
    + rewrite elem_of_union, elem_of_singleton, in_app_iff. simpl in Hroot. naive_solver.
    + intros a b Ha Hab.
      rewrite elem_of_union, elem_of_singleton, in_app_iff, <- in_rev, succs_spec.
      apply elem_of_union in Ha as [->%elem_of_singleton|Ha]; [auto|].
      destruct (Hc a b Ha Hab) as [?|[<-|?]]; auto.
Qed.

(** The nodes reachable from [root]. *)
Definition reachable_from (es : arrows) (root : string) : option (gset string) :=
  dfs (dfs_fuel es) es [root] ∅.

Lemma length_filter_le {A} (p : A -> bool) l : (length (List.filter p l) <= length l)%nat.
Proof. induction l as [|x l IH]; simpl; [done|]. destruct (p x); simpl; lia. Qed.

Lemma reachable_from_spec es root :
  exists r, reachable_from es root = Some r /\ forall y, y ∈ r <-> reach es root y.
Proof.
  unfold reachable_from, dfs_fuel.
  destruct (dfs_total (S (length es)) es [root] ∅) as [r Hr].
  { assert (length (unseen es ∅) <= length es)%nat by apply length_filter_le.
    change (length [root]) with 1%nat. lia. }
  exists r. split; [done|]. eapply dfs_spec; [exact Hr| | |].
  - intros x [Hx|[<-|[]]]; [set_solver|apply rtc_refl].
  - by right; left.
  - intros x y Hx. set_solver.
Qed.

(** ** The walk of the join executor: what [root] reaches by at least one arrow *)

Fixpoint visit_all (ys : list string) (stack : list string) (seen : gset string)
    : list string * gset string :=
  match ys with
  | [] => (stack, seen)
  | y :: ys =>
      if decide (y ∈ seen) then visit_all ys stack seen
      else visit_all ys (y :: stack) ({[y]} ∪ seen)
  end.

Fixpoint worklist (fuel : nat) (es : arrows) (stack : list string) (seen : gset string)
    : option (gset string) :=
  match stack with
  | [] => Some seen
  | x :: stack =>
      match fuel with
      | O => None
      | S fuel => let '(stack, seen) := visit_all (succs es x) stack seen in
                  worklist fuel es stack seen
      end
  end.

(** The arrows into nodes not seen yet. *)
Definition unmet (es : arrows) (seen : gset string) : arrows :=
  List.filter (fun e => negb (bool_decide (snd e ∈ seen))) es.

Lemma unmet_mono es seen y :
  (length (unmet es ({[y]} ∪ seen)) <= length (unmet es seen))%nat /\
  (y ∉ seen -> In y (map snd es) ->
   S (length (unmet es ({[y]} ∪ seen))) <= length (unmet es seen))%nat.
Proof.
  unfold unmet. induction es as [|[a b] es [IH1 IH2]]; simpl; [split; [done|]; intros _ []|].
  destruct (decide (b ∈ seen)) as [Hb|Hb].
  - rewrite (bool_decide_true (b ∈ {[y]} ∪ seen)) by set_solver.
    rewrite (bool_decide_true (b ∈ seen)) by done. simpl. split; [done|].
    intros Hy [-> |Hin]; [done|]. by apply IH2.
  - rewrite (bool_decide_false (b ∈ seen)) by done. simpl.
    destruct (decide (b = y)) as [->|Hne].
    + rewrite (bool_decide_true (y ∈ {[y]} ∪ seen)) by set_solver. simpl. split; intros; lia.
    + rewrite (bool_decide_false (b ∈ {[y]} ∪ seen)) by set_solver. simpl. split; [lia|].
      intros Hy [?|Hin]; [done|]. specialize (IH2 Hy Hin). lia.
Qed.

Lemma visit_all_spec es ys stack seen :
  (forall y, In y ys -> In y (map snd es)) ->
  let '(stack', seen') := visit_all ys stack seen in
  (length stack' + length (unmet es seen') <= length stack + length (unmet es seen))%nat /\
  (forall x, x ∈ seen' <-> x ∈ seen \/ In x ys) /\
  (forall x, In x stack' <-> In x stack \/ (x ∈ seen' /\ x ∉ seen)).
Proof.
  revert stack seen. induction ys as [|y ys IH]; intros stack seen Hys; simpl.
  { split; [lia|]. split; intros; simpl; tauto. }
  case_decide as Hy.
  - specialize (IH stack seen ltac:(intros; apply Hys; by right)).
    destruct (visit_all ys stack seen) as [stack' seen'].
    destruct IH as (H1 & H2 & H3). split; [done|]. split; [|done].
    intros x. rewrite H2. naive_solver.
  - specialize (IH (y :: stack) ({[y]} ∪ seen) ltac:(intros; apply Hys; by right)).
    destruct (visit_all ys (y :: stack) ({[y]} ∪ seen)) as [stack' seen']. destruct IH as (H1 & H2 & H3).
    destruct (unmet_mono es seen y) as [_ Hm]. specialize (Hm Hy (Hys y ltac:(by left))).
    simpl in H1. split; [lia|]. split.
    + intros x. rewrite H2, elem_of_union, elem_of_singleton. naive_solver.
    + intros x. rewrite H3, not_elem_of_union, not_elem_of_singleton. simpl.
      specialize (H2 x). rewrite elem_of_union, elem_of_singleton in H2.
      destruct (decide (x = y)) as [->|]; [|naive_solver]. intuition.
Qed.

Lemma succs_targets es x y : In y (succs es x) -> In y (map snd es).
Proof. rewrite succs_spec. intros H. apply in_map_iff. by exists (x, y). Qed.

Lemma worklist_total fuel es stack seen :
  (length stack + length (unmet es seen) <= fuel)%nat -> is_Some (worklist fuel es stack seen).
Proof.
  revert stack seen. induction fuel as [|fuel IH]; intros [|x stack] seen H; simpl in *;
    try lia; eauto.
  pose proof (visit_all_spec es (succs es x) stack seen (succs_targets es x)) as Hv.
  destruct (visit_all _ _ _) as [stack' seen']. apply IH. lia.
Qed.

Lemma closed_reach1 es root (seen : gset string) y :
  (forall a b, a = root \/ a ∈ seen -> arrow es a b -> b ∈ seen) -> reach1 es root y -> y ∈ seen.
Proof.
  intros Hc H. assert (Hroot : root = root \/ root ∈ seen) by (by left).
  revert H Hroot. generalize root at 1 2 4. intros a H.
  induction H as [a b Hab|a b c Hab _ IH]; intros Ha; [by eapply Hc|]. apply IH. right. by eapply Hc.
Qed.

Lemma worklist_spec root fuel es stack seen r :
  worklist fuel es stack seen = Some r ->
  (forall x, x ∈ seen -> reach1 es root x) ->
  (forall x, In x stack -> x = root \/ x ∈ seen) ->
  (forall x y, x = root \/ x ∈ seen -> arrow es x y -> y ∈ seen \/ In x stack) ->
  forall y, y ∈ r <-> reach1 es root y.
Proof.
  revert stack seen. induction fuel as [|fuel IH]; intros [|x stack] seen Hr Hs Hst Hc;
    simpl in Hr; try discriminate.
  1,2: injection Hr as <-; intros y; split; [apply Hs|]; intros Hy; apply (closed_reach1 es root seen);
    [|done]; intros a b Ha Hab; by destruct (Hc a b Ha Hab) as [|[]].
  pose proof (visit_all_spec es (succs es x) stack seen (succs_targets es x)) as Hv.
  destruct (visit_all _ _ _) as [stack' seen']. destruct Hv as (_ & Hseen & Hstack).
  assert (Hroot : x = root \/ x ∈ seen) by (apply Hst; by left).
  apply (IH _ _ Hr).
  - intros z [Hz|Hz%succs_spec]%Hseen; [by apply Hs|].
    destruct Hroot as [->|Hx]; [by constructor|]. eapply tc_r; [by apply Hs|done].
  - intros z [Hz|[Hz _]]%Hstack; [|by right].
    destruct (Hst z ltac:(by right)) as [->|]; [by left|right; apply Hseen; by left].
  - intros a b Ha Hab.
    destruct (decide (a = root \/ a ∈ seen)) as [Ha'|Ha'].
    + destruct (Hc a b Ha' Hab) as [Hb|[->|Hb]].
      * left. apply Hseen. by left.
      * left. apply Hseen. right. by apply succs_spec.
      * right. apply Hstack. by left.
    + right. apply Hstack. right. destruct Ha as [->|Ha]; [tauto|]. split; [done|tauto].
Qed.

Definition reachable1_from (es : arrows) (root : string) : option (gset string) :=
  worklist (dfs_fuel es) es [root] ∅.

Lemma reachable1_from_spec es root :
  exists r, reachable1_from es root = Some r /\ forall y, y ∈ r <-> reach1 es root y.
Proof.
  unfold reachable1_from, dfs_fuel.
  destruct (worklist_total (S (length es)) es [root] ∅) as [r Hr].
  { assert (length (unmet es ∅) <= length es)%nat by apply length_filter_le.
    change (length [root]) with 1%nat. lia. }
  exists r. split; [done|]. eapply worklist_spec; [exact Hr|..].
  - intros x Hx. set_solver.
  - intros x [<-|[]]. by left.
  - intros x y [->|Hx]; [|set_solver]. intros _. right. by left.
Qed.

(** ** The backward sweep of rule 5

    [for nid in nodes: if nid in can_reach_end: continue; for e in outgoing: ...] and
    the [while changed] around it. *)

Fixpoint sweep (es : arrows) (ns : list string) (can : gset string) (changed : bool)
    : gset string * bool :=
  match ns with
  | [] => (can, changed)
  | n :: ns =>
      if decide (n ∈ can) then sweep es ns can changed
      else if existsb (fun y => bool_decide (y ∈ can)) (succs es n)
           then sweep es ns ({[n]} ∪ can) true
           else sweep es ns can changed
  end.

Fixpoint sweeps (fuel : nat) (es : arrows) (ns : list string) (can : gset string)
    : option (gset string) :=
  match fuel with
  | O => None
  | S fuel => let '(can, changed) := sweep es ns can false in
              if changed then sweeps fuel es ns can else Some can
  end.

(** An arrow out of one of the nodes [ns]. *)
Definition arrow_in (ns : list string) (es : arrows) (x y : string) : Prop :=
  In x ns /\ arrow es x y.
Definition reaches_set (ns : list string) (es : arrows) (ends : gset string) (x : string) : Prop :=
  exists e, e ∈ ends /\ rtc (arrow_in ns es) x e.

(** The nodes of [ns] still outside [can]. *)
Definition outside (ns : list string) (can : gset string) : list string :=
  List.filter (fun n => negb (bool_decide (n ∈ can))) ns.

Lemma outside_mono ns (can can' : gset string) :
  can ⊆ can' -> (length (outside ns can') <= length (outside ns can))%nat /\
  forall n, In n ns -> n ∉ can -> n ∈ can' -> (length (outside ns can') < length (outside ns can))%nat.
Proof.
  intros Hsub. unfold outside. induction ns as [|m ns [IH1 IH2]]; simpl; [split; [done|]; intros ? []|].
  destruct (decide (m ∈ can)) as [Hm|Hm].
  - rewrite !bool_decide_true by set_solver. simpl. split; [done|].
    intros n [<-|Hn] Hn1 Hn2; [done|]. eauto.
  - rewrite (bool_decide_false (m ∈ can)) by done. destruct (decide (m ∈ can')) as [Hm'|Hm'].
    + rewrite bool_decide_true by done. simpl. split; intros; lia.
    + rewrite bool_decide_false by done. simpl. split; [lia|].
      intros n [<-|Hn] Hn1 Hn2; [done|]. specialize (IH2 n Hn Hn1 Hn2). lia.
Qed.

Lemma sweep_spec es ns0 ends ns can changed :
  (forall n, In n ns -> In n ns0) ->
  (forall x, x ∈ can -> reaches_set ns0 es ends x) ->
  let '(can', changed') := sweep es ns can changed in
  can ⊆ can' /\ (forall x, x ∈ can' -> reaches_set ns0 es ends x) /\
  (changed' = false -> changed = false /\ can' = can /\
     forall n y, In n ns -> arrow es n y -> y ∈ can -> n ∈ can) /\
  (changed' = true -> changed = false ->
     exists n, In n ns /\ n ∉ can /\ n ∈ can').
Proof.
  revert can changed. induction ns as [|n ns IH]; intros can changed Hns Hcan; simpl.
  { split; [done|]. split; [done|]. split; [intros ->; split; [done|]; split; [done|]; intros ?? []|].
    by intros -> [=]. }
  assert (Hns' : forall m, In m ns -> In m ns0) by (intros; apply Hns; by right).
  case_decide as Hn; [|destruct (existsb _ _) eqn:E].
  - specialize (IH can changed Hns' Hcan). destruct (sweep es ns can changed) as [can' changed'].
    destruct IH as (H1 & H2 & H3 & H4). split; [done|]. split; [done|]. split.
    + intros H. destruct (H3 H) as (? & ? & H5). split; [done|]. split; [done|].
      intros m y [<-|Hm]; [done|]. by apply H5.
    + intros Ht Hf. destruct (H4 Ht Hf) as (m & ? & ? & ?). exists m. simpl. auto.
  - apply existsb_exists in E as (y & Hy%succs_spec & Hyc%bool_decide_eq_true).
    specialize (IH ({[n]} ∪ can) true Hns').
    destruct (sweep es ns ({[n]} ∪ can) true) as [can' changed'].
    destruct IH as (H1 & H2 & H3 & H4).
    { intros x [->%elem_of_singleton|Hx]%elem_of_union; [|by apply Hcan].
      destruct (Hcan y Hyc) as (e & He & Hr). exists e. split; [done|].
      apply (rtc_l _ n y); [|done]. split; [apply Hns; by left|done]. }
    split; [set_solver|]. split; [done|]. split.
    + intros H. by destruct (H3 H) as [[=] _].
    + intros _ _. exists n. split; [by left|]. split; [done|set_solver].
  - specialize (IH can changed Hns' Hcan). destruct (sweep es ns can changed) as [can' changed'].
    destruct IH as (H1 & H2 & H3 & H4). split; [done|]. split; [done|]. split.
    + intros H. destruct (H3 H) as (? & ? & H5). split; [done|]. split; [done|].
      intros m y [<-|Hm] Hmy Hy; [|by eapply H5].
      exfalso. rewrite <- not_true_iff_false in E. apply E. apply existsb_exists.
      exists y. split; [by apply succs_spec|by apply bool_decide_eq_true].
    + intros Ht Hf. destruct (H4 Ht Hf) as (m & ? & ? & ?). exists m. simpl. auto.
Qed.

Lemma sweeps_spec fuel es ns ends can :
  (length (outside ns can) < fuel)%nat -> ends ⊆ can ->
  (forall x, x ∈ can -> reaches_set ns es ends x) ->
  exists r, sweeps fuel es ns can = Some r /\ forall x, x ∈ r <-> reaches_set ns es ends x.
Proof.
  revert can. induction fuel as [|fuel IH]; intros can Hf Hends Hcan; [lia|]. simpl.
  pose proof (sweep_spec es ns ends ns can false (fun n H => H) Hcan) as Hs.
  destruct (sweep es ns can false) as [can' [|]]; destruct Hs as (Hsub & Hcan' & Hno & Hyes).
  - destruct (Hyes eq_refl eq_refl) as (n & Hn & Hn1 & Hn2). apply IH; [|set_solver|done].
    destruct (outside_mono ns can can' Hsub) as [_ Ho]. specialize (Ho n Hn Hn1 Hn2). lia.
  - destruct (Hno eq_refl) as (_ & -> & Hclosed). exists can. split; [done|].
    intros x. split; [apply Hcan|]. intros (e & He & Hr).
    induction Hr as [x|x y z [Hx Hxy] _ IHr]; [by apply Hends|].
    eapply Hclosed; [done..|]. by apply IHr.
Qed.

Definition can_reach (es : arrows) (ns : list string) (ends : gset string) : option (gset string) :=
  sweeps (S (length ns)) es ns ends.

Lemma can_reach_spec es ns ends :
  exists r, can_reach es ns ends = Some r /\ forall x, x ∈ r <-> reaches_set ns es ends x.
Proof.
  apply sweeps_spec; [|done|].
  - unfold outside. pose proof (length_filter_le (fun n => negb (bool_decide (n ∈ ends))) ns). lia.
  - intros x Hx. exists x. split; [done|apply rtc_refl].
Qed.

(** ** The colouring search of rule 10 *)

Inductive color : Set := WHITE | GRAY | BLACK.
#[export] Instance color_eq_dec : EqDecision color.
Proof. solve_decision. Defined.

(** [color.get(x, WHITE)] *)
Definition color_of (c : gmap string color) (x : string) : color := default WHITE (c !! x).

Section color_dfs.
Context (es : arrows).

(** The loop over the neighbours; [rec] is the recursive call. *)
Fixpoint color_loop (rec : gmap string color -> string -> option (bool * gmap string color))
    (ys : list string) (c : gmap string color) : option (bool * gmap string color) :=
  match ys with
  | [] => Some (false, c)
  | y :: ys =>
      match color_of c y with
      | GRAY => Some (true, c)
      | WHITE => '(found, c) ← rec c y;
                 if (found : bool) then Some (true, c) else color_loop rec ys c
      | BLACK => color_loop rec ys c
      end
  end.

Fixpoint color_dfs (fuel : nat) (c : gmap string color) (x : string)
    : option (bool * gmap string color) :=
  match fuel with
  | O => None
  | S fuel =>
      '(found, c) ← color_loop (color_dfs fuel) (succs es x) (<[x := GRAY]> c);
      if (found : bool) then Some (true, c) else Some (false, <[x := BLACK]> c)
  end.

(** The start nodes in turn, up to the first cycle. *)
Fixpoint color_starts (fuel : nat) (starts : list string) (c : gmap string color) : option bool :=
  match starts with
  | [] => Some false
  | x :: starts =>
      match color_of c x with
      | WHITE => '(found, c) ← color_dfs fuel c x;
                 if (found : bool) then Some true else color_starts fuel starts c
      | _ => color_starts fuel starts c
      end
  end.

(** The keys of [color]: the issuers, then the targets. *)
Definition graph_nodes : list string := map fst es ++ map snd es.

Definition has_cycle : option bool := color_starts (length graph_nodes) graph_nodes ∅.

(** *** Its invariant *)

Record safe (c : gmap string color) : Prop := {
  safe_closed x y : color_of c x = BLACK -> arrow es x y -> color_of c y = BLACK;
  safe_acyclic x : color_of c x = BLACK -> ~ reach1 es x x;
}.

(** What a search that finds no cycle leaves behind. *)
Record grows (c c' : gmap string color) : Prop := {
  grows_gray x : color_of c' x = GRAY <-> color_of c x = GRAY;
  grows_black x : color_of c x = BLACK -> color_of c' x = BLACK;
}.

Lemma grows_refl c : grows c c.
Proof. by split. Qed.
Lemma grows_trans c1 c2 c3 : grows c1 c2 -> grows c2 c3 -> grows c1 c3.
Proof. intros [H1 H2] [H3 H4]. split; intros x; [by rewrite H3|auto]. Qed.

Lemma color_of_insert c x k y : color_of (<[x := k]> c) y = if decide (x = y) then k else color_of c y.
Proof.
  unfold color_of. case_decide as H; [subst; by rewrite lookup_insert_eq|by rewrite lookup_insert_ne].
Qed.

Definition whites (c : gmap string color) : nat :=
  length (List.filter (fun x => bool_decide (color_of c x = WHITE)) graph_nodes).

Lemma whites_mono c c' :
  (forall x, color_of c' x = WHITE -> color_of c x = WHITE) -> (whites c' <= whites c)%nat.
Proof.
  intros H. unfold whites. induction graph_nodes as [|x l IH]; simpl; [done|].
  case_bool_decide as H1; case_bool_decide as H2; simpl; try lia. naive_solver.
Qed.

Lemma whites_gray c x :
  In x graph_nodes -> color_of c x = WHITE -> (whites (<[x := GRAY]> c) < whites c)%nat.
Proof.
  intros Hx Hw. unfold whites. induction graph_nodes as [|y l IH]; simpl; [done|].
  destruct (decide (x = y)) as [->|Hne].
  - rewrite bool_decide_false by (rewrite color_of_insert, decide_True by done; discriminate).
    rewrite bool_decide_true by done. simpl. apply Nat.lt_succ_r.
    clear. induction l as [|z l IH]; simpl; [done|].
    rewrite color_of_insert. repeat case_bool_decide; repeat case_decide; simpl; try done; lia.
  - destruct Hx as [->|Hx]; [done|]. specialize (IH Hx). rewrite color_of_insert, decide_False by done.
    case_bool_decide; simpl; lia.
Qed.

Lemma grows_whites c c' : grows c c' -> (whites c' <= whites c)%nat.
Proof.
  intros [H1 H2]. apply whites_mono. intros x Hx. destruct (color_of c x) eqn:E; [done| |].
  - apply H1 in E. congruence.
  - apply H2 in E. congruence.
Qed.

Definition dfs_ok (c : gmap string color) (x : string) (r : option (bool * gmap string color)) : Prop :=
  match r with
  | None => False
  | Some (true, _) => exists z, reach1 es z z
  | Some (false, c') => safe c' /\ grows c c' /\ color_of c' x = BLACK
  end.

Lemma color_loop_spec rec x ys c n :
  (forall y, In y ys -> arrow es x y) ->
  (forall c y, In y ys -> color_of c y = WHITE -> (whites c <= n)%nat -> safe c ->
     (forall z, color_of c z = GRAY -> reach es z y) -> dfs_ok c y (rec c y)) ->
  color_of c x = GRAY -> (whites c <= n)%nat -> safe c ->
  (forall z, color_of c z = GRAY -> reach es z x) ->
  match color_loop rec ys c with
  | None => False
  | Some (true, _) => exists z, reach1 es z z
  | Some (false, c') => safe c' /\ grows c c' /\ forall y, In y ys -> color_of c' y = BLACK
  end.
Proof.
  intros Hys Hrec. revert c. induction ys as [|y ys IH]; intros c Hx Hn Hs Hg; simpl.
  { split; [done|]. split; [apply grows_refl|]. intros ? []. }
  assert (Hxy : arrow es x y) by (apply Hys; by left).
  assert (Hys' : forall y, In y ys -> arrow es x y) by (intros; apply Hys; by right).
  assert (Hrec' : forall c y, In y ys -> color_of c y = WHITE -> (whites c <= n)%nat -> safe c ->
    (forall z, color_of c z = GRAY -> reach es z y) -> dfs_ok c y (rec c y))
    by (intros; apply Hrec; auto; by right).
  destruct (color_of c y) eqn:Ey.
  - pose proof (Hrec c y ltac:(by left) Ey Hn Hs) as Hok.
    assert (Hgy : forall z, color_of c z = GRAY -> reach es z y)
      by (intros z Hz; eapply rtc_r; [by apply Hg|done]).
    specialize (Hok Hgy). destruct (rec c y) as [[[|] c']|]; simpl in *; [done| |done].
    destruct Hok as (Hs' & Hgr & Hb). specialize (IH Hys' Hrec' c').
    pose proof (grows_whites _ _ Hgr).
    assert (Hgx : forall z, color_of c' z = GRAY -> reach es z x)
      by (intros z Hz; apply Hg; by apply Hgr).
    specialize (IH ltac:(by apply Hgr) ltac:(lia) Hs' Hgx).
    destruct (color_loop rec ys c') as [[[|] c'']|]; [done| |done].
    destruct IH as (H1 & H2 & H3). split; [done|]. split; [by eapply grows_trans|].
    intros z [<-|Hz]; [by apply H2|auto].
  - exists y. apply Hg in Ey. apply (tc_rtc_l y x y); [done|by constructor].
  - specialize (IH Hys' Hrec' c Hx Hn Hs Hg).
    destruct (color_loop rec ys c) as [[[|] c'']|]; [done| |done].
    destruct IH as (H1 & H2 & H3). split; [done|]. split; [done|].
    intros z [<-|Hz]; [by apply H2|auto].
Qed.

Lemma graph_nodes_target x y : arrow es x y -> In y graph_nodes.
Proof. intros H. apply in_or_app. right. apply in_map_iff. by exists (x, y). Qed.
Lemma graph_nodes_source x y : arrow es x y -> In x graph_nodes.
Proof. intros H. apply in_or_app. left. apply in_map_iff. by exists (x, y). Qed.

Lemma succs_graph_nodes x y : In y (succs es x) -> In y graph_nodes.
Proof. rewrite succs_spec. apply graph_nodes_target. Qed.

Lemma color_dfs_spec fuel c x :
  In x graph_nodes -> color_of c x = WHITE -> (whites c <= fuel)%nat -> safe c ->
  (forall z, color_of c z = GRAY -> reach es z x) ->
  dfs_ok c x (color_dfs fuel c x).
Proof.
  revert c x. induction fuel as [|fuel IH]; intros c x Hin Hx Hf Hs Hg.
  { pose proof (whites_gray c x Hin Hx). lia. }
  assert (Hs' : safe (<[x := GRAY]> c)).
  { split.
    - intros a b. rewrite !color_of_insert. case_decide; [discriminate|]. intros Ha Hab.
      pose proof (safe_closed _ Hs a b Ha Hab). case_decide; [subst; congruence|done].
    - intros a. rewrite color_of_insert. case_decide; [discriminate|]. by apply Hs. }
  assert (Hg' : forall z, color_of (<[x := GRAY]> c) z = GRAY -> reach es z x).
  { intros z. rewrite color_of_insert. case_decide; [subst; intros; apply rtc_refl|]. apply Hg. }
  pose proof (whites_gray c x Hin Hx) as Hw. simpl.
  pose proof (color_loop_spec (color_dfs fuel) x (succs es x) (<[x := GRAY]> c) fuel) as Hl.
  destruct (color_loop (color_dfs fuel) (succs es x) (<[x := GRAY]> c)) as [[[|] c']|]; simpl.
  - apply Hl; auto.
    + intros y. by rewrite succs_spec.
    + intros. apply IH; auto. by eapply succs_graph_nodes.
    + by rewrite color_of_insert, decide_True.
    + lia.
  - destruct Hl as (H1 & H2 & H3).
    { intros y. by rewrite succs_spec. }
    { intros. apply IH; auto. by eapply succs_graph_nodes. }
    { by rewrite color_of_insert, decide_True. }
    { lia. }
    { done. }
    { done. }
    assert (Hxg : color_of c' x = GRAY) by (apply H2; by rewrite color_of_insert, decide_True).
    assert (Hclosed : forall a b, color_of c' a = BLACK -> reach1 es a b -> color_of c' b = BLACK).
    { intros a b Ha Hab. induction Hab as [a b Hab|a b d Hab _ IHab];
        [by eapply H1|apply IHab; by eapply H1]. }
    split; [split|split].
    + intros a b. rewrite !color_of_insert. repeat case_decide; subst; try done.
      * intros _ Hab. apply H3. by apply succs_spec.
      * intros Ha Hab. by eapply H1.
    + intros a. rewrite color_of_insert. case_decide; [subst|by apply H1].
      intros _ Hcyc. assert (exists b, arrow es a b /\ (b = a \/ reach1 es b a)) as (b & Hab & Hba).
      { inversion Hcyc; subst; eauto. }
      assert (Hb : color_of c' b = BLACK) by (apply H3; by apply succs_spec).
      destruct Hba as [->|Hba]; [congruence|]. pose proof (Hclosed b a Hb Hba). congruence.
    + split; intros a; rewrite color_of_insert; case_decide; subst.
      * split; [discriminate|congruence].
      * destruct H2 as [H2 _]. rewrite H2, color_of_insert, decide_False by done. done.
      * done.
      * intros Ha. apply H2. rewrite color_of_insert, decide_False by done. done.
    + by rewrite color_of_insert, decide_True.
  - exfalso. apply Hl; auto.
    + intros y. by rewrite succs_spec.
    + intros. apply IH; auto. by eapply succs_graph_nodes.
    + by rewrite color_of_insert, decide_True.
    + lia.
Qed.

Lemma whites_bound c : (whites c <= length graph_nodes)%nat.
Proof. apply length_filter_le. Qed.

Lemma color_starts_spec fuel starts c :
  (forall x, In x starts -> In x graph_nodes) -> (length graph_nodes <= fuel)%nat ->
  safe c -> (forall x, color_of c x <> GRAY) ->
  exists b, color_starts fuel starts c = Some b /\
    (b = true -> exists z, reach1 es z z) /\
    (b = false -> forall x, color_of c x = BLACK \/ In x starts -> ~ reach1 es x x).
Proof.
  intros Hin Hf. revert c. induction starts as [|x starts IH]; intros c Hs Hg; simpl.
  { exists false. split; [done|]. split; [done|]. intros _ x [Hx|[]]. by apply Hs. }
  assert (Hin' : forall x, In x starts -> In x graph_nodes) by (intros; apply Hin; by right).
  destruct (color_of c x) eqn:Ex.
  - pose proof (color_dfs_spec fuel c x (Hin x ltac:(by left)) Ex) as Hd.
    pose proof (whites_bound c). specialize (Hd ltac:(lia) Hs ltac:(intros z Hz; by apply Hg in Hz)).
    destruct (color_dfs fuel c x) as [[[|] c']|]; simpl in *; [|destruct Hd as (Hs' & Hgr & Hb)|done].
    + exists true. split; [done|]. by split.
    + destruct (IH Hin' c' Hs') as (b & Hb1 & Hb2 & Hb3).
      { intros y Hy. apply Hgr in Hy. by apply Hg in Hy. }
      exists b. split; [done|]. split; [done|]. intros Hbf y Hy. apply (Hb3 Hbf y).
      destruct Hy as [Hy|[<-|Hy]]; [left; by apply Hgr|by left|by right].
  - by apply Hg in Ex.
  - destruct (IH Hin' c Hs Hg) as (b & Hb1 & Hb2 & Hb3). exists b. split; [done|]. split; [done|].
    intros Hbf y Hy. apply (Hb3 Hbf y). destruct Hy as [Hy|[<-|Hy]]; auto.
Qed.

Lemma has_cycle_spec :
  exists b, has_cycle = Some b /\ (b = true <-> exists z, reach1 es z z).
Proof.
  destruct (color_starts_spec (length graph_nodes) graph_nodes ∅) as (b & Hb1 & Hb2 & Hb3);
    [done|done|by split|done|].
  exists b. split; [done|]. split; [done|]. intros (z & Hz). destruct b; [done|].
  exfalso. apply (Hb3 eq_refl z); [right|done].
  inversion Hz; subst; by eapply graph_nodes_source.
Qed.
End color_dfs.
