(* ===== verification/Linter.v ===== *)
(** * Semantic linter

    [contexts/workflow/application/linter.py]: the 17 blocking rules, the advisory
    warnings and [validate_definition].  A rule returns the issues it appends; the
    two rules that can let a Python exception escape return a [res].  Where the
    source iterates over a Python [set], whose order is not specified, the model
    takes one order; the statements below are about membership. *)

From S2P Require Import Prelude PyFloat PyValue SelLexer SelParser SelEval SelTemplate WorkflowModels Graph.
(** Ports each node type is allowed to emit from. *)
Definition ALLOWED_PORTS (t : NodeType) : list string :=
  match t with
  | TRIGGER | PARALLEL | SET_VARIABLE => ["default"]
  | AGENT_INVOCATION | INSTRUCT | SUBAGENT_SPAWN => ["success"; "failure"]
  | APPROVAL_GATE => ["approved"; "rejected"; "timeout"]
  | WAIT_FOR_EVENT | JOIN => ["default"; "timeout"]
  | CONDITION | END => []
  end%string.

(** Nodes with deterministic ports that must all be covered. *)
Definition MULTI_PORT_NODES (t : NodeType) : option (list string) :=
  match t with
  | AGENT_INVOCATION | INSTRUCT | SUBAGENT_SPAWN => Some ["success"; "failure"]
  | APPROVAL_GATE => Some ["approved"; "rejected"; "timeout"]
  | _ => None
  end%string.

(** ** Helpers *)

Definition mem (x : string) (l : list string) : bool := existsb (String.eqb x) l.

Definition nodes_by_id (d : definition) : gmap string node :=
  fold_left (fun m n => <[n_id n := n]> m) (d_nodes d) ∅.

(** The keys of that dictionary, in insertion order. *)
Fixpoint dedup (seen l : list string) : list string :=
  match l with
  | [] => []
  | x :: l => if mem x seen then dedup seen l else x :: dedup (x :: seen) l
  end.
Definition node_ids (d : definition) : list string := dedup [] (map n_id (d_nodes d)).

(** [_build_adjacency]: [outgoing.get(nid, [])] and [incoming.get(nid, [])]. *)
Definition outgoing (d : definition) (nid : string) : list edge :=
  List.filter (fun e => String.eqb (e_from e) nid) (d_edges d).
Definition incoming (d : definition) (nid : string) : list edge :=
  List.filter (fun e => String.eqb (e_to e) nid) (d_edges d).

Definition arrows_of (d : definition) : arrows := map (fun e => (e_from e, e_to e)) (d_edges d).

(** [m.group(1).split(".")[0].split("[")[0]] for every match. *)
Definition root_name (path : list ascii) : string :=
  unchars (fst (span (fun c => negb (Ascii.eqb c "[")) (fst (span (fun c => negb (Ascii.eqb c ".")) path)))).

Fixpoint var_refs_go (fuel : nat) (l : list ascii) : list string :=
  match l, fuel with
  | [], _ | _, O => []
  | _ :: rest, S fuel =>
      match match_var l with
      | Some (path, _, after) => root_name path :: var_refs_go fuel after
      | None => var_refs_go fuel rest
      end
  end.
Definition extract_var_refs (text : string) : list string :=
  var_refs_go (String.length text) (chars text).

(** [_collect_all_text_fields] of a dictionary value. *)
Fixpoint texts_of (v : pyval) : list string :=
  match v with
  | VDict d =>
      (fix values (d : pydict) : list string :=
         match d with
         | [] => []
         | (_, v) :: d =>
             (match v with
              | VStr s => [s]
              | VList l =>
                  (fix items (l : list pyval) : list string :=
                     match l with
                     | [] => []
                     | x :: l =>
                         (match x with VStr s => [s] | VDict _ => texts_of x | _ => [] end) ++ items l
                     end) l
              | VDict _ => texts_of v
              | _ => []
              end) ++ values d
         end) d
  | _ => []
  end.
Definition collect_all_text_fields (config : pydict) : list string := texts_of (VDict config).

Definition collect_agent_ids (n : node) : list string :=
  let config := n_config n in
  flat_map (fun k => match dict_get k config with Some (VStr s) => [s] | _ => [] end)
    ["agent_id"; "target_agent_id"; "issuer_agent_id"; "leader_agent_id"; "parent_agent_id"]%string
  ++ str_items (cfg_list "approvers" config).

(** The branches of a condition: predicate and port. *)
Definition branches (config : pydict) : list pydict := dict_items (cfg_list "branches" config).

Definition node_issue (r : nat) (lvl : level) (n : string) : LintIssue := mkIssue r lvl (Some n) None.
Definition edge_issue (r : nat) (e : string) : LintIssue := mkIssue r error None (Some e).
Definition plain_issue (r : nat) (lvl : level) : LintIssue := mkIssue r lvl None None.

(** ** Rules 1 to 5: the graph *)

Definition is_type (t : NodeType) (n : node) : bool := bool_decide (n_type n = t).
Definition triggers (d : definition) : list node := List.filter (is_type TRIGGER) (d_nodes d).

Definition rule_01_single_trigger (d : definition) : list LintIssue :=
  match triggers d with
  | [] => [plain_issue 1 error]
  | t :: ts =>
      map (fun t => node_issue 1 error (n_id t)) ts ++
      (if String.eqb (d_entry d) (n_id t) then [] else [plain_issue 1 error])
  end.

(** The repeats of a list of identifiers. *)
Fixpoint repeats (seen l : list string) : list string :=
  match l with
  | [] => []
  | x :: l => (if mem x seen then [x] else []) ++ repeats (x :: seen) l
  end.

Definition rule_02_unique_ids (d : definition) : list LintIssue :=
  map (node_issue 2 error) (repeats [] (map n_id (d_nodes d))) ++
  map (edge_issue 2) (repeats [] (map e_id (d_edges d))).

(** The ports rule 3 accepts on an edge out of a node. *)
Definition allowed_ports (n : node) : list string :=
  if is_type CONDITION n
  then map (cfg_str "port" "") (branches (n_config n)) ++ [cfg_str "default_port" "default" (n_config n)]
  else ALLOWED_PORTS (n_type n).

Definition edge_issues (d : definition) (e : edge) : list LintIssue :=
  let nodes := nodes_by_id d in
  (match nodes !! e_from e with None => [edge_issue 3 (e_id e)] | Some _ => [] end) ++
  (match nodes !! e_to e with None => [edge_issue 3 (e_id e)] | Some _ => [] end) ++
  (match nodes !! e_from e with
   | None => []
   | Some n =>
       if is_type END n then [edge_issue 3 (e_id e)]
       else match allowed_ports n with
            | [] => []
            | ports => if mem (from_port e) ports then [] else [edge_issue 3 (e_id e)]
            end
   end).

Definition triple (e : edge) : string * string * string := (e_from e, from_port e, e_to e).

Fixpoint rule_03_go (d : definition) (seen : list (string * string * string)) (es : list edge)
    : list LintIssue :=
  match es with
  | [] => []
  | e :: es =>
      edge_issues d e ++
      (if decide (triple e ∈ seen) then [edge_issue 3 (e_id e)] else []) ++
      rule_03_go d (triple e :: seen) es
  end.
Definition rule_03_edges_valid (d : definition) : list LintIssue := rule_03_go d [] (d_edges d).

(** The stack walk never exhausts its fuel: [Graph.reachable_from_spec]. *)
Definition reachable (d : definition) : gset string :=
  default ∅ (reachable_from (arrows_of d) (d_entry d)).

Definition rule_04_reachability (d : definition) : list LintIssue :=
  match nodes_by_id d !! d_entry d with
  | None => []
  | Some _ =>
      flat_map (fun nid =>
        if negb (String.eqb nid (d_entry d)) && negb (bool_decide (nid ∈ reachable d))
        then [node_issue 4 error nid] else []) (node_ids d)
  end.

Definition end_nodes (d : definition) : gset string :=
  list_to_set (List.filter (fun nid => match nodes_by_id d !! nid with
    | Some n => is_type END n | None => false end) (node_ids d)).

(** The sweeps never exhaust their fuel: [Graph.can_reach_spec]. *)
Definition can_reach_end (d : definition) : gset string :=
  default ∅ (can_reach (arrows_of d) (node_ids d) (end_nodes d)).

(** A reachable identifier with no way to an end: [nodes[nid]] raises [KeyError] when
    no node has it. *)
Definition stuck_issue (d : definition) (nid : string) : res (list LintIssue) :=
  if bool_decide (nid ∈ end_nodes d) then Ok []
  else if bool_decide (nid ∈ can_reach_end d) then Ok []
  else match nodes_by_id d !! nid with
       | None => Raise KeyError
       | Some n =>
           if is_type WAIT_FOR_EVENT n && match outgoing d nid with [] => true | _ => false end
           then Ok [node_issue 5 warning nid]
           else Ok [node_issue 5 error nid]
       end.

Definition rule_05_termination (d : definition) : res (list LintIssue) :=
  if bool_decide (end_nodes d = ∅) then Ok [plain_issue 5 error]
  else ls ← mapMr (stuck_issue d) (elements (reachable d)); Ok (concat ls).

(** ** Rules 6 to 9: references *)

Definition rule_06_agents_exist (d : definition) (valid_agent_ids : gset string) : list LintIssue :=
  flat_map (fun n => flat_map (fun aid =>
    if bool_decide (aid ∈ valid_agent_ids) then [] else [node_issue 6 error (n_id n)])
    (collect_agent_ids n)) (d_nodes d).

Definition rule_07_agent_scope (d : definition) (valid_agent_ids : gset string) : list LintIssue := [].

(** [cid and cid not in s] for an optional string [cid]. *)
Definition names_missing (k : string) (config : pydict) (s : gset string) : bool :=
  let cid := cfg_str k "" config in
  negb (String.eqb cid "") && negb (bool_decide (cid ∈ s)).

Definition rule_08_chatroom_scope (d : definition) (valid_chatroom_ids : gset string) : list LintIssue :=
  flat_map (fun n => flat_map (fun k =>
    if names_missing k (n_config n) valid_chatroom_ids then [node_issue 8 error (n_id n)] else [])
    ["chatroom_id"; "target_chatroom_id"]%string) (d_nodes d).

Definition rule_09_subagent_depth (d : definition) (subagent_parent_ids : gset string) : list LintIssue :=
  flat_map (fun n =>
    if is_type SUBAGENT_SPAWN n then
      let parent := cfg_str "parent_agent_id" "" (n_config n) in
      if negb (String.eqb parent "") && bool_decide (parent ∈ subagent_parent_ids)
      then [node_issue 9 error (n_id n)] else []
    else []) (d_nodes d).

(** ** Rule 10: the instruct graph *)

Definition instruct_arrows (d : definition) : arrows :=
  flat_map (fun n =>
    if is_type INSTRUCT n then
      let issuer := cfg_str "issuer_agent_id" "" (n_config n) in
      let target := cfg_str "target_agent_id" "" (n_config n) in
      if negb (String.eqb issuer "") && negb (String.eqb target "") then [(issuer, target)] else []
    else []) (d_nodes d).

(** The search never exhausts its fuel: [Graph.has_cycle_spec]. *)
Definition rule_10_instruct_cycle (d : definition) : list LintIssue :=
  if default false (has_cycle (instruct_arrows d)) then [plain_issue 10 error] else [].

(** ** Rules 11 to 14 *)

Fixpoint branch_issues (nid default_port : string) (seen ports : list string) : list LintIssue :=
  match ports with
  | [] => []
  | p :: ports =>
      (if mem p seen then [node_issue 11 error nid] else []) ++
      (if String.eqb p default_port then [node_issue 11 error nid] else []) ++
      branch_issues nid default_port (p :: seen) ports
  end.

Definition rule_11_condition_branches (d : definition) : list LintIssue :=
  flat_map (fun n =>
    if is_type CONDITION n
    then branch_issues (n_id n) (cfg_str "default_port" "default" (n_config n)) []
           (map (cfg_str "port" "") (branches (n_config n)))
    else []) (d_nodes d).

Definition declared_vars (d : definition) : list string := map fst (d_variables d).

Definition rule_12_variable_references (d : definition) : list LintIssue :=
  flat_map (fun n => flat_map (fun text => flat_map (fun ref =>
    if String.eqb ref "trigger" || String.eqb ref "ctx" then []
    else if mem ref (declared_vars d) then []
    else [node_issue 12 (if is_type CONDITION n then error else warning) (n_id n)])
    (extract_var_refs text)) (collect_all_text_fields (n_config n))) (d_nodes d).

(** [config.get("on_error", {}).get("strategy", "fail")] *)
Definition strategy (config : pydict) : string := cfg_str "strategy" "fail" (cfg_dict "on_error" config).

Definition rule_13_port_coverage (d : definition) : list LintIssue :=
  flat_map (fun nid =>
    match nodes_by_id d !! nid with
    | None => []
    | Some n =>
        match MULTI_PORT_NODES (n_type n) with
        | None => []
        | Some required =>
            let connected := map from_port (outgoing d nid) in
            flat_map (fun port =>
              if negb (mem port connected) && negb (String.eqb (strategy (n_config n)) "continue")
              then [node_issue 13 error nid] else []) required
        end
    end) (node_ids d).

(** The walk back from an edge into a join through nodes with one input: the
    condition it meets, if any.  The outer option is the fuel. *)
Fixpoint feeding_condition (fuel : nat) (d : definition) (cursor : string) (visited : list string)
    : option (option string) :=
  match fuel with
  | O => None
  | S fuel =>
      if String.eqb cursor "" || mem cursor visited then Some None
      else match nodes_by_id d !! cursor with
           | None => Some None
           | Some pred =>
               if is_type CONDITION pred then Some (Some (n_id pred))
               else match incoming d cursor with
                    | [e] => feeding_condition fuel d (e_from e) (cursor :: visited)
                    | _ => Some None
                    end
           end
  end.

Definition join_mode (config : pydict) : string := cfg_str "mode" "all" config.

Definition rule_14_parallel_join (d : definition) : list LintIssue :=
  flat_map (fun n =>
    let nid := n_id n in
    if is_type PARALLEL n then
      if (length (outgoing d nid) <? 2)%nat then [node_issue 14 error nid] else []
    else if is_type JOIN n then
      (if (length (incoming d nid) <? 2)%nat then [node_issue 14 error nid] else []) ++
      (if String.eqb (join_mode (n_config n)) "all" then
         flat_map (fun e =>
           match default None (feeding_condition (S (length (d_edges d))) d (e_from e) []) with
           | Some _ => [node_issue 14 error nid]
           | None => []
           end) (incoming d nid)
       else [])
    else []) (d_nodes d).

(** ** Rules 15 to 17 *)

Definition sel_exprs (n : node) : list pyval :=
  if is_type CONDITION n
  then map (dict_get_or "when" (VStr "")) (branches (n_config n))
  else if is_type SET_VARIABLE n
  then map (dict_get_or "expression" (VStr "")) (dict_items (cfg_list "assignments" (n_config n)))
  else [].

(** [expr.strip()] is empty. *)
Definition blank (s : string) : bool :=
  match strip_chars is_space (chars s) with [] => true | _ => false end.

Definition expr_issues (nid : string) (expr : pyval) : res (list LintIssue) :=
  match expr with
  | VStr s =>
      if blank s then Ok []
      else match validate s with
           | Ok _ => Ok []
           | Raise SELSyntaxError | Raise SELForbiddenConstruct | Raise SELBudgetExceeded =>
               Ok [node_issue 15 error nid]
           | Raise e => Raise e
           | NoFuel => NoFuel
           end
  | _ => Ok []
  end.

Definition rule_15_sel_expressions (d : definition) : res (list LintIssue) :=
  ls ← mapMr (fun n => ls ← mapMr (expr_issues (n_id n)) (sel_exprs n); Ok (concat ls)) (d_nodes d);
  Ok (concat ls).

Definition rule_16_fallback_node_exists (d : definition) : list LintIssue :=
  flat_map (fun n =>
    if negb (String.eqb (strategy (n_config n)) "fallback") then []
    else
      let fid := cfg_str "fallback_node_id" "" (cfg_dict "on_error" (n_config n)) in
      if String.eqb fid "" then [node_issue 16 error (n_id n)]
      else if String.eqb fid (n_id n) then [node_issue 16 error (n_id n)]
      else if negb (mem fid (map n_id (d_nodes d))) then [node_issue 16 error (n_id n)]
      else []) (d_nodes d).

(** The configuration key of the target agent and the type of the emitted message. *)
Definition A2A_EMIT (t : NodeType) : option (string * string) :=
  match t with
  | AGENT_INVOCATION => Some ("agent_id", "call")
  | INSTRUCT => Some ("target_agent_id", "instruct")
  | _ => None
  end%string.

Definition a2a_triggers (d : definition) : list node :=
  List.filter (fun n => is_type TRIGGER n && String.eqb (cfg_str "trigger_type" "" (n_config n)) "a2a_event")
    (d_nodes d).

Definition rule_17_a2a_trigger_self_cycle (d : definition) : list LintIssue :=
  flat_map (fun trig =>
    let agent := cfg_str "agent_id" "" (n_config trig) in
    let event_types := str_items (cfg_list "event_types" (n_config trig)) in
    if String.eqb agent "" then []
    else match event_types with
         | [] => []
         | _ =>
             flat_map (fun n =>
               match A2A_EMIT (n_type n) with
               | None => []
               | Some (key, emitted) =>
                   if String.eqb (cfg_str key "" (n_config n)) agent && mem emitted event_types
                   then [node_issue 17 error (n_id n)] else []
               end) (d_nodes d)
         end) (a2a_triggers d).

(** ** Advisory warnings *)

Definition used_vars (d : definition) : list string :=
  flat_map (fun n =>
    flat_map extract_var_refs (collect_all_text_fields (n_config n)) ++
    (if is_type AGENT_INVOCATION n then
       match cfg_str "output_variable" "" (n_config n) with ""%string => [] | ov => [ov] end else []) ++
    (if is_type SET_VARIABLE n
     then map (cfg_str "variable" "") (dict_items (cfg_list "assignments" (n_config n))) else []))
    (d_nodes d).

(** [any(e.get("from_port") == "timeout" for e in edges)] *)
Definition has_timeout_edge (d : definition) (nid : string) : bool :=
  existsb (fun e => match e_port e with Some p => String.eqb p "timeout" | None => false end)
    (outgoing d nid).

(** [cron_expr.split()[0]], or the empty string. *)
Definition first_word (s : string) : string :=
  unchars (fst (span (fun c => negb (is_space c)) (lstrip_chars is_space (chars s)))).

(** [sorted] of a set of strings. *)
Fixpoint insert_sorted (x : string) (l : list string) : list string :=
  match l with
  | [] => [x]
  | y :: l' => if String.leb x y then x :: l else y :: insert_sorted x l'
  end.
Definition sorted_set (l : list string) : list string :=
  fold_right insert_sorted [] (dedup [] l).

Definition warn (b : bool) (nid : string) : list LintIssue :=
  if b then [node_issue 0 warning nid] else [].

(** The approvers and the leader. *)
Definition approver_ids (config : pydict) : list string :=
  str_items (cfg_list "approvers" config) ++
  match cfg_str "leader_agent_id" "" config with ""%string => [] | l => [l] end.

Definition node_warnings (d : definition) (can_instruct can_approve can_create : gset string) (n : node)
    : list LintIssue :=
  let c := n_config n in
  let nid := n_id n in
  warn (is_type AGENT_INVOCATION n && (300 <? cfg_int "timeout_seconds" 120 c)) nid ++
  warn (is_type WAIT_FOR_EVENT n && negb (String.eqb (cfg_str "event_type" "timer" c) "timer")
        && negb (has_timeout_edge d nid)) nid ++
  warn (is_type WAIT_FOR_EVENT n && String.eqb (cfg_str "event_type" "timer" c) "timer"
        && has_timeout_edge d nid) nid ++
  warn (is_type JOIN n && has_timeout_edge d nid) nid ++
  warn (is_type APPROVAL_GATE n && (3600 <? cfg_int "timeout_seconds" 0 c)) nid ++
  warn (is_type TRIGGER n && String.eqb (cfg_str "trigger_type" "" c) "cron"
        && String.eqb (first_word (cfg_str "cron_expression" "" c)) "*") nid ++
  warn (is_type SUBAGENT_SPAWN n) nid ++
  warn (is_type INSTRUCT n && names_missing "issuer_agent_id" c can_instruct) nid ++
  (if is_type APPROVAL_GATE n
   then flat_map (fun aid => warn (negb (bool_decide (aid ∈ can_approve))) nid)
          (sorted_set (approver_ids c)) else []) ++
  warn (is_type SUBAGENT_SPAWN n && names_missing "parent_agent_id" c can_create) nid.

Definition advisory_warnings (d : definition) (can_instruct can_approve can_create : gset string)
    : list LintIssue :=
  flat_map (fun v => if mem v (used_vars d) then [] else [plain_issue 0 warning]) (declared_vars d) ++
  flat_map (node_warnings d can_instruct can_approve can_create) (d_nodes d) ++
  (if 1000 <? default 200 (d_max_visits d) then [plain_issue 0 warning] else []).

(** ** [validate_definition] *)

(** The keyword arguments: what the service looks up in the database. *)
Record Lookups := mkLookups {
  valid_agent_ids : gset string;
  valid_chatroom_ids : gset string;
  subagent_parent_ids : gset string;
  can_instruct_agent_ids : gset string;
  can_approve_agent_ids : gset string;
  can_create_subagent_agent_ids : gset string;
}.

Definition is_error (i : LintIssue) : bool := match i_level i with error => true | warning => false end.

Definition validate_definition (d : definition) (k : Lookups) : res ValidationResult :=
  r5 ← rule_05_termination d;
  r15 ← rule_15_sel_expressions d;
  let all_issues :=
    rule_01_single_trigger d ++ rule_02_unique_ids d ++ rule_03_edges_valid d ++
    rule_04_reachability d ++ r5 ++
    rule_06_agents_exist d (valid_agent_ids k) ++ rule_07_agent_scope d (valid_agent_ids k) ++
    rule_08_chatroom_scope d (valid_chatroom_ids k) ++ rule_09_subagent_depth d (subagent_parent_ids k) ++
    rule_10_instruct_cycle d ++ rule_11_condition_branches d ++ rule_12_variable_references d ++
    rule_13_port_coverage d ++ rule_14_parallel_join d ++ r15 ++
    rule_16_fallback_node_exists d ++ rule_17_a2a_trigger_self_cycle d ++
    advisory_warnings d (can_instruct_agent_ids k) (can_approve_agent_ids k)
      (can_create_subagent_agent_ids k) in
  let errs := List.filter is_error all_issues in
  Ok (mkResult (match errs with [] => true | _ => false end) errs
        (List.filter (fun i => negb (is_error i)) all_issues)).
