(* ===== verification/LinterFacts.v ===== *)
(** * What the linter accepts

    [wellformed] says, without reference to the rules' loops, which definitions a
    workspace may save; [validate_iff_wellformed] proves that [validate_definition]
    accepts exactly those, [validate_exceptions] when it fails with a Python
    exception instead of a verdict. *)

From S2P Require Import Prelude PyFloat PyValue SelLexer SelParser SelEval SelTemplate WorkflowModels Graph Linter.
(** ** Issue lists *)

Definition clean (l : list LintIssue) : Prop := Forall (fun i => is_error i = false) l.

Lemma clean_nil : clean [].
Proof. constructor. Qed.
Lemma clean_app l l' : clean (l ++ l') <-> clean l /\ clean l'.
Proof. apply Forall_app. Qed.
Lemma clean_flat_map {A} (f : A -> list LintIssue) l :
  clean (flat_map f l) <-> forall x, In x l -> clean (f x).
Proof.
  induction l as [|x l IH]; simpl; [split; [intros _ ? []|intros _; constructor]|].
  rewrite clean_app, IH. naive_solver.
Qed.
Lemma clean_concat ls : clean (concat ls) <-> forall l, In l ls -> clean l.
Proof. rewrite <- (map_id ls) at 1. rewrite <- flat_map_concat_map. apply clean_flat_map. Qed.
Lemma clean_error r n e : ~ clean [mkIssue r error n e].
Proof. inversion 1. discriminate. Qed.
Lemma clean_if (b : bool) r n e : clean (if b then [mkIssue r error n e] else []) <-> b = false.
Proof.
  destruct b; [|split; [done|intros _; constructor]].
  split; [intros H; by apply clean_error in H|discriminate].
Qed.
Lemma clean_if_not (b : bool) r n e : clean (if b then [] else [mkIssue r error n e]) <-> b = true.
Proof.
  destruct b; [split; [done|intros _; constructor]|].
  split; [intros H; by apply clean_error in H|discriminate].
Qed.
Lemma clean_filter l : clean l <-> List.filter is_error l = [].
Proof.
  induction l as [|i l IH]; simpl; [split; [done|constructor]|].
  unfold clean in *. rewrite Forall_cons_iff, IH. destruct (is_error i); naive_solver.
Qed.
Lemma clean_warn b n : clean (warn b n).
Proof. unfold warn, node_issue. destruct b; repeat constructor. Qed.
Lemma clean_map_error {A} r (f : A -> LintIssue) l :
  (forall x, f x = mkIssue r error (i_node_id (f x)) (i_edge_id (f x))) -> clean (map f l) <-> l = [].
Proof.
  intros Hf. destruct l as [|x l]; simpl; [split; [done|constructor]|].
  split; [|discriminate]. rewrite Hf. inversion 1. discriminate.
Qed.

(** ** Membership *)

Lemma mem_spec x l : mem x l = true <-> In x l.
Proof.
  unfold mem. rewrite existsb_exists. split.
  - intros (y & Hy & ->%String.eqb_eq). done.
  - intros H. exists x. split; [done|apply String.eqb_refl].
Qed.
Lemma mem_false x l : mem x l = false <-> ~ In x l.
Proof. rewrite <- mem_spec. by destruct (mem x l). Qed.

Lemma repeats_nodup seen l : repeats seen l = [] <-> List.NoDup l /\ forall x, In x l -> ~ In x seen.
Proof.
  revert seen. induction l as [|x l IH]; intros seen; simpl; [split; [split; [constructor|done]|done]|].
  rewrite app_nil, IH, List.NoDup_cons_iff. destruct (mem x seen) eqn:E.
  - apply mem_spec in E. naive_solver.
  - apply mem_false in E. simpl. naive_solver.
Qed.

Lemma dedup_In seen l x : In x (dedup seen l) <-> In x l /\ ~ In x seen.
Proof.
  revert seen. induction l as [|y l IH]; intros seen; simpl; [naive_solver|].
  destruct (mem y seen) eqn:E.
  - apply mem_spec in E. rewrite IH. naive_solver.
  - apply mem_false in E. simpl. rewrite IH. simpl.
    destruct (String.eqb_spec y x) as [->|]; naive_solver.
Qed.

Lemma node_ids_In d x : In x (node_ids d) <-> In x (map n_id (d_nodes d)).
Proof. unfold node_ids. rewrite dedup_In. naive_solver. Qed.

Lemma find_app {A} (p : A -> bool) l l' :
  List.find p (l ++ l') = match List.find p l with Some x => Some x | None => List.find p l' end.
Proof. induction l as [|x l IH]; simpl; [done|]. by destruct (p x). Qed.

Lemma fold_nodes_lookup l (m : gmap string node) x :
  fold_left (fun m n => <[n_id n := n]> m) l m !! x =
  match List.find (fun n => String.eqb (n_id n) x) (rev l) with Some n => Some n | None => m !! x end.
Proof.
  revert m. induction l as [|n l IH]; intros m; simpl; [done|].
  rewrite IH. rewrite find_app. destruct (List.find _ (rev l)); [done|]. simpl.
  destruct (String.eqb_spec (n_id n) x) as [->|Hne]; [by rewrite lookup_insert_eq|].
  by rewrite lookup_insert_ne.
Qed.

Lemma nodes_by_id_Some d x n : nodes_by_id d !! x = Some n -> In n (d_nodes d) /\ n_id n = x.
Proof.
  unfold nodes_by_id. rewrite fold_nodes_lookup. destruct (List.find _ _) as [m|] eqn:E; [|done].
  intros [= ->]. apply List.find_some in E as [H1 H2]. apply in_rev in H1. by apply String.eqb_eq in H2.
Qed.

Lemma nodes_by_id_None d x : nodes_by_id d !! x = None <-> ~ In x (map n_id (d_nodes d)).
Proof.
  unfold nodes_by_id. rewrite fold_nodes_lookup. destruct (List.find _ _) as [m|] eqn:E.
  - apply List.find_some in E as [H1 H2]. apply in_rev in H1. apply String.eqb_eq in H2. subst.
    split; [done|]. intros []. by apply in_map.
  - split; [|done]. intros _ (n & <- & Hn)%in_map_iff. apply in_rev in Hn.
    pose proof (List.find_none _ _ E n Hn) as H. simpl in H. by rewrite String.eqb_refl in H.
Qed.

Lemma nodes_by_id_unique d n :
  List.NoDup (map n_id (d_nodes d)) -> In n (d_nodes d) -> nodes_by_id d !! n_id n = Some n.
Proof.
  intros Hnd Hn. destruct (nodes_by_id d !! n_id n) as [m|] eqn:E.
  - apply nodes_by_id_Some in E as [Hm Hid]. f_equal.
    revert Hnd Hn Hm Hid. induction (d_nodes d) as [|a l IH]; simpl; [done|].
    intros [Ha Hnd]%List.NoDup_cons_iff [->|Hn] [->|Hm] Hid; auto.
    + exfalso. apply Ha. rewrite <- Hid. by apply in_map.
    + exfalso. apply Ha. rewrite Hid. by apply in_map.
  - apply nodes_by_id_None in E. exfalso. by apply E, in_map.
Qed.

Lemma known_node d x : (exists n, nodes_by_id d !! x = Some n) <-> In x (node_ids d).
Proof.
  rewrite node_ids_In. destruct (nodes_by_id d !! x) as [n|] eqn:E.
  - apply nodes_by_id_Some in E as [H <-]. split; [|eauto]. intros _. by apply in_map.
  - apply nodes_by_id_None in E. split; [by intros (? & [=])|done].
Qed.

Lemma arrow_edge d x y : arrow (arrows_of d) x y <-> exists e, In e (d_edges d) /\ e_from e = x /\ e_to e = y.
Proof.
  unfold arrow, arrows_of. rewrite in_map_iff. split.
  - intros (e & [= <- <-] & He). by exists e.
  - intros (e & He & <- & <-). by exists e.
Qed.

Lemma outgoing_In d n e : In e (outgoing d n) <-> In e (d_edges d) /\ e_from e = n.
Proof. unfold outgoing. by rewrite filter_In, String.eqb_eq. Qed.
Lemma incoming_In d n e : In e (incoming d n) <-> In e (d_edges d) /\ e_to e = n.
Proof. unfold incoming. by rewrite filter_In, String.eqb_eq. Qed.

Lemma is_type_spec t n : is_type t n = true <-> n_type n = t.
Proof. apply bool_decide_eq_true. Qed.
Lemma is_type_false t n : is_type t n = false <-> n_type n <> t.
Proof. apply bool_decide_eq_false. Qed.

(** ** The walks of rules 4 and 5 *)

Lemma reachable_spec d x : x ∈ reachable d <-> reach (arrows_of d) (d_entry d) x.
Proof.
  unfold reachable. destruct (reachable_from_spec (arrows_of d) (d_entry d)) as (r & -> & H). apply H.
Qed.

Lemma end_nodes_spec d x : x ∈ end_nodes d <-> exists n, nodes_by_id d !! x = Some n /\ n_type n = END.
Proof.
  unfold end_nodes. rewrite elem_of_list_to_set, list_elem_of_In, filter_In.
  destruct (nodes_by_id d !! x) as [n|] eqn:E.
  - rewrite is_type_spec. split; [intros [_ ?]; eauto|].
    intros (? & [= ->] & ?). split; [|done]. apply known_node. eauto.
  - split; [by intros []|by intros (? & [=] & _)].
Qed.

(** [x] has a path to an end node, through nodes of the document. *)
Definition reaches_end (d : definition) (x : string) : Prop :=
  reaches_set (node_ids d) (arrows_of d) (end_nodes d) x.

Lemma can_reach_end_spec d x : x ∈ can_reach_end d <-> reaches_end d x.
Proof.
  unfold can_reach_end.
  destruct (can_reach_spec (arrows_of d) (node_ids d) (end_nodes d)) as (r & -> & H). apply H.
Qed.

Lemma reaches_end_known d x : reaches_end d x -> In x (node_ids d).
Proof.
  intros (e & He & H). inversion H as [|? y ? [Hx _]]; subst; [|done].
  apply known_node. apply end_nodes_spec in He as (n & ? & _). eauto.
Qed.

(** ** The specification *)

Definition has_id (d : definition) (x : string) (n : node) : Prop := nodes_by_id d !! x = Some n.

(** Walking back from [x] through nodes with a single input leads to a condition. *)
Inductive fed_by_condition (d : definition) : string -> Prop :=
  | fed_here x n : x <> ""%string -> has_id d x n -> n_type n = CONDITION -> fed_by_condition d x
  | fed_back x n e : x <> ""%string -> has_id d x n -> incoming d x = [e] ->
      fed_by_condition d (e_from e) -> fed_by_condition d x.

(** An instruct node of the document sends from [a] to [b]. *)
Definition instructs (d : definition) (a b : string) : Prop :=
  exists n, In n (d_nodes d) /\ n_type n = INSTRUCT /\ a <> ""%string /\ b <> ""%string /\
    a = cfg_str "issuer_agent_id" "" (n_config n) /\ b = cfg_str "target_agent_id" "" (n_config n).

(** The message a node sends is one its own run is triggered by. *)
Definition refires (d : definition) (trig n : node) : Prop :=
  In trig (a2a_triggers d) /\ In n (d_nodes d) /\ cfg_str "agent_id" "" (n_config trig) <> ""%string /\
  exists key emitted, A2A_EMIT (n_type n) = Some (key, emitted) /\
    cfg_str key "" (n_config n) = cfg_str "agent_id" "" (n_config trig) /\
    In emitted (str_items (cfg_list "event_types" (n_config trig))).

Record wellformed (d : definition) (k : Lookups) : Prop := {
  wf_trigger : exists t, triggers d = [t] /\ n_id t = d_entry d;
  wf_node_ids : List.NoDup (map n_id (d_nodes d));
  wf_edge_ids : List.NoDup (map e_id (d_edges d));
  wf_edge e : In e (d_edges d) ->
    (exists n, has_id d (e_from e) n /\ n_type n <> END /\ In (from_port e) (allowed_ports n)) /\
    (exists n, has_id d (e_to e) n);
  wf_triples : List.NoDup (map triple (d_edges d));
  wf_reachable x : In x (node_ids d) -> reach (arrows_of d) (d_entry d) x;
  wf_end : exists n, In n (d_nodes d) /\ n_type n = END;
  wf_terminates x n : has_id d x n ->
    reaches_end d x \/ (n_type n = WAIT_FOR_EVENT /\ outgoing d x = []);
  wf_agents n a : In n (d_nodes d) -> In a (collect_agent_ids n) -> a ∈ valid_agent_ids k;
  wf_rooms n c : In n (d_nodes d) -> In c ["chatroom_id"; "target_chatroom_id"]%string ->
    cfg_str c "" (n_config n) = ""%string \/ cfg_str c "" (n_config n) ∈ valid_chatroom_ids k;
  wf_depth n : In n (d_nodes d) -> n_type n = SUBAGENT_SPAWN ->
    cfg_str "parent_agent_id" "" (n_config n) = ""%string \/
    cfg_str "parent_agent_id" "" (n_config n) ∉ subagent_parent_ids k;
  wf_instructs a : ~ tc (instructs d) a a;
  wf_branches n : In n (d_nodes d) -> n_type n = CONDITION ->
    let ports := map (cfg_str "port" "") (branches (n_config n)) in
    List.NoDup ports /\ ~ In (cfg_str "default_port" "default" (n_config n)) ports;
  wf_variables n text ref : In n (d_nodes d) -> n_type n = CONDITION ->
    In text (collect_all_text_fields (n_config n)) -> In ref (extract_var_refs text) ->
    In ref ("trigger" :: "ctx" :: declared_vars d)%string;
  wf_ports x n ports p : has_id d x n -> MULTI_PORT_NODES (n_type n) = Some ports -> In p ports ->
    strategy (n_config n) = "continue"%string \/ exists e, In e (outgoing d x) /\ from_port e = p;
  wf_parallel n : In n (d_nodes d) -> n_type n = PARALLEL -> (2 <= length (outgoing d (n_id n)))%nat;
  wf_join n : In n (d_nodes d) -> n_type n = JOIN ->
    (2 <= length (incoming d (n_id n)))%nat /\
    (join_mode (n_config n) = "all"%string ->
     forall e, In e (incoming d (n_id n)) -> ~ fed_by_condition d (e_from e));
  wf_exprs n s : In n (d_nodes d) -> In (VStr s) (sel_exprs n) -> blank s = true \/ validate s = Ok tt;
  wf_fallback n : In n (d_nodes d) -> strategy (n_config n) = "fallback"%string ->
    let f := cfg_str "fallback_node_id" "" (cfg_dict "on_error" (n_config n)) in
    f <> ""%string /\ f <> n_id n /\ In f (map n_id (d_nodes d));
  wf_refire trig n : ~ refires d trig n;
}.

(** ** One lemma per rule *)

Lemma rule_01_clean d :
  clean (rule_01_single_trigger d) <-> exists t, triggers d = [t] /\ n_id t = d_entry d.
Proof.
  unfold rule_01_single_trigger, plain_issue. destruct (triggers d) as [|t ts].
  - split; [intros H; by apply clean_error in H|by intros (t & [=] & _)].
  - rewrite clean_app, clean_map_error, clean_if_not, String.eqb_eq by done. naive_solver.
Qed.

Lemma rule_02_clean d :
  clean (rule_02_unique_ids d) <->
  List.NoDup (map n_id (d_nodes d)) /\ List.NoDup (map e_id (d_edges d)).
Proof.
  unfold rule_02_unique_ids. rewrite clean_app, !clean_map_error, !repeats_nodup by done. naive_solver.
Qed.

Lemma edge_issues_clean d e :
  clean (edge_issues d e) <->
  (exists n, has_id d (e_from e) n /\ n_type n <> END /\
     (allowed_ports n = [] \/ In (from_port e) (allowed_ports n))) /\
  (exists n, has_id d (e_to e) n).
Proof.
  unfold edge_issues, has_id, edge_issue. rewrite !clean_app.
  destruct (nodes_by_id d !! e_to e) as [m|].
  2: { split; [intros (_ & H & _); by apply clean_error in H|by intros [_ (? & [=])]]. }
  destruct (nodes_by_id d !! e_from e) as [n|].
  2: { split; [intros (H & _); by apply clean_error in H|by intros [(? & [=] & _) _]]. }
  destruct (is_type END n) eqn:Et.
  { apply is_type_spec in Et. split; [intros (_ & _ & H); by apply clean_error in H|].
    by intros [(? & [= <-] & ? & _) _]. }
  apply is_type_false in Et. destruct (allowed_ports n) as [|p ports] eqn:Ep.
  { split; [intros _|intros _; repeat constructor]. split; [|by exists m].
    exists n. split; [done|]. split; [done|]. by left. }
  rewrite clean_if_not, mem_spec. split.
  - intros (_ & _ & H). split; [|by exists m]. exists n. split; [done|]. split; [done|]. right. by rewrite Ep.
  - intros [(? & [= <-] & _ & [H|H]) _]; (split; [constructor|split; [constructor|]]);
      [congruence|by rewrite <- Ep].
Qed.

Lemma allowed_ports_nonempty n : n_type n <> END -> allowed_ports n <> [].
Proof.
  unfold allowed_ports. intros H. destruct (is_type CONDITION n) eqn:E.
  - by destruct (map _ _).
  - apply is_type_false in E. by destruct (n_type n).
Qed.

Lemma rule_03_go_clean d seen es :
  clean (rule_03_go d seen es) <->
  (forall e, In e es -> clean (edge_issues d e)) /\ List.NoDup (map triple es) /\
  forall t, In t (map triple es) -> ~ t ∈ seen.
Proof.
  revert seen. induction es as [|e es IH]; intros seen; simpl; [split; [|intros; constructor]|].
  { split; [done|]. split; [constructor|done]. }
  rewrite !clean_app, IH, List.NoDup_cons_iff. case_decide as Hd.
  - split; [intros (_ & H & _); by apply clean_error in H|naive_solver].
  - setoid_rewrite not_elem_of_cons. split.
    + intros (H1 & _ & H2 & H3 & H4). split; [naive_solver|]. split; [split; [|done]|].
      * intros Hin. by destruct (H4 _ Hin).
      * intros t [<-|Ht]; [done|]. by apply H4.
    + intros (H1 & (H2 & H3) & H4). split; [auto|]. split; [constructor|]. split; [auto|]. split; [done|].
      intros t Ht. split; [by intros ->|auto].
Qed.

Lemma rule_03_clean d :
  clean (rule_03_edges_valid d) <->
  (forall e, In e (d_edges d) ->
     (exists n, has_id d (e_from e) n /\ n_type n <> END /\ In (from_port e) (allowed_ports n)) /\
     (exists n, has_id d (e_to e) n)) /\
  List.NoDup (map triple (d_edges d)).
Proof.
  unfold rule_03_edges_valid. rewrite rule_03_go_clean. setoid_rewrite edge_issues_clean. split.
  - intros (H1 & H2 & _). split; [|done]. intros e He.
    destruct (H1 e He) as [(n & Hn & Ht & Hp) Hto]. split; [|done].
    exists n. split; [done|]. split; [done|]. destruct Hp as [Hp|]; [|done].
    by apply allowed_ports_nonempty in Ht.
  - intros [H1 H2]. split; [|split; [done|intros t _; apply not_elem_of_nil]].
    intros e He. destruct (H1 e He) as [(n & Hn & Ht & Hp) Hto]. eauto 10.
Qed.

Lemma rule_04_clean d :
  In (d_entry d) (node_ids d) ->
  clean (rule_04_reachability d) <->
  forall x, In x (node_ids d) -> reach (arrows_of d) (d_entry d) x.
Proof.
  intros Hentry. unfold rule_04_reachability, node_issue.
  apply known_node in Hentry as (n & ->). rewrite clean_flat_map.
  setoid_rewrite clean_if. split; intros H x Hx; specialize (H x Hx).
  - rewrite andb_false_iff, !negb_false_iff in H.
    destruct H as [->%String.eqb_eq|H%bool_decide_eq_true]; [apply rtc_refl|by apply reachable_spec].
  - apply reachable_spec in H. rewrite (bool_decide_true _ H). apply andb_false_r.
Qed.

(** A node that rule 5 lets pass. *)
Definition terminates (d : definition) (x : string) : Prop :=
  reaches_end d x \/ exists n, has_id d x n /\ n_type n = WAIT_FOR_EVENT /\ outgoing d x = [].

Lemma end_reaches d x : x ∈ end_nodes d -> reaches_end d x.
Proof. intros H. exists x. split; [done|apply rtc_refl]. Qed.

Lemma outgoing_nil_spec d x :
  match outgoing d x with [] => true | _ => false end = true <-> outgoing d x = [].
Proof. by destruct (outgoing d x). Qed.

Lemma stuck_issue_spec d x :
  match stuck_issue d x with
  | Ok l => In x (node_ids d) /\ (clean l <-> terminates d x)
  | Raise e => e = KeyError /\ ~ In x (node_ids d)
  | NoFuel => False
  end.
Proof.
  unfold stuck_issue, node_issue, terminates, has_id. case_bool_decide as H1.
  { apply end_reaches in H1. split; [by apply reaches_end_known|]. split; [by left|constructor]. }
  case_bool_decide as H2.
  { apply can_reach_end_spec in H2. split; [by apply reaches_end_known|]. split; [by left|constructor]. }
  destruct (nodes_by_id d !! x) as [n|] eqn:E.
  2: { split; [done|]. intros (n & Hn)%known_node. congruence. }
  assert (Hno : ~ reaches_end d x) by (by rewrite <- can_reach_end_spec).
  destruct (is_type WAIT_FOR_EVENT n && _) eqn:Et.
  - apply andb_true_iff in Et as [Et1%is_type_spec Et2%outgoing_nil_spec].
    split; [apply known_node; eauto|]. split; [intros _; right; eauto|repeat constructor].
  - split; [apply known_node; eauto|]. split; [intros H; by apply clean_error in H|].
    intros [?|(m & [= <-] & Ht%is_type_spec & Ho%outgoing_nil_spec)]; [done|].
    rewrite Ht, Ho in Et. discriminate.
Qed.

Lemma mapMr_cases {A B} (f : A -> res B) l :
  (forall x, f x <> NoFuel) ->
  (exists ys, mapMr f l = Ok ys /\ Forall2 (fun x y => f x = Ok y) l ys) \/
  (exists x e, In x l /\ f x = Raise e /\ mapMr f l = Raise e).
Proof.
  intros Hf. induction l as [|x l IH]; simpl; [left; by exists []|].
  destruct (f x) as [y|e|] eqn:E; simpl; [|right; exists x, e; auto|by apply Hf in E].
  destruct IH as [(ys & -> & IH)|(x' & e & Hin & He & ->)]; simpl.
  - left. exists (y :: ys). split; [done|]. by constructor.
  - right. exists x', e. auto.
Qed.

Lemma Forall2_concat_clean {A} (f : A -> res (list LintIssue)) l ys (P : A -> Prop) :
  Forall2 (fun x y => f x = Ok y) l ys ->
  (forall x y, In x l -> f x = Ok y -> (clean y <-> P x)) ->
  clean (concat ys) <-> forall x, In x l -> P x.
Proof.
  induction 1 as [|x y l ys Hxy _ IH]; intros HP; simpl; [split; [intros _ ? []|intros _; constructor]|].
  rewrite clean_app, IH by (intros; apply HP; [by right|done]).
  rewrite (HP x y (or_introl eq_refl) Hxy). naive_solver.
Qed.

Lemma Forall2_In_l {A B} (P : A -> B -> Prop) l ys x :
  Forall2 P l ys -> In x l -> exists y, P x y.
Proof. induction 1; simpl; [done|]. naive_solver. Qed.

Lemma no_end_iff d : end_nodes d = ∅ <-> ~ exists n, In n (d_nodes d) /\ exists x, has_id d x n /\ n_type n = END.
Proof.
  split.
  - intros He (n & Hn & x & Hx & Ht). assert (x ∈ end_nodes d) by (apply end_nodes_spec; eauto). set_solver.
  - intros Hno. apply set_eq. intros x. split; [|set_solver].
    intros (n & Hx & Ht)%end_nodes_spec. exfalso. apply Hno. exists n.
    split; [by apply nodes_by_id_Some in Hx as [? _]|eauto].
Qed.

(** Rule 5 raises exactly when it meets a reachable identifier that no node has; else
    it passes exactly when there is an end and every reachable node terminates. *)
Lemma rule_05_spec d :
  match rule_05_termination d with
  | Ok l => (end_nodes d <> ∅ -> forall x, reach (arrows_of d) (d_entry d) x -> In x (node_ids d)) /\
      (clean l <-> end_nodes d <> ∅ /\ forall x, reach (arrows_of d) (d_entry d) x -> terminates d x)
  | Raise e => e = KeyError /\ end_nodes d <> ∅ /\
      exists x, reach (arrows_of d) (d_entry d) x /\ ~ In x (node_ids d)
  | NoFuel => False
  end.
Proof.
  unfold rule_05_termination. case_bool_decide as He.
  { split; [done|]. split; [intros H; by apply clean_error in H|naive_solver]. }
  assert (Hf : forall x, stuck_issue d x <> NoFuel).
  { intros x. pose proof (stuck_issue_spec d x) as H. by destruct (stuck_issue d x). }
  assert (Hel : forall x, In x (elements (reachable d)) <-> reach (arrows_of d) (d_entry d) x).
  { intros x. by rewrite <- list_elem_of_In, elem_of_elements, reachable_spec. }
  destruct (mapMr_cases (stuck_issue d) (elements (reachable d)) Hf)
    as [(ys & -> & H)|(x & e & Hx & Hxe & ->)]; simpl.
  - split.
    + intros _ x Hx%Hel. destruct (Forall2_In_l _ _ _ _ H Hx) as (y & Hy).
      pose proof (stuck_issue_spec d x) as Hs. rewrite Hy in Hs. apply Hs.
    + rewrite (Forall2_concat_clean (stuck_issue d) _ ys (terminates d) H).
      * setoid_rewrite Hel. naive_solver.
      * intros x y _ Hy. pose proof (stuck_issue_spec d x) as Hs. rewrite Hy in Hs. apply Hs.
  - pose proof (stuck_issue_spec d x) as Hs. rewrite Hxe in Hs. destruct Hs as [-> Hs].
    split; [done|]. split; [done|]. exists x. split; [by apply Hel|done].
Qed.

Lemma rule_06_clean d s :
  clean (rule_06_agents_exist d s) <->
  forall n a, In n (d_nodes d) -> In a (collect_agent_ids n) -> a ∈ s.
Proof.
  unfold rule_06_agents_exist, node_issue. rewrite clean_flat_map.
  setoid_rewrite clean_flat_map. setoid_rewrite clean_if_not.
  setoid_rewrite bool_decide_eq_true. naive_solver.
Qed.

Lemma names_missing_false k c s :
  names_missing k c s = false <-> cfg_str k "" c = ""%string \/ cfg_str k "" c ∈ s.
Proof.
  unfold names_missing. rewrite andb_false_iff, !negb_false_iff, String.eqb_eq, bool_decide_eq_true. done.
Qed.

Lemma rule_08_clean d s :
  clean (rule_08_chatroom_scope d s) <->
  forall n c, In n (d_nodes d) -> In c ["chatroom_id"; "target_chatroom_id"]%string ->
    cfg_str c "" (n_config n) = ""%string \/ cfg_str c "" (n_config n) ∈ s.
Proof.
  unfold rule_08_chatroom_scope, node_issue. rewrite clean_flat_map.
  setoid_rewrite clean_flat_map. setoid_rewrite clean_if.
  setoid_rewrite names_missing_false. naive_solver.
Qed.

Lemma clean_type t n l : clean (if is_type t n then l else []) <-> (n_type n = t -> clean l).
Proof.
  destruct (is_type t n) eqn:E; [apply is_type_spec in E|apply is_type_false in E]; [tauto|].
  split; [done|intros _; constructor].
Qed.

Lemma rule_09_clean d s :
  clean (rule_09_subagent_depth d s) <->
  forall n, In n (d_nodes d) -> n_type n = SUBAGENT_SPAWN ->
    cfg_str "parent_agent_id" "" (n_config n) = ""%string \/ cfg_str "parent_agent_id" "" (n_config n) ∉ s.
Proof.
  unfold rule_09_subagent_depth, node_issue. rewrite clean_flat_map.
  setoid_rewrite clean_type. setoid_rewrite clean_if.
  setoid_rewrite andb_false_iff. setoid_rewrite negb_false_iff.
  setoid_rewrite String.eqb_eq. setoid_rewrite bool_decide_eq_false. done.
Qed.

Lemma instruct_arrow d a b : arrow (instruct_arrows d) a b <-> instructs d a b.
Proof.
  unfold arrow, instruct_arrows, instructs. rewrite in_flat_map. split.
  - intros (n & Hn & H). exists n. destruct (is_type INSTRUCT n) eqn:Et; [|done].
    apply is_type_spec in Et. destruct (negb _ && _) eqn:Eb; [|done].
    rewrite andb_true_iff, !negb_true_iff, !String.eqb_neq in Eb. destruct H as [[= <- <-]|[]]. tauto.
  - intros (n & Hn & Ht & Ha & Hb & Ea & Eb). exists n. split; [done|]. subst a b.
    apply is_type_spec in Ht. rewrite Ht. apply String.eqb_neq in Ha, Hb. rewrite Ha, Hb. by left.
Qed.

Lemma tc_instructs d a b : reach1 (instruct_arrows d) a b <-> tc (instructs d) a b.
Proof.
  split; induction 1 as [x y H|x y z H _ IH];
    (apply instruct_arrow in H || apply (instruct_arrow d) in H);
    [by apply tc_once|by eapply tc_l|by apply tc_once|by eapply tc_l].
Qed.

Lemma rule_10_clean d : clean (rule_10_instruct_cycle d) <-> forall a, ~ tc (instructs d) a a.
Proof.
  unfold rule_10_instruct_cycle, plain_issue.
  destruct (has_cycle_spec (instruct_arrows d)) as (b & -> & Hb). simpl.
  rewrite clean_if. split.
  - intros -> a Ha. apply tc_instructs in Ha. enough (false = true) by done. apply Hb. eauto.
  - intros H. destruct b; [|done]. destruct (proj1 Hb eq_refl) as (z & Hz). apply tc_instructs in Hz.
    by apply H in Hz.
Qed.

Lemma branch_issues_clean nid dp seen ports :
  clean (branch_issues nid dp seen ports) <->
  List.NoDup ports /\ ~ In dp ports /\ forall p, In p ports -> ~ In p seen.
Proof.
  unfold node_issue. revert seen. induction ports as [|p ports IH]; intros seen; simpl.
  { split; [|intros _; constructor]. split; [constructor|]. split; [|done]. intros []. }
  rewrite !clean_app, IH, List.NoDup_cons_iff. unfold node_issue.
  rewrite !clean_if, mem_false, String.eqb_neq. simpl. naive_solver.
Qed.

Lemma rule_11_clean d :
  clean (rule_11_condition_branches d) <->
  forall n, In n (d_nodes d) -> n_type n = CONDITION ->
    List.NoDup (map (cfg_str "port" "") (branches (n_config n))) /\
    ~ In (cfg_str "default_port" "default" (n_config n)) (map (cfg_str "port" "") (branches (n_config n))).
Proof.
  unfold rule_11_condition_branches. rewrite clean_flat_map.
  setoid_rewrite clean_type. setoid_rewrite branch_issues_clean.
  split; intros H n Hn Ht; destruct (H n Hn Ht) as [H1 H2]; [by destruct H2|].
  split; [done|]. split; [done|]. intros p _ [].
Qed.

Lemma clean_level (t : bool) n : clean [node_issue 12 (if t then error else warning) n] <-> t = false.
Proof.
  unfold node_issue. destruct t; [|split; [done|repeat constructor]].
  split; [intros H; by apply clean_error in H|done].
Qed.

Lemma rule_12_clean d :
  clean (rule_12_variable_references d) <->
  forall n text ref, In n (d_nodes d) -> n_type n = CONDITION ->
    In text (collect_all_text_fields (n_config n)) -> In ref (extract_var_refs text) ->
    In ref ("trigger" :: "ctx" :: declared_vars d)%string.
Proof.
  unfold rule_12_variable_references. rewrite clean_flat_map.
  setoid_rewrite clean_flat_map. setoid_rewrite clean_flat_map.
  assert (Hone : forall n ref, clean (if String.eqb ref "trigger" || String.eqb ref "ctx" then []
      else if mem ref (declared_vars d) then []
      else [node_issue 12 (if is_type CONDITION n then error else warning) (n_id n)]) <->
    (n_type n = CONDITION -> In ref ("trigger" :: "ctx" :: declared_vars d)%string)).
  { intros n ref. simpl. destruct (String.eqb_spec ref "trigger") as [->|H1]; simpl.
    { split; [auto|intros _; constructor]. }
    destruct (String.eqb_spec ref "ctx") as [->|H2]; simpl.
    { split; [auto|intros _; constructor]. }
    destruct (mem ref (declared_vars d)) eqn:E.
    { apply mem_spec in E. split; [auto|intros _; constructor]. }
    apply mem_false in E. rewrite clean_level, is_type_false. split; [tauto|].
    intros H Ht. destruct (H Ht) as [|[|]]; congruence. }
  setoid_rewrite Hone. naive_solver.
Qed.

Lemma rule_13_clean d :
  clean (rule_13_port_coverage d) <->
  forall x n ports p, has_id d x n -> MULTI_PORT_NODES (n_type n) = Some ports -> In p ports ->
    strategy (n_config n) = "continue"%string \/ exists e, In e (outgoing d x) /\ from_port e = p.
Proof.
  unfold rule_13_port_coverage, node_issue, has_id. rewrite clean_flat_map.
  assert (Hone : forall x n p, clean (if negb (mem p (map from_port (outgoing d x)))
      && negb (String.eqb (strategy (n_config n)) "continue") then [mkIssue 13 error (Some x) None] else []) <->
    (strategy (n_config n) = "continue"%string \/ exists e, In e (outgoing d x) /\ from_port e = p)).
  { intros x n p. rewrite clean_if, andb_false_iff, !negb_false_iff, String.eqb_eq, mem_spec, in_map_iff.
    naive_solver. }
  split.
  - intros H x n ports p Hx Hm Hp. specialize (H x). rewrite Hx, Hm in H.
    rewrite clean_flat_map in H. apply (Hone x n p). apply H; [|done]. apply known_node. eauto.
  - intros H x _. destruct (nodes_by_id d !! x) as [n|] eqn:Hx; [|constructor].
    destruct (MULTI_PORT_NODES (n_type n)) as [ports|] eqn:Hm; [|constructor].
    apply clean_flat_map. intros p Hp. apply Hone. eauto.
Qed.

(** *** Rule 14 *)

(** [fed_by_condition] in a given number of steps, which the chain determines. *)
Inductive fed_in (d : definition) : nat -> string -> Prop :=
  | fed_in_0 x n : x <> ""%string -> has_id d x n -> n_type n = CONDITION -> fed_in d 0 x
  | fed_in_S k x n e : x <> ""%string -> has_id d x n -> n_type n <> CONDITION ->
      incoming d x = [e] -> fed_in d k (e_from e) -> fed_in d (S k) x.

Lemma fed_by_condition_in d x : fed_by_condition d x <-> exists k, fed_in d k x.
Proof.
  split.
  - induction 1 as [x n Hx Hn Ht|x n e Hx Hn Hi _ [k IH]]; [exists 0%nat; by econstructor|].
    destruct (decide (n_type n = CONDITION)); [exists 0%nat|exists (S k)]; by econstructor.
  - intros [k H]. induction H; [by eapply fed_here|by eapply fed_back].
Qed.

Lemma fed_in_unique d k x : fed_in d k x -> forall k', fed_in d k' x -> k = k'.
Proof.
  unfold has_id. induction 1 as [x n Hx Hn Ht|k x n e Hx Hn Ht Hi _ IH]; intros k' H';
    inversion H'; subst; try congruence.
  f_equal. apply IH. congruence.
Qed.

Lemma feeding_condition_spec fuel d cursor visited :
  List.NoDup visited -> incl visited (map e_from (d_edges d)) -> In cursor (map e_from (d_edges d)) ->
  (length (d_edges d) < fuel + length visited)%nat ->
  (forall k, fed_in d k cursor -> forall v, In v visited -> exists k', (k < k')%nat /\ fed_in d k' v) ->
  exists r, feeding_condition fuel d cursor visited = Some r /\
    (r <> None <-> fed_by_condition d cursor).
Proof.
  revert cursor visited. induction fuel as [|fuel IH]; intros cursor visited Hnd Hincl Hcur Hf Hv.
  { exfalso. pose proof (List.NoDup_incl_length Hnd Hincl) as H. rewrite length_map in H. lia. }
  simpl. destruct (String.eqb_spec cursor "") as [->|Hne]; simpl.
  { exists None. split; [done|]. split; [done|]. intros H. inversion H; congruence. }
  destruct (mem cursor visited) eqn:Hm.
  { exists None. split; [done|]. split; [done|]. intros [k Hk]%fed_by_condition_in.
    apply mem_spec in Hm. destruct (Hv k Hk _ Hm) as (k' & Hlt & Hk').
    pose proof (fed_in_unique _ _ _ Hk _ Hk'). lia. }
  apply mem_false in Hm. destruct (nodes_by_id d !! cursor) as [n|] eqn:Hn.
  2: { exists None. split; [done|]. split; [done|]. unfold has_id in *.
       intros H. inversion H; unfold has_id in *; congruence. }
  destruct (is_type CONDITION n) eqn:Et.
  { apply is_type_spec in Et. exists (Some (n_id n)). split; [done|]. split; [|done].
    intros _. by eapply fed_here. }
  apply is_type_false in Et.
  destruct (incoming d cursor) as [|e [|e' l]] eqn:Hi.
  1,3: exists None; split; [done|]; split; [done|]; intros H; inversion H; unfold has_id in *; congruence.
  assert (He : In e (incoming d cursor)) by (rewrite Hi; by left). apply incoming_In in He as [He _].
  assert (Hstep : forall k, fed_in d k (e_from e) -> fed_in d (S k) cursor) by (intros; by econstructor).
  destruct (IH (e_from e) (cursor :: visited)) as (r & Hr & Hspec).
  - by constructor.
  - intros x [<-|Hx]; auto.
  - by apply in_map.
  - simpl. lia.
  - intros k Hk v [<-|Hin]; [exists (S k); eauto|].
    destruct (Hv (S k) (Hstep k Hk) v Hin) as (k' & ? & ?). exists k'. split; [lia|done].
  - exists r. split; [done|]. rewrite Hspec, !fed_by_condition_in. split; [intros [k Hk]; eauto|].
    intros [k Hk]. inversion Hk as [|k0 ? m e0]; subst; unfold has_id in *; [congruence|].
    exists k0. congruence.
Qed.

Lemma join_feed d nid e :
  In e (incoming d nid) ->
  exists r, feeding_condition (S (length (d_edges d))) d (e_from e) [] = Some r /\
    (r <> None <-> fed_by_condition d (e_from e)).
Proof.
  intros [He _]%incoming_In. apply feeding_condition_spec; simpl.
  - constructor.
  - intros ? [].
  - by apply in_map.
  - lia.
  - intros k _ v [].
Qed.

Lemma rule_14_clean d :
  clean (rule_14_parallel_join d) <->
  (forall n, In n (d_nodes d) -> n_type n = PARALLEL -> (2 <= length (outgoing d (n_id n)))%nat) /\
  (forall n, In n (d_nodes d) -> n_type n = JOIN ->
    (2 <= length (incoming d (n_id n)))%nat /\
    (join_mode (n_config n) = "all"%string ->
     forall e, In e (incoming d (n_id n)) -> ~ fed_by_condition d (e_from e))).
Proof.
  assert (Hjoin : forall n, clean (if String.eqb (join_mode (n_config n)) "all" then
         flat_map (fun e =>
           match default None (feeding_condition (S (length (d_edges d))) d (e_from e) []) with
           | Some _ => [node_issue 14 error (n_id n)]
           | None => []
           end) (incoming d (n_id n)) else []) <->
     (join_mode (n_config n) = "all"%string ->
      forall e, In e (incoming d (n_id n)) -> ~ fed_by_condition d (e_from e))).
  { intros n. destruct (String.eqb_spec (join_mode (n_config n)) "all") as [->|Hne];
      [|split; [done|intros _; constructor]].
    rewrite clean_flat_map. split.
    - intros H _ e He. specialize (H e He). destruct (join_feed d (n_id n) e He) as (r & Hr & Hspec).
      rewrite Hr in H. simpl in H. destruct r; [by apply clean_error in H|].
      intros Hfed. by apply Hspec in Hfed.
    - intros H e He. specialize (H eq_refl e He). destruct (join_feed d (n_id n) e He) as (r & Hr & Hspec).
      rewrite Hr. simpl. destruct r; [|constructor]. exfalso. apply H. by apply Hspec. }
  unfold rule_14_parallel_join. rewrite clean_flat_map.
  split.
  - intros H. split; intros n Hn Ht; specialize (H n Hn); apply is_type_spec in Ht as Ht'.
    + cbn zeta in H. rewrite Ht' in H. unfold node_issue in H. rewrite clean_if in H.
      apply Nat.ltb_ge in H. done.
    + cbn zeta in H. replace (is_type PARALLEL n) with false in H
        by (symmetry; apply is_type_false; congruence).
      rewrite Ht', clean_app, Hjoin in H. unfold node_issue in H. rewrite clean_if in H.
      destruct H as [H%Nat.ltb_ge ?]. done.
  - intros [H1 H2] n Hn. cbn zeta. destruct (is_type PARALLEL n) eqn:Ep.
    + apply is_type_spec in Ep. unfold node_issue. apply clean_if, Nat.ltb_ge. auto.
    + rewrite clean_type. intros Ej. rewrite clean_app, Hjoin. unfold node_issue.
      rewrite clean_if, Nat.ltb_ge. auto.
Qed.

(** *** Rules 15 to 17 *)

Lemma expr_issues_spec nid v :
  match expr_issues nid v with
  | Ok l => clean l <-> forall s, v = VStr s -> blank s = true \/ validate s = Ok tt
  | Raise e => (e = ValueError \/ e = OverflowError) /\
      exists s, v = VStr s /\ blank s = false /\ validate s = Raise e
  | NoFuel => False
  end.
Proof.
  destruct v as [| | | |s| |]; try (split; [done|intros _; constructor]). simpl.
  destruct (blank s) eqn:Eb; [split; [intros _ ? [= <-]; by left|intros _; constructor]|].
  assert (Hbad : forall e, validate s = Raise e ->
    clean [node_issue 15 error nid] <-> forall s0, VStr s = VStr s0 -> blank s0 = true \/ validate s0 = Ok tt).
  { intros e He. split; [intros H; by apply clean_error in H|].
    intros H. destruct (H s eq_refl); congruence. }
  destruct (validate_cases s) as [Hv|(e & Hv & He)]; rewrite Hv.
  - split; [intros _ ? [= <-]; by right|intros _; constructor].
  - unfold parse_error in He. destruct He as [[-> | [-> | [-> | ->]]] | ->]; try (by eapply Hbad).
    all: split; [auto|]; exists s; by rewrite Eb.
Qed.

Definition bad_expr (d : definition) (e : exn) : Prop :=
  exists n s, In n (d_nodes d) /\ In (VStr s) (sel_exprs n) /\ blank s = false /\ validate s = Raise e.

Lemma expr_issues_fuel nid v : expr_issues nid v <> NoFuel.
Proof. intros H. pose proof (expr_issues_spec nid v) as Hs. by rewrite H in Hs. Qed.

Lemma node_exprs_spec n :
  match (ls ← mapMr (expr_issues (n_id n)) (sel_exprs n); Ok (concat ls)) with
  | Ok l => clean l <-> forall s, In (VStr s) (sel_exprs n) -> blank s = true \/ validate s = Ok tt
  | Raise e => (e = ValueError \/ e = OverflowError) /\
      exists s, In (VStr s) (sel_exprs n) /\ blank s = false /\ validate s = Raise e
  | NoFuel => False
  end.
Proof.
  destruct (mapMr_cases (expr_issues (n_id n)) (sel_exprs n) (expr_issues_fuel (n_id n)))
    as [(ys & -> & H)|(x & e & Hx & Hxe & ->)]; simpl.
  - rewrite (Forall2_concat_clean (expr_issues (n_id n)) _ ys
      (fun v => forall s, v = VStr s -> blank s = true \/ validate s = Ok tt) H).
    + split; [intros Hall s Hs; by apply (Hall (VStr s))|intros Hall v Hv s ->; by apply Hall].
    + intros v y _ Hy. pose proof (expr_issues_spec (n_id n) v) as Hs. by rewrite Hy in Hs.
  - pose proof (expr_issues_spec (n_id n) x) as Hs. rewrite Hxe in Hs.
    destruct Hs as [He (s & -> & Hb & Hv)]. split; [done|]. by exists s.
Qed.

Lemma rule_15_spec d :
  match rule_15_sel_expressions d with
  | Ok l => clean l <-> forall n s, In n (d_nodes d) -> In (VStr s) (sel_exprs n) ->
      blank s = true \/ validate s = Ok tt
  | Raise e => (e = ValueError \/ e = OverflowError) /\ bad_expr d e
  | NoFuel => False
  end.
Proof.
  unfold rule_15_sel_expressions.
  set (f := fun n => ls ← mapMr (expr_issues (n_id n)) (sel_exprs n); Ok (concat ls)).
  assert (Hf : forall n, f n <> NoFuel).
  { intros n Hn. pose proof (node_exprs_spec n) as Hs. fold (f n) in Hs. by rewrite Hn in Hs. }
  destruct (mapMr_cases f (d_nodes d) Hf) as [(ys & -> & H)|(n & e & Hn & Hne & ->)]; simpl.
  - rewrite (Forall2_concat_clean f _ ys
      (fun n => forall s, In (VStr s) (sel_exprs n) -> blank s = true \/ validate s = Ok tt) H).
    + naive_solver.
    + intros n y _ Hy. pose proof (node_exprs_spec n) as Hs. fold (f n) in Hs. by rewrite Hy in Hs.
  - pose proof (node_exprs_spec n) as Hs. fold (f n) in Hs. rewrite Hne in Hs.
    destruct Hs as [He (s & Hs & Hb & Hv)]. split; [done|]. by exists n, s.
Qed.

Lemma rule_16_clean d :
  clean (rule_16_fallback_node_exists d) <->
  forall n, In n (d_nodes d) -> strategy (n_config n) = "fallback"%string ->
    let f := cfg_str "fallback_node_id" "" (cfg_dict "on_error" (n_config n)) in
    f <> ""%string /\ f <> n_id n /\ In f (map n_id (d_nodes d)).
Proof.
  unfold rule_16_fallback_node_exists. rewrite clean_flat_map.
  assert (Hone : forall n, clean (if negb (String.eqb (strategy (n_config n)) "fallback") then []
    else let fid := cfg_str "fallback_node_id" "" (cfg_dict "on_error" (n_config n)) in
      if String.eqb fid "" then [node_issue 16 error (n_id n)]
      else if String.eqb fid (n_id n) then [node_issue 16 error (n_id n)]
      else if negb (mem fid (map n_id (d_nodes d))) then [node_issue 16 error (n_id n)]
      else []) <-> (strategy (n_config n) = "fallback"%string ->
    let f := cfg_str "fallback_node_id" "" (cfg_dict "on_error" (n_config n)) in
    f <> ""%string /\ f <> n_id n /\ In f (map n_id (d_nodes d)))).
  { intros n. cbn zeta. unfold node_issue.
    destruct (String.eqb_spec (strategy (n_config n)) "fallback") as [Hs|Hs]; cbn [negb].
    2: { split; [intros _ ?; contradiction|intros _; constructor]. }
    destruct (String.eqb_spec (cfg_str "fallback_node_id" "" (cfg_dict "on_error" (n_config n))) "").
    { split; [intros H; by apply clean_error in H|intros H; by destruct (H Hs)]. }
    destruct (String.eqb_spec (cfg_str "fallback_node_id" "" (cfg_dict "on_error" (n_config n))) (n_id n)).
    { split; [intros H; by apply clean_error in H|intros H; by destruct (H Hs) as (_ & ? & _)]. }
    rewrite clean_if, negb_false_iff, mem_spec. tauto. }
  setoid_rewrite Hone. done.
Qed.

Lemma rule_17_clean d :
  clean (rule_17_a2a_trigger_self_cycle d) <-> forall trig n, ~ refires d trig n.
Proof.
  unfold rule_17_a2a_trigger_self_cycle, refires. rewrite clean_flat_map. split.
  - intros H trig n (Ht & Hn & Ha & key & em & Hem & Hk & Hin). specialize (H trig Ht). cbn zeta in H.
    apply String.eqb_neq in Ha. rewrite Ha in H.
    destruct (str_items (cfg_list "event_types" (n_config trig))) as [|t ts] eqn:Et; [done|].
    rewrite clean_flat_map in H. specialize (H n Hn). rewrite Hem, Hk, String.eqb_refl in H.
    apply mem_spec in Hin. rewrite Hin in H. by apply clean_error in H.
  - intros H trig Ht. cbn zeta.
    destruct (String.eqb_spec (cfg_str "agent_id" "" (n_config trig)) "") as [|Ha]; [constructor|].
    destruct (str_items (cfg_list "event_types" (n_config trig))) as [|t ts] eqn:Et; [constructor|].
    apply clean_flat_map. intros n Hn. destruct (A2A_EMIT (n_type n)) as [[key em]|] eqn:Hem; [|constructor].
    unfold node_issue. apply clean_if. apply not_true_iff_false.
    intros [Hk%String.eqb_eq Hin%mem_spec]%andb_true_iff. apply (H trig n).
    split; [done|]. split; [done|]. split; [done|]. exists key, em. split; [done|]. split; [done|]. by rewrite Et.
Qed.

Lemma clean_warnings d a b c : clean (advisory_warnings d a b c).
Proof.
  unfold advisory_warnings. rewrite !clean_app. split; [|split].
  - apply clean_flat_map. intros v _. case_match; repeat constructor.
  - apply clean_flat_map. intros n _. unfold node_warnings. rewrite !clean_app.
    repeat split; try apply clean_warn. case_match; [|constructor].
    apply clean_flat_map. intros; apply clean_warn.
  - case_match; repeat constructor.
Qed.

(** ** The verdict *)

Lemma end_nodes_nonempty d : List.NoDup (map n_id (d_nodes d)) ->
  end_nodes d <> ∅ <-> exists n, In n (d_nodes d) /\ n_type n = END.
Proof.
  intros Hnd. rewrite no_end_iff. split.
  - intros H. destruct (List.find (is_type END) (d_nodes d)) as [n|] eqn:E.
    + apply List.find_some in E as [Hn Ht%is_type_spec]. eauto.
    + exfalso. apply H. intros (n & Hn & x & _ & Ht).
      pose proof (List.find_none _ _ E n Hn) as Hf. apply is_type_false in Hf. done.
  - intros (n & Hn & Ht) H. apply H. exists n. split; [done|]. exists (n_id n).
    split; [by apply nodes_by_id_unique|done].
Qed.

Lemma entry_known d t : triggers d = [t] -> n_id t = d_entry d -> In (d_entry d) (node_ids d).
Proof.
  intros Ht <-. apply node_ids_In, in_map.
  assert (H : In t (triggers d)) by (rewrite Ht; by left). by apply filter_In in H as [? _].
Qed.

(** The rules that only see the graph: what rules 1, 4 and 5 say together. *)
Lemma graph_rules d r5 :
  List.NoDup (map n_id (d_nodes d)) ->
  (exists t, triggers d = [t] /\ n_id t = d_entry d) ->
  rule_05_termination d = Ok r5 ->
  (clean (rule_04_reachability d) /\ clean r5) <->
  (forall x, In x (node_ids d) -> reach (arrows_of d) (d_entry d) x) /\
  (exists n, In n (d_nodes d) /\ n_type n = END) /\
  (forall x n, has_id d x n -> reaches_end d x \/ (n_type n = WAIT_FOR_EVENT /\ outgoing d x = [])).
Proof.
  intros Hnd (t & Ht & He) H5. pose proof (rule_05_spec d) as Hs. rewrite H5 in Hs.
  destruct Hs as [Hknown Hclean].
  rewrite rule_04_clean by (by eapply entry_known). rewrite Hclean, (end_nodes_nonempty d Hnd).
  split.
  - intros (H4 & Hend & Hterm). split; [done|]. split; [done|]. intros x n Hx.
    assert (Hin : In x (node_ids d)) by (apply known_node; eauto).
    destruct (Hterm x (H4 x Hin)) as [?|(m & Hm & Hw)]; [by left|right].
    unfold has_id in *. rewrite Hx in Hm. by injection Hm as <-.
  - intros (H4 & Hend & Hterm). split; [done|]. split; [done|]. intros x Hx.
    assert (Hin : In x (node_ids d)).
    { apply Hknown; [by apply end_nodes_nonempty|done]. }
    apply known_node in Hin as (n & Hn). destruct (Hterm x n Hn) as [?|?]; [by left|right]. by exists n.
Qed.

Definition blocking_rules (d : definition) (k : Lookups) (r5 r15 : list LintIssue) : Prop :=
  clean (rule_01_single_trigger d) /\ clean (rule_02_unique_ids d) /\ clean (rule_03_edges_valid d) /\
  (clean (rule_04_reachability d) /\ clean r5) /\
  clean (rule_06_agents_exist d (valid_agent_ids k)) /\
  clean (rule_08_chatroom_scope d (valid_chatroom_ids k)) /\
  clean (rule_09_subagent_depth d (subagent_parent_ids k)) /\
  clean (rule_10_instruct_cycle d) /\ clean (rule_11_condition_branches d) /\
  clean (rule_12_variable_references d) /\ clean (rule_13_port_coverage d) /\
  clean (rule_14_parallel_join d) /\ clean r15 /\ clean (rule_16_fallback_node_exists d) /\
  clean (rule_17_a2a_trigger_self_cycle d).

Lemma blocking_rules_wellformed d k r5 r15 :
  rule_05_termination d = Ok r5 -> rule_15_sel_expressions d = Ok r15 ->
  blocking_rules d k r5 r15 <-> wellformed d k.
Proof.
  intros H5 H15. unfold blocking_rules. pose proof (rule_15_spec d) as Hs15. rewrite H15 in Hs15.
  rewrite rule_01_clean, rule_02_clean, rule_03_clean, rule_06_clean, rule_08_clean, rule_09_clean,
    rule_10_clean, rule_11_clean, rule_12_clean, rule_13_clean, rule_14_clean, Hs15, rule_16_clean,
    rule_17_clean.
  split.
  - intros (H1 & [H2 H2'] & [H3 H3'] & H45 & H6 & H8 & H9 & H10 & H11 & H12 & H13 & [H14 H14'] & Hx & H16 & H17).
    apply (graph_rules d r5 H2 H1 H5) in H45 as (Hr & He & Ht). by constructor.
  - intros []. split; [done|]. split; [done|]. split; [done|].
    split; [by apply (graph_rules d r5)|]. done.
Qed.

(** ** Properties *)

(** C34. The linter accepts exactly the well-formed definitions: when it gives a
    verdict, the verdict is valid if and only if the definition satisfies the
    specification [wellformed], and the lists it returns are the errors (none for a
    valid definition) and the warnings. *)
Theorem validate_iff_wellformed d k r :
  validate_definition d k = Ok r ->
  (valid r = true <-> wellformed d k) /\ (valid r = true <-> errors r = []) /\
  Forall (fun i => is_error i = true) (errors r) /\ clean (warnings r).
Proof.
  unfold validate_definition. intros (r5 & H5 & (r15 & H15 & [= <-])%bind_Ok)%bind_Ok. simpl.
  set (all := _ ++ _ : list LintIssue).
  assert (Hwf : List.filter is_error all = [] <-> wellformed d k).
  { rewrite <- (blocking_rules_wellformed d k r5 r15 H5 H15), <- clean_filter. unfold all, blocking_rules.
    rewrite !clean_app. pose proof (clean_warnings d (can_instruct_agent_ids k)
      (can_approve_agent_ids k) (can_create_subagent_agent_ids k)).
    assert (clean (rule_07_agent_scope d (valid_agent_ids k))) by constructor. tauto. }
  split; [|split; [|split]].
  - rewrite <- Hwf. by destruct (List.filter is_error all).
  - by destruct (List.filter is_error all).
  - apply List.Forall_forall. intros i Hi. by apply filter_In in Hi as [_ ?].
  - apply List.Forall_forall. intros i Hi. apply filter_In in Hi as [_ Hi]. by apply negb_true_iff in Hi.
Qed.

(** When the linter fails instead of giving a verdict.  It raises [KeyError]
    exactly when there is an end node and the walk from the entry meets an
    identifier that no node has; it raises nothing else than that and the
    [ValueError] or [OverflowError] of an expression's index literal, and always
    terminates. *)
Theorem validate_exceptions d k :
  (validate_definition d k = Raise KeyError <->
     end_nodes d <> ∅ /\ exists x, reach (arrows_of d) (d_entry d) x /\ ~ In x (node_ids d)) /\
  match validate_definition d k with
  | Ok _ => True
  | Raise e => e = KeyError \/ bad_expr d e /\ (e = ValueError \/ e = OverflowError)
  | NoFuel => False
  end.
Proof.
  unfold validate_definition. pose proof (rule_05_spec d) as H5. pose proof (rule_15_spec d) as H15.
  destruct (rule_05_termination d) as [r5|e|]; simpl; [|destruct H5 as (-> & ? & ?)|done].
  - destruct H5 as [Hknown _].
    assert (Hno : ~ (end_nodes d <> ∅ /\ exists x, reach (arrows_of d) (d_entry d) x /\ ~ In x (node_ids d))).
    { intros (He & x & Hx & Hn). apply Hn. by apply Hknown. }
    destruct (rule_15_sel_expressions d) as [r15|e|]; simpl; [|destruct H15 as [He Hb]|done].
    + split; [|done]. split; [discriminate|done].
    + split; [|auto]. split; [|done]. intros [= ->]. by destruct He.
  - split; [|by left]. split; [intros _; auto|done].
Qed.

(** A document with an edge to a node that is not there. *)
Definition dangling : definition :=
  mkDef "start" [mkNode "start" TRIGGER []; mkNode "stop" END []]
    [mkEdge "e1" "start" "stop" None None; mkEdge "e2" "start" "ghost" None None]
    [] None None None.
Definition no_lookups : Lookups := mkLookups ∅ ∅ ∅ ∅ ∅ ∅.

(** Rule 3 would report the edge, but the validator stops with [KeyError] in rule 5. *)
Example dangling_edge_raises :
  validate_definition dangling no_lookups = Raise KeyError /\
  rule_03_edges_valid dangling = [edge_issue 3 "e2"].
Proof. split; vm_compute; reflexivity. Qed.

(** A valid document: a condition that branches to two ends. *)
Definition sample_def : definition :=
  mkDef "start"
    [mkNode "start" TRIGGER [("trigger_type", VStr "manual")];
     mkNode "check" CONDITION [("branches", VList [VDict [("when", VStr "{{ n }} > 3"); ("port", VStr "big")]])];
     mkNode "ok" END [("status", VStr "success")]; mkNode "ko" END [("status", VStr "failure")]]%string
    [mkEdge "e1" "start" "check" None None; mkEdge "e2" "check" "ok" (Some "big") None;
     mkEdge "e3" "check" "ko" (Some "default") None]%string
    [("n", [("type", VStr "number"); ("default", VInt 0)])]%string None None None.

(** Each rule is silent on it, by computation. *)
Lemma sample_wellformed : wellformed sample_def no_lookups.
Proof.
  assert (H5 : rule_05_termination sample_def = Ok []) by (vm_compute; reflexivity).
  assert (H15 : rule_15_sel_expressions sample_def = Ok []) by (vm_compute; reflexivity).
  apply (blocking_rules_wellformed _ _ _ _ H5 H15). unfold blocking_rules. rewrite !clean_filter.
  repeat split; vm_compute; reflexivity.
Qed.

Definition sample_result : ValidationResult := mkResult true [] [].

Lemma validate_iff_wellformed_witness :
  validate_definition sample_def no_lookups = Ok sample_result /\ wellformed sample_def no_lookups.
Proof.
  assert (H : validate_definition sample_def no_lookups = Ok sample_result) by (vm_compute; reflexivity).
  split; [exact H|]. apply (validate_iff_wellformed sample_def no_lookups sample_result H). reflexivity.
Defined.
