(* ===== verification/Join.v ===== *)
(** * The join executor

    [contexts/workflow/application/executors/join.py]: the classification of the
    edges into a join, the Lua script that counts arrivals, and the executor.  A
    Redis key [wf:join:run:node:track:...] is the tuple of its parts (no part holds a
    colon); the keys' 24 hour expiry is not modelled. *)

From S2P Require Import Prelude PyFloat PyValue WorkflowModels Graph.
(** ** Arrivals *)

Definition track_key : Type := string * string * string.  (** run, node, track *)

Record JoinStore := mkJoin {
  js_epoch : gmap track_key Z;
  js_set : gmap (track_key * Z) (gset string);
  js_fired : gset (track_key * Z);
}.

Definition epoch_of (r : JoinStore) (k : track_key) : Z := default 0 (js_epoch r !! k).
Definition arrived (r : JoinStore) (k : track_key) : gset string :=
  default ∅ (js_set r !! (k, epoch_of r k)).
Definition has_fired (r : JoinStore) (k : track_key) : bool :=
  bool_decide ((k, epoch_of r k) ∈ js_fired r).

(** [_JOIN_ARRIVE_LUA]: the number of distinct arrivals and whether this one fires. *)
Definition join_arrive (k : track_key) (branch_id : string) (fire_threshold total_branches : Z)
    (r : JoinStore) : (Z * bool) * JoinStore :=
  let epoch := epoch_of r k in
  let set := {[branch_id]} ∪ arrived r k in
  let arrivals := Z.of_nat (size set) in
  let fires := (fire_threshold <=? arrivals) && negb (has_fired r k) in
  let fired := if fires then {[(k, epoch)]} ∪ js_fired r else js_fired r in
  if total_branches <=? arrivals then
    ((arrivals, fires),
     mkJoin (<[k := epoch + 1]> (js_epoch r)) (delete (k, epoch) (js_set r)) (fired ∖ {[(k, epoch)]}))
  else
    ((arrivals, fires), mkJoin (js_epoch r) (<[(k, epoch) := set]> (js_set r)) fired).

(** ** Incoming edges *)

Definition edge_arrows (es : list edge) : arrows := map (fun e => (e_from e, e_to e)) es.

(** [_classify_incoming_edges]: the number of fan-in edges and the ids of the back
    edges.  The walk never exhausts its fuel: [Graph.reachable1_from_spec]. *)
Definition back_edges (node_id : string) (es : list edge) : list edge :=
  let reachable := default ∅ (reachable1_from (edge_arrows es) node_id) in
  List.filter (fun e => String.eqb (e_to e) node_id && bool_decide (e_from e ∈ reachable)) es.

Definition classify_incoming_edges (node_id : string) (es : list edge) : Z * gset string :=
  let incoming := List.filter (fun e => String.eqb (e_to e) node_id) es in
  let back_edge_ids := list_to_set (map e_id (back_edges node_id es)) : gset string in
  (Z.of_nat (length incoming) - Z.of_nat (size back_edge_ids), back_edge_ids).

(** The track an arrival counts on, its thresholds: [(track, fire, total)]. *)
Definition join_plan (mode : JoinMode) (required_count fan_in_count : Z) (is_reentry : bool)
    : string * Z * Z :=
  if is_reentry then ("pass"%string, 1, 1)
  else
    let total := Z.max fan_in_count 1 in
    ("fan"%string, match mode with ANY => 1 | COUNT => required_count | ALL => total end, total).

Definition join_mode_value (m : JoinMode) : string :=
  match m with ALL => "all" | ANY => "any" | COUNT => "count" end.

(** The id an arrival is counted under. *)
Definition branch_of (ctx : RunContext) (node_id : string) : string :=
  match c_arrived_via ctx with Some e => if String.eqb e "" then node_id else e | None => node_id end.

(** [execute] *)
Definition join_execute (ctx : RunContext) (n : NodeSpec) (r : JoinStore) : StepOutcome * JoinStore :=
  let config := ns_config n in
  let mode := JoinMode_of (cfg_str "mode" "all" config) in
  let required_count := cfg_int "count" 1 config in
  let '(fan_in_count, back_edge_ids) := classify_incoming_edges (ns_id n) (d_edges (c_def ctx)) in
  let branch_id := branch_of ctx (ns_id n) in
  let '(track, fire_threshold, total_branches) :=
    join_plan mode required_count fan_in_count (bool_decide (branch_id ∈ back_edge_ids)) in
  let '((arrivals, is_finalizer), r) :=
    join_arrive (c_run_id ctx, ns_id n, track) branch_id fire_threshold total_branches r in
  let output := [("arrivals", VInt arrivals); ("required", VInt fire_threshold);
                 ("mode", VStr (join_mode_value mode))]%string in
  if is_finalizer then (outcome S_SUCCEEDED output "default", r)
  else (mkOutcome S_SUCCEEDED output "default" None false true 0 "", r).

(** ** Facts *)

(** The thresholds of an arrival that does not come back around a loop. *)
Lemma join_plan_fan mode count fan :
  let '(_, fire, total) := join_plan mode count fan false in 1 <= total /\ (mode <> COUNT -> fire <= total).
Proof. destruct mode; simpl; (split; [lia|intros; try done; lia]). Qed.

(** A run of arrivals on one track: the finalizer flags, in order. *)
Fixpoint arrive_all (k : track_key) (fire total : Z) (bs : list string) (r : JoinStore)
    : list bool * JoinStore :=
  match bs with
  | [] => ([], r)
  | b :: bs =>
      let '((_, f), r) := join_arrive k b fire total r in
      let '(fs, r) := arrive_all k fire total bs r in (f :: fs, r)
  end.

Definition count_true (l : list bool) : nat := length (List.filter id l).

(** A track at the start of an epoch. *)
Definition fresh (r : JoinStore) (k : track_key) : Prop :=
  arrived r k = ∅ /\ has_fired r k = false.

(** The later epochs of a track hold nothing yet. *)
Definition clean_ahead (r : JoinStore) (k : track_key) : Prop :=
  forall e, epoch_of r k < e -> js_set r !! (k, e) = None /\ (k, e) ∉ js_fired r.

Lemma epoch_ne (k : track_key) (e e' : Z) : e < e' -> (k, e) <> (k, e') /\ (k, e') <> (k, e).
Proof. intros H. split; intros Heq; apply (f_equal snd) in Heq; simpl in Heq; lia. Qed.

Section arrive.
Context (k : track_key) (b : string) (fire total : Z) (r : JoinStore).
Let set := {[b]} ∪ arrived r k.
Let res := join_arrive k b fire total r.

Lemma arrive_open :
  Z.of_nat (size set) < total ->
  epoch_of res.2 k = epoch_of r k /\ arrived res.2 k = set /\
  res.1.2 = ((fire <=? Z.of_nat (size set)) && negb (has_fired r k)) /\
  has_fired res.2 k = has_fired r k || (fire <=? Z.of_nat (size set)) /\
  (clean_ahead r k -> clean_ahead res.2 k).
Proof.
  intros Ht. subst res set. unfold join_arrive.
  destruct (total <=? _) eqn:E; [apply Z.leb_le in E; lia|]. cbn [fst snd].
  assert (He : forall m s, epoch_of (mkJoin (js_epoch r) m s) k = epoch_of r k) by done.
  split; [done|]. split.
  { unfold arrived at 1. rewrite He. cbn. by rewrite lookup_insert_eq. }
  split; [done|]. split.
  - unfold has_fired at 1. rewrite He. cbn [js_fired].
    destruct (fire <=? _) eqn:Ef, (has_fired r k) eqn:Eh; cbn;
      unfold has_fired in Eh;
      [apply bool_decide_eq_true in Eh|apply bool_decide_eq_false in Eh|
       apply bool_decide_eq_true in Eh|apply bool_decide_eq_false in Eh];
      [apply bool_decide_eq_true|apply bool_decide_eq_true|apply bool_decide_eq_true|apply bool_decide_eq_false];
      set_solver.
  - intros Hc e. rewrite He. intros Hlt. destruct (Hc e Hlt) as [H1 H2]. cbn [js_set js_fired]. split.
    + rewrite lookup_insert_ne by (by apply (epoch_ne k (epoch_of r k) e)). done.
    + destruct (_ && _); [|done]. apply not_elem_of_union. split; [|done].
      apply not_elem_of_singleton. intros Heq. by apply (epoch_ne k (epoch_of r k) e) in Heq.
Qed.

Lemma arrive_drain :
  total <= Z.of_nat (size set) -> clean_ahead r k ->
  epoch_of res.2 k = epoch_of r k + 1 /\ fresh res.2 k /\ clean_ahead res.2 k /\
  res.1.2 = ((fire <=? Z.of_nat (size set)) && negb (has_fired r k)).
Proof.
  intros Ht Hc. subst res set. unfold join_arrive.
  destruct (total <=? _) eqn:E; [|apply Z.leb_gt in E; lia]. cbn [fst snd].
  assert (He : forall m s, epoch_of (mkJoin (<[k := epoch_of r k + 1]> (js_epoch r)) m s) k = epoch_of r k + 1).
  { intros. unfold epoch_of at 1. cbn. by rewrite lookup_insert_eq. }
  assert (Hnew : forall e, epoch_of r k < e ->
    delete (k, epoch_of r k) (js_set r) !! (k, e) = None /\
    (k, e) ∉ (if (fire <=? Z.of_nat (size ({[b]} ∪ arrived r k))) && negb (has_fired r k)
              then {[(k, epoch_of r k)]} ∪ js_fired r else js_fired r) ∖ {[(k, epoch_of r k)]}).
  { intros e Hlt. destruct (Hc e Hlt) as [H1 H2]. split.
    - rewrite lookup_delete_ne by (by apply (epoch_ne k (epoch_of r k) e)). done.
    - destruct (_ && _); set_solver. }
  split; [done|]. split; [|split; [|done]].
  - destruct (Hnew (epoch_of r k + 1) ltac:(lia)) as [H1 H2].
    assert (Hf : forall m s, has_fired (mkJoin (<[k := epoch_of r k + 1]> (js_epoch r)) m s) k
      = bool_decide ((k, epoch_of r k + 1) ∈ s)) by (intros; unfold has_fired; by rewrite He).
    unfold fresh, arrived at 1. rewrite He, Hf. cbn [js_set]. rewrite H1.
    split; [done|]. by apply bool_decide_eq_false.
  - intros e. rewrite He. intros Hlt. cbn [js_set js_fired]. apply Hnew. lia.
Qed.
End arrive.

Lemma arrive_all_app k fire total bs bs' r :
  arrive_all k fire total (bs ++ bs') r =
  let '(fs, r1) := arrive_all k fire total bs r in
  let '(fs', r2) := arrive_all k fire total bs' r1 in (fs ++ fs', r2).
Proof.
  revert r. induction bs as [|b bs IH]; intros r; simpl; [by destruct (arrive_all _ _ _ bs' r)|].
  destruct (join_arrive k b fire total r) as [[a f] r1]. rewrite IH.
  destruct (arrive_all k fire total bs r1) as [fs r2].
  by destruct (arrive_all k fire total bs' r2) as [fs' r3].
Qed.

Lemma count_true_app l l' : count_true (l ++ l') = (count_true l + count_true l')%nat.
Proof. unfold count_true. by rewrite List.filter_app, length_app. Qed.

(** The latch is set exactly when enough branches have arrived. *)
Definition latched (fire : Z) (r : JoinStore) (k : track_key) : Prop :=
  has_fired r k = (fire <=? Z.of_nat (size (arrived r k))).

Lemma size_add_le (b : string) (s : gset string) : (size s <= size ({[b]} ∪ s))%nat.
Proof. apply subseteq_size. set_solver. Qed.

Lemma fresh_latched fire r k : 0 < fire -> fresh r k -> latched fire r k.
Proof. intros Hf [H1 H2]. unfold latched. rewrite H1, H2, size_empty. symmetry. apply Z.leb_gt. lia. Qed.

(** Arrivals that do not complete the wave fire at most once, when the threshold is
    reached. *)
Lemma arrive_all_open k fire total bs r :
  latched fire r k -> clean_ahead r k ->
  Z.of_nat (size (list_to_set bs ∪ arrived r k)) < total ->
  let '(fs, r') := arrive_all k fire total bs r in
  epoch_of r' k = epoch_of r k /\ arrived r' k = list_to_set bs ∪ arrived r k /\
  latched fire r' k /\ clean_ahead r' k /\
  (count_true fs + Nat.b2n (has_fired r k) = Nat.b2n (has_fired r' k))%nat.
Proof.
  revert r. induction bs as [|b bs IH]; intros r Hl Hc Ht; simpl.
  { split; [done|]. split; [set_solver|]. done. }
  assert (Hsub : Z.of_nat (size ({[b]} ∪ arrived r k)) < total).
  { eapply Z.le_lt_trans; [|exact Ht]. apply Nat2Z.inj_le, subseteq_size. set_solver. }
  destruct (arrive_open k b fire total r Hsub) as (He & Ha & Hf & Hh & Hca).
  destruct (join_arrive k b fire total r) as [[a f] r1]. cbn [fst snd] in *.
  assert (Hl1 : latched fire r1 k).
  { unfold latched in *. rewrite Hh, Hl, Ha. pose proof (size_add_le b (arrived r k)).
    destruct (fire <=? Z.of_nat (size (arrived r k))) eqn:E1; simpl; [|done].
    symmetry. apply Z.leb_le. apply Z.leb_le in E1. lia. }
  assert (Heq : list_to_set bs ∪ arrived r1 k = list_to_set (b :: bs) ∪ arrived r k :> gset string)
    by (rewrite Ha; set_solver).
  specialize (IH r1 Hl1 (Hca Hc)). rewrite Heq in IH. specialize (IH Ht).
  destruct (arrive_all k fire total bs r1) as [fs r2].
  destruct IH as (H1 & H2 & H3 & H4 & H5). split; [by rewrite H1|]. split; [by rewrite H2|].
  split; [done|]. split; [done|]. rewrite <- H5.
  unfold latched in Hl, Hl1. subst f.
  pose proof (size_add_le b (arrived r k)). unfold count_true. simpl. rewrite Hl, Hl1, Ha.
  destruct (fire <=? Z.of_nat (size (arrived r k))) eqn:E1,
    (fire <=? Z.of_nat (size ({[b]} ∪ arrived r k))) eqn:E2; simpl; lia.
Qed.

Lemma arrive_all_never k fire total bs r :
  total < fire -> clean_ahead r k -> Z.of_nat (size (arrived r k)) < total ->
  Forall (fun f => f = false) (arrive_all k fire total bs r).1.
Proof.
  intros Hlt. revert r. induction bs as [|b bs IH]; intros r Hc Hs; simpl; [constructor|].
  assert (Hsz : (size ({[b]} ∪ arrived r k) <= S (size (arrived r k)))%nat).
  { rewrite size_union_alt, size_singleton.
    assert (size (arrived r k ∖ {[b]}) <= size (arrived r k))%nat by (apply subseteq_size; set_solver). lia. }
  assert (Hno : (fire <=? Z.of_nat (size ({[b]} ∪ arrived r k))) = false) by (apply Z.leb_gt; lia).
  destruct (Z.lt_ge_cases (Z.of_nat (size ({[b]} ∪ arrived r k))) total) as [Ho|Hd].
  - destruct (arrive_open k b fire total r Ho) as (_ & Ha & Hf & _ & Hca).
    destruct (join_arrive k b fire total r) as [[a f] r1]. cbn [fst snd] in *.
    specialize (IH r1 (Hca Hc)). rewrite Ha in IH. specialize (IH Ho).
    destruct (arrive_all k fire total bs r1) as [fs r2]. constructor; [|done]. by rewrite Hf, Hno.
  - destruct (arrive_drain k b fire total r Hd Hc) as (_ & [Ha _] & Hca & Hf).
    destruct (join_arrive k b fire total r) as [[a f] r1]. cbn [fst snd] in *.
    specialize (IH r1 Hca). rewrite Ha, size_empty in IH.
    destruct (Z.lt_ge_cases 0 total) as [H0|H0]; [|lia]. specialize (IH H0).
    destruct (arrive_all k fire total bs r1) as [fs r2]. constructor; [|done]. by rewrite Hf, Hno.
Qed.

Lemma reachable1_default es root :
  forall y, y ∈ default ∅ (reachable1_from es root) <-> reach1 es root y.
Proof. by destruct (reachable1_from_spec es root) as (s & -> & H). Qed.

Lemma back_edges_spec node_id es e :
  In e (back_edges node_id es) <->
  In e es /\ e_to e = node_id /\ reach1 (edge_arrows es) node_id (e_from e).
Proof.
  unfold back_edges. rewrite filter_In, andb_true_iff, String.eqb_eq, bool_decide_eq_true.
  rewrite reachable1_default. done.
Qed.

Lemma size_list_to_set_nodup (l : list string) :
  List.NoDup l -> size (list_to_set l : gset string) = length l.
Proof.
  induction 1 as [|x l Hx _ IH]; [apply size_empty|].
  change (list_to_set (x :: l) : gset string) with ({[x]} ∪ list_to_set l : gset string).
  rewrite size_union, size_singleton, IH; [done|].
  intros y ->%elem_of_singleton Hy. apply Hx. by apply elem_of_list_to_set, list_elem_of_In in Hy.
Qed.

Lemma NoDup_map_filter {A} (f : A -> string) (p : A -> bool) l :
  List.NoDup (map f l) -> List.NoDup (map f (List.filter p l)).
Proof.
  induction l as [|x l IH]; simpl; [done|]. intros [Hx Hl]%List.NoDup_cons_iff.
  destruct (p x); [|by apply IH]. simpl. constructor; [|by apply IH].
  intros (y & Hy & Hin)%in_map_iff. apply Hx. rewrite <- Hy. apply in_map. by apply filter_In in Hin as [? _].
Qed.

Lemma length_filter_split {A} (p q : A -> bool) l :
  (length (List.filter p l) = length (List.filter (fun x => p x && q x) l)
   + length (List.filter (fun x => p x && negb (q x)) l))%nat.
Proof. induction l as [|x l IH]; simpl; [done|]. destruct (p x), (q x); simpl; lia. Qed.

Lemma NoDup_map_inj {A} (f : A -> string) l x y :
  List.NoDup (map f l) -> In x l -> In y l -> f x = f y -> x = y.
Proof.
  induction l as [|z l IH]; simpl; [done|]. intros [Hz Hl]%List.NoDup_cons_iff [->|Hx] [->|Hy] E; auto.
  - exfalso. apply Hz. rewrite E. by apply in_map.
  - exfalso. apply Hz. rewrite <- E. by apply in_map.
Qed.

(** * Properties *)

(** The edges into a join are split by what closes a loop: an incoming edge is a
    back edge exactly when it comes from a node the join leads to, and the fan-in
    count is the number of the other incoming edges. *)
Theorem classify_incoming_spec node_id es :
  List.NoDup (map e_id es) ->
  let '(fan_in_count, back_edge_ids) := classify_incoming_edges node_id es in
  (forall e, In e es -> e_to e = node_id ->
     (e_id e ∈ back_edge_ids <-> reach1 (edge_arrows es) node_id (e_from e))) /\
  fan_in_count = Z.of_nat (length (List.filter (fun e => String.eqb (e_to e) node_id &&
    negb (bool_decide (e_id e ∈ back_edge_ids))) es)).
Proof.
  intros Hnd. unfold classify_incoming_edges.
  assert (Hids : forall e, In e es -> e_to e = node_id ->
    e_id e ∈ (list_to_set (map e_id (back_edges node_id es)) : gset string) <->
    reach1 (edge_arrows es) node_id (e_from e)).
  { intros e He Hto. rewrite elem_of_list_to_set, list_elem_of_In, in_map_iff. split.
    - intros (e' & Hid & (He' & _ & Hr)%back_edges_spec).
      by rewrite <- (NoDup_map_inj e_id es e' e).
    - intros Hr. exists e. split; [done|]. by apply back_edges_spec. }
  split; [done|].
  rewrite size_list_to_set_nodup by (by apply NoDup_map_filter). rewrite length_map.
  rewrite (length_filter_split _ (fun e => bool_decide (e_from e ∈ default ∅ (reachable1_from (edge_arrows es) node_id)))).
  fold (back_edges node_id es).
  rewrite Nat2Z.inj_add. rewrite Z.add_simpl_l. f_equal. f_equal. apply filter_ext_in. intros e He.
  destruct (String.eqb_spec (e_to e) node_id) as [Hto|]; [|done]. simpl. f_equal.
  apply bool_decide_ext. rewrite Hids by done. apply reachable1_default.
Qed.

Lemma classify_incoming_spec_witness :
  List.NoDup ["a"; "b"; "loop"]%string /\
  let es := [mkEdge "a" "x" "j" None None; mkEdge "b" "y" "j" None None; mkEdge "loop" "z" "j" None None;
             mkEdge "out" "j" "z" None None]%string in
  fst (classify_incoming_edges "j" es) = 2 /\
  fst (classify_incoming_edges "j" es) = Z.of_nat (length (List.filter (fun e => String.eqb (e_to e) "j" &&
    negb (bool_decide (e_id e ∈ snd (classify_incoming_edges "j" es)))) es)).
Proof.
  assert (Hnd : List.NoDup ["a"; "b"; "loop"]%string) by (repeat constructor; simpl; intuition discriminate).
  split; [exact Hnd|]. split; [vm_compute; reflexivity|].
  apply (classify_incoming_spec "j" [mkEdge "a" "x" "j" None None; mkEdge "b" "y" "j" None None;
    mkEdge "loop" "z" "j" None None; mkEdge "out" "j" "z" None None]).
  repeat constructor; simpl; intuition discriminate.
Defined.

(** C35. A fan-in wave fires exactly once.  From a fresh epoch, let arrivals come in any
    order and any number of times, the last of them completing the set of [total]
    distinct branches: for a threshold between 1 and [total] exactly one arrival is
    the finalizer, and the track is left fresh, one epoch on, ready for the next
    wave. *)
Theorem join_fires_once k fire total bs b r :
  1 <= fire <= total -> fresh r k -> clean_ahead r k ->
  Z.of_nat (size (list_to_set bs : gset string)) < total ->
  total <= Z.of_nat (size (list_to_set (bs ++ [b]) : gset string)) ->
  let '(fs, r') := arrive_all k fire total (bs ++ [b]) r in
  count_true fs = 1%nat /\ fresh r' k /\ clean_ahead r' k /\ epoch_of r' k = epoch_of r k + 1.
Proof.
  intros Hf Hfr Hc Hlt Hge. rewrite arrive_all_app.
  pose proof (fresh_latched fire r k ltac:(lia) Hfr) as Hl. destruct Hfr as [Ha0 Hh0].
  assert (Hset : forall s : gset string, s ∪ arrived r k = s) by (intros; rewrite Ha0; set_solver).
  pose proof (arrive_all_open k fire total bs r Hl Hc) as Hopen. rewrite Hset in Hopen. specialize (Hopen Hlt).
  destruct (arrive_all k fire total bs r) as [fs r1]. destruct Hopen as (He & Ha & Hl1 & Hc1 & Hcount).
  assert (Hlast : ({[b]} ∪ arrived r1 k) = list_to_set (bs ++ [b]) :> gset string).
  { rewrite Ha, list_to_set_app_L. set_solver. }
  destruct (arrive_drain k b fire total r1) as (He2 & Hfr2 & Hc2 & Hfl); [by rewrite Hlast|done|].
  simpl. destruct (join_arrive k b fire total r1) as [[a f] r2]. cbn [fst snd] in *.
  split; [|split; [done|split; [done|lia]]].
  rewrite count_true_app. rewrite Hh0 in Hcount. simpl in Hcount. rewrite Nat.add_0_r in Hcount.
  rewrite Hcount, Hfl, Hlast. replace (fire <=? _) with true by (symmetry; apply Z.leb_le; lia).
  unfold count_true. destruct (has_fired r1 k); done.
Qed.

Definition empty_joins : JoinStore := mkJoin ∅ ∅ ∅.
Definition sample_track : track_key := ("run-1", "join", "fan")%string.

Example join_flags :
  fst (arrive_all sample_track 2 3 ["e1"; "e1"; "e2"; "e1"; "e3"]%string empty_joins)
  = [false; false; true; false; false].
Proof. vm_compute. reflexivity. Qed.

Lemma empty_fresh k : fresh empty_joins k.
Proof. split; reflexivity. Qed.
Lemma empty_clean k : clean_ahead empty_joins k.
Proof. intros e _. split; [reflexivity|]. apply not_elem_of_empty. Qed.

Lemma join_fires_once_witness :
  let '(fs, r') := arrive_all sample_track 2 3 (["e1"; "e1"; "e2"; "e1"]%string ++ ["e3"%string]) empty_joins in
  count_true fs = 1%nat /\ fresh r' sample_track /\ clean_ahead r' sample_track /\
  epoch_of r' sample_track = epoch_of empty_joins sample_track + 1.
Proof.
  apply (join_fires_once sample_track 2 3 ["e1"; "e1"; "e2"; "e1"]%string "e3" empty_joins).
  - lia.
  - apply empty_fresh.
  - apply empty_clean.
  - vm_compute. reflexivity.
  - vm_compute. discriminate.
Defined.

(** Loop continuation never stalls: on the [pass] track every arrival, a repeated
    one included, fires and leaves the track fresh. *)
Theorem join_pass_fires k bs r :
  fresh r k -> clean_ahead r k ->
  let '(fs, r') := arrive_all k 1 1 bs r in
  Forall (fun f => f = true) fs /\ length fs = length bs /\ fresh r' k.
Proof.
  revert r. induction bs as [|b bs IH]; intros r Hfr Hc; simpl; [split; [constructor|done]|].
  destruct Hfr as [Ha Hh].
  assert (Hsz : size ({[b]} ∪ arrived r k) = 1%nat).
  { rewrite Ha. replace ({[b]} ∪ ∅ : gset string) with ({[b]} : gset string) by set_solver. apply size_singleton. }
  destruct (arrive_drain k b 1 1 r) as (_ & Hfr2 & Hc2 & Hf); [rewrite Hsz; lia|done|].
  destruct (join_arrive k b 1 1 r) as [[a f] r1]. cbn [fst snd] in *.
  specialize (IH r1 Hfr2 Hc2). destruct (arrive_all k 1 1 bs r1) as [fs r2].
  destruct IH as (H1 & H2 & H3). split; [|split; [simpl; lia|done]].
  constructor; [|done]. rewrite Hf, Hh, Hsz. done.
Qed.

Lemma join_pass_fires_witness :
  let '(fs, r') := arrive_all sample_track 1 1 ["back"; "back"]%string empty_joins in
  Forall (fun f => f = true) fs /\ length fs = length ["back"; "back"]%string /\ fresh r' sample_track.
Proof.
  apply (join_pass_fires sample_track ["back"; "back"]%string empty_joins);
    [apply empty_fresh|apply empty_clean].
Defined.

(** A [count] join whose count exceeds the number of its fan-in edges never fires,
    whatever arrives and however often. *)
Theorem join_count_above_total_never_fires k fire total bs r :
  1 <= total < fire -> fresh r k -> clean_ahead r k ->
  Forall (fun f => f = false) (fst (arrive_all k fire total bs r)).
Proof.
  intros Hf [Ha _] Hc. apply arrive_all_never; [lia|done|]. rewrite Ha, size_empty. lia.
Qed.

Lemma join_count_above_total_never_fires_witness :
  Forall (fun f => f = false) (fst (arrive_all sample_track 3 2 ["e1"; "e2"; "e1"]%string empty_joins)).
Proof.
  apply (join_count_above_total_never_fires sample_track 3 2);
    [lia|apply empty_fresh|apply empty_clean].
Defined.

(** A branch delivered again after its wave has drained counts in the next epoch, and
    in mode [any] the join fires a second time. *)
Example redelivery_after_drain_refires :
  fst (arrive_all sample_track 1 2 ["e1"; "e2"; "e2"]%string empty_joins) = [true; false; true].
Proof. vm_compute. reflexivity. Qed.
