(* ===== verification/RunStore.v ===== *)
(** * The store of runs and steps

    The tables [workflow_runs], [workflow_steps] and [workflows] as the repositories of
    [contexts/workflow/infrastructure/repositories.py] see them, with the audit log,
    the published events and the Redis keys the engine writes.  Other workers share
    the store: [w_sched] lists, for the statements still to come, what other
    transactions commit just before each of them (READ COMMITTED), and every
    repository operation starts by letting those take effect ([yield]).  The row
    locks PostgreSQL would add only remove interleavings.  Times are reduced to
    whether [ended_at] is set. *)

From S2P Require Import Prelude PyFloat PyValue WorkflowModels Join.
Record RunRow := mkRun {
  rr_workflow_id : string;
  rr_project_id : option string;
  rr_trigger_type : string;
  rr_state : RunState;
  rr_variables : pydict;
  rr_payload : pydict;      (** [context["trigger_payload"]] *)
  rr_ended : bool;
  rr_a2a_pending : bool;    (** [context["a2a_cancellation_pending"]] *)
}.

Record StepRow := mkStep {
  st_run_id : string;
  st_node_id : string;
  st_state : StepState;
  st_ended : bool;
  st_input : pydict;
  st_output : pydict;
  st_error : option string;
}.

Record AuditRow := mkAudit {
  au_action : string;
  au_resource : string;
  au_final_state : option RunState;
}.

(** A commit of another worker. *)
Inductive foreign : Type :=
  | F_finalize (run_id : string) (s : RunState)
  | F_fail_isolated (run_id : string)
  | F_update_state (run_id : string) (s : RunState)
  | F_update_variables (run_id : string) (variables : pydict)
  | F_insert_step (run_id node_id : string)
  | F_delete_workflow (workflow_id : string).

(** What [wait_for_event] registers: the claim key of a parked node with its TTL, and
    the index of the waits of an event type with its TTL (-1: none). *)
Record WaitStore := mkWaits {
  ws_claims : gmap (string * string) Z;
  ws_index : gmap string (gset (string * string));
  ws_index_ttl : gmap string Z;
}.

Record World := mkWorld {
  w_runs : gmap string RunRow;
  w_workflows : gmap string definition;  (** the ones not deleted *)
  w_steps : list StepRow;                (** a step's id is its position *)
  w_audit : list AuditRow;
  w_events : list (string * string);     (** run channel, event *)
  w_retry : gmap (string * string) Z;    (** [wf:retry:run:node] *)
  w_joins : JoinStore;
  w_waits : WaitStore;
  w_sched : list (list foreign);
}.

Definition set_runs f w := mkWorld (f (w_runs w)) (w_workflows w) (w_steps w) (w_audit w) (w_events w)
  (w_retry w) (w_joins w) (w_waits w) (w_sched w).
Definition set_workflows f w := mkWorld (w_runs w) (f (w_workflows w)) (w_steps w) (w_audit w) (w_events w)
  (w_retry w) (w_joins w) (w_waits w) (w_sched w).
Definition set_steps f w := mkWorld (w_runs w) (w_workflows w) (f (w_steps w)) (w_audit w) (w_events w)
  (w_retry w) (w_joins w) (w_waits w) (w_sched w).
Definition add_audit a w := mkWorld (w_runs w) (w_workflows w) (w_steps w) (w_audit w ++ [a]) (w_events w)
  (w_retry w) (w_joins w) (w_waits w) (w_sched w).
Definition add_event e w := mkWorld (w_runs w) (w_workflows w) (w_steps w) (w_audit w) (w_events w ++ [e])
  (w_retry w) (w_joins w) (w_waits w) (w_sched w).
Definition set_retry f w := mkWorld (w_runs w) (w_workflows w) (w_steps w) (w_audit w) (w_events w)
  (f (w_retry w)) (w_joins w) (w_waits w) (w_sched w).
Definition set_joins j w := mkWorld (w_runs w) (w_workflows w) (w_steps w) (w_audit w) (w_events w)
  (w_retry w) j (w_waits w) (w_sched w).
Definition set_waits t w := mkWorld (w_runs w) (w_workflows w) (w_steps w) (w_audit w) (w_events w)
  (w_retry w) (w_joins w) t (w_sched w).
Definition set_sched s w := mkWorld (w_runs w) (w_workflows w) (w_steps w) (w_audit w) (w_events w)
  (w_retry w) (w_joins w) (w_waits w) s.

(** ** The statements, as the database runs them *)

(** [_VALID_TRANSITIONS] *)
Definition VALID_TRANSITIONS (s : RunState) : list RunState :=
  match s with
  | RUNNING => [WAITING; SUCCEEDED; FAILED; CANCELLED]
  | WAITING => [RUNNING; FAILED; CANCELLED]
  | SUCCEEDED | FAILED | CANCELLED => []
  end.
Definition valid_transition (s s' : RunState) : bool := bool_decide (s' ∈ VALID_TRANSITIONS s).

Definition active (s : RunState) : bool := negb (is_terminal s).

(** [cas_update] of a run's state; [ended] when [ended_at] is among the values. *)
Definition sql_update_state (run_id : string) (s : RunState) (ended : bool) (w : World) : bool * World :=
  match w_runs w !! run_id with
  | Some r =>
      if valid_transition (rr_state r) s then
        (true, set_runs (insert run_id (mkRun (rr_workflow_id r) (rr_project_id r) (rr_trigger_type r) s
                  (rr_variables r) (rr_payload r) (ended || rr_ended r) (rr_a2a_pending r))) w)
      else (false, w)
  | None => (false, w)
  end.

Definition sql_update_variables (run_id : string) (variables : pydict) (w : World) : bool * World :=
  match w_runs w !! run_id with
  | Some r =>
      if active (rr_state r) then
        (true, set_runs (insert run_id (mkRun (rr_workflow_id r) (rr_project_id r) (rr_trigger_type r)
                  (rr_state r) variables (rr_payload r) (rr_ended r) (rr_a2a_pending r))) w)
      else (false, w)
  | None => (false, w)
  end.

Definition sql_mark_a2a_cancellation_pending (run_id : string) (w : World) : World :=
  set_runs (alter (fun r => mkRun (rr_workflow_id r) (rr_project_id r) (rr_trigger_type r) (rr_state r)
    (rr_variables r) (rr_payload r) (rr_ended r) true) run_id) w.

(** [insert_if_run_active]: the new step's id. *)
Definition sql_insert_step (run_id node_id : string) (s : StepState) (input : pydict) (w : World)
    : option nat * World :=
  match w_runs w !! run_id with
  | Some r =>
      if active (rr_state r) then
        (Some (length (w_steps w)),
         set_steps (fun l => l ++ [mkStep run_id node_id s false input [] None]) w)
      else (None, w)
  | None => (None, w)
  end.

(** [WorkflowStepRepository.update]; a [None] argument leaves its column alone. *)
Definition sql_update_step (step_id : nat) (s : StepState) (ended : bool) (output : pydict)
    (error : option string) (w : World) : World :=
  set_steps (alter (fun st => mkStep (st_run_id st) (st_node_id st) s (ended || st_ended st) (st_input st)
    output (match error with Some e => Some e | None => st_error st end)) step_id) w.

Definition step_live (s : StepState) : bool := match s with S_PENDING | S_RUNNING => true | _ => false end.

Definition sql_cancel_pending_for_run (run_id : string) (w : World) : World :=
  set_steps (map (fun st =>
    if String.eqb (st_run_id st) run_id && step_live (st_state st)
    then mkStep (st_run_id st) (st_node_id st) S_CANCELLED true (st_input st) (st_output st) (st_error st)
    else st)) w.

(** The engine's own update of the parked step of a node: [running] and not ended. *)
Definition sql_seal_parked (run_id node_id : string) (f : StepRow -> StepRow) (w : World) : World :=
  set_steps (map (fun st =>
    if String.eqb (st_run_id st) run_id && String.eqb (st_node_id st) node_id &&
       bool_decide (st_state st = S_RUNNING) && negb (st_ended st)
    then f st else st)) w.

(** ** Ending a run *)

Definition finish_action (s : RunState) : string :=
  match s with CANCELLED => "workflow.run_cancelled" | _ => "workflow.run_finished" end.

(** What [_finalize_run] does after it won the transition. *)
Definition finish_effects (run_id : string) (s : RunState) (w : World) : World :=
  add_event (run_id, finish_action s) (add_audit (mkAudit (finish_action s) run_id (Some s)) w).

(** ** Other workers *)

Definition apply_foreign (f : foreign) (w : World) : World :=
  match f with
  | F_finalize run_id s =>
      if is_terminal s then
        let '(won, w) := sql_update_state run_id s true w in
        if won then finish_effects run_id s
          (sql_mark_a2a_cancellation_pending run_id (sql_cancel_pending_for_run run_id w)) else w
      else w
  | F_fail_isolated run_id =>
      let '(won, w) := sql_update_state run_id FAILED true w in
      if won then sql_mark_a2a_cancellation_pending run_id (sql_cancel_pending_for_run run_id w) else w
  | F_update_state run_id s => if is_terminal s then w else snd (sql_update_state run_id s false w)
  | F_update_variables run_id v => snd (sql_update_variables run_id v w)
  | F_insert_step run_id node_id => snd (sql_insert_step run_id node_id S_RUNNING [] w)
  | F_delete_workflow wid => set_workflows (delete wid) w
  end.

Definition yield (w : World) : World :=
  match w_sched w with
  | [] => w
  | fs :: rest => fold_left (fun w f => apply_foreign f w) fs (set_sched rest w)
  end.

(** ** The repositories *)

Definition run_get (run_id : string) (w : World) : option RunRow * World :=
  let w := yield w in (w_runs w !! run_id, w).
Definition workflow_get (workflow_id : string) (w : World) : option definition * World :=
  let w := yield w in (w_workflows w !! workflow_id, w).
Definition update_state (run_id : string) (s : RunState) (ended : bool) (w : World) : bool * World :=
  sql_update_state run_id s ended (yield w).
Definition update_variables (run_id : string) (v : pydict) (w : World) : bool * World :=
  sql_update_variables run_id v (yield w).
Definition insert_if_run_active (run_id node_id : string) (s : StepState) (input : pydict) (w : World) :=
  sql_insert_step run_id node_id s input (yield w).
Definition update_step (step_id : nat) (s : StepState) (ended : bool) (output : pydict)
    (error : option string) (w : World) : World :=
  sql_update_step step_id s ended output error (yield w).
Definition cancel_pending_for_run (run_id : string) (w : World) : World :=
  sql_cancel_pending_for_run run_id (yield w).
Definition mark_a2a_cancellation_pending (run_id : string) (w : World) : World :=
  sql_mark_a2a_cancellation_pending run_id (yield w).
Definition seal_parked (run_id node_id : string) (f : StepRow -> StepRow) (w : World) : World :=
  sql_seal_parked run_id node_id f (yield w).

(** [_finalize_run] on the store; the engine also queues the cancellation of the
    run's agent calls. *)
Definition finalize (run_id : string) (s : RunState) (w : World) : bool * World :=
  let '(won, w) := update_state run_id s true w in
  if won then
    (true, finish_effects run_id s (mark_a2a_cancellation_pending run_id (cancel_pending_for_run run_id w)))
  else (false, w).

(** [WorkflowRunRepository.insert] *)
Definition insert_run (run_id workflow_id : string) (project : option string) (trigger_type : string)
    (variables payload : pydict) (w : World) : World :=
  set_runs (insert run_id
    (mkRun workflow_id project trigger_type RUNNING variables payload false false)) (yield w).

(** * Facts *)

Definition transition (s s' : RunState) : Prop := valid_transition s s' = true.
Definition terminal_audits (run_id : string) (w : World) : nat :=
  length (List.filter (fun a => String.eqb (au_resource a) run_id &&
    match au_final_state a with Some _ => true | None => false end) (w_audit w)).
Definition steps_of (run_id : string) (w : World) : nat :=
  length (List.filter (fun st => String.eqb (st_run_id st) run_id) (w_steps w)).

Lemma transition_from_terminal s s' : is_terminal s = true -> ~ transition s s'.
Proof. unfold transition, valid_transition. by destruct s, s'. Qed.
Lemma terminal_stuck s s' : is_terminal s = true -> rtc transition s s' -> s' = s.
Proof. intros Hs H. inversion H as [|? y ? Hy]; subst; [done|]. by apply transition_from_terminal in Hy. Qed.
Lemma transition_waiting : transition RUNNING WAITING.
Proof. reflexivity. Qed.

(** What one row may become. *)
Record row_le (r r' : RunRow) : Prop := {
  rl_state : rtc transition (rr_state r) (rr_state r');
  rl_workflow : rr_workflow_id r' = rr_workflow_id r;
  rl_final : is_terminal (rr_state r) = true ->
    rr_variables r' = rr_variables r /\ rr_ended r' = rr_ended r;
}.

Lemma row_le_refl r : row_le r r.
Proof. by split; [apply rtc_refl|..]. Qed.
Lemma row_le_trans r1 r2 r3 : row_le r1 r2 -> row_le r2 r3 -> row_le r1 r3.
Proof.
  intros [H1 H2 H3] [H4 H5 H6]. split; [by etrans|congruence|].
  intros Ht. destruct (H3 Ht). rewrite (terminal_stuck _ _ Ht H1) in H6. destruct (H6 Ht). split; congruence.
Qed.

(** What a step of this worker, or of any other, does to the store: a run moves along
    the legal transitions; a run that has ended keeps its state, variables and end,
    gets no further step and no further finish record; steps keep their ids. *)
Record evolves (w w' : World) : Prop := {
  ev_run rid r : w_runs w !! rid = Some r -> exists r', w_runs w' !! rid = Some r' /\ row_le r r';
  ev_ended rid r : w_runs w !! rid = Some r -> is_terminal (rr_state r) = true ->
    steps_of rid w' = steps_of rid w /\ terminal_audits rid w' = terminal_audits rid w;
  ev_step i st : w_steps w !! i = Some st -> exists st', w_steps w' !! i = Some st' /\
    st_run_id st' = st_run_id st /\ st_node_id st' = st_node_id st;
}.

Lemma evolves_refl w : evolves w w.
Proof. split; [intros rid r H; exists r; split; [done|apply row_le_refl]|done|intros i st H; by exists st]. Qed.
Lemma evolves_trans w1 w2 w3 : evolves w1 w2 -> evolves w2 w3 -> evolves w1 w3.
Proof.
  intros [H1 H2 H3] [H4 H5 H6]. split.
  - intros rid r Hr. destruct (H1 _ _ Hr) as (r' & Hr' & ?). destruct (H4 _ _ Hr') as (r'' & ? & ?).
    exists r''. split; [done|]. by eapply row_le_trans.
  - intros rid r Hr Ht. destruct (H1 _ _ Hr) as (r' & Hr' & Hle). destruct (H2 _ _ Hr Ht).
    rewrite <- (terminal_stuck _ _ Ht (rl_state _ _ Hle)) in Ht. destruct (H5 _ _ Hr' Ht). split; congruence.
  - intros i st Hi. destruct (H3 _ _ Hi) as (st' & Hi' & ? & ?). destruct (H6 _ _ Hi') as (st'' & ? & ? & ?).
    exists st''. split; [done|]. split; congruence.
Qed.
#[export] Instance evolves_preorder : PreOrder evolves.
Proof. split; [exact evolves_refl|exact evolves_trans]. Qed.

(** At most one finish record per run, and none before the run has ended. *)
Definition audit_ok (w : World) : Prop :=
  forall rid, (terminal_audits rid w <=
    match w_runs w !! rid with Some r => Nat.b2n (is_terminal (rr_state r)) | None => 0 end)%nat.

(** Both together. *)
Definition good (w w' : World) : Prop := evolves w w' /\ (audit_ok w -> audit_ok w').
#[export] Instance good_preorder : PreOrder good.
Proof.
  split; [split; [apply evolves_refl|done]|].
  intros w1 w2 w3 [H1 H2] [H3 H4]. split; [by etrans|auto].
Qed.

(** Updates of runs only, rows moving forward. *)
Lemma good_set_runs w f :
  (forall rid r, w_runs w !! rid = Some r -> exists r', f (w_runs w) !! rid = Some r' /\ row_le r r') ->
  good w (set_runs f w).
Proof.
  intros Hf. split; [split; [done|done|intros i st H; by exists st]|].
  intros Ha rid. specialize (Ha rid). change (terminal_audits rid (set_runs f w)) with (terminal_audits rid w).
  cbn [w_runs set_runs]. destruct (w_runs w !! rid) as [r|] eqn:E; [|lia].
  destruct (Hf _ _ E) as (r' & -> & Hle). destruct (is_terminal (rr_state r)) eqn:Et; simpl in Ha; [|lia].
  by rewrite (terminal_stuck _ _ Et (rl_state _ _ Hle)), Et.
Qed.

Lemma good_update_row w rid r r' :
  w_runs w !! rid = Some r -> row_le r r' -> good w (set_runs (insert rid r') w).
Proof.
  intros Hr Hle. apply good_set_runs. intros rid' r0 Hr0.
  destruct (decide (rid = rid')) as [->|Hne].
  - rewrite Hr in Hr0. injection Hr0 as <-. exists r'. by rewrite lookup_insert_eq.
  - exists r0. rewrite lookup_insert_ne by done. split; [done|apply row_le_refl].
Qed.

Lemma sql_update_state_good rid s e w : good w (snd (sql_update_state rid s e w)).
Proof.
  unfold sql_update_state. destruct (w_runs w !! rid) as [r|] eqn:E; [|reflexivity].
  destruct (valid_transition (rr_state r) s) eqn:Ev; [|reflexivity].
  eapply good_update_row; [exact E|]. split; simpl; [by apply rtc_once|done|].
  intros Ht. by eapply transition_from_terminal in Ev.
Qed.

Lemma sql_update_variables_good rid v w : good w (snd (sql_update_variables rid v w)).
Proof.
  unfold sql_update_variables. destruct (w_runs w !! rid) as [r|] eqn:E; [|reflexivity].
  unfold active. destruct (is_terminal (rr_state r)) eqn:Et; [reflexivity|].
  eapply good_update_row; [exact E|]. split; simpl; [apply rtc_refl|done|congruence].
Qed.

Lemma sql_mark_good rid w : good w (sql_mark_a2a_cancellation_pending rid w).
Proof.
  apply good_set_runs. intros rid' r Hr. destruct (decide (rid = rid')) as [->|Hne].
  - rewrite lookup_alter_eq, Hr. eexists. split; [done|]. by split; [apply rtc_refl|..].
  - rewrite lookup_alter_ne, Hr by done. exists r. split; [done|apply row_le_refl].
Qed.

(** Updates of steps only. *)
Lemma good_set_steps w f :
  (forall i st, w_steps w !! i = Some st -> exists st', f (w_steps w) !! i = Some st' /\
     st_run_id st' = st_run_id st /\ st_node_id st' = st_node_id st) ->
  (forall rid r, w_runs w !! rid = Some r -> is_terminal (rr_state r) = true ->
     steps_of rid (set_steps f w) = steps_of rid w) ->
  good w (set_steps f w).
Proof.
  intros Hf Hs. split; [|done]. split; [|intros rid r Hr Ht; split; [by eapply Hs|done]|done].
  intros rid r H. exists r. split; [done|apply row_le_refl].
Qed.

Lemma good_map_steps w (g : StepRow -> StepRow) :
  (forall st, st_run_id (g st) = st_run_id st /\ st_node_id (g st) = st_node_id st) ->
  good w (set_steps (map g) w).
Proof.
  intros Hg. apply good_set_steps.
  - intros i st Hi. exists (g st). split; [|apply Hg].
    change (map g (w_steps w)) with (g <$> w_steps w). by rewrite list_lookup_fmap, Hi.
  - intros rid r _ _. unfold steps_of. cbn [w_steps set_steps].
    induction (w_steps w) as [|st l IH]; [done|]. simpl. rewrite (proj1 (Hg st)).
    destruct (String.eqb _ rid); simpl; lia.
Qed.

Lemma sql_cancel_pending_good rid w : good w (sql_cancel_pending_for_run rid w).
Proof. apply good_map_steps. intros st. by case_match. Qed.

Lemma sql_seal_parked_good rid nid f w :
  (forall st, st_run_id (f st) = st_run_id st /\ st_node_id (f st) = st_node_id st) ->
  good w (sql_seal_parked rid nid f w).
Proof. intros Hf. apply good_map_steps. intros st. case_match; [apply Hf|done]. Qed.

Lemma sql_insert_step_good rid nid s input w : good w (snd (sql_insert_step rid nid s input w)).
Proof.
  unfold sql_insert_step. destruct (w_runs w !! rid) as [r|] eqn:E; [|reflexivity].
  destruct (active (rr_state r)) eqn:Ea; [|reflexivity]. apply good_set_steps.
  - intros i st Hi. exists st. split; [by apply lookup_app_l_Some|done].
  - intros rid' r' Hr' Ht. unfold steps_of. cbn [w_steps set_steps].
    rewrite List.filter_app, length_app. simpl.
    destruct (String.eqb_spec rid rid') as [->|]; simpl; [|lia].
    rewrite E in Hr'. injection Hr' as <-. unfold active in Ea. by rewrite Ht in Ea.
Qed.

Lemma sql_update_step_good i s e o err w : good w (sql_update_step i s e o err w).
Proof.
  apply good_set_steps.
  - intros j st Hj. destruct (decide (i = j)) as [->|Hne].
    + eexists. rewrite list_lookup_alter_eq, Hj. by split.
    + exists st. by rewrite list_lookup_alter_ne.
  - intros rid _ _ _. unfold steps_of. cbn [w_steps set_steps].
    revert i. induction (w_steps w) as [|st l IH]; intros i; [done|].
    destruct i as [|i]; simpl; [by destruct (String.eqb _ rid)|].
    destruct (String.eqb _ rid); simpl; [f_equal|]; exact (IH i).
Qed.

Lemma good_same w w' :
  w_runs w' = w_runs w -> w_steps w' = w_steps w -> w_audit w' = w_audit w -> good w w'.
Proof.
  intros H1 H2 H3. split.
  - split; unfold steps_of, terminal_audits; rewrite ?H1, ?H2, ?H3.
    + intros rid r H. exists r. split; [done|apply row_le_refl].
    + done.
    + intros i st H. by exists st.
  - unfold audit_ok, terminal_audits. by rewrite H1, H3.
Qed.

(** An audit row that is not a finish record. *)
Lemma add_audit_good a w : au_final_state a = None -> good w (add_audit a w).
Proof.
  intros Ha. assert (Heq : forall rid, terminal_audits rid (add_audit a w) = terminal_audits rid w).
  { intros rid. unfold terminal_audits. cbn [w_audit add_audit].
    rewrite List.filter_app, length_app. simpl. rewrite Ha, andb_false_r. simpl. lia. }
  split; [split|].
  - intros rid r H. exists r. split; [done|apply row_le_refl].
  - intros rid r _ _. by rewrite Heq.
  - intros i st H. by exists st.
  - intros H rid. rewrite Heq. apply H.
Qed.

(** The winner of the transition into [s] records it, once. *)
Lemma finish_good w w1 w2 rid s :
  sql_update_state rid s true w = (true, w1) -> is_terminal s = true -> good w1 w2 ->
  good w (finish_effects rid s w2).
Proof.
  intros Hu Hs [He Ha]. pose proof (sql_update_state_good rid s true w) as [He0 Ha0]. rewrite Hu in He0, Ha0.
  simpl in He0, Ha0. unfold sql_update_state in Hu.
  destruct (w_runs w !! rid) as [r|] eqn:Er; [|done].
  destruct (valid_transition (rr_state r) s) eqn:Ev; [|done]. injection Hu as <-.
  assert (Hact : is_terminal (rr_state r) = false).
  { destruct (is_terminal (rr_state r)) eqn:E; [|done]. by eapply transition_from_terminal in E. }
  destruct (ev_run _ _ He rid _ (lookup_insert_eq _ _ _)) as (r2 & Hr2 & Hle).
  assert (Hst : rr_state r2 = s) by (by apply (terminal_stuck _ _ Hs (rl_state _ _ Hle))).
  destruct (ev_ended _ _ He rid _ (lookup_insert_eq _ _ _) Hs) as [_ Hcount].
  assert (Heq : forall rid', terminal_audits rid' (finish_effects rid s w2) =
    (terminal_audits rid' w2 + Nat.b2n (String.eqb rid rid'))%nat).
  { intros rid'. unfold terminal_audits. cbn [w_audit finish_effects add_audit add_event].
    rewrite List.filter_app, length_app. simpl. by destruct (String.eqb rid rid'). }
  pose proof (evolves_trans _ _ _ He0 He) as He2. split; [split|].
  - apply He2.
  - intros rid' r' Hr' Ht'. destruct (ev_ended _ _ He2 rid' r' Hr' Ht') as [H1 H2].
    split; [exact H1|]. rewrite Heq, H2. destruct (String.eqb_spec rid rid') as [->|]; simpl; [|lia].
    rewrite Er in Hr'. injection Hr' as <-. congruence.
  - apply He2.
  - intros Hok rid'. rewrite Heq. cbn [w_runs finish_effects add_audit add_event].
    specialize (Ha (Ha0 Hok) rid'). destruct (String.eqb_spec rid rid') as [<-|Hne]; simpl; [|lia].
    rewrite Hr2, Hst, Hs. simpl. rewrite Hcount.
    specialize (Hok rid). rewrite Er, Hact in Hok. simpl in Hok.
    change (terminal_audits rid (set_runs _ w)) with (terminal_audits rid w). lia.
Qed.

Lemma apply_foreign_good f w : good w (apply_foreign f w).
Proof.
  destruct f as [rid s|rid|rid s|rid v|rid nid|wid]; simpl.
  - destruct (is_terminal s) eqn:Es; [|reflexivity].
    pose proof (sql_update_state_good rid s true w) as Hu.
    destruct (sql_update_state rid s true w) as [[] w1] eqn:E; [|done].
    eapply finish_good; [exact E|done|]. etrans; [apply sql_cancel_pending_good|apply sql_mark_good].
  - pose proof (sql_update_state_good rid FAILED true w) as Hu.
    destruct (sql_update_state rid FAILED true w) as [[] w1] eqn:E; [|done].
    etrans; [exact Hu|]. etrans; [apply sql_cancel_pending_good|apply sql_mark_good].
  - destruct (is_terminal s); [reflexivity|apply sql_update_state_good].
  - apply sql_update_variables_good.
  - apply sql_insert_step_good.
  - by apply good_same.
Qed.

Lemma yield_good w : good w (yield w).
Proof.
  unfold yield. destruct (w_sched w) as [|fs rest]; [reflexivity|].
  transitivity (set_sched rest w); [by apply good_same|].
  generalize (set_sched rest w). induction fs as [|f fs IH]; intros w'; simpl; [reflexivity|].
  etrans; [apply apply_foreign_good|apply IH].
Qed.

(** The repository operations. *)
Lemma run_get_good rid w : good w (snd (run_get rid w)).
Proof. apply yield_good. Qed.
Lemma workflow_get_good wid w : good w (snd (workflow_get wid w)).
Proof. apply yield_good. Qed.
Lemma update_state_good rid s e w : good w (snd (update_state rid s e w)).
Proof. etrans; [apply yield_good|apply sql_update_state_good]. Qed.
Lemma update_variables_good rid v w : good w (snd (update_variables rid v w)).
Proof. etrans; [apply yield_good|apply sql_update_variables_good]. Qed.
Lemma insert_if_run_active_good rid nid s i w : good w (snd (insert_if_run_active rid nid s i w)).
Proof. etrans; [apply yield_good|apply sql_insert_step_good]. Qed.
Lemma update_step_good i s e o err w : good w (update_step i s e o err w).
Proof. etrans; [apply yield_good|apply sql_update_step_good]. Qed.
Lemma seal_parked_good rid nid f w :
  (forall st, st_run_id (f st) = st_run_id st /\ st_node_id (f st) = st_node_id st) ->
  good w (seal_parked rid nid f w).
Proof. intros Hf. etrans; [apply yield_good|by apply sql_seal_parked_good]. Qed.

Lemma finalize_good rid s w : is_terminal s = true -> good w (snd (finalize rid s w)).
Proof.
  intros Hs. unfold finalize, update_state. etrans; [apply yield_good|]. generalize (yield w). clear w. intros w.
  pose proof (sql_update_state_good rid s true w) as Hu.
  destruct (sql_update_state rid s true w) as [[] w1] eqn:E; [|done].
  eapply finish_good; [exact E|done|].
  transitivity (cancel_pending_for_run rid w1).
  - etrans; [apply yield_good|apply sql_cancel_pending_good].
  - etrans; [apply yield_good|apply sql_mark_good].
Qed.
