(* ===== verification/Executors.v ===== *)
(** * Node executors

    [contexts/workflow/application/executors/]: trigger, condition, set_variable,
    parallel, end, subagent_spawn and wait_for_event.  The executors that call the
    orchestration context (agent_invocation, approval_gate, instruct) and what the
    others read from outside (clocks, the regular expression engine, the cron
    library) are the fields of [External].  Error texts are not modelled: every
    [error=...] is [Some] of a fixed string. *)

From S2P Require Import Prelude PyFloat PyValue SelLexer SelParser SelEval WorkflowModels RunStore.
Class External := {
  (** agent_invocation, approval_gate, instruct: step id, context and node to the
      outcome and the variables, or [None] when the executor raises. *)
  ext_execute : NodeType -> nat -> RunContext -> NodeSpec -> option (StepOutcome * pydict);
  (** The environment of the [j]-th expression a step evaluates. *)
  sel_env : nat -> nat -> Env;
  (** [time.time()] of a step. *)
  step_now : nat -> float;
  (** [croniter.is_valid], or [None] when the package is not installed. *)
  croniter_is_valid : option (string -> bool);
}.

Definition failed (output : pydict) (port : string) (e : string) : StepOutcome :=
  mkOutcome S_FAILED output port (Some e) false false 0 "".

(** [{**ctx.variables, "__trigger__": ..., "__ctx__": {...}}] *)
Definition sel_scope (now : float) (ctx : RunContext) : pydict :=
  dict_set "__ctx__" (VDict [("run_id", VStr (c_run_id ctx)); ("workflow_id", VStr (c_workflow_id ctx));
                             ("now_unix", VFloat now)]%string)
    (dict_set "__trigger__" (VDict (c_trigger_payload ctx)) (c_variables ctx)).

Section executors.
Context `{External} (step : nat) (ctx : RunContext) (n : NodeSpec).
Notation config := (ns_config n).

Definition trigger_execute : StepOutcome :=
  let trigger_type := cfg_str "trigger_type" "manual" config in
  let ok := outcome S_SUCCEEDED [("trigger_type"%string, VStr trigger_type)] "default" in
  if String.eqb trigger_type "cron" then
    let cron_expr := cfg_str "cron_expression" "" config in
    if String.eqb cron_expr "" then failed [] "default" "cron trigger requires a non-empty cron_expression"
    else match croniter_is_valid with
         | Some is_valid => if is_valid cron_expr then ok else failed [] "default" "invalid cron_expression"
         | None => ok
         end
  else ok.

(** The branches in turn; a failed evaluation is logged and skipped. *)
Fixpoint condition_go (j : nat) (scope : pydict) (branches : list pydict) : StepOutcome :=
  match branches with
  | [] =>
      let default_port := cfg_str "default_port" "default" config in
      outcome S_SUCCEEDED [("matched_port", VStr default_port); ("expression", VStr "(default)")]%string
        default_port
  | b :: branches =>
      let expr := cfg_str "when" "" b in
      let port := cfg_str "port" "default" b in
      match evaluate (sel_env step j) expr scope with
      | Ok v => if py_bool v
                then outcome S_SUCCEEDED [("matched_port", VStr port); ("expression", VStr expr)]%string port
                else condition_go (S j) scope branches
      | _ => condition_go (S j) scope branches
      end
  end.
Definition condition_execute : StepOutcome :=
  condition_go 0 (sel_scope (step_now step) ctx) (dict_items (cfg_list "branches" config)).

(** The assignments in turn: the variables, the scope and the results so far. *)
Fixpoint set_variable_go (j : nat) (vars scope results : pydict) (assignments : list pydict)
    : StepOutcome * pydict :=
  match assignments with
  | [] => (outcome S_SUCCEEDED results "default", vars)
  | a :: assignments =>
      let var_name := cfg_str "variable" "" a in
      match evaluate (sel_env step j) (cfg_str "expression" "" a) scope with
      | Ok v => set_variable_go (S j) (dict_set var_name v vars) (dict_set var_name v scope)
                  (dict_set var_name v results) assignments
      | _ => (failed results "default" "Failed to evaluate", vars)
      end
  end.
Definition set_variable_execute : StepOutcome * pydict :=
  set_variable_go 0 (c_variables ctx) (sel_scope (step_now step) ctx) []
    (dict_items (cfg_list "assignments" config)).

Definition parallel_execute : StepOutcome := outcome S_SUCCEEDED [] "default".

Definition end_execute : StepOutcome :=
  let status := cfg_str "status" "success" config in
  let return_data := fold_left (fun d v => dict_set v (dict_get_none v (c_variables ctx)) d)
    (str_items (cfg_list "return_variables" config)) [] in
  outcome (if String.eqb status "success" then S_SUCCEEDED else S_FAILED)
    [("status", VStr status); ("return_variables", VDict return_data)]%string "".

Definition subagent_spawn_execute : StepOutcome :=
  failed [] "failure" "subagent_spawn is not implemented".

(** The seconds a wait may last: a timer's own delay, else the timeout. *)
Definition park_seconds : Z :=
  if String.eqb (cfg_str "event_type" "timer" config) "timer"
  then cfg_int "delay_seconds" 60 config else cfg_int "timeout_seconds" 600 config.

(** The registration in Redis: the claim key, then the index, whose TTL is only ever
    extended. *)
Definition register_wait (ws : WaitStore) : WaitStore :=
  let event_type := cfg_str "event_type" "timer" config in
  let ttl := initial_claim_ttl park_seconds WAIT_CLAIM_GRACE_S in
  let current := default (-1) (ws_index_ttl ws !! event_type) in
  mkWaits (<[(c_run_id ctx, ns_id n) := ttl]> (ws_claims ws))
    (<[event_type := {[(c_run_id ctx, ns_id n)]} ∪ default ∅ (ws_index ws !! event_type)]> (ws_index ws))
    (if current <? ttl then <[event_type := ttl]> (ws_index_ttl ws) else ws_index_ttl ws).

Definition wait_for_event_outcome : StepOutcome :=
  let event_type := cfg_str "event_type" "timer" config in
  let is_timer := String.eqb event_type "timer" in
  let output : pydict :=
    ("event_type"%string, VStr event_type)
    :: ("timeout_seconds"%string, VInt (cfg_int "timeout_seconds" 600 config))
    :: (if is_timer then [("delay_seconds"%string, VInt (cfg_int "delay_seconds" 60 config))] else []) in
  mkOutcome S_RUNNING output "default" None true false (park_seconds * 1000)
    (if is_timer then "workflow_event_resume" else "workflow_event_timeout").
End executors.

(** * Facts *)

(** Every executor of this file that succeeds leaves on one of the ports the linter
    allows for its node; a condition on a branch's port or its default port. *)
Lemma condition_go_port `{External} step n j scope bs :
  In (o_port (condition_go step n j scope bs))
    (map (cfg_str "port" "default") bs ++ [cfg_str "default_port" "default" (ns_config n)]) /\
  o_state (condition_go step n j scope bs) = S_SUCCEEDED /\
  o_park (condition_go step n j scope bs) = false /\ o_skip_edges (condition_go step n j scope bs) = false.
Proof.
  revert j. induction bs as [|b bs IH]; intros j; simpl; [auto|].
  destruct (evaluate _ _ _) as [v|e|]; [destruct (py_bool v)|..]; simpl; auto;
    destruct (IH (S j)) as (? & ? & ?); auto.
Qed.

(** * Properties *)

(** A condition node always succeeds, on the port of the first branch whose
    expression evaluates to a true value, every branch before it evaluating to a
    false value or failing; when there is none, on the default port. *)
Theorem condition_first_match `{External} step ctx n :
  let bs := dict_items (cfg_list "branches" (ns_config n)) in
  let value j b := evaluate (sel_env step j) (cfg_str "when" "" b) (sel_scope (step_now step) ctx) in
  let holds j b := exists v, value j b = Ok v /\ py_bool v = true in
  o_state (condition_execute step ctx n) = S_SUCCEEDED /\
  ((exists j b, bs !! j = Some b /\ holds j b /\
      (forall i b', (i < j)%nat -> bs !! i = Some b' -> ~ holds i b') /\
      o_port (condition_execute step ctx n) = cfg_str "port" "default" b) \/
   ((forall i b', bs !! i = Some b' -> ~ holds i b') /\
      o_port (condition_execute step ctx n) = cfg_str "default_port" "default" (ns_config n))).
Proof.
  intros bs value holds. unfold condition_execute. fold bs. split; [apply condition_go_port|].
  set (scope := sel_scope _ _) in *. clearbody bs.
  assert (Hgo : forall j0, 
    (exists j b, bs !! j = Some b /\ holds (j0 + j)%nat b /\
      (forall i b', (i < j)%nat -> bs !! i = Some b' -> ~ holds (j0 + i)%nat b') /\
      o_port (condition_go step n j0 scope bs) = cfg_str "port" "default" b) \/
    ((forall i b', bs !! i = Some b' -> ~ holds (j0 + i)%nat b') /\
      o_port (condition_go step n j0 scope bs) = cfg_str "default_port" "default" (ns_config n))).
  { induction bs as [|b bs IH]; intros j0; [right; by split|]. simpl.
    assert (Hdec : (exists v, value j0 b = Ok v /\ py_bool v = true /\
        o_port (condition_go step n j0 scope (b :: bs)) = cfg_str "port" "default" b) \/
      (~ holds j0 b /\ condition_go step n j0 scope (b :: bs) = condition_go step n (S j0) scope bs)).
    { simpl. unfold holds, value. fold scope. destruct (evaluate _ _ _) as [v|e|] eqn:E.
      - destruct (py_bool v) eqn:Ev; [left; by exists v|right]. split; [|done]. intros (w & [= <-] & ?). congruence.
      - right. split; [|done]. by intros (w & ? & _).
      - right. split; [|done]. by intros (w & ? & _). }
    change (o_port _) with (o_port (condition_go step n j0 scope (b :: bs))).
    destruct Hdec as [(v & Hv & Hb & Hp)|[Hno Heq]].
    - left. exists 0%nat, b. split; [done|]. split; [rewrite Nat.add_0_r; by exists v|]. split; [lia|exact Hp].
    - rewrite Heq. destruct (IH (S j0)) as [(j & b' & Hj & Hh & Hbefore & Hp)|[Hall Hp]].
      + left. exists (S j), b'. split; [done|]. split; [by rewrite Nat.add_succ_r|]. split; [|done].
        intros [|i] c Hi Hc; simpl in Hc; [injection Hc as <-; by rewrite Nat.add_0_r|].
        rewrite Nat.add_succ_r. eapply Hbefore; [lia|done].
      + right. split; [|done]. intros [|i] c Hc; simpl in Hc; [injection Hc as <-; by rewrite Nat.add_0_r|].
        rewrite Nat.add_succ_r. by apply Hall. }
  destruct (Hgo 0%nat) as [(j & b & H1 & H2 & H3 & H4)|[H1 H2]]; [left; by exists j, b|by right].
Qed.

(** Registering a wait never shortens the life of the shared index of its event
    type, keeps every wait already in it, and gives the claim key the node's own
    deadline plus the grace period. *)
Lemma register_wait_extends ctx n ws ev :
  let ws' := register_wait ctx n ws in
  default ∅ (ws_index ws !! ev) ⊆ default ∅ (ws_index ws' !! ev) /\
  default (-1) (ws_index_ttl ws !! ev) <= default (-1) (ws_index_ttl ws' !! ev) /\
  ws_claims ws' !! (c_run_id ctx, ns_id n) = Some (park_seconds n + 60) /\
  (c_run_id ctx, ns_id n) ∈ default ∅ (ws_index ws' !! cfg_str "event_type" "timer" (ns_config n)) /\
  park_seconds n + 60 <= default (-1) (ws_index_ttl ws' !! cfg_str "event_type" "timer" (ns_config n)).
Proof.
  unfold register_wait. cbn zeta. cbn [ws_index ws_index_ttl ws_claims].
  set (et := cfg_str "event_type" "timer" (ns_config n)). set (ttl := initial_claim_ttl _ _).
  assert (Httl : ttl = park_seconds n + 60) by done.
  split; [|split; [|split; [|split]]].
  - destruct (decide (ev = et)) as [->|Hne].
    + rewrite lookup_insert_eq. simpl. set_solver.
    + by rewrite lookup_insert_ne.
  - destruct (default (-1) (ws_index_ttl ws !! et) <? ttl) eqn:E; [|done]. apply Z.ltb_lt in E.
    destruct (decide (ev = et)) as [->|Hne]; [rewrite lookup_insert_eq; simpl; lia|by rewrite lookup_insert_ne].
  - by rewrite lookup_insert_eq.
  - rewrite lookup_insert_eq. simpl. set_solver.
  - rewrite <- Httl. destruct (default (-1) (ws_index_ttl ws !! et) <? ttl) eqn:E.
    + by rewrite lookup_insert_eq.
    + by apply Z.ltb_ge in E.
Qed.
