(* ===== verification/RunEngine.v ===== *)
(** * Workflow run engine

    [contexts/workflow/application/run_engine.py] and [step_recorder.py], on the
    store of [RunStore].  The engine threads the store, the context of the
    continuation and the queues it dispatches after the commit.  [None] is running
    out of fuel; [RunEngineFacts] proves the fuel the entry points use sufficient.
    Log lines, metrics and message texts are not modelled. *)

From S2P Require Import Prelude PyFloat PyValue WorkflowModels Linter Join RunStore Executors.
(** ** Parsing helpers *)

Definition NORMAL_COMPLETION_PORTS (t : NodeType) : string :=
  match t with
  | AGENT_INVOCATION | INSTRUCT | SUBAGENT_SPAWN => "success"
  | APPROVAL_GATE => "rejected"
  | _ => "default"
  end.

Definition normal_completion_port (n : NodeSpec) : string :=
  if decide (ns_type n = CONDITION) then cfg_str "default_port" "default" (ns_config n)
  else NORMAL_COMPLETION_PORTS (ns_type n).

Definition parse_node (raw : node) : NodeSpec :=
  let on_error_raw := cfg_dict "on_error" (n_config raw) in
  mkNodeSpec (n_id raw) (n_type raw)
    (List.filter (fun kv => negb (String.eqb (fst kv) "on_error")) (n_config raw))
    (mkOnError (OnErrorStrategy_of (cfg_str "strategy" "fail" on_error_raw))
       (cfg_int "retry_max" 0 on_error_raw) (cfg_int "retry_backoff_ms" 500 on_error_raw)
       (match dict_get "fallback_node_id" on_error_raw with Some (VStr s) => Some s | _ => None end)).

Definition parse_edges (es : list edge) : list EdgeSpec :=
  map (fun e => mkEdgeSpec (e_id e) (e_from e) (e_to e) (from_port e) (e_guard e)) es.

(** [_build_outgoing(edges).get(node_id, [])] *)
Definition build_outgoing (es : list EdgeSpec) (node_id : string) : list EdgeSpec :=
  List.filter (fun e => String.eqb (es_from e) node_id) es.

Definition DRY_RUN_SAFE_TYPES : list NodeType := [TRIGGER; CONDITION; SET_VARIABLE; PARALLEL; JOIN; END].

(** ** State *)

Record PendingEnqueue := mkEnqueue {
  pe_task : string;
  pe_run : string;
  pe_node : string;
  pe_delay_ms : Z;
  pe_from_edge : option string;
}.

Record Engine := mkEngine {
  en_world : World;
  en_ctx : RunContext;
  en_pending : list PendingEnqueue;
  en_cancels : list string;   (** [_pending_call_cancellations] *)
}.

Definition set_world (w : World) (e : Engine) : Engine := mkEngine w (en_ctx e) (en_pending e) (en_cancels e).
Definition set_ctx (c : RunContext) (e : Engine) : Engine := mkEngine (en_world e) c (en_pending e) (en_cancels e).
Definition enqueue (p : PendingEnqueue) (e : Engine) : Engine :=
  mkEngine (en_world e) (en_ctx e) (en_pending e ++ [p]) (en_cancels e).
Definition queue_cancel (run_id : string) (e : Engine) : Engine :=
  mkEngine (en_world e) (en_ctx e) (en_pending e)
    (if mem run_id (en_cancels e) then en_cancels e else en_cancels e ++ [run_id]).

Definition ctx_cancel (c : RunContext) : RunContext :=
  mkCtx (c_run_id c) (c_workflow_id c) (c_def c) (c_variables c) (c_project_id c) (c_trigger_payload c)
    (c_visits c) true (c_dry_run c) (c_arrived_via c).
Definition ctx_variables (v : pydict) (c : RunContext) : RunContext :=
  mkCtx (c_run_id c) (c_workflow_id c) (c_def c) v (c_project_id c) (c_trigger_payload c)
    (c_visits c) (c_cancelled c) (c_dry_run c) (c_arrived_via c).
(** Arrival at a node: the edge taken, and one more visit. *)
Definition ctx_arrive (via : option string) (node_id : string) (c : RunContext) : RunContext :=
  mkCtx (c_run_id c) (c_workflow_id c) (c_def c) (c_variables c) (c_project_id c) (c_trigger_payload c)
    (<[node_id := default 0 (c_visits c !! node_id) + 1]> (c_visits c))
    (c_cancelled c) (c_dry_run c) via.

Definition cancel (e : Engine) : Engine := set_ctx (ctx_cancel (en_ctx e)) e.

(** ** Ending a run *)

(** [_finalize_run] *)
Definition finalize_run (run_id : string) (s : RunState) (e : Engine) : bool * Engine :=
  let '(won, w) := finalize run_id s (en_world e) in
  if won then (true, queue_cancel run_id (set_world w e)) else (false, set_world w e).

(** [_fail_run] *)
Definition fail_run (e : Engine) : Engine :=
  snd (finalize_run (c_run_id (en_ctx e)) FAILED (cancel e)).

(** ** The step recorder *)

Definition emit_step_started (run_id : string) (step_id : nat) (w : World) : World :=
  add_audit (mkAudit "workflow.step_started" run_id None) (add_event (run_id, "workflow.step_started"%string) w).

Definition outcome_ended (o : StepOutcome) : bool := negb (step_live (o_state o)).

Definition record_outcome (run_id : string) (step_id : nat) (o : StepOutcome) (w : World) : World :=
  add_event (run_id, if decide (o_state o = S_FAILED) then "workflow.step_failed"%string
                     else "workflow.step_finished"%string)
    (update_step step_id (o_state o) (outcome_ended o) (o_output o) (o_error o) w).

Section engine.
Context `{External}.

(** The executor of a node, or the dry-run mock.  An exception becomes a failed
    outcome. *)
Definition run_executor (step : nat) (n : NodeSpec) (e : Engine) : StepOutcome * Engine :=
  let ctx := en_ctx e in
  if c_dry_run ctx && negb (bool_decide (ns_type n ∈ DRY_RUN_SAFE_TYPES)) then
    (outcome S_SUCCEEDED [("_dry_run"%string, VBool true); ("node_type"%string, VStr (NodeType_value (ns_type n)))]
       (normal_completion_port n), e)
  else match ns_type n with
  | TRIGGER => (trigger_execute n, e)
  | CONDITION => (condition_execute step ctx n, e)
  | PARALLEL => (parallel_execute, e)
  | END => (end_execute ctx n, e)
  | SUBAGENT_SPAWN => (subagent_spawn_execute, e)
  | SET_VARIABLE =>
      let '(o, v) := set_variable_execute step ctx n in (o, set_ctx (ctx_variables v ctx) e)
  | JOIN =>
      let '(o, j) := join_execute ctx n (w_joins (en_world e)) in
      (o, set_world (set_joins j (en_world e)) e)
  | WAIT_FOR_EVENT =>
      (wait_for_event_outcome n,
       set_world (set_waits (register_wait ctx n (w_waits (en_world e))) (en_world e)) e)
  | (AGENT_INVOCATION | APPROVAL_GATE | INSTRUCT) as t =>
      match ext_execute t step ctx n with
      | Some (o, v) => (o, set_ctx (ctx_variables v ctx) e)
      | None => (failed [] "default" "exception", e)
      end
  end.

(** [_advance_from], [rec] being [_execute_node]: whether an edge matched. *)
Definition advance_from (rec : string -> option string -> Engine -> option Engine)
    (node_id port : string) (e : Engine) : option (bool * Engine) :=
  let d := c_def (en_ctx e) in
  let outgoing := build_outgoing (parse_edges (d_edges d)) node_id in
  let matching :=
    match nodes_by_id d !! node_id with
    | Some n => if is_type PARALLEL n then outgoing
                else List.filter (fun x => String.eqb (es_port x) port) outgoing
    | None => List.filter (fun x => String.eqb (es_port x) port) outgoing
    end in
  match matching with
  | [] => Some (false, e)
  | [x] => e ← rec (es_to x) (Some (es_id x)) e; Some (true, e)
  | _ => Some (true, fold_left (fun e x =>
           enqueue (mkEnqueue "run_workflow_step" (c_run_id (en_ctx e)) (es_to x) 0 (Some (es_id x))) e)
           matching e)
  end.

(** [_apply_on_error] on a failed outcome. *)
Definition apply_on_error (rec : string -> option string -> Engine -> option Engine)
    (n : NodeSpec) (o : StepOutcome) (e : Engine) : option (StepOutcome * Engine) :=
  match oe_strategy (ns_on_error n) with
  | CONTINUE => Some (outcome S_SUCCEEDED (o_output o) (normal_completion_port n), e)
  | RETRY =>
      let key := (c_run_id (en_ctx e), ns_id n) in
      let new_count := default 0 (w_retry (en_world e) !! key) + 1 in
      let e := set_world (set_retry (insert key new_count) (en_world e)) e in
      if new_count <=? oe_retry_max (ns_on_error n) then
        let backoff_ms := Z.min (oe_retry_backoff_ms (ns_on_error n) * new_count) 60000 in
        Some (mkOutcome S_RUNNING [("__retry_count"%string, VInt new_count)] "default" None true false 0 "",
              enqueue (mkEnqueue "retry_workflow_node" (c_run_id (en_ctx e)) (ns_id n) backoff_ms None) e)
      else Some (o, e)
  | FALLBACK =>
      match oe_fallback_node_id (ns_on_error n) with
      | Some f =>
          if String.eqb f "" then Some (o, e)
          else e ← rec f None e;
               Some (mkOutcome S_SUCCEEDED [("fallback_node"%string, VStr f)] "default" None false true 0 "", e)
      | None => Some (o, e)
      end
  | FAIL => Some (o, e)
  end.

Definition has_outgoing (d : definition) (node_id : string) : bool :=
  existsb (fun e => String.eqb (e_from e) node_id) (d_edges d).

(** What follows the executor's outcome, once it is recorded: park, stop, end, fail
    or advance. *)
Definition follow (rec : string -> option string -> Engine -> option Engine)
    (n : NodeSpec) (node_id : string) (o : StepOutcome) (continued : bool) (e : Engine) : option Engine :=
  let rid := c_run_id (en_ctx e) in
  let '(updated, w) := update_variables rid (c_variables (en_ctx e)) (en_world e) in
  let e := set_world w e in
  if negb updated then Some e else
  let e := if bool_decide (ns_type n = SET_VARIABLE) && bool_decide (o_state o = S_SUCCEEDED)
           then enqueue (mkEnqueue "workflow_variable_signal" rid node_id 0 None) e else e in
  if o_park o then
    let '(_, w) := update_state rid WAITING false (en_world e) in
    let e := set_world w e in
    Some (if (0 <? o_timeout_ms o) && negb (String.eqb (o_timeout_task o) "")
          then enqueue (mkEnqueue (o_timeout_task o) rid node_id (o_timeout_ms o) None) e else e)
  else if o_skip_edges o then Some e
  else if bool_decide (ns_type n = END) then
    Some (snd (finalize_run rid (if String.eqb (cfg_str "status" "success" (ns_config n)) "success"
                                 then SUCCEEDED else FAILED) e))
  else if bool_decide (o_state o = S_FAILED) then Some (fail_run e)
  else
    '(advanced, e) ← advance_from rec node_id (o_port o) e;
    Some (if continued && negb advanced && has_outgoing (c_def (en_ctx e)) node_id then fail_run e else e).

(** [_execute_node] *)
Fixpoint execute_node (fuel : nat) (node_id : string) (from_edge : option string) (e : Engine)
    : option Engine :=
  match fuel with
  | O => None
  | S fuel =>
      if c_cancelled (en_ctx e) then Some e else
      let rid := c_run_id (en_ctx e) in
      let '(run, w) := run_get rid (en_world e) in
      let e := set_world w e in
      match run with
      | None => Some (cancel e)
      | Some r =>
          if is_terminal (rr_state r) then Some (cancel e) else
          let e := set_ctx (ctx_arrive from_edge node_id (en_ctx e)) e in
          let d := c_def (en_ctx e) in
          if max_visits_per_node d <? default 0 (c_visits (en_ctx e) !! node_id) then Some (fail_run e)
          else match nodes_by_id d !! node_id with
          | None => Some (fail_run e)
          | Some raw =>
              let n := parse_node raw in
              let '(step, w) := insert_if_run_active rid node_id S_RUNNING (ns_config n) (en_world e) in
              let e := set_world w e in
              match step with
              | None => Some (cancel e)
              | Some step_id =>
                  let e := set_world (emit_step_started rid step_id (en_world e)) e in
                  let '(o, e) := run_executor step_id n e in
                  '(o', e) ← (if bool_decide (o_state o = S_FAILED)
                              then apply_on_error (execute_node fuel) n o e else Some (o, e));
                  let e := set_world (record_outcome rid step_id o' (en_world e)) e in
                  follow (execute_node fuel) n node_id o'
                    (bool_decide (o_state o = S_FAILED) && bool_decide (oe_strategy (ns_on_error n) = CONTINUE)) e
              end
          end
      end
  end.

(** ** Entry points *)

(** Visits left before the loop guard stops a continuation: one per node and visit,
    and the visit it rejects. *)
Definition run_fuel (d : definition) : nat :=
  S (length (node_ids d) * Z.to_nat (max_visits_per_node d)).

Definition new_ctx (run_id : string) (r : RunRow) (d : definition) : RunContext :=
  mkCtx run_id (rr_workflow_id r) d (rr_variables r) (rr_project_id r) (rr_payload r) ∅ false
    (String.eqb (rr_trigger_type r) "dry_run") None.

(** The queues of an engine between calls. *)
Record Queues := mkQueues { q_pending : list PendingEnqueue; q_cancels : list string }.
Definition queues (e : Engine) : Queues := mkQueues (en_pending e) (en_cancels e).
Definition engine (w : World) (c : RunContext) (q : Queues) : Engine :=
  mkEngine w c (q_pending q) (q_cancels q).

(** [finalize_run] from an entry point that has no context. *)
Definition finalize_entry (run_id : string) (s : RunState) (w : World) (q : Queues) : bool * World * Queues :=
  let '(won, w) := finalize run_id s w in
  (won, w, if won then mkQueues (q_pending q)
    (if mem run_id (q_cancels q) then q_cancels q else q_cancels q ++ [run_id]) else q).

(** [start_run]: [run_id] is the id the database gives the new row. *)
Definition start_run (run_id workflow_id : string) (project : option string) (d : definition)
    (trigger_type : string) (payload : pydict) (is_dry_run : bool) (w : World) (q : Queues)
    : option (World * Queues) :=
  let variables := fold_left (fun v '(name, decl) => dict_set name (dict_get_none "default" decl) v)
                     (d_variables d) [] in
  let w := insert_run run_id workflow_id project trigger_type variables payload w in
  let w := add_event (run_id, "workflow.run_started"%string)
             (add_audit (mkAudit "workflow.run_started" run_id None) w) in
  let ctx := mkCtx run_id workflow_id d variables project payload ∅ false is_dry_run None in
  e ← execute_node (run_fuel d) (d_entry d) None (engine w ctx q);
  Some (en_world e, queues e).

(** [_prepare_continuation] *)
Definition prepare_continuation (run_id : string) (w : World) (q : Queues)
    : option RunContext * World * Queues :=
  let '(run, w) := run_get run_id w in
  match run with
  | None => (None, w, q)
  | Some r =>
      if negb (active (rr_state r)) then (None, w, q) else
      let '(wf, w) := workflow_get (rr_workflow_id r) w in
      match wf with
      | None => let '(_, w, q) := finalize_entry run_id FAILED w q in (None, w, q)
      | Some d => (Some (new_ctx run_id r d), yield w, q)
      end
  end.

(** [run_step] *)
Definition run_step (run_id node_id : string) (from_edge : option string) (w : World) (q : Queues)
    : option (World * Queues) :=
  let '(ctx, w, q) := prepare_continuation run_id w q in
  match ctx with
  | None => Some (w, q)
  | Some ctx =>
      e ← execute_node (run_fuel (c_def ctx)) node_id from_edge (engine w ctx q);
      Some (en_world e, queues e)
  end.

Definition cancel_step (st : StepRow) : StepRow :=
  mkStep (st_run_id st) (st_node_id st) S_CANCELLED true (st_input st) (st_output st) (st_error st).

(** [retry_node] *)
Definition retry_node (run_id node_id : string) (w : World) (q : Queues) : option (World * Queues) :=
  let '(run, w) := run_get run_id w in
  match run with
  | None => Some (w, q)
  | Some r =>
      if negb (active (rr_state r)) then Some (w, q) else
      let '(wf, w) := workflow_get (rr_workflow_id r) w in
      match wf with
      | None => Some (w, q)
      | Some d =>
          let '(claimed, w) := update_state run_id RUNNING false w in
          if negb claimed then Some (w, q) else
          let w := yield (seal_parked run_id node_id cancel_step w) in
          e ← execute_node (run_fuel d) node_id None (engine w (new_ctx run_id r d) q);
          Some (en_world e, queues e)
      end
  end.

Definition seal_step (port : string) (st : StepRow) : StepRow :=
  mkStep (st_run_id st) (st_node_id st)
    (if String.eqb port "timeout" || String.eqb port "failure" then S_FAILED else S_SUCCEEDED) true
    (st_input st) (dict_set "resume_port" (VStr port) (st_output st)) (st_error st).

(** [resume_at_port] *)
Definition resume_at_port (run_id node_id port : string) (w : World) (q : Queues)
    : option (bool * World * Queues) :=
  let '(run, w) := run_get run_id w in
  match run with
  | None => Some (false, w, q)
  | Some r =>
      if negb (bool_decide (rr_state r = WAITING)) then Some (false, w, q) else
      let '(wf, w) := workflow_get (rr_workflow_id r) w in
      match wf with
      | None => let '(_, w, q) := finalize_entry run_id FAILED w q in Some (false, w, q)
      | Some d =>
          let '(claimed, w) := update_state run_id RUNNING false (yield w) in
          if negb claimed then Some (false, w, q) else
          let w := seal_parked run_id node_id (seal_step port) w in
          '(advanced, e) ← advance_from (execute_node (run_fuel d)) node_id port
                             (engine w (new_ctx run_id r d) q);
          let e := if negb advanced && has_outgoing (c_def (en_ctx e)) node_id then fail_run e else e in
          Some (true, en_world e, queues e)
      end
  end.

(** [force_fail] and [cancel_run] *)
Definition end_from_outside (run_id : string) (s : RunState) (w : World) (q : Queues)
    : bool * World * Queues :=
  let '(run, w) := run_get run_id w in
  match run with
  | None => (false, w, q)
  | Some r => if negb (active (rr_state r)) then (false, w, q) else finalize_entry run_id s w q
  end.
Definition force_fail (run_id : string) := end_from_outside run_id FAILED.
Definition cancel_run (run_id : string) := end_from_outside run_id CANCELLED.
End engine.
