(* ===== verification/RunEngineFacts.v ===== *)
(** * The run engine: safety and termination

    Every engine call moves the store along [RunStore.good], whatever the other
    workers do in between, and returns with the fuel its entry point gives it. *)

From S2P Require Import Prelude PyFloat PyValue SelEval WorkflowModels Graph Linter LinterFacts Join RunStore Executors RunEngine.
(** ** Safety *)

Definition egood (e e' : Engine) : Prop := good (en_world e) (en_world e').
#[export] Instance egood_preorder : PreOrder egood.
Proof. split; [intros e; unfold egood; reflexivity|intros e1 e2 e3 H1 H2; unfold egood in *; by etrans]. Qed.

Lemma egood_world w e : good (en_world e) w -> egood e (set_world w e).
Proof. done. Qed.
Lemma egood_same e e' : en_world e' = en_world e -> egood e e'.
Proof. unfold egood. intros ->. reflexivity. Qed.

Lemma finalize_run_good rid s e : is_terminal s = true -> egood e (snd (finalize_run rid s e)).
Proof.
  intros Hs. unfold finalize_run. pose proof (finalize_good rid s (en_world e) Hs) as H.
  by destruct (finalize rid s (en_world e)) as [[] w].
Qed.
Lemma fail_run_good e : egood e (fail_run e).
Proof. unfold fail_run. etrans; [apply (egood_same e (cancel e)); done|by apply finalize_run_good]. Qed.

Lemma emit_step_started_good rid i w : good w (emit_step_started rid i w).
Proof.
  unfold emit_step_started. etrans; [|by apply add_audit_good]. by apply good_same.
Qed.
Lemma record_outcome_good rid i o w : good w (record_outcome rid i o w).
Proof. unfold record_outcome. etrans; [apply update_step_good|]. by apply good_same. Qed.

Lemma enqueue_all_world {A} (f : Engine -> A -> PendingEnqueue) l e :
  en_world (fold_left (fun e x => enqueue (f e x) e) l e) = en_world e.
Proof. revert e. induction l as [|x l IH]; intros e; simpl; [done|]. by rewrite IH. Qed.

Lemma cancel_step_ids st :
  st_run_id (cancel_step st) = st_run_id st /\ st_node_id (cancel_step st) = st_node_id st.
Proof. done. Qed.

Section facts.
Context `{External}.
Definition rec_good (rec : string -> option string -> Engine -> option Engine) : Prop :=
  forall x v e e', rec x v e = Some e' -> egood e e'.

Lemma run_executor_good i n e : egood e (snd (run_executor i n e)).
Proof.
  unfold run_executor. destruct (c_dry_run _ && _); [reflexivity|].
  destruct (ns_type n); try reflexivity;
    try (destruct (ext_execute _ _ _ _) as [[o v]|]; [by apply egood_same|reflexivity]).
  - apply egood_world. by apply good_same.
  - destruct (join_execute _ _ _) as [o j]. apply egood_world. by apply good_same.
  - destruct (set_variable_execute _ _ _) as [o v]. by apply egood_same.
Qed.

Lemma advance_from_good rec x p e b e' :
  rec_good rec -> advance_from rec x p e = Some (b, e') -> egood e e'.
Proof.
  intros Hrec. unfold advance_from.
  destruct (match nodes_by_id _ !! x with Some _ => _ | None => _ end) as [|y [|z l]].
  - intros [= <- <-]. reflexivity.
  - intros (e1 & He1 & [= <- <-])%bind_Some. by eapply Hrec.
  - intros [= <- <-]. apply egood_same.
    by rewrite (enqueue_all_world (fun e x => mkEnqueue "run_workflow_step" (c_run_id (en_ctx e)) (es_to x) 0 (Some (es_id x))) l).
Qed.

Lemma apply_on_error_good rec n o e o' e' :
  rec_good rec -> apply_on_error rec n o e = Some (o', e') -> egood e e'.
Proof.
  intros Hrec. unfold apply_on_error. destruct (oe_strategy _).
  - intros [= <- <-]. reflexivity.
  - intros [= <- <-]. reflexivity.
  - destruct (_ <=? _); intros [= <- <-]; apply egood_world; by apply good_same.
  - destruct (oe_fallback_node_id _) as [f|]; [|intros [= <- <-]; reflexivity].
    destruct (String.eqb f ""); [intros [= <- <-]; reflexivity|].
    intros (e1 & He1 & [= <- <-])%bind_Some. by eapply Hrec.
Qed.

Lemma follow_good rec n x o c e e' :
  rec_good rec -> follow rec n x o c e = Some e' -> egood e e'.
Proof.
  intros Hrec. unfold follow. set (rid := c_run_id _).
  pose proof (update_variables_good rid (c_variables (en_ctx e)) (en_world e)) as Hu.
  destruct (update_variables rid _ (en_world e)) as [[] w]; simpl in Hu; cbn [negb];
    [|intros [= <-]; exact Hu].
  set (e1 := if _ && _ then _ else _).
  assert (He1 : egood e e1) by (unfold e1; by case_match).
  clearbody e1. clear Hu w. destruct (o_park o).
  { pose proof (update_state_good rid WAITING false (en_world e1)) as Hw.
    destruct (update_state rid WAITING false (en_world e1)) as [b w]. simpl in Hw.
    intros [= <-]. etrans; [exact He1|]. by case_match. }
  destruct (o_skip_edges o); [by intros [= <-]|].
  case_bool_decide.
  { intros [= <-]. etrans; [exact He1|]. apply finalize_run_good. by case_match. }
  case_bool_decide; [intros [= <-]; etrans; [exact He1|apply fail_run_good]|].
  intros ([b e2] & Ha & [= <-])%bind_Some. apply advance_from_good in Ha; [|done].
  etrans; [exact He1|]. etrans; [exact Ha|]. case_match; [apply fail_run_good|reflexivity].
Qed.

Lemma execute_node_good fuel : rec_good (execute_node fuel).
Proof.
  induction fuel as [|fuel IH]; intros x v e e'; [done|]. cbn [execute_node].
  destruct (c_cancelled (en_ctx e)); [intros [= <-]; reflexivity|]. set (rid := c_run_id _).
  pose proof (run_get_good rid (en_world e)) as Hg.
  destruct (run_get rid (en_world e)) as [run w]. simpl in Hg.
  destruct run as [r|]; [|by intros [= <-]]. destruct (is_terminal _); [by intros [= <-]|].
  set (e1 := set_ctx _ _). assert (He1 : egood e e1) by done. clearbody e1. clear Hg w.
  destruct (_ <? _); [intros [= <-]; etrans; [exact He1|apply fail_run_good]|].
  destruct (nodes_by_id _ !! x) as [raw|]; [|intros [= <-]; etrans; [exact He1|apply fail_run_good]].
  pose proof (insert_if_run_active_good rid x S_RUNNING (ns_config (parse_node raw)) (en_world e1)) as Hi.
  destruct (insert_if_run_active _ _ _ _ _) as [[i|] w]; simpl in Hi;
    [|intros [= <-]; etrans; [exact He1|exact Hi]].
  set (e2 := set_world (emit_step_started _ _ _) _).
  assert (He2 : egood e e2).
  { etrans; [exact He1|]. etrans; [apply (egood_world w e1 Hi)|]. apply egood_world, emit_step_started_good. }
  clearbody e2. clear Hi w He1 e1.
  pose proof (run_executor_good i (parse_node raw) e2) as He3.
  destruct (run_executor i (parse_node raw) e2) as [o e3]. simpl in He3.
  intros ([o' e4] & Hoe & Hf)%bind_Some.
  assert (He4 : egood e3 e4).
  { case_bool_decide; [by eapply apply_on_error_good|by injection Hoe as <- <-]. }
  apply follow_good in Hf; [|done]. etrans; [exact He2|]. etrans; [exact He3|]. etrans; [exact He4|].
  etrans; [|exact Hf]. apply egood_world, record_outcome_good.
Qed.

Lemma finalize_entry_good rid s w q : is_terminal s = true ->
  good w (finalize_entry rid s w q).1.2.
Proof.
  intros Hs. unfold finalize_entry. pose proof (finalize_good rid s w Hs) as Hf.
  by destruct (finalize rid s w) as [b w'].
Qed.

Lemma prepare_continuation_good rid w q : good w (prepare_continuation rid w q).1.2.
Proof.
  unfold prepare_continuation. pose proof (run_get_good rid w) as Hg.
  destruct (run_get rid w) as [[r|] w1]; simpl in Hg; [|exact Hg].
  destruct (negb _); [exact Hg|]. pose proof (workflow_get_good (rr_workflow_id r) w1) as Hw.
  destruct (workflow_get _ w1) as [[d|] w2]; simpl in Hw.
  - etrans; [exact Hg|]. etrans; [exact Hw|]. apply yield_good.
  - pose proof (finalize_entry_good rid FAILED w2 q eq_refl) as Hf.
    destruct (finalize_entry rid FAILED w2 q) as [[b w3] q']. simpl in *.
    etrans; [exact Hg|]. by etrans.
Qed.

Lemma run_step_good rid x v w q w' q' : run_step rid x v w q = Some (w', q') -> good w w'.
Proof.
  unfold run_step. pose proof (prepare_continuation_good rid w q) as Hp.
  destruct (prepare_continuation rid w q) as [[[ctx|] w1] q1]; simpl in Hp; [|by intros [= <- <-]].
  intros (e & He & [= <- <-])%bind_Some. apply execute_node_good in He. etrans; [exact Hp|exact He].
Qed.

Lemma retry_node_good rid x w q w' q' : retry_node rid x w q = Some (w', q') -> good w w'.
Proof.
  unfold retry_node. pose proof (run_get_good rid w) as Hg.
  destruct (run_get rid w) as [[r|] w1]; simpl in Hg; [|by intros [= <- <-]].
  destruct (negb _); [by intros [= <- <-]|]. pose proof (workflow_get_good (rr_workflow_id r) w1) as Hw.
  destruct (workflow_get _ w1) as [[d|] w2]; simpl in Hw; [|intros [= <- <-]; by etrans].
  pose proof (update_state_good rid RUNNING false w2) as Hu.
  destruct (update_state rid RUNNING false w2) as [[] w3]; simpl in Hu; cbn [negb];
    [|intros [= <- <-]; etrans; [exact Hg|]; by etrans].
  intros (e & He & [= <- <-])%bind_Some. apply execute_node_good in He.
  etrans; [exact Hg|]. etrans; [exact Hw|]. etrans; [exact Hu|]. etrans; [|exact He].
  simpl. etrans; [apply seal_parked_good, cancel_step_ids|apply yield_good].
Qed.

Lemma resume_at_port_good rid x p w q b w' q' :
  resume_at_port rid x p w q = Some (b, w', q') -> good w w'.
Proof.
  unfold resume_at_port. pose proof (run_get_good rid w) as Hg.
  destruct (run_get rid w) as [[r|] w1]; simpl in Hg; [|by intros [= <- <- <-]].
  destruct (negb _); [by intros [= <- <- <-]|]. pose proof (workflow_get_good (rr_workflow_id r) w1) as Hw.
  destruct (workflow_get _ w1) as [[d|] w2]; simpl in Hw.
  - pose proof (update_state_good rid RUNNING false (yield w2)) as Hu.
    destruct (update_state rid RUNNING false (yield w2)) as [[] w3]; simpl in Hu; cbn [negb].
    + intros ([a e] & He & [= <- <- <-])%bind_Some. apply advance_from_good in He; [|apply execute_node_good].
      etrans; [exact Hg|]. etrans; [exact Hw|]. etrans; [apply yield_good|]. etrans; [exact Hu|].
      etrans; [by apply (seal_parked_good rid x (seal_step p))|]. etrans; [exact He|].
      case_match; [apply fail_run_good|reflexivity].
    + intros [= <- <- <-]. etrans; [exact Hg|]. etrans; [exact Hw|]. etrans; [apply yield_good|exact Hu].
  - pose proof (finalize_entry_good rid FAILED w2 q eq_refl) as Hf.
    destruct (finalize_entry rid FAILED w2 q) as [[b' w3] q3]. simpl in *.
    intros [= <- <- <-]. etrans; [exact Hg|]. by etrans.
Qed.

Lemma end_from_outside_good rid s w q : is_terminal s = true ->
  good w (end_from_outside rid s w q).1.2.
Proof.
  intros Hs. unfold end_from_outside. pose proof (run_get_good rid w) as Hg.
  destruct (run_get rid w) as [[r|] w1]; simpl in Hg; [|exact Hg].
  destruct (negb _); [exact Hg|]. etrans; [exact Hg|by apply finalize_entry_good].
Qed.

(** A new run: its id is new to the store. *)
Lemma insert_run_good rid wid p t v pl w :
  w_runs (yield w) !! rid = None -> good w (insert_run rid wid p t v pl w).
Proof.
  intros Hnew. etrans; [apply yield_good|]. unfold insert_run. apply good_set_runs.
  intros rid' r Hr. exists r. rewrite lookup_insert_ne by congruence. split; [done|apply row_le_refl].
Qed.

Lemma start_run_good rid wid p d t pl dry w q w' q' :
  w_runs (yield w) !! rid = None ->
  start_run rid wid p d t pl dry w q = Some (w', q') -> good w w'.
Proof.
  intros Hnew. unfold start_run. intros (e & He & [= <- <-])%bind_Some.
  apply execute_node_good in He. etrans; [by apply insert_run_good|]. etrans; [|exact He].
  simpl. etrans; [by apply (add_audit_good (mkAudit "workflow.run_started" rid None))|].
  by apply good_same.
Qed.
End facts.

(** ** Termination *)

(** The visits the loop guard still allows. *)
Definition visits_left (d : definition) (visits : gmap string Z) : nat :=
  sum_list (map (fun x => Z.to_nat (max_visits_per_node d - default 0 (visits !! x))) (node_ids d)).

Lemma sum_list_le {A} (f g : A -> nat) l : (forall x, (f x <= g x)%nat) -> (sum_list (map f l) <= sum_list (map g l))%nat.
Proof. intros Hfg. induction l as [|x l IH]; simpl; [done|]. specialize (Hfg x). lia. Qed.
Lemma sum_list_lt {A} (f g : A -> nat) l x :
  (forall x, (f x <= g x)%nat) -> In x l -> (f x < g x)%nat -> (sum_list (map f l) < sum_list (map g l))%nat.
Proof.
  intros Hfg Hx Hlt. induction l as [|y l IH]; simpl; [done|].
  pose proof (Hfg y). pose proof (sum_list_le f g l Hfg). destruct Hx as [->|Hx]; [lia|]. specialize (IH Hx). lia.
Qed.

Lemma visits_left_arrive d visits x :
  In x (node_ids d) -> default 0 (visits !! x) + 1 <= max_visits_per_node d ->
  (visits_left d (<[x := (default 0 (visits !! x) + 1)%Z]> visits) < visits_left d visits)%nat.
Proof.
  intros Hx Hle. unfold visits_left. apply (sum_list_lt _ _ _ x); [|done|].
  - intros y. destruct (decide (x = y)) as [->|]; [rewrite lookup_insert_eq; simpl; lia|].
    by rewrite lookup_insert_ne.
  - rewrite lookup_insert_eq. simpl. lia.
Qed.

Lemma visits_left_start d : (visits_left d ∅ <= length (node_ids d) * Z.to_nat (max_visits_per_node d))%nat.
Proof.
  unfold visits_left. induction (node_ids d) as [|x l IH]; simpl; [lia|].
  rewrite lookup_empty. simpl. rewrite Z.sub_0_r. lia.
Qed.

(** The part of the state that the recursion depends on. *)
Definition same_guard (e e' : Engine) : Prop :=
  c_def (en_ctx e') = c_def (en_ctx e) /\ c_visits (en_ctx e') = c_visits (en_ctx e).
Definition left_of (e : Engine) : nat := visits_left (c_def (en_ctx e)) (c_visits (en_ctx e)).

Lemma same_guard_left e e' : same_guard e e' -> left_of e' = left_of e.
Proof. intros [H1 H2]. unfold left_of. by rewrite H1, H2. Qed.

Section total.
Context `{External}.
Definition rec_total (fuel : nat) (rec : string -> option string -> Engine -> option Engine) : Prop :=
  forall x v e, (left_of e < fuel)%nat -> is_Some (rec x v e).

Lemma run_executor_guard i n e : same_guard e (snd (run_executor i n e)).
Proof.
  unfold run_executor. destruct (c_dry_run _ && _); [done|].
  destruct (ns_type n); try done;
    try (by destruct (ext_execute _ _ _ _) as [[o v]|]).
  - by destruct (join_execute _ _ _).
  - by destruct (set_variable_execute _ _ _).
Qed.

Lemma advance_from_total fuel rec x p e :
  rec_total fuel rec -> (left_of e < fuel)%nat -> is_Some (advance_from rec x p e).
Proof.
  intros Hrec Hl. unfold advance_from.
  destruct (match nodes_by_id _ !! x with Some _ => _ | None => _ end) as [|y [|z l]]; [eauto| |eauto].
  destruct (Hrec (es_to y) (Some (es_id y)) e Hl) as [e' ->]. simpl. eauto.
Qed.

(** A recovered failure either leaves the guard alone or follows no edge. *)
Lemma apply_on_error_total fuel rec n o e :
  rec_total fuel rec -> (left_of e < fuel)%nat ->
  exists o' e', apply_on_error rec n o e = Some (o', e') /\
    (same_guard e e' \/ o_skip_edges o' = true /\ o_park o' = false).
Proof.
  intros Hrec Hl. unfold apply_on_error. destruct (oe_strategy _).
  - exists o, e. split; [done|by left].
  - eexists _, _. split; [done|by left].
  - case_match; eexists _, _; (split; [done|by left]).
  - destruct (oe_fallback_node_id _) as [f|]; [|exists o, e; split; [done|by left]].
    destruct (String.eqb f ""); [exists o, e; split; [done|by left]|].
    destruct (Hrec f None e Hl) as [e' ->]. simpl. eexists _, _. split; [done|by right].
Qed.

Lemma follow_total fuel rec n x o c e :
  rec_total fuel rec -> (left_of e < fuel)%nat \/ o_skip_edges o = true /\ o_park o = false ->
  is_Some (follow rec n x o c e).
Proof.
  intros Hrec Hl. unfold follow. destruct (update_variables _ _ _) as [[] w]; cbn [negb]; [|eauto].
  set (e1 := if _ && _ then _ else _).
  assert (He1 : left_of e1 = left_of e) by (unfold e1; by case_match).
  clearbody e1. destruct (o_park o); [destruct (update_state _ _ _ _); eauto|].
  destruct (o_skip_edges o); [eauto|]. destruct Hl as [Hl|[? _]]; [|done].
  case_bool_decide; [eauto|]. case_bool_decide; [eauto|]. rewrite <- He1 in Hl.
  destruct (advance_from_total fuel rec x (o_port o) e1 Hrec Hl) as [[b e2] ->]. simpl. eauto.
Qed.

Lemma execute_node_total fuel : rec_total fuel (execute_node fuel).
Proof.
  induction fuel as [|fuel IH]; intros x v e Hl; [lia|]. cbn [execute_node].
  destruct (c_cancelled (en_ctx e)); [eauto|]. destruct (run_get _ _) as [[r|] w]; [|eauto].
  destruct (is_terminal _); [eauto|].
  cbn [en_ctx set_ctx set_world ctx_arrive c_def c_visits].
  destruct (_ <? _) eqn:Eg; [eauto|]. apply Z.ltb_ge in Eg.
  destruct (nodes_by_id _ !! x) as [raw|] eqn:En; [|eauto].
  rewrite lookup_insert_eq in Eg. simpl in Eg.
  destruct (insert_if_run_active _ _ _ _ _) as [[i|] w']; [|eauto].
  set (e2 := set_world (emit_step_started _ _ _) _).
  assert (He2 : (left_of e2 < fuel)%nat).
  { unfold e2, left_of. cbn [en_ctx set_ctx set_world ctx_arrive c_def c_visits].
    pose proof (visits_left_arrive (c_def (en_ctx e)) (c_visits (en_ctx e)) x
      ltac:(apply known_node; eauto) Eg) as Hlt. unfold left_of in Hl. lia. }
  clearbody e2. pose proof (run_executor_guard i (parse_node raw) e2) as Hg.
  destruct (run_executor i (parse_node raw) e2) as [o e3]. simpl in Hg.
  assert (He3 : (left_of e3 < fuel)%nat) by (by rewrite (same_guard_left _ _ Hg)).
  assert (Hoe : exists o' e', (if bool_decide (o_state o = S_FAILED)
      then apply_on_error (execute_node fuel) (parse_node raw) o e3 else Some (o, e3)) = Some (o', e') /\
      (same_guard e3 e' \/ o_skip_edges o' = true /\ o_park o' = false)).
  { case_bool_decide; [by apply (apply_on_error_total fuel)|]. exists o, e3. split; [done|by left]. }
  destruct Hoe as (o' & e4 & -> & Hg4). simpl. apply (follow_total fuel); [done|].
  destruct Hg4 as [Hg4|?]; [left|by right].
  change (left_of (set_world _ e4)) with (left_of e4). by rewrite (same_guard_left _ _ Hg4).
Qed.

Lemma execute_start x v e d :
  c_def (en_ctx e) = d -> c_visits (en_ctx e) = ∅ -> is_Some (execute_node (run_fuel d) x v e).
Proof.
  intros <- Hv. apply execute_node_total. unfold left_of, run_fuel. rewrite Hv.
  pose proof (visits_left_start (c_def (en_ctx e))). lia.
Qed.
End total.

(** * Properties *)

(** C2. The loop guard makes every call terminate: starting a run, running a branch,
    retrying a node and resuming a parked run all return, for any definition, any
    outside world and any interleaving, within [max_visits_per_node] visits of each
    node of the definition. *)
Theorem engine_terminates `{External} w q rid wid p d t pl dry x v port :
  is_Some (start_run rid wid p d t pl dry w q) /\ is_Some (run_step rid x v w q) /\
  is_Some (retry_node rid x w q) /\ is_Some (resume_at_port rid x port w q).
Proof.
  split; [|split; [|split]].
  - unfold start_run. set (e := engine _ _ _). destruct (execute_start (d_entry d) None e d) as [e' ->]; [done..|].
    simpl. eauto.
  - unfold run_step. destruct (prepare_continuation rid w q) as [[[ctx|] w'] q'] eqn:E; [|eauto].
    assert (c_visits ctx = ∅) as Hv.
    { unfold prepare_continuation in E. destruct (run_get rid w) as [[r|] w1]; [|done].
      destruct (negb _); [done|]. destruct (workflow_get _ w1) as [[d'|] w2].
      - by injection E as <- _ _.
      - by destruct (finalize_entry _ _ _ _) as [[? ?] ?]. }
    destruct (execute_start x v (engine w' ctx q') (c_def ctx)) as [e' ->]; [done..|]. simpl. eauto.
  - unfold retry_node. destruct (run_get rid w) as [[r|] w1]; [|eauto]. destruct (negb _); [eauto|].
    destruct (workflow_get _ w1) as [[d'|] w2]; [|eauto]. destruct (update_state _ _ _ _) as [[] w3]; cbn [negb]; [|eauto].
    set (e := engine _ _ _). destruct (execute_start x None e d') as [e' ->]; [done..|]. simpl. eauto.
  - unfold resume_at_port. destruct (run_get rid w) as [[r|] w1]; [|eauto]. destruct (negb _); [eauto|].
    destruct (workflow_get _ w1) as [[d'|] w2].
    + destruct (update_state _ _ _ _) as [[] w3]; cbn [negb]; [|eauto].
      set (e := engine _ _ _).
      destruct (advance_from_total (run_fuel d') (execute_node (run_fuel d')) x port e) as [[b e'] ->];
        [apply execute_node_total| |simpl; eauto].
      pose proof (visits_left_start d'). unfold left_of, e, run_fuel. simpl. lia.
    + destruct (finalize_entry _ _ _ _) as [[? ?] ?]. eauto.
Qed.

(** One call of the engine, by any worker, or a commit of another transaction. *)
Inductive call `{External} (w : World) : World -> Prop :=
  | call_start rid wid p d t pl dry q w' q' : w_runs (yield w) !! rid = None ->
      start_run rid wid p d t pl dry w q = Some (w', q') -> call w w'
  | call_step rid x v q w' q' : run_step rid x v w q = Some (w', q') -> call w w'
  | call_retry rid x q w' q' : retry_node rid x w q = Some (w', q') -> call w w'
  | call_resume rid x p q b w' q' : resume_at_port rid x p w q = Some (b, w', q') -> call w w'
  | call_end rid s q b w' q' : is_terminal s = true -> end_from_outside rid s w q = (b, w', q') -> call w w'
  | call_other f : call w (apply_foreign f w)
  | call_schedule s : call w (set_sched s w).

Lemma call_good `{External} w w' : call w w' -> good w w'.
Proof.
  intros [].
  - by eapply start_run_good.
  - by eapply run_step_good.
  - by eapply retry_node_good.
  - by eapply resume_at_port_good.
  - pose proof (end_from_outside_good rid s w q ltac:(done)) as Hg. by destruct (end_from_outside rid s w q) as [[? ?] ?]; simplify_eq.
  - apply apply_foreign_good.
  - by apply good_same.
Qed.

(** C1. The life of a run.  Over any sequence of engine calls and commits of other
    workers, interleaved in any way, every run moves only along the legal state
    transitions; once it has ended its state, variables and end never change again,
    no node of it is ever started and nothing more is recorded about its end; and the
    end of a run is recorded at most once, never before it has ended. *)
Theorem run_lifecycle `{External} w w' :
  audit_ok w -> rtc call w w' ->
  audit_ok w' /\
  (forall rid r, w_runs w !! rid = Some r -> exists r', w_runs w' !! rid = Some r' /\
     rtc transition (rr_state r) (rr_state r') /\
     (is_terminal (rr_state r) = true ->
        rr_state r' = rr_state r /\ rr_variables r' = rr_variables r /\ rr_ended r' = rr_ended r /\
        steps_of rid w' = steps_of rid w /\ terminal_audits rid w' = terminal_audits rid w)).
Proof.
  intros Hok Hcalls.
  assert (Hg : good w w').
  { induction Hcalls as [w|w1 w2 w3 Hc _ IH]; [reflexivity|]. pose proof (call_good _ _ Hc) as Hg.
    etrans; [exact Hg|]. apply IH. by apply Hg. }
  destruct Hg as [He Ha]. split; [by apply Ha|]. intros rid r Hr.
  destruct (ev_run _ _ He rid r Hr) as (r' & Hr' & [H1 H2 H3]). exists r'. split; [done|]. split; [done|].
  intros Ht. destruct (H3 Ht). destruct (ev_ended _ _ He rid r Hr Ht).
  split; [by apply terminal_stuck|]. done.
Qed.

(** ** A sample run *)

#[export] Instance sample_ext : External := {
  ext_execute := fun _ _ _ _ => None;
  sel_env := fun _ _ => frozen;
  step_now := fun _ => fzero false;
  croniter_is_valid := None;
}.
Definition empty_world : World :=
  mkWorld ∅ ∅ [] [] [] ∅ (mkJoin ∅ ∅ ∅) (mkWaits ∅ ∅ ∅) [].
Definition no_queues : Queues := mkQueues [] [].
Definition started : option (World * Queues) :=
  start_run "r1" "wf" None sample_def "manual" [] false empty_world no_queues.
Definition started_world : World := match started with Some (w, _) => w | None => empty_world end.

(** The condition of [sample_def] is false at its default [n = 0], so the run fails. *)
Example started_state :
  rr_state <$> w_runs started_world !! "r1"%string = Some FAILED /\
  map st_node_id (w_steps started_world) = ["start"; "check"; "ko"]%string /\
  terminal_audits "r1" started_world = 1%nat.
Proof. vm_compute. done. Qed.

Lemma empty_audit_ok : audit_ok empty_world.
Proof. intros rid. reflexivity. Qed.

Definition started_queues : Queues := match started with Some (_, q) => q | None => no_queues end.

Lemma started_call : call empty_world started_world.
Proof.
  apply (call_start empty_world "r1" "wf" None sample_def "manual" [] false no_queues started_world
    started_queues); [done|]. change (started = Some (started_world, started_queues)).
  assert (Hs : match started with Some _ => true | None => false end = true) by (vm_compute; reflexivity).
  unfold started_world, started_queues. by destruct started as [[w q]|].
Qed.

Lemma run_lifecycle_witness :
  audit_ok started_world /\
  (forall rid r, w_runs empty_world !! rid = Some r -> exists r', w_runs started_world !! rid = Some r' /\
     rtc transition (rr_state r) (rr_state r') /\
     (is_terminal (rr_state r) = true ->
        rr_state r' = rr_state r /\ rr_variables r' = rr_variables r /\ rr_ended r' = rr_ended r /\
        steps_of rid started_world = steps_of rid empty_world /\
        terminal_audits rid started_world = terminal_audits rid empty_world)).
Proof.
  apply (run_lifecycle empty_world started_world); [exact empty_audit_ok|].
  eapply rtc_l; [exact started_call|apply rtc_refl].
Defined.

(** ** Failures *)

(** An approval is never manufactured: when the executor of an approval gate
    fails or raises, no on-error strategy makes the gate succeed on any port but
    [rejected] (a fallback follows no port of the gate), and a dry run leaves every
    gate on [rejected]. *)
Theorem approval_fails_closed `{External} rec n o e o' e' step ed :
  ns_type n = APPROVAL_GATE ->
  (o_state o = S_FAILED -> apply_on_error rec n o e = Some (o', e') -> o_state o' = S_SUCCEEDED ->
     o_port o' = "rejected"%string \/ o_skip_edges o' = true) /\
  (c_dry_run (en_ctx ed) = true -> o_port (fst (run_executor step n ed)) = "rejected"%string).
Proof.
  intros Ht. assert (Hport : normal_completion_port n = "rejected"%string).
  { unfold normal_completion_port. by rewrite Ht. }
  split.
  - intros Ho. unfold apply_on_error. destruct (oe_strategy _).
    + intros [= <- <-]. congruence.
    + intros [= <- <-] _. left. exact Hport.
    + case_match; intros [= <- <-]; [discriminate|congruence].
    + destruct (oe_fallback_node_id _) as [f|]; [|intros [= <- <-]; congruence].
      destruct (String.eqb f ""); [intros [= <- <-]; congruence|].
      intros (e1 & _ & [= <- <-])%bind_Some _. by right.
  - intros Hd. unfold run_executor. rewrite Hd, Ht. simpl. exact Hport.
Qed.

Definition sample_ctx : RunContext := mkCtx "r1" "wf" sample_def [] None [] ∅ false true None.
Definition sample_engine : Engine := mkEngine empty_world sample_ctx [] [].
Definition sample_gate : NodeSpec :=
  mkNodeSpec "gate" APPROVAL_GATE [] (mkOnError CONTINUE 0 500 None).

Lemma approval_fails_closed_witness :
  (o_state (failed [] "default" "x") = S_FAILED ->
   apply_on_error (fun _ _ _ => None) sample_gate (failed [] "default" "x") sample_engine =
     Some (outcome S_SUCCEEDED [] "rejected", sample_engine) ->
   o_state (outcome S_SUCCEEDED [] "rejected") = S_SUCCEEDED ->
   o_port (outcome S_SUCCEEDED [] "rejected") = "rejected"%string \/
   o_skip_edges (outcome S_SUCCEEDED [] "rejected") = true) /\
  (c_dry_run (en_ctx sample_engine) = true ->
   o_port (fst (run_executor 0 sample_gate sample_engine)) = "rejected"%string).
Proof.
  apply (approval_fails_closed (fun _ _ _ => None) sample_gate (failed [] "default" "x") sample_engine
    (outcome S_SUCCEEDED [] "rejected") sample_engine 0 sample_engine). reflexivity.
Defined.

Definition retry_count (e : Engine) (x : string) : Z :=
  default 0 (w_retry (en_world e) !! (c_run_id (en_ctx e), x)).

(** Retries are bounded.  A failed node with the strategy [retry] is scheduled
    again exactly while its counter stays within [retry_max]: the counter grows by
    one at each failure, the node parks, and the delay is the configured backoff
    times the count, at most 60 seconds; past the bound the failure stands and
    nothing is scheduled. *)
Theorem retry_bounded `{External} rec n o e :
  oe_strategy (ns_on_error n) = RETRY ->
  exists o' e', apply_on_error rec n o e = Some (o', e') /\
    retry_count e' (ns_id n) = retry_count e (ns_id n) + 1 /\
    (retry_count e (ns_id n) < oe_retry_max (ns_on_error n) ->
       o_park o' = true /\ o_state o' = S_RUNNING /\
       exists delay, en_pending e' = en_pending e ++
         [mkEnqueue "retry_workflow_node" (c_run_id (en_ctx e)) (ns_id n) delay None] /\
         delay <= 60000 /\ delay <= oe_retry_backoff_ms (ns_on_error n) * (retry_count e (ns_id n) + 1)) /\
    (oe_retry_max (ns_on_error n) <= retry_count e (ns_id n) -> o' = o /\ en_pending e' = en_pending e).
Proof.
  intros Hs. unfold apply_on_error. rewrite Hs. fold (retry_count e (ns_id n)).
  assert (Hc : retry_count (set_world (set_retry (insert (c_run_id (en_ctx e), ns_id n)
    (retry_count e (ns_id n) + 1)) (en_world e)) e) (ns_id n) = retry_count e (ns_id n) + 1).
  { unfold retry_count at 1. simpl. by rewrite lookup_insert_eq. }
  destruct (retry_count e (ns_id n) + 1 <=? oe_retry_max (ns_on_error n)) eqn:E.
  - apply Z.leb_le in E. eexists _, _. split; [done|]. split; [exact Hc|]. split; [|lia].
    intros _. split; [done|]. split; [done|]. eexists. split; [done|]. lia.
  - apply Z.leb_gt in E. eexists _, _. split; [done|]. split; [exact Hc|]. split; [lia|done].
Qed.

Definition sample_retry : NodeSpec := mkNodeSpec "call" INSTRUCT [] (mkOnError RETRY 2 40000 None).

Lemma retry_bounded_witness :
  exists o' e', apply_on_error (fun _ _ _ => None) sample_retry (failed [] "failure" "x") sample_engine = Some (o', e') /\
    retry_count e' "call" = retry_count sample_engine "call" + 1 /\
    (retry_count sample_engine "call" < 2 -> o_park o' = true /\ o_state o' = S_RUNNING /\
       exists delay, en_pending e' = en_pending sample_engine ++ [mkEnqueue "retry_workflow_node" "r1" "call" delay None] /\
         delay <= 60000 /\ delay <= 40000 * (retry_count sample_engine "call" + 1)) /\
    (2 <= retry_count sample_engine "call" -> o' = failed [] "failure" "x" /\ en_pending e' = en_pending sample_engine).
Proof.
  apply (retry_bounded (fun _ _ _ => None) sample_retry (failed [] "failure" "x") sample_engine). reflexivity.
Defined.

(** A scheduled retry is lost while a sibling branch has the run running: with no
    other worker interfering, [retry_node] on a RUNNING run returns without
    executing the node, scheduling it again, or changing anything. *)
Theorem retry_lost_when_running `{External} rid x w q r :
  w_sched w = [] -> w_runs w !! rid = Some r -> rr_state r = RUNNING ->
  retry_node rid x w q = Some (w, q).
Proof.
  intros Hs Hr Hst. assert (Hy : yield w = w) by (unfold yield; by rewrite Hs).
  unfold retry_node, run_get, workflow_get, update_state. cbn zeta. rewrite Hy, Hr, Hst. simpl. rewrite Hy.
  destruct (w_workflows w !! rr_workflow_id r); [|done].
  unfold sql_update_state. rewrite Hy, Hr, Hst. done.
Qed.

Definition running_world : World :=
  set_runs (insert "r1" (mkRun "wf" None "manual" RUNNING [] [] false false))%string
    (set_workflows (insert "wf" sample_def)%string empty_world).

Lemma retry_lost_when_running_witness :
  retry_node "r1" "check" running_world no_queues = Some (running_world, no_queues).
Proof. eapply retry_lost_when_running; reflexivity. Defined.

(** The outcome of an end node depends on what its siblings do.  On a run that a
    parked sibling has put in WAITING, a failure end still ends the run, but a
    success end is ignored: the run stays WAITING and nothing is recorded. *)
Theorem end_on_waiting_run rid w r :
  w_sched w = [] -> w_runs w !! rid = Some r -> rr_state r = WAITING ->
  finalize rid SUCCEEDED w = (false, w) /\
  fst (finalize rid FAILED w) = true /\
  rr_state <$> w_runs (snd (finalize rid FAILED w)) !! rid = Some FAILED.
Proof.
  intros Hs Hr Hst.
  assert (Hy : forall w', w_sched w' = [] -> yield w' = w') by (intros w' H; unfold yield; by rewrite H).
  unfold finalize, update_state, sql_update_state. rewrite (Hy w Hs), Hr, Hst.
  assert (valid_transition WAITING SUCCEEDED = false) as -> by reflexivity.
  assert (valid_transition WAITING FAILED = true) as -> by reflexivity.
  split; [reflexivity|]. split; [reflexivity|].
  unfold mark_a2a_cancellation_pending, cancel_pending_for_run. rewrite (Hy (set_runs _ w)) by exact Hs.
  rewrite (Hy (sql_cancel_pending_for_run _ _)) by exact Hs.
  cbn [snd finish_effects add_event add_audit w_runs sql_mark_a2a_cancellation_pending set_runs
    sql_cancel_pending_for_run set_steps].
  by rewrite lookup_alter_eq, lookup_insert_eq.
Qed.

Definition waiting_world : World :=
  set_runs (insert "r1" (mkRun "wf" None "manual" WAITING [] [] false false))%string empty_world.

Lemma end_on_waiting_run_witness :
  finalize "r1" SUCCEEDED waiting_world = (false, waiting_world) /\
  fst (finalize "r1" FAILED waiting_world) = true /\
  rr_state <$> w_runs (snd (finalize "r1" FAILED waiting_world)) !! "r1"%string = Some FAILED.
Proof. eapply end_on_waiting_run; reflexivity. Defined.

(** ** What the linter guarantees to the engine *)

(** The ports on which the engine can leave a node whose strategy is not [continue],
    for the node types whose ports the linter wires completely. *)
Definition exit_port (n : node) (p : string) : Prop :=
  match n_type n with
  | TRIGGER | PARALLEL | SET_VARIABLE => p = "default"%string
  | AGENT_INVOCATION | INSTRUCT | SUBAGENT_SPAWN =>
      strategy (n_config n) <> "continue"%string /\ In p ["success"; "failure"]%string
  | APPROVAL_GATE =>
      strategy (n_config n) <> "continue"%string /\ In p ["approved"; "rejected"; "timeout"]%string
  | CONDITION | JOIN | WAIT_FOR_EVENT | END => False
  end.

Lemma reaches_end_edge d x n :
  has_id d x n -> n_type n <> END -> reaches_end d x -> exists e, In e (d_edges d) /\ e_from e = x.
Proof.
  intros Hx Ht (y & Hy & Hr). inversion Hr as [|? z ? [_ Ha]]; subst.
  - apply end_nodes_spec in Hy as (m & Hm & Hend). unfold has_id in Hx. congruence.
  - apply arrow_edge in Ha as (e & He & Hf & _). by exists e.
Qed.

Lemma exit_port_edge d k x n p :
  wellformed d k -> has_id d x n -> exit_port n p ->
  exists e, In e (d_edges d) /\ e_from e = x /\ from_port e = p.
Proof.
  intros Hwf Hx Hp.
  assert (Hmulti : forall ports, MULTI_PORT_NODES (n_type n) = Some ports -> In p ports ->
    strategy (n_config n) <> "continue"%string -> exists e, In e (d_edges d) /\ e_from e = x /\ from_port e = p).
  { intros ports Hm Hin Hs. destruct (wf_ports _ _ Hwf x n ports p Hx Hm Hin) as [?|(e & [He Hf]%outgoing_In & ?)];
      [done|]. by exists e. }
  assert (Hdefault : allowed_ports n = ["default"%string] -> n_type n <> END -> n_type n <> WAIT_FOR_EVENT ->
    p = "default"%string -> exists e, In e (d_edges d) /\ e_from e = x /\ from_port e = p).
  { intros Hallowed He Hw ->. destruct (wf_terminates _ _ Hwf x n Hx) as [Hr|[? _]]; [|done].
    destruct (reaches_end_edge d x n Hx He Hr) as (e & Hin & Hf). exists e. split; [done|]. split; [done|].
    destruct (wf_edge _ _ Hwf e Hin) as [(m & Hm & _ & Hport) _]. unfold has_id in *. rewrite Hf, Hx in Hm.
    injection Hm as <-. rewrite Hallowed in Hport. by destruct Hport as [|[]]. }
  unfold exit_port in Hp. unfold allowed_ports, is_type in Hdefault.
  destruct (n_type n) eqn:Et; try done; try (by apply Hdefault); destruct Hp as [Hs Hin];
    by eapply Hmulti.
Qed.

(** A definition the linter accepts does not strand the engine: from a trigger, a
    parallel or a set_variable node, and on every port of an agent_invocation,
    instruct, subagent_spawn or approval_gate node whose strategy is not [continue],
    [_advance_from] always finds an edge to follow. *)
Theorem wellformed_advances `{External} rec d k x n p e b e' :
  wellformed d k -> c_def (en_ctx e) = d -> has_id d x n -> exit_port n p ->
  advance_from rec x p e = Some (b, e') -> b = true.
Proof.
  intros Hwf Hd Hx Hp. destruct (exit_port_edge d k x n p Hwf Hx Hp) as (ed & Hin & Hfrom & Hport).
  unfold advance_from. rewrite Hd. unfold has_id in Hx. rewrite Hx.
  set (sp := mkEdgeSpec (e_id ed) (e_from ed) (e_to ed) (from_port ed) (e_guard ed)).
  assert (Hout : In sp (build_outgoing (parse_edges (d_edges d)) x)).
  { apply filter_In. split; [by apply (in_map (fun e => mkEdgeSpec (e_id e) (e_from e) (e_to e) (from_port e) (e_guard e)))|].
    simpl. by apply String.eqb_eq. }
  assert (Hmatch : In sp (if is_type PARALLEL n then build_outgoing (parse_edges (d_edges d)) x
    else List.filter (fun x => String.eqb (es_port x) p) (build_outgoing (parse_edges (d_edges d)) x))).
  { destruct (is_type PARALLEL n); [done|]. apply filter_In. split; [done|]. simpl. by apply String.eqb_eq. }
  destruct (if is_type PARALLEL n then _ else _) as [|y [|z l]]; [done| |].
  - by intros (e1 & _ & [= <- _])%bind_Some.
  - by intros [= <- _].
Qed.

Definition start_engine : Engine := mkEngine running_world sample_ctx [] [].

Lemma wellformed_advances_witness :
  exists b e', advance_from (fun _ _ e => Some e) "start" "default" start_engine = Some (b, e') /\ b = true.
Proof.
  exists true, start_engine. split; [reflexivity|].
  apply (wellformed_advances (fun _ _ e => Some e) sample_def no_lookups "start"
    (mkNode "start" TRIGGER [("trigger_type"%string, VStr "manual")]) "default" start_engine true start_engine);
    [exact sample_wellformed|reflexivity..].
Defined.

(** A node the linter accepts without its [success] edge, since its strategy is
    [continue]; when it succeeds the engine stops there and the run stays RUNNING. *)
Definition stranded_def : definition :=
  mkDef "start"
    [mkNode "start" TRIGGER [("trigger_type", VStr "manual")];
     mkNode "ask" INSTRUCT [("on_error", VDict [("strategy", VStr "continue")])];
     mkNode "stop" END []]%string
    [mkEdge "e1" "start" "ask" None None; mkEdge "e2" "ask" "stop" (Some "failure") None]%string
    [] None None None.

Definition answering_ext : External := {|
  ext_execute := fun _ _ ctx _ => Some (outcome S_SUCCEEDED [] "success", c_variables ctx);
  sel_env := fun _ _ => frozen; step_now := fun _ => fzero false; croniter_is_valid := None |}.

Example continue_without_success_edge_strands :
  (exists r, validate_definition stranded_def no_lookups = Ok r /\ valid r = true) /\
  match @start_run answering_ext "r1" "wf" None stranded_def "manual" [] false empty_world no_queues with
  | Some (w, q) => rr_state <$> w_runs w !! "r1"%string = Some RUNNING /\ q_pending q = [] /\
      map (fun st => (st_node_id st, st_state st)) (w_steps w)
        = [("start", S_SUCCEEDED); ("ask", S_SUCCEEDED)]%string
  | None => False
  end.
Proof.
  split; [|vm_compute; done].
  eexists. split; [vm_compute; reflexivity|reflexivity].
Qed.

(** A park that loses the race against a cancellation: the step that the cancellation
    sealed is written back to [running], in a run that has ended. *)
Definition wait_def : definition :=
  mkDef "w" [mkNode "w" WAIT_FOR_EVENT [("event_type", VStr "timer"); ("delay_seconds", VInt 5)]]%string
    [] [] None None None.

Example cancelled_step_revived :
  match execute_node (run_fuel wait_def) "w" None
    (mkEngine (set_sched [[]; []; [F_finalize "r1" CANCELLED]]%string running_world)
       (mkCtx "r1" "wf" wait_def [] None [] ∅ false false None) [] []) with
  | Some e => rr_state <$> w_runs (en_world e) !! "r1"%string = Some CANCELLED /\
      map (fun st => (st_state st, st_ended st)) (w_steps (en_world e)) = [(S_RUNNING, true)]
  | None => False
  end.
Proof. vm_compute. done. Qed.
