(* ===== verification/EventDispatch.v ===== *)
(** * Signals: matching parked waits and dormant triggers

    [contexts/workflow/application/event_dispatch.py] and [workflow_signal] and
    [workflow_variable_signal] of [app/workers/tasks/workflow_signals.py].  A
    signal is a message, an A2A message, a wake-up, an activity or a variable
    change; it resumes the parked waits whose stored criteria match and starts the
    workflows whose trigger node matches.  The criteria are JSON objects: a value
    of a type the schema forbids goes through [str] as in the code.  The regular
    expression engines (re2, then [re]) are parameters. *)

From S2P Require Import Prelude PyFloat PyValue SelLexer SelParser SelEval WorkflowModels RunStore.
(** What a regular expression engine does with a pattern: [None] is its own
    [error] class (for [re] also [TimeoutError]). *)
Class Regex := {
  re2_search : string -> string -> option bool;
  re_search : string -> string -> option bool;
}.

(** [str(match.get(k, ""))] and [str(match.get(k, "") or "")] *)
Definition str_of (k d : string) (m : pydict) : res string := py_str (dict_get_or k (VStr d) m).
Definition str_or_empty (k : string) (m : pydict) : res string :=
  let v := dict_get_or k (VStr "") m in if py_bool v then py_str v else Ok "".

(** [msg_type in types] *)
Definition in_types (t : string) (v : pyval) : res bool :=
  match v with
  | VList l => Ok (existsb (py_eq (VStr t)) l)
  | VStr s => Ok (is_infix (chars t) (chars s))
  | VDict d => Ok (dict_has t d)
  | _ => Raise TypeError
  end.

(** ** The matchers *)
Section matchers.
Context `{Regex}.

Definition regex_ok (pattern : option string) (content : string) : bool :=
  match pattern with
  | None => true
  | Some p =>
      if String.eqb p "" then true
      else match re2_search p content with
           | Some b => b
           | None => match re_search p content with Some b => b | None => false end
           end
  end.

Definition sender_ok (sender_filter sender_type : string) : bool :=
  String.eqb sender_filter "" || String.eqb sender_filter "any" || String.eqb sender_filter sender_type.

(** [match.get("content_regex")]: a string or absent. *)
Definition regex_field (m : pydict) : option string :=
  match dict_get "content_regex" m with Some (VStr s) => Some s | _ => None end.

Definition matches_message (chatroom_id sender_type content : string) (m : pydict) : res bool :=
  room ← str_of "chatroom_id" "" m;
  if negb (String.eqb room chatroom_id) then Ok false else
  sender ← str_of "sender_filter" "any" m;
  if negb (sender_ok sender sender_type) then Ok false else
  Ok (regex_ok (regex_field m) content).

Definition matches_a2a (target_agent_id msg_type : string) (m : pydict) : res bool :=
  target ← str_of "target_agent_id" "" m;
  if negb (String.eqb target target_agent_id) then Ok false else
  let types := dict_get_none "types" m in
  if negb (py_bool types) then Ok true else in_types msg_type types.

Definition matches_a2a_trigger (agent_id msg_type : string) (m : pydict) : res bool :=
  agent ← str_of "agent_id" "" m;
  if negb (String.eqb agent agent_id) then Ok false else
  let types := dict_get_none "event_types" m in
  if py_bool types then in_types msg_type types else Ok false.

(** [want and want != "any" and want != actual] *)
Definition excluded (want actual : string) : bool :=
  negb (String.eqb want "") && negb (String.eqb want "any") && negb (String.eqb want actual).

Definition allowed_keys (m : pydict) : res (list string) :=
  let single := dict_get_none "activity_type_key" m in
  first ← (if py_bool single then s ← py_str single; Ok [s] else Ok []);
  rest ← (match dict_get_none "activity_type_keys" m with VList l => mapMr py_str l | _ => Ok [] end);
  Ok (first ++ rest).

Definition matches_activity (chatroom_id activity_type_key validation_status activity_type_scope : string)
    (m : pydict) : res bool :=
  room ← str_of "chatroom_id" "" m;
  if negb (String.eqb room chatroom_id) then Ok false else
  want_status ← str_or_empty "validation_status" m;
  if excluded want_status validation_status then Ok false else
  want_scope ← str_or_empty "activity_type_scope" m;
  if excluded want_scope activity_type_scope then Ok false else
  allowed ← allowed_keys m;
  Ok (match allowed with [] => true | _ => existsb (String.eqb activity_type_key) allowed end).

(** The wake-up predicate of [workflow_signal]. *)
Definition matches_wakeup (agent_id : string) (m : pydict) : res bool :=
  agent ← str_of "agent_id" "" m; Ok (String.eqb agent agent_id).

Definition matches_variable (env : Env) (variables : pydict) (m : pydict) : bool :=
  match dict_get "expression" m with
  | Some (VStr e) =>
      if String.eqb e "" then false
      else match evaluate env e variables with Ok v => py_bool v | _ => false end
  | _ => false
  end.
End matchers.

(** ** The scan of the parked waits

    A claim key holds the JSON text the executor wrote, or text that is not JSON;
    the claims of a [WaitStore] have the lifetimes, this view has the contents.
    The index members are strings, [run_id:node_id]. *)
Inductive payload := Unparsable | Info (info : pydict).

Record WaitView := mkView {
  wv_index : string -> list string;           (** SMEMBERS of [wf:wait:by_event:type], in some order *)
  wv_claim : string -> string -> option payload;  (** GET [wf:wait:run:node] *)
}.

(** [member.partition(":")] *)
Definition partition_colon (s : string) : string * string :=
  match split_at ":"%char (chars s) with
  | Some (a, b) => (unchars a, unchars b)
  | None => (s, "")
  end.

(** [info.get("match", {})]; the executor stores a dictionary. *)
Definition stored_match (info : pydict) : pydict := cfg_dict "match" info.

(** The wait a member of the index stands for: its run, its node and its criteria. *)
Definition live_wait (v : WaitView) (member : string) : option (string * string * pydict) :=
  let '(run_id, node_id) := partition_colon member in
  if String.eqb node_id "" then None else
  match wv_claim v run_id node_id with
  | Some (Info info) => Some (run_id, node_id, stored_match info)
  | _ => None
  end.

Fixpoint matching_waits (v : WaitView) (predicate : pydict -> res bool) (members : list string)
    : res (list (string * string)) :=
  match members with
  | [] => Ok []
  | m :: members =>
      match live_wait v m with
      | None => matching_waits v predicate members
      | Some (run_id, node_id, crit) =>
          b ← predicate crit;
          out ← matching_waits v predicate members;
          Ok (if (b : bool) then (run_id, node_id) :: out else out)
      end
  end.
Definition find_matching_waits (v : WaitView) (event_type : string) (predicate : pydict -> res bool)
    : res (list (string * string)) :=
  matching_waits v predicate (wv_index v event_type).

Definition find_run_variable_waits (v : WaitView) (run_id : string) : list (string * string * pydict) :=
  filter (fun w => String.eqb w.1.1 run_id = true) (omap (live_wait v) (wv_index v "variable_matches")).

(** ** The scan of the workflows *)

(** The trigger node of a definition that decides: the first of the given type. *)
Fixpoint trigger_config (trigger_type : string) (nodes : list node) : option pydict :=
  match nodes with
  | [] => None
  | n :: nodes =>
      if bool_decide (n_type n = TRIGGER) &&
         match dict_get "trigger_type" (n_config n) with Some (VStr t) => String.eqb t trigger_type | _ => false end
      then Some (n_config n) else trigger_config trigger_type nodes
  end.

(** [rows]: the live workflows, as the query returns them. *)
Fixpoint find_triggered_workflows (trigger_type : string) (predicate : pydict -> res bool)
    (rows : list (string * definition)) : res (list string) :=
  match rows with
  | [] => Ok []
  | (id, d) :: rows =>
      match trigger_config trigger_type (d_nodes d) with
      | None => find_triggered_workflows trigger_type predicate rows
      | Some config =>
          b ← predicate config;
          out ← find_triggered_workflows trigger_type predicate rows;
          Ok (if (b : bool) then id :: out else out)
      end
  end.

(** ** [workflow_signal] *)

Definition TRIGGER_MAX_CHAIN_DEPTH : Z := 10.

(** What the task enqueues or records, in order. *)
Inductive job :=
  | EventResume (run_id node_id : string)                    (** [workflow_event_resume] *)
  | RunTriggered (workflow_id : string) (trigger : pydict)   (** [run_triggered_workflow] *)
  | TriggerSkip (workflow_id reason : string).               (** [_record_trigger_skip] *)

(** The items a [for] loop over a JSON value visits. *)
Definition py_iter (v : pyval) : res (list pyval) :=
  match v with
  | VList l => Ok l
  | VStr s => Ok (map (fun c => VStr (unchars [c])) (chars s))
  | VDict d => Ok (map (fun kv => VStr kv.1) d)
  | _ => Raise TypeError
  end.

(** [p.get("trigger_path") or []] and [int(p.get("trigger_depth", 0) or 0)] *)
Definition path_items (p : pydict) : res (list pyval) :=
  let v := dict_get_none "trigger_path" p in if py_bool v then py_iter v else Ok [].
Definition inbound_depth (p : pydict) : res Z :=
  let v := dict_get_or "trigger_depth" (VInt 0) p in if py_bool v then py_int v else Ok 0.
Definition inbound_path (p : pydict) : res (list string) := l ← path_items p; mapMr py_str l.

Definition trigger_job (payload : pydict) (trigger_type : string) (path : list string) (depth : Z)
    (wf : string) : job :=
  if existsb (String.eqb wf) path then TriggerSkip wf "cycle"
  else if TRIGGER_MAX_CHAIN_DEPTH <=? depth then TriggerSkip wf "max_depth"
  else RunTriggered wf (dict_update [("trigger_type"%string, VStr trigger_type)] payload).

Definition enqueue_triggers (payload : pydict) (trigger_type : string) (wf_ids : list string)
    : res (list job) :=
  path ← inbound_path payload;
  depth ← inbound_depth payload;
  Ok (map (trigger_job payload trigger_type path depth) wf_ids).

Section signal.
Context `{Regex} (v : WaitView) (rows : list (string * definition)) (payload : pydict).

(** The waits of [event_type], then the triggers of [trigger_type]: the jobs, and
    how the task ends; the resumes are out when the triggers fail. *)
Definition fan_out (event_type : option string) (wait_pred : pydict -> res bool)
    (trigger_type : string) (trigger_pred : pydict -> res bool) : list job * res unit :=
  match (match event_type with Some e => find_matching_waits v e wait_pred | None => Ok [] end) with
  | Ok waits =>
      let js := map (fun w => EventResume w.1 w.2) waits in
      match (wfs ← find_triggered_workflows trigger_type trigger_pred rows;
             enqueue_triggers payload trigger_type wfs) with
      | Ok ts => (js ++ ts, Ok tt)
      | Raise e => (js, Raise e)
      | NoFuel => (js, NoFuel)
      end
  | Raise e => ([], Raise e)
  | NoFuel => ([], NoFuel)
  end.

Definition with_fields (ks : list string) (f : list string -> list job * res unit) : list job * res unit :=
  match mapMr (fun k => str_of k "" payload) ks with
  | Ok vs => f vs
  | Raise e => ([], Raise e)
  | NoFuel => ([], NoFuel)
  end.

Definition workflow_signal (source : string) : list job * res unit :=
  if String.eqb source "message" then
    with_fields ["chatroom_id"; "sender_type"; "content"]%string (fun vs =>
      let pred := matches_message (nth 0 vs "") (nth 1 vs "") (nth 2 vs "") in
      fan_out (Some "message_in_room"%string) pred "message_received" pred)
  else if String.eqb source "a2a" then
    with_fields ["target_agent_id"; "msg_type"]%string (fun vs =>
      fan_out (Some "a2a_message"%string) (matches_a2a (nth 0 vs "") (nth 1 vs ""))
        "a2a_event" (matches_a2a_trigger (nth 0 vs "") (nth 1 vs "")))
  else if String.eqb source "wakeup" then
    with_fields ["agent_id"%string] (fun vs =>
      fan_out None (fun _ => Ok false) "wakeup_signal" (matches_wakeup (nth 0 vs "")))
  else if String.eqb source "activity" then
    with_fields ["chatroom_id"; "activity_type_key"; "validation_status"; "activity_type_scope"]%string
      (fun vs =>
      let pred := matches_activity (nth 0 vs "") (nth 1 vs "") (nth 2 vs "") (nth 3 vs "") in
      fan_out (Some "activity_in_room"%string) pred "activity_event" pred)
  else ([], Ok tt).
End signal.

(** [workflow_variable_signal]: the waits to resume after a [set_variable] step. *)
Definition workflow_variable_signal (env : nat -> Env) (v : WaitView) (run : option RunRow) (run_id : string)
    : list job :=
  let variables := match run with Some r => rr_variables r | None => [] end in
  omap (fun '(j, w) => if matches_variable (env j) variables w.2
                       then Some (EventResume w.1.1 w.1.2) else None)
    (imap pair (find_run_variable_waits v run_id)).

(** ** The causality chain of triggers

    A run that calls or instructs an agent stamps the envelope with its own chain
    extended by its workflow ([agent_invocation.py], [instruct.py]); the consumer of
    the envelope relays the chain into the signal ([a2a_handler.py]). *)
Record A2AEnvelope := mkEnvelope {
  ev_to_agent : string;
  ev_type : string;
  ev_call : pyval * pyval;   (** call depth and path *)
  ev_chain : pyval * pyval;  (** instruct chain id and path *)
  ev_trigger_depth : Z;
  ev_trigger_path : list pyval;
}.

(** [out_trigger_depth], [out_trigger_path] *)
Definition out_trigger (trigger : pydict) (workflow_id : string) : res (Z * list pyval) :=
  depth ← inbound_depth trigger;
  path ← path_items trigger;
  Ok (depth + 1, path ++ [VStr workflow_id]).

Definition a2a_signal_payload (e : A2AEnvelope) : pydict :=
  [("target_agent_id", VStr (ev_to_agent e)); ("msg_type", VStr (ev_type e));
   ("call_depth", (ev_call e).1); ("call_path", (ev_call e).2);
   ("chain_id", (ev_chain e).1); ("chain_path", (ev_chain e).2);
   ("trigger_depth", VInt (ev_trigger_depth e)); ("trigger_path", VList (ev_trigger_path e))]%string.

(** [chain ws w tp]: a run of [w] with trigger payload [tp] was caused, trigger by
    trigger, by runs of the workflows [ws]. *)
Inductive chain `{Regex} (v : WaitView) (rows : list (string * definition))
    : list string -> string -> pydict -> Prop :=
  | chain_root w tp :
      dict_get "trigger_path" tp = None -> dict_get "trigger_depth" tp = None -> chain v rows [] w tp
  | chain_hop ws w tp e depth path w' tp' :
      chain v rows ws w tp ->
      out_trigger tp w = Ok (depth, path) ->
      ev_trigger_depth e = depth -> ev_trigger_path e = path ->
      In (RunTriggered w' tp') (workflow_signal v rows (a2a_signal_payload e) "a2a").1 ->
      chain v rows (ws ++ [w]) w' tp'.

(** * Facts *)

(** One element of a filtering loop. *)
Lemma filter_cons_spec {A B} (P : A -> B -> Prop) (x : A) (xs : list A) (y : B) (Y : Prop) :
  (Y <-> P x y) -> (Y \/ (exists x', In x' xs /\ P x' y)) <-> exists x', In x' (x :: xs) /\ P x' y.
Proof.
  intros HY. split.
  - intros [H|(x' & ? & ?)]; [exists x; split; [by left|by apply HY]|exists x'; split; [by right|done]].
  - intros (x' & [<-|?] & ?); [left; by apply HY|right; eauto].
Qed.

Lemma matching_waits_spec v pred ms out :
  matching_waits v pred ms = Ok out -> forall run_id node_id,
  In (run_id, node_id) out <->
  exists m, In m ms /\ exists crit, live_wait v m = Some (run_id, node_id, crit) /\ pred crit = Ok true.
Proof.
  revert out. induction ms as [|m ms IH]; simpl; intros out H run_id node_id.
  - injection H as <-. split; [done|]. by intros (? & ? & _).
  - rewrite <- (filter_cons_spec (fun m w => exists crit, live_wait v m = Some (w.1, w.2, crit) /\ pred crit = Ok true)
      m ms (run_id, node_id) (exists crit, live_wait v m = Some (run_id, node_id, crit) /\ pred crit = Ok true)); [|done].
    destruct (live_wait v m) as [[[r n] c]|] eqn:E.
    + apply bind_Ok in H as (b & Hb & H). apply bind_Ok in H as (out' & Hout & H). injection H as <-.
      destruct b; simpl; rewrite (IH _ Hout); simpl.
      * split; (intros [H|H]; [left|by right]); [injection H as <- <-; eauto|].
        by destruct H as (crit & [= -> -> ->] & _).
      * split; [by right|]. intros [(crit & [= -> -> ->] & ?)|H]; [congruence|done].
    + rewrite (IH _ H). split; [by right|]. intros [(? & ? & _)|?]; done.
Qed.

Lemma find_triggered_spec t pred rows out :
  find_triggered_workflows t pred rows = Ok out -> forall id,
  In id out <-> exists row, In row rows /\ row.1 = id /\
    exists config, trigger_config t (d_nodes row.2) = Some config /\ pred config = Ok true.
Proof.
  revert out. induction rows as [|[i d] rows IH]; simpl; intros out H id.
  - injection H as <-. split; [done|]. by intros (? & ? & _).
  - rewrite <- (filter_cons_spec (fun row id => row.1 = id /\
        exists config, trigger_config t (d_nodes row.2) = Some config /\ pred config = Ok true)
      (i, d) rows id (i = id /\ exists config, trigger_config t (d_nodes d) = Some config /\ pred config = Ok true)); [|done].
    destruct (trigger_config t (d_nodes d)) as [c|] eqn:E.
    + apply bind_Ok in H as (b & Hb & H). apply bind_Ok in H as (out' & Hout & H). injection H as <-.
      destruct b; simpl; rewrite (IH _ Hout); simpl.
      * split; (intros [H|H]; [left|by right]); [split; [done|eauto]|by destruct H].
      * split; [by right|]. intros [(_ & crit & [= ->] & ?)|H]; [congruence|done].
    + rewrite (IH _ H). split; [by right|]. intros [(_ & ? & ? & _)|?]; done.
Qed.

Lemma trigger_config_spec t ns config :
  trigger_config t ns = Some config ->
  exists n, In n ns /\ n_type n = TRIGGER /\ n_config n = config /\
            dict_get "trigger_type" config = Some (VStr t).
Proof.
  induction ns as [|n ns IH]; simpl; [done|].
  destruct (bool_decide _ && _) eqn:E; [|naive_solver].
  intros [= <-]. apply andb_true_iff in E as [E1 E2]. apply bool_decide_eq_true in E1.
  exists n. destruct (dict_get _ _) as [[]|]; try done. apply String.eqb_eq in E2. subst. auto.
Qed.

(** What a fan-out sends, whatever its outcome: resumes of matching waits and starts
    of matching workflows off the chain. *)
Lemma fan_out_sound `{Regex} v rows payload ev wp tt tp j :
  In j (fan_out v rows payload ev wp tt tp).1 ->
  match j with
  | EventResume r n => exists e m crit, ev = Some e /\ In m (wv_index v e) /\
      live_wait v m = Some (r, n, crit) /\ wp crit = Ok true
  | RunTriggered w p => exists d config path depth, In (w, d) rows /\
      trigger_config tt (d_nodes d) = Some config /\ tp config = Ok true /\
      inbound_path payload = Ok path /\ inbound_depth payload = Ok depth /\
      existsb (String.eqb w) path = false /\ depth < TRIGGER_MAX_CHAIN_DEPTH /\
      p = dict_update [("trigger_type"%string, VStr tt)] payload
  | TriggerSkip _ _ => True
  end.
Proof.
  unfold fan_out. destruct (match ev with Some e => _ | None => _ end) as [waits|e|] eqn:Ew; simpl; try done.
  intros Hj.
  assert (Hres : In j (map (fun w => EventResume w.1 w.2) waits) -> exists r n, j = EventResume r n /\
    exists e m crit, ev = Some e /\ In m (wv_index v e) /\ live_wait v m = Some (r, n, crit) /\ wp crit = Ok true).
  { rewrite in_map_iff. intros ([r n] & <- & Hin). exists r, n. split; [done|].
    destruct ev as [e|]; [|injection Ew as <-; destruct Hin]. apply (matching_waits_spec _ _ _ _ Ew) in Hin as (m & ? & c & ? & ?).
    by exists e, m, c. }
  destruct (_ ≫= _) as [ts|e|] eqn:Et; simpl in Hj; [|apply Hres in Hj as (r & n & -> & ?); done..].
  apply in_app_iff in Hj as [Hj|Hj]; [apply Hres in Hj as (r & n & -> & ?); done|].
  apply bind_Ok in Et as (wfs & Hwfs & Et). unfold enqueue_triggers in Et.
  apply bind_Ok in Et as (path & Hpath & Et). apply bind_Ok in Et as (depth & Hdepth & Et). inv_res.
  apply in_map_iff in Hj as (w & Hw & Hin). unfold trigger_job in Hw.
  destruct (existsb _ path) eqn:E1; [by subst|]. destruct (_ <=? depth) eqn:E2; [by subst|]. subst.
  apply (find_triggered_spec _ _ _ _ Hwfs) in Hin as ([i d] & ? & <- & c & ? & ?).
  exists d, c, path, depth. repeat (split; [done|]). split; [by apply Z.leb_gt|done].
Qed.

(** Both room matchers compare the stored room first. *)
Lemma matches_message_room `{Regex} room s c m :
  matches_message room s c m = Ok true -> str_of "chatroom_id" "" m = Ok room.
Proof.
  unfold matches_message. intros (r & Hr & Hm)%bind_Ok. rewrite Hr.
  destruct (String.eqb_spec r room) as [->|]; [done|discriminate].
Qed.
Lemma matches_activity_room room k st sc m :
  matches_activity room k st sc m = Ok true -> str_of "chatroom_id" "" m = Ok room.
Proof.
  unfold matches_activity. intros (r & Hr & Hm)%bind_Ok. rewrite Hr.
  destruct (String.eqb_spec r room) as [->|]; [done|discriminate].
Qed.

(** [with_fields] runs its continuation on the fields it read. *)
Lemma with_fields_in payload ks f j :
  In j (with_fields payload ks f).1 ->
  exists vs, mapMr (fun k => str_of k "" payload) ks = Ok vs /\ In j (f vs).1.
Proof. unfold with_fields. destruct (mapMr _ ks) as [vs|e|]; simpl; [eauto|done..]. Qed.

Lemma mapMr_nth {A B} (f : A -> res B) (a : A) l ys d :
  mapMr f (a :: l) = Ok ys -> f a = Ok (nth 0 ys d).
Proof. rewrite mapMr_Ok. by inversion 1. Qed.

Lemma inbound_path_strings p ws :
  dict_get "trigger_path" p = Some (VList (map VStr ws)) -> inbound_path p = Ok ws /\ path_items p = Ok (map VStr ws).
Proof.
  intros Hp. unfold inbound_path, path_items, dict_get_none. rewrite Hp. simpl.
  assert (Hm : mapMr py_str (map VStr ws) = Ok ws).
  { clear. induction ws as [|w ws IH]; simpl; [done|]. by rewrite IH. }
  destruct ws as [|w ws]; simpl; [done|]. simpl in Hm. by rewrite Hm.
Qed.

Lemma inbound_depth_int p n : dict_get "trigger_depth" p = Some (VInt n) -> inbound_depth p = Ok n.
Proof.
  intros Hp. unfold inbound_depth, dict_get_or. rewrite Hp. simpl.
  destruct (Z.eqb_spec n 0) as [->|]; done.
Qed.

(** A run on a chain carries the chain, and its own workflow is not on it. *)
Lemma chain_carries `{Regex} v rows ws w tp :
  chain v rows ws w tp ->
  NoDup (ws ++ [w]) /\ (Z.of_nat (length ws) < TRIGGER_MAX_CHAIN_DEPTH) /\
  path_items tp = Ok (map VStr ws) /\ inbound_depth tp = Ok (Z.of_nat (length ws)).
Proof.
  induction 1 as [w tp H1 H2|ws w tp e depth path w' tp' Hc (IHd & IHl & IHp & IHn) Hout He Hp Hin].
  - split; [apply NoDup_singleton|]. split; [done|].
    unfold path_items, inbound_depth, dict_get_none, dict_get_or. by rewrite H1, H2.
  - unfold out_trigger in Hout. rewrite IHn, IHp in Hout. injection Hout as <- <-.
    set (p := a2a_signal_payload e) in *.
    assert (Hpath : dict_get "trigger_path" p = Some (VList (map VStr (ws ++ [w])))).
    { subst p. simpl. by rewrite Hp, map_app. }
    assert (Hdepth : dict_get "trigger_depth" p = Some (VInt (Z.of_nat (length (ws ++ [w]))))).
    { subst p. simpl. rewrite He, length_app. simpl. do 2 f_equal. lia. }
    apply inbound_path_strings in Hpath as Hpath'. apply inbound_depth_int in Hdepth as Hdepth'.
    assert (Hj : exists ev wp tt pr, In (RunTriggered w' tp') (fan_out v rows p ev wp tt pr).1).
    { unfold workflow_signal in Hin. simpl in Hin. apply with_fields_in in Hin as (vs & _ & Hin).
      by do 4 eexists. }
    destruct Hj as (ev & wp & tt & pr & Hj). apply fan_out_sound in Hj as
      (d & c & path & depth & _ & _ & _ & Hip & Hid & Hnin & Hlt & ->).
    destruct Hpath' as [Hpath' Hitems]. rewrite Hpath' in Hip. rewrite Hdepth' in Hid.
    injection Hip as <-. injection Hid as <-.
    split; [|split; [lia|]].
    + apply list.NoDup_app. split; [done|]. split; [|apply NoDup_singleton].
      intros x Hx ->%list_elem_of_singleton. apply list_elem_of_In in Hx.
      apply not_true_iff_false in Hnin. apply Hnin, existsb_exists. exists w'. by rewrite String.eqb_refl.
    + by split.
Qed.

(** * Properties *)

(** A message or an activity of one room reaches nothing scoped to another room:
    every wait it resumes is parked in the index with that room in its stored
    criteria, and every workflow it starts is live with that room in the
    configuration of its trigger node. *)
Theorem signal_room_isolation `{Regex} v rows payload source room j
    (Hsource : source = "message"%string \/ source = "activity"%string)
    (Hroom : str_of "chatroom_id" "" payload = Ok room)
    (Hj : In j (workflow_signal v rows payload source).1) :
  match j with
  | EventResume r n => exists e m crit, In m (wv_index v e) /\ live_wait v m = Some (r, n, crit) /\
      str_of "chatroom_id" "" crit = Ok room
  | RunTriggered w _ => exists d t config, In (w, d) rows /\ trigger_config t (d_nodes d) = Some config /\
      str_of "chatroom_id" "" config = Ok room
  | TriggerSkip _ _ => True
  end.
Proof.
  assert (Hf : exists e wp t, In j (fan_out v rows payload (Some e) wp t wp).1 /\
    forall m, wp m = Ok true -> str_of "chatroom_id" "" m = Ok room).
  { destruct Hsource as [-> | ->]; unfold workflow_signal in Hj; simpl in Hj;
      apply with_fields_in in Hj as (vs & Hvs & Hj);
      apply (mapMr_nth _ _ _ _ ""%string) in Hvs; cbv beta in Hvs; rewrite Hroom in Hvs; injection Hvs as ->;
      do 3 eexists; (split; [exact Hj|]); intros m Hm;
      [by eapply matches_message_room|by eapply matches_activity_room]. }
  destruct Hf as (e & wp & t & Hf & Hwp). apply fan_out_sound in Hf. destruct j as [r n|w p|]; [| |done].
  - destruct Hf as (e' & m & crit & _ & ? & ? & ?). exists e', m, crit. auto.
  - destruct Hf as (d & config & path & depth & ? & ? & ? & _). exists d, t, config. auto.
Qed.

(** A chain of runs each of which triggered the next by an A2A message never
    visits a workflow twice and has at most ten runs: a run triggered at the end of
    [ws] has its workflow off [ws], and [ws] with it has at most
    [TRIGGER_MAX_CHAIN_DEPTH] workflows. *)
Theorem trigger_chain_bounded `{Regex} v rows ws w tp (Hchain : chain v rows ws w tp) :
  NoDup (ws ++ [w]) /\ Z.of_nat (length (ws ++ [w])) <= TRIGGER_MAX_CHAIN_DEPTH.
Proof.
  apply chain_carries in Hchain as (? & ? & _). split; [done|]. rewrite length_app. simpl. lia.
Qed.

(** * Witnesses *)

(** Patterns read as plain substrings. *)
#[local] Instance substring_regex : Regex := {
  re2_search p c := Some (is_infix (chars p) (chars c));
  re_search p c := Some (is_infix (chars p) (chars c));
}.

Definition two_waits : WaitView := mkView
  (fun e => if String.eqb e "message_in_room" then ["run1:ask"; "run2:ask"]%string else [])
  (fun r n => if String.eqb r "run1" then Some (Info [("match", VDict [("chatroom_id", VStr "room1"); ("content_regex", VStr "yes")])]%string)
              else Some (Info [("match", VDict [("chatroom_id", VStr "room2")])]%string)).

Definition on_agent_event (id : string) : string * definition :=
  (id, mkDef "t" [mkNode "t" TRIGGER [("trigger_type", VStr "a2a_event"); ("agent_id", VStr "bot");
                                      ("event_types", VList [VStr "call"])]%string] [] [] None None None).

Definition yes_in_room1 : pydict :=
  [("chatroom_id", VStr "room1"); ("sender_type", VStr "user"); ("content", VStr "oh yes")]%string.

Example message_resumes_its_room :
  workflow_signal two_waits [] yes_in_room1 "message" = ([EventResume "run1" "ask"], Ok tt).
Proof. vm_compute. reflexivity. Qed.

Definition from_w0 : pydict := a2a_signal_payload
  (mkEnvelope "bot" "call" (VInt 0, VList []) (VNone, VNone) 1 [VStr "w0"]).

(** The A2A message of a run of [w0] starts the second workflow and refuses [w0]. *)
Example chain_refuses_itself :
  workflow_signal two_waits [on_agent_event "w0"; on_agent_event "w1"] from_w0 "a2a" =
  ([TriggerSkip "w0" "cycle";
    RunTriggered "w1" (("trigger_type", VStr "a2a_event") :: from_w0)]%string, Ok tt).
Proof. vm_compute. reflexivity. Qed.

Lemma signal_room_isolation_witness :
  exists e m crit, In m (wv_index two_waits e) /\ live_wait two_waits m = Some ("run1"%string, "ask"%string, crit) /\
    str_of "chatroom_id" "" crit = Ok "room1"%string.
Proof.
  apply (signal_room_isolation two_waits [] yes_in_room1 "message" "room1" (EventResume "run1" "ask")).
  - left. reflexivity.
  - vm_compute. reflexivity.
  - vm_compute. left. reflexivity.
Defined.

Lemma trigger_chain_bounded_witness :
  NoDup (["w0"%string] ++ ["w1"%string]) /\
  Z.of_nat (length (["w0"%string] ++ ["w1"%string])) <= TRIGGER_MAX_CHAIN_DEPTH.
Proof.
  apply (trigger_chain_bounded two_waits [on_agent_event "w0"; on_agent_event "w1"] ["w0"%string] "w1"
           (("trigger_type"%string, VStr "a2a_event") :: from_w0)).
  eapply (chain_hop _ _ [] "w0" [] (mkEnvelope "bot" "call" (VInt 0, VList []) (VNone, VNone) 1 [VStr "w0"])).
  - apply chain_root; reflexivity.
  - reflexivity.
  - reflexivity.
  - reflexivity.
  - vm_compute. right. left. reflexivity.
Defined.
