(* ===== verification/Permissions.v ===== *)
(** * The permission matrix

    [shared_kernel/auth/permissions.py]: the capability matrix and [decide], the one
    decision every authorisation of the platform goes through.  The role resolver is
    an interface, the class [RoleResolver]; [Tenancy] implements it.  The [reason]
    text of a decision is not modelled. *)

From S2P Require Import Prelude.
Inductive Role := ADMIN | ORG_OWNER | ORG_MEMBER | PROJECT_OWNER | PROJECT_MEMBER | GUEST.

Inductive Capability :=
  | KEY_VIEW_PLAINTEXT | KEY_UPLOAD | KEY_DELETE_OWN | KEY_DELETE_OTHER_IN_PROJECT
  | KEY_VIEW_USAGE_PROJECT | KEY_CONFIGURE
  | ORG_CREATE | ORG_DELETE | ORG_OWNER_MANAGE | ORG_MEMBER_MANAGE
  | PROJECT_CREATE_UNDER_ORG | PROJECT_CREATE_UNDER_USER | PROJECT_DELETE | PROJECT_MEMBER_MANAGE
  | RESOURCE_CREATE_EDIT | CHAT_CREATE | CHAT_SEND | GUEST_LINK_MANAGE | CHAT_EXPORT | MESSAGE_DELETE
  | AUDIT_VIEW | USER_BAN | USER_DELETE_ANY | USER_READ_ANY
  | PROMPT_STUDIO_ORG_MANAGE | SKILL_ORG_MANAGE.

#[global] Instance Role_eq_dec : EqDecision Role.
Proof. solve_decision. Defined.
#[global] Instance Capability_eq_dec : EqDecision Capability.
Proof. solve_decision. Defined.

Record Scope := mkScope {
  org_id : option uuid;
  project_id : option uuid;
  chatroom_id : option uuid;
  resource_owner_user_id : option uuid;
}.

Record Principal := mkPrincipal {
  user_id : uuid;
  is_admin : bool;
  email_verified : bool;
  is_guest : bool;
  p_chatroom_id : option uuid;
}.

(** [Principal.guest_room_id] *)
Definition guest_room_id (p : Principal) : option uuid := if is_guest p then p_chatroom_id p else None.

(** The roles come as a list: a [frozenset] in some order.  The participation check
    may raise. *)
Class RoleResolver := {
  roles_for : Principal -> Scope -> list Role;
  is_original_creator : uuid -> uuid -> bool;             (** user, org *)
  is_chatroom_participant : uuid -> uuid -> res bool;     (** user, room *)
}.

Inductive Outcome :=
  | ALLOW | DENY | OWN_ONLY | ROOM_ACL | ORIGINAL_CREATOR_ONLY | NOT_ORIGINAL_CREATOR
  | ADMIN_ONLY_IF_NOT_OWN.

#[global] Instance Outcome_eq_dec : EqDecision Outcome.
Proof. solve_decision. Defined.

(** [_MATRIX]: a row is a dictionary from roles. *)
Definition row (org_owner org_member project_owner project_member guest : option Outcome) (r : Role)
    : option Outcome :=
  match r with
  | ADMIN => None
  | ORG_OWNER => org_owner
  | ORG_MEMBER => org_member
  | PROJECT_OWNER => project_owner
  | PROJECT_MEMBER => project_member
  | GUEST => guest
  end.

Definition MATRIX (c : Capability) : Role -> option Outcome :=
  let allow := Some ALLOW in
  let own := Some OWN_ONLY in
  let acl := Some ROOM_ACL in
  match c with
  | KEY_VIEW_PLAINTEXT => fun _ => Some DENY
  | KEY_UPLOAD => row allow allow allow allow None
  | KEY_DELETE_OWN => row own own own own None
  | KEY_DELETE_OTHER_IN_PROJECT => row allow None allow None None
  | KEY_VIEW_USAGE_PROJECT => row allow allow allow allow None
  | KEY_CONFIGURE => row allow None allow None None
  | ORG_CREATE => row allow allow allow allow None
  | ORG_DELETE => row (Some ORIGINAL_CREATOR_ONLY) None None None None
  | ORG_OWNER_MANAGE => row (Some NOT_ORIGINAL_CREATOR) None None None None
  | ORG_MEMBER_MANAGE => row allow None None None None
  | PROJECT_CREATE_UNDER_ORG => row allow allow None None None
  | PROJECT_CREATE_UNDER_USER => row allow allow allow allow None
  | PROJECT_DELETE => row allow own allow None None
  | PROJECT_MEMBER_MANAGE => row allow None allow None None
  | RESOURCE_CREATE_EDIT => row allow None allow None None
  | CHAT_CREATE => row allow None allow None None
  | CHAT_SEND => row acl acl acl acl acl
  | GUEST_LINK_MANAGE => row allow None allow None None
  | CHAT_EXPORT => row allow own allow own None
  | MESSAGE_DELETE => row allow own allow own own
  | AUDIT_VIEW | USER_BAN | USER_DELETE_ANY | USER_READ_ANY => row None None None None None
  | PROMPT_STUDIO_ORG_MANAGE => row allow None None None None
  | SKILL_ORG_MANAGE => row allow None None None None
  end.

(** [outcome_for] *)
Definition outcome_for (c : Capability) (r : Role) : option Outcome := MATRIX c r.

Record AccessDecision := mkDecision { allowed : bool; d_outcome : Outcome }.
Definition allow (o : Outcome) : AccessDecision := mkDecision true o.
Definition deny : AccessDecision := mkDecision false DENY.

(** [_EMAIL_VERIFICATION_REQUIRED] and [_SELF_SERVICE_CAPABILITIES] *)
Definition EMAIL_VERIFICATION_REQUIRED : list Capability :=
  [ORG_CREATE; PROJECT_CREATE_UNDER_ORG; PROJECT_CREATE_UNDER_USER].
Definition SELF_SERVICE_CAPABILITIES : list Capability := [ORG_CREATE; PROJECT_CREATE_UNDER_USER].

Definition empty_scope (s : Scope) : bool :=
  match org_id s, project_id s, chatroom_id s with None, None, None => true | _, _, _ => false end.

(** ** [decide] *)
Section decide.
Context `{RoleResolver} (principal : Principal) (capability : Capability) (scope : Scope).

(** The loop over the roles. *)
Fixpoint decide_roles (roles : list Role) : res AccessDecision :=
  match roles with
  | [] => Ok deny
  | role :: roles =>
      match MATRIX capability role with
      | None | Some DENY | Some ADMIN_ONLY_IF_NOT_OWN => decide_roles roles
      | Some ALLOW => Ok (allow ALLOW)
      | Some OWN_ONLY =>
          if bool_decide (resource_owner_user_id scope = Some (user_id principal)) then Ok (allow OWN_ONLY)
          else decide_roles roles
      | Some ORIGINAL_CREATOR_ONLY =>
          if match org_id scope with Some o => is_original_creator (user_id principal) o | None => false end
          then Ok (allow ORIGINAL_CREATOR_ONLY) else decide_roles roles
      | Some NOT_ORIGINAL_CREATOR => Ok (allow NOT_ORIGINAL_CREATOR)
      | Some ROOM_ACL =>
          b ← match chatroom_id scope with
              | Some room => is_chatroom_participant (user_id principal) room
              | None => Ok false
              end;
          if (b : bool) then Ok (allow ROOM_ACL) else decide_roles roles
      end
  end.

Definition decide_access : res AccessDecision :=
  if bool_decide (capability = KEY_VIEW_PLAINTEXT) then Ok deny
  else if is_admin principal then Ok (allow ALLOW)
  else if bool_decide (capability ∈ EMAIL_VERIFICATION_REQUIRED) && negb (email_verified principal) then Ok deny
  else if empty_scope scope then
    Ok (if bool_decide (capability ∈ SELF_SERVICE_CAPABILITIES) then allow ALLOW else deny)
  else
    let roles := roles_for principal scope in
    match roles with [] => Ok deny | _ => decide_roles roles end.
End decide.

(** [PROJECT_ROLES], [holds_project_role] *)
Definition PROJECT_ROLES : list Role := [PROJECT_OWNER; PROJECT_MEMBER].
Definition holds_project_role (roles : list Role) : bool :=
  existsb (fun r => bool_decide (r ∈ PROJECT_ROLES)) roles.

(** * Specification

    What a cell of the matrix grants to a caller in a scope. *)
Section spec.
Context `{RoleResolver} (principal : Principal) (scope : Scope).

Definition grants (o : option Outcome) : Prop :=
  match o with
  | Some ALLOW | Some NOT_ORIGINAL_CREATOR => True
  | Some OWN_ONLY => resource_owner_user_id scope = Some (user_id principal)
  | Some ORIGINAL_CREATOR_ONLY =>
      exists o, org_id scope = Some o /\ is_original_creator (user_id principal) o = true
  | Some ROOM_ACL =>
      exists room, chatroom_id scope = Some room /\
                   is_chatroom_participant (user_id principal) room = Ok true
  | Some DENY | Some ADMIN_ONLY_IF_NOT_OWN | None => False
  end.

(** The answer of the participation check, [False] without a room. *)
Definition participation : res bool :=
  match chatroom_id scope with
  | Some room => is_chatroom_participant (user_id principal) room
  | None => Ok false
  end.

Lemma grants_room_acl : grants (Some ROOM_ACL) <-> participation = Ok true.
Proof. unfold participation. simpl. destruct (chatroom_id scope); naive_solver. Qed.

Lemma decide_roles_allowed c roles d :
  decide_roles principal c scope roles = Ok d ->
  allowed d = true <-> Exists (fun r => grants (MATRIX c r)) roles.
Proof.
  induction roles as [|r roles IH]; simpl; intros Hd.
  { injection Hd as <-. rewrite Exists_nil. done. }
  rewrite Exists_cons. destruct (MATRIX c r) as [[]|] eqn:E; simpl.
  - injection Hd as <-. tauto.
  - rewrite (IH Hd). tauto.
  - case_bool_decide; [injection Hd as <-; tauto|]. rewrite (IH Hd). tauto.
  - change (match chatroom_id scope with Some _ => _ | None => _ end) with participation in Hd.
    apply bind_Ok in Hd as (b & Hb & Hd). pose proof grants_room_acl as Hg. simpl in Hg. rewrite Hg, Hb.
    destruct b; [injection Hd as <-; tauto|]. rewrite (IH Hd). split; [by right|]. by intros [[=]|].
  - destruct (org_id scope) as [o|].
    + destruct (is_original_creator _ o) eqn:Eo.
      * injection Hd as <-. split; [|done]. left. by exists o.
      * rewrite (IH Hd). split; [by right|]. intros [(o' & [= <-] & ?)|?]; [congruence|done].
    + rewrite (IH Hd). split; [by right|]. by intros [(? & ? & _)|?].
  - injection Hd as <-. tauto.
  - rewrite (IH Hd). tauto.
  - rewrite (IH Hd). tauto.
Qed.

(** The matrix keeps the room rule in a row of its own. *)
Lemma room_acl_rows c r : MATRIX c r = Some ROOM_ACL -> c = CHAT_SEND.
Proof. destruct c, r; done. Qed.

Lemma decide_roles_ok c roles : c <> CHAT_SEND ->
  exists d, decide_roles principal c scope roles = Ok d.
Proof.
  intros Hc. induction roles as [|r roles IH]; simpl; [eauto|].
  destruct (MATRIX c r) as [[]|] eqn:E; eauto; [|by apply room_acl_rows in E|];
    case_match; eauto.
Qed.

Lemma decide_roles_chat_send roles :
  allowed <$> decide_roles principal CHAT_SEND scope roles =
  if existsb (fun r => bool_decide (r <> ADMIN)) roles then participation else Ok false.
Proof.
  induction roles as [|r roles IH]; [done|].
  destruct r; [exact IH|..]; simpl; 
    change (match chatroom_id scope with Some _ => _ | None => _ end) with participation;
    (destruct participation as [[]|e|] eqn:Ep; simpl; try done);
    by rewrite IH; case_match.
Qed.
End spec.

(** * Properties *)

(** A caller is allowed exactly when the capability is not the display of a
    plaintext key and either the caller is an administrator, or the e-mail gate of
    the creation capabilities is passed and: without a scope, the capability is
    self-service; with one, some role the resolver finds has a cell that grants it. *)
Theorem decide_spec `{RoleResolver} p c s d (Hd : decide_access p c s = Ok d) :
  allowed d = true <->
  c <> KEY_VIEW_PLAINTEXT /\
  (is_admin p = true \/
   ((c ∈ EMAIL_VERIFICATION_REQUIRED -> email_verified p = true) /\
    if empty_scope s then c ∈ SELF_SERVICE_CAPABILITIES
    else exists r, r ∈ roles_for p s /\ grants p s (MATRIX c r))).
Proof.
  unfold decide_access in Hd.
  destruct (bool_decide (c = KEY_VIEW_PLAINTEXT)) eqn:E1.
  { apply bool_decide_eq_true in E1. injection Hd as <-. simpl. split; [done|]. by intros [? _]. }
  apply bool_decide_eq_false in E1.
  destruct (is_admin p); [injection Hd as <-; simpl; tauto|].
  destruct (bool_decide (c ∈ EMAIL_VERIFICATION_REQUIRED) && negb (email_verified p)) eqn:E2.
  { apply andb_true_iff in E2 as [E2 E3]. apply bool_decide_eq_true in E2. apply negb_true_iff in E3.
    injection Hd as <-. simpl. split; [done|]. intros (_ & [?|[Hv _]]); [done|]. specialize (Hv E2). congruence. }
  assert (Hgate : c ∈ EMAIL_VERIFICATION_REQUIRED -> email_verified p = true).
  { intros Hin. rewrite (bool_decide_eq_true_2 _ Hin) in E2. simpl in E2.
    by apply negb_false_iff in E2. }
  destruct (empty_scope s).
  { injection Hd as <-. clear E2. case_bool_decide; simpl; split; try done.
    - intros _. split; [done|]. right. split; [exact Hgate|done].
    - intros (_ & [?|[_ ?]]); done. }
  assert (Hr : decide_roles p c s (roles_for p s) = Ok d) by (destruct (roles_for p s); done).
  apply decide_roles_allowed in Hr. rewrite Hr, List.Exists_exists.
  setoid_rewrite <- list_elem_of_In. split; [intros ?; split; [done|]; right; split; [exact Hgate|done]|].
  by intros (_ & [[=]|[_ ?]]).
Qed.

(** The decision does not depend on the order in which the roles are visited:
    two resolvers that find the same set of roles and agree on the other checks
    allow and refuse alike, and raise alike. *)
Theorem decide_order_independent (R R' : RoleResolver) p c s
    (Hroles : forall r, r ∈ @roles_for R p s <-> r ∈ @roles_for R' p s)
    (Hoc : @is_original_creator R = @is_original_creator R')
    (Hpart : @is_chatroom_participant R = @is_chatroom_participant R') :
  allowed <$> @decide_access R p c s = allowed <$> @decide_access R' p c s.
Proof.
  unfold decide_access. destruct (bool_decide _); [done|]. destruct (is_admin p); [done|].
  destruct (_ && _); [done|]. destruct (empty_scope s); [done|].
  assert (Hlist : forall R0 l, match l with [] => Ok deny | _ :: _ => @decide_roles R0 p c s l end =
                               @decide_roles R0 p c s l) by (by intros ? []).
  cbn zeta. rewrite !Hlist. destruct (decide (c = CHAT_SEND)) as [->|Hc].
  - rewrite !decide_roles_chat_send.
    replace (@participation R' p s) with (@participation R p s) by (unfold participation; by rewrite Hpart).
    enough (existsb (fun r => bool_decide (r <> ADMIN)) (@roles_for R p s) =
            existsb (fun r => bool_decide (r <> ADMIN)) (@roles_for R' p s)) as -> by done.
    apply eq_true_iff_eq. rewrite !existsb_exists. setoid_rewrite <- list_elem_of_In.
    by setoid_rewrite Hroles.
  - destruct (@decide_roles_ok R p s c (@roles_for R p s) Hc) as [d Hd].
    destruct (@decide_roles_ok R' p s c (@roles_for R' p s) Hc) as [d' Hd'].
    rewrite Hd, Hd'. simpl. f_equal. apply eq_true_iff_eq.
    apply decide_roles_allowed in Hd. apply decide_roles_allowed in Hd'. rewrite Hd, Hd'.
    rewrite !List.Exists_exists. setoid_rewrite <- list_elem_of_In. setoid_rewrite Hroles.
    assert (Hg : forall o, @grants R p s o <-> @grants R' p s o).
    { intros [[]|]; simpl; rewrite ?Hoc, ?Hpart; done. }
    by setoid_rewrite Hg.
Qed.

(** * Witnesses *)

(** A resolver that finds a fixed list of roles. *)
Definition fixed_roles (roles : list Role) : RoleResolver := {|
  roles_for _ _ := roles;
  is_original_creator _ _ := false;
  is_chatroom_participant _ _ := Ok true;
|}.
Definition alice : Principal := mkPrincipal 1%positive false true false None.
Definition some_project : Scope := mkScope None (Some 7%positive) None (Some 1%positive).

Lemma decide_spec_witness :
  allowed (allow OWN_ONLY) = true <->
  KEY_DELETE_OWN <> KEY_VIEW_PLAINTEXT /\
  (is_admin alice = true \/
   ((KEY_DELETE_OWN ∈ EMAIL_VERIFICATION_REQUIRED -> email_verified alice = true) /\
    if empty_scope some_project then KEY_DELETE_OWN ∈ SELF_SERVICE_CAPABILITIES
    else exists r, r ∈ @roles_for (fixed_roles [PROJECT_MEMBER]) alice some_project /\
                   @grants (fixed_roles [PROJECT_MEMBER]) alice some_project (MATRIX KEY_DELETE_OWN r))).
Proof.
  apply (@decide_spec (fixed_roles [PROJECT_MEMBER]) alice KEY_DELETE_OWN some_project (allow OWN_ONLY)).
  vm_compute. reflexivity.
Defined.

Lemma decide_order_independent_witness :
  allowed <$> @decide_access (fixed_roles [ORG_MEMBER; PROJECT_OWNER]) alice PROJECT_DELETE some_project =
  allowed <$> @decide_access (fixed_roles [PROJECT_OWNER; ORG_MEMBER]) alice PROJECT_DELETE some_project.
Proof.
  apply decide_order_independent; [|reflexivity..].
  intros r. simpl. rewrite !elem_of_cons. tauto.
Defined.
