(* ===== verification/Tenancy.v ===== *)
(** * Roles from the tenancy tables

    [contexts/tenancy/interfaces/role_resolver.py] over the queries of
    [contexts/tenancy/infrastructure/repositories.py]: how a caller's roles in a scope
    follow from organisation membership, project membership and project ownership,
    and the batch forms of the same question that listings use.  The tables are
    finite maps on their primary keys; the columns the queries do not read are left
    out. *)

From S2P Require Import Prelude Permissions.
Inductive OrgMemberRole := ORG_ROLE_OWNER | ORG_ROLE_MEMBER.
Inductive ProjectMemberRole := PROJECT_ROLE_OWNER | PROJECT_ROLE_MEMBER.

#[global] Instance OrgMemberRole_eq_dec : EqDecision OrgMemberRole.
Proof. solve_decision. Defined.
#[global] Instance ProjectMemberRole_eq_dec : EqDecision ProjectMemberRole.
Proof. solve_decision. Defined.

Record OrgMember := mkOrgMember {
  om_role : OrgMemberRole;
  om_is_original_creator : bool;
}.

Record Project := mkProject {
  pr_id : uuid;
  owner_user_id : option uuid;
  owner_org_id : option uuid;
  pr_deleted : bool;  (** [deleted_at] is set *)
}.

Record MemberGroup := mkMemberGroup {
  mg_project_id : uuid;
  mg_deleted : bool;
}.

Record TenancyDB := mkTenancy {
  t_org_members : gmap (uuid * uuid) OrgMember;              (** org, user *)
  t_projects : gmap uuid Project;
  t_project_members : gmap (uuid * uuid) ProjectMemberRole;  (** project, user *)
  t_member_groups : gmap uuid MemberGroup;
  t_member_group_members : gset (uuid * uuid);               (** group, user *)
}.

(** [SELECT f(k) FROM m WHERE P] as a set. *)
Definition select_ids {V} (P : uuid * uuid -> V -> bool) (f : uuid * uuid -> uuid) (m : gmap (uuid * uuid) V)
    : gset uuid :=
  list_to_set (omap (fun kv => if P kv.1 kv.2 then Some (f kv.1) else None) (map_to_list m)).

(** [{p.id for p in projects if P(p)}] *)
Definition ids_where (P : Project -> bool) (ps : list Project) : gset uuid :=
  list_to_set (omap (fun p => if P p then Some (pr_id p) else None) ps).

(** [is_moderator_roles] of [conversation/application/access.py] *)
Definition is_moderator_roles (roles : list Role) : bool :=
  bool_decide (PROJECT_OWNER ∈ roles) || bool_decide (ORG_OWNER ∈ roles).

(** A field that is set and equal. *)
Definition field_is (f : option uuid) (u : uuid) : bool := bool_decide (f = Some u).

Section resolver.
Context (db : TenancyDB).

(** ** The queries *)
Definition org_member_get (org user : uuid) : option OrgMember := t_org_members db !! (org, user).
Definition owned_org_ids (user : uuid) : gset uuid :=
  select_ids (fun k m => bool_decide (k.2 = user) && bool_decide (om_role m = ORG_ROLE_OWNER)) fst
    (t_org_members db).
Definition org_owner_user_ids (org : uuid) (users : list uuid) : gset uuid :=
  if bool_decide (users = []) then ∅ else
  select_ids (fun k m => bool_decide (k.1 = org) && bool_decide (om_role m = ORG_ROLE_OWNER)
                     && bool_decide (k.2 ∈ users)) snd (t_org_members db).

Definition project_get (id : uuid) (include_deleted : bool) : option Project :=
  match t_projects db !! id with
  | Some p => if pr_deleted p && negb include_deleted then None else Some p
  | None => None
  end.

Definition project_member_get (project user : uuid) : option ProjectMemberRole :=
  t_project_members db !! (project, user).
Definition list_project_ids_for_user (user : uuid) : gset uuid :=
  select_ids (fun k _ => bool_decide (k.2 = user)) fst (t_project_members db).
Definition owned_project_ids_for_user (user : uuid) : gset uuid :=
  select_ids (fun k r => bool_decide (k.2 = user) && bool_decide (r = PROJECT_ROLE_OWNER)) fst
    (t_project_members db).
Definition member_user_ids (project : uuid) (users : list uuid) : gset uuid :=
  if bool_decide (users = []) then ∅ else
  select_ids (fun k _ => bool_decide (k.1 = project) && bool_decide (k.2 ∈ users)) snd (t_project_members db).
Definition project_owner_user_ids (project : uuid) (users : list uuid) : gset uuid :=
  if bool_decide (users = []) then ∅ else
  select_ids (fun k r => bool_decide (k.1 = project) && bool_decide (r = PROJECT_ROLE_OWNER)
                     && bool_decide (k.2 ∈ users)) snd (t_project_members db).

(** The live groups of a user in projects the user is still a member of. *)
Definition group_ids_for_user (user : uuid) : gset uuid :=
  list_to_set (omap (fun gu : uuid * uuid =>
    match t_member_groups db !! gu.1 with
    | Some g => if bool_decide (gu.2 = user) && negb (mg_deleted g)
                   && bool_decide (is_Some (t_project_members db !! (mg_project_id g, gu.2)))
                then Some gu.1 else None
    | None => None
    end) (elements (t_member_group_members db))).

(** ** [roles_for] *)
Definition roles_for_project (scope : Scope) : option Project :=
  pid ← project_id scope; project_get pid true.

(** The organisation asked about: the parent of the project, else the scope's. *)
Definition roles_for_org (scope : Scope) : option uuid :=
  match roles_for_project scope ≫= owner_org_id with Some o => Some o | None => org_id scope end.

Definition org_roles (principal : Principal) (scope : Scope) : list Role :=
  match o ← roles_for_org scope; org_member_get o (user_id principal) with
  | None => []
  | Some om =>
      match om_role om with
      | ORG_ROLE_OWNER => ORG_OWNER :: (if roles_for_project scope then [PROJECT_OWNER] else [])
      | ORG_ROLE_MEMBER => [ORG_MEMBER]
      end
  end.

Definition project_roles (principal : Principal) (scope : Scope) : list Role :=
  match project_id scope with
  | None => []
  | Some pid =>
      match project_member_get pid (user_id principal) with
      | Some PROJECT_ROLE_OWNER => [PROJECT_OWNER]
      | Some PROJECT_ROLE_MEMBER => [PROJECT_MEMBER]
      | None => []
      end ++
      match roles_for_project scope with
      | Some p => if field_is (owner_user_id p) (user_id principal) then [PROJECT_OWNER] else []
      | None => []
      end
  end.

Definition tenancy_roles_for (principal : Principal) (scope : Scope) : list Role :=
  remove_dups (org_roles principal scope ++ project_roles principal scope).

#[global] Instance TenancyRoleResolver : RoleResolver := {
  roles_for := tenancy_roles_for;
  is_original_creator user org :=
    match org_member_get org user with Some m => om_is_original_creator m | None => false end;
  is_chatroom_participant _ _ := Raise NotImplementedError;
}.

(** ** The batch forms *)
Definition owns_parent_org (owned_orgs : gset uuid) (p : Project) : bool :=
  match owner_org_id p with Some o => bool_decide (o ∈ owned_orgs) | None => false end.

Definition moderated_project_ids (principal : Principal) (projects : list Project) : gset uuid :=
  let owned_orgs := owned_org_ids (user_id principal) in
  let owner_membership := owned_project_ids_for_user (user_id principal) in
  ids_where (fun p => owns_parent_org owned_orgs p || bool_decide (pr_id p ∈ owner_membership)
                      || field_is (owner_user_id p) (user_id principal)) projects.

Definition project_role_project_ids (principal : Principal) (projects : list Project) : gset uuid :=
  let owned_orgs := owned_org_ids (user_id principal) in
  let member_of := list_project_ids_for_user (user_id principal) in
  ids_where (fun p => bool_decide (pr_id p ∈ member_of) || owns_parent_org owned_orgs p
                      || field_is (owner_user_id p) (user_id principal)) projects.

(** The owner of a user-owned project and the owners of the parent organisation,
    of the users asked about. *)
Definition add_owners (p : Project) (users : list uuid) (holders : gset uuid) : gset uuid :=
  holders
  ∪ match owner_user_id p with Some u => if bool_decide (u ∈ users) then {[u]} else ∅ | None => ∅ end
  ∪ match owner_org_id p with Some o => org_owner_user_ids o users | None => ∅ end.

Definition project_role_holders (users : list uuid) (pid : uuid) : gset uuid :=
  if bool_decide (users = []) then ∅ else
  let holders := member_user_ids pid users in
  match project_get pid true with None => holders | Some p => add_owners p users holders end.

Definition project_owner_ids (users : list uuid) (pid : uuid) : gset uuid :=
  if bool_decide (users = []) then ∅ else
  match project_get pid true with
  | None => ∅
  | Some p => add_owners p users (project_owner_user_ids pid users)
  end.
End resolver.

(** The scope of a project, as the gates build it. *)
Definition project_scope (pid : uuid) : Scope := mkScope None (Some pid) None None.

(** * Facts *)

Lemma elem_of_select {V} (P : uuid * uuid -> V -> bool) (f : uuid * uuid -> uuid) (m : gmap (uuid * uuid) V) (x : uuid) :
  x ∈ select_ids P f m <-> exists k v, m !! k = Some v /\ P k v = true /\ f k = x.
Proof.
  unfold select_ids. rewrite elem_of_list_to_set, list_elem_of_omap. split.
  - intros ([k v] & Hin & Hx). apply elem_of_map_to_list in Hin. simpl in Hx.
    destruct (P k v) eqn:E; [|done]. injection Hx as <-. by exists k, v.
  - intros (k & v & Hk & HP & <-). exists (k, v). split; [by apply elem_of_map_to_list|].
    simpl. by rewrite HP.
Qed.

Lemma elem_of_ids_where (P : Project -> bool) ps (x : uuid) :
  x ∈ ids_where P ps <-> exists p, p ∈ ps /\ P p = true /\ pr_id p = x.
Proof.
  unfold ids_where. rewrite elem_of_list_to_set, list_elem_of_omap. split.
  - intros (p & Hin & Hx). destruct (P p) eqn:E; [|done]. injection Hx as <-. by exists p.
  - intros (p & Hin & HP & <-). exists p. by rewrite HP.
Qed.

(** Decides the boolean conditions of the queries. *)
Ltac bools :=
  repeat match goal with
    | H : context [ _ && _ = true ] |- _ => rewrite andb_true_iff in H
    | H : context [ _ || _ = true ] |- _ => rewrite orb_true_iff in H
    | H : context [ bool_decide _ = true ] |- _ => rewrite bool_decide_eq_true in H
    | |- context [ _ && _ = true ] => rewrite andb_true_iff
    | |- context [ _ || _ = true ] => rewrite orb_true_iff
    | |- context [ bool_decide _ = true ] => rewrite bool_decide_eq_true
    end.

Section facts.
Context (db : TenancyDB).

Definition owns_org (u o : uuid) : Prop :=
  exists m, t_org_members db !! (o, u) = Some m /\ om_role m = ORG_ROLE_OWNER.

(** The grounds of a project role: a membership row, the parent organisation, the
    project itself. *)
Definition owner_row (u pid : uuid) : Prop := t_project_members db !! (pid, u) = Some PROJECT_ROLE_OWNER.
Definition any_row (u pid : uuid) : Prop := is_Some (t_project_members db !! (pid, u)).
Definition owns_project (u : uuid) (p : Project) : Prop :=
  (exists o, owner_org_id p = Some o /\ owns_org u o) \/ owner_user_id p = Some u.

Lemma elem_of_owned_org_ids u o : o ∈ owned_org_ids db u <-> owns_org u o.
Proof.
  unfold owned_org_ids, owns_org. rewrite elem_of_select. split.
  - intros ([o' u'] & m & Hm & HP & <-). bools. simpl in *. destruct HP as [-> ?]. by exists m.
  - intros (m & Hm & Hr). exists (o, u), m. bools. done.
Qed.
Lemma elem_of_org_owner_user_ids o us u :
  u ∈ org_owner_user_ids db o us <-> u ∈ us /\ owns_org u o.
Proof.
  unfold org_owner_user_ids, owns_org. case_bool_decide as E; [subst; set_solver|].
  rewrite elem_of_select. split.
  - intros ([o' u'] & m & Hm & HP & <-). bools. simpl in *. destruct HP as [[-> ?] ?]. eauto.
  - intros (Hu & m & Hm & Hr). exists (o, u), m. bools. done.
Qed.
Lemma elem_of_owned_project_ids u pid : pid ∈ owned_project_ids_for_user db u <-> owner_row u pid.
Proof.
  unfold owned_project_ids_for_user, owner_row. rewrite elem_of_select. split.
  - intros ([p' u'] & r & Hr & HP & <-). bools. simpl in *. by destruct HP as [-> ->].
  - intros Hr. exists (pid, u), PROJECT_ROLE_OWNER. bools. done.
Qed.
Lemma elem_of_member_project_ids u pid : pid ∈ list_project_ids_for_user db u <-> any_row u pid.
Proof.
  unfold list_project_ids_for_user, any_row. rewrite elem_of_select. split.
  - intros ([p' u'] & r & Hr & HP & <-). bools. simpl in *. subst. eauto.
  - intros [r Hr]. exists (pid, u), r. bools. done.
Qed.
Lemma elem_of_member_user_ids pid us u : u ∈ member_user_ids db pid us <-> u ∈ us /\ any_row u pid.
Proof.
  unfold member_user_ids, any_row. case_bool_decide as E; [subst; set_solver|].
  rewrite elem_of_select. split.
  - intros ([p' u'] & r & Hr & HP & <-). bools. simpl in *. destruct HP as [-> ?]. eauto.
  - intros (Hu & r & Hr). exists (pid, u), r. bools. done.
Qed.
Lemma elem_of_project_owner_user_ids pid us u :
  u ∈ project_owner_user_ids db pid us <-> u ∈ us /\ owner_row u pid.
Proof.
  unfold project_owner_user_ids, owner_row. case_bool_decide as E; [subst; set_solver|].
  rewrite elem_of_select. split.
  - intros ([p' u'] & r & Hr & HP & <-). bools. simpl in *. destruct HP as [[-> ->] ?]. eauto.
  - intros (Hu & Hr). exists (pid, u), PROJECT_ROLE_OWNER. bools. done.
Qed.

(** ** The roles of a project scope *)
Context (principal : Principal) (pid : uuid).
Abbreviation u := (user_id principal).
Abbreviation roles := (tenancy_roles_for db principal (project_scope pid)).

Context (p : Project) (Hp : t_projects db !! pid = Some p).

Lemma project_get_scope : roles_for_project db (project_scope pid) = Some p.
Proof. unfold roles_for_project, project_get. simpl. rewrite Hp. by rewrite andb_false_r. Qed.

Lemma org_roles_spec r : r ∈ org_roles db principal (project_scope pid) <->
  exists o m, owner_org_id p = Some o /\ t_org_members db !! (o, u) = Some m /\
    match om_role m with
    | ORG_ROLE_OWNER => r = ORG_OWNER \/ r = PROJECT_OWNER
    | ORG_ROLE_MEMBER => r = ORG_MEMBER
    end.
Proof.
  unfold org_roles, roles_for_org. rewrite project_get_scope. simpl. unfold org_member_get.
  destruct (owner_org_id p) as [o|]; simpl; [|set_solver].
  destruct (t_org_members db !! (o, u)) as [m|] eqn:Em; simpl; [|set_solver].
  split.
  - intros Hr. exists o, m. split; [done|]. split; [done|]. destruct (om_role m); set_solver.
  - intros (o' & m' & [= <-] & Hm & Hr). rewrite Em in Hm. injection Hm as <-. destruct (om_role m); set_solver.
Qed.

Lemma project_roles_spec r : r ∈ project_roles db principal (project_scope pid) <->
  (r = PROJECT_OWNER /\ (owner_row u pid \/ owner_user_id p = Some u)) \/
  (r = PROJECT_MEMBER /\ t_project_members db !! (pid, u) = Some PROJECT_ROLE_MEMBER).
Proof.
  unfold project_roles. rewrite project_get_scope. simpl. unfold project_member_get, owner_row, field_is.
  rewrite elem_of_app. destruct (t_project_members db !! (pid, u)) as [[]|]; case_bool_decide as E; set_solver.
Qed.

Lemma elem_of_roles r : r ∈ roles <->
  r ∈ org_roles db principal (project_scope pid) \/ r ∈ project_roles db principal (project_scope pid).
Proof. unfold tenancy_roles_for. by rewrite elem_of_remove_dups, elem_of_app. Qed.

(** Owning the parent organisation gives the role of the project's owner. *)
Lemma project_owner_iff : PROJECT_OWNER ∈ roles <-> owner_row u pid \/ owns_project u p.
Proof.
  rewrite elem_of_roles, org_roles_spec, project_roles_spec. unfold owns_project, owns_org. split.
  - intros [(o & m & Ho & Hm & Hr)|[[_ [?|?]]|[? _]]]; [|auto..|done].
    destruct (om_role m) eqn:Er; [|done]. right. left. eauto.
  - intros [?|[(o & Ho & m & Hm & Hr)|?]]; [auto| |auto]. left. exists o, m. rewrite Hr. auto.
Qed.

Lemma org_owner_is_project_owner : ORG_OWNER ∈ roles -> PROJECT_OWNER ∈ roles.
Proof.
  rewrite !elem_of_roles, !org_roles_spec, !project_roles_spec.
  intros [(o & m & Ho & Hm & Hr)|[[? _]|[? _]]]; [|done..].
  destruct (om_role m) eqn:Er; [|done]. left. exists o, m. rewrite Er. auto.
Qed.

Lemma moderator_iff : is_moderator_roles roles = true <-> owner_row u pid \/ owns_project u p.
Proof.
  unfold is_moderator_roles. bools. rewrite <- project_owner_iff. split; [|auto].
  intros [?|?]; [done|]. by apply org_owner_is_project_owner.
Qed.

Lemma project_role_iff : holds_project_role roles = true <-> any_row u pid \/ owns_project u p.
Proof.
  unfold holds_project_role. rewrite existsb_exists. setoid_rewrite <- list_elem_of_In.
  setoid_rewrite bool_decide_eq_true. unfold PROJECT_ROLES, any_row. split.
  - intros (r & Hr & Hin). rewrite !elem_of_cons in Hin. destruct Hin as [->|[->|[]%not_elem_of_nil]].
    + apply project_owner_iff in Hr as [Hr|?]; [left; unfold owner_row in Hr; eauto|auto].
    + apply elem_of_roles in Hr as [Hr|Hr].
      * apply org_roles_spec in Hr as (o & m & _ & _ & Hr). destruct (om_role m); naive_solver.
      * apply project_roles_spec in Hr as [[? _]|[_ ?]]; [done|eauto].
  - intros [[[] Hr]|Hown].
    + exists PROJECT_OWNER. split; [apply project_owner_iff; by left|set_solver].
    + exists PROJECT_MEMBER. split; [|set_solver]. apply elem_of_roles. right. apply project_roles_spec. auto.
    + exists PROJECT_OWNER. split; [apply project_owner_iff; by right|set_solver].
Qed.
End facts.

Lemma elem_of_add_owners db p us h u :
  u ∈ add_owners db p us h <-> u ∈ h \/ (u ∈ us /\ owns_project db u p).
Proof.
  unfold add_owners, owns_project. rewrite !elem_of_union.
  assert (H1 : u ∈ (match owner_user_id p with
      | Some v => if bool_decide (v ∈ us) then {[v]} else ∅ | None => ∅ end : gset uuid)
    <-> u ∈ us /\ owner_user_id p = Some u).
  { destruct (owner_user_id p) as [v|]; [case_bool_decide|]; set_solver. }
  assert (H2 : u ∈ (match owner_org_id p with Some o => org_owner_user_ids db o us | None => ∅ end : gset uuid)
    <-> u ∈ us /\ exists o, owner_org_id p = Some o /\ owns_org db u o).
  { destruct (owner_org_id p) as [o|]; [rewrite elem_of_org_owner_user_ids|]; set_solver. }
  rewrite H1, H2. tauto.
Qed.

Lemma owns_parent_org_iff db u p :
  owns_parent_org (owned_org_ids db u) p || field_is (owner_user_id p) u = true <-> owns_project db u p.
Proof.
  unfold owns_parent_org, field_is, owns_project. bools.
  destruct (owner_org_id p) as [o|]; bools; [rewrite elem_of_owned_org_ids|]; naive_solver.
Qed.

(** A room of the tenancy resolver's own: it never answers about participation. *)
Lemma tenancy_participation db p s :
  @participation (TenancyRoleResolver db) p s =
  match chatroom_id s with Some _ => Raise NotImplementedError | None => Ok false end.
Proof. done. Qed.

(** * Properties *)

(** The batch forms of the role question agree with [roles_for] on each project:
    for a project that exists, deleted or not, a listing marks it as moderated
    exactly when the caller's resolved roles moderate it, and as one of the caller's
    projects exactly when they hold a project role; and of the users asked about,
    the holders and the owners are those whose resolved roles say so. *)
Theorem batch_roles_agree db p (projects : list Project) users principal
    (Hp : t_projects db !! pr_id p = Some p) (Hin : p ∈ projects)
    (Hrows : forall q, q ∈ projects -> t_projects db !! pr_id q = Some q)
    (Huser : user_id principal ∈ users) :
  let roles := @roles_for (TenancyRoleResolver db) principal (project_scope (pr_id p)) in
  (pr_id p ∈ moderated_project_ids db principal projects <-> is_moderator_roles roles = true) /\
  (pr_id p ∈ project_role_project_ids db principal projects <-> holds_project_role roles = true) /\
  (user_id principal ∈ project_role_holders db users (pr_id p) <-> holds_project_role roles = true) /\
  (user_id principal ∈ project_owner_ids db users (pr_id p) <-> PROJECT_OWNER ∈ roles).
Proof.
  intros roles. set (u := user_id principal) in *.
  assert (Hsame : forall q, q ∈ projects -> pr_id q = pr_id p -> q = p).
  { intros q Hq E. apply Hrows in Hq. rewrite E in Hq. congruence. }
  assert (Hne : users <> []) by (intros ->; by apply not_elem_of_nil in Huser).
  assert (Hids : forall P, pr_id p ∈ ids_where P projects <-> P p = true).
  { intros P. rewrite elem_of_ids_where. split; [|by exists p].
    intros (q & Hq & HP & E). by rewrite <- (Hsame q Hq E). }
  assert (Hget : project_get db (pr_id p) true = Some p).
  { unfold project_get. by rewrite Hp, andb_false_r. }
  change roles with (tenancy_roles_for db principal (project_scope (pr_id p))).
  pose proof (owns_parent_org_iff db u p) as Hown.
  split; [|split; [|split]].
  - unfold moderated_project_ids. rewrite Hids, (moderator_iff _ _ _ p) by done. fold u.
    rewrite <- Hown. bools. rewrite elem_of_owned_project_ids. tauto.
  - unfold project_role_project_ids. rewrite Hids, (project_role_iff _ _ _ p) by done. fold u.
    rewrite <- Hown. bools. rewrite elem_of_member_project_ids. tauto.
  - rewrite (project_role_iff _ _ _ p) by done. unfold project_role_holders.
    rewrite bool_decide_eq_false_2, Hget, elem_of_add_owners, elem_of_member_user_ids by done. tauto.
  - rewrite (project_owner_iff _ _ _ p) by done. unfold project_owner_ids.
    rewrite bool_decide_eq_false_2, Hget, elem_of_add_owners, elem_of_project_owner_user_ids by done. tauto.
Qed.

(** With the roles of the tenancy tables, [decide] returns for every caller,
    capability and scope, except that sending in a room given in the scope raises
    [NotImplementedError] for a caller who is not an administrator and has a role
    there. *)
Theorem tenancy_decide_total db p c s :
  let roles := tenancy_roles_for db p s in
  let m := @decide_access (TenancyRoleResolver db) p c s in
  if bool_decide (c = CHAT_SEND) && negb (is_admin p) && bool_decide (roles <> [])
     && bool_decide (chatroom_id s <> None)
  then m = Raise NotImplementedError
  else exists d, m = Ok d.
Proof.
  intros roles m.
  assert (Hadmin : ADMIN ∉ roles).
  { unfold roles, tenancy_roles_for. rewrite elem_of_remove_dups, elem_of_app.
    unfold org_roles, project_roles. repeat case_match; set_solver. }
  unfold m, decide_access.
  change (@roles_for (TenancyRoleResolver db) p s) with roles. clear m. clearbody roles.
  destruct (bool_decide_reflect (c = CHAT_SEND)) as [->|Hc]; cbn [andb].
  - rewrite (bool_decide_eq_false_2 (CHAT_SEND = KEY_VIEW_PLAINTEXT)) by done.
    destruct (is_admin p); cbn [negb andb]; [eauto|].
    rewrite (bool_decide_eq_false_2 (CHAT_SEND ∈ EMAIL_VERIFICATION_REQUIRED)) by (unfold EMAIL_VERIFICATION_REQUIRED; set_solver).
    cbn [andb].
    assert (Hs : bool_decide (chatroom_id s <> None) = match chatroom_id s with Some _ => true | None => false end).
    { destruct (chatroom_id s); [by apply bool_decide_eq_true_2|]. apply bool_decide_eq_false_2.
      intros Hn. by apply Hn. }
    rewrite Hs. destruct roles as [|r rs] eqn:Er.
    { rewrite (bool_decide_eq_false_2 ([] <> [])) by (intros Hn; by apply Hn). cbn.
      destruct (empty_scope s); eauto. }
    rewrite bool_decide_eq_true_2 by done. cbn [andb].
    pose proof (@decide_roles_chat_send (TenancyRoleResolver db) p s (r :: rs)) as Hsend.
    rewrite tenancy_participation in Hsend.
    replace (existsb _ (r :: rs)) with true in Hsend.
    2:{ symmetry. apply existsb_exists. exists r. split; [by left|]. apply bool_decide_eq_true_2. set_solver. }
    destruct (empty_scope s) eqn:Ee.
    { unfold empty_scope in Ee. destruct (org_id s), (project_id s), (chatroom_id s); try done. eauto. }
    cbn zeta. destruct (chatroom_id s), (decide_roles _ _ _ _); try done; [naive_solver|eauto].
  - destruct (bool_decide _); [eauto|]. destruct (is_admin p); [eauto|]. destruct (_ && _); [eauto|].
    destruct (empty_scope s); [eauto|]. cbn zeta. destruct roles; [eauto|]. by apply decide_roles_ok.
Qed.

(** * Witnesses and examples *)

(** User 1 owns organisation 10, whose project is 20; user 2 owns project 21. *)
Definition small_tenancy : TenancyDB := mkTenancy
  {[(10, 1)%positive := mkOrgMember ORG_ROLE_OWNER true]}
  {[20%positive := mkProject 20 None (Some 10%positive) false;
    21%positive := mkProject 21 (Some 2%positive) None false]}
  {[(20, 3)%positive := PROJECT_ROLE_MEMBER]} ∅ ∅.

Lemma batch_roles_agree_witness :
  let p := mkProject 20 None (Some 10%positive) false in
  let roles := @roles_for (TenancyRoleResolver small_tenancy) alice (project_scope 20) in
  (20%positive ∈ moderated_project_ids small_tenancy alice [p] <-> is_moderator_roles roles = true) /\
  (20%positive ∈ project_role_project_ids small_tenancy alice [p] <-> holds_project_role roles = true) /\
  (1%positive ∈ project_role_holders small_tenancy [1; 3]%positive 20 <-> holds_project_role roles = true) /\
  (1%positive ∈ project_owner_ids small_tenancy [1; 3]%positive 20 <-> PROJECT_OWNER ∈ roles).
Proof.
  intros p. apply (batch_roles_agree small_tenancy p [p] [1; 3]%positive alice).
  - vm_compute. reflexivity.
  - apply list_elem_of_here.
  - intros q ->%list_elem_of_singleton. vm_compute. reflexivity.
  - apply list_elem_of_here.
Defined.

(** A scope that names a project and an organisation that is not its parent: the owner
    of the organisation comes out as the owner of another user's project. *)
Example mixed_scope_promotes :
  tenancy_roles_for small_tenancy alice (mkScope (Some 10%positive) (Some 21%positive) None None) =
  [ORG_OWNER; PROJECT_OWNER].
Proof. vm_compute. reflexivity. Qed.
