(* ===== verification/RoomAccess.v ===== *)
(** * Access to a chat room

    [contexts/conversation/application/access.py]: who may read, send, export and
    administer a room, from the room's flags, the caller's roles, guest rows and
    member groups; the listing forms of the same questions.  The rooms, workspaces,
    guests and bindings are tables of the conversation context; roles and groups
    come from [Tenancy]. *)

From S2P Require Import Prelude Permissions Tenancy.
Inductive AccessError := ChatroomNotFound | ForbiddenInRoom | GuestRemoved | NotRoomCreator.

#[global] Instance AccessError_eq_dec : EqDecision AccessError.
Proof. solve_decision. Defined.

(** A call that returns or raises one of the context's errors. *)
Abbreviation acc A := (sum AccessError A).
#[global] Instance acc_bind : MBind (sum AccessError) := fun A B f m =>
  match m with inl e => inl e | inr a => f a end.

Record Chatroom := mkChatroom {
  cr_id : uuid;
  cr_workspace_id : uuid;
  allow_org_members : bool;
  allow_project_members : bool;
  allow_project_owners_only : bool;
  allow_guest_links : bool;
  allow_member_groups : bool;
  created_by_user_id : option uuid;
  cr_deleted : bool;
}.

Record Workspace := mkWorkspace { ws_project_id : uuid; ws_deleted : bool }.
Record GuestSession := mkSession { gs_chatroom_id : uuid; gs_revoked : bool }.

Record ConversationDB := mkConversation {
  c_chatrooms : gmap uuid Chatroom;
  c_workspaces : gmap uuid Workspace;
  c_chatroom_guests : gset (uuid * uuid);         (** room, user *)
  c_chatroom_member_groups : gset (uuid * uuid);  (** room, group *)
  c_guest_sessions : gmap uuid GuestSession;
}.

Record RoomAccess := mkAccess {
  ra_chatroom : Chatroom;
  ra_project_id : uuid;
  ra_roles : list Role;
  ra_is_guest : bool;
  ra_in_bound_group : bool;
}.

Definition is_moderator (a : RoomAccess) : bool := is_moderator_roles (ra_roles a).

(** [RoomAccess.can_read] *)
Definition can_read (a : RoomAccess) : bool :=
  bool_decide (ra_roles a <> []) || ra_is_guest a || ra_in_bound_group a.

Inductive ExportSenderScope := ALL | OWN_PLUS_NON_USER.

(** ** The gates on a resolved access *)

(** [_satisfies_room_flags] *)
Definition satisfies_room_flags (a : RoomAccess) : bool :=
  let room := ra_chatroom a in
  if is_moderator a then true
  else if allow_project_owners_only room then false
  else if allow_project_members room &&
          (bool_decide (PROJECT_MEMBER ∈ ra_roles a) || bool_decide (PROJECT_OWNER ∈ ra_roles a)) then true
  else if allow_member_groups room && ra_in_bound_group a then true
  else if allow_org_members room &&
          (bool_decide (ORG_MEMBER ∈ ra_roles a) || bool_decide (ORG_OWNER ∈ ra_roles a)) then true
  else allow_guest_links room && ra_is_guest a.

Definition reads_without_guest_row (a : RoomAccess) (admin : bool) : bool :=
  admin || satisfies_room_flags (mkAccess (ra_chatroom a) (ra_project_id a) (ra_roles a) false (ra_in_bound_group a)).

Definition ensure_can_read (a : RoomAccess) (admin : bool) : acc unit :=
  if admin then inr tt else if satisfies_room_flags a then inr tt else inl ForbiddenInRoom.

Definition ensure_can_send (a : RoomAccess) (admin : bool) : acc unit :=
  if admin then inr tt else if satisfies_room_flags a then inr tt else inl ForbiddenInRoom.

(** [any(outcome_for(c, role) is o for role in roles)] *)
Definition has_outcome (c : Capability) (o : Outcome) (roles : list Role) : bool :=
  existsb (fun r => bool_decide (outcome_for c r = Some o)) roles.

Definition export_sender_scope (a : RoomAccess) (p : Principal) : acc ExportSenderScope :=
  if is_admin p then inr ALL
  else if has_outcome CHAT_EXPORT ALLOW (ra_roles a) then inr ALL
  else if has_outcome CHAT_EXPORT OWN_ONLY (ra_roles a) then inr OWN_PLUS_NON_USER
  else inl ForbiddenInRoom.

Definition export_own_user_id (s : ExportSenderScope) (u : uuid) : option uuid :=
  match s with OWN_PLUS_NON_USER => Some u | ALL => None end.

Definition ensure_can_manage_guest_link (a : RoomAccess) (p : Principal) : acc unit :=
  if is_admin p then inr tt
  else if has_outcome GUEST_LINK_MANAGE ALLOW (ra_roles a) then inr tt else inl ForbiddenInRoom.

Definition is_room_creator (a : RoomAccess) (p : Principal) : bool :=
  if is_admin p then true
  else if ra_is_guest a && bool_decide (ra_roles a = []) then false
  else match created_by_user_id (ra_chatroom a) with
       | Some c => bool_decide (ra_roles a <> []) && bool_decide (user_id p = c)
       | None => is_moderator a
       end.
Definition ensure_room_creator (a : RoomAccess) (p : Principal) : acc unit :=
  if is_room_creator a p then inr tt else inl NotRoomCreator.

Definition can_manage_normal_binding_settings (a : RoomAccess) (p : Principal) (observer_binding : bool) : bool :=
  if is_room_creator a p then true
  else if observer_binding then false
  else has_outcome RESOURCE_CREATE_EDIT ALLOW (ra_roles a).

(** ** Resolution *)
Section resolve.
Context (tdb : TenancyDB) (cdb : ConversationDB).

Definition chatroom_get (id : uuid) : option Chatroom :=
  match c_chatrooms cdb !! id with Some r => if cr_deleted r then None else Some r | None => None end.
Definition workspace_get (id : uuid) : option Workspace :=
  match c_workspaces cdb !! id with Some w => if ws_deleted w then None else Some w | None => None end.
Definition is_guest_of (room user : uuid) : bool := bool_decide ((room, user) ∈ c_chatroom_guests cdb).
(** The groups bound to a room. *)
Definition list_for_room (room : uuid) : gset uuid :=
  set_map snd (filter (fun rg => rg.1 = room) (c_chatroom_member_groups cdb)).

Definition ensure_parents_live (room : Chatroom) : acc uuid :=
  match w ← workspace_get (cr_workspace_id room); project_get tdb (ws_project_id w) false with
  | Some p => inr (pr_id p)
  | None => inl ChatroomNotFound
  end.

Definition get_room (id : uuid) : acc Chatroom :=
  match chatroom_get id with Some r => inr r | None => inl ChatroomNotFound end.

Definition ensure_room_live (id : uuid) : acc Chatroom :=
  room ← get_room id; _ ← ensure_parents_live room; inr room.

Definition ensure_guest_session_live (session room : uuid) : acc unit :=
  match c_guest_sessions cdb !! session with
  | Some s => if negb (bool_decide (gs_chatroom_id s = room)) || gs_revoked s then inl GuestRemoved else inr tt
  | None => inl GuestRemoved
  end.

Definition in_bound_group (p : Principal) (room : Chatroom) : bool :=
  if negb (allow_member_groups room) then false else
  let bound := list_for_room (cr_id room) in
  if bool_decide (bound = ∅) then false
  else bool_decide (bound ∩ group_ids_for_user tdb (user_id p) <> ∅).

(** [_resolve_guest_access] *)
Definition resolve_guest_access (p : Principal) (id : uuid) : acc RoomAccess :=
  if negb (field_is (p_chatroom_id p) id) then inl ForbiddenInRoom else
  room ← get_room id;
  pid ← ensure_parents_live room;
  _ ← ensure_guest_session_live (user_id p) id;
  inr (mkAccess room pid [] true false).

Definition resolve_room_access (p : Principal) (id : uuid) : acc RoomAccess :=
  if is_guest p then resolve_guest_access p id else
  room ← get_room id;
  pid ← ensure_parents_live room;
  inr (mkAccess room pid (tenancy_roles_for tdb p (mkScope None (Some pid) (Some id) None))
         (is_guest_of id (user_id p)) (in_bound_group p room)).

(** ** Listings *)
Definition visible_room_ids (p : Principal) (rooms : list (uuid * Chatroom)) : gset uuid :=
  if is_admin p then list_to_set (map (fun pr => cr_id pr.2) rooms) else
  let grouped := map (fun pr => cr_id pr.2) (List.filter (fun pr => allow_member_groups pr.2) rooms) in
  (** [bound_group_ids]: the groups of the rooms asked about *)
  let bindings room := if bool_decide (room ∈ grouped) then list_for_room room else ∅ in
  let none_bound := forallb (fun room => bool_decide (list_for_room room = ∅)) grouped in
  let my_groups := if none_bound then ∅ else group_ids_for_user tdb (user_id p) in
  list_to_set (omap (fun pr =>
    let room := pr.2 in
    let a := mkAccess room pr.1 (tenancy_roles_for tdb p (project_scope pr.1))
               (is_guest_of (cr_id room) (user_id p))
               (bool_decide (bindings (cr_id room) ∩ my_groups <> ∅)) in
    if satisfies_room_flags a then Some (cr_id room) else None) rooms).

(** [_room_readable] *)
Definition room_readable (p : Principal) (id : uuid) : acc bool :=
  if is_guest p && negb (field_is (p_chatroom_id p) id) then inr false else
  match resolve_room_access p id with
  | inr a => inr (satisfies_room_flags a)
  | inl ChatroomNotFound | inl GuestRemoved => inr false
  | inl e => inl e
  end.

Section records.
Context `{RoleResolver} (p : Principal) (pid : uuid).

Definition is_project_backstage_reader : bool :=
  is_moderator_roles (roles_for p (mkScope None (Some pid) None None)).

Definition can_read_orchestration_record (room : option uuid) : acc bool :=
  if is_admin p then inr true
  else match room with
       | None => inr is_project_backstage_reader
       | Some id => room_readable p id
       end.

(** [filter_readable_by_room]: the two lookups are memoised. *)
Context {Row : Type} (chatroom_id_of : Row -> option uuid).
Fixpoint filter_rows (backstage : option bool) (by_room : gmap uuid bool) (rows : list Row)
    : acc (list Row) :=
  match rows with
  | [] => inr []
  | row :: rows =>
      match chatroom_id_of row with
      | None =>
          let b := match backstage with Some b => b | None => is_project_backstage_reader end in
          out ← filter_rows (Some b) by_room rows;
          inr (if b then row :: out else out)
      | Some id =>
          b ← match by_room !! id with Some b => inr b | None => room_readable p id end;
          out ← filter_rows backstage (<[id := b]> by_room) rows;
          inr (if (b : bool) then row :: out else out)
      end
  end.
Definition filter_readable_by_room (rows : list Row) : acc (list Row) :=
  if is_admin p then inr rows else filter_rows None ∅ rows.
End records.
End resolve.

(** * Specification *)
Lemma if_orb (b c : bool) : (if b then true else c) = b || c.
Proof. done. Qed.

Section spec.
Context (tdb : TenancyDB) (cdb : ConversationDB).

(** Rows are found under their own identifier. *)
Definition keyed : Prop :=
  (forall k p, t_projects tdb !! k = Some p -> pr_id p = k) /\
  (forall k r, c_chatrooms cdb !! k = Some r -> cr_id r = k).

(** A room that is not deleted, in a workspace and a project that are not. *)
Definition live_room (id : uuid) (room : Chatroom) (pr : Project) : Prop :=
  c_chatrooms cdb !! id = Some room /\ cr_deleted room = false /\
  exists w, c_workspaces cdb !! cr_workspace_id room = Some w /\ ws_deleted w = false /\
            t_projects tdb !! ws_project_id w = Some pr /\ pr_deleted pr = false.

(** A member of a live group bound to the room, still a member of the group's project. *)
Definition group_member (u room : uuid) : Prop :=
  exists g G, (room, g) ∈ c_chatroom_member_groups cdb /\ (g, u) ∈ t_member_group_members tdb /\
    t_member_groups tdb !! g = Some G /\ mg_deleted G = false /\ any_row tdb u (mg_project_id G).

(** Why a registered user may read a room of project [pr]. *)
Definition standing (u : uuid) (room : Chatroom) (pr : Project) : Prop :=
  owner_row tdb u (pr_id pr) \/ owns_project tdb u pr \/
  (allow_project_owners_only room = false /\
   ((allow_project_members room = true /\ any_row tdb u (pr_id pr)) \/
    (allow_member_groups room = true /\ group_member u (cr_id room)) \/
    (allow_org_members room = true /\
     exists o, owner_org_id pr = Some o /\ is_Some (t_org_members tdb !! (o, u))) \/
    (allow_guest_links room = true /\ (cr_id room, u) ∈ c_chatroom_guests cdb))).

(** Why an anonymous guest may: the session of the room's link. *)
Definition guest_standing (p : Principal) (room : Chatroom) : Prop :=
  p_chatroom_id p = Some (cr_id room) /\
  c_guest_sessions cdb !! user_id p = Some (mkSession (cr_id room) false) /\
  (is_admin p = true \/ (allow_project_owners_only room = false /\ allow_guest_links room = true)).

(** A call that gets past the read gate. *)
Definition reads (p : Principal) (id : uuid) : Prop :=
  exists a, resolve_room_access tdb cdb p id = inr a /\ ensure_can_read a (is_admin p) = inr tt.

(** ** Facts *)

Lemma elem_of_list_for_room room g : g ∈ list_for_room cdb room <-> (room, g) ∈ c_chatroom_member_groups cdb.
Proof.
  unfold list_for_room. rewrite elem_of_map. setoid_rewrite elem_of_filter. split.
  - intros ([r g'] & -> & Hr & ?). simpl in Hr. by subst.
  - intros ?. by exists (room, g).
Qed.

Lemma elem_of_group_ids u g : g ∈ group_ids_for_user tdb u <->
  exists G, (g, u) ∈ t_member_group_members tdb /\ t_member_groups tdb !! g = Some G /\
            mg_deleted G = false /\ any_row tdb u (mg_project_id G).
Proof.
  unfold group_ids_for_user, any_row. rewrite elem_of_list_to_set, list_elem_of_omap.
  setoid_rewrite elem_of_elements. split.
  - intros ([g' u'] & Hin & Hg). simpl in Hg. destruct (t_member_groups tdb !! g') as [G|] eqn:EG; [|done].
    case_match eqn:E; [|done]. injection Hg as <-. bools. rewrite negb_true_iff in E.
    destruct E as [[-> ?] ?]. by exists G.
  - intros (G & Hin & HG & Hd & Hrow). exists (g, u). split; [done|]. simpl. rewrite HG, Hd.
    by rewrite !bool_decide_eq_true_2.
Qed.

Lemma in_bound_group_iff p room : allow_member_groups room = true ->
  in_bound_group tdb cdb p room = true <-> group_member (user_id p) (cr_id room).
Proof.
  intros Hflag. unfold in_bound_group, group_member. rewrite Hflag. cbn [negb].
  assert (Hx : list_for_room cdb (cr_id room) ∩ group_ids_for_user tdb (user_id p) <> ∅ <->
    group_member (user_id p) (cr_id room)).
  { unfold group_member. split.
    - intros (g & [Hb Hm]%elem_of_intersection)%set_choose_L. apply elem_of_list_for_room in Hb.
      apply elem_of_group_ids in Hm as (G & ? & ? & ? & ?). by exists g, G.
    - intros (g & G & Hb & Hm & HG & Hd & Hrow) Hempty.
      assert (Hin : g ∈ (list_for_room cdb (cr_id room) ∩ group_ids_for_user tdb (user_id p) : gset uuid)).
      { apply elem_of_intersection. rewrite elem_of_list_for_room, elem_of_group_ids. eauto 6. }
      rewrite Hempty in Hin. by apply not_elem_of_empty in Hin. }
  case_bool_decide as E; [|by rewrite bool_decide_eq_true].
  split; [done|]. intros Hg. apply Hx in Hg. rewrite E in Hg. exfalso. apply Hg. apply intersection_empty_l_L.
Qed.

Lemma ensure_parents_live_iff room pid : keyed ->
  c_chatrooms cdb !! cr_id room = Some room -> cr_deleted room = false ->
  ensure_parents_live tdb cdb room = inr pid <-> exists pr, live_room (cr_id room) room pr /\ pr_id pr = pid.
Proof.
  intros [Hkey _] Hroom Hdel. unfold ensure_parents_live, live_room, workspace_get, project_get.
  destruct (c_workspaces cdb !! cr_workspace_id room) as [w|] eqn:Ew; simpl.
  2:{ split; [done|]. by intros (pr & (_ & _ & w & ? & _) & _). }
  destruct (ws_deleted w) eqn:Ewd; simpl.
  { split; [done|]. intros (pr & (_ & _ & w' & [= <-] & ? & _) & _). congruence. }
  destruct (t_projects tdb !! ws_project_id w) as [pr|] eqn:Ep; simpl.
  2:{ split; [done|]. intros (pr & (_ & _ & w' & [= <-] & _ & ? & _) & _). congruence. }
  rewrite andb_true_r. destruct (pr_deleted pr) eqn:Epd; split; try done.
  - intros (pr' & (_ & _ & w' & [= <-] & _ & ? & ?) & _). congruence.
  - intros [= <-]. exists pr. split; [|done]. split; [done|]. split; [done|]. by exists w.
  - intros (pr' & (_ & _ & w' & [= <-] & _ & ? & ?) & <-). congruence.
Qed.

Lemma live_room_project id room pr : live_room id room pr -> keyed -> t_projects tdb !! pr_id pr = Some pr.
Proof. intros (_ & _ & w & _ & _ & Hp & _) [Hkey _]. by rewrite (Hkey _ _ Hp). Qed.

Lemma live_room_fun id room pr room' pr' :
  live_room id room pr -> live_room id room' pr' -> room' = room /\ pr' = pr.
Proof. intros (? & _ & w & ? & _ & ? & _) (? & _ & w' & ? & _ & ? & _). naive_solver congruence. Qed.

Lemma org_role_iff p pr : t_projects tdb !! pr_id pr = Some pr ->
  let roles := tenancy_roles_for tdb p (project_scope (pr_id pr)) in
  ORG_MEMBER ∈ roles \/ ORG_OWNER ∈ roles <->
  exists o, owner_org_id pr = Some o /\ is_Some (t_org_members tdb !! (o, user_id p)).
Proof.
  intros Hp roles. unfold roles. rewrite !elem_of_roles, !(org_roles_spec _ _ _ pr), !(project_roles_spec _ _ _ pr) by done.
  split.
  - intros [[(o & m & ? & ? & _)|[[? _]|[? _]]]|[(o & m & ? & ? & _)|[[? _]|[? _]]]]; try done; exists o; eauto.
  - intros (o & Ho & m & Hm). destruct (om_role m) eqn:Er; [right|left]; left; exists o, m; rewrite Er; auto.
Qed.

Lemma project_role_tier p pr : t_projects tdb !! pr_id pr = Some pr ->
  let roles := tenancy_roles_for tdb p (project_scope (pr_id pr)) in
  PROJECT_MEMBER ∈ roles \/ PROJECT_OWNER ∈ roles <->
  any_row tdb (user_id p) (pr_id pr) \/ owns_project tdb (user_id p) pr.
Proof.
  intros Hp roles. rewrite <- (project_role_iff tdb p (pr_id pr) pr) by done. fold roles.
  unfold holds_project_role. rewrite existsb_exists. setoid_rewrite <- list_elem_of_In.
  setoid_rewrite bool_decide_eq_true. unfold PROJECT_ROLES. split.
  - intros [?|?]; eexists; (split; [done|]); rewrite !elem_of_cons; auto.
  - intros (r & Hr & Hin). rewrite !elem_of_cons in Hin. destruct Hin as [->|[->|[]%not_elem_of_nil]]; auto.
Qed.

Lemma flags_standing p room pr inb :
  t_projects tdb !! pr_id pr = Some pr ->
  (allow_member_groups room = true -> inb = true <-> group_member (user_id p) (cr_id room)) ->
  satisfies_room_flags (mkAccess room (pr_id pr) (tenancy_roles_for tdb p (project_scope (pr_id pr)))
    (is_guest_of cdb (cr_id room) (user_id p)) inb) = true <-> standing (user_id p) room pr.
Proof.
  intros Hp Hinb. unfold satisfies_room_flags, is_moderator, is_guest_of, standing. simpl.
  pose proof (moderator_iff tdb p (pr_id pr) pr Hp) as Hmod.
  pose proof (project_role_tier p pr Hp) as Hproj. pose proof (org_role_iff p pr Hp) as Horg.
  destruct (is_moderator_roles _); [tauto|].
  assert (Hno : ~ (owner_row tdb (user_id p) (pr_id pr) \/ owns_project tdb (user_id p) pr)).
  { intros Hx. by apply Hmod in Hx. }
  destruct (allow_project_owners_only room); [split; [done|intros [?|[?|[? _]]]; tauto || done]|].
  set (roles := tenancy_roles_for _ _ _) in *.
  rewrite !if_orb. bools. rewrite Hproj, Horg.
  assert (Hg : allow_member_groups room = true /\ inb = true <->
    allow_member_groups room = true /\ group_member (user_id p) (cr_id room)) by tauto.
  tauto.
Qed.

Lemma ensure_can_read_ok a admin : ensure_can_read a admin = inr tt <-> admin = true \/ satisfies_room_flags a = true.
Proof. unfold ensure_can_read. destruct admin, (satisfies_room_flags a); naive_solver. Qed.

Lemma bind_inr {A B} (m : acc A) (f : A -> acc B) b :
  (m ≫= f) = inr b <-> exists a, m = inr a /\ f a = inr b.
Proof. destruct m; simpl; naive_solver. Qed.

Lemma get_room_live id room : keyed -> get_room cdb id = inr room <->
  c_chatrooms cdb !! id = Some room /\ cr_deleted room = false /\ cr_id room = id.
Proof.
  intros [_ Hkey]. unfold get_room, chatroom_get. destruct (c_chatrooms cdb !! id) as [r|] eqn:E; [|naive_solver].
  pose proof (Hkey _ _ E). destruct (cr_deleted r) eqn:Ed; split; try done.
  - intros ([= <-] & ? & _). congruence.
  - by intros [= <-].
  - by intros ([= <-] & _).
Qed.

(** What a registered caller's room resolves to. *)
Lemma resolve_member p id a : keyed -> is_guest p = false ->
  resolve_room_access tdb cdb p id = inr a <->
  exists room pr, live_room id room pr /\ cr_id room = id /\
    a = mkAccess room (pr_id pr) (tenancy_roles_for tdb p (project_scope (pr_id pr)))
          (is_guest_of cdb id (user_id p)) (in_bound_group tdb cdb p room).
Proof.
  intros Hkey Hg. unfold resolve_room_access. rewrite Hg, bind_inr. setoid_rewrite bind_inr. split.
  - intros (room & Hroom & pid & Hpid & Ha). apply get_room_live in Hroom as (H1 & H2 & <-); [|done].
    apply ensure_parents_live_iff in Hpid as (pr & Hlive & <-); [|done..]. injection Ha as <-.
    by exists room, pr.
  - intros (room & pr & Hlive & <- & ->). pose proof Hlive as (H1 & H2 & _).
    exists room. split; [by apply get_room_live|]. exists (pr_id pr). split; [|done].
    apply ensure_parents_live_iff; [done..|]. by exists pr.
Qed.

Lemma reads_member p id : keyed -> is_guest p = false ->
  reads p id <-> exists room pr, live_room id room pr /\ cr_id room = id /\
    (is_admin p = true \/ standing (user_id p) room pr).
Proof.
  intros Hkey Hg. unfold reads. setoid_rewrite resolve_member; [|done..]. setoid_rewrite ensure_can_read_ok.
  assert (Hf : forall room pr, live_room id room pr -> cr_id room = id ->
    satisfies_room_flags (mkAccess room (pr_id pr) (tenancy_roles_for tdb p (project_scope (pr_id pr)))
      (is_guest_of cdb id (user_id p)) (in_bound_group tdb cdb p room)) = true <-> standing (user_id p) room pr).
  { intros room pr Hlive <-. apply flags_standing; [by eapply live_room_project|]. apply in_bound_group_iff. }
  split.
  - intros (a & (room & pr & Hlive & Hid & ->) & Hok). exists room, pr. rewrite <- Hf; auto.
  - intros (room & pr & Hlive & Hid & Hok). eexists. split; [by exists room, pr|]. rewrite Hf; auto.
Qed.

Lemma reads_guest p id : keyed -> is_guest p = true ->
  reads p id <-> exists room pr, live_room id room pr /\ cr_id room = id /\ guest_standing p room.
Proof.
  intros Hkey Hg. unfold reads, resolve_room_access, resolve_guest_access, field_is, guest_standing. rewrite Hg.
  case_bool_decide as Et; cbn [negb].
  2:{ split; [by intros (? & ? & _)|]. intros (room & pr & _ & <- & ? & _). done. }
  setoid_rewrite bind_inr. setoid_rewrite bind_inr. setoid_rewrite bind_inr. setoid_rewrite ensure_can_read_ok.
  unfold ensure_guest_session_live. split.
  - intros (a & (room & Hroom & pid & Hpid & [] & Hs & [= <-]) & Hok).
    apply get_room_live in Hroom as (H1 & H2 & <-); [|done].
    apply ensure_parents_live_iff in Hpid as (pr & Hlive & <-); [|done..]. exists room, pr.
    split; [done|]. split; [done|]. split; [done|].
    destruct (c_guest_sessions cdb !! user_id p) as [[gr rv]|]; [|done]. simpl in Hs.
    case_bool_decide as Er; [|done]. destruct rv; [done|]. subst gr. split; [done|].
    destruct Hok as [?|Hok]; [by left|right]. unfold satisfies_room_flags in Hok. simpl in Hok.
    destruct (allow_project_owners_only room); [done|]. rewrite !andb_false_r in Hok. simpl in Hok.
    by rewrite andb_true_r in Hok.
  - intros (room & pr & Hlive & <- & _ & Hs & Hok). pose proof Hlive as (H1 & H2 & _).
    eexists. split.
    + exists room. split; [by apply get_room_live|]. exists (pr_id pr).
      split; [apply ensure_parents_live_iff; [done..|]; by exists pr|]. exists tt. split; [|done].
      rewrite Hs. simpl. by rewrite bool_decide_eq_true_2.
    + destruct Hok as [?|[Ho Hl]]; [by left|right]. unfold satisfies_room_flags. simpl. rewrite Ho, Hl.
      by rewrite !andb_false_r.
Qed.
End spec.

(** A room the caller resolves either way gives a verdict, never an error. *)
Lemma room_readable_ok tdb cdb p id : exists b, room_readable tdb cdb p id = inr b.
Proof.
  unfold room_readable, resolve_room_access, resolve_guest_access, get_room, ensure_parents_live,
    ensure_guest_session_live, field_is.
  destruct (is_guest p); simpl; [destruct (bool_decide _); simpl; [|eauto]|];
    (destruct (chatroom_get cdb id) as [room|]; simpl; [|eauto]);
    (destruct (workspace_get cdb _ ≫= _) as [pr|]; simpl; [|eauto]); [|eauto].
  destruct (c_guest_sessions cdb !! _) as [[? []]|]; simpl; [..|eauto]; destruct (bool_decide _); simpl; eauto.
Qed.

(** * Properties *)

(** C37. The read gate in terms of the tables.  A room is readable only when it, its
    workspace and its project are not deleted, and then by an administrator; by an
    owner of the project, of its parent organisation, or named owner; and unless the
    room is for owners only, by a project member, a member of a bound live group who
    is still a member of the group's project, a member of the parent organisation, or
    a user with a guest row, each when the room admits that tier.  An anonymous guest
    reads the room of the session, while the session stands and the room admits
    guests. *)
Theorem room_read_spec tdb cdb p id (Hkeyed : keyed tdb cdb) :
  reads tdb cdb p id <->
  exists room pr, live_room tdb cdb id room pr /\ cr_id room = id /\
    if is_guest p then guest_standing cdb p room
    else is_admin p = true \/ standing tdb cdb (user_id p) room pr.
Proof. destruct (is_guest p) eqn:E; [by apply reads_guest|by apply reads_member]. Qed.

(** A listing shows a room exactly when opening it passes the read gate: for a
    registered caller and rooms listed with their live project, the batch computation
    and the gate agree. *)
Theorem visible_iff_readable tdb cdb p rooms pid room
    (Hkeyed : keyed tdb cdb) (Hregistered : is_guest p = false)
    (Hlive : forall pid room, (pid, room) ∈ rooms ->
       exists pr, live_room tdb cdb (cr_id room) room pr /\ pr_id pr = pid)
    (Hin : (pid, room) ∈ rooms) :
  cr_id room ∈ visible_room_ids tdb cdb p rooms <-> reads tdb cdb p (cr_id room).
Proof.
  rewrite reads_member by done.
  assert (Hone : forall pid' room', (pid', room') ∈ rooms -> cr_id room' = cr_id room -> pid' = pid /\ room' = room).
  { intros pid' room' Hin' E. apply Hlive in Hin' as (pr' & Hl' & <-). apply Hlive in Hin as (pr & Hl & <-).
    rewrite E in Hl'. by destruct (live_room_fun _ _ _ _ _ _ _ Hl Hl') as [-> ->]. }
  destruct (Hlive _ _ Hin) as (pr & Hl & <-).
  trans (is_admin p = true \/ standing tdb cdb (user_id p) room pr).
  2:{ split; [intros ?; by exists room, pr|]. intros (room' & pr' & Hl' & _ & ?).
      by destruct (live_room_fun _ _ _ _ _ _ _ Hl Hl') as [-> ->]. }
  unfold visible_room_ids. destruct (is_admin p).
  { split; [by left|]. intros _. apply elem_of_list_to_set, list_elem_of_fmap. by exists (pr_id pr, room). }
  rewrite elem_of_list_to_set, list_elem_of_omap.
  set (grouped := map _ _). set (my := if forallb _ grouped then _ else _).
  assert (Hgroups : allow_member_groups room = true ->
    bool_decide ((if bool_decide (cr_id room ∈ grouped) then list_for_room cdb (cr_id room) else ∅) ∩ my <> ∅) = true
    <-> group_member tdb cdb (user_id p) (cr_id room)).
  { intros Hflag. rewrite <- in_bound_group_iff by done. unfold in_bound_group. rewrite Hflag. cbn [negb].
    assert (Hgr : cr_id room ∈ grouped).
    { unfold grouped. apply list_elem_of_fmap. exists (pr_id pr, room). split; [done|].
      by apply list_elem_of_In, filter_In; rewrite <- list_elem_of_In. }
    rewrite (bool_decide_eq_true_2 _ Hgr).
    destruct (bool_decide_reflect (list_for_room cdb (cr_id room) = ∅)) as [->|Hne].
    { rewrite bool_decide_eq_true, intersection_empty_l_L. done. }
    unfold my. destruct (forallb _ grouped) eqn:Ef; [|done].
    rewrite forallb_forall in Ef. apply list_elem_of_In, Ef, bool_decide_eq_true in Hgr. done. }
  rewrite <- (flags_standing tdb cdb p room pr _ (live_room_project _ _ _ _ _ Hl Hkeyed) Hgroups).
  split.
  - intros ([pid' room'] & Hin' & Hx). simpl in Hx. case_match eqn:Ex; [|done]. injection Hx as Hid.
    destruct (Hone _ _ Hin' Hid) as [-> ->]. right. exact Ex.
  - intros [[=]|Hx]. exists (pr_id pr, room). split; [done|]. cbn [fst snd]. by rewrite Hx.
Qed.

(** The listing of orchestration records keeps exactly the rows whose own verdict
    is positive, in order: remembering the verdict per room and the backstage verdict
    changes nothing, and no row makes the listing fail. *)
Theorem filter_readable_exact `{RoleResolver} tdb cdb p pid {Row} (chatroom_id_of : Row -> option uuid) rows :
  exists verdict,
    (forall room, can_read_orchestration_record tdb cdb p pid room = inr (verdict room)) /\
    filter_readable_by_room tdb cdb p pid chatroom_id_of rows =
      inr (List.filter (fun row => verdict (chatroom_id_of row)) rows).
Proof.
  set (get := fun m : acc bool => match m with inr b => b | inl _ => false end).
  exists (fun room => get (can_read_orchestration_record tdb cdb p pid room)). split.
  { intros room. unfold can_read_orchestration_record. destruct (is_admin p); [done|].
    destruct room as [id|]; [|done]. by destruct (room_readable_ok tdb cdb p id) as [b ->]. }
  unfold filter_readable_by_room, can_read_orchestration_record. destruct (is_admin p).
  { f_equal. induction rows as [|row rows IH]; simpl; [done|]. f_equal. exact IH. }
  assert (Hgo : forall rows bs mem,
    (bs = None \/ bs = Some (is_project_backstage_reader p pid)) ->
    (forall id b, mem !! id = Some b -> room_readable tdb cdb p id = inr b) ->
    filter_rows tdb cdb p pid chatroom_id_of bs mem rows =
    inr (List.filter (fun row => get match chatroom_id_of row with
           | Some id => room_readable tdb cdb p id
           | None => inr (is_project_backstage_reader p pid) end) rows)).
  { clear rows. induction rows as [|row rows IH]; intros bs mem Hbs Hmem; simpl; [done|].
    destruct (chatroom_id_of row) as [id|].
    - destruct (room_readable_ok tdb cdb p id) as [b Hb].
      replace (match mem !! id with Some b => inr b | None => room_readable tdb cdb p id end) with (inr b : acc bool).
      2:{ destruct (mem !! id) as [b'|] eqn:Em; [apply Hmem in Em; congruence|done]. }
      simpl. rewrite IH, Hb; [|done|].
      + simpl. by destruct b.
      + intros id' b'. destruct (decide (id' = id)) as [->|Hne]; [rewrite lookup_insert_eq; congruence|].
        rewrite lookup_insert_ne by done. apply Hmem.
    - replace (match bs with Some b => b | None => is_project_backstage_reader p pid end)
        with (is_project_backstage_reader p pid) by (by destruct Hbs as [-> | ->]).
      rewrite IH; [|by right|done]. simpl. by destruct (is_project_backstage_reader p pid). }
  apply Hgo; [by left|done].
Qed.

(** The rows of the matrix a room reads cell by cell name the same people as the
    moderator predicate: of the callers who are not administrators, a full export and
    the guest link are for the room's moderators, the settings of a normal binding for
    its moderators and its creator; a member exports a narrowed scope; a caller with
    no role exports nothing and creates nothing. *)
Theorem room_gates_agree a p (Hadmin : is_admin p = false) (Hroles : forall r, r ∈ ra_roles a -> r <> ADMIN /\ r <> GUEST) :
  (export_sender_scope a p = inr ALL <-> is_moderator a = true) /\
  (export_sender_scope a p = inr OWN_PLUS_NON_USER <-> is_moderator a = false /\ ra_roles a <> []) /\
  (export_sender_scope a p = inl ForbiddenInRoom <-> ra_roles a = []) /\
  (ensure_can_manage_guest_link a p = inr tt <-> is_moderator a = true) /\
  (can_manage_normal_binding_settings a p false = true <-> is_room_creator a p = true \/ is_moderator a = true) /\
  (ra_roles a = [] -> is_room_creator a p = false).
Proof.
  assert (Hm : forall c, (forall r, outcome_for c r = Some ALLOW <-> r = PROJECT_OWNER \/ r = ORG_OWNER) ->
    has_outcome c ALLOW (ra_roles a) = is_moderator a).
  { intros c Hc. apply eq_true_iff_eq. unfold has_outcome, is_moderator, is_moderator_roles.
    rewrite existsb_exists. bools. setoid_rewrite bool_decide_eq_true. setoid_rewrite Hc.
    setoid_rewrite <- list_elem_of_In. naive_solver. }
  unfold export_sender_scope, ensure_can_manage_guest_link, can_manage_normal_binding_settings. rewrite Hadmin.
  rewrite !Hm by (intros []; simpl; naive_solver).
  assert (Hown : is_moderator a = false -> has_outcome CHAT_EXPORT OWN_ONLY (ra_roles a) = true <-> ra_roles a <> []).
  { intros Hno. unfold has_outcome. rewrite existsb_exists. setoid_rewrite bool_decide_eq_true.
    setoid_rewrite <- list_elem_of_In. split; [intros (r & Hr & _) E; rewrite E in Hr; by apply not_elem_of_nil in Hr|].
    intros Hne. destruct (ra_roles a) as [|r rs] eqn:Er; [done|]. exists r. split; [apply list_elem_of_here|].
    unfold is_moderator, is_moderator_roles in Hno. rewrite Er in Hno. apply orb_false_iff in Hno as [H1 H2].
    apply bool_decide_eq_false in H1, H2. destruct (Hroles r) as [? ?]; [apply list_elem_of_here|].
    destruct r; try done; exfalso; [apply H2|apply H1]; apply list_elem_of_here. }
  assert (Hnil : ra_roles a = [] -> is_moderator a = false).
  { intros E. unfold is_moderator. by rewrite E. }
  assert (Hcr : ra_roles a = [] -> is_room_creator a p = false).
  { intros E. unfold is_room_creator. rewrite Hadmin, E. destruct (ra_is_guest a); [done|]. simpl.
    destruct (created_by_user_id _); [done|]. by apply Hnil. }
  clear Hm Hroles. destruct (is_moderator a) eqn:Em.
  - assert (Hne : ra_roles a <> []) by (intros E; by apply Hnil in E).
    destruct (is_room_creator a p); intuition (try done).
  - specialize (Hown eq_refl). clear Hnil.
    destruct (has_outcome CHAT_EXPORT OWN_ONLY _), (is_room_creator a p), (ra_roles a); intuition (try done).
Qed.

(** * Witnesses *)

(** One room of project 20, open to project members only; user 3 is a member. *)
Definition members_room : Chatroom := mkChatroom 30 40 false true false false false None false.
Definition small_conversation : ConversationDB := mkConversation
  {[30%positive := members_room]} {[40%positive := mkWorkspace 20 false]} ∅ ∅ ∅.
Definition carol : Principal := mkPrincipal 3 false true false None.

Lemma small_keyed : keyed small_tenancy small_conversation.
Proof.
  split; intros k x Hx; simpl in Hx.
  - apply lookup_insert_Some in Hx as [[<- <-]|[_ Hx]]; [done|].
    apply lookup_singleton_Some in Hx as [<- <-]. done.
  - apply lookup_singleton_Some in Hx as [<- <-]. done.
Qed.

Lemma room_read_spec_witness :
  reads small_tenancy small_conversation carol 30 <->
  exists room pr, live_room small_tenancy small_conversation 30 room pr /\ cr_id room = 30%positive /\
    if is_guest carol then guest_standing small_conversation carol room
    else is_admin carol = true \/ standing small_tenancy small_conversation (user_id carol) room pr.
Proof. apply (room_read_spec small_tenancy small_conversation carol 30). exact small_keyed. Defined.

(** The member's call passes the gate. *)
Example carol_reads : exists a,
  resolve_room_access small_tenancy small_conversation carol 30 = inr a /\ ensure_can_read a false = inr tt.
Proof. eexists. split; vm_compute; reflexivity. Qed.

Lemma visible_iff_readable_witness :
  30%positive ∈ visible_room_ids small_tenancy small_conversation carol [(20%positive, members_room)] <->
  reads small_tenancy small_conversation carol 30.
Proof.
  apply (visible_iff_readable small_tenancy small_conversation carol [(20%positive, members_room)] 20 members_room).
  - exact small_keyed.
  - reflexivity.
  - intros pid room Heq%list_elem_of_singleton. injection Heq as -> ->.
    exists (mkProject 20 None (Some 10%positive) false). split; [|reflexivity].
    split; [reflexivity|]. split; [reflexivity|]. exists (mkWorkspace 20 false).
    repeat split; vm_compute; reflexivity.
  - apply list_elem_of_here.
Defined.

Lemma room_gates_agree_witness :
  let a := mkAccess members_room 20 [PROJECT_MEMBER] false false in
  (export_sender_scope a carol = inr ALL <-> is_moderator a = true) /\
  (export_sender_scope a carol = inr OWN_PLUS_NON_USER <-> is_moderator a = false /\ ra_roles a <> []) /\
  (export_sender_scope a carol = inl ForbiddenInRoom <-> ra_roles a = []) /\
  (ensure_can_manage_guest_link a carol = inr tt <-> is_moderator a = true) /\
  (can_manage_normal_binding_settings a carol false = true <->
     is_room_creator a carol = true \/ is_moderator a = true) /\
  (ra_roles a = [] -> is_room_creator a carol = false).
Proof.
  intros a. apply (room_gates_agree a carol).
  - reflexivity.
  - intros r ->%list_elem_of_singleton. split; discriminate.
Defined.
