(* ===== verification/WaitProtocol.v ===== *)
(** * Claiming a parked wait

    [workflow_event_resume] and [workflow_event_timeout] of
    [app/workers/tasks/workflow_signals.py] and [_restore_claim], [_run_is_terminal] of
    [workflow_common.py].  Any number of event jobs and the timeout job compete for
    one parked wait.  A job claims the key of the wait (GETDEL) before it tries to
    resume the run, and puts the key back when the run was not waiting.

    The tasks are first modelled as functions of the engine's [World]; then the
    interleavings of many jobs over one registration of a wait, with the passing of
    time, are a step relation over the [WaitStore] part of it. *)

From S2P Require Import Prelude PyFloat PyValue SelLexer SelParser SelEval WorkflowModels RunStore Executors Join RunEngine RunEngineFacts.
(** ** The store operations *)

(** GETDEL, after a read of the remaining TTL. *)
Definition getdel (k : string * string) (ws : WaitStore) : option Z * WaitStore :=
  (ws_claims ws !! k, mkWaits (delete k (ws_claims ws)) (ws_index ws) (ws_index_ttl ws)).

(** SREM; a set that becomes empty is gone, with its TTL. *)
Definition srem (event_type : string) (k : string * string) (ws : WaitStore) : WaitStore :=
  let s := default ∅ (ws_index ws !! event_type) ∖ {[k]} in
  if bool_decide (s = ∅)
  then mkWaits (ws_claims ws) (delete event_type (ws_index ws)) (delete event_type (ws_index_ttl ws))
  else mkWaits (ws_claims ws) (<[event_type := s]> (ws_index ws)) (ws_index_ttl ws).

(** [_restore_claim] with a [reindex]: the key, the member, and the index's TTL raised
    to [min_ttl]. *)
Definition restore_claim (k : string * string) (event_type : string) (ttl min_ttl : Z) (ws : WaitStore)
    : WaitStore :=
  let current := default (-1) (ws_index_ttl ws !! event_type) in
  mkWaits (<[k := Z.max ttl min_ttl]> (ws_claims ws))
    (<[event_type := {[k]} ∪ default ∅ (ws_index ws !! event_type)]> (ws_index ws))
    (if current <? min_ttl then <[event_type := min_ttl]> (ws_index_ttl ws) else ws_index_ttl ws).

Definition restore_ttl (attempt : Z) : Z :=
  remaining_budget_ttl CLAIM_RESUME_MAX_ATTEMPTS CLAIM_RESUME_DELAY_S attempt.

(** ** The tasks *)
Inductive task_result :=
  | already_claimed | resumed_ok | noop_terminal | not_waiting_retry | not_waiting_gave_up.

(** The two tasks differ in the port the run resumes at. *)
Inductive resume_kind := Event | Timeout.
Definition resume_port (k : resume_kind) : string := match k with Event => "default" | Timeout => "timeout" end.

(** [_run_is_terminal] *)
Definition run_is_terminal (run_id : string) (w : World) : bool :=
  match w_runs w !! run_id with Some r => is_terminal (rr_state r) | None => true end.

Section task.
Context `{External}.

(** One delivery of a task, its phases in a row; [event_type] is the one of the
    claimed payload.  A retry is the result [not_waiting_retry]. *)
Definition resume_task (kind : resume_kind) (run_id node_id event_type : string) (attempt : Z)
    (w : World) (q : Queues) : option (task_result * World * Queues) :=
  let k := (run_id, node_id) in
  let '(claimed, ws) := getdel k (w_waits w) in
  match claimed with
  | None => Some (already_claimed, w, q)
  | Some ttl =>
      '(resumed, w, q) ← resume_at_port run_id node_id (resume_port kind) (set_waits ws w) q;
      if (resumed : bool) then Some (resumed_ok, set_waits (srem event_type k (w_waits w)) w, q)
      else if run_is_terminal run_id w
      then Some (noop_terminal, set_waits (srem event_type k (w_waits w)) w, q)
      else
        let w := set_waits (restore_claim k event_type ttl (restore_ttl attempt) (w_waits w)) w in
        Some (if attempt <? CLAIM_RESUME_MAX_ATTEMPTS then not_waiting_retry else not_waiting_gave_up, w, q)
  end.
End task.

(** ** Interleavings

    The jobs of one wait.  A queued job runs after a delay; a job that holds the
    claim has the TTL it read.  Times are whole seconds from now. *)
Inductive phase := Queued (delay : Z) | Holding (ttl : Z).
Record Job := mkJob { j_kind : resume_kind; j_attempt : Z; j_phase : phase }.

Record PState := mkP {
  p_waits : WaitStore;
  p_jobs : list Job;
  p_resumed : list resume_kind;  (** the resumes of the run at this wait *)
  p_ended : bool;                (** a job found the run ended *)
}.

(** Time passes: keys whose TTL runs out are gone; a TTL of -1 is none. *)
Definition age (d ttl : Z) : option Z := if ttl <=? d then None else Some (ttl - d).
Definition tick (d : Z) (ws : WaitStore) : WaitStore :=
  mkWaits (omap (age d) (ws_claims ws))
    (map_imap (fun e s => match ws_index_ttl ws !! e with
                          | Some t => if t <=? d then None else Some s
                          | None => Some s end) (ws_index ws))
    (omap (age d) (ws_index_ttl ws)).
Definition age_job (d : Z) (j : Job) : Job :=
  match j_phase j with Queued t => mkJob (j_kind j) (j_attempt j) (Queued (t - d)) | Holding _ => j end.

Section protocol.
Context (k : string * string) (event_type : string).

Inductive pstep : PState -> PState -> Prop :=
  | p_tick d ws js rs e :
      0 <= d -> pstep (mkP ws js rs e) (mkP (tick d ws) (map (age_job d) js) rs e)
  | p_signal ws js rs e :  (** a signal matched, or a job was delivered again *)
      pstep (mkP ws js rs e) (mkP ws (js ++ [mkJob Event 0 (Queued 0)]) rs e)
  | p_claim ws js js' kind a t rs e ttl ws' :
      t <= 0 -> getdel k ws = (Some ttl, ws') ->
      pstep (mkP ws (js ++ mkJob kind a (Queued t) :: js') rs e)
            (mkP ws' (js ++ mkJob kind a (Holding ttl) :: js') rs e)
  | p_lost_claim ws js js' kind a t rs e ws' :
      t <= 0 -> getdel k ws = (None, ws') ->
      pstep (mkP ws (js ++ mkJob kind a (Queued t) :: js') rs e) (mkP ws' (js ++ js') rs e)
  | p_resume ws js js' kind a ttl rs e :
      pstep (mkP ws (js ++ mkJob kind a (Holding ttl) :: js') rs e)
            (mkP (srem event_type k ws) (js ++ js') (kind :: rs) e)
  | p_terminal ws js js' kind a ttl rs e :
      pstep (mkP ws (js ++ mkJob kind a (Holding ttl) :: js') rs e)
            (mkP (srem event_type k ws) (js ++ js') rs true)
  | p_restore_retry ws js js' kind a ttl rs e :
      a < CLAIM_RESUME_MAX_ATTEMPTS ->
      pstep (mkP ws (js ++ mkJob kind a (Holding ttl) :: js') rs e)
            (mkP (restore_claim k event_type ttl (restore_ttl a) ws)
                 (js ++ mkJob kind (a + 1) (Queued CLAIM_RESUME_DELAY_S) :: js') rs e)
  | p_restore_give_up ws js js' kind a ttl rs e :
      CLAIM_RESUME_MAX_ATTEMPTS <= a ->
      pstep (mkP ws (js ++ mkJob kind a (Holding ttl) :: js') rs e)
            (mkP (restore_claim k event_type ttl (restore_ttl a) ws) (js ++ js') rs e).

(** A wait just registered, with its timeout job. *)
Definition registered (ws : WaitStore) (s : PState) : Prop :=
  exists delay ttl, ws_claims ws !! k = Some ttl /\ k ∈ default ∅ (ws_index ws !! event_type) /\
    s = mkP ws [mkJob Timeout 0 (Queued delay)] [] false.

Inductive reachable (ws : WaitStore) : PState -> Prop :=
  | reach_start s : registered ws s -> reachable ws s
  | reach_step s s' : reachable ws s -> pstep s s' -> reachable ws s'.

(** Where the one claim of the registration is. *)
Definition holding (j : Job) : bool := match j_phase j with Holding _ => true | Queued _ => false end.
Definition tokens (s : PState) : nat :=
  ((if ws_claims (p_waits s) !! k then 1 else 0) + length (List.filter holding (p_jobs s))
   + length (p_resumed s) + (if p_ended s then 1 else 0))%nat.
End protocol.

(** * Facts *)

Lemma filter_holding_age d js : length (List.filter holding (map (age_job d) js)) = length (List.filter holding js).
Proof. induction js as [|[kd a [t|t]] js IH]; simpl; [done|exact IH|]. by rewrite <- IH. Qed.

Lemma claims_srem e k ws : ws_claims (srem e k ws) = ws_claims ws.
Proof. unfold srem. by case_bool_decide. Qed.

Section facts.
Context (k : string * string) (event_type : string).
Notation pstep := (pstep k event_type).
Notation tokens := (tokens k).

(** A step never makes a second claim. *)
Lemma tokens_step s s' : pstep s s' -> (tokens s' <= tokens s)%nat.
Proof.
  intros Hstep. destruct Hstep as
    [d ws js rs e Hd|ws js rs e|ws js js' kd a t rs e ttl ws' Ht Hg|ws js js' kd a t rs e ws' Ht Hg
    |ws js js' kd a ttl rs e|ws js js' kd a ttl rs e|ws js js' kd a ttl rs e Ha|ws js js' kd a ttl rs e Ha];
    unfold WaitProtocol.tokens; simpl;
    rewrite ?filter_holding_age, ?filter_app, ?length_app; simpl;
    rewrite ?claims_srem, ?lookup_insert_eq, ?length_app; simpl.
  - rewrite lookup_omap. destruct (ws_claims ws !! k) as [t|]; simpl; [|lia]. destruct (age d t); lia.
  - lia.
  - injection Hg as Hk <-. simpl. rewrite lookup_delete_eq, Hk. lia.
  - injection Hg as Hk <-. simpl. rewrite lookup_delete_eq. lia.
  - lia.
  - destruct e; lia.
  - destruct (ws_claims ws !! k); lia.
  - destruct (ws_claims ws !! k); lia.
Qed.

Lemma tokens_reachable ws s : reachable k event_type ws s -> (tokens s <= 1)%nat.
Proof.
  induction 1 as [s (delay & ttl & Hk & _ & ->)|s s' _ IH Hstep].
  - unfold WaitProtocol.tokens. simpl. rewrite Hk. lia.
  - apply tokens_step in Hstep. lia.
Qed.

(** A retry due in [t] finds the claim, or a job that holds it puts it back for
    longer than that; and its wait is in the index for longer than that. *)
Definition covered (s : PState) (t : Z) : Prop :=
  (exists ttl, ws_claims (p_waits s) !! k = Some ttl /\ t < ttl) \/
  (exists j ttl, In j (p_jobs s) /\ j_phase j = Holding ttl /\ t < ttl).
Definition indexed (s : PState) (t : Z) : Prop :=
  k ∈ default ∅ (ws_index (p_waits s) !! event_type) /\
  exists it, ws_index_ttl (p_waits s) !! event_type = Some it /\ t < it.
Definition consumed (s : PState) : Prop := p_resumed s <> [] \/ p_ended s = true.
Definition retries_safe (s : PState) : Prop :=
  forall j t, In j (p_jobs s) -> j_phase j = Queued t -> 1 <= j_attempt j ->
  t < 0 \/ (covered s t /\ indexed s t).

Lemma restore_ttl_long a : a < CLAIM_RESUME_MAX_ATTEMPTS -> CLAIM_RESUME_DELAY_S < restore_ttl a.
Proof. unfold restore_ttl, remaining_budget_ttl, CLAIM_RESUME_MAX_ATTEMPTS, CLAIM_RESUME_DELAY_S. lia. Qed.

Lemma restore_ttl_nonneg a : 0 <= restore_ttl a.
Proof. unfold restore_ttl, remaining_budget_ttl, CLAIM_RESUME_DELAY_S. lia. Qed.

(** Restoring the claim keeps the wait indexed, and for at least the restored budget. *)
Lemma restore_indexed ws js rs e js' rs' e' ttl a t :
  indexed (mkP ws js rs e) t \/ t < restore_ttl a ->
  indexed (mkP (restore_claim k event_type ttl (restore_ttl a) ws) js' rs' e') t.
Proof.
  intros Ht. pose proof (restore_ttl_nonneg a) as Hm. unfold indexed in *. simpl in *.
  rewrite lookup_insert_eq. simpl. split; [set_solver|].
  destruct (ws_index_ttl ws !! event_type) as [it|] eqn:E; simpl.
  - assert (t < Z.max it (restore_ttl a)).
    { destruct Ht as [(_ & it' & [= <-] & ?)|?]; lia. }
    destruct (it <? restore_ttl a) eqn:Em; [rewrite lookup_insert_eq|rewrite E]; eexists; (split; [done|lia]).
  - destruct Ht as [(_ & it' & Hit & _)|?]; [done|].
    replace (-1 <? restore_ttl a) with true by (symmetry; apply Z.ltb_lt; lia).
    rewrite lookup_insert_eq. eauto.
Qed.

Lemma restore_covered ws js js' kd a b ttl rs e t mid :
  (tokens (mkP ws (js ++ mkJob kd a (Holding ttl) :: js') rs e) <= 1)%nat ->
  covered (mkP ws (js ++ mkJob kd a (Holding ttl) :: js') rs e) t \/ t < restore_ttl b ->
  covered (mkP (restore_claim k event_type ttl (restore_ttl b) ws) (js ++ mid ++ js') rs e) t.
Proof.
  intros Htok Hc. left. simpl. rewrite lookup_insert_eq. exists (Z.max ttl (restore_ttl b)). split; [done|].
  destruct Hc as [[(t' & Hk & _)|(j & t' & Hin & Hph & Hlt)]|?]; [| |lia]; simpl in *.
  - unfold WaitProtocol.tokens in Htok. simpl in Htok. rewrite Hk, filter_app, length_app in Htok. simpl in Htok. lia.
  - unfold WaitProtocol.tokens in Htok. simpl in Htok. rewrite filter_app, length_app in Htok. simpl in Htok.
    assert (Hno : forall l, length (List.filter holding l) = 0%nat -> ~ In j l).
    { intros l Hl Hj. apply length_zero_iff_nil in Hl. assert (Hf : In j (List.filter holding l)).
      { apply filter_In. split; [done|]. unfold holding. by rewrite Hph. }
      by rewrite Hl in Hf. }
    apply in_app_iff in Hin as [Hin|[<-|Hin]]; [|simpl in Hph; injection Hph as ->; lia|];
      exfalso; eapply Hno; [|exact Hin| |exact Hin]; lia.
Qed.

(** A step that only drops or renames queued jobs. *)
Lemma covered_mono ws js js' rs e rs' e' t :
  (forall j ttl, In j js -> j_phase j = Holding ttl -> In j js') ->
  covered (mkP ws js rs e) t -> covered (mkP ws js' rs' e') t.
Proof. intros Hsub [Hk|(j & ttl & Hin & Hph & ?)]; [by left|right]. exists j, ttl. eauto. Qed.

Lemma tick_safe d ws js rs e : 0 <= d -> retries_safe (mkP ws js rs e) ->
  retries_safe (mkP (tick d ws) (map (age_job d) js) rs e).
Proof.
  intros Hd Hsafe j t Hin Hph Hatt. simpl in Hin. apply in_map_iff in Hin as (j0 & <- & Hin).
  destruct j0 as [kd a [t0|t0]]; simpl in *; [|done]. injection Hph as <-.
  destruct (Hsafe (mkJob kd a (Queued t0)) t0 Hin eq_refl Hatt) as [?|[Hcov (Hmem & it & Hit & Hlt)]]; [left; lia|].
  destruct (decide (t0 - d < 0)) as [?|Hge]; [by left|right]. simpl in *. split.
  - destruct Hcov as [(ttl & Hk & Ht)|(j & ttl & Hj & Hp & Ht)]; [left|right]; simpl in *.
    + rewrite lookup_omap, Hk. simpl. unfold age. destruct (ttl <=? d) eqn:E; [lia|]. eexists. split; [done|lia].
    + exists (age_job d j), ttl. split; [by apply in_map|]. unfold age_job. rewrite Hp. split; [done|lia].
  - unfold indexed. simpl. rewrite map_lookup_imap, lookup_omap, Hit. simpl. unfold age.
    destruct (it <=? d) eqn:E; [lia|].
    destruct (ws_index ws !! event_type); simpl in *; (split; [done|]); eexists; (split; [done|lia]).
Qed.

Lemma claim_safe ws js js' kd a t rs e ttl ws' :
  getdel k ws = (Some ttl, ws') ->
  retries_safe (mkP ws (js ++ mkJob kd a (Queued t) :: js') rs e) ->
  retries_safe (mkP ws' (js ++ mkJob kd a (Holding ttl) :: js') rs e).
Proof.
  intros [= Hk <-] Hsafe j t' Hin Hph Hatt. simpl in Hin.
  assert (Hin' : In j (js ++ mkJob kd a (Queued t) :: js')).
  { apply in_app_iff in Hin as [?|[<-|?]]; [apply in_app_iff; by left|done|apply in_app_iff; right; by right]. }
  destruct (Hsafe j t' Hin' Hph Hatt) as [?|[Hcov Hidx]]; [by left|right]. split; [|exact Hidx]. right.
  destruct Hcov as [(ttl0 & Hk0 & ?)|(j1 & ttl1 & Hj1 & Hp1 & ?)]; simpl in *.
  - rewrite Hk in Hk0. injection Hk0 as <-. exists (mkJob kd a (Holding ttl)), ttl.
    split; [apply in_app_iff; right; by left|done].
  - exists j1, ttl1. split; [|done]. apply in_app_iff in Hj1 as [?|[<-|?]]; [|done|];
      apply in_app_iff; [by left|right; by right].
Qed.

Lemma drop_safe ws js js' kd a t rs e ws' :
  getdel k ws = (None, ws') ->
  retries_safe (mkP ws (js ++ mkJob kd a (Queued t) :: js') rs e) ->
  retries_safe (mkP ws' (js ++ js') rs e).
Proof.
  intros [= Hk <-] Hsafe j t' Hin Hph Hatt. simpl in Hin.
  assert (Hin' : In j (js ++ mkJob kd a (Queued t) :: js')) by (rewrite in_app_iff in *; simpl; tauto).
  destruct (Hsafe j t' Hin' Hph Hatt) as [?|[Hcov Hidx]]; [by left|right]. split; [|exact Hidx]. right.
  destruct Hcov as [(ttl0 & Hk0 & ?)|(j1 & ttl1 & Hj1 & Hp1 & ?)]; simpl in *; [congruence|].
  exists j1, ttl1. split; [|done]. rewrite in_app_iff in *. simpl in Hj1.
  destruct Hj1 as [?|[<-|?]]; [by left|done|by right].
Qed.

Lemma restore_safe ws js js' kd a ttl rs e mid :
  (tokens (mkP ws (js ++ mkJob kd a (Holding ttl) :: js') rs e) <= 1)%nat ->
  (forall j t, In j mid -> j_phase j = Queued t -> t < restore_ttl a) ->
  retries_safe (mkP ws (js ++ mkJob kd a (Holding ttl) :: js') rs e) ->
  retries_safe (mkP (restore_claim k event_type ttl (restore_ttl a) ws) (js ++ mid ++ js') rs e).
Proof.
  intros Htok Hmid Hsafe j t Hin Hph Hatt. simpl in Hin. rewrite !in_app_iff in Hin.
  destruct (decide (t < restore_ttl a)) as [Hlt|Hge].
  { right. split; [eapply restore_covered; [done|by right]|].
    apply (restore_indexed ws js rs e). by right. }
  assert (Hin' : In j (js ++ mkJob kd a (Holding ttl) :: js')).
  { rewrite in_app_iff. simpl. destruct Hin as [?|[Hj|?]]; [tauto| |tauto]. by apply Hmid in Hph. }
  destruct (Hsafe j t Hin' Hph Hatt) as [?|[Hcov Hidx]]; [by left|right].
  split; [eapply restore_covered; [done|by left]|]. eapply restore_indexed. left. exact Hidx.
Qed.

Lemma safe_step s s' : (tokens s <= 1)%nat -> pstep s s' ->
  consumed s \/ retries_safe s -> consumed s' \/ retries_safe s'.
Proof.
  intros Htok Hstep [Hc|Hsafe].
  { left. unfold consumed in *. destruct Hstep; simpl in *; tauto || (left; done) || (destruct Hc; [by left|by right]). }
  destruct Hstep as
    [d ws js rs e Hd|ws js rs e|ws js js' kd a t rs e ttl ws' Ht Hg|ws js js' kd a t rs e ws' Ht Hg
    |ws js js' kd a ttl rs e|ws js js' kd a ttl rs e|ws js js' kd a ttl rs e Ha|ws js js' kd a ttl rs e Ha].
  - right. by apply tick_safe.
  - right. intros j t Hin Hph Hatt. simpl in Hin. apply in_app_iff in Hin as [Hin|[<-|[]]]; [|simpl in Hatt; lia].
    destruct (Hsafe j t Hin Hph Hatt) as [?|[Hcov ?]]; [by left|right]. split; [|done].
    eapply covered_mono; [|exact Hcov]. intros. apply in_app_iff. by left.
  - right. by eapply claim_safe.
  - right. by eapply drop_safe.
  - left. by left.
  - left. by right.
  - right. apply (restore_safe ws js js' kd a ttl rs e [mkJob kd (a + 1) (Queued CLAIM_RESUME_DELAY_S)]); [done| |done].
    intros j t [<-|[]] [= <-]. by apply restore_ttl_long.
  - right. by apply (restore_safe ws js js' kd a ttl rs e []).
Qed.

Lemma safe_reachable ws s : reachable k event_type ws s -> consumed s \/ retries_safe s.
Proof.
  induction 1 as [s (delay & ttl & _ & _ & ->)|s s' Hr IH Hstep].
  - right. intros j t [<-|[]] _ Hatt. simpl in Hatt. lia.
  - eapply safe_step; [by eapply tokens_reachable|done|done].
Qed.
End facts.

(** * Properties *)

(** C3. Whatever the interleaving of event jobs, re-deliveries and the timeout job, one
    registration of a wait resumes its run at most once, and while the claim key
    exists or a job holds it, not at all. *)
Theorem wait_resumed_once k event_type ws s (Hreach : reachable k event_type ws s) :
  (length (p_resumed s) <= 1)%nat /\
  (ws_claims (p_waits s) !! k <> None \/ (exists j, In j (p_jobs s) /\ holding j = true) -> p_resumed s = []).
Proof.
  apply tokens_reachable in Hreach. unfold tokens in Hreach. split; [lia|]. intros Hlive.
  apply length_zero_iff_nil. destruct Hlive as [Hk|(j & Hj & Hh)].
  - destruct (ws_claims (p_waits s) !! k); [lia|done].
  - assert (In j (List.filter holding (p_jobs s))) as Hf by (by apply filter_In).
    destruct (List.filter holding (p_jobs s)); simpl in *; [done|lia].
Qed.

(** A wait is not lost while its jobs retry: until a job has resumed the run or
    found it ended, every retry that is still to come finds the claim key alive when
    it is due, or a job holding the claim, and the wait in the index of its event
    type. *)
Theorem retry_finds_claim k event_type ws s j t
    (Hreach : reachable k event_type ws s)
    (Hopen : p_resumed s = [] /\ p_ended s = false)
    (Hj : In j (p_jobs s)) (Hphase : j_phase j = Queued t) (Hretry : 1 <= j_attempt j) (Hdue : 0 <= t) :
  covered k s t /\ indexed k event_type s t.
Proof.
  apply safe_reachable in Hreach as [[Hr|He]|Hsafe]; [by destruct Hopen|destruct Hopen; congruence|].
  destruct (Hsafe j t Hj Hphase Hretry) as [?|?]; [lia|done].
Qed.

(** A delivery of the event or timeout task is a run of the protocol: when the
    engine parks no new wait meanwhile, what the task leaves in the wait store is what
    the steps of a queued job leave, and the task reports a resume exactly when the
    protocol records one. *)
Theorem task_follows_protocol `{External} kind run_id node_id event_type attempt w q r w' q'
    (Htask : resume_task kind run_id node_id event_type attempt w q = Some (r, w', q'))
    (Hquiet : forall ws b w1 q1, resume_at_port run_id node_id (resume_port kind) (set_waits ws w) q = Some (b, w1, q1) ->
                w_waits w1 = ws) :
  exists s', rtc (pstep (run_id, node_id) event_type)
      (mkP (w_waits w) [mkJob kind attempt (Queued 0)] [] false) s' /\
    p_waits s' = w_waits w' /\ (r = resumed_ok <-> p_resumed s' = [kind]) /\
    (r = not_waiting_retry <-> p_jobs s' = [mkJob kind (attempt + 1) (Queued CLAIM_RESUME_DELAY_S)]).
Proof.
  set (k := (run_id, node_id)). unfold resume_task in Htask. fold k in Htask.
  assert (Hclaim : forall ttl, ws_claims (w_waits w) !! k = Some ttl ->
    rtc (pstep k event_type) (mkP (w_waits w) [mkJob kind attempt (Queued 0)] [] false)
      (mkP (getdel k (w_waits w)).2 [mkJob kind attempt (Holding ttl)] [] false)).
  { intros ttl Hk. apply rtc_once. apply (p_claim k event_type (w_waits w) [] [] kind attempt 0 [] false ttl); [done|].
    unfold getdel. by rewrite Hk. }
  unfold getdel in *. simpl in Htask, Hclaim. destruct (ws_claims (w_waits w) !! k) as [ttl|] eqn:Ek.
  2:{ injection Htask as <- <- <-. exists (mkP (w_waits w) [] [] false). split; [|done].
      apply rtc_once. eapply (p_lost_claim k event_type (w_waits w) [] [] kind attempt 0 [] false); [done|].
      unfold getdel. rewrite Ek, delete_id by done. by destruct (w_waits w). }
  specialize (Hclaim ttl eq_refl). set (ws1 := mkWaits _ _ _) in *.
  destruct (resume_at_port _ _ _ _ _) as [[[b w1] q1]|] eqn:Er; simpl in Htask; [|done].
  apply Hquiet in Er. destruct b; [|destruct (run_is_terminal run_id w1)].
  - injection Htask as <- <- <-. eexists. split; [eapply rtc_r; [exact Hclaim|apply (p_resume k event_type ws1 [] [])]|].
    simpl. by rewrite Er.
  - injection Htask as <- <- <-. eexists. split; [eapply rtc_r; [exact Hclaim|apply (p_terminal k event_type ws1 [] [])]|].
    simpl. by rewrite Er.
  - injection Htask as <- <- <-. destruct (attempt <? CLAIM_RESUME_MAX_ATTEMPTS) eqn:Ea.
    + eexists. split; [eapply rtc_r; [exact Hclaim|apply (p_restore_retry k event_type ws1 [] []); lia]|].
      simpl. by rewrite Er.
    + eexists. split; [eapply rtc_r; [exact Hclaim|apply (p_restore_give_up k event_type ws1 [] []); lia]|].
      simpl. by rewrite Er.
Qed.

(** * Witnesses and examples *)

Definition sample_key : string * string := ("r1", "ask")%string.
Definition sample_waits : WaitStore := mkWaits {[sample_key := 660]}
  {["message_in_room"%string := {[sample_key]}]} {["message_in_room"%string := 660]}.

(** An event job claims, finds the run busy and puts the claim back. *)
Definition retrying : PState := mkP (restore_claim sample_key "message_in_room" 660 (restore_ttl 0)
    (mkWaits ∅ {["message_in_room"%string := {[sample_key]}]} {["message_in_room"%string := 660]}))
  [mkJob Timeout 0 (Queued 600); mkJob Event 1 (Queued 3)] [] false.

Lemma retrying_reachable : reachable sample_key "message_in_room" sample_waits retrying.
Proof.
  eapply reach_step; [eapply reach_step; [eapply reach_step; [apply reach_start; exists 600, 660|]|]|].
  - split; [done|]. split; [|reflexivity]. simpl. set_solver.
  - apply p_signal.
  - apply (p_claim _ _ _ [mkJob Timeout 0 (Queued 600)] [] Event 0 0 [] false 660
             (mkWaits ∅ {["message_in_room"%string := {[sample_key]}]} {["message_in_room"%string := 660]})); [done|].
    vm_compute. reflexivity.
  - apply (p_restore_retry _ _ _ [mkJob Timeout 0 (Queued 600)] [] Event 0 660 [] false). done.
Qed.

Lemma wait_resumed_once_witness :
  (length (p_resumed retrying) <= 1)%nat /\
  (ws_claims (p_waits retrying) !! sample_key <> None \/ (exists j, In j (p_jobs retrying) /\ holding j = true) ->
     p_resumed retrying = []).
Proof.
  apply (wait_resumed_once sample_key "message_in_room" sample_waits retrying). exact retrying_reachable.
Defined.

Lemma retry_finds_claim_witness : covered sample_key retrying 3 /\ indexed sample_key "message_in_room" retrying 3.
Proof.
  apply (retry_finds_claim sample_key "message_in_room" sample_waits retrying (mkJob Event 1 (Queued 3)) 3).
  - exact retrying_reachable.
  - split; reflexivity.
  - simpl. right. left. reflexivity.
  - reflexivity.
  - simpl. lia.
  - lia.
Defined.

(** A workflow that waits for messages in a loop. *)
Definition loop_def : definition := mkDef "start"
  [mkNode "start" TRIGGER []; mkNode "ask" WAIT_FOR_EVENT [("event_type", VStr "message_in_room")]%string]
  [mkEdge "e1" "start" "ask" (Some "default"%string) None; mkEdge "e2" "ask" "ask" (Some "default"%string) None]
  [] None None None.
Definition loop_world : World := match start_run "r1" "wf" None loop_def "manual" [] false
    (set_workflows (fun m => <["wf"%string := loop_def]> m) empty_world) no_queues with
  | Some (w, _) => w | None => empty_world end.

Definition k_in_index (w : World) : bool :=
  bool_decide (sample_key ∈ default ∅ (ws_index (w_waits w) !! "message_in_room"%string)).

(** The first message resumes the run, which parks again at the same node; the task then
    removes the new wait from the index, so that no later message finds it: the run
    waits for its timeout. *)
Definition after_message : option (task_result * World * Queues) :=
  resume_task Event "r1" "ask" "message_in_room" 0 loop_world no_queues.
Example looped_wait_loses_index :
  k_in_index loop_world = true /\
  match after_message with
  | Some (r, w, _) => r = resumed_ok /\ (rr_state <$> w_runs w !! "r1"%string) = Some WAITING /\
      ws_claims (w_waits w) !! sample_key = Some 660 /\ k_in_index w = false
  | None => False
  end.
Proof. vm_compute. done. Qed.

(** The claim of a run that is gone: the task takes it and cleans the index. *)
Definition orphan_world : World := set_waits sample_waits empty_world.
Lemma task_follows_protocol_witness :
  exists s', rtc (pstep ("r1", "ask")%string "message_in_room")
      (mkP (w_waits orphan_world) [mkJob Event 0 (Queued 0)] [] false) s' /\
    p_waits s' = w_waits empty_world /\ (noop_terminal = resumed_ok <-> p_resumed s' = [Event]) /\
    (noop_terminal = not_waiting_retry <-> p_jobs s' = [mkJob Event (0 + 1) (Queued CLAIM_RESUME_DELAY_S)]).
Proof.
  apply (task_follows_protocol Event "r1" "ask" "message_in_room" 0 orphan_world no_queues noop_terminal empty_world no_queues).
  - vm_compute. reflexivity.
  - intros ws b w1 q1 Hr. vm_compute in Hr. injection Hr as <- <- <-. reflexivity.
Defined.
