(* ===== verification/OrchBase.v ===== *)
(** * Common parts of the orchestration context

    The services of [contexts/orchestration/application] are asynchronous methods that
    read and write tables, talk to Redis and raise.  [prog] is their monad: a state
    that survives an exception, as the session and Redis do when a caller catches it.
    The errors are the classes of [domain/errors.py]; agents are rows of the agents
    context, read through [AgentsFacade.get_agent]. *)

From S2P Require Import Prelude PyFloat PyValue.

(** ** Errors *)
Inductive OrchestrationError :=
  | A2ATimeout | A2ACallCancelled | A2AForbidden | A2ADeliveryFailed | A2ACallLoop | A2ACallDepthExceeded
  | WakeupToggleNotAllowed | RoomWakeupBindingGone | RoomWakeupVersionConflict
  | InstructLoopDetected | InstructBudgetExceeded | InstructCapabilityDenied
  | SubagentDepthExceeded | SubagentConcurrencyExceeded | ApprovalCapabilityDenied
  | OrchValueError  (** the built-in [ValueError] *)
  | Infra.          (** whatever a failing Redis or queue raises *)

#[export] Instance OrchestrationError_eq_dec : EqDecision OrchestrationError.
Proof. solve_decision. Defined.

(** ** State and exceptions *)
Definition prog (S A : Type) : Type := S -> (OrchestrationError + A) * S.

Section prog.
Context {S : Type}.

#[global] Instance prog_ret : MRet (prog S) := fun A a s => (inr a, s).
#[global] Instance prog_bind : MBind (prog S) := fun A B f m s =>
  match m s with (inl e, s) => (inl e, s) | (inr a, s) => f a s end.

Definition throw {A} (e : OrchestrationError) : prog S A := fun s => (inl e, s).
Definition gets {A} (f : S -> A) : prog S A := fun s => (inr (f s), s).
Definition modify (f : S -> S) : prog S unit := fun s => (inr tt, f s).
(** [try: m except Exception: k] *)
Definition try_except {A} (m k : prog S A) : prog S A := fun s =>
  match m s with (inl _, s) => k s | r => r end.
(** [contextlib.suppress(Exception)] and [except Exception: log]. *)
Definition suppress (m : prog S unit) : prog S unit := try_except m (mret tt).

(** [for x in l: f(x)] *)
Fixpoint for_each {A} (l : list A) (f : A -> prog S unit) : prog S unit :=
  match l with [] => mret tt | x :: l => _ ← f x; for_each l f end.

(** [suppress] never raises. *)
Lemma suppress_inr m s : exists s', suppress m s = (inr tt, s').
Proof. unfold suppress, try_except. destruct (m s) as [[e|[]] s']; eauto. Qed.

Lemma suppress_state m s : (suppress m s).2 = (m s).2.
Proof. unfold suppress, try_except. by destruct (m s) as [[e|[]] s']. Qed.
Lemma bind_ret_state {A B} (m : prog S A) (b : B) s : ((_ ← m; mret b) s).2 = (m s).2.
Proof. unfold mbind, prog_bind. by destruct (m s) as [[e|a] s']. Qed.

Lemma bind_run {A B} (m : prog S A) (f : A -> prog S B) s :
  (m ≫= f) s = match m s with (inl e, s) => (inl e, s) | (inr a, s) => f a s end.
Proof. done. Qed.
Lemma for_each_inr {A} (l : list A) f s :
  (forall x s, exists s', f x s = (inr tt, s')) -> exists s', for_each l f s = (inr tt, s').
Proof.
  intros Hf. revert s. induction l as [|x l IH]; intros s; simpl; [by eexists|].
  unfold mbind, prog_bind. destruct (Hf x s) as [s1 ->]. apply IH.
Qed.

(** [preserves R m]: every run of [m], raising or not, relates the states by [R]. *)
Definition preserves (R : S -> S -> Prop) {A} (m : prog S A) : Prop := forall s, R s (m s).2.

Section preserves.
Context (R : S -> S -> Prop) `{!PreOrder R}.

Lemma preserves_ret {A} (a : A) : preserves R (mret a).
Proof. intros s. simpl. reflexivity. Qed.
Lemma preserves_throw {A} e : preserves R (throw (A := A) e).
Proof. intros s. simpl. reflexivity. Qed.
Lemma preserves_gets {A} (f : S -> A) : preserves R (gets f).
Proof. intros s. simpl. reflexivity. Qed.
Lemma preserves_modify f : (forall s, R s (f s)) -> preserves R (modify f).
Proof. intros H s. apply H. Qed.
Lemma preserves_bind {A B} (m : prog S A) (f : A -> prog S B) :
  preserves R m -> (forall a, preserves R (f a)) -> preserves R (m ≫= f).
Proof.
  intros Hm Hf s. specialize (Hm s). unfold mbind, prog_bind. destruct (m s) as [[e|a] s1]; simpl in *; [done|].
  etrans; [exact Hm|apply Hf].
Qed.
Lemma preserves_try {A} (m k : prog S A) : preserves R m -> preserves R k -> preserves R (try_except m k).
Proof.
  intros Hm Hk s. specialize (Hm s). unfold try_except. destruct (m s) as [[e|a] s1]; simpl in *; [|done].
  etrans; [exact Hm|apply Hk].
Qed.
Lemma preserves_suppress m : preserves R m -> preserves R (suppress m).
Proof. intros H. apply preserves_try; [done|apply preserves_ret]. Qed.
Lemma preserves_for_each {A} (l : list A) f : (forall x, preserves R (f x)) -> preserves R (for_each l f).
Proof. intros Hf. induction l as [|x l IH]; simpl; [apply preserves_ret|]. apply preserves_bind; auto. Qed.
End preserves.
End prog.

Create HintDb progs discriminated.

(** Walk through the code of a [prog], one call at a time. *)
Ltac walk :=
  repeat first
    [ apply preserves_ret; apply _ | apply preserves_throw; apply _ | apply preserves_gets; apply _
    | apply preserves_bind; [apply _| |intros ?] | apply preserves_suppress; [apply _|]
    | apply preserves_try; [apply _| |] | apply preserves_for_each; [apply _|intros ?]
    | match goal with |- preserves _ (match ?x with _ => _ end) => destruct x eqn:? end ].

(** ** Agents *)

Record Agent := mkAgent {
  ag_id : uuid;
  ag_project_id : uuid;
  ag_a2a_enabled : bool;
  ag_workflow_capabilities : pydict;
  ag_wakeup_config : pydict;
  ag_deleted : bool;
}.

Inductive WorkflowCapability := can_instruct | can_approve | can_create_subagent.
Definition capability_key (c : WorkflowCapability) : string :=
  match c with
  | can_instruct => "can_instruct" | can_approve => "can_approve"
  | can_create_subagent => "can_create_subagent"
  end.

(** [AgentsFacade.get_agent]: a deleted agent is returned only on request. *)
Definition get_agent (include_deleted : bool) (agents : gmap uuid Agent) (id : uuid) : option Agent :=
  match agents !! id with
  | Some a => if ag_deleted a && negb include_deleted then None else Some a
  | None => None
  end.

Definition agent_has_capability (a : option Agent) (c : WorkflowCapability) : bool :=
  match a with
  | None => false
  | Some a => py_bool (dict_get_or (capability_key c) (VBool false) (ag_workflow_capabilities a))
  end.
