(* ===== verification/Approvals.v ===== *)
(** * Approval gates

    [contexts/orchestration/application/approval_service.py] with the approval records
    of [domain/models.py] and the repositories of [infrastructure/repositories.py]; the
    arq tasks [approval_gate_announce] and [drive_approver_turn]
    ([app/workers/tasks/approvals.py]), [approval_timeout] ([tasks/orchestration.py])
    and [_approval_port] ([tasks/workflow_approvals.py]).

    The votes table has the primary key (approval, voter): a new ballot of a voter
    replaces the old one.  Times are whole seconds.  Calls to Redis and the job queue
    that may raise draw from [g_faults].  Each operation is one step of the service here;
    [ApprovalRace] takes ballots and deadlines apart into the statements of concurrent
    database sessions. *)

From stdpp Require Import sorting.
From S2P Require Import Prelude PyFloat PyValue WorkflowModels OrchBase.
Inductive ApprovalMode := SINGLE | MAJORITY | CONSENSUS.
Inductive ApprovalState := PENDING | APPROVED | REJECTED | TIMEOUT_LEADER.

#[export] Instance ApprovalMode_eq_dec : EqDecision ApprovalMode.
Proof. solve_decision. Defined.
#[export] Instance ApprovalState_eq_dec : EqDecision ApprovalState.
Proof. solve_decision. Defined.

Record Approval := mkApproval {
  ap_id : uuid;
  ap_workflow_run_id : string;
  ap_mode : ApprovalMode;
  leader_agent_id : uuid;
  approver_agent_ids : list uuid;
  ap_timeout_seconds : Z;
  ap_state : ApprovalState;
  ap_started_at : Z;
  ap_ended_at : option Z;
  ap_chatroom_id : option uuid;
}.

Record ApprovalVote := mkVote {
  v_approval_id : uuid;
  voter_agent_id : uuid;
  v_vote : bool;
  v_rationale : option string;
  v_cast_at : Z;
}.

Record ApprovalGateConfig := mkGateConfig {
  gc_mode : ApprovalMode;
  gc_approvers : list uuid;
  gc_leader_agent_id : uuid;
  gc_timeout_seconds : Z;
  gc_question : option string;
}.

(** [ApprovalGateConfig.__post_init__] *)
Definition gate_config (mode : ApprovalMode) (approvers : list uuid) (leader : uuid) (timeout_seconds : Z)
    (question : option string) : res ApprovalGateConfig :=
  if (timeout_seconds <? 1) || (86400 <? timeout_seconds) then Raise ValueError
  else if bool_decide (leader ∈ approvers) then Ok (mkGateConfig mode approvers leader timeout_seconds question)
  else Raise ValueError.

(** ** Evaluating the ballots *)

(** [leader_votes[-1].vote if leader_votes] *)
Definition leader_vote (a : Approval) (votes : list ApprovalVote) : option bool :=
  v_vote <$> list.last (List.filter (fun v => bool_decide (voter_agent_id v = leader_agent_id a)) votes).

Definition approver_set (a : Approval) : gset uuid := list_to_set (approver_agent_ids a).
Definition approver_votes (a : Approval) (votes : list ApprovalVote) : list ApprovalVote :=
  List.filter (fun v => bool_decide (voter_agent_id v ∈ approver_set a)) votes.

(** The dictionary [latest]: later ballots overwrite earlier ones. *)
Definition latest_ballots (votes : list ApprovalVote) : gmap uuid bool :=
  fold_left (fun m v => <[voter_agent_id v := v_vote v]> m) votes ∅.

Definition verdict (b : bool) : ApprovalState := if b then APPROVED else REJECTED.

(** [_evaluate_votes] *)
Definition evaluate_votes (a : Approval) (votes : list ApprovalVote) : option ApprovalState :=
  let avs := approver_votes a votes in
  let n := size (approver_set a) in
  match ap_mode a with
  | SINGLE => verdict <$> leader_vote a avs
  | MAJORITY =>
      let latest := latest_ballots avs in
      let approves := size (filter (fun kb => kb.2 = true) latest) in
      let rejects := (size latest - approves)%nat in
      if (n <? approves * 2)%nat then Some APPROVED
      else if (n <? rejects * 2)%nat then Some REJECTED
      else if (size latest <? n)%nat then None
      else verdict <$> leader_vote a avs
  | CONSENSUS =>
      if (length avs <? n)%nat then None
      else if forallb v_vote avs then Some APPROVED
      else if forallb (fun v => negb (v_vote v)) avs then Some REJECTED
      else Some TIMEOUT_LEADER
  end.

(** [_approval_port]: the output port of the gate node for a resolved approval. *)
Definition approval_port (a : Approval) (votes : list ApprovalVote) : string :=
  match ap_state a with
  | APPROVED => "approved"
  | REJECTED => "rejected"
  | _ =>
      match leader_vote a votes with
      | Some b => if b then "approved" else "rejected"
      | None => "timeout"
      end
  end.

(** ** The service's state *)

Inductive Job :=
  | J_announce (approval : uuid) (room : option uuid) (node_id question : option string) (attempt : Z)
  | J_timeout (approval : uuid) (room : option uuid) (attempt : Z)
  | J_drive (agent approval : uuid) (room : option uuid) (attempt : Z)
  | J_resume (approval : uuid) (attempt : Z).

Inductive Channel := Room (id : uuid) | WorkflowRun (run_id : string).

(** What leaves the process, in order; [E_job] with the seconds it is deferred by. *)
Inductive Effect :=
  | E_audit (action : string)
  | E_publish (c : Channel) (event : string)
  | E_push (agent : uuid) (approval : uuid)  (** a pending notification *)
  | E_job (j : Job) (defer_by : Z).

#[export] Instance Job_eq_dec : EqDecision Job.
Proof. solve_decision. Defined.
#[export] Instance Channel_eq_dec : EqDecision Channel.
Proof. solve_decision. Defined.
#[export] Instance Effect_eq_dec : EqDecision Effect.
Proof. solve_decision. Defined.

Record Gates := mkGates {
  g_agents : gmap uuid Agent;
  g_approvals : gmap uuid Approval;
  g_votes : gmap (uuid * uuid) ApprovalVote;
  g_now : Z;
  g_log : list Effect;
  g_faults : list bool;  (** for the external calls to come: does it raise? *)
}.

Definition set_approvals f g := mkGates (g_agents g) (f (g_approvals g)) (g_votes g) (g_now g) (g_log g) (g_faults g).
Definition set_votes f g := mkGates (g_agents g) (g_approvals g) (f (g_votes g)) (g_now g) (g_log g) (g_faults g).
Definition set_log f g := mkGates (g_agents g) (g_approvals g) (g_votes g) (g_now g) (f (g_log g)) (g_faults g).

Abbreviation gates := (prog Gates).

(** A call to Redis or the queue: raises when the schedule of faults says so. *)
Definition external (e : Effect) : gates unit := fun g =>
  let g' := mkGates (g_agents g) (g_approvals g) (g_votes g) (g_now g) (g_log g) (tail (g_faults g)) in
  match g_faults g with
  | true :: _ => (inl Infra, g')
  | _ => (inr tt, set_log (fun l => l ++ [e]) g')
  end.
Definition audit (action : string) : gates unit := modify (set_log (fun l => l ++ [E_audit action])).

(** ** The repositories *)

Definition approval_get (id : uuid) : gates (option Approval) := gets (fun g => g_approvals g !! id).

Definition approval_insert (id : uuid) (run : string) (c : ApprovalGateConfig) (room : option uuid) : gates Approval :=
  now ← gets g_now;
  let a := mkApproval id run (gc_mode c) (gc_leader_agent_id c) (gc_approvers c) (gc_timeout_seconds c)
             PENDING now None room in
  _ ← modify (set_approvals (insert id a));
  mret a.

(** [ApprovalRepository.update_state]: compare-and-set from pending. *)
Definition with_state (s : ApprovalState) (ended : option Z) (a : Approval) : Approval :=
  mkApproval (ap_id a) (ap_workflow_run_id a) (ap_mode a) (leader_agent_id a) (approver_agent_ids a)
    (ap_timeout_seconds a) s (ap_started_at a) ended (ap_chatroom_id a).
Definition ended_at (s : ApprovalState) (now : Z) : option Z :=
  match s with PENDING => None | _ => Some now end.
Definition approval_update_state (id : uuid) (s : ApprovalState) : gates bool := fun g =>
  match g_approvals g !! id with
  | Some a =>
      if bool_decide (ap_state a = PENDING)
      then (inr true, set_approvals (insert id (with_state s (ended_at s (g_now g)) a)) g)
      else (inr false, g)
  | None => (inr false, g)
  end.

(** [ApprovalVoteRepository.cast]: insert or replace. *)
Definition vote_cast (id voter : uuid) (vote : bool) (rationale : option string) : gates ApprovalVote :=
  now ← gets g_now;
  let v := mkVote id voter vote rationale now in
  _ ← modify (set_votes (insert (id, voter) v));
  mret v.

(** [list_for_approval]: the rows of one approval by [cast_at]. *)
Definition cast_before (v w : ApprovalVote) : Prop := v_cast_at v <= v_cast_at w.
#[export] Instance cast_before_dec : RelDecision cast_before.
Proof. intros v w. unfold cast_before. apply _. Defined.
Definition votes_of (id : uuid) (votes : gmap (uuid * uuid) ApprovalVote) : list ApprovalVote :=
  (map_to_list (filter (fun kv => kv.1.1 = id) votes)).*2.
Definition list_for_approval (id : uuid) : gates (list ApprovalVote) :=
  gets (fun g => merge_sort cast_before (votes_of id (g_votes g))).

(** ** Creating and announcing a gate *)

Definition create_gate (approval_id : uuid) (run : string) (c : ApprovalGateConfig) (room : option uuid)
    (node_id : option string) : gates Approval :=
  agents ← gets g_agents;
  let ineligible := List.filter (fun a => negb (agent_has_capability (get_agent false agents a) can_approve))
                      (gc_approvers c) in
  match ineligible with
  | _ :: _ => _ ← audit "approval.forbidden"; throw ApprovalCapabilityDenied
  | [] =>
      a ← approval_insert approval_id run c room;
      _ ← audit "approval.requested";
      _ ← external (E_job (J_announce approval_id room node_id (gc_question c) 0) 0);
      mret a
  end.

(** [_notify_and_arm]: the timeout first; then the approvers, whose failures are only
    logged. *)
Definition notify_and_arm (a : Approval) (room : option uuid) : gates unit :=
  _ ← external (E_job (J_timeout (ap_id a) room 0) (ap_timeout_seconds a));
  for_each (approver_agent_ids a) (fun approver =>
    suppress (_ ← external (E_push approver (ap_id a));
              external (E_job (J_drive approver (ap_id a) room 0) 0))).

Definition publish_to (room : option uuid) (event : string) : gates unit :=
  match room with Some r => external (E_publish (Room r) event) | None => mret tt end.

Definition announce_gate (approval_id : uuid) (room : option uuid) : gates bool :=
  found ← approval_get approval_id;
  match found with
  | None => mret false
  | Some a =>
      if bool_decide (ap_state a = PENDING) then
        _ ← publish_to room "approval.requested";
        _ ← external (E_publish (WorkflowRun (ap_workflow_run_id a)) "approval.requested");
        _ ← notify_and_arm a room;
        mret true
      else mret true
  end.

(** ** Resolving a gate *)

(** [_resolve_state] *)
Definition resolve_state (a : Approval) : gates (option ApprovalState) :=
  votes ← list_for_approval (ap_id a);
  match evaluate_votes a votes with
  | None => mret None
  | Some s =>
      won ← approval_update_state (ap_id a) s;
      if (won : bool) then _ ← audit "approval.resolved"; mret (Some s) else mret None
  end.

Definition publish_resolved (a : Approval) (room : option uuid) : gates unit :=
  _ ← publish_to room "approval.resolved";
  external (E_publish (WorkflowRun (ap_workflow_run_id a)) "approval.resolved").

Definition enqueue_workflow_resume (approval_id : uuid) : gates unit :=
  suppress (external (E_job (J_resume approval_id 0) 0)).

Definition emit_resolution_effects (a : Approval) (room : option uuid) : gates unit :=
  _ ← suppress (publish_resolved a room);
  enqueue_workflow_resume (ap_id a).

Definition cast_vote (approval_id voter : uuid) (vote : bool) (rationale : option string) (room : option uuid)
    : gates ApprovalVote :=
  found ← approval_get approval_id;
  match found with
  | None => throw OrchValueError
  | Some a =>
      if bool_decide (ap_state a = PENDING) then
        if bool_decide (voter ∈ approver_set a) then
          ballot ← vote_cast approval_id voter vote rationale;
          state ← resolve_state a;
          _ ← match state with Some _ => emit_resolution_effects a room | None => mret tt end;
          mret ballot
        else throw OrchValueError
      else throw OrchValueError
  end.

(** [handle_timeout]; its publications are not protected. *)
Definition handle_timeout (approval_id : uuid) (room : option uuid) : gates (option ApprovalState) :=
  found ← approval_get approval_id;
  match found with
  | None => mret None
  | Some a =>
      if bool_decide (ap_state a = PENDING) then
        won ← approval_update_state approval_id TIMEOUT_LEADER;
        if (won : bool) then
          _ ← audit "approval.resolved";
          _ ← publish_resolved a room;
          _ ← enqueue_workflow_resume approval_id;
          mret (Some TIMEOUT_LEADER)
        else
          refreshed ← approval_get approval_id;
          mret (ap_state <$> refreshed)
      else mret (Some (ap_state a))
  end.

(** ** The worker tasks *)

Definition NOT_VISIBLE_RETRY_DELAY_S : Z := 2.
Definition NOT_VISIBLE_MAX_ATTEMPTS : Z := 5.

Inductive announce_result := announced | retry_not_visible | noop_gone.
Definition approval_gate_announce (approval_id : uuid) (room : option uuid) (node_id question : option string)
    (attempt : Z) : gates announce_result :=
  ok ← announce_gate approval_id room;
  if (ok : bool) then mret announced
  else if attempt <? NOT_VISIBLE_MAX_ATTEMPTS then
    _ ← external (E_job (J_announce approval_id room node_id question (attempt + 1)) NOT_VISIBLE_RETRY_DELAY_S);
    mret retry_not_visible
  else mret noop_gone.

Inductive timeout_result := timeout_state (s : ApprovalState) | timeout_retry | timeout_gone.
Definition approval_timeout (approval_id : uuid) (room : option uuid) (attempt : Z) : gates timeout_result :=
  state ← handle_timeout approval_id room;
  match state with
  | Some s => mret (timeout_state s)
  | None =>
      if attempt <? NOT_VISIBLE_MAX_ATTEMPTS then
        _ ← external (E_job (J_timeout approval_id room (attempt + 1)) NOT_VISIBLE_RETRY_DELAY_S);
        mret timeout_retry
      else mret timeout_gone
  end.

(** [drive_approver_turn]; the turn itself is [run_turn], the engine of the agents
    context, whose votes go through [cast_vote]. *)
Inductive drive_result := drive_retry | skipped_not_visible | skipped_not_pending | turn_driven.
Definition drive_approver_turn (run_turn : uuid -> option uuid -> gates unit) (agent approval_id : uuid)
    (room : option uuid) (attempt : Z) : gates drive_result :=
  found ← approval_get approval_id;
  match found with
  | None =>
      if attempt <? NOT_VISIBLE_MAX_ATTEMPTS then
        _ ← external (E_job (J_drive agent approval_id room (attempt + 1)) NOT_VISIBLE_RETRY_DELAY_S);
        mret drive_retry
      else mret skipped_not_visible
  | Some a =>
      if bool_decide (ap_state a = PENDING) then _ ← run_turn agent room; mret turn_driven
      else mret skipped_not_pending
  end.

(** * Facts *)

(** ** The ballots as sets

    [yes] and [no]: the approvers whose ballot approves, or rejects. *)
Definition ballots_with (b : bool) (a : Approval) (votes : list ApprovalVote) : gset uuid :=
  list_to_set (voter_agent_id <$> List.filter (fun v => Bool.eqb (v_vote v) b) (approver_votes a votes)).
Abbreviation yes := (ballots_with true).
Abbreviation no := (ballots_with false).

(** What a gate promises: the leader decides alone, more than half of the approvers
    decide with the leader breaking a tie, or all of them agree. *)
Definition leader_decides (a : Approval) (ys ns : gset uuid) : option ApprovalState :=
  if decide (leader_agent_id a ∈ ys) then Some APPROVED
  else if decide (leader_agent_id a ∈ ns) then Some REJECTED else None.
Definition gate_spec (a : Approval) (ys ns : gset uuid) : option ApprovalState :=
  let n := size (approver_set a) in
  match ap_mode a with
  | SINGLE => leader_decides a ys ns
  | MAJORITY =>
      if (n <? size ys * 2)%nat then Some APPROVED
      else if (n <? size ns * 2)%nat then Some REJECTED
      else if (size ys + size ns <? n)%nat then None
      else leader_decides a ys ns
  | CONSENSUS =>
      if (size ys + size ns <? n)%nat then None
      else if decide (ns = ∅) then Some APPROVED
      else if decide (ys = ∅) then Some REJECTED
      else Some TIMEOUT_LEADER
  end.

(** One ballot per voter, as the primary key keeps it. *)
Definition one_ballot_each (votes : list ApprovalVote) : Prop := NoDup (voter_agent_id <$> votes).

Lemma one_ballot_filter p votes : one_ballot_each votes -> one_ballot_each (List.filter p votes).
Proof.
  unfold one_ballot_each. induction votes as [|v vs IH]; simpl; [done|]. intros [Hv Hn]%list.NoDup_cons.
  destruct (p v); simpl; [|by apply IH]. apply list.NoDup_cons. split; [|by apply IH].
  intros (w & Heq & Hw)%list_elem_of_fmap. apply Hv, list_elem_of_fmap. exists w. split; [done|].
  apply list_elem_of_In, filter_In in Hw as [Hw _]. by apply list_elem_of_In.
Qed.

Lemma ballot_unique votes v w : one_ballot_each votes -> v ∈ votes -> w ∈ votes ->
  voter_agent_id v = voter_agent_id w -> v = w.
Proof.
  unfold one_ballot_each. induction votes as [|u vs IH]; simpl; [by intros _ ?%elem_of_nil|].
  intros [Hu Hn]%list.NoDup_cons [->|Hv]%elem_of_cons [->|Hw]%elem_of_cons Heq; [done| | |by apply IH];
    exfalso; apply Hu, list_elem_of_fmap; [exists w|exists v]; done.
Qed.

Lemma elem_ballots_with b a votes x :
  x ∈ ballots_with b a votes <->
  exists v, v ∈ votes /\ voter_agent_id v = x /\ x ∈ approver_set a /\ v_vote v = b.
Proof.
  unfold ballots_with. rewrite elem_of_list_to_set, list_elem_of_fmap. split.
  - intros (v & -> & Hv). apply list_elem_of_In, filter_In in Hv as [Hv Hb].
    apply filter_In in Hv as [Hv Hs]. exists v. apply bool_decide_eq_true in Hs. apply eqb_prop in Hb.
    split; [by apply list_elem_of_In|done].
  - intros (v & Hv & <- & Hs & <-). exists v. split; [done|]. apply list_elem_of_In, filter_In.
    split; [|apply eqb_reflx]. apply filter_In. split; [by apply list_elem_of_In|by apply bool_decide_eq_true].
Qed.

Lemma ballots_subset b a votes : ballots_with b a votes ⊆ approver_set a.
Proof. intros x (v & _ & _ & Hx & _)%elem_ballots_with. done. Qed.

Lemma ballots_disjoint a votes : one_ballot_each votes -> yes a votes ## no a votes.
Proof.
  intros Hone x (v & Hv & Hvx & _ & Ht)%elem_ballots_with (w & Hw & Hwx & _ & Hf)%elem_ballots_with.
  assert (v = w) as -> by (eapply ballot_unique; [done..|congruence]). congruence.
Qed.

Lemma ballots_bound a votes : one_ballot_each votes ->
  (size (yes a votes) + size (no a votes) <= size (approver_set a))%nat.
Proof.
  intros Hone. rewrite <- size_union by (by apply ballots_disjoint). apply subseteq_size.
  pose proof (ballots_subset true a votes). pose proof (ballots_subset false a votes). set_solver.
Qed.

(** ** Counting *)
Lemma size_ballots b a votes : one_ballot_each votes ->
  size (ballots_with b a votes) = length (List.filter (fun v => Bool.eqb (v_vote v) b) (approver_votes a votes)).
Proof.
  intros Hone. unfold ballots_with. rewrite size_list_to_set; [apply length_fmap|].
  do 2 apply one_ballot_filter. done.
Qed.

Lemma filter_split_length (l : list ApprovalVote) :
  (length (List.filter (fun v => Bool.eqb (v_vote v) true) l)
   + length (List.filter (fun v => Bool.eqb (v_vote v) false) l) = length l)%nat.
Proof. induction l as [|v l IH]; simpl; [done|]. destruct (v_vote v); simpl; lia. Qed.

Lemma approver_votes_length a votes : one_ballot_each votes ->
  length (approver_votes a votes) = (size (yes a votes) + size (no a votes))%nat.
Proof. intros Hone. rewrite !size_ballots by done. symmetry. apply filter_split_length. Qed.

Lemma latest_snoc votes v : latest_ballots (votes ++ [v]) = <[voter_agent_id v := v_vote v]> (latest_ballots votes).
Proof. unfold latest_ballots. by rewrite fold_left_app. Qed.

Lemma latest_dom votes : dom (latest_ballots votes) = list_to_set (voter_agent_id <$> votes) :> gset uuid.
Proof.
  induction votes as [|v votes IH] using rev_ind; [done|].
  rewrite latest_snoc, fmap_app, list_to_set_app_L, dom_insert_L, IH. simpl. set_solver.
Qed.

Lemma latest_counts votes : one_ballot_each votes ->
  size (latest_ballots votes) = length votes /\
  size (filter (fun kb : uuid * bool => kb.2 = true) (latest_ballots votes))
    = length (List.filter (fun v => Bool.eqb (v_vote v) true) votes).
Proof.
  unfold one_ballot_each. induction votes as [|v votes IH] using rev_ind; [done|].
  rewrite fmap_app. intros (Hn & Hv & _)%list.NoDup_app. destruct (IH Hn) as [IH1 IH2].
  assert (Hnone : latest_ballots votes !! voter_agent_id v = None).
  { apply not_elem_of_dom. rewrite latest_dom, elem_of_list_to_set. intros Hin.
    eapply Hv; [exact Hin|]. by apply list_elem_of_here. }
  rewrite latest_snoc, List.filter_app, !length_app. simpl. split; [rewrite map_size_insert_None by done; lia|].
  destruct (v_vote v); simpl.
  - rewrite map_filter_insert_True by done. rewrite map_size_insert_None; [lia|].
    apply map_lookup_filter_None. by left.
  - rewrite map_filter_insert_False by done. rewrite delete_id by done. lia.
Qed.

(** ** The leader *)
Lemma verdict_not_pending (o : option bool) : verdict <$> o <> Some PENDING.
Proof. by destruct o as [[]|]. Qed.
Lemma evaluate_not_pending a votes : evaluate_votes a votes <> Some PENDING.
Proof. unfold evaluate_votes. intros H. repeat case_match; try done; by apply verdict_not_pending in H. Qed.
Lemma elem_voter_filter x votes v :
  v ∈ List.filter (fun v => bool_decide (voter_agent_id v = x)) votes <-> v ∈ votes /\ voter_agent_id v = x.
Proof. rewrite list_elem_of_In, filter_In, bool_decide_eq_true, <- list_elem_of_In. done. Qed.

Lemma last_ballot votes x v : one_ballot_each votes -> v ∈ votes -> voter_agent_id v = x ->
  list.last (List.filter (fun v => bool_decide (voter_agent_id v = x)) votes) = Some v.
Proof.
  intros Hone Hv Hx. destruct (list.last _) as [w|] eqn:E.
  - apply last_Some in E as [l E]. assert (Hw : w ∈ List.filter (fun v => bool_decide (voter_agent_id v = x)) votes).
    { rewrite E. apply elem_of_app. right. apply list_elem_of_here. }
    apply elem_voter_filter in Hw as [Hw Hwx]. f_equal. eapply ballot_unique; [done..|congruence].
  - apply last_None in E. exfalso. assert (Hw : v ∈ List.filter (fun v => bool_decide (voter_agent_id v = x)) votes)
      by (by apply elem_voter_filter). rewrite E in Hw. by apply elem_of_nil in Hw.
Qed.

Lemma leader_vote_spec a votes : one_ballot_each votes ->
  verdict <$> leader_vote a (approver_votes a votes) = leader_decides a (yes a votes) (no a votes).
Proof.
  intros Hone. unfold leader_decides, leader_vote.
  assert (Hb : forall b, leader_agent_id a ∈ ballots_with b a votes ->
    v_vote <$> list.last (List.filter (fun v => bool_decide (voter_agent_id v = leader_agent_id a))
      (approver_votes a votes)) = Some b).
  { intros b (v & Hv & Hx & Hs & Hb)%elem_ballots_with. rewrite (last_ballot _ _ v); [by simpl; f_equal| | |done].
    - by apply one_ballot_filter. 
    - apply list_elem_of_In, filter_In. rewrite <- Hx in Hs. split; [by apply list_elem_of_In|by apply bool_decide_eq_true]. }
  destruct (decide _) as [Hy|Hy]; [by rewrite (Hb true)|]. destruct (decide _) as [Hn|Hn]; [by rewrite (Hb false)|].
  destruct (list.last _) as [v|] eqn:E; [exfalso|done]. apply last_Some in E as [l E].
  assert (Hv : v ∈ List.filter (fun v => bool_decide (voter_agent_id v = leader_agent_id a)) (approver_votes a votes)).
  { rewrite E. apply elem_of_app. right. apply list_elem_of_here. }
  apply elem_voter_filter in Hv as [Hv Hx]. apply list_elem_of_In, filter_In in Hv as [Hv Hs].
  apply bool_decide_eq_true in Hs. rewrite Hx in Hs. apply list_elem_of_In in Hv.
  destruct (v_vote v) eqn:Eb; [apply Hy|apply Hn]; apply elem_ballots_with; eauto.
Qed.

Lemma forallb_ballots b a votes : one_ballot_each votes ->
  forallb (fun v => Bool.eqb (v_vote v) b) (approver_votes a votes) = bool_decide (ballots_with (negb b) a votes = ∅).
Proof.
  intros _. apply eq_true_iff_eq. rewrite forallb_forall, bool_decide_eq_true. split.
  - intros Hall. apply set_eq. intros x. split; [|by intros ?%elem_of_empty].
    intros (v & Hv & <- & Hs & Hb)%elem_ballots_with. exfalso.
    assert (Hin : In v (approver_votes a votes)).
    { apply filter_In. split; [by apply list_elem_of_In|by apply bool_decide_eq_true]. }
    apply Hall, eqb_prop in Hin. destruct b; simpl in *; congruence.
  - intros He v Hv. apply filter_In in Hv as [Hv Hs]. apply bool_decide_eq_true in Hs.
    destruct (Bool.eqb (v_vote v) b) eqn:E; [done|]. exfalso.
    assert (Hx : voter_agent_id v ∈ ballots_with (negb b) a votes).
    { apply elem_ballots_with. exists v. apply list_elem_of_In in Hv. repeat split; [done..|].
      destruct (v_vote v), b; done. }
    rewrite He in Hx. by apply elem_of_empty in Hx.
Qed.

Lemma forallb_ext_eq {A} (f g : A -> bool) l : (forall x, f x = g x) -> forallb f l = forallb g l.
Proof. intros H. induction l as [|x l IH]; simpl; [done|]. by rewrite H, IH. Qed.

Lemma evaluate_gate_spec a votes : one_ballot_each votes ->
  evaluate_votes a votes = gate_spec a (yes a votes) (no a votes).
Proof.
  intros Hone. unfold evaluate_votes, gate_spec. rewrite leader_vote_spec by done.
  destruct (latest_counts (approver_votes a votes)) as [Hs Ha]; [by apply one_ballot_filter|].
  rewrite Hs, Ha, <- (size_ballots true) by done. rewrite approver_votes_length by done.
  destruct (ap_mode a); [done| |].
  - by replace (size (yes a votes) + size (no a votes) - size (yes a votes))%nat with (size (no a votes)) by lia.
  - rewrite (forallb_ext_eq v_vote (fun v => Bool.eqb (v_vote v) true)), (forallb_ext_eq (fun v => negb (v_vote v))
      (fun v => Bool.eqb (v_vote v) false)) by (intros v; by destruct (v_vote v)).
    rewrite !forallb_ballots by done. simpl. by rewrite <- !decide_bool_decide.
Qed.

(** ** A verdict is final: more ballots do not change it *)
Lemma all_voted_same (ys ns ys' ns' s : gset uuid) :
  ys ⊆ ys' -> ns ⊆ ns' -> ys' ## ns' -> ys' ∪ ns' ⊆ s -> (size s <= size ys + size ns)%nat -> ys' = ys /\ ns' = ns.
Proof.
  intros Hy Hn Hd Hs Hsz. apply subseteq_size in Hs. rewrite size_union in Hs by done.
  pose proof (subseteq_size _ _ Hy). pose proof (subseteq_size _ _ Hn).
  split; symmetry; apply leibniz_equiv, set_subseteq_size_equiv; (done || lia).
Qed.

Lemma leader_decides_mono a ys ns ys' ns' s : ys ⊆ ys' -> ns ⊆ ns' -> ys' ## ns' ->
  leader_decides a ys ns = Some s -> leader_decides a ys' ns' = Some s.
Proof.
  intros Hy Hn Hd. unfold leader_decides.
  destruct (decide (leader_agent_id a ∈ ys)); [intros [= <-]; by rewrite decide_True by auto|].
  destruct (decide (leader_agent_id a ∈ ns)); [intros [= <-]|done].
  rewrite decide_False by (intros ?; eapply Hd; [done|auto]). by rewrite decide_True by auto.
Qed.

Lemma gate_spec_stable a ys ns ys' ns' s :
  ys ⊆ ys' -> ns ⊆ ns' -> ys' ## ns' -> ys' ∪ ns' ⊆ approver_set a ->
  gate_spec a ys ns = Some s -> gate_spec a ys' ns' = Some s.
Proof.
  intros Hy Hn Hd Hs. pose proof (all_voted_same ys ns ys' ns' _ Hy Hn Hd Hs) as Hall.
  pose proof (subseteq_size _ _ Hy). pose proof (subseteq_size _ _ Hn).
  pose proof (subseteq_size _ _ Hs) as Hsz. rewrite size_union in Hsz by done.
  unfold gate_spec. destruct (ap_mode a).
  - by apply leader_decides_mono.
  - destruct (size _ <? size ys * 2)%nat eqn:E1.
    { intros [= <-]. by replace (size (approver_set a) <? size ys' * 2)%nat with true by lia. }
    destruct (size _ <? size ns * 2)%nat eqn:E2.
    { intros [= <-]. replace (size (approver_set a) <? size ys' * 2)%nat with false by lia.
      by replace (size (approver_set a) <? size ns' * 2)%nat with true by lia. }
    destruct (size ys + size ns <? _)%nat eqn:E3; [done|]. destruct Hall as [-> ->]; [lia|].
    by rewrite E1, E2, E3.
  - destruct (size ys + size ns <? _)%nat eqn:E3; [done|]. destruct Hall as [-> ->]; [lia|]. by rewrite E3.
Qed.

Lemma ballots_mono b a vs vs' : (forall v, v ∈ vs -> v ∈ vs') -> ballots_with b a vs ⊆ ballots_with b a vs'.
Proof. intros H x (v & Hv & Hx)%elem_ballots_with. apply elem_ballots_with. exists v. auto. Qed.

Lemma ballots_within a votes : yes a votes ∪ no a votes ⊆ approver_set a.
Proof. intros x [H|H]%elem_of_union; by apply ballots_subset in H. Qed.

Lemma evaluate_mono a vs vs' s : one_ballot_each vs' -> one_ballot_each vs -> (forall v, v ∈ vs -> v ∈ vs') ->
  evaluate_votes a vs = Some s -> evaluate_votes a vs' = Some s.
Proof.
  intros Hone' Hone Hsub. rewrite !evaluate_gate_spec by done.
  apply gate_spec_stable; [by apply ballots_mono..|by apply ballots_disjoint|apply ballots_within].
Qed.

(** The order in which the rows come back does not matter. *)
Lemma one_ballot_perm vs vs' : vs ≡ₚ vs' -> one_ballot_each vs -> one_ballot_each vs'.
Proof. unfold one_ballot_each. by intros ->. Qed.
Lemma evaluate_perm a vs vs' : vs ≡ₚ vs' -> one_ballot_each vs -> evaluate_votes a vs = evaluate_votes a vs'.
Proof.
  intros Hp Hone. pose proof (one_ballot_perm _ _ Hp Hone) as Hone'.
  destruct (evaluate_votes a vs) as [s|] eqn:E; [symmetry; eapply evaluate_mono; [..|exact E]; try done; intros v; by rewrite Hp|].
  destruct (evaluate_votes a vs') as [s|] eqn:E'; [|done].
  rewrite <- E. eapply evaluate_mono; [..|exact E']; try done; intros v; by rewrite Hp.
Qed.

(** A gate with a leader among its approvers is open without ballots, and decided when
    everyone has voted. *)
Lemma approvers_nonempty a : leader_agent_id a ∈ approver_agent_ids a -> (0 < size (approver_set a))%nat.
Proof.
  intros Hl. assert (Hs : leader_agent_id a ∈ approver_set a) by (by apply elem_of_list_to_set).
  destruct (size (approver_set a)) eqn:E; [|lia]. apply size_empty_inv in E. by apply E in Hs.
Qed.

Lemma evaluate_no_ballots a : leader_agent_id a ∈ approver_agent_ids a -> evaluate_votes a [] = None.
Proof.
  intros Hl%approvers_nonempty. unfold evaluate_votes, latest_ballots. simpl. rewrite map_filter_empty, !map_size_empty.
  destruct (ap_mode a); simpl; [done| |]; destruct (size (approver_set a)); (done || lia).
Qed.

Definition everyone_voted (a : Approval) (votes : list ApprovalVote) : Prop :=
  forall x, x ∈ approver_agent_ids a -> exists v, v ∈ votes /\ voter_agent_id v = x.

Lemma everyone_voted_covers a votes : everyone_voted a votes ->
  yes a votes ∪ no a votes = approver_set a.
Proof.
  intros Hall. apply leibniz_equiv. intros x. split; [apply ballots_within|].
  intros Hx. pose proof Hx as Hs. apply elem_of_list_to_set in Hx. destruct (Hall x Hx) as (v & Hv & Hvx).
  apply elem_of_union. destruct (v_vote v) eqn:E; [left|right]; apply elem_ballots_with; eauto.
Qed.

Lemma evaluate_decides a votes : one_ballot_each votes -> leader_agent_id a ∈ approver_agent_ids a ->
  everyone_voted a votes -> evaluate_votes a votes <> None.
Proof.
  intros Hone Hl Hall. rewrite evaluate_gate_spec by done. pose proof (everyone_voted_covers a votes Hall) as Hc.
  assert (Hld : leader_decides a (yes a votes) (no a votes) <> None).
  { assert (Hin : leader_agent_id a ∈ yes a votes ∪ no a votes) by (rewrite Hc; by apply elem_of_list_to_set).
    unfold leader_decides. destruct (decide _); [done|]. destruct (decide _); [done|].
    apply elem_of_union in Hin as [?|?]; done. }
  assert (Hsz : (size (yes a votes) + size (no a votes) = size (approver_set a))%nat).
  { by rewrite <- Hc, size_union by (by apply ballots_disjoint). }
  unfold gate_spec. rewrite Hsz, Nat.ltb_irrefl. repeat case_match; done.
Qed.
