(* ===== verification/ApprovalFacts.v ===== *)
(** * The approval service keeps its gates consistent

    What each operation of [Approvals] does to the tables, the operations as a step
    relation under any schedule of Redis failures, and the invariant that ties a gate's
    state to its ballots.  [ApprovalRace] drops the assumption that each operation is
    one transaction after the other. *)

From stdpp Require Import sorting.
From S2P Require Import Prelude PyFloat PyValue WorkflowModels OrchBase Approvals.
(** ** What the operations do to the tables

    Effects only touch the log and the schedule of faults. *)
Definition same_tables (g g' : Gates) : Prop :=
  g_approvals g' = g_approvals g /\ g_votes g' = g_votes g /\ g_agents g' = g_agents g.
#[export] Instance same_tables_preorder : PreOrder same_tables.
Proof. split; [done|]. intros g1 g2 g3 (H1 & H2 & H3) (H4 & H5 & H6). unfold same_tables. by rewrite H4, H5, H6. Qed.

Lemma external_tables e : preserves same_tables (external e).
Proof. intros g. unfold external. by destruct (g_faults g) as [|[] ?]. Qed.
Lemma audit_tables s : preserves same_tables (audit s).
Proof. by apply preserves_modify. Qed.
#[export] Hint Resolve external_tables audit_tables : progs.
Ltac tables := walk; auto with progs.
Lemma publish_to_tables room e : preserves same_tables (publish_to room e).
Proof. unfold publish_to. tables. Qed.
#[export] Hint Resolve publish_to_tables : progs.
Lemma publish_resolved_tables a room : preserves same_tables (publish_resolved a room).
Proof. unfold publish_resolved. tables. Qed.
Lemma enqueue_resume_tables id : preserves same_tables (enqueue_workflow_resume id).
Proof. unfold enqueue_workflow_resume. tables. Qed.
#[export] Hint Resolve publish_resolved_tables enqueue_resume_tables : progs.
Lemma emit_tables a room : preserves same_tables (emit_resolution_effects a room).
Proof. unfold emit_resolution_effects. tables. Qed.
Lemma notify_tables a room : preserves same_tables (notify_and_arm a room).
Proof. unfold notify_and_arm. tables. Qed.
#[export] Hint Resolve emit_tables notify_tables : progs.
Lemma announce_tables id room : preserves same_tables (announce_gate id room).
Proof. unfold announce_gate, approval_get. tables. Qed.
#[export] Hint Resolve announce_tables : progs.
Lemma announce_task_tables id room node_id question attempt :
  preserves same_tables (approval_gate_announce id room node_id question attempt).
Proof. unfold approval_gate_announce. tables. Qed.

(** The rows after a ballot, a timeout and a creation. *)
Definition resolved_row (a : Approval) (s : ApprovalState) (now : Z) : Approval :=
  with_state s (ended_at s now) a.
Definition tally (a : Approval) (votes : gmap (uuid * uuid) ApprovalVote) : option ApprovalState :=
  evaluate_votes a (merge_sort cast_before (votes_of (ap_id a) votes)).

Lemma resolve_state_tables a g : g_approvals g !! ap_id a = Some a -> ap_state a = PENDING ->
  let g' := (resolve_state a g).2 in
  g_votes g' = g_votes g /\ g_agents g' = g_agents g /\ g_now g' = g_now g /\
  g_approvals g' = match tally a (g_votes g) with
    | Some s => <[ap_id a := resolved_row a s (g_now g)]> (g_approvals g) | None => g_approvals g end.
Proof.
  intros Ha Hp. unfold resolve_state, tally, list_for_approval, mbind, prog_bind, gets. simpl.
  destruct (evaluate_votes a _) as [s|]; [|done]. unfold approval_update_state.
  rewrite Ha, bool_decide_eq_true_2 by done. simpl. done.
Qed.

Lemma cast_vote_tables id voter vote rationale room g a :
  g_approvals g !! id = Some a -> ap_id a = id -> ap_state a = PENDING -> voter ∈ approver_set a ->
  let v := mkVote id voter vote rationale (g_now g) in
  let g' := (cast_vote id voter vote rationale room g).2 in
  let votes := <[(id, voter) := v]> (g_votes g) in
  g_votes g' = votes /\ g_agents g' = g_agents g /\
  g_approvals g' = match tally a votes with
    | Some s => <[id := resolved_row a s (g_now g)]> (g_approvals g) | None => g_approvals g end /\
  (cast_vote id voter vote rationale room g).1 = inr v.
Proof.
  intros Ha Hid Hp Hv v g' votes. unfold g', cast_vote, approval_get, mbind, prog_bind, gets. simpl. rewrite Ha.
  rewrite !bool_decide_eq_true_2 by done. unfold vote_cast, mbind, prog_bind, gets, modify. simpl.
  set (g1 := set_votes _ g). destruct (resolve_state_tables a g1) as (Hv1 & Hag1 & Hn1 & Ha1); [by rewrite Hid|done|].
  destruct (resolve_state a g1) as [[e|r] g2] eqn:E; simpl in Hv1, Hag1, Hn1, Ha1.
  - exfalso. clear -E. unfold resolve_state, list_for_approval, mbind, prog_bind, gets in E. simpl in E.
    destruct (evaluate_votes a _) as [s|]; [|done]. unfold approval_update_state in E.
    destruct (g_approvals g1 !! ap_id a) as [a'|]; [case_bool_decide|]; simpl in E; done.
  - rewrite Hid in Ha1. destruct r as [s|]; simpl; [|by rewrite Hv1, Hag1, Ha1].
    pose proof (emit_tables a room g2) as (He1 & He2 & He3).
    assert (Hnr : exists g3, emit_resolution_effects a room g2 = (inr tt, g3)).
    { unfold emit_resolution_effects, mbind, prog_bind. destruct (suppress_inr (publish_resolved a room) g2) as [g3 ->].
      apply suppress_inr. }
    destruct Hnr as [g3 Hg3]. rewrite Hg3 in *. simpl in *. by rewrite He1, He2, He3, Hv1, Hag1, Ha1.
Qed.

Lemma cast_vote_rejected id voter vote rationale room g :
  ~ (exists a, g_approvals g !! id = Some a /\ ap_state a = PENDING /\ voter ∈ approver_set a) ->
  cast_vote id voter vote rationale room g = (inl OrchValueError, g).
Proof.
  intros Hno. unfold cast_vote, approval_get, mbind, prog_bind, gets. simpl.
  destruct (g_approvals g !! id) as [a|] eqn:E; [|done].
  case_bool_decide as Hp; [|done]. case_bool_decide as Hv; [|done]. exfalso. apply Hno. eauto.
Qed.

Lemma timeout_tables id room g :
  let g' := (handle_timeout id room g).2 in
  g_votes g' = g_votes g /\ g_agents g' = g_agents g /\
  g_approvals g' = match g_approvals g !! id with
    | Some a => if bool_decide (ap_state a = PENDING)
                then <[id := resolved_row a TIMEOUT_LEADER (g_now g)]> (g_approvals g) else g_approvals g
    | None => g_approvals g end.
Proof.
  unfold handle_timeout, approval_get, mbind, prog_bind, gets. simpl.
  destruct (g_approvals g !! id) as [a|] eqn:Ha; [|done]. case_bool_decide as Hp; [|done].
  unfold approval_update_state. rewrite Ha, bool_decide_eq_true_2 by done. simpl.
  set (g1 := set_log _ _). pose proof (publish_resolved_tables a room g1) as (H1 & H2 & H3).
  destruct (publish_resolved a room g1) as [[e|[]] g2]; simpl in *; [by rewrite H1, H2, H3|].
  pose proof (enqueue_resume_tables id g2) as (H4 & H5 & H6).
  destruct (enqueue_workflow_resume id g2) as [[e|[]] g3]; simpl in *; by rewrite H4, H5, H6, H1, H2, H3.
Qed.

Lemma timeout_task_tables id room attempt g :
  g_votes (approval_timeout id room attempt g).2 = g_votes (handle_timeout id room g).2 /\
  g_agents (approval_timeout id room attempt g).2 = g_agents (handle_timeout id room g).2 /\
  g_approvals (approval_timeout id room attempt g).2 = g_approvals (handle_timeout id room g).2.
Proof.
  unfold approval_timeout, mbind, prog_bind. destruct (handle_timeout id room g) as [[e|[s|]] g1]; simpl; [done..|].
  case_match; [|done]. pose proof (external_tables (E_job (J_timeout id room (attempt + 1)) NOT_VISIBLE_RETRY_DELAY_S) g1)
    as (H1 & H2 & H3). destruct (external _ g1) as [[e|[]] g2]; simpl in *; by rewrite H1, H2, H3.
Qed.

(** ** Every operation, as a step *)
Inductive gstep : Gates -> Gates -> Prop :=
  | gs_env g agents now faults :  (** time passes, agents change, Redis fails or not *)
      gstep g (mkGates agents (g_approvals g) (g_votes g) now (g_log g) faults)
  | gs_create g id run c room node_id :  (** a fresh id and an accepted configuration *)
      g_approvals g !! id = None ->
      gate_config (gc_mode c) (gc_approvers c) (gc_leader_agent_id c) (gc_timeout_seconds c) (gc_question c) = Ok c ->
      gstep g (create_gate id run c room node_id g).2
  | gs_announce g id room node_id question attempt :
      gstep g (approval_gate_announce id room node_id question attempt g).2
  | gs_cast g id voter vote rationale room :
      gstep g (cast_vote id voter vote rationale room g).2
  | gs_timeout g id room attempt :
      gstep g (approval_timeout id room attempt g).2.

(** How a gate and its ballots agree: an open gate is undecided; a closed one was
    decided by its ballots, or timed out before they decided. *)
Definition row_ok (a : Approval) (votes : gmap (uuid * uuid) ApprovalVote) : Prop :=
  match ap_state a with
  | PENDING => tally a votes = None
  | s => tally a votes = Some s \/ (s = TIMEOUT_LEADER /\ tally a votes = None)
  end.
Record gates_ok (g : Gates) : Prop := {
  gk_row id a : g_approvals g !! id = Some a ->
    ap_id a = id /\ leader_agent_id a ∈ approver_agent_ids a /\ 1 <= ap_timeout_seconds a <= 86400 /\
    row_ok a (g_votes g);
  gk_vote id x v : g_votes g !! (id, x) = Some v ->
    voter_agent_id v = x /\ exists a, g_approvals g !! id = Some a /\ x ∈ approver_set a;
}.

(** A row only ever goes from pending to a resolved state. *)
Definition row_evolves (a a' : Approval) : Prop :=
  a' = a \/ (ap_state a = PENDING /\ exists s now, s <> PENDING /\ a' = resolved_row a s now).
Definition gates_evolve (g g' : Gates) : Prop :=
  forall id a, g_approvals g !! id = Some a -> exists a', g_approvals g' !! id = Some a' /\ row_evolves a a'.

Lemma row_evolves_trans a1 a2 a3 : row_evolves a1 a2 -> row_evolves a2 a3 -> row_evolves a1 a3.
Proof. intros [->|(Hp & s & now & Hs & ->)] [->|(Hp' & ?)]; [by left|by right|right; eauto|done]. Qed.
#[export] Instance gates_evolve_preorder : PreOrder gates_evolve.
Proof.
  split; [intros g id a H; exists a; split; [done|by left]|].
  intros g1 g2 g3 H1 H2 id a Ha. destruct (H1 _ _ Ha) as (a' & Ha' & ?). destruct (H2 _ _ Ha') as (a'' & ? & ?).
  exists a''. split; [done|by eapply row_evolves_trans].
Qed.

(** *** Ballots of one gate *)
Lemma elem_votes_of id votes v : v ∈ votes_of id votes <-> exists x, votes !! (id, x) = Some v.
Proof.
  unfold votes_of. rewrite list_elem_of_fmap. split.
  - intros ([[id' x] w] & -> & H). apply elem_of_map_to_list, map_lookup_filter_Some in H as [H Hid].
    simpl in *. subst. eauto.
  - intros (x & H). exists ((id, x), v). split; [done|]. apply elem_of_map_to_list, map_lookup_filter_Some. done.
Qed.

Lemma votes_of_one_ballot id votes :
  (forall x v, votes !! (id, x) = Some v -> voter_agent_id v = x) -> one_ballot_each (votes_of id votes).
Proof.
  intros Hkey. unfold one_ballot_each, votes_of. set (m := filter _ _).
  assert (Hm : forall k v, (k, v) ∈ map_to_list m -> k = (id, voter_agent_id v)).
  { intros [i x] v H. apply elem_of_map_to_list, map_lookup_filter_Some in H as [H Hid]. simpl in Hid. subst.
    by rewrite (Hkey x v). }
  pose proof (NoDup_fst_map_to_list m) as Hnd. revert Hm Hnd. generalize (map_to_list m).
  intros l. induction l as [|[k v] l IH]; simpl; intros Hm Hnd; [constructor|].
  apply list.NoDup_cons in Hnd as [Hk Hnd]. apply list.NoDup_cons. split.
  - intros Hin. apply Hk. apply list_elem_of_fmap in Hin as (w & Hw & Hin).
    apply list_elem_of_fmap in Hin as ([k' w'] & -> & Hin). simpl in Hw.
    apply list_elem_of_fmap. exists (k', w'). split; [|done]. simpl.
    rewrite (Hm k v), (Hm k' w') by (apply elem_of_cons; auto). by rewrite Hw.
  - apply IH; [|done]. intros k' v' H. apply Hm, elem_of_cons. by right.
Qed.

Lemma votes_of_insert_ne id id' x v votes : id <> id' -> votes_of id (<[(id', x) := v]> votes) = votes_of id votes.
Proof.
  intros Hne. unfold votes_of. f_equal. f_equal. rewrite map_filter_insert_False by (simpl; congruence).
  apply map_filter_delete_not. intros ? _ [=]. congruence.
Qed.

Lemma tally_spec a votes : (forall x v, votes !! (ap_id a, x) = Some v -> voter_agent_id v = x) ->
  tally a votes = gate_spec a (yes a (votes_of (ap_id a) votes)) (no a (votes_of (ap_id a) votes)).
Proof.
  intros Hkey. pose proof (votes_of_one_ballot _ _ Hkey) as Hone. unfold tally.
  rewrite <- evaluate_gate_spec by done. symmetry. apply evaluate_perm; [|done].
  symmetry. apply merge_sort_Permutation.
Qed.

Lemma tally_decides a votes : (forall x v, votes !! (ap_id a, x) = Some v -> voter_agent_id v = x) ->
  leader_agent_id a ∈ approver_agent_ids a ->
  (forall x, x ∈ approver_agent_ids a -> is_Some (votes !! (ap_id a, x))) -> tally a votes <> None.
Proof.
  intros Hkey Hl Hall. pose proof (votes_of_one_ballot _ _ Hkey) as Hone. unfold tally.
  rewrite <- (evaluate_perm a (votes_of (ap_id a) votes)); [|symmetry; apply merge_sort_Permutation|done].
  apply evaluate_decides; [done..|]. intros x Hx. destruct (Hall x Hx) as [v Hv]. exists v.
  split; [apply elem_votes_of; eauto|by apply Hkey].
Qed.

Lemma tally_no_votes a votes : (forall x, votes !! (ap_id a, x) = None) -> leader_agent_id a ∈ approver_agent_ids a ->
  tally a votes = None.
Proof.
  intros Hno Hl. unfold tally. replace (votes_of (ap_id a) votes) with (@nil ApprovalVote); [by apply evaluate_no_ballots|].
  symmetry. apply elem_of_nil_inv. intros v [x Hx]%elem_votes_of. by rewrite Hno in Hx.
Qed.

(** *** The invariant *)
Lemma row_ok_other a votes votes' : votes_of (ap_id a) votes' = votes_of (ap_id a) votes ->
  row_ok a votes -> row_ok a votes'.
Proof. unfold row_ok, tally. by intros ->. Qed.

Lemma row_ok_resolved a s now votes : s <> PENDING ->
  tally a votes = Some s \/ (s = TIMEOUT_LEADER /\ tally a votes = None) -> row_ok (resolved_row a s now) votes.
Proof. intros Hs H. unfold row_ok. simpl. by destruct s. Qed.

Lemma create_tables id run c room node_id g :
  let g' := (create_gate id run c room node_id g).2 in
  g_votes g' = g_votes g /\
  (g_approvals g' = g_approvals g \/
   g_approvals g' = <[id := mkApproval id run (gc_mode c) (gc_leader_agent_id c) (gc_approvers c)
                              (gc_timeout_seconds c) PENDING (g_now g) None room]> (g_approvals g)).
Proof.
  unfold create_gate, approval_insert, audit, modify, mbind, prog_bind, gets. simpl.
  destruct (List.filter _ _); simpl; [|by split; [|left]].
  set (g1 := set_log _ _). pose proof (external_tables (E_job (J_announce id room node_id (gc_question c) 0) 0) g1) as (H1 & H2 & _).
  destruct (external _ g1) as [[e|[]] g2]; simpl in *; (split; [by rewrite H2|right; by rewrite H1]).
Qed.

Lemma gate_config_ok mode approvers leader t q c : gate_config mode approvers leader t q = Ok c ->
  leader ∈ approvers /\ 1 <= t <= 86400.
Proof. unfold gate_config. destruct (_ || _) eqn:E; [done|]. case_bool_decide; [|done]. intros _. split; [done|lia]. Qed.

Lemma gates_ok_same g g' : g_approvals g' = g_approvals g -> g_votes g' = g_votes g -> gates_ok g -> gates_ok g'.
Proof. intros Ha Hv [H1 H2]. split; rewrite ?Ha, ?Hv; [exact H1|exact H2]. Qed.

(** Replacing a row, and its ballots, by ones that agree. *)
Lemma gates_ok_update g g' id a a' : gates_ok g -> g_approvals g !! id = Some a ->
  g_approvals g' = <[id := a']> (g_approvals g) ->
  (exists s now, a' = a \/ a' = resolved_row a s now) -> row_ok a' (g_votes g') ->
  (g_votes g' = g_votes g \/ exists x v, x ∈ approver_set a /\ voter_agent_id v = x /\ g_votes g' = <[(id, x) := v]> (g_votes g)) ->
  gates_ok g'.
Proof.
  intros [Hrow Hvote] Ha Happ (s & now & Ha') Hok Hvotes.
  destruct (Hrow _ _ Ha) as (Hid & Hl & Ht & _).
  assert (Hstatic : ap_id a' = ap_id a /\ leader_agent_id a' = leader_agent_id a /\
    approver_agent_ids a' = approver_agent_ids a /\ ap_timeout_seconds a' = ap_timeout_seconds a)
    by (destruct Ha' as [->| ->]; done).
  destruct Hstatic as (Hid' & Hl' & Hap' & Ht'). split.
  - intros id2 a2. rewrite Happ. intros [[<- <-]|[Hne H2]]%lookup_insert_Some.
    { rewrite Hid', Hl', Hap', Ht'. done. }
    destruct (Hrow _ _ H2) as (Hid2 & ? & ? & Hok2). do 3 (split; [done|]).
    eapply row_ok_other; [|exact Hok2]. destruct Hvotes as [->|(x & v & _ & _ & ->)]; [done|].
    apply votes_of_insert_ne. by rewrite Hid2.
  - intros id2 x2 v2 H2. rewrite Happ.
    assert (Hold : (exists x, id2 = id /\ x2 = x /\ voter_agent_id v2 = x /\ x ∈ approver_set a) \/ g_votes g !! (id2, x2) = Some v2).
    { destruct Hvotes as [E|(x & v & Hx & Hvx & E)]; rewrite E in H2; [by right|].
      apply lookup_insert_Some in H2 as [[[= <- <-] <-]|[_ ?]]; [left; eauto|by right]. }
    destruct Hold as [(x & -> & -> & <- & Hx)|H].
    + split; [done|]. exists a'. rewrite lookup_insert_eq. split; [done|]. unfold approver_set. by rewrite Hap'.
    + destruct (Hvote _ _ _ H) as (? & a2 & Ha2 & ?). split; [done|]. destruct (decide (id2 = id)) as [->|Hne].
      * rewrite Ha in Ha2. injection Ha2 as <-. exists a'. rewrite lookup_insert_eq. split; [done|].
        unfold approver_set. by rewrite Hap'.
      * exists a2. by rewrite lookup_insert_ne.
Qed.

(** A ballot on an open gate: what the row becomes. *)
Lemma cast_vote_step id voter vote rationale room g : gates_ok g ->
  gates_ok (cast_vote id voter vote rationale room g).2 /\
  gates_evolve g (cast_vote id voter vote rationale room g).2.
Proof.
  intros Hok. pose proof Hok as [Hrow Hvote].
  destruct (g_approvals g !! id) as [a|] eqn:Ha; cycle 1.
  { rewrite cast_vote_rejected by naive_solver. by split. }
  destruct (decide (ap_state a = PENDING /\ voter ∈ approver_set a)) as [[Hp Hv]|Hno]; cycle 1.
  { rewrite cast_vote_rejected by naive_solver. by split. }
  destruct (Hrow _ _ Ha) as (Hid & Hl & Ht & Hundecided).
  destruct (cast_vote_tables id voter vote rationale room g a Ha Hid Hp Hv) as (Hv' & _ & Ha' & _).
  set (g' := (cast_vote _ _ _ _ _ g).2) in *. set (v := mkVote _ _ _ _ _) in *.
  assert (Hvs : exists x w, x ∈ approver_set a /\ voter_agent_id w = x /\ g_votes g' = <[(id, x) := w]> (g_votes g)).
  { exists voter, v. by split_and!. }
  destruct (tally a (<[(id, voter) := v]> (g_votes g))) as [s|] eqn:Et.
  - assert (Hs : s <> PENDING) by (intros ->; by apply evaluate_not_pending in Et). split.
    + eapply (gates_ok_update g g' id a (resolved_row a s (g_now g))); [done|done|done|eauto| |by right].
      apply row_ok_resolved; [done|]. left. by rewrite Hv'.
    + intros id2 a2 H2. rewrite Ha'. destruct (decide (id = id2)) as [<-|Hne].
      * rewrite lookup_insert_eq. rewrite Ha in H2. injection H2 as <-. eexists. split; [done|]. right. eauto.
      * rewrite lookup_insert_ne by done. exists a2. split; [done|by left].
  - split.
    + eapply (gates_ok_update g g' id a a); [done|done| |exists PENDING, 0; by left| |by right].
      * rewrite Ha'. by rewrite insert_id.
      * unfold row_ok. rewrite Hp, Hv'. done.
    + intros id2 a2 H2. rewrite Ha'. exists a2. split; [done|by left].
Qed.

Lemma timeout_step id room attempt g : gates_ok g ->
  gates_ok (approval_timeout id room attempt g).2 /\ gates_evolve g (approval_timeout id room attempt g).2.
Proof.
  intros Hok. pose proof Hok as [Hrow _]. destruct (timeout_task_tables id room attempt g) as (Hv1 & _ & Ha1).
  destruct (timeout_tables id room g) as (Hv2 & _ & Ha2). rewrite Hv2 in Hv1. rewrite Ha2 in Ha1.
  set (g' := (approval_timeout id room attempt g).2) in *.
  destruct (g_approvals g !! id) as [a|] eqn:Ha; cycle 1.
  { split; [by eapply gates_ok_same|]. intros id2 a2 H2. rewrite Ha1. exists a2. split; [done|by left]. }
  case_bool_decide as Hp; cycle 1.
  { split; [by eapply gates_ok_same|]. intros id2 a2 H2. rewrite Ha1. exists a2. split; [done|by left]. }
  destruct (Hrow _ _ Ha) as (Hid & Hl & Ht & Hundecided). split.
  - eapply (gates_ok_update g g' id a (resolved_row a TIMEOUT_LEADER (g_now g))); [done|done|done|eauto| |by left].
    apply row_ok_resolved; [done|]. right. split; [done|]. unfold row_ok in Hundecided. by rewrite Hp, <- Hv1 in Hundecided.
  - intros id2 a2 H2. rewrite Ha1. destruct (decide (id = id2)) as [<-|Hne].
    + rewrite lookup_insert_eq. rewrite Ha in H2. injection H2 as <-. eexists. split; [done|].
      right. split; [done|]. by exists TIMEOUT_LEADER, (g_now g).
    + rewrite lookup_insert_ne by done. exists a2. split; [done|by left].
Qed.

Lemma create_step id run c room node_id g : gates_ok g -> g_approvals g !! id = None ->
  gate_config (gc_mode c) (gc_approvers c) (gc_leader_agent_id c) (gc_timeout_seconds c) (gc_question c) = Ok c ->
  gates_ok (create_gate id run c room node_id g).2 /\ gates_evolve g (create_gate id run c room node_id g).2.
Proof.
  intros Hok Hfresh [Hl Ht]%gate_config_ok. pose proof Hok as [Hrow Hvote].
  destruct (create_tables id run c room node_id g) as [Hv [Ha|Ha]]; set (g' := (create_gate _ _ _ _ _ g).2) in *.
  { split; [by eapply gates_ok_same|]. intros id2 a2 H2. rewrite Ha. exists a2. split; [done|by left]. }
  split; [split|].
  - intros id2 a2. rewrite Ha, Hv. intros [[<- <-]|[Hne H2]]%lookup_insert_Some; [|by apply Hrow].
    simpl. do 3 (split; [done|]). unfold row_ok. simpl. apply tally_no_votes; simpl; [|done].
    intros x. destruct (g_votes g !! (id, x)) as [v|] eqn:E; [|done].
    apply Hvote in E as (_ & a & E & _). congruence.
  - intros id2 x v. rewrite Ha, Hv. intros H. destruct (Hvote _ _ _ H) as (? & a2 & H2 & ?). split; [done|].
    exists a2. rewrite lookup_insert_ne; [done|]. congruence.
  - intros id2 a2 H2. exists a2. rewrite Ha, lookup_insert_ne by congruence. split; [done|by left].
Qed.

Lemma gstep_ok g g' : gstep g g' -> gates_ok g -> gates_ok g' /\ gates_evolve g g'.
Proof.
  destruct 1; intros Hok.
  - split; [by apply (gates_ok_same g)|]. intros id a Ha. exists a. split; [done|by left].
  - by apply create_step.
  - destruct (announce_task_tables id room node_id question attempt g) as (Ha & Hv & _).
    split; [by eapply gates_ok_same|]. intros id2 a2 H2. rewrite Ha. exists a2. split; [done|by left].
  - by apply cast_vote_step.
  - by apply timeout_step.
Qed.

Definition no_gates (agents : gmap uuid Agent) : Gates := mkGates agents ∅ ∅ 0 [] [].
Definition reachable_gates (g : Gates) : Prop := exists agents, rtc gstep (no_gates agents) g.

Lemma gates_ok_rtc g g' : rtc gstep g g' -> gates_ok g -> gates_ok g' /\ gates_evolve g g'.
Proof.
  induction 1 as [g|g g1 g2 Hs _ IH]; intros Hok; [by split|].
  destruct (gstep_ok _ _ Hs Hok) as [Hok1 He]. destruct (IH Hok1) as [? He']. split; [done|]. by etrans.
Qed.
Lemma reachable_ok g : reachable_gates g -> gates_ok g.
Proof.
  intros [agents Hr]. eapply gates_ok_rtc; [exact Hr|].
  split; [intros id a|intros id x v]; simpl; rewrite lookup_empty; done.
Qed.

(** ** Casting every ballot *)
Definition cast_all (id : uuid) (room : option uuid) (ballots : list (uuid * bool)) : gates unit :=
  for_each ballots (fun xb => suppress (_ ← cast_vote id xb.1 xb.2 None room; mret tt)).

Lemma for_each_suppress_cons {A} (m : A -> gates unit) x l g :
  (for_each (x :: l) (fun x => suppress (m x)) g).2 = (for_each l (fun x => suppress (m x)) (m x g).2).2.
Proof.
  simpl. unfold mbind at 1, prog_bind. destruct (suppress_inr (m x) g) as [g1 E].
  rewrite E. pose proof (suppress_state (m x) g) as Hs. rewrite E in Hs. simpl in Hs. by rewrite Hs.
Qed.

(** A gate still open after some ballots has recorded each of them. *)
Definition recorded (id : uuid) (xs : list uuid) (g : Gates) : Prop :=
  exists a, g_approvals g !! id = Some a /\
    (ap_state a = PENDING -> forall x, x ∈ xs -> x ∈ approver_set a -> is_Some (g_votes g !! (id, x))).

Lemma cast_vote_records id x b room g xs : gates_ok g -> recorded id xs g ->
  recorded id (x :: xs) (cast_vote id x b None room g).2.
Proof.
  intros Hok (a & Ha & Hrec). destruct (gk_row _ Hok _ _ Ha) as (Hid & _).
  destruct (cast_vote_step id x b None room g Hok) as [_ He].
  destruct (decide (ap_state a = PENDING /\ x ∈ approver_set a)) as [[Hp Hx]|Hno].
  - destruct (cast_vote_tables id x b None room g a Ha Hid Hp Hx) as (Hv & _ & _ & _).
    destruct (He _ _ Ha) as (a' & Ha' & Hev). exists a'. split; [done|]. intros Hp' y Hy Hya. rewrite Hv.
    destruct (decide (y = x)) as [->|Hne]; [by rewrite lookup_insert_eq|].
    rewrite lookup_insert_ne by congruence. apply elem_of_cons in Hy as [->|Hy]; [done|].
    apply Hrec; [done..|]. destruct Hev as [->|(_ & s & now & Hs & ->)]; [done|]. done.
  - rewrite cast_vote_rejected by naive_solver. exists a. split; [done|]. intros Hp y Hy Hya.
    apply elem_of_cons in Hy as [->|Hy]; [|by apply Hrec]. exfalso. by apply Hno.
Qed.

Lemma cast_all_records id room ballots g xs : gates_ok g -> recorded id xs g ->
  gates_ok (cast_all id room ballots g).2 /\ gates_evolve g (cast_all id room ballots g).2 /\
  recorded id (ballots.*1 ++ xs) (cast_all id room ballots g).2.
Proof.
  revert g xs. induction ballots as [|[x b] ballots IH]; intros g xs Hok Hrec; [by split_and!|].
  unfold cast_all. rewrite for_each_suppress_cons, bind_ret_state. simpl.
  destruct (cast_vote_step id x b None room g Hok) as [Hok1 He1].
  pose proof (cast_vote_records id x b room g xs Hok Hrec) as Hrec1.
  destruct (IH _ _ Hok1 Hrec1) as (Hok2 & He2 & a & Ha & Hr). split; [done|]. split; [by etrans|].
  exists a. split; [done|]. intros Hp y Hy. apply Hr; [done|]. set_solver.
Qed.

Lemma not_pending_closed g id a : gates_ok g -> g_approvals g !! id = Some a ->
  (forall x, x ∈ approver_agent_ids a -> is_Some (g_votes g !! (id, x))) -> ap_state a <> PENDING.
Proof.
  intros Hok Ha Hall Hp. destruct (gk_row _ Hok _ _ Ha) as (Hid & Hl & _ & Hrow).
  unfold row_ok in Hrow. rewrite Hp in Hrow. eapply tally_decides; [..|exact Hrow]; [|done|by rewrite Hid].
  intros x v. rewrite Hid. intros Hv. by destruct (gk_vote _ Hok _ _ _ Hv).
Qed.

(** ** The sets a gate's ballots form *)
Definition gate_yes (g : Gates) (a : Approval) : gset uuid := yes a (votes_of (ap_id a) (g_votes g)).
Definition gate_no (g : Gates) (a : Approval) : gset uuid := no a (votes_of (ap_id a) (g_votes g)).

Lemma gate_one_ballot g id : gates_ok g -> one_ballot_each (votes_of id (g_votes g)).
Proof. intros Hok. apply votes_of_one_ballot. intros x v Hv. by destruct (gk_vote _ Hok _ _ _ Hv). Qed.

Lemma gate_tally g id a : gates_ok g -> g_approvals g !! id = Some a ->
  tally a (g_votes g) = gate_spec a (gate_yes g a) (gate_no g a).
Proof.
  intros Hok Ha. destruct (gk_row _ Hok _ _ Ha) as (Hid & _). apply tally_spec.
  intros x v Hv. by destruct (gk_vote _ Hok _ _ _ Hv).
Qed.

Lemma leader_ballot a votes b : one_ballot_each votes -> leader_agent_id a ∈ approver_agent_ids a ->
  leader_vote a votes = Some b <-> leader_agent_id a ∈ ballots_with b a votes.
Proof.
  intros Hone Hl. rewrite elem_ballots_with. unfold leader_vote. split.
  - intros (v & E & Hb)%fmap_Some. apply last_Some in E as [l E].
    assert (Hv : v ∈ List.filter (fun v => bool_decide (voter_agent_id v = leader_agent_id a)) votes).
    { rewrite E. apply elem_of_app. right. apply list_elem_of_here. }
    apply elem_voter_filter in Hv as [Hv Hx]. exists v. split_and!; [done|done|by apply elem_of_list_to_set|congruence].
  - intros (v & Hv & Hx & _ & <-). by rewrite (last_ballot _ _ v).
Qed.

(** What an approved gate rests on. *)
Lemma approved_spec a ys ns : leader_agent_id a ∈ approver_agent_ids a ->
  ys ∪ ns ⊆ approver_set a -> ys ## ns -> gate_spec a ys ns = Some APPROVED ->
  leader_agent_id a ∈ ys \/ (ap_mode a = MAJORITY /\ (size (approver_set a) < 2 * size ys)%nat).
Proof.
  intros Hl Hs Hd. unfold gate_spec, leader_decides. destruct (ap_mode a).
  - destruct (decide (leader_agent_id a ∈ ys)); [by left|]. destruct (decide _); done.
  - destruct (size (approver_set a) <? size ys * 2)%nat eqn:E1; [intros _; right; split; [done|lia]|].
    intros Hspec. left. repeat case_match; done.
  - destruct (_ <? _)%nat eqn:E3; [done|]. destruct (decide (ns = ∅)) as [->|]; [|by destruct (decide _)].
    intros _. left. rewrite size_empty in E3. assert (E : ys = approver_set a).
    { apply leibniz_equiv, set_subseteq_size_equiv; [set_solver|lia]. }
    rewrite E. by apply elem_of_list_to_set.
Qed.

(** ** The order of effects *)
Definition log_extends (g g' : Gates) : Prop := exists l, g_log g' = g_log g ++ l.
#[export] Instance log_extends_preorder : PreOrder log_extends.
Proof.
  split; [intros g; exists []; by rewrite app_nil_r|].
  intros g1 g2 g3 [l1 E1] [l2 E2]. exists (l1 ++ l2). by rewrite E2, E1, app_assoc.
Qed.
Lemma external_log e g :
  (external e g).1 = inr tt /\ g_log (external e g).2 = g_log g ++ [e] \/
  (external e g).1 = inl Infra /\ g_log (external e g).2 = g_log g.
Proof. unfold external. destruct (g_faults g) as [|[] ?]; simpl; auto. Qed.
Lemma external_extends e : preserves log_extends (external e).
Proof.
  intros g. unfold log_extends. destruct (external_log e g) as [[_ ->]|[_ ->]]; [by exists [e]|exists []; by rewrite app_nil_r].
Qed.
#[export] Hint Resolve external_extends : progs.
Definition approver_jobs (a : Approval) (room : option uuid) : gates unit :=
  for_each (approver_agent_ids a) (fun approver =>
    suppress (_ ← external (E_push approver (ap_id a));
              external (E_job (J_drive approver (ap_id a) room 0) 0))).
Lemma approver_jobs_extends a room : preserves log_extends (approver_jobs a room).
Proof. unfold approver_jobs. walk; auto with progs. Qed.

(** An effect that is a call, followed by [k]: nothing logged, or the effect first. *)
Lemma external_then {A} e (k : gates A) g :
  ((_ ← external e; k) g).2 = (external e g).2 /\ (exists x, ((_ ← external e; k) g).1 = inl x) /\
    g_log (external e g).2 = g_log g \/
  (_ ← external e; k) g = k (external e g).2 /\ g_log (external e g).2 = g_log g ++ [e].
Proof.
  destruct (external_log e g) as [[E1 E2]|[E1 E2]]; [right|left]; unfold mbind, prog_bind;
    destruct (external e g) as [r g1]; simpl in *; subst r; simpl; eauto.
Qed.

Definition is_job (e : Effect) : Prop := match e with E_job _ _ => True | _ => False end.
Definition armed_first (a : Approval) (room : option uuid) (l : list Effect) : Prop :=
  exists pubs rest, l = pubs ++ rest /\ Forall (fun e => ~ is_job e) pubs /\
    (rest = [] \/ exists r, rest = E_job (J_timeout (ap_id a) room 0) (ap_timeout_seconds a) :: r).

Lemma notify_log a room g : exists l, g_log (notify_and_arm a room g).2 = g_log g ++ l /\
  (l = [] /\ (exists x, (notify_and_arm a room g).1 = inl x) \/
   exists r, l = E_job (J_timeout (ap_id a) room 0) (ap_timeout_seconds a) :: r).
Proof.
  unfold notify_and_arm. fold (approver_jobs a room).
  destruct (external_then (E_job (J_timeout (ap_id a) room 0) (ap_timeout_seconds a)) (approver_jobs a room) g)
    as [(-> & Hx & ->)|[-> E]].
  - exists []. rewrite app_nil_r. split; [done|]. by left.
  - destruct (approver_jobs_extends a room (external (E_job (J_timeout (ap_id a) room 0) (ap_timeout_seconds a)) g).2) as [l El].
    rewrite E in El. eexists. rewrite El, <- app_assoc. split; [reflexivity|]. right. by eexists.
Qed.

Lemma publish_to_log room e g : exists l, g_log (publish_to room e g).2 = g_log g ++ l /\ Forall (fun e => ~ is_job e) l.
Proof.
  destruct room as [r|]; simpl; [|exists []; by rewrite app_nil_r].
  destruct (external_log (E_publish (Room r) e) g) as [[_ ->]|[_ ->]].
  - exists [E_publish (Room r) e]. split; [done|]. repeat constructor. by intros [].
  - exists []. by rewrite app_nil_r.
Qed.

Lemma announce_log id room g a : g_approvals g !! id = Some a -> ap_state a = PENDING ->
  exists l, g_log (announce_gate id room g).2 = g_log g ++ l /\ armed_first a room l /\
    ((announce_gate id room g).1 = inr true -> E_job (J_timeout (ap_id a) room 0) (ap_timeout_seconds a) ∈ l).
Proof.
  intros Ha Hp.
  assert (E0 : announce_gate id room g = (_ ← publish_to room "approval.requested";
    _ ← external (E_publish (WorkflowRun (ap_workflow_run_id a)) "approval.requested");
    _ ← notify_and_arm a room; mret true) g).
  { unfold announce_gate, approval_get. rewrite bind_run. simpl. by rewrite Ha, bool_decide_eq_true_2. }
  rewrite E0, bind_run.
  destruct (publish_to_log room "approval.requested" g) as (l1 & E1 & F1).
  destruct (publish_to room "approval.requested" g) as [[e|[]] g1]; simpl in E1; simpl.
  { exists l1. split; [done|]. split; [|done]. exists l1, []. rewrite app_nil_r. auto. }
  match goal with |- context [(_ ← external ?e; ?k) g1] => destruct (external_then e k g1) as [(-> & [x ->] & ->)|[-> E2]] end.
  { exists l1. split; [done|]. split; [|done]. exists l1, []. rewrite app_nil_r. auto. }
  match type of E2 with g_log ?s = _ => set (g2 := s) in * end. rewrite E1 in E2.
  destruct (notify_log a room g2) as (l & El & Hl). rewrite bind_run.
  set (pub := E_publish _ _) in E2. exists (l1 ++ [pub] ++ l).
  assert (Hf : Forall (fun e => ~ is_job e) (l1 ++ [pub])) by (apply Forall_app; split; [done|]; repeat constructor; by intros []).
  rewrite E2, <- !app_assoc in El.
  destruct (notify_and_arm a room g2) as [[e|[]] g3]; simpl in *; (split; [exact El|]); split; try done.
  - exists (l1 ++ [pub]), l. split; [by rewrite <- app_assoc|]. split; [done|]. destruct Hl as [[-> _]|?]; auto.
  - exists (l1 ++ [pub]), l. split; [by rewrite <- app_assoc|]. split; [done|]. destruct Hl as [[-> _]|?]; auto.
  - intros _. destruct Hl as [[_ [x [=]]]|[r ->]]. set_solver.
Qed.

(** * Properties *)

(** Requests one after the other resolve a gate once, and truthfully ([ApprovalRace] has
    them run at the same time).  Along any sequence of creations,
    announcements, ballots and timeouts, with Redis failing at any call, a gate keeps
    its approvers, leader and deadline; once resolved its row never changes again.
    While it is open its ballots do not decide it; once it is closed its state is what
    its ballots decide, or its deadline passed while they did not. *)
Theorem serial_gate_resolved_once g g' id a
    (Hreach : reachable_gates g) (Hlater : rtc gstep g g') (Ha : g_approvals g !! id = Some a) :
  exists a', g_approvals g' !! id = Some a' /\ row_ok a' (g_votes g') /\
    (a' = a \/ (ap_state a = PENDING /\ exists s now, s <> PENDING /\ a' = resolved_row a s now)).
Proof.
  apply reachable_ok in Hreach. destruct (gates_ok_rtc _ _ Hlater Hreach) as [Hok He].
  destruct (He _ _ Ha) as (a' & Ha' & Hev). exists a'. split; [done|]. split; [|done].
  by destruct (gk_row _ Hok _ _ Ha') as (_ & _ & _ & ?).
Qed.

(** C5. The tally is the rule of the gate.  In whatever order the rows of the ballots
    come back, [_evaluate_votes] answers what the abstract rule says of the set of
    approvers who approve and the set of those who reject: the leader decides alone,
    a strict majority of all approvers decides with the leader breaking a tie, or all
    agree; ballots of others count for nothing. *)
Theorem tally_refines_rule a votes votes' (Hone : one_ballot_each votes) (Hperm : votes ≡ₚ votes') :
  evaluate_votes a votes' = gate_spec a (yes a votes) (no a votes).
Proof. rewrite <- (evaluate_perm a votes votes') by done. by apply evaluate_gate_spec. Qed.

(** An early verdict is final: once the ballots decide a gate, in any mode, no
    further ballots can decide it otherwise. *)
Theorem verdict_final a votes more s (Hone : one_ballot_each (votes ++ more))
    (Hdecided : evaluate_votes a votes = Some s) : evaluate_votes a (votes ++ more) = Some s.
Proof.
  eapply evaluate_mono; [done| | |exact Hdecided].
  - unfold one_ballot_each in *. rewrite fmap_app in Hone. by apply list.NoDup_app in Hone as (? & _).
  - intros v Hv. apply elem_of_app. by left.
Qed.

(** No gate stays open.  When every approver has cast a ballot, in any order, with
    re-votes and foreign ballots in between and Redis failing at any call, the gate is
    resolved; and when the deadline job runs, it is resolved whatever fails. *)
Theorem gate_resolves g id a room ballots attempt (Hreach : reachable_gates g)
    (Ha : g_approvals g !! id = Some a) :
  (approver_agent_ids a ⊆ ballots.*1 ->
     exists a', g_approvals (cast_all id room ballots g).2 !! id = Some a' /\ ap_state a' <> PENDING) /\
  (exists a', g_approvals (approval_timeout id room attempt g).2 !! id = Some a' /\ ap_state a' <> PENDING).
Proof.
  apply reachable_ok in Hreach as Hok. split.
  - intros Hall. destruct (cast_all_records id room ballots g [] Hok) as (Hok' & He & a' & Ha' & Hrec).
    { exists a. split; [done|]. intros _ x Hx. by apply elem_of_nil in Hx. }
    exists a'. split; [done|]. intros Hp. destruct (He _ _ Ha) as (a2 & Ha2 & Hev).
    rewrite Ha' in Ha2. injection Ha2 as <-. destruct Hev as [->|(_ & s & now & Hs & ->)]; [|done].
    eapply not_pending_closed; [exact Hok'|exact Ha'| |done]. intros x Hx.
    apply Hrec; [done| |by apply elem_of_list_to_set]. rewrite app_nil_r. by apply Hall.
  - destruct (timeout_task_tables id room attempt g) as (_ & _ & Ha1).
    destruct (timeout_tables id room g) as (_ & _ & Ha2). rewrite Ha2, Ha in Ha1.
    case_bool_decide as Hp; rewrite Ha1; [|by exists a]. rewrite lookup_insert_eq. by eexists.
Qed.

(** The run continues at [approved] only with the authority the gate asks for: the
    leader's own approval or, in majority mode, more than half of the approvers; after
    a timeout only the leader's. *)
Theorem approved_port_backed g id a (Hreach : reachable_gates g) (Ha : g_approvals g !! id = Some a)
    (Hport : approval_port a (votes_of id (g_votes g)) = "approved"%string) (Hclosed : ap_state a <> PENDING) :
  leader_agent_id a ∈ gate_yes g a \/
  (ap_mode a = MAJORITY /\ ap_state a = APPROVED /\ (size (approver_set a) < 2 * size (gate_yes g a))%nat).
Proof.
  apply reachable_ok in Hreach as Hok. destruct (gk_row _ Hok _ _ Ha) as (Hid & Hl & _ & Hrow).
  pose proof (gate_one_ballot g id Hok) as Hone.
  assert (Happ : ap_state a = APPROVED \/ leader_vote a (votes_of id (g_votes g)) = Some true).
  { unfold approval_port in Hport. destruct (ap_state a) eqn:Es; [done|by left|done|right].
    destruct (leader_vote a _) as [[]|]; done. }
  destruct Happ as [Es|Hlv].
  - unfold row_ok in Hrow. rewrite Es in Hrow. destruct Hrow as [Ht|[[=] _]].
    rewrite (gate_tally g id a Hok Ha) in Ht. eapply approved_spec in Ht; [destruct Ht as [?|[? ?]]; auto|done| |].
    + apply ballots_within.
    + apply ballots_disjoint. by rewrite Hid.
  - left. unfold gate_yes. rewrite Hid. by apply leader_ballot.
Qed.

(** The deadline is armed before anyone is asked to vote: whatever fails, an
    announcement queues no approver's turn before the timeout job of the gate, with the
    gate's own delay, and an announcement that reports success has queued it. *)
Theorem timeout_armed_first g id a room (Ha : g_approvals g !! id = Some a) (Hp : ap_state a = PENDING) :
  exists l, g_log (announce_gate id room g).2 = g_log g ++ l /\
    (forall l1 l2 agent r n d, l = l1 ++ E_job (J_drive agent id r n) d :: l2 ->
       E_job (J_timeout (ap_id a) room 0) (ap_timeout_seconds a) ∈ l1) /\
    ((announce_gate id room g).1 = inr true -> E_job (J_timeout (ap_id a) room 0) (ap_timeout_seconds a) ∈ l).
Proof.
  destruct (announce_log id room g a Ha Hp) as (l & E & (pubs & rest & -> & Hf & Hr) & Hok).
  exists (pubs ++ rest). split; [done|]. split; [|done]. intros l1 l2 agent r n d El.
  clear -Hf Hr El. revert l1 El. induction Hf as [|e pubs He _ IH]; simpl; intros l1 El.
  - destruct Hr as [->|[r' ->]]; [by destruct l1|]. destruct l1 as [|e l1]; [done|].
    injection El as <- _. apply list_elem_of_here.
  - destruct l1 as [|e' l1]; [injection El as -> _; by destruct He|].
    injection El as <- El. apply elem_of_cons. right. by eapply IH.
Qed.

(** * Witnesses and examples *)

Definition voter_agent (id : uuid) : Agent := mkAgent id 9 true [("can_approve"%string, VBool true)] [] false.
Definition sample_agents : gmap uuid Agent :=
  {[1%positive := voter_agent 1; 2%positive := voter_agent 2; 3%positive := voter_agent 3]}.
Definition sample_gate : ApprovalGateConfig := mkGateConfig MAJORITY [1; 2; 3]%positive 1 300 None.
Definition opened : Gates := (create_gate 7 "r1" sample_gate None (Some "gate"%string) (no_gates sample_agents)).2.
(** Two approvers of three approve; the leader is not waited for. *)
Definition one_ballot : Gates := (cast_vote 7 2 true None None opened).2.
Definition two_ballots : Gates := (cast_vote 7 3 true None None one_ballot).2.

Lemma opened_reachable : reachable_gates opened.
Proof. exists sample_agents. apply rtc_once. apply gs_create; reflexivity. Qed.
Lemma two_ballots_later : rtc gstep opened two_ballots.
Proof. eapply rtc_l; [apply gs_cast|]. apply rtc_once. apply gs_cast. Qed.
Lemma two_ballots_reachable : reachable_gates two_ballots.
Proof. destruct opened_reachable as [ag H]. exists ag. etrans; [exact H|exact two_ballots_later]. Qed.

Definition open_row : Approval := mkApproval 7 "r1" MAJORITY 1 [1; 2; 3]%positive 300 PENDING 0 None None.

Lemma serial_gate_resolved_once_witness :
  exists a', g_approvals two_ballots !! 7%positive = Some a' /\ row_ok a' (g_votes two_ballots) /\
    (a' = open_row \/ (ap_state open_row = PENDING /\ exists s now, s <> PENDING /\ a' = resolved_row open_row s now)).
Proof.
  apply (serial_gate_resolved_once opened two_ballots 7 open_row opened_reachable two_ballots_later). vm_compute. reflexivity.
Defined.

Definition ballot (x : uuid) (b : bool) : ApprovalVote := mkVote 7 x b None 0.
Lemma tally_refines_rule_witness :
  evaluate_votes open_row [ballot 3 true; ballot 2 true] =
    gate_spec open_row (yes open_row [ballot 2 true; ballot 3 true]) (no open_row [ballot 2 true; ballot 3 true]).
Proof.
  apply (tally_refines_rule open_row [ballot 2 true; ballot 3 true] [ballot 3 true; ballot 2 true]).
  - apply (bool_decide_unpack _). vm_compute. exact I.
  - apply Permutation_swap.
Defined.

Lemma verdict_final_witness :
  evaluate_votes open_row ([ballot 3 true; ballot 2 true] ++ [ballot 1 false]) = Some APPROVED.
Proof.
  apply verdict_final.
  - apply (bool_decide_unpack _). vm_compute. exact I.
  - vm_compute. reflexivity.
Defined.

Lemma gate_resolves_witness :
  ([1; 2; 3]%positive ⊆ [(3, true); (1, false); (9, true); (2, false)]%positive.*1 ->
     exists a', g_approvals (cast_all 7 None [(3, true); (1, false); (9, true); (2, false)]%positive opened).2 !! 7%positive
       = Some a' /\ ap_state a' <> PENDING) /\
  (exists a', g_approvals (approval_timeout 7 None 0 opened).2 !! 7%positive = Some a' /\ ap_state a' <> PENDING).
Proof.
  apply (gate_resolves opened 7 open_row None _ 0 opened_reachable). vm_compute. reflexivity.
Defined.

Lemma approved_port_backed_witness :
  leader_agent_id open_row ∈ gate_yes two_ballots (resolved_row open_row APPROVED 0) \/
  (MAJORITY = MAJORITY /\ APPROVED = APPROVED /\ (size (approver_set open_row) < 2 * size (gate_yes two_ballots (resolved_row open_row APPROVED 0)))%nat).
Proof.
  apply (approved_port_backed two_ballots 7 (resolved_row open_row APPROVED 0) two_ballots_reachable).
  - vm_compute. reflexivity.
  - vm_compute. reflexivity.
  - discriminate.
Defined.

Lemma timeout_armed_first_witness :
  exists l, g_log (announce_gate 7 None opened).2 = g_log opened ++ l /\
    (forall l1 l2 agent r n d, l = l1 ++ E_job (J_drive agent 7 r n) d :: l2 ->
       E_job (J_timeout 7 None 0) 300 ∈ l1) /\
    ((announce_gate 7 None opened).1 = inr true -> E_job (J_timeout 7 None 0) 300 ∈ l).
Proof. apply (timeout_armed_first opened 7 open_row None); vm_compute; reflexivity. Defined.

(** The deadline job commits the gate before it publishes; when the publication fails
    the run is not told, and no later delivery tells it. *)
Definition redis_down : Gates := mkGates (g_agents opened) (g_approvals opened) (g_votes opened) 0 [] [true].
Definition after_timeout : Gates := (approval_timeout 7 None 0 redis_down).2.
Definition resume_queued (g : Gates) : bool := bool_decide (E_job (J_resume 7 0) 0 ∈ g_log g).
Example timeout_publication_loses_resume :
  (ap_state <$> g_approvals after_timeout !! 7%positive) = Some TIMEOUT_LEADER /\
  resume_queued after_timeout = false /\
  (approval_timeout 7 None 0 after_timeout).1 = inr (timeout_state TIMEOUT_LEADER) /\
  resume_queued (approval_timeout 7 None 0 after_timeout).2 = false /\
  resume_queued (approval_timeout 7 None 0 opened).2 = true.
Proof. vm_compute. done. Qed.
