(* ===== verification/ApprovalRace.v ===== *)
(** * Ballots cast at the same time

    [cast_vote] and [handle_timeout] of [approval_service.py] as concurrent database
    sessions over one gate.  Sessions run at READ COMMITTED: a statement sees what
    others have committed and what its own transaction wrote; the compare-and-set on
    the gate's row waits for the transaction that holds the row, and an upsert of a
    ballot waits for an uncommitted ballot of the same voter.  Nothing locks the gate's
    row between the upsert and the compare-and-set.  [gate_resolved_once] says what
    survives this: a gate is resolved once, by what one tally saw or by its deadline;
    [session_is_cast_vote] and [session_is_handle_timeout] tie the sessions to the
    operations of [Approvals]; [race_loses_verdict] is what does not survive. *)

From stdpp Require Import sorting.
From S2P Require Import Prelude PyFloat PyValue WorkflowModels OrchBase Approvals ApprovalFacts.

(** Where a session stands.  A ballot's session has read the row as open, then written
    its ballot, then tallied, then tried the compare-and-set; [SHolds] has written the
    row and not committed. *)
Inductive Session :=
  | SRead (x : uuid) (b : bool)
  | SCast (x : uuid) (b : bool)
  | STallied (x : uuid) (b : bool) (d : option ApprovalState)
  | SHolds (ballot : option (uuid * bool)) (s : ApprovalState)
  | SLost (ballot : option (uuid * bool))
  | STimeout.

Record Race := mkRace {
  rc_state : ApprovalState;          (** committed *)
  rc_ballots : gmap uuid bool;       (** committed *)
  rc_sessions : gmap nat Session;
  rc_resolutions : list ApprovalState;  (** the commits that resolved the gate *)
}.

Definition pending_ballot (s : Session) : option uuid :=
  match s with
  | SCast x _ | STallied x _ _ => Some x
  | SHolds (Some (x, _)) _ | SLost (Some (x, _)) => Some x
  | _ => None
  end.
Definition holds_row (s : Session) : bool := match s with SHolds _ _ => true | _ => false end.

(** The rows a tally reads, as [list_for_approval] returns them. *)
Definition rows (ballots : gmap uuid bool) : list ApprovalVote :=
  (fun xb => mkVote 1 xb.1 xb.2 None 0) <$> map_to_list ballots.

Definition commit_ballot (ballot : option (uuid * bool)) (m : gmap uuid bool) : gmap uuid bool :=
  match ballot with Some (x, b) => <[x := b]> m | None => m end.

(** [update_state] once the row is free: the compare-and-set from [PENDING]. *)
Definition cas_update (r : Race) (ballot : option (uuid * bool)) (s : ApprovalState) : Session :=
  if bool_decide (rc_state r = PENDING) then SHolds ballot s else SLost ballot.

Section race.
Context (a : Approval).

Definition row_free (r : Race) : Prop := map_Forall (fun _ s => holds_row s = false) (rc_sessions r).

Definition put (i : nat) (s : Session) (r : Race) : Race :=
  mkRace (rc_state r) (rc_ballots r) (<[i := s]> (rc_sessions r)) (rc_resolutions r).

Inductive rstep : Race -> Race -> Prop :=
  | rs_read r i x b :  (** the checks of [cast_vote] *)
      rc_sessions r !! i = None -> rc_state r = PENDING -> x ∈ approver_set a ->
      rstep r (put i (SRead x b) r)
  | rs_cast r i x b :
      rc_sessions r !! i = Some (SRead x b) ->
      map_Forall (fun _ s => pending_ballot s <> Some x) (rc_sessions r) ->
      rstep r (put i (SCast x b) r)
  | rs_tally r i x b :
      rc_sessions r !! i = Some (SCast x b) ->
      rstep r (put i (STallied x b (evaluate_votes a (rows (<[x := b]> (rc_ballots r))))) r)
  | rs_undecided r i x b :
      rc_sessions r !! i = Some (STallied x b None) -> rstep r (put i (SLost (Some (x, b))) r)
  | rs_cas r i x b s :
      rc_sessions r !! i = Some (STallied x b (Some s)) -> row_free r ->
      rstep r (put i (cas_update r (Some (x, b)) s) r)
  | rs_commit r i ballot s :
      rc_sessions r !! i = Some (SHolds ballot s) ->
      rstep r (mkRace s (commit_ballot ballot (rc_ballots r)) (delete i (rc_sessions r)) (s :: rc_resolutions r))
  | rs_commit_lost r i ballot :
      rc_sessions r !! i = Some (SLost ballot) ->
      rstep r (mkRace (rc_state r) (commit_ballot ballot (rc_ballots r)) (delete i (rc_sessions r)) (rc_resolutions r))
  | rs_timeout r i :  (** the deadline job has read the row as open *)
      rc_sessions r !! i = None -> rc_state r = PENDING -> rstep r (put i STimeout r)
  | rs_timeout_cas r i :
      rc_sessions r !! i = Some STimeout -> row_free r ->
      rstep r (put i (cas_update r None TIMEOUT_LEADER) r)
  | rs_rollback r i s :
      rc_sessions r !! i = Some s ->
      rstep r (mkRace (rc_state r) (rc_ballots r) (delete i (rc_sessions r)) (rc_resolutions r)).

Definition race_start : Race := mkRace PENDING ∅ ∅ [].
Definition raced (r : Race) : Prop := rtc rstep race_start r.

(** * Facts *)

(** At most one session holds the row; while one does the gate is open; the resolutions
    are at most one, and are the state. *)
Record race_ok (r : Race) : Prop := {
  ro_one i j s t : rc_sessions r !! i = Some s -> rc_sessions r !! j = Some t ->
    holds_row s = true -> holds_row t = true -> i = j;
  ro_open i s : rc_sessions r !! i = Some s -> holds_row s = true -> rc_state r = PENDING;
  ro_holds i ballot s : rc_sessions r !! i = Some (SHolds ballot s) -> s <> PENDING;
  ro_tallied i x b s : rc_sessions r !! i = Some (STallied x b (Some s)) -> s <> PENDING;
  ro_state : (rc_state r = PENDING /\ rc_resolutions r = []) \/
    (rc_state r <> PENDING /\ rc_resolutions r = [rc_state r]);
}.

Lemma race_ok_put r i s : race_ok r ->
  (holds_row s = true -> row_free r /\ rc_state r = PENDING) ->
  (forall ballot t, s = SHolds ballot t -> t <> PENDING) ->
  (forall x b t, s = STallied x b (Some t) -> t <> PENDING) -> race_ok (put i s r).
Proof.
  intros [H1 H2 H3 H4 H5] Hs Hh Ht. split; simpl; [| | | |done].
  - intros j k u v [[<- <-]|[? Hj]]%lookup_insert_Some [[<- <-]|[? Hk]]%lookup_insert_Some Hu Hv; [done| | |by eapply H1].
    + destruct (Hs Hu) as [Hf _]. rewrite (Hf _ _ Hk) in Hv. done.
    + destruct (Hs Hv) as [Hf _]. rewrite (Hf _ _ Hj) in Hu. done.
  - intros j u [[<- <-]|[? Hj]]%lookup_insert_Some Hu; [by apply Hs|by eapply H2].
  - intros j bl u [[<- E]|[? Hj]]%lookup_insert_Some; [by eapply Hh|by eapply H3].
  - intros j x b u [[<- E]|[? Hj]]%lookup_insert_Some; [by eapply Ht|by eapply H4].
Qed.

Lemma race_ok_delete r i st ballots res : race_ok r ->
  (st = rc_state r /\ res = rc_resolutions r \/
   (exists ballot s, rc_sessions r !! i = Some (SHolds ballot s) /\ st = s /\ res = s :: rc_resolutions r)) ->
  race_ok (mkRace st ballots (delete i (rc_sessions r)) res).
Proof.
  intros [H1 H2 H3 H4 H5] Hst. split; simpl.
  - intros j k u v [_ Hj]%lookup_delete_Some [_ Hk]%lookup_delete_Some. by apply H1.
  - intros j u [Hne Hj]%lookup_delete_Some Hu. destruct Hst as [[-> _]|(bl & s & Hi & _ & _)]; [by eapply H2|].
    exfalso. apply Hne. by eapply H1.
  - intros j bl u [_ Hj]%lookup_delete_Some. by eapply H3.
  - intros j x b u [_ Hj]%lookup_delete_Some. by eapply H4.
  - destruct Hst as [[-> ->]|(bl & s & Hi & -> & ->)]; [done|]. right. split; [by eapply H3|].
    assert (Hp : rc_state r = PENDING) by (by eapply H2). destruct H5 as [[_ ->]|[? _]]; done.
Qed.

Lemma race_ok_step r r' : rstep r r' -> race_ok r -> race_ok r'.
Proof.
  destruct 1; intros Hok; try (apply race_ok_put; [done|done|done|]; naive_solver).
  - apply race_ok_put; [done|done|done|]. intros x' b' t [= _ _ Et] ->. by apply evaluate_not_pending in Et.
  - apply race_ok_put; [done|..]; unfold cas_update; case_bool_decide; try done.
    intros bl t [= _ <-]. by eapply (ro_tallied r Hok).
  - apply race_ok_delete; [done|]. right. eauto.
  - apply race_ok_delete; [done|]. by left.
  - apply race_ok_put; [done|..]; unfold cas_update; case_bool_decide; try done. by intros bl t [= _ <-].
  - apply race_ok_delete; [done|]. by left.
Qed.

Lemma raced_ok r : raced r -> race_ok r.
Proof.
  intros H. assert (Hind : forall r1 r2, rtc rstep r1 r2 -> race_ok r1 -> race_ok r2).
  { induction 1 as [|r1 r2 r3 Hs _ IH]; [done|]. intros Hok. by eapply IH, race_ok_step. }
  eapply Hind; [exact H|]. split; simpl; try (intros *; rewrite lookup_empty; done). by left.
Qed.
Lemma raced_later r r' : raced r -> rtc rstep r r' -> raced r'.
Proof. intros H1 H2. unfold raced. by etrans. Qed.
(** A closed gate stays as it is. *)
Lemma closed_step r r' : race_ok r -> rstep r r' -> rc_state r <> PENDING ->
  rc_state r' = rc_state r /\ rc_resolutions r' = rc_resolutions r.
Proof. intros Hok Hs Hne. destruct Hs; try done. exfalso. by eapply Hne, ro_open. Qed.
Lemma closed_forever r r' : race_ok r -> rtc rstep r r' -> rc_state r <> PENDING ->
  rc_state r' = rc_state r /\ rc_resolutions r' = rc_resolutions r.
Proof.
  intros Hok H. revert Hok. induction H as [r|r1 r2 r3 Hs _ IH]; intros Hok Hne; [done|].
  destruct (closed_step _ _ Hok Hs Hne) as [E1 E2]. rewrite <- E1, <- E2. apply IH; [by eapply race_ok_step|by rewrite E1].
Qed.

(** ** What a resolution rests on *)

(** At an earlier moment [x]'s session had written its ballot and tallied to [s]. *)
Definition tallied_at (r : Race) (x : uuid) (b : bool) (s : ApprovalState) (r0 : Race) : Prop :=
  raced r0 /\ rtc rstep r0 r /\ (exists i, rc_sessions r0 !! i = Some (SCast x b)) /\
  evaluate_votes a (rows (<[x := b]> (rc_ballots r0))) = Some s.
(** The gate was open when the deadline's job read it, or when a tally decided it. *)
Definition rests_on (r : Race) : Prop :=
  (rc_state r = TIMEOUT_LEADER /\ exists r0 i, raced r0 /\ rtc rstep r0 r /\ rc_sessions r0 !! i = Some STimeout /\ rc_state r0 = PENDING) \/
  exists r0 x b, tallied_at r x b (rc_state r) r0 /\ rc_state r0 = PENDING.

Definition session_backed (r : Race) (s : Session) : Prop :=
  match s with
  | STallied x b (Some s) | SHolds (Some (x, b)) s => exists r0, tallied_at r x b s r0
  | SHolds None s => s = TIMEOUT_LEADER /\ exists r0 i, raced r0 /\ rtc rstep r0 r /\ rc_sessions r0 !! i = Some STimeout /\ rc_state r0 = PENDING
  | STimeout => exists r0 i, raced r0 /\ rtc rstep r0 r /\ rc_sessions r0 !! i = Some STimeout /\ rc_state r0 = PENDING
  | _ => True
  end.
Definition backed (r : Race) : Prop := (forall i s, rc_sessions r !! i = Some s -> session_backed r s) /\ (rc_state r <> PENDING -> rests_on r).

Lemma session_backed_later r r' s : rstep r r' -> session_backed r s -> session_backed r' s.
Proof.
  intros Hs. assert (forall r0, rtc rstep r0 r -> rtc rstep r0 r') as Hl by (intros r0 H; by eapply rtc_r).
  destruct s as [x b|x b|x b [s|]|[[x b]|] s|bl|]; simpl; try done; unfold tallied_at; naive_solver.
Qed.
Lemma rests_on_later r r' : rstep r r' -> rc_state r' = rc_state r -> rests_on r -> rests_on r'.
Proof.
  intros Hs Es. assert (forall r0, rtc rstep r0 r -> rtc rstep r0 r') as Hl by (intros r0 H; by eapply rtc_r).
  unfold rests_on, tallied_at. rewrite Es. intros [(E & r0 & j & ? & ? & ?)|(r0 & x & b & (? & ? & ?) & ?)].
  - left. split; [done|]. exists r0, j. naive_solver.
  - right. exists r0, x, b. naive_solver.
Qed.
Lemma backed_keep r r' : backed r -> rstep r r' -> rc_state r' = rc_state r ->
  (forall i s, rc_sessions r' !! i = Some s -> rc_sessions r !! i = Some s \/ session_backed r' s) -> backed r'.
Proof.
  intros [Hb Hc] Hs Es Hse. split; [|rewrite Es; intros Hne; by eapply rests_on_later, Hc].
  intros i s [Hi|Hi]%Hse; [|done]. by eapply session_backed_later, Hb.
Qed.
Lemma backed_put r i s : backed r -> rstep r (put i s r) -> session_backed (put i s r) s -> backed (put i s r).
Proof. intros Hb Hs Hi. eapply backed_keep; [done..|]. simpl. intros j t [[<- <-]|[_ Hj]]%lookup_insert_Some; auto. Qed.
Lemma backed_drop r i ballots : backed r -> rstep r (mkRace (rc_state r) ballots (delete i (rc_sessions r)) (rc_resolutions r)) ->
  backed (mkRace (rc_state r) ballots (delete i (rc_sessions r)) (rc_resolutions r)).
Proof. intros Hb Hs. eapply backed_keep; [done..|]. simpl. intros j t [_ Hj]%lookup_delete_Some. auto. Qed.
Lemma open_before r r0 : raced r0 -> rtc rstep r0 r -> rc_state r = PENDING -> rc_state r0 = PENDING.
Proof.
  intros H0 Hl Hp. destruct (decide (rc_state r0 = PENDING)) as [|Hne]; [done|].
  destruct (closed_forever _ _ (raced_ok _ H0) Hl Hne) as [E _]. congruence.
Qed.
Lemma backed_step r r' : raced r -> rstep r r' -> backed r -> backed r'.
Proof.
  intros Hr Hs Hb. pose proof (raced_ok _ Hr) as Hok. pose proof (rtc_r _ _ _ Hr Hs) as Hr'.
  assert (forall r0, rtc rstep r0 r -> rtc rstep r0 r') as Hl by (intros r0 H; by eapply rtc_r).
  pose proof Hs as Hs'. destruct Hs as [r i x b|r i x b|r i x b Hi|r i x b|r i x b s Hi Hf|r i ballot s Hi|r i ballot Hi|r i Hn Hp|r i Hi Hf|r i s Hi];
    try (by apply backed_put); try (by apply backed_drop).
  - apply backed_put; [done..|]. simpl. destruct (evaluate_votes a _) as [s|] eqn:Ee; [|done].
    exists r. split_and!; [done|by apply rtc_once|by eexists|done].
  - apply backed_put; [done..|]. pose proof (proj1 Hb _ _ Hi) as Ht. unfold cas_update in *. case_bool_decide; [|done].
    simpl in Ht |- *. unfold tallied_at in *. naive_solver.
  - pose proof (proj1 Hb _ _ Hi) as Ht. pose proof (ro_open _ Hok _ _ Hi eq_refl) as Hp. split.
    + simpl. intros j t [_ Hj]%lookup_delete_Some. eapply session_backed_later; [exact Hs'|by eapply Hb].
    + intros _. destruct ballot as [[x b]|]; simpl in Ht.
      * right. destruct Ht as (r0 & H1 & H2 & H3 & H4). exists r0, x, b. split; [split_and!; [done|by apply Hl|done..]|by eapply open_before].
      * left. destruct Ht as (-> & r0 & j & ? & ? & ?). split; [done|]. exists r0, j. naive_solver.
  - apply backed_put; [done..|]. simpl. eexists (put i STimeout r), i. split_and!; [done|apply rtc_refl|apply lookup_insert_eq|done].
  - apply backed_put; [done..|]. pose proof (proj1 Hb _ _ Hi) as Ht. unfold cas_update in *. case_bool_decide; [|done].
    simpl in Ht |- *. split; [done|]. naive_solver.
Qed.
Lemma raced_backed r : raced r -> backed r.
Proof.
  revert r. refine (rtc_ind_r backed _ _ _); [split; [|done]|intros r r' Hr Hs; by apply backed_step].
  intros i s. simpl. by rewrite lookup_empty.
Qed.

(** ** Ballots one at a time *)

(** No two sessions have an uncommitted ballot. *)
Definition solo (r : Race) : Prop := forall i j s t, rc_sessions r !! i = Some s -> rc_sessions r !! j = Some t ->
  is_Some (pending_ballot s) -> is_Some (pending_ballot t) -> i = j.
Definition solo_step (r r' : Race) : Prop := rstep r r' /\ solo r'.
(** An open gate is undecided, and a tally is up to date. *)
Record current (r : Race) : Prop := {
  cu_open : evaluate_votes a (rows (rc_ballots r)) = None;
  cu_tally i x b d : rc_sessions r !! i = Some (STallied x b d) -> d = evaluate_votes a (rows (<[x := b]> (rc_ballots r)));
  cu_lost i x b : rc_sessions r !! i = Some (SLost (Some (x, b))) -> evaluate_votes a (rows (<[x := b]> (rc_ballots r))) = None;
}.
Lemma current_put r i s : current r -> 
  (forall x b d, s = STallied x b d -> d = evaluate_votes a (rows (<[x := b]> (rc_ballots r)))) ->
  (forall x b, s = SLost (Some (x, b)) -> evaluate_votes a (rows (<[x := b]> (rc_ballots r))) = None) -> current (put i s r).
Proof.
  intros [H1 H2 H3] Ht Hl. split; simpl; [done| |].
  - intros j x b d [[<- E]|[_ Hj]]%lookup_insert_Some; [by apply Ht|by eapply H2].
  - intros j x b [[<- E]|[_ Hj]]%lookup_insert_Some; [by apply Hl|by eapply H3].
Qed.
Lemma current_drop r i st res : current r -> current (mkRace st (rc_ballots r) (delete i (rc_sessions r)) res).
Proof.
  intros [H1 H2 H3]. split; simpl; [done| |].
  - intros j x b d [_ Hj]%lookup_delete_Some. by eapply H2.
  - intros j x b [_ Hj]%lookup_delete_Some. by eapply H3.
Qed.
Lemma current_step r r' : race_ok r -> solo r -> rstep r r' -> (rc_state r = PENDING -> current r) -> rc_state r' = PENDING -> current r'.
Proof.
  intros Hok Hso Hs Hc. destruct Hs as [r i x b|r i x b|r i x b Hi|r i x b Hi|r i x b s Hi Hf|r i ballot s Hi|r i ballot Hi|r i Hn Hp|r i Hi Hf|r i s Hi];
    simpl; intros Hp'; try (apply current_put; [by apply Hc|done|done]); try (by apply current_drop, Hc).
  - apply current_put; [by apply Hc| |done]. by intros x' b' d [= <- <- <-].
  - apply current_put; [by apply Hc|done|]. intros x' b' [= <- <-]. symmetry. by apply (cu_tally r (Hc Hp') i).
  - apply current_put; [by apply Hc|..]; unfold cas_update; by rewrite bool_decide_eq_true_2.
  - exfalso. by eapply ro_holds.
  - specialize (Hc Hp'). destruct ballot as [[x b]|]; [|by apply current_drop]. split; simpl; [by eapply cu_lost| |].
    + intros j x' b' d [Hne Hj]%lookup_delete_Some. exfalso. by apply Hne, (Hso i j _ _ Hi Hj).
    + intros j x' b' [Hne Hj]%lookup_delete_Some. exfalso. by apply Hne, (Hso i j _ _ Hi Hj).
  - apply current_put; [by apply Hc|..]; unfold cas_update; by rewrite bool_decide_eq_true_2.
Qed.
Lemma solo_current r : leader_agent_id a ∈ approver_agent_ids a -> rtc solo_step race_start r -> rc_state r = PENDING -> current r.
Proof.
  intros Hl H. enough (raced r /\ solo r /\ (rc_state r = PENDING -> current r)) as (_ & _ & Hc) by done. revert r H.
  refine (rtc_ind_r (fun r => raced r /\ solo r /\ (rc_state r = PENDING -> current r)) _ _ _); [|intros r r' _ [Hs Hso] (Hr & Hsr & Hc)].
  - split; [apply rtc_refl|]. split; [intros i j s t; simpl; by rewrite lookup_empty|]. intros _. split; simpl.
    + unfold rows. rewrite map_to_list_empty. by apply evaluate_no_ballots.
    + intros i x b d. by rewrite lookup_empty.
    + intros i x b. by rewrite lookup_empty.
  - split; [by eapply rtc_r|]. split; [done|]. eapply current_step; [by apply raced_ok|done..].
Qed.
End race.

(** ** A session alone does what [Approvals] says *)

(** The gate of [id] in the service's tables. *)
Definition abstracts (g : Gates) (id : uuid) (r : Race) : Prop :=
  (exists a, g_approvals g !! id = Some a /\ ap_state a = rc_state r) /\
  (forall x, v_vote <$> g_votes g !! (id, x) = rc_ballots r !! x) /\ rc_sessions r = ∅.

Lemma rows_one_ballot m : one_ballot_each (rows m).
Proof.
  unfold one_ballot_each, rows. rewrite <- list_fmap_compose. apply (NoDup_fst_map_to_list m).
Qed.
Lemma elem_rows m v : v ∈ rows m <-> exists x b, m !! x = Some b /\ v = mkVote 1 x b None 0.
Proof.
  unfold rows. rewrite list_elem_of_fmap. split.
  - intros ([x b] & -> & H%elem_of_map_to_list). by exists x, b.
  - intros (x & b & H & ->). exists (x, b). split; [done|]. by apply elem_of_map_to_list.
Qed.
Lemma rows_ballots b a m votes id : (forall x v, votes !! (id, x) = Some v -> voter_agent_id v = x) ->
  (forall x, v_vote <$> votes !! (id, x) = m !! x) -> ballots_with b a (rows m) = ballots_with b a (votes_of id votes).
Proof.
  intros Hkey Hm. apply leibniz_equiv. intros x. rewrite !elem_ballots_with. split.
  - intros (v & (y & c & Hy & ->)%elem_rows & <- & Hx & <-). simpl in *. rewrite <- Hm in Hy. apply fmap_Some in Hy as (v & Hv & ->).
    exists v. split_and!; [apply elem_votes_of; eauto|by eapply Hkey|done|done].
  - intros (v & [y Hv]%elem_votes_of & <- & Hx & <-). rewrite (Hkey _ _ Hv) in *. exists (mkVote 1 y (v_vote v) None 0).
    split_and!; [|done..]. apply elem_rows. exists y, (v_vote v). split; [|done]. by rewrite <- Hm, Hv.
Qed.
Lemma rows_tally a m votes : (forall x v, votes !! (ap_id a, x) = Some v -> voter_agent_id v = x) ->
  (forall x, v_vote <$> votes !! (ap_id a, x) = m !! x) -> tally a votes = evaluate_votes a (rows m).
Proof.
  intros Hkey Hm. rewrite tally_spec by done. rewrite evaluate_gate_spec by apply rows_one_ballot.
  by rewrite !(rows_ballots _ a m votes (ap_id a)).
Qed.

(** A ballot's session from the reading of the row to the commit, with no other around,
    leaves the tables as [cast_vote] does. *)
Theorem session_is_cast_vote g id a x b rationale room r : gates_ok g -> g_approvals g !! id = Some a ->
  abstracts g id r -> ap_state a = PENDING -> x ∈ approver_set a ->
  exists r', rtc (rstep a) r r' /\ abstracts (cast_vote id x b rationale room g).2 id r'.
Proof.
  intros Hok Ha ((a' & Ha' & Hst) & Hm & Hs) Hp Hx. rewrite Ha in Ha'. injection Ha' as <-.
  destruct (gk_row _ Hok _ _ Ha) as (Hid & _). pose proof (cast_vote_tables id x b rationale room g a Ha Hid Hp Hx) as (Hv & _ & Hap & _).
  set (v := mkVote id x b rationale (g_now g)) in *. set (votes := <[(id, x) := v]> (g_votes g)) in *. set (g' := (cast_vote _ _ _ _ _ g).2) in *.
  assert (Hm' : forall y, v_vote <$> votes !! (id, y) = <[x := b]> (rc_ballots r) !! y).
  { intros y. unfold votes. destruct (decide (x = y)) as [->|Hne]; [by rewrite !lookup_insert_eq|]. rewrite !lookup_insert_ne by congruence. apply Hm. }
  assert (Ht : tally a votes = evaluate_votes a (rows (<[x := b]> (rc_ballots r)))).
  { apply rows_tally; rewrite Hid; [|done]. intros y w. unfold votes. destruct (decide (x = y)) as [->|Hne]; [rewrite lookup_insert_eq; by intros [= <-]|].
    rewrite lookup_insert_ne by congruence. intros Hw. by destruct (gk_vote _ Hok _ _ _ Hw). }
  destruct r as [st m ss res]. simpl in *. subst st ss. rewrite Hp in *. rewrite Ht in Hap. rewrite <- Hv in Hm'.
  set (r := mkRace PENDING m ∅ res).
  assert (rtc (rstep a) r (put 0 (STallied x b (evaluate_votes a (rows (<[x := b]> m)))) (put 0 (SCast x b) (put 0 (SRead x b) r)))) as H3.
  { eapply rtc_l; [apply (rs_read a _ 0%nat x b); done|].
    eapply rtc_l; [apply (rs_cast a _ 0%nat x b); [apply lookup_insert_eq|]|].
    { intros j s. simpl. intros [[<- <-]|[_ Hj]]%lookup_insert_Some; [done|]. by rewrite lookup_empty in Hj. }
    apply rtc_once. apply (rs_tally a (put 0 (SCast x b) (put 0 (SRead x b) r)) 0%nat x b). apply lookup_insert_eq. }
  simpl in H3. destruct (evaluate_votes a _) as [s|] eqn:Ee.
  - eexists. split.
    + etrans; [exact H3|]. eapply rtc_l; [apply (rs_cas a _ 0%nat x b s); [apply lookup_insert_eq|]|].
      { intros j t. simpl. rewrite !insert_insert_eq. intros [[<- <-]|[_ Hj]]%lookup_insert_Some; [done|]. by rewrite lookup_empty in Hj. }
      apply rtc_once. eapply (rs_commit a _ 0%nat (Some (x, b)) s). apply lookup_insert_eq.
    + split; [|split; [done|]]; simpl; [|by rewrite !insert_insert_eq].
      rewrite Hap, lookup_insert_eq. by eexists.
  - eexists. split.
    + etrans; [exact H3|]. eapply rtc_l; [apply (rs_undecided a _ 0%nat x b); apply lookup_insert_eq|].
      apply rtc_once. eapply (rs_commit_lost a _ 0%nat (Some (x, b))). apply lookup_insert_eq.
    + split; [|split; [done|]]; simpl; [|by rewrite !insert_insert_eq]. rewrite Hap. by exists a.
Qed.
(** So does the deadline's. *)
Theorem session_is_handle_timeout g id a room r : g_approvals g !! id = Some a -> abstracts g id r -> ap_state a = PENDING ->
  exists r', rtc (rstep a) r r' /\ abstracts (handle_timeout id room g).2 id r'.
Proof.
  intros Ha ((a' & Ha' & Hst) & Hm & Hs) Hp. rewrite Ha in Ha'. injection Ha' as <-.
  pose proof (timeout_tables id room g) as (Hv & _ & Hap). rewrite Ha, bool_decide_eq_true_2 in Hap by done.
  destruct r as [st m ss res]. simpl in *. subst st ss. rewrite Hp in *. eexists. split.
  - eapply rtc_l; [apply (rs_timeout a _ 0%nat); done|].
    eapply rtc_l; [apply (rs_timeout_cas a _ 0%nat); [apply lookup_insert_eq|]|].
    { intros j t. simpl. intros [[<- <-]|[_ Hj]]%lookup_insert_Some; [done|]. by rewrite lookup_empty in Hj. }
    apply rtc_once. eapply (rs_commit a _ 0%nat None TIMEOUT_LEADER). apply lookup_insert_eq.
  - split; [|split]; simpl; [|by rewrite Hv|by rewrite !insert_insert_eq]. rewrite Hap, lookup_insert_eq. by eexists.
Qed.

(** * Properties *)

(** C4. A gate is resolved once, and on what somebody saw.  Its ballots and its deadline
    are database sessions that interleave statement by statement at READ COMMITTED, any
    of them rolling back at any time: at most one of them ever resolves the gate, and
    once one has, its state never changes.  A closed gate was closed by the job of its
    deadline, which had read it as open, or by a voter's session whose tally, over the
    ballots committed by then and its own, gave that state while the gate was open.  As
    long as no two sessions have uncommitted ballots at the same time, no verdict is
    missed either: an open gate is not decided by its ballots.  Of ballots that do
    overlap this is not claimed, since a tally does not see the other's
    ([race_loses_verdict]). *)
Theorem gate_resolved_once a r r' (Hraced : raced a r) (Hlater : rtc (rstep a) r r') :
  (length (rc_resolutions r') <= 1)%nat /\
  (rc_state r <> PENDING -> rc_state r' = rc_state r /\ rc_resolutions r' = rc_resolutions r) /\
  (rc_state r' <> PENDING ->
     (rc_state r' = TIMEOUT_LEADER /\ exists r0 i, raced a r0 /\ rtc (rstep a) r0 r' /\ rc_sessions r0 !! i = Some STimeout /\ rc_state r0 = PENDING) \/
     exists r0 i x b, raced a r0 /\ rtc (rstep a) r0 r' /\ rc_state r0 = PENDING /\ rc_sessions r0 !! i = Some (SCast x b) /\
       evaluate_votes a (rows (<[x := b]> (rc_ballots r0))) = Some (rc_state r')) /\
  (leader_agent_id a ∈ approver_agent_ids a -> rtc (solo_step a) race_start r -> rc_state r = PENDING ->
     evaluate_votes a (rows (rc_ballots r)) = None).
Proof.
  pose proof (raced_later a _ _ Hraced Hlater) as Hraced'. pose proof (raced_ok a _ Hraced') as Hok. split_and!.
  - destruct (ro_state r' Hok) as [[_ ->]|[_ ->]]; simpl; lia.
  - intros Hne. apply (closed_forever a); [by apply (raced_ok a)|done|done].
  - intros Hne. destruct (proj2 (raced_backed a _ Hraced') Hne) as [H|(r0 & x & b & (H1 & H2 & [i H3] & H4) & H5)]; [by left|].
    right. by exists r0, i, x, b.
  - intros Hl Hso Hp. by apply (cu_open a), solo_current.
Qed.

(** Three approvers, the leader against. *)
Definition contested : Approval := mkApproval 1 "r1" MAJORITY 1 [1; 2; 3]%positive 300 PENDING 0 None None.
Definition all_in : gmap uuid bool := {[1%positive := false; 2%positive := true; 3%positive := true]}.

Ltac race_step := first [ vm_compute; reflexivity | apply (bool_decide_unpack _); vm_compute; exact I ].

(** Ballots cast at the same time can be counted by nobody.  Three sessions each
    tally before the others commit, each sees one ballot and leaves the gate alone:
    every ballot is recorded, no session is left, two of three approve, and the gate is
    still open.  It waits for its deadline, which then follows the leader and rejects. *)
Theorem race_loses_verdict :
  exists r, raced contested r /\ rc_sessions r = ∅ /\ rc_ballots r = all_in /\ rc_state r = PENDING /\
    evaluate_votes contested (rows (rc_ballots r)) = Some APPROVED /\
    approval_port (with_state TIMEOUT_LEADER None contested) (rows (rc_ballots r)) = "rejected"%string.
Proof.
  eexists. split.
  { eapply rtc_l; [apply (rs_read contested _ 0%nat 1%positive false); race_step|].
    eapply rtc_l; [apply (rs_read contested _ 1%nat 2%positive true); race_step|].
    eapply rtc_l; [apply (rs_read contested _ 2%nat 3%positive true); race_step|].
    eapply rtc_l; [apply (rs_cast contested _ 0%nat 1%positive false); race_step|].
    eapply rtc_l; [apply (rs_cast contested _ 1%nat 2%positive true); race_step|].
    eapply rtc_l; [apply (rs_cast contested _ 2%nat 3%positive true); race_step|].
    eapply rtc_l; [apply (rs_tally contested _ 0%nat 1%positive false); race_step|].
    eapply rtc_l; [apply (rs_tally contested _ 1%nat 2%positive true); race_step|].
    eapply rtc_l; [apply (rs_tally contested _ 2%nat 3%positive true); race_step|].
    eapply rtc_l; [apply (rs_undecided contested _ 0%nat 1%positive false); race_step|].
    eapply rtc_l; [apply (rs_undecided contested _ 1%nat 2%positive true); race_step|].
    eapply rtc_l; [apply (rs_undecided contested _ 2%nat 3%positive true); race_step|].
    eapply rtc_l; [apply (rs_commit_lost contested _ 0%nat (Some (1%positive, false))); race_step|].
    eapply rtc_l; [apply (rs_commit_lost contested _ 1%nat (Some (2%positive, true))); race_step|].
    eapply rtc_l; [apply (rs_commit_lost contested _ 2%nat (Some (3%positive, true))); race_step|].
    apply rtc_refl. }
  vm_compute. done.
Qed.

(** * Witness *)

(** Two approvers agree, one after the other; the deadline's job comes too late. *)
Definition two_yes : gmap uuid bool := {[2%positive := true; 3%positive := true]}.
Definition decided : Race := mkRace APPROVED two_yes {[7%nat := STimeout]} [APPROVED].
Definition one_yes : Race := mkRace PENDING {[2%positive := true]} ∅ [].
Lemma one_yes_raced : rtc (rstep contested) race_start one_yes.
Proof.
  eapply rtc_l; [apply (rs_read contested _ 0%nat 2%positive true); race_step|].
  eapply rtc_l; [apply (rs_cast contested _ 0%nat 2%positive true); race_step|].
  eapply rtc_l; [apply (rs_tally contested _ 0%nat 2%positive true); race_step|].
  eapply rtc_l; [apply (rs_undecided contested _ 0%nat 2%positive true); race_step|].
  eapply rtc_l; [apply (rs_commit_lost contested _ 0%nat (Some (2%positive, true))); race_step|]. apply rtc_refl.
Qed.
Lemma decided_later : rtc (rstep contested) one_yes decided.
Proof.
  eapply rtc_l; [apply (rs_timeout contested _ 7%nat); race_step|].
  eapply rtc_l; [apply (rs_read contested _ 1%nat 3%positive true); race_step|].
  eapply rtc_l; [apply (rs_cast contested _ 1%nat 3%positive true); race_step|].
  eapply rtc_l; [apply (rs_tally contested _ 1%nat 3%positive true); race_step|].
  eapply rtc_l; [apply (rs_cas contested _ 1%nat 3%positive true APPROVED); race_step|].
  eapply rtc_l; [apply (rs_commit contested _ 1%nat (Some (3%positive, true)) APPROVED); race_step|]. apply rtc_refl.
Qed.
Lemma gate_resolved_once_witness :
  (length (rc_resolutions decided) <= 1)%nat /\
  exists r0 i x b, raced contested r0 /\ rtc (rstep contested) r0 decided /\ rc_state r0 = PENDING /\ rc_sessions r0 !! i = Some (SCast x b) /\
    evaluate_votes contested (rows (<[x := b]> (rc_ballots r0))) = Some APPROVED.
Proof.
  destruct (gate_resolved_once contested one_yes decided one_yes_raced decided_later) as (H1 & _ & H & _). split; [exact H1|].
  destruct H as [[E _]|H]; [discriminate|discriminate E|exact H].
Defined.
