(* ===== verification/Wakeup.v ===== *)
(** * Wake-up configuration

    The wake-up part of [contexts/orchestration/domain/models.py] (the designer's
    configuration of an agent, read from and written to JSON) and
    [domain/room_wakeup.py] (three layers resolved into the effective configuration of
    one room binding).  JSON values are [pyval]; the stored documents hold only plain
    JSON. *)

From S2P Require Import Prelude PyFloat PyValue.

Definition AUTOSTOP_HARD_CAP : Z := 100.
Definition N_MIN : Z := 1.
Definition N_MAX : Z := 1000.
Definition T_MINUTES_MIN : Z := 1.
Definition T_MINUTES_MAX : Z := 1440.

Definition clamp (value minimum maximum : Z) : Z := Z.max minimum (Z.min maximum value).
Definition default_below_one (value dflt : Z) (maximum : option Z) : Z :=
  if value <? 1 then dflt else match maximum with Some m => Z.min value m | None => value end.

(** [is_plain_int]: an [int] that is not a [bool]. *)
Definition plain_int (v : pyval) : option Z := match v with VInt n => Some n | _ => None end.

Definition tolerant_int (v : pyval) : Z := default 0 (plain_int v).
Definition tolerant_soft_bound (v : pyval) (minimum maximum : Z) : option Z :=
  (fun n => clamp n minimum maximum) <$> plain_int v.
Definition tolerant_dict (v : pyval) : pydict := match v with VDict d => d | _ => [] end.
Definition tolerant_bool (v : pyval) : bool := match v with VBool b => b | _ => false end.

Inductive CountMode := COUNT_ALL | COUNT_HUMAN.
#[export] Instance CountMode_eq_dec : EqDecision CountMode.
Proof. solve_decision. Defined.
Definition CountMode_value (c : CountMode) : string :=
  match c with COUNT_ALL => "all" | COUNT_HUMAN => "human" end.
Definition tolerant_count (v : pyval) : CountMode :=
  if py_eq v (VStr "human") then COUNT_HUMAN else COUNT_ALL.

(** The triggers an agent may be allowed to switch itself; a [frozenset] of them is a
    flag for each. *)
Record SelfToggle := mkToggle { t_every_n_messages : bool; t_silence_minutes : bool }.
#[export] Instance SelfToggle_eq_dec : EqDecision SelfToggle.
Proof. solve_decision. Defined.
Definition py_in (v : pyval) (l : list pyval) : bool := existsb (py_eq v) l.
Definition tolerant_toggles (v : pyval) : SelfToggle :=
  match v with
  | VList l => mkToggle (py_in (VStr "every_n_messages") l) (py_in (VStr "silence_minutes") l)
  | _ => mkToggle false false
  end.
(** [sorted(self.self_toggle)] *)
Definition sorted_toggles (t : SelfToggle) : list pyval :=
  (if t_every_n_messages t then [VStr "every_n_messages"] else []) ++
  (if t_silence_minutes t then [VStr "silence_minutes"] else []).

(** ** The configuration *)

Record EveryNMessagesTrigger := mkEveryN { en_enabled : bool; en_n : Z; en_count : CountMode }.
Record SilenceMinutesTrigger := mkSilence {
  sm_enabled : bool;
  sm_t_minutes : Z;
  sm_autostop_rounds : Z;
  sm_autostop_max_default : Z;
  sm_observer_autostop_rounds : Z;
}.
Record WakeupTriggers := mkTriggers {
  every_n_messages : EveryNMessagesTrigger;
  silence_minutes : SilenceMinutesTrigger;
  call_only : bool;
  on_join : bool;
  class_start : bool;
}.
Record WakeupSoftBounds := mkSoft {
  sb_n_min : option Z;
  sb_n_max : option Z;
  sb_t_minutes_min : option Z;
  sb_t_minutes_max : option Z;
}.
Record WakeupConfig := mkWakeup {
  triggers : WakeupTriggers;
  allow_self_open : bool;
  refresh_every_hours : Z;
  soft_bounds : option WakeupSoftBounds;
  self_toggle : SelfToggle;
}.

#[export] Instance EveryN_eq_dec : EqDecision EveryNMessagesTrigger.
Proof. solve_decision. Defined.
#[export] Instance Silence_eq_dec : EqDecision SilenceMinutesTrigger.
Proof. solve_decision. Defined.
#[export] Instance Triggers_eq_dec : EqDecision WakeupTriggers.
Proof. solve_decision. Defined.
#[export] Instance SoftBounds_eq_dec : EqDecision WakeupSoftBounds.
Proof. solve_decision. Defined.
#[export] Instance WakeupConfig_eq_dec : EqDecision WakeupConfig.
Proof. solve_decision. Defined.

Definition autostop_limit_for (s : SilenceMinutesTrigger) (is_observer : bool) : Z :=
  if is_observer then sm_observer_autostop_rounds s else sm_autostop_rounds s.

(** The dataclass defaults. *)
Definition default_config : WakeupConfig :=
  mkWakeup (mkTriggers (mkEveryN false 3 COUNT_ALL) (mkSilence false 2 5 100 50) false false false)
    false 24 None (mkToggle false false).

Definition soft_from_dict (v : pyval) : option WakeupSoftBounds :=
  match v with
  | VDict d =>
      Some (mkSoft (tolerant_soft_bound (dict_get_none "n_min" d) N_MIN N_MAX)
                   (tolerant_soft_bound (dict_get_none "n_max" d) N_MIN N_MAX)
                   (tolerant_soft_bound (dict_get_none "t_minutes_min" d) T_MINUTES_MIN T_MINUTES_MAX)
                   (tolerant_soft_bound (dict_get_none "t_minutes_max" d) T_MINUTES_MIN T_MINUTES_MAX))
  | _ => None
  end.

Definition get_bool (k : string) (d : pydict) : bool := tolerant_bool (dict_get_or k (VBool false) d).
Definition get_int (k : string) (n : Z) (d : pydict) : Z := tolerant_int (dict_get_or k (VInt n) d).

(** [WakeupConfig.from_dict]; [None] and the empty dictionary are the defaults. *)
Definition from_dict (raw : pydict) : WakeupConfig :=
  match raw with
  | [] => default_config
  | _ =>
      let triggers_raw := tolerant_dict (dict_get_none "triggers" raw) in
      let enm := tolerant_dict (dict_get_none "every_n_messages" triggers_raw) in
      let sm := tolerant_dict (dict_get_none "silence_minutes" triggers_raw) in
      let co := tolerant_dict (dict_get_none "call_only" triggers_raw) in
      let oj := tolerant_dict (dict_get_none "on_join" triggers_raw) in
      let cs := tolerant_dict (dict_get_none "class_start" triggers_raw) in
      mkWakeup
        (mkTriggers
           (mkEveryN (get_bool "enabled" enm) (clamp (get_int "n" 3 enm) N_MIN N_MAX)
              (tolerant_count (dict_get_or "count" (VStr "all") enm)))
           (mkSilence (get_bool "enabled" sm)
              (clamp (get_int "t_minutes" 2 sm) T_MINUTES_MIN T_MINUTES_MAX)
              (default_below_one (get_int "autostop_rounds" 5 sm) 5 (Some AUTOSTOP_HARD_CAP))
              (default_below_one (get_int "autostop_max_default" 100 sm) 100 (Some AUTOSTOP_HARD_CAP))
              (default_below_one (get_int "observer_autostop_rounds" 50 sm) 50 (Some AUTOSTOP_HARD_CAP)))
           (get_bool "enabled" co) (get_bool "enabled" oj) (get_bool "enabled" cs))
        (get_bool "allow_self_open" raw)
        (default_below_one (get_int "refresh_every_hours" 24 raw) 24 None)
        (soft_from_dict (dict_get_none "soft_bounds" raw))
        (tolerant_toggles (dict_get_none "self_toggle" raw))
  end.

Definition enabled_dict (b : bool) : pyval := VDict [("enabled", VBool b)]%string.
Definition bound_item (k : string) (b : option Z) : pydict :=
  match b with Some n => [(k, VInt n)] | None => [] end.
Definition soft_to_dict (s : WakeupSoftBounds) : pyval :=
  VDict (bound_item "n_min" (sb_n_min s) ++ bound_item "n_max" (sb_n_max s) ++
         bound_item "t_minutes_min" (sb_t_minutes_min s) ++ bound_item "t_minutes_max" (sb_t_minutes_max s)).

(** [WakeupConfig.to_dict] *)
Definition to_dict (c : WakeupConfig) : pydict :=
  let t := triggers c in
  [("triggers", VDict
     [("every_n_messages", VDict
        [("enabled", VBool (en_enabled (every_n_messages t)));
         ("n", VInt (en_n (every_n_messages t)));
         ("count", VStr (CountMode_value (en_count (every_n_messages t))))]);
      ("silence_minutes", VDict
        [("enabled", VBool (sm_enabled (silence_minutes t)));
         ("t_minutes", VInt (sm_t_minutes (silence_minutes t)));
         ("autostop_rounds", VInt (sm_autostop_rounds (silence_minutes t)));
         ("autostop_max_default", VInt (sm_autostop_max_default (silence_minutes t)));
         ("observer_autostop_rounds", VInt (sm_observer_autostop_rounds (silence_minutes t)))]);
      ("call_only", enabled_dict (call_only t));
      ("on_join", enabled_dict (on_join t));
      ("class_start", enabled_dict (class_start t))]);
   ("allow_self_open", VBool (allow_self_open c));
   ("refresh_every_hours", VInt (refresh_every_hours c));
   ("self_toggle", VList (sorted_toggles (self_toggle c)))]%string ++
  match soft_bounds c with Some s => [("soft_bounds"%string, soft_to_dict s)] | None => [] end.

Definition is_inert (c : WakeupConfig) : bool :=
  let t := triggers c in
  negb (en_enabled (every_n_messages t)) && negb (sm_enabled (silence_minutes t)) && negb (call_only t)
  && negb (on_join t) && negb (class_start t).

(** ** Override layers: [domain/room_wakeup.py] *)

(** A sparse layer: [None] inherits from the layer below. *)
Record WakeupOverrides := mkOver {
  ov_every_n_messages_enabled : option bool;
  ov_every_n_messages : option Z;
  ov_count : option CountMode;
  ov_silence_minutes_enabled : option bool;
  ov_silence_minutes : option Z;
  ov_autostop_rounds : option Z;
  ov_on_join_enabled : option bool;
}.
#[export] Instance Overrides_eq_dec : EqDecision WakeupOverrides.
Proof. solve_decision. Defined.
Definition no_overrides : WakeupOverrides := mkOver None None None None None None None.

(** [WakeupOverrides.from_dict]: a wrong-typed field is absent; the runtime layer only
    reads [RUNTIME_FIELDS]. *)
Definition read_bool (k : string) (d : pydict) : option bool :=
  match dict_get k d with Some (VBool b) => Some b | _ => None end.
Definition read_int (k : string) (d : pydict) : option Z := dict_get k d ≫= plain_int.
Definition read_count (k : string) (d : pydict) : option CountMode :=
  match dict_get k d with
  | Some v => if py_eq v (VStr "all") then Some COUNT_ALL
              else if py_eq v (VStr "human") then Some COUNT_HUMAN else None
  | None => None
  end.
Definition overrides_from_dict (runtime_only : bool) (raw : pyval) : WakeupOverrides :=
  let d := tolerant_dict raw in
  let room {A} (o : option A) := if runtime_only then None else o in
  mkOver (read_bool "every_n_messages_enabled" d) (read_int "every_n_messages" d) (room (read_count "count" d))
    (read_bool "silence_minutes_enabled" d) (read_int "silence_minutes" d)
    (room (read_int "autostop_rounds" d)) (room (read_bool "on_join_enabled" d)).

Definition item {A} (k : string) (f : A -> pyval) (o : option A) : pydict :=
  match o with Some x => [(k, f x)] | None => [] end.
Definition overrides_to_dict (o : WakeupOverrides) : pydict :=
  item "every_n_messages_enabled" VBool (ov_every_n_messages_enabled o) ++
  item "every_n_messages" VInt (ov_every_n_messages o) ++
  item "count" (fun c => VStr (CountMode_value c)) (ov_count o) ++
  item "silence_minutes_enabled" VBool (ov_silence_minutes_enabled o) ++
  item "silence_minutes" VInt (ov_silence_minutes o) ++
  item "autostop_rounds" VInt (ov_autostop_rounds o) ++
  item "on_join_enabled" VBool (ov_on_join_enabled o).
Definition is_empty (o : WakeupOverrides) : bool :=
  match overrides_to_dict o with [] => true | _ => false end.

(** [merged]: every field the patch sets, replaced. *)
Definition over {A} (patch base : option A) : option A := match patch with Some _ => patch | None => base end.
Definition merged (base patch : WakeupOverrides) : WakeupOverrides :=
  mkOver (over (ov_every_n_messages_enabled patch) (ov_every_n_messages_enabled base))
    (over (ov_every_n_messages patch) (ov_every_n_messages base))
    (over (ov_count patch) (ov_count base))
    (over (ov_silence_minutes_enabled patch) (ov_silence_minutes_enabled base))
    (over (ov_silence_minutes patch) (ov_silence_minutes base))
    (over (ov_autostop_rounds patch) (ov_autostop_rounds base))
    (over (ov_on_join_enabled patch) (ov_on_join_enabled base)).

(** [base.without(patch.set_fields())] *)
Definition drop_if {A B} (patch : option A) (base : option B) : option B :=
  match patch with Some _ => None | None => base end.
Definition without (base patch : WakeupOverrides) : WakeupOverrides :=
  mkOver (drop_if (ov_every_n_messages_enabled patch) (ov_every_n_messages_enabled base))
    (drop_if (ov_every_n_messages patch) (ov_every_n_messages base))
    (drop_if (ov_count patch) (ov_count base))
    (drop_if (ov_silence_minutes_enabled patch) (ov_silence_minutes_enabled base))
    (drop_if (ov_silence_minutes patch) (ov_silence_minutes base))
    (drop_if (ov_autostop_rounds patch) (ov_autostop_rounds base))
    (drop_if (ov_on_join_enabled patch) (ov_on_join_enabled base)).

(** [bounds.n_min or N_MIN]: an absent bound, or zero, is the hard one. *)
Definition or_bound (b : option Z) (hard : Z) : Z :=
  match b with Some n => if n =? 0 then hard else n | None => hard end.
Definition soft_or_none (s : option WakeupSoftBounds) : WakeupSoftBounds := default (mkSoft None None None None) s.
Definition clamp_n (value : Z) (soft : option WakeupSoftBounds) : Z :=
  let b := soft_or_none soft in
  clamp value (Z.max N_MIN (or_bound (sb_n_min b) N_MIN)) (Z.min N_MAX (or_bound (sb_n_max b) N_MAX)).
Definition clamp_t (value : Z) (soft : option WakeupSoftBounds) : Z :=
  let b := soft_or_none soft in
  clamp value (Z.max T_MINUTES_MIN (or_bound (sb_t_minutes_min b) T_MINUTES_MIN))
    (Z.min T_MINUTES_MAX (or_bound (sb_t_minutes_max b) T_MINUTES_MAX)).
Definition autostop_value (value : Z) : Z := clamp value 1 AUTOSTOP_HARD_CAP.

(** ** Resolution *)
Inductive Source := DESIGNER | ROOM | RUNTIME.
#[export] Instance Source_eq_dec : EqDecision Source.
Proof. solve_decision. Defined.

(** Where the seven overridable fields came from. *)
Record Sources := mkSources {
  src_every_n_messages_enabled : Source;
  src_every_n_messages : Source;
  src_count : Source;
  src_silence_minutes_enabled : Source;
  src_silence_minutes : Source;
  src_autostop_rounds : Source;
  src_on_join_enabled : Source;
}.

Record EffectiveWakeup := mkEffective {
  config : WakeupConfig;
  sources : Sources;
  ignored_every_n_messages_enabled : bool;    (** [ignored_runtime] *)
  ignored_silence_minutes_enabled : bool;
}.

(** [take]: the layer's value when it sets one, with its source. *)
Definition take {A B} (o : option A) (f : A -> B) (src : Source) (below : B * Source) : B * Source :=
  match o with Some x => (f x, src) | None => below end.

Definition resolve_room_wakeup (defaults : WakeupConfig) (room runtime : WakeupOverrides) (is_observer : bool)
    : EffectiveWakeup :=
  let every := every_n_messages (triggers defaults) in
  let silence := silence_minutes (triggers defaults) in
  (* the room's human *)
  let room_every := take (ov_every_n_messages_enabled room) id ROOM (en_enabled every, DESIGNER) in
  let room_n := take (ov_every_n_messages room) (fun v => clamp v N_MIN N_MAX) ROOM (en_n every, DESIGNER) in
  let count := take (ov_count room) id ROOM (en_count every, DESIGNER) in
  let room_silence := take (ov_silence_minutes_enabled room) id ROOM (sm_enabled silence, DESIGNER) in
  let room_t :=
    take (ov_silence_minutes room) (fun v => clamp v T_MINUTES_MIN T_MINUTES_MAX) ROOM (sm_t_minutes silence, DESIGNER) in
  let autostop :=
    take (ov_autostop_rounds room) autostop_value ROOM (autostop_limit_for silence is_observer, DESIGNER) in
  let room_join := take (ov_on_join_enabled room) id ROOM (on_join (triggers defaults), DESIGNER) in
  (* the agent itself *)
  let every_n := take (ov_every_n_messages runtime) (fun v => clamp_n v (soft_bounds defaults)) RUNTIME room_n in
  let t_minutes := take (ov_silence_minutes runtime) (fun v => clamp_t v (soft_bounds defaults)) RUNTIME room_t in
  let allowed (toggle : bool) := toggle && negb (call_only (triggers defaults)) in
  let flag (toggle : bool) (v : option bool) := if allowed toggle then v else None in
  let refused (toggle : bool) (v : option bool) := match v with Some _ => negb (allowed toggle) | None => false end in
  let every_flag := flag (t_every_n_messages (self_toggle defaults)) (ov_every_n_messages_enabled runtime) in
  let silence_flag := flag (t_silence_minutes (self_toggle defaults)) (ov_silence_minutes_enabled runtime) in
  let silences_all := negb (default room_every.1 every_flag) && negb (default room_silence.1 silence_flag)
                      && (room_every.1 || room_silence.1) in
  let every_on := if silences_all then room_every else take every_flag id RUNTIME room_every in
  let silence_on := if silences_all then room_silence else take silence_flag id RUNTIME room_silence in
  mkEffective
    (mkWakeup
       (mkTriggers (mkEveryN every_on.1 every_n.1 count.1)
          (mkSilence silence_on.1 t_minutes.1
             (if is_observer then sm_autostop_rounds silence else autostop.1)
             (sm_autostop_max_default silence)
             (if is_observer then autostop.1 else sm_observer_autostop_rounds silence))
          (call_only (triggers defaults))
          (if is_observer then false else room_join.1)
          (class_start (triggers defaults) && negb is_observer))
       (allow_self_open defaults) (refresh_every_hours defaults) (soft_bounds defaults) (self_toggle defaults))
    (mkSources every_on.2 every_n.2 count.2 silence_on.2 t_minutes.2 autostop.2 room_join.2)
    (refused (t_every_n_messages (self_toggle defaults)) (ov_every_n_messages_enabled runtime)
       || silences_all && bool_decide (is_Some every_flag))
    (refused (t_silence_minutes (self_toggle defaults)) (ov_silence_minutes_enabled runtime)
       || silences_all && bool_decide (is_Some silence_flag)).

(** [apply_room_patch] *)
Definition apply_room_patch (room runtime patch : WakeupOverrides) : WakeupOverrides * WakeupOverrides :=
  (merged room patch, without runtime patch).

(** * Facts *)

(** ** Well-formed configurations *)
Definition bound_ok (lo hi : Z) (b : option Z) : Prop := forall n, b = Some n -> lo <= n <= hi.
Record soft_ok (s : WakeupSoftBounds) : Prop := {
  so_n_min : bound_ok N_MIN N_MAX (sb_n_min s);
  so_n_max : bound_ok N_MIN N_MAX (sb_n_max s);
  so_t_min : bound_ok T_MINUTES_MIN T_MINUTES_MAX (sb_t_minutes_min s);
  so_t_max : bound_ok T_MINUTES_MIN T_MINUTES_MAX (sb_t_minutes_max s);
}.
Record config_ok (c : WakeupConfig) : Prop := {
  co_n : N_MIN <= en_n (every_n_messages (triggers c)) <= N_MAX;
  co_t : T_MINUTES_MIN <= sm_t_minutes (silence_minutes (triggers c)) <= T_MINUTES_MAX;
  co_autostop : 1 <= sm_autostop_rounds (silence_minutes (triggers c)) <= AUTOSTOP_HARD_CAP;
  co_autostop_max : 1 <= sm_autostop_max_default (silence_minutes (triggers c)) <= AUTOSTOP_HARD_CAP;
  co_observer : 1 <= sm_observer_autostop_rounds (silence_minutes (triggers c)) <= AUTOSTOP_HARD_CAP;
  co_refresh : 1 <= refresh_every_hours c;
  co_soft : forall s, soft_bounds c = Some s -> soft_ok s;
}.

Lemma clamp_range v lo hi : lo <= hi -> lo <= clamp v lo hi <= hi.
Proof. unfold clamp. lia. Qed.
Lemma clamp_id v lo hi : lo <= v <= hi -> clamp v lo hi = v.
Proof. unfold clamp. lia. Qed.
Lemma default_below_one_range v d m : 1 <= d <= m -> 1 <= default_below_one v d (Some m) <= m.
Proof. unfold default_below_one. destruct (v <? 1) eqn:E; lia. Qed.
Lemma default_below_one_id v d m : 1 <= v -> (forall k, m = Some k -> v <= k) -> default_below_one v d m = v.
Proof.
  intros Hv Hm. unfold default_below_one. destruct (v <? 1) eqn:E; [lia|].
  destruct m as [k|]; [|done]. specialize (Hm k eq_refl). lia.
Qed.
Lemma soft_bound_ok v lo hi : lo <= hi -> bound_ok lo hi (tolerant_soft_bound v lo hi).
Proof. intros H n. destruct v; simpl; try done. intros [= <-]. by apply clamp_range. Qed.

(** The value of the document at a path of keys. *)
Fixpoint json_at (path : list string) (v : pyval) : option pyval :=
  match path with
  | [] => Some v
  | k :: path => match v with VDict d => dict_get k d ≫= json_at path | _ => None end
  end.

Lemma tolerant_dict_get k d : tolerant_dict (dict_get_none k d) = match dict_get k d with Some (VDict e) => e | _ => [] end.
Proof. unfold dict_get_none. by destruct (dict_get k d) as [[]|]. Qed.
Lemma get_bool_true k d : get_bool k d = true <-> dict_get k d = Some (VBool true).
Proof.
  unfold get_bool, dict_get_or. destruct (dict_get k d) as [[]|]; simpl; try (split; [done|by intros [=]]).
  split; [by intros ->|by intros [= ->]].
Qed.
Lemma enabled_at t raw :
  get_bool "enabled" (tolerant_dict (dict_get_none t (tolerant_dict (dict_get_none "triggers" raw)))) = true <->
  json_at ["triggers"; t; "enabled"]%string (VDict raw) = Some (VBool true).
Proof.
  rewrite get_bool_true, !tolerant_dict_get. simpl.
  destruct (dict_get "triggers" raw) as [[]|]; simpl; try done.
  destruct (dict_get t d) as [[]|]; simpl; try done.
  by destruct (dict_get "enabled" d0).
Qed.

Lemma toggles_roundtrip t : tolerant_toggles (VList (sorted_toggles t)) = t.
Proof. by destruct t as [[] []]. Qed.
Lemma count_roundtrip c : tolerant_count (VStr (CountMode_value c)) = c.
Proof. by destruct c. Qed.
Lemma soft_bound_roundtrip b lo hi : bound_ok lo hi b ->
  (fun n => clamp n lo hi) <$> b = b.
Proof. destruct b as [n|]; [|done]. intros H. simpl. by rewrite clamp_id by (by apply H). Qed.
Lemma soft_roundtrip s : soft_ok s -> soft_from_dict (soft_to_dict s) = Some s.
Proof.
  intros [H1 H2 H3 H4]. apply soft_bound_roundtrip in H1, H2, H3, H4. destruct s as [a b c d]. simpl in *.
  transitivity (Some (mkSoft ((fun n => clamp n N_MIN N_MAX) <$> a) ((fun n => clamp n N_MIN N_MAX) <$> b)
    ((fun n => clamp n T_MINUTES_MIN T_MINUTES_MAX) <$> c) ((fun n => clamp n T_MINUTES_MIN T_MINUTES_MAX) <$> d))).
  - by destruct a, b, c, d.
  - by rewrite H1, H2, H3, H4.
Qed.

Lemma from_dict_in_bounds raw : config_ok (from_dict raw).
Proof.
  destruct raw as [|kv raw]; [split; simpl; unfold N_MIN, N_MAX, T_MINUTES_MIN, T_MINUTES_MAX, AUTOSTOP_HARD_CAP; (lia || done)|].
  unfold from_dict. set (d := kv :: raw). clearbody d. split; simpl.
  - by apply clamp_range.
  - by apply clamp_range.
  - by apply default_below_one_range.
  - by apply default_below_one_range.
  - by apply default_below_one_range.
  - unfold default_below_one. case_match; lia.
  - intros s. unfold soft_from_dict. destruct (dict_get_none _ d); try done. intros [= <-].
    split; simpl; by apply soft_bound_ok.
Qed.

Lemma config_roundtrips c : config_ok c -> from_dict (to_dict c) = c.
Proof.
  intros [Hn Ht Ha Hm Ho Hr Hs]. destruct c as [[[e n cnt] [se t a m o] co oj cs] aso refresh soft tog]. simpl in *.
  assert (Hsoft : soft_from_dict (dict_get_none "soft_bounds" (to_dict
    (mkWakeup (mkTriggers (mkEveryN e n cnt) (mkSilence se t a m o) co oj cs) aso refresh soft tog))) = soft).
  { destruct soft as [s|]; simpl; [|done]. unfold dict_get_none. simpl. by apply soft_roundtrip, Hs. }
  unfold from_dict. change (match to_dict ?c with [] => ?x | _ => ?y end) with y. cbv zeta. rewrite Hsoft.
  f_equal; [f_equal; f_equal| |].
  - by apply clamp_id.
  - apply count_roundtrip.
  - by apply clamp_id.
  - apply default_below_one_id; [|intros k [= <-]]; unfold get_int; simpl; lia.
  - apply default_below_one_id; [|intros k [= <-]]; unfold get_int; simpl; lia.
  - apply default_below_one_id; [|intros k [= <-]]; unfold get_int; simpl; lia.
  - apply default_below_one_id; [|done]. unfold get_int. simpl. lia.
  - apply toggles_roundtrip.
Qed.

Lemma overrides_roundtrip o : overrides_from_dict false (VDict (overrides_to_dict o)) = o.
Proof. destruct o as [[] [] [[]|] [] [] [] []]; reflexivity. Qed.
Lemma runtime_overrides_roundtrip o :
  ov_count o = None -> ov_autostop_rounds o = None -> ov_on_join_enabled o = None ->
  overrides_from_dict true (VDict (overrides_to_dict o)) = o.
Proof. destruct o as [[] [] c [] [] a j]; simpl; intros; subst; reflexivity. Qed.

(** ** The layers *)
Lemma or_bound_range b lo hi hard : 1 <= lo -> lo <= hard <= hi -> bound_ok lo hi b -> lo <= or_bound b hard <= hi.
Proof. intros Hlo Hh Hb. unfold or_bound. destruct b as [n|]; [|done]. specialize (Hb n eq_refl). destruct (n =? 0) eqn:E; lia. Qed.

Lemma clamp_n_range v s : (forall b, s = Some b -> soft_ok b) -> N_MIN <= clamp_n v s <= N_MAX.
Proof.
  intros Hs. unfold clamp_n. assert (Hb : bound_ok N_MIN N_MAX (sb_n_min (soft_or_none s)) /\ bound_ok N_MIN N_MAX (sb_n_max (soft_or_none s))).
  { destruct s as [b|]; simpl; [|done]. destruct (Hs b eq_refl); done. }
  destruct Hb as [H1 H2]. eapply (or_bound_range _ _ _ N_MIN) in H1; [|done..]. eapply (or_bound_range _ _ _ N_MAX) in H2; [|done..].
  unfold clamp. lia.
Qed.
Lemma clamp_t_range v s : (forall b, s = Some b -> soft_ok b) -> T_MINUTES_MIN <= clamp_t v s <= T_MINUTES_MAX.
Proof.
  intros Hs. unfold clamp_t.
  assert (Hb : bound_ok T_MINUTES_MIN T_MINUTES_MAX (sb_t_minutes_min (soft_or_none s)) /\
               bound_ok T_MINUTES_MIN T_MINUTES_MAX (sb_t_minutes_max (soft_or_none s))).
  { destruct s as [b|]; simpl; [|done]. destruct (Hs b eq_refl); done. }
  destruct Hb as [H1 H2]. eapply (or_bound_range _ _ _ T_MINUTES_MIN) in H1; [|done..].
  eapply (or_bound_range _ _ _ T_MINUTES_MAX) in H2; [|done..]. unfold clamp. lia.
Qed.

(** A property of the layer's values and of the layer below holds of what is taken. *)
Lemma take_ind {A B} (P : B -> Prop) (o : option A) (f : A -> B) src below :
  (forall x, o = Some x -> P (f x)) -> P below.1 -> P (take o f src below).1.
Proof. destruct o as [x|]; simpl; auto. Qed.

Lemma resolve_in_bounds d room runtime obs : config_ok d -> config_ok (config (resolve_room_wakeup d room runtime obs)).
Proof.
  intros [Hn Ht Ha Hm Ho Hr Hs]. split; unfold resolve_room_wakeup; cbv zeta; simpl; [| | | | |done|done].
  - apply take_ind; [intros x _; by apply clamp_n_range|]. apply take_ind; [intros x _; by apply clamp_range|done].
  - apply take_ind; [intros x _; by apply clamp_t_range|]. apply take_ind; [intros x _; by apply clamp_range|done].
  - destruct obs; [done|]. apply take_ind; [intros x _; by apply clamp_range|done].
  - done.
  - destruct obs; [|done]. apply take_ind; [intros x _; by apply clamp_range|done].
Qed.

(** The two autonomous triggers of an effective configuration. *)
Definition every_on (e : EffectiveWakeup) : bool := en_enabled (every_n_messages (triggers (config e))).
Definition silence_on (e : EffectiveWakeup) : bool := sm_enabled (silence_minutes (triggers (config e))).

Lemma resolve_flags d room runtime obs :
  let e := resolve_room_wakeup d room runtime obs in
  let e0 := resolve_room_wakeup d room no_overrides obs in
  (every_on e <> every_on e0 -> t_every_n_messages (self_toggle d) = true /\ call_only (triggers d) = false) /\
  (silence_on e <> silence_on e0 -> t_silence_minutes (self_toggle d) = true /\ call_only (triggers d) = false) /\
  (every_on e0 || silence_on e0 = true -> every_on e || silence_on e = true).
Proof.
  unfold every_on, silence_on, resolve_room_wakeup. cbv zeta. simpl.
  set (re := take (ov_every_n_messages_enabled room) id ROOM (en_enabled (every_n_messages (triggers d)), DESIGNER)).
  set (rs := take (ov_silence_minutes_enabled room) id ROOM (sm_enabled (silence_minutes (triggers d)), DESIGNER)).
  destruct re as [re sre], rs as [rs srs]. simpl.
  destruct (t_every_n_messages (self_toggle d)), (t_silence_minutes (self_toggle d)), (call_only (triggers d)),
    (ov_every_n_messages_enabled runtime) as [[]|], (ov_silence_minutes_enabled runtime) as [[]|], re, rs; simpl;
    split_and!; done.
Qed.

Lemma resolve_human_only d room runtime obs :
  let e := config (resolve_room_wakeup d room runtime obs) in
  let e0 := config (resolve_room_wakeup d room no_overrides obs) in
  en_count (every_n_messages (triggers e)) = en_count (every_n_messages (triggers e0)) /\
  autostop_limit_for (silence_minutes (triggers e)) obs = autostop_limit_for (silence_minutes (triggers e0)) obs /\
  on_join (triggers e) = on_join (triggers e0).
Proof. done. Qed.

Lemma patched_every d room runtime patch obs b : ov_every_n_messages_enabled patch = Some b ->
  every_on (resolve_room_wakeup d (merged room patch) (without runtime patch) obs) = b.
Proof.
  intros Hp. unfold every_on, resolve_room_wakeup. cbv zeta. simpl. rewrite Hp. simpl.
  destruct (t_every_n_messages (self_toggle d) && negb (call_only (triggers d))); simpl; by case_match.
Qed.
Lemma patched_silence d room runtime patch obs b : ov_silence_minutes_enabled patch = Some b ->
  silence_on (resolve_room_wakeup d (merged room patch) (without runtime patch) obs) = b.
Proof.
  intros Hp. unfold silence_on, resolve_room_wakeup. cbv zeta. simpl. rewrite Hp. simpl.
  destruct (t_silence_minutes (self_toggle d) && negb (call_only (triggers d))); simpl; by case_match.
Qed.

(** * Properties *)

(** C39. Whatever JSON is stored, the configuration read from it is within the platform's
    hard bounds, and a trigger is on only where the document says literally true: a
    wrong type never switches anything on. *)
Theorem stored_config_wellformed raw :
  config_ok (from_dict raw) /\
  let t := triggers (from_dict raw) in
  let on key := json_at ["triggers"; key; "enabled"]%string (VDict raw) = Some (VBool true) in
  (en_enabled (every_n_messages t) = true <-> on "every_n_messages"%string) /\
  (sm_enabled (silence_minutes t) = true <-> on "silence_minutes"%string) /\
  (call_only t = true <-> on "call_only"%string) /\ (on_join t = true <-> on "on_join"%string) /\
  (class_start t = true <-> on "class_start"%string) /\
  (allow_self_open (from_dict raw) = true <-> json_at ["allow_self_open"%string] (VDict raw) = Some (VBool true)).
Proof.
  split; [apply from_dict_in_bounds|]. destruct raw as [|kv raw]; [by split_and!|].
  unfold from_dict. set (d := kv :: raw). clearbody d. cbv zeta. simpl triggers. split_and!; try apply enabled_at.
  simpl allow_self_open. rewrite get_bool_true. simpl. by destruct (dict_get "allow_self_open" d).
Qed.

(** Storing loses nothing: a well-formed configuration, and any override layer,
    read back from the JSON it is written to is itself; so a stored configuration is a
    fixed point of reading and writing. *)
Theorem config_json_roundtrip c o (Hok : config_ok c) :
  from_dict (to_dict c) = c /\ overrides_from_dict false (VDict (overrides_to_dict o)) = o /\
  (forall raw, from_dict (to_dict (from_dict raw)) = from_dict raw).
Proof.
  split; [by apply config_roundtrips|]. split; [apply overrides_roundtrip|].
  intros raw. apply config_roundtrips, from_dict_in_bounds.
Qed.

(** The effective configuration of a binding stays within the hard bounds whatever
    integers the room's human and the agent stored, provided the designer's was. *)
Theorem effective_in_bounds d room runtime is_observer (Hok : config_ok d) :
  config_ok (config (resolve_room_wakeup d room runtime is_observer)).
Proof. by apply resolve_in_bounds. Qed.

(** What the agent sets for itself cannot overreach.  Designer-only policy is
    untouched by the room and the agent; the agent's switches act only on triggers the
    designer listed, and never under call-only; the counting mode, the autostop cap and
    the arrival trigger ignore the agent; and the agent cannot turn off both of its
    autonomous triggers when the room leaves one on. *)
Theorem runtime_cannot_overreach d room runtime is_observer :
  let e := resolve_room_wakeup d room runtime is_observer in
  let e0 := resolve_room_wakeup d room no_overrides is_observer in
  (call_only (triggers (config e)) = call_only (triggers d) /\
   class_start (triggers (config e)) = class_start (triggers d) && negb is_observer /\
   allow_self_open (config e) = allow_self_open d /\ refresh_every_hours (config e) = refresh_every_hours d /\
   soft_bounds (config e) = soft_bounds d /\ self_toggle (config e) = self_toggle d) /\
  (every_on e <> every_on e0 -> t_every_n_messages (self_toggle d) = true /\ call_only (triggers d) = false) /\
  (silence_on e <> silence_on e0 -> t_silence_minutes (self_toggle d) = true /\ call_only (triggers d) = false) /\
  (en_count (every_n_messages (triggers (config e))) = en_count (every_n_messages (triggers (config e0))) /\
   autostop_limit_for (silence_minutes (triggers (config e))) is_observer
     = autostop_limit_for (silence_minutes (triggers (config e0))) is_observer /\
   on_join (triggers (config e)) = on_join (triggers (config e0))) /\
  (every_on e0 || silence_on e0 = true -> every_on e || silence_on e = true).
Proof.
  intros e e0. destruct (resolve_flags d room runtime is_observer) as (H1 & H2 & H3).
  split; [by split_and!|]. split; [exact H1|]. split; [exact H2|]. split; [|exact H3].
  apply (resolve_human_only d room runtime is_observer).
Qed.

(** A human edit wins and touches nothing else: after a room change every field it
    sets is in effect, bounded by the hard limits, whatever the agent had set; every
    other field keeps both its layers. *)
Theorem human_edit_wins d room runtime patch is_observer :
  let room' := (apply_room_patch room runtime patch).1 in
  let runtime' := (apply_room_patch room runtime patch).2 in
  let e := resolve_room_wakeup d room' runtime' is_observer in
  let t := triggers (config e) in
  (forall b, ov_every_n_messages_enabled patch = Some b -> every_on e = b) /\
  (forall b, ov_silence_minutes_enabled patch = Some b -> silence_on e = b) /\
  (forall n, ov_every_n_messages patch = Some n -> en_n (every_n_messages t) = clamp n N_MIN N_MAX) /\
  (forall n, ov_silence_minutes patch = Some n -> sm_t_minutes (silence_minutes t) = clamp n T_MINUTES_MIN T_MINUTES_MAX) /\
  (forall c, ov_count patch = Some c -> en_count (every_n_messages t) = c) /\
  (forall n, ov_autostop_rounds patch = Some n -> autostop_limit_for (silence_minutes t) is_observer = autostop_value n) /\
  (forall b, ov_on_join_enabled patch = Some b -> on_join t = b && negb is_observer) /\
  (ov_every_n_messages_enabled patch = None -> ov_every_n_messages_enabled room' = ov_every_n_messages_enabled room /\
     ov_every_n_messages_enabled runtime' = ov_every_n_messages_enabled runtime) /\
  (ov_every_n_messages patch = None -> ov_every_n_messages room' = ov_every_n_messages room /\
     ov_every_n_messages runtime' = ov_every_n_messages runtime) /\
  (ov_silence_minutes_enabled patch = None -> ov_silence_minutes_enabled room' = ov_silence_minutes_enabled room /\
     ov_silence_minutes_enabled runtime' = ov_silence_minutes_enabled runtime) /\
  (ov_silence_minutes patch = None -> ov_silence_minutes room' = ov_silence_minutes room /\
     ov_silence_minutes runtime' = ov_silence_minutes runtime).
Proof.
  simpl. split_and!; try (intros b Hb; by apply patched_every || by apply patched_silence);
    try (intros ->; done); intros x Hx; unfold resolve_room_wakeup; simpl; rewrite Hx; simpl; try done;
    by destruct is_observer; rewrite ?andb_true_r, ?andb_false_r.
Qed.

(** * Witnesses and examples *)
Definition facilitator : WakeupConfig :=
  mkWakeup (mkTriggers (mkEveryN true 5 COUNT_HUMAN) (mkSilence true 3 5 100 50) false true false)
    true 12 (Some (mkSoft (Some 3) None None (Some 60))) (mkToggle true true).
Lemma facilitator_ok : config_ok facilitator.
Proof.
  split; simpl; unfold N_MIN, N_MAX, T_MINUTES_MIN, T_MINUTES_MAX, AUTOSTOP_HARD_CAP; try lia.
  intros s [= <-]. split; intros n; simpl; try done; intros [= <-]; unfold N_MIN, N_MAX, T_MINUTES_MIN, T_MINUTES_MAX; lia.
Qed.
Lemma config_json_roundtrip_witness :
  from_dict (to_dict facilitator) = facilitator /\
  overrides_from_dict false (VDict (overrides_to_dict no_overrides)) = no_overrides /\
  (forall raw, from_dict (to_dict (from_dict raw)) = from_dict raw).
Proof. apply (config_json_roundtrip facilitator no_overrides facilitator_ok). Defined.
Lemma effective_in_bounds_witness :
  config_ok (config (resolve_room_wakeup facilitator (mkOver None (Some 5000) None None None (Some 0) None) no_overrides false)).
Proof. apply (effective_in_bounds facilitator _ no_overrides false facilitator_ok). Defined.

(** A string where a boolean is expected stays off; an agent that tries to switch both
    triggers off is ignored; a designer's inverted soft bounds still give one value. *)
Example tolerant_reading :
  call_only (triggers (from_dict [("triggers", VDict [("call_only", VDict [("enabled", VStr "true")])])]%string)) = false /\
  (let e := resolve_room_wakeup facilitator no_overrides (mkOver (Some false) None None (Some false) None None None) false in
   every_on e && silence_on e && ignored_every_n_messages_enabled e && ignored_silence_minutes_enabled e) = true /\
  clamp_n 500 (Some (mkSoft (Some 20) (Some 10) None None)) = 20.
Proof. vm_compute. done. Qed.
