(* ===== verification/RoomWakeup.v ===== *)
(** * Room-owned wake-up settings

    [contexts/orchestration/application/room_wakeup_service.py] over the binding rows of
    [contexts/conversation/infrastructure/repositories/chatroom_repo.py].
    Other transactions
    commit between two statements: [ws_sched] lists what they do, and every statement
    first lets the next batch take effect.  Instants are whole seconds. *)

From S2P Require Import Prelude PyFloat PyValue OrchBase Wakeup.
(** [BindingWakeupState]: the wake-up columns of a live binding row. *)
Record Binding := mkBinding {
  b_chatroom_id : uuid;
  b_agent_id : uuid;
  b_binding_id : uuid;
  b_observer : bool;      (** [role is OBSERVER] *)
  b_version : Z;
  b_room_overrides : pydict;
  b_runtime_overrides : pydict;
  b_runtime_started_at : option Z;
}.

(** A commit of another transaction: a write of the same service, an unbind, or a
    binding under a new id. *)
Inductive foreign_write :=
  | FW_layers (binding_id : uuid) (version : Z) (room runtime : pydict) (started : option Z)
  | FW_unbind (binding_id : uuid)
  | FW_bind (b : Binding).

Record TimerEffects := mkTimerEffects {
  te_agent_id : uuid;
  te_room_id : uuid;
  te_binding_id : uuid;
  drop_deferred_fire : bool;
  restart_message_count : bool;
  rearm_silence : bool;
}.
#[export] Instance TimerEffects_eq_dec : EqDecision TimerEffects.
Proof. solve_decision. Defined.

Record Store := mkStore {
  ws_agents : gmap uuid Agent;
  ws_bindings : gmap uuid Binding;     (** live rows by binding id *)
  ws_deleted_rooms : gset uuid;
  ws_now : Z;
  ws_audit : list string;
  ws_sched : list (list foreign_write);
}.
Definition set_bindings f s := mkStore (ws_agents s) (f (ws_bindings s)) (ws_deleted_rooms s) (ws_now s) (ws_audit s) (ws_sched s).
Definition record (action : string) : prog Store unit :=
  modify (fun s => mkStore (ws_agents s) (ws_bindings s) (ws_deleted_rooms s) (ws_now s) (ws_audit s ++ [action]) (ws_sched s)).

(** The columns [cas_wakeup_layers] sets. *)
Definition with_layers (room runtime : pydict) (started : option Z) (b : Binding) : Binding :=
  mkBinding (b_chatroom_id b) (b_agent_id b) (b_binding_id b) (b_observer b) (b_version b + 1) room runtime started.

Definition sql_cas_layers (binding_id : uuid) (version : Z) (room runtime : pydict) (started : option Z)
    (m : gmap uuid Binding) : gmap uuid Binding :=
  match m !! binding_id with
  | Some b => if b_version b =? version then <[binding_id := with_layers room runtime started b]> m else m
  | None => m
  end.
Definition apply_write (m : gmap uuid Binding) (f : foreign_write) : gmap uuid Binding :=
  match f with
  | FW_layers id v room runtime started => sql_cas_layers id v room runtime started m
  | FW_unbind id => delete id m
  | FW_bind b => match m !! b_binding_id b with Some _ => m | None => <[b_binding_id b := b]> m end
  end.
Definition others (s : Store) : Store :=
  match ws_sched s with
  | [] => s
  | fs :: rest =>
      mkStore (ws_agents s) (fold_left apply_write fs (ws_bindings s)) (ws_deleted_rooms s) (ws_now s) (ws_audit s) rest
  end.
Definition statement {A} (f : Store -> (OrchestrationError + A) * Store) : prog Store A := fun s => f (others s).

(** ** The repository *)

(** [wakeup_state]: the live binding of an agent in a room that is not deleted; at most
    one row has this room and agent. *)
Definition is_binding_of (room agent : uuid) (kb : uuid * Binding) : Prop :=
  b_chatroom_id kb.2 = room /\ b_agent_id kb.2 = agent.
#[export] Instance is_binding_of_dec room agent kb : Decision (is_binding_of room agent kb).
Proof. unfold is_binding_of. apply _. Defined.
Definition wakeup_state (room agent : uuid) : prog Store (option Binding) :=
  statement (fun s =>
    (inr (if decide (room ∈ ws_deleted_rooms s) then None
          else snd <$> head (map_to_list (filter (is_binding_of room agent) (ws_bindings s)))), s)).

Definition cas_wakeup_layers (binding_id : uuid) (expected_version : Z) (room runtime : pydict) (started : option Z)
    : prog Store (option Binding) :=
  statement (fun s =>
    match ws_bindings s !! binding_id with
    | Some b =>
        if b_version b =? expected_version then
          (inr (Some (with_layers room runtime started b)),
           set_bindings (sql_cas_layers binding_id expected_version room runtime started) s)
        else (inr None, s)
    | None => (inr None, s)
    end).

(** ** A binding's settings *)
Record RoomWakeup := mkRoomWakeup {
  rw_state : Binding;
  rw_agent : Agent;
  rw_defaults : WakeupConfig;
  rw_room : WakeupOverrides;
  rw_runtime : WakeupOverrides;
  rw_effective : EffectiveWakeup;
}.

Definition build_room_wakeup (state : Binding) (agent : Agent) : RoomWakeup :=
  let defaults := from_dict (ag_wakeup_config agent) in
  let room := overrides_from_dict false (VDict (b_room_overrides state)) in
  let runtime := overrides_from_dict true (VDict (b_runtime_overrides state)) in
  mkRoomWakeup state agent defaults room runtime (resolve_room_wakeup defaults room runtime (b_observer state)).

Definition for_state (state : Binding) : prog Store (option RoomWakeup) :=
  statement (fun s => (inr (build_room_wakeup state <$> get_agent false (ws_agents s) (b_agent_id state)), s)).

Definition load (agent room : uuid) : prog Store (option RoomWakeup) :=
  found ← wakeup_state room agent;
  match found with Some state => for_state state | None => mret None end.

(** [_live] *)
Definition live (agent room binding_id : uuid) : prog Store RoomWakeup :=
  current ← load agent room;
  match current with
  | Some c => if decide (b_binding_id (rw_state c) = binding_id) then mret c else throw RoomWakeupBindingGone
  | None => throw RoomWakeupBindingGone
  end.

(** [refresh_due_at]; [overflows] says when the addition leaves [datetime]'s range. *)
Definition refresh_due_at (overflows : Z -> bool) (w : RoomWakeup) : option Z :=
  match b_runtime_started_at (rw_state w) with
  | None => None
  | Some started =>
      let due := started + 3600 * refresh_every_hours (rw_defaults w) in
      if overflows due then None else Some due
  end.

Definition timer_effects (before after : RoomWakeup) : option TimerEffects :=
  let old := triggers (config (rw_effective before)) in
  let new := triggers (config (rw_effective after)) in
  let old_n := every_n_messages old in
  let new_n := every_n_messages new in
  let state := rw_state after in
  let drop := en_enabled old_n && negb (en_enabled new_n) in
  let restart := en_enabled new_n && (negb (en_enabled old_n) || negb (en_n old_n =? en_n new_n)
                   || negb (bool_decide (en_count old_n = en_count new_n))) in
  let rearm := sm_enabled (silence_minutes new) && (negb (sm_enabled (silence_minutes old))
                 || negb (sm_t_minutes (silence_minutes old) =? sm_t_minutes (silence_minutes new))) in
  if drop || restart || rearm
  then Some (mkTimerEffects (b_agent_id state) (b_chatroom_id state) (b_binding_id state) drop restart rearm)
  else None.

(** ** The write path *)

(** [_write]: [None] on a conflict, the settings as they were when nothing changes. *)
Inductive write_result := Unchanged | Written (w : RoomWakeup) | Conflict.
Definition write (current : RoomWakeup) (room runtime : WakeupOverrides) : prog Store write_result :=
  if decide (room = rw_room current /\ runtime = rw_runtime current) then mret Unchanged
  else
    now ← gets ws_now;
    let started :=
      if is_empty runtime then None
      else if is_empty (rw_runtime current) then Some now
      else b_runtime_started_at (rw_state current) in
    row ← cas_wakeup_layers (b_binding_id (rw_state current)) (b_version (rw_state current))
            (overrides_to_dict room) (overrides_to_dict runtime) started;
    mret match row with
         | Some b => Written (build_room_wakeup b (rw_agent current))
         | None => Conflict
         end.

Record RoomWakeupChange := mkChange { ch_wakeup : RoomWakeup; ch_effects : option TimerEffects }.

Definition written (current : RoomWakeup) (r : write_result) : option RoomWakeup :=
  match r with Unchanged => Some current | Written w => Some w | Conflict => None end.
Definition changed (r : write_result) : bool := match r with Written _ => true | _ => false end.

(** ** Human edits *)
Definition patch_room (agent room binding_id : uuid) (expected_version : Z) (patch : WakeupOverrides)
    : prog Store RoomWakeupChange :=
  current ← live agent room binding_id;
  if b_version (rw_state current) =? expected_version then
    let layers := apply_room_patch (rw_room current) (rw_runtime current) patch in
    r ← write current layers.1 layers.2;
    match written current r with
    | None => throw RoomWakeupVersionConflict
    | Some updated =>
        _ ← (if changed r then record "chatroom.agent_wakeup_updated" else mret tt);
        mret (mkChange updated (timer_effects current updated))
    end
  else throw RoomWakeupVersionConflict.

Inductive ResetScope := RESET_RUNTIME | RESET_ROOM.
Definition reset (agent room binding_id : uuid) (expected_version : Z) (scope : ResetScope)
    : prog Store RoomWakeupChange :=
  current ← live agent room binding_id;
  if b_version (rw_state current) =? expected_version then
    r ← write current (match scope with RESET_ROOM => no_overrides | RESET_RUNTIME => rw_room current end) no_overrides;
    match written current r with
    | None => throw RoomWakeupVersionConflict
    | Some updated =>
        _ ← (if changed r then record "chatroom.agent_wakeup_reset" else mret tt);
        mret (mkChange updated (timer_effects current updated))
    end
  else throw RoomWakeupVersionConflict.

(** ** The agent's own tool *)
Record ToolRequest := mkRequest {
  rq_every_n_messages : option Z;
  rq_silence_minutes : option Z;
  rq_every_n_messages_enabled : option bool;
  rq_silence_minutes_enabled : option bool;
}.

(** [_check_toggles] *)
Definition toggles_allowed (effective defaults : WakeupConfig) (rq : ToolRequest) : bool :=
  let every := rq_every_n_messages_enabled rq in
  let silence := rq_silence_minutes_enabled rq in
  match every, silence with
  | None, None => true
  | _, _ =>
      negb (call_only (triggers defaults))
      && (match every with Some _ => t_every_n_messages (self_toggle defaults) | None => true end)
      && (match silence with Some _ => t_silence_minutes (self_toggle defaults) | None => true end)
      && (default (en_enabled (every_n_messages (triggers effective))) every
          || default (sm_enabled (silence_minutes (triggers effective))) silence)
  end.

Definition request_patch (soft : option WakeupSoftBounds) (rq : ToolRequest) : WakeupOverrides :=
  mkOver (rq_every_n_messages_enabled rq) ((fun n => clamp_n n soft) <$> rq_every_n_messages rq) None
    (rq_silence_minutes_enabled rq) ((fun t => clamp_t t soft) <$> rq_silence_minutes rq) None None.

(** The clamped fields and the toggles, each audited by [_audit_tool]. *)
Definition clamped_fields (patch : WakeupOverrides) (rq : ToolRequest) : bool :=
  negb (bool_decide (ov_every_n_messages patch = rq_every_n_messages rq))
  || negb (bool_decide (ov_silence_minutes patch = rq_silence_minutes rq)).
Definition toggles (rq : ToolRequest) : list bool :=
  option_list (rq_every_n_messages_enabled rq) ++ option_list (rq_silence_minutes_enabled rq).
Definition audit_tool (patch : WakeupOverrides) (rq : ToolRequest) : prog Store unit :=
  _ ← (if clamped_fields patch rq then record "agent.wakeup_clamped" else mret tt);
  for_each (toggles rq) (fun _ => record "agent.wakeup_toggled").

Record RuntimeTuning := mkTuning { tu_config : WakeupConfig; tu_effects : option TimerEffects }.

(** One attempt: [None] when the write lost the race. *)
Definition tune_once (agent room binding_id : uuid) (rq : ToolRequest) : prog Store (option RuntimeTuning) :=
  current ← live agent room binding_id;
  if toggles_allowed (config (rw_effective current)) (rw_defaults current) rq then
    let patch := request_patch (soft_bounds (rw_defaults current)) rq in
    let runtime := merged (rw_runtime current) patch in
    let resolved := resolve_room_wakeup (rw_defaults current) (rw_room current) runtime (b_observer (rw_state current)) in
    let runtime := if decide (config resolved = config (rw_effective current)) then rw_runtime current else runtime in
    r ← write current (rw_room current) runtime;
    match written current r with
    | None => mret None
    | Some updated =>
        _ ← audit_tool patch rq;
        mret (Some (mkTuning (config (rw_effective updated)) (timer_effects current updated)))
    end
  else throw WakeupToggleNotAllowed.

Fixpoint tune (attempts : nat) (agent room binding_id : uuid) (rq : ToolRequest) : prog Store RuntimeTuning :=
  match attempts with
  | O => throw RoomWakeupVersionConflict
  | S attempts =>
      r ← tune_once agent room binding_id rq;
      match r with Some t => mret t | None => tune attempts agent room binding_id rq end
  end.
(** [update_runtime]: [for attempt in range(2)]. *)
Definition update_runtime := tune 2.

(** ** Refresh *)
Definition refresh_if_due (overflows : Z -> bool) (state : Binding) : prog Store (option RoomWakeupChange) :=
  found ← for_state state;
  now ← gets ws_now;
  match found with
  | None => mret None
  | Some current =>
      match refresh_due_at overflows current with
      | None => mret None
      | Some due =>
          if now <? due then mret None
          else
            r ← write current (rw_room current) no_overrides;
            match r with
            | Written updated =>
                _ ← record "agent.wakeup_refreshed";
                mret (Some (mkChange updated (timer_effects current updated)))
            | _ => mret None
            end
      end
  end.

(** * Facts *)

(** ** Versions name contents *)

(** What other transactions may do to a row: leave it, move its version on, or drop it. *)
Definition row_moves (b b' : Binding) : Prop :=
  b' = b \/ (b_version b < b_version b' /\ b_binding_id b' = b_binding_id b /\ b_agent_id b' = b_agent_id b /\
            b_chatroom_id b' = b_chatroom_id b /\ b_observer b' = b_observer b).
Lemma row_moves_trans b1 b2 b3 : row_moves b1 b2 -> row_moves b2 b3 -> row_moves b1 b3.
Proof. intros [->|(?&?&?&?&?)] [->|(?&?&?&?&?)]; [by left|by right..|right]. split_and!; [lia|congruence..]. Qed.

Definition moves (id : uuid) (m m' : gmap uuid Binding) : Prop :=
  forall b', m' !! id = Some b' -> exists b, m !! id = Some b /\ row_moves b b'.
#[export] Instance moves_preorder id : PreOrder (moves id).
Proof.
  split; [intros m b Hb; exists b; split; [done|by left]|].
  intros m1 m2 m3 H1 H2 b3 H3. destruct (H2 _ H3) as (b2 & Hb2 & ?). destruct (H1 _ Hb2) as (b1 & ? & ?).
  exists b1. split; [done|by eapply row_moves_trans].
Qed.

(** A binding id, once gone, does not come back: ids are never used twice. *)
Definition binds (id : uuid) (f : foreign_write) : Prop := match f with FW_bind b => b_binding_id b = id | _ => False end.
Definition never_rebound (id : uuid) (s : Store) : Prop := Forall (Forall (fun f => ~ binds id f)) (ws_sched s).

Lemma apply_write_moves id f m : ~ binds id f -> moves id m (apply_write m f).
Proof.
  intros Hb b' Hb'. destruct f as [i v r t st|i|b]; simpl in *.
  - unfold sql_cas_layers in Hb'. destruct (m !! i) as [c|] eqn:E; [|exists b'; split; [done|by left]].
    destruct (b_version c =? v) eqn:Ev; [|exists b'; split; [done|by left]].
    apply lookup_insert_Some in Hb' as [[-> <-]|[_ Hb']]; [|exists b'; split; [done|by left]].
    exists c. split; [done|]. right. simpl. split_and!; [lia|done..].
  - apply lookup_delete_Some in Hb' as [_ Hb']. exists b'. split; [done|by left].
  - destruct (m !! b_binding_id b); [exists b'; split; [done|by left]|].
    rewrite lookup_insert_ne in Hb' by done. exists b'. split; [done|by left].
Qed.

Lemma others_moves id s : never_rebound id s ->
  moves id (ws_bindings s) (ws_bindings (others s)) /\ never_rebound id (others s).
Proof.
  unfold never_rebound, others. destruct (ws_sched s) as [|fs rest] eqn:E; [intros _; split; [reflexivity|by rewrite E]|].
  simpl. intros [Hfs Hrest]%Forall_cons_iff. split; [|done].
  generalize (ws_bindings s). clear -Hfs. induction Hfs as [|f fs Hf _ IH]; intros m; simpl; [reflexivity|].
  etrans; [by apply apply_write_moves|]. apply IH.
Qed.

(** The same version means the same row. *)
Lemma same_version id m m' b b' : moves id m m' -> m !! id = Some b -> m' !! id = Some b' ->
  b_version b' = b_version b -> b' = b.
Proof. intros Hm Hb Hb' Hv. destruct (Hm _ Hb') as (c & Hc & [->|(? & _)]); [congruence|]. rewrite Hb in Hc. injection Hc as <-. lia. Qed.

Lemma others_rest s : ws_agents (others s) = ws_agents s /\ ws_deleted_rooms (others s) = ws_deleted_rooms s /\
  ws_now (others s) = ws_now s /\ ws_audit (others s) = ws_audit s.
Proof. unfold others. by destruct (ws_sched s). Qed.

(** ** Reading *)
Definition row_keys (m : gmap uuid Binding) : Prop := map_Forall (fun id b => b_binding_id b = id) m.

Lemma live_run agent room id s w s' : live agent room id s = (inr w, s') ->
  row_keys (ws_bindings (others s)) ->
  s' = others (others s) /\ ws_bindings (others s) !! id = Some (rw_state w) /\
  b_agent_id (rw_state w) = agent /\ b_chatroom_id (rw_state w) = room /\ room ∉ ws_deleted_rooms s /\
  exists a, get_agent false (ws_agents s) agent = Some a /\ w = build_room_wakeup (rw_state w) a.
Proof.
  intros Hl Hkeys. unfold live, load, wakeup_state, statement in Hl. rewrite !bind_run in Hl. simpl in Hl.
  destruct (others_rest s) as (Ha & Hd & _ & _). rewrite Hd in Hl.
  destruct (decide (room ∈ ws_deleted_rooms s)) as [|Hroom]; simpl in Hl; [done|].
  destruct (map_to_list _) as [|[k b] l] eqn:E; simpl in Hl; [done|].
  assert (Hb : ws_bindings (others s) !! k = Some b /\ is_binding_of room agent (k, b)).
  { apply (map_lookup_filter_Some (is_binding_of room agent)), elem_of_map_to_list. rewrite E. apply list_elem_of_here. }
  destruct Hb as [Hb [Hr Hag]]. simpl in Hr, Hag. unfold for_state, statement in Hl.
  destruct (others_rest (others s)) as (Ha' & _). rewrite Ha', Ha, Hag in Hl.
  destruct (get_agent false (ws_agents s) agent) as [a|] eqn:Ea; simpl in Hl; [|done].
  destruct (decide (b_binding_id b = id)) as [Hid|]; [|done]. injection Hl as <- <-. simpl.
  assert (k = id) as -> by (rewrite <- Hid; symmetry; by apply (Hkeys k)).
  split_and!; [done..|]. exists a. done.
Qed.

Lemma live_fails agent room id s e s' : live agent room id s = (inl e, s') ->
  e = RoomWakeupBindingGone /\ (s' = others s \/ s' = others (others s)).
Proof.
  unfold live, load, wakeup_state, for_state, statement. rewrite !bind_run. simpl.
  destruct (if decide _ then _ else _) as [b|]; simpl; [|intros [= <- <-]; auto].
  destruct (get_agent _ _ _) as [a|]; simpl; [|intros [= <- <-]; auto].
  destruct (decide _); [done|]. intros [= <- <-]. auto.
Qed.

(** ** Writing *)
Definition started_after (current : RoomWakeup) (runtime : WakeupOverrides) (now : Z) : option Z :=
  if is_empty runtime then None
  else if is_empty (rw_runtime current) then Some now else b_runtime_started_at (rw_state current).

Lemma write_run current room runtime s :
  let s1 := others s in
  let id := b_binding_id (rw_state current) in
  let started := started_after current runtime (ws_now s) in
  (write current room runtime s = (inr Unchanged, s) /\ room = rw_room current /\ runtime = rw_runtime current) \/
  (write current room runtime s = (inr Conflict, s1) /\
     forall b, ws_bindings s1 !! id = Some b -> b_version b <> b_version (rw_state current)) \/
  (exists b, ws_bindings s1 !! id = Some b /\ b_version b = b_version (rw_state current) /\
     ~ (room = rw_room current /\ runtime = rw_runtime current) /\
     let row := with_layers (overrides_to_dict room) (overrides_to_dict runtime) started b in
     write current room runtime s = (inr (Written (build_room_wakeup row (rw_agent current))),
       set_bindings (insert id row) s1)).
Proof.
  intros s1 id started. unfold write. destruct (decide _) as [[-> ->]|Hne]; [by left|right].
  set (p := mbind _ _). assert (Hrun : p s = match ws_bindings s1 !! id with
    | Some b => if b_version b =? b_version (rw_state current)
        then let row := with_layers (overrides_to_dict room) (overrides_to_dict runtime) started b in
             (inr (Written (build_room_wakeup row (rw_agent current))), set_bindings (insert id row) s1)
        else (inr Conflict, s1)
    | None => (inr Conflict, s1) end).
  { unfold p, cas_wakeup_layers, statement, gets, mbind, prog_bind. fold s1 id.
    destruct (ws_bindings s1 !! id) as [b|] eqn:E; [|done]. destruct (b_version b =? _) eqn:Ev; [|done].
    unfold sql_cas_layers, set_bindings. by rewrite E, Ev. }
  rewrite Hrun. destruct (ws_bindings s1 !! id) as [b|] eqn:E; [|by left].
  destruct (b_version b =? _) eqn:Ev; [right; exists b; split_and!; (done || lia)|left].
  split; [done|]. intros b' [= <-]. lia.
Qed.

(** ** The passage of other transactions *)
Definition passed (n : nat) (s : Store) : Store := Nat.iter n others s.

Lemma row_keys_write m f : row_keys m -> row_keys (apply_write m f).
Proof.
  intros Hm. destruct f as [i v r t st|i|b]; simpl.
  - unfold sql_cas_layers. destruct (m !! i) as [c|] eqn:E; [|done]. case_match; [|done].
    apply map_Forall_insert_2; [|done]. by apply (Hm i c).
  - by apply map_Forall_delete.
  - destruct (m !! b_binding_id b); [done|]. by apply map_Forall_insert_2.
Qed.
Lemma row_keys_others s : row_keys (ws_bindings s) -> row_keys (ws_bindings (others s)).
Proof.
  unfold others. destruct (ws_sched s) as [|fs rest]; [done|]. simpl. generalize (ws_bindings s). clear.
  induction fs as [|f fs IH]; intros m Hm; simpl; [done|]. apply IH. by apply row_keys_write.
Qed.
Lemma passed_ok id n s : row_keys (ws_bindings s) -> never_rebound id s ->
  row_keys (ws_bindings (passed n s)) /\ never_rebound id (passed n s).
Proof.
  intros Hk Hn. induction n as [|n [IHk IHn]]; [done|]. simpl. split; [by apply row_keys_others|].
  by apply (others_moves id) in IHn as [_ ?].
Qed.
Lemma passed_add m n s : passed m (passed n s) = passed (m + n) s.
Proof. symmetry. apply Nat.iter_add. Qed.

(** The runtime layer only ever holds its own fields. *)
Definition runtime_only (o : WakeupOverrides) : Prop :=
  ov_count o = None /\ ov_autostop_rounds o = None /\ ov_on_join_enabled o = None.
Lemma parsed_runtime_only v : runtime_only (overrides_from_dict true v).
Proof. done. Qed.

(** Reading, then writing what depends on what was read: the row that is replaced is
    the row that was read. *)
Definition after_write (id : uuid) (n : nat) (s : Store) (b : Binding) (room runtime : WakeupOverrides) (s' : Store) : Prop :=
  (ws_bindings s' = ws_bindings (passed (S n) s) /\ room = overrides_from_dict false (VDict (b_room_overrides b)) /\
     runtime = overrides_from_dict true (VDict (b_runtime_overrides b))) \/
  (exists started, (started = None <-> is_empty runtime = true) /\
     ws_bindings s' = <[id := with_layers (overrides_to_dict room) (overrides_to_dict runtime) started b]>
                        (ws_bindings (passed n s))).

(** A row whose start is set exactly while its runtime layer holds something. *)
Definition started_ok (b : Binding) : Prop :=
  b_runtime_started_at b = None <-> is_empty (overrides_from_dict true (VDict (b_runtime_overrides b))) = true.

Lemma write_after_live agent room id s w s1 ro ru r s2 :
  live agent room id s = (inr w, s1) -> row_keys (ws_bindings s) -> never_rebound id s ->
  (forall b, ws_bindings (passed 1 s) !! id = Some b -> started_ok b) ->
  write w ro ru s1 = (inr r, s2) ->
  exists b, ws_bindings (passed 1 s) !! id = Some b /\ rw_state w = b /\
    b_agent_id b = agent /\ b_chatroom_id b = room /\
    match r with
    | Unchanged => s2 = passed 2 s /\ ro = rw_room w /\ ru = rw_runtime w
    | Conflict => s2 = passed 3 s
    | Written w' => exists started, (started = None <-> is_empty ru = true) /\
        let row := with_layers (overrides_to_dict ro) (overrides_to_dict ru) started b in
        ws_bindings (passed 3 s) !! id = Some b /\ w' = build_room_wakeup row (rw_agent w) /\
        s2 = set_bindings (insert id row) (passed 3 s)
    end.
Proof.
  intros Hl Hk Hn Hst Hw. destruct (live_run _ _ _ _ _ _ Hl) as (-> & Hb & Hag & Hro & _ & a & Ha & Hbw); [by apply row_keys_others|].
  exists (rw_state w). split; [done|]. split; [done|]. split; [done|]. split; [done|].
  assert (Hid : b_binding_id (rw_state w) = id) by (by apply (row_keys_others _ Hk id)).
  destruct (write_run w ro ru (others (others s))) as [(E & -> & ->)|[(E & _)|(b & Hb3 & Hv & Hne & E)]];
    rewrite E in Hw; injection Hw as <- <-; [done|done|].
  rewrite Hid in *. assert (Hrow : b = rw_state w).
  { destruct (others_moves id _ Hn) as [_ Hn1]. destruct (others_moves id _ Hn1) as [Hm2 Hn2].
    destruct (others_moves id _ Hn2) as [Hm3 _].
    eapply (same_version id (ws_bindings (others s))); [etrans; [exact Hm2|exact Hm3]|done|exact Hb3|done]. }
  subst b. eexists. split; [|split; [exact Hb3|split; reflexivity]].
  unfold started_after. destruct (is_empty ru); [done|]. destruct (is_empty (rw_runtime w)) eqn:Er; [done|].
  specialize (Hst _ Hb). unfold started_ok in Hst. rewrite Hbw in Er. simpl in Er. rewrite Hst, Er. done.
Qed.

(** What holds of the rows, now and after whatever the other transactions do. *)
Record store_ok (id : uuid) (s : Store) : Prop := {
  st_keys : row_keys (ws_bindings s);
  st_fresh : never_rebound id s;
  st_started : forall n b, ws_bindings (passed n s) !! id = Some b -> started_ok b;
}.
Lemma store_ok_passed id n s : store_ok id s -> store_ok id (passed n s).
Proof.
  intros [Hk Hn Hst]. destruct (passed_ok id n s Hk Hn) as [Hk' Hn']. split; [done..|].
  intros m b. rewrite passed_add. apply Hst.
Qed.

(** The audit trail is this service's alone. *)
Lemma passed_audit n s : ws_audit (passed n s) = ws_audit s.
Proof. induction n as [|n IH]; [done|]. simpl. by destruct (others_rest (passed n s)) as (_ & _ & _ & ->). Qed.

(** A layer that was read from a document is written back as the same layer. *)
Lemma room_layer_kept v : overrides_from_dict false (VDict (overrides_to_dict (overrides_from_dict false v))) = overrides_from_dict false v.
Proof. apply overrides_roundtrip. Qed.

Definition toggle_requested (rq : ToolRequest) : Prop :=
  is_Some (rq_every_n_messages_enabled rq) \/ is_Some (rq_silence_minutes_enabled rq).

Lemma toggle_keeps_one d room runtime obs rq soft :
  toggles_allowed (config (resolve_room_wakeup d room runtime obs)) d rq = true -> toggle_requested rq ->
  let e := resolve_room_wakeup d room (merged runtime (request_patch soft rq)) obs in
  every_on e || silence_on e = true.
Proof.
  destruct rq as [n t oe os]. unfold toggles_allowed, toggle_requested, every_on, silence_on, resolve_room_wakeup. cbv zeta. simpl.
  set (re := take (ov_every_n_messages_enabled room) id ROOM (en_enabled (every_n_messages (triggers d)), DESIGNER)).
  set (rs := take (ov_silence_minutes_enabled room) id ROOM (sm_enabled (silence_minutes (triggers d)), DESIGNER)).
  destruct re as [re sre], rs as [rs srs]. simpl.
  destruct (t_every_n_messages (self_toggle d)), (t_silence_minutes (self_toggle d)), (call_only (triggers d)), oe as [[]|], os as [[]|];
    simpl; try done; intros H [[? Hq]|[? Hq]]; try done; clear Hq; revert H;
    destruct (ov_every_n_messages_enabled runtime) as [[]|], (ov_silence_minutes_enabled runtime) as [[]|], re, rs; simpl; done.
Qed.

Lemma record_run a s : exists s', record a s = (inr tt, s') /\ ws_bindings s' = ws_bindings s /\ ws_audit s' = ws_audit s ++ [a].
Proof. eexists. by split_and!. Qed.
Lemma live_audit agent room id s : ws_audit (live agent room id s).2 = ws_audit s.
Proof.
  destruct (live agent room id s) as [[e|w] s'] eqn:E.
  - destruct (live_fails _ _ _ _ _ _ E) as (_ & [-> | ->]); [apply (passed_audit 1)|apply (passed_audit 2)].
  - unfold live, load in E. revert E. unfold wakeup_state, for_state, statement. rewrite !bind_run. simpl.
    destruct (if decide _ then _ else _) as [b|]; simpl; [|done]. destruct (get_agent _ _ _) as [a|]; simpl; [|done].
    destruct (decide _); [|done]. intros [= _ <-]. apply (passed_audit 2).
Qed.

(** What one attempt of the agent's tool leaves behind. *)
Definition tool_left (agent room id : uuid) (s : Store) (c : WakeupConfig) (s' : Store) : Prop :=
  exists n b a, ws_bindings (passed n s) !! id = Some b /\ b_agent_id b = agent /\ b_chatroom_id b = room /\
    ((exists m, ws_bindings s' = ws_bindings (passed m s)) /\ c = config (rw_effective (build_room_wakeup b a)) \/
     exists runtime started, runtime_only runtime /\ (started = None <-> is_empty runtime = true) /\
       let row := with_layers (overrides_to_dict (overrides_from_dict false (VDict (b_room_overrides b))))
                    (overrides_to_dict runtime) started b in
       c = config (rw_effective (build_room_wakeup row a)) /\ ws_bindings s' = <[id := row]> (ws_bindings (passed n s))).

Lemma merged_runtime_only v soft rq : runtime_only (merged (overrides_from_dict true v) (request_patch soft rq)).
Proof. done. Qed.

Lemma audit_tool_run patch rq s : exists s', audit_tool patch rq s = (inr tt, s') /\ ws_bindings s' = ws_bindings s.
Proof.
  unfold audit_tool. destruct rq as [n t oe os]. unfold toggles. simpl.
  destruct (clamped_fields _ _), oe, os; eexists; by split.
Qed.

Lemma written_effective ro ru started b a : runtime_only ru ->
  rw_effective (build_room_wakeup (with_layers (overrides_to_dict ro) (overrides_to_dict ru) started b) a)
  = resolve_room_wakeup (from_dict (ag_wakeup_config a)) ro ru (b_observer b).
Proof.
  intros (H1 & H2 & H3). unfold build_room_wakeup, with_layers.
  cbn [b_room_overrides b_runtime_overrides b_observer rw_effective].
  by rewrite overrides_roundtrip, (runtime_overrides_roundtrip ru H1 H2 H3).
Qed.

Lemma tune_once_left agent room id rq s r s' : store_ok id s -> tune_once agent room id rq s = (r, s') ->
  match r with
  | inl e => (e = RoomWakeupBindingGone \/ e = WakeupToggleNotAllowed) /\ exists n, s' = passed n s
  | inr None => s' = passed 3 s
  | inr (Some t) => tool_left agent room id s (tu_config t) s' /\
      (toggle_requested rq -> en_enabled (every_n_messages (triggers (tu_config t)))
                              || sm_enabled (silence_minutes (triggers (tu_config t))) = true)
  end.
Proof.
  intros [Hk Hn Hst] Hrun. unfold tune_once in Hrun. rewrite bind_run in Hrun.
  destruct (live agent room id s) as [[e|w] s1] eqn:El.
  { injection Hrun as <- <-. destruct (live_fails _ _ _ _ _ _ El) as (-> & Hs).
    split; [by left|]. destruct Hs as [-> | ->]; [by exists 1%nat|by exists 2%nat]. }
  destruct (live_run _ _ _ _ _ _ El) as (-> & Hb & Hag & Hro & _ & a & Ha & Hbw); [by apply row_keys_others|].
  destruct (toggles_allowed _ _ rq) eqn:Et in Hrun; [|injection Hrun as <- <-; split; [by right|by exists 2%nat]].
  set (patch := request_patch _ rq) in *. cbv zeta in Hrun.
  set (res := resolve_room_wakeup _ _ _ _) in Hrun.
  set (ru := if decide (config res = _) then _ else _) in Hrun.
  assert (Hru : runtime_only ru).
  { unfold ru. rewrite Hbw. case_decide; [done|apply merged_runtime_only]. }
  assert (Heff : toggle_requested rq ->
    let e := resolve_room_wakeup (rw_defaults w) (rw_room w) ru (b_observer (rw_state w)) in every_on e || silence_on e = true).
  { intros Hq. assert (Hone : every_on res || silence_on res = true).
    { subst res patch. rewrite Hbw in Et |- *. apply toggle_keeps_one; [exact Et|exact Hq]. }
    subst ru. case_decide as Hc; [|exact Hone]. unfold every_on, silence_on in Hone |- *. rewrite Hc in Hone.
    rewrite Hbw in Hone |- *. exact Hone. }
  rewrite bind_run in Hrun. destruct (write w _ ru _) as [[e|wr] s2] eqn:Ew.
  { exfalso. destruct (write_run w (rw_room w) ru (others (others s))) as [(E & _)|[(E & _)|(? & _ & _ & _ & E)]];
      rewrite E in Ew; discriminate. }
  pose proof (write_after_live _ _ _ _ _ _ _ _ _ _ El Hk Hn (Hst 1%nat) Ew) as (b & Hb1 & Hwb & _ & _ & Hr).
  subst b. destruct wr as [|w'|]; cbn [written] in Hrun.
  - destruct Hr as (-> & _ & Hrw). destruct (audit_tool_run patch rq (passed 2 s)) as (s3 & Ha3 & Hb3).
    rewrite bind_run, Ha3 in Hrun. injection Hrun as <- <-. simpl. split.
    + exists 1%nat, (rw_state w), a. split_and!; [done..|]. left. split; [by exists 2%nat|by rewrite Hbw at 1].
    + intros Hq. specialize (Heff Hq). cbv zeta in Heff. rewrite Hrw in Heff. rewrite Hbw in Heff |- *. exact Heff.
  - destruct Hr as (started & Hsr & Hb3 & -> & ->).
    rewrite bind_run in Hrun. match type of Hrun with context [audit_tool patch rq ?x] => destruct (audit_tool_run patch rq x) as (s3 & Ha3 & Hs3) end.
    rewrite Ha3 in Hrun. apply pair_eq in Hrun as [<- <-]. cbn [tu_config]. split.
    + exists 3%nat, (rw_state w), a. split_and!; [done..|]. right. exists ru, started.
      split; [done|]. split; [done|]. rewrite Hs3. rewrite Hbw. done.
    + intros Hq. rewrite (written_effective _ _ _ _ _ Hru). specialize (Heff Hq). rewrite Hbw in Heff |- *. exact Heff.
  - injection Hrun as <- <-. exact Hr.
Qed.

(** * Properties *)

(** C33. A human edit is one atomic change, or none.  When it succeeds there is a
    version of the binding, the one the client named, whose layers the edit was applied
    to, and that row was still the stored one when it was replaced: no change of
    another transaction is overwritten, and the edit is audited once.  An edit that
    changes nothing succeeds without writing or auditing anything.  When it fails, the
    binding is gone or has moved on, and this call wrote nothing.  Resets are not
    covered. *)
Theorem human_write_linearizes agent room id version patch s r s'
    (Hs : store_ok id s) (Hrun : patch_room agent room id version patch s = (r, s')) :
  match r with
  | inl e => (e = RoomWakeupBindingGone \/ e = RoomWakeupVersionConflict) /\ exists n, s' = passed n s
  | inr c =>
      exists b, ws_bindings (passed 1 s) !! id = Some b /\ b_version b = version /\
        b_agent_id b = agent /\ b_chatroom_id b = room /\
        let layers := apply_room_patch (overrides_from_dict false (VDict (b_room_overrides b)))
                        (overrides_from_dict true (VDict (b_runtime_overrides b))) patch in
        (s' = passed 2 s /\ layers.1 = rw_room (ch_wakeup c) /\ layers.2 = rw_runtime (ch_wakeup c)) \/
        (exists started, (started = None <-> is_empty layers.2 = true) /\
           let row := with_layers (overrides_to_dict layers.1) (overrides_to_dict layers.2) started b in
           ws_bindings (passed 3 s) !! id = Some b /\ rw_state (ch_wakeup c) = row /\
           ws_bindings s' = <[id := row]> (ws_bindings (passed 3 s)) /\
           ws_audit s' = ws_audit s ++ ["chatroom.agent_wakeup_updated"%string])
  end.
Proof.
  destruct Hs as [Hk Hn Hst]. unfold patch_room in Hrun. rewrite bind_run in Hrun.
  destruct (live agent room id s) as [[e|w] s1] eqn:El.
  { injection Hrun as <- <-. destruct (live_fails _ _ _ _ _ _ El) as (-> & Hs).
    split; [by left|]. destruct Hs as [-> | ->]; [by exists 1%nat|by exists 2%nat]. }
  destruct (live_run _ _ _ _ _ _ El) as (-> & _ & _ & _ & _ & a & _ & Hbw); [by apply row_keys_others|].
  destruct (b_version (rw_state w) =? version) eqn:Ev; [|injection Hrun as <- <-; split; [by right|by exists 2%nat]].
  cbv zeta in Hrun. rewrite bind_run in Hrun. destruct (write w _ _ _) as [[e|wr] s2] eqn:Ew.
  { exfalso. edestruct (write_run w) as [(E & _)|[(E & _)|(? & _ & _ & _ & E)]]; rewrite E in Ew; discriminate. }
  pose proof (write_after_live _ _ _ _ _ _ _ _ _ _ El Hk Hn (Hst 1%nat) Ew) as (b & Hb1 & <- & Hag & Hro & Hr).
  destruct wr as [|w'|]; cbn [written changed] in Hrun.
  - apply pair_eq in Hrun as [<- <-]. exists (rw_state w). destruct Hr as (-> & H1 & H2).
    split_and!; [done|lia|done..|]. left. cbn [ch_wakeup]. split; [done|]. rewrite <- H1, <- H2. by rewrite Hbw.
  - destruct Hr as (started & Hsr & Hb3 & -> & ->). apply pair_eq in Hrun as [<- <-]. exists (rw_state w).
    split_and!; [done|lia|done..|]. right. exists started. cbn [ch_wakeup]. rewrite Hbw in Hsr |- *.
    split_and!; [exact Hsr|done|done|by rewrite Hbw|]. simpl. f_equal. apply (passed_audit 3).
  - apply pair_eq in Hrun as [<- <-]. split; [by right|]. by exists 3%nat.
Qed.

(** The agent's own tool is confined to its layer.  A failed call wrote nothing,
    whether or not its first attempt lost a race; a successful one changed at most the
    runtime layer of this binding, over a row that was still the stored one, leaving
    what the room's human set as it was; and a call that asks to switch a trigger
    leaves at least one of the two autonomous triggers on. *)
Theorem tool_write_confined agent room id rq s r s'
    (Hs : store_ok id s) (Hrun : update_runtime agent room id rq s = (r, s')) :
  match r with
  | inl e => (e = RoomWakeupBindingGone \/ e = WakeupToggleNotAllowed \/ e = RoomWakeupVersionConflict) /\
      exists n, s' = passed n s
  | inr t => (exists k, tool_left agent room id (passed k s) (tu_config t) s') /\
      (toggle_requested rq -> en_enabled (every_n_messages (triggers (tu_config t)))
                              || sm_enabled (silence_minutes (triggers (tu_config t))) = true)
  end.
Proof.
  unfold update_runtime in Hrun. cbn [tune] in Hrun. rewrite bind_run in Hrun.
  destruct (tune_once agent room id rq s) as [r1 s1] eqn:E1.
  pose proof (tune_once_left _ _ _ _ _ _ _ Hs E1) as H1.
  destruct r1 as [e|[t|]]; [injection Hrun as <- <-; intuition|injection Hrun as <- <-|].
  { destruct H1 as [H1 H2]. split; [by exists 0%nat|exact H2]. }
  subst s1. rewrite bind_run in Hrun. destruct (tune_once agent room id rq (passed 3 s)) as [r2 s2] eqn:E2.
  pose proof (tune_once_left _ _ _ _ _ _ _ (store_ok_passed _ 3 _ Hs) E2) as H2.
  destruct r2 as [e|[t|]]; injection Hrun as <- <-.
  - destruct H2 as [He [n ->]]. split; [intuition|]. exists (n + 3)%nat. apply passed_add.
  - destruct H2 as [H2 H3]. split; [by exists 3%nat|exact H3].
  - subst. split; [auto|]. exists 6%nat. by rewrite passed_add.
Qed.

(** * Witnesses *)
Definition tutor : Agent := mkAgent 7 3 true [] (to_dict facilitator) false.
Definition bound_row : Binding := mkBinding 4 7 9 false 2 [] (overrides_to_dict (mkOver None (Some 8) None None None None None)) (Some 100).
(** Another tab edits the room between the tool's read and its write. *)
Definition busy : Store :=
  mkStore {[7%positive := tutor]} {[9%positive := bound_row]} ∅ 5000 []
    [[]; []; [FW_layers 9 2 (overrides_to_dict (mkOver (Some true) None None None None None None)) [] None]].
Definition quiet : Store := mkStore {[7%positive := tutor]} {[9%positive := bound_row]} ∅ 5000 [] [].

Lemma passed_quiet n : passed n quiet = quiet.
Proof. induction n as [|n IH]; [done|]. simpl. by rewrite IH. Qed.
Lemma quiet_ok : store_ok 9 quiet.
Proof.
  split; [by apply map_Forall_singleton|by constructor|]. intros n b. rewrite passed_quiet.
  intros Hb. vm_compute in Hb. injection Hb as <-. by split.
Qed.
Lemma passed_busy n : passed (3 + n) busy = passed 3 busy.
Proof. induction n as [|n IH]; [done|]. replace (3 + S n)%nat with (S (3 + n)) by lia. simpl. simpl in IH. by rewrite IH. Qed.
Lemma busy_ok : store_ok 9 busy.
Proof.
  split; [by apply map_Forall_singleton| |].
  { repeat (apply List.Forall_cons || apply List.Forall_nil); by intros ?. }
  intros n b.
  destruct n as [|[|[|n]]]; [| | |change (S (S (S n))) with (3 + n)%nat; rewrite passed_busy];
    intros Hb; vm_compute in Hb; injection Hb as <-; by split.
Qed.

Definition human_patch : WakeupOverrides := mkOver None (Some 20) None (Some false) None None None.
Lemma human_write_linearizes_witness :
  exists c s', patch_room 7 4 9 2 human_patch quiet = (inr c, s') /\
    ws_audit s' = ["chatroom.agent_wakeup_updated"%string].
Proof.
  destruct (patch_room 7 4 9 2 human_patch quiet) as [r s'] eqn:E.
  pose proof (human_write_linearizes 7 4 9 2 human_patch quiet r s' quiet_ok E) as H.
  destruct r as [e|c]; [vm_compute in E; discriminate|]. exists c, s'. split; [done|].
  destruct H as (b & Hb & _ & _ & _ & [(-> & H1 & _)|(st & _ & _ & _ & _ & ->)]); [|done].
  exfalso. vm_compute in Hb. injection Hb as <-. vm_compute in E. injection E as <- Es. vm_compute in Es. discriminate.
Defined.

(** The first attempt loses to the other tab; the second, over the new row, wins. *)
Lemma tool_write_confined_witness :
  exists t s', update_runtime 7 4 9 (mkRequest None None None (Some false)) busy = (inr t, s') /\
    en_enabled (every_n_messages (triggers (tu_config t))) || sm_enabled (silence_minutes (triggers (tu_config t))) = true.
Proof.
  destruct (update_runtime 7 4 9 (mkRequest None None None (Some false)) busy) as [r s'] eqn:E.
  pose proof (tool_write_confined 7 4 9 _ busy r s' busy_ok E) as H.
  destruct r as [e|t]; [vm_compute in E; discriminate|]. exists t, s'. split; [done|].
  apply H. right. by eexists.
Defined.

(** The same two calls, run: a clamped wish is audited as such, and an edit against an
    old version conflicts. *)
Example tool_and_human_run :
  ws_audit (update_runtime 7 4 9 (mkRequest (Some 1) None None (Some false)) quiet).2
    = ["agent.wakeup_clamped"; "agent.wakeup_toggled"]%string /\
  (b_version <$> (ws_bindings (update_runtime 7 4 9 (mkRequest None None None (Some false)) busy).2 !! 9%positive)) = Some 4 /\
  (patch_room 7 4 9 1 human_patch quiet).1 = inl RoomWakeupVersionConflict /\
  (patch_room 7 4 9 2 human_patch busy).1 = inl RoomWakeupVersionConflict.
Proof. vm_compute. done. Qed.
