(* ===== verification/Interleave.v ===== *)
(** * Concurrent processes over a shared store

    The worker's coroutines yield at every [await], and several worker processes share
    Redis and the database.  A coroutine is here a [proc]: a sequence of atomic steps on
    a shared state [W], each chosen from what the previous ones returned, ending in a
    result or an exception; a step may be blocked.  [run] executes one alone; [cstep]
    interleaves a pool of them with crashes and with an environment; [safe] is a
    rely-guarantee triple, proved once and for all sound in [reach_good]. *)

From S2P Require Import Prelude.

(** What becomes of a command sent over the network. *)
Inductive fate := Answered | Lost | Unanswered.

Section proc.
Context {E W : Type}.

Inductive proc (A : Type) : Type :=
  | Done (r : E + A)
  | Step (f : W -> option (proc A * W)).
#[global] Arguments Done {A}.
#[global] Arguments Step {A}.

Fixpoint proc_ind' {A} (P : proc A -> Prop) (HD : forall r, P (Done r))
    (HS : forall f, (forall w m w', f w = Some (m, w') -> P m) -> P (Step f)) (m : proc A) : P m :=
  match m with
  | Done r => HD r
  | Step f => HS f (fun w =>
      match f w as o return (forall m w', o = Some (m, w') -> P m) with
      | Some (m0, w0) => fun m w' H =>
          eq_ind m0 P (proc_ind' P HD HS m0) m (f_equal (fun o => match o with Some (x, _) => x | None => m0 end) H)
      | None => fun m w' H => match eq_ind None (fun o => match o with None => True | Some _ => False end) I _ H with end
      end)
  end.

(** Continue with whatever comes out, a result or an exception. *)
Fixpoint handle {A B} (m : proc A) (k : E + A -> proc B) : proc B :=
  match m with
  | Done r => k r
  | Step f => Step (fun w => match f w with Some (m', w') => Some (handle m' k, w') | None => None end)
  end.

#[global] Instance proc_ret : MRet proc := fun A a => Done (inr a).
#[global] Instance proc_bind : MBind proc := fun A B k m =>
  handle m (fun r => match r with inl e => Done (inl e) | inr a => k a end).
Definition raise {A} (e : E) : proc A := Done (inl e).
(** [try: m except Exception as e: k e] *)
Definition catch {A} (m : proc A) (k : E -> proc A) : proc A :=
  handle m (fun r => match r with inl e => k e | inr a => Done (inr a) end).
(** [try: m finally: c]; an exception of [c] replaces the outcome. *)
Definition finally {A} (m : proc A) (c : proc unit) : proc A :=
  handle m (fun r => handle c (fun rc => match rc with inl e => Done (inl e) | inr _ => Done r end)).

(** One atomic action; one that may have to wait. *)
Definition act {A} (f : W -> (E + A) * W) : proc A := Step (fun w => Some (Done (f w).1, (f w).2)).
Definition get {A} (f : W -> A) : proc A := act (fun w => (inr (f w), w)).
Definition await {A} (f : W -> option (A * W)) : proc A :=
  Step (fun w => match f w with Some (a, w') => Some (Done (inr a), w') | None => None end).

Fixpoint for_all {A} (l : list A) (f : A -> proc Z) : proc Z :=
  match l with [] => mret 0 | x :: l => n ← f x; k ← for_all l f; mret (n + k) end.

(** ** A process alone *)
Fixpoint run {A} (m : proc A) (w : W) : option ((E + A) * W) :=
  match m with
  | Done r => Some (r, w)
  | Step f => match f w with Some (m', w') => run m' w' | None => None end
  end.

Lemma run_handle {A B} (m : proc A) (k : E + A -> proc B) w :
  run (handle m k) w = match run m w with Some (r, w') => run (k r) w' | None => None end.
Proof.
  revert w. induction m as [r|f IH] using proc_ind'; intros w; [done|]. simpl.
  destruct (f w) as [[m' w']|] eqn:Ef; [|done]. by apply (IH _ _ _ Ef).
Qed.
Lemma run_bind {A B} (m : proc A) (k : A -> proc B) w :
  run (m ≫= k) w = match run m w with
    | Some (inr a, w') => run (k a) w' | Some (inl e, w') => Some (inl e, w') | None => None end.
Proof. unfold mbind, proc_bind. rewrite run_handle. by destruct (run m w) as [[[e|a] w']|]. Qed.
Lemma run_bind_inr {A B} (m : proc A) (k : A -> proc B) w b w' :
  run (m ≫= k) w = Some (inr b, w') -> exists a w1, run m w = Some (inr a, w1) /\ run (k a) w1 = Some (inr b, w').
Proof. rewrite run_bind. destruct (run m w) as [[[e|a] w1]|]; [done| |done]. by exists a, w1. Qed.
Lemma run_act {A} (f : W -> (E + A) * W) w : run (act f) w = Some (f w).
Proof. simpl. by destruct (f w). Qed.

Lemma run_finally_done {A} (r : E + A) (c : proc unit) w :
  run (finally (Done r) c) w = match run c w with
    | Some (inr _, w') => Some (r, w') | Some (inl e, w') => Some (inl e, w') | None => None end.
Proof. unfold finally. simpl. rewrite run_handle. by destruct (run c w) as [[[e|u] w']|]. Qed.
Lemma run_for_all_cons {A} (x : A) (l : list A) (f : A -> proc Z) w :
  run (for_all (x :: l) f) w = match run (f x) w with
    | Some (inr n, w1) => match run (for_all l f) w1 with Some (inr k, w2) => Some (inr (n + k), w2) | o => o end
    | o => o end.
Proof.
  simpl. rewrite run_bind. destruct (run (f x) w) as [[[e|n] w1]|]; [done| |done].
  rewrite run_bind. by destruct (run (for_all l f) w1) as [[[e|k] w2]|].
Qed.

(** [keeps R m]: whatever [m] does alone, raising or not, relates the states by [R]. *)
Section keeps.
Context (R : W -> W -> Prop) `{!PreOrder R}.
Definition keeps {A} (m : proc A) : Prop := forall w r w', run m w = Some (r, w') -> R w w'.
Lemma keeps_done {A} (r : E + A) : keeps (Done r).
Proof. intros w r' w' [= _ <-]. reflexivity. Qed.
Lemma keeps_act {A} (f : W -> (E + A) * W) : (forall w, R w (f w).2) -> keeps (act f).
Proof. intros H w r w'. rewrite run_act. intros [= Hf]. specialize (H w). by rewrite Hf in H. Qed.
Lemma keeps_get {A} (f : W -> A) : keeps (get f).
Proof. apply keeps_act. intros w. simpl. reflexivity. Qed.
Lemma keeps_handle {A B} (m : proc A) (k : E + A -> proc B) : keeps m -> (forall r, keeps (k r)) -> keeps (handle m k).
Proof.
  intros Hm Hk w r w'. rewrite run_handle. destruct (run m w) as [[r1 w1]|] eqn:E1; [|done]. intros H.
  etrans; [by eapply Hm|by eapply Hk].
Qed.
Lemma keeps_bind {A B} (m : proc A) (k : A -> proc B) : keeps m -> (forall a, keeps (k a)) -> keeps (m ≫= k).
Proof. intros Hm Hk. apply keeps_handle; [done|]. intros [e|a]; [apply keeps_done|apply Hk]. Qed.
Lemma keeps_catch {A} (m : proc A) (k : E -> proc A) : keeps m -> (forall e, keeps (k e)) -> keeps (catch m k).
Proof. intros Hm Hk. apply keeps_handle; [done|]. intros [e|a]; [apply Hk|apply keeps_done]. Qed.
End keeps.

(** [after Q m w]: [Q] holds of the outcome of [m] alone from [w]. *)
Definition after {A} (Q : E + A -> W -> Prop) (m : proc A) (w : W) : Prop :=
  match run m w with Some (r, w') => Q r w' | None => True end.
Lemma after_handle {A B} (Q : E + B -> W -> Prop) (m : proc A) (k : E + A -> proc B) w :
  after (fun r => after Q (k r)) m w -> after Q (handle m k) w.
Proof. unfold after. rewrite run_handle. by destruct (run m w) as [[r w']|]. Qed.
Lemma after_bind {A B} (Q : E + B -> W -> Prop) (m : proc A) (k : A -> proc B) w :
  after (fun r w' => match r with inl e => Q (inl e) w' | inr a => after Q (k a) w' end) m w -> after Q (m ≫= k) w.
Proof. intros H. apply after_handle. unfold after in H |- *. destruct (run m w) as [[[e|a] w']|]; [done..|exact I]. Qed.
Lemma after_catch {A} (Q : E + A -> W -> Prop) (m : proc A) (k : E -> proc A) w :
  after (fun r w' => match r with inl e => after Q (k e) w' | inr a => Q (inr a) w' end) m w -> after Q (catch m k) w.
Proof. intros H. apply after_handle. unfold after in H |- *. destruct (run m w) as [[[e|a] w']|]; [done..|exact I]. Qed.
Lemma after_act {A} (Q : E + A -> W -> Prop) (f : W -> (E + A) * W) w : Q (f w).1 (f w).2 -> after Q (act f) w.
Proof. unfold after. rewrite run_act. by destruct (f w). Qed.
Lemma after_get {A} (Q : E + A -> W -> Prop) (f : W -> A) w : Q (inr (f w)) w -> after Q (get f) w.
Proof. intros H. by apply after_act. Qed.
Lemma after_mono {A} (Q Q' : E + A -> W -> Prop) (m : proc A) w : (forall r w', Q r w' -> Q' r w') -> after Q m w -> after Q' m w.
Proof. unfold after. destruct (run m w) as [[r w']|]; auto. Qed.

(** ** Pools *)
Context {Res : Type}.
Record conf := mkConf { world : W; pool : gmap positive (proc Res) }.

(** [program p m]: the coroutine [m] is one that process [p] starts; [crash p] is what
    the loss of process [p] does to the shared state; [env alive] is what happens
    besides, while the processes of [alive] run. *)
Context (program : positive -> proc Res -> Prop) (crash : positive -> W -> W)
  (env : gset positive -> W -> W -> Prop) (fresh : positive -> W -> Prop).

Inductive cstep : conf -> conf -> Prop :=
  | cs_run p f m' w w' pl : pl !! p = Some (Step f) -> f w = Some (m', w') ->
      cstep (mkConf w pl) (mkConf w' (<[p := m']> pl))
  | cs_again p r m w pl : pl !! p = Some (Done r) -> program p m -> cstep (mkConf w pl) (mkConf w (<[p := m]> pl))
  | cs_spawn p m w pl : pl !! p = None -> fresh p w -> program p m -> cstep (mkConf w pl) (mkConf w (<[p := m]> pl))
  | cs_crash p m w pl : pl !! p = Some m -> cstep (mkConf w pl) (mkConf (crash p w) (delete p pl))
  | cs_env w w' pl : env (dom pl) w w' -> cstep (mkConf w pl) (mkConf w' pl).
Definition reach : conf -> conf -> Prop := rtc cstep.

(** ** Rely and guarantee

    [rely p] is what process [p] may assume of the others' steps. *)
Context (inv : W -> Prop) (rely : positive -> W -> W -> Prop) (post : positive -> E + Res -> W -> Prop)
  `{Hpre : !forall p, PreOrder (rely p)}.

Fixpoint safe {A} (p : positive) (m : proc A) (Q : E + A -> W -> Prop) (w : W) : Prop :=
  match m with
  | Done r => forall w1, rely p w w1 -> inv w1 -> Q r w1
  | Step f => forall w1, rely p w w1 -> inv w1 ->
      match f w1 with
      | Some (m', w2) => inv w2 /\ (forall q, q <> p -> rely q w1 w2) /\ safe p m' Q w2
      | None => True
      end
  end.

Lemma safe_rely {A} p (m : proc A) Q w w' : safe p m Q w -> rely p w w' -> safe p m Q w'.
Proof. destruct m as [r|f]; simpl; intros H Hr w1 Hr1 Hi; apply H; [by etrans|done|by etrans|done]. Qed.

Lemma safe_mono {A} p (m : proc A) (Q Q' : E + A -> W -> Prop) w :
  safe p m Q w -> (forall r w, inv w -> Q r w -> Q' r w) -> safe p m Q' w.
Proof.
  intros H HQ. revert w H. induction m as [r|f IH] using proc_ind'; simpl; intros w H w1 Hr Hi; [auto|].
  specialize (H w1 Hr Hi). destruct (f w1) as [[m' w2]|] eqn:Ef; [|done]. destruct H as (H1 & H2 & H3).
  split_and!; [done..|]. by apply (IH _ _ _ Ef).
Qed.

Lemma safe_handle {A B} p (m : proc A) (k : E + A -> proc B) Q w :
  inv w -> safe p m (fun r w' => safe p (k r) Q w') w -> safe p (handle m k) Q w.
Proof.
  revert w. induction m as [r|f IH] using proc_ind'; simpl; intros w Hi H; [by apply H|].
  intros w1 Hr Hi1. specialize (H w1 Hr Hi1). destruct (f w1) as [[m' w2]|] eqn:Ef; [|done].
  destruct H as (H1 & H2 & H3). split_and!; [done..|]. by apply (IH _ _ _ Ef).
Qed.
Lemma safe_bind {A B} p (m : proc A) (k : A -> proc B) Q w :
  inv w -> safe p m (fun r w' => match r with inl e => Q (inl e) w' | inr a => safe p (k a) Q w' end) w ->
  (forall e w w', rely p w w' -> Q (inl e) w -> Q (inl e) w') -> safe p (m ≫= k) Q w.
Proof.
  intros Hi H Hst. apply safe_handle; [done|]. eapply safe_mono; [exact H|].
  intros [e|a] w' Hw' HQ; [|done]. simpl. intros w1 Hr _. by apply (Hst e w').
Qed.
Lemma safe_act {A} p (f : W -> (E + A) * W) (Q : E + A -> W -> Prop) w :
  (forall w1, rely p w w1 -> inv w1 -> inv (f w1).2 /\ (forall q, q <> p -> rely q w1 (f w1).2) /\
     forall w2, rely p (f w1).2 w2 -> inv w2 -> Q (f w1).1 w2) ->
  safe p (act f) Q w.
Proof. intros H w1 Hr Hi. simpl. destruct (H w1 Hr Hi) as (H1 & H2 & H3). done. Qed.
Lemma safe_done {A} p (r : E + A) (Q : E + A -> W -> Prop) w :
  Q r w -> (forall w1, rely p w w1 -> inv w1 -> Q r w -> Q r w1) -> safe p (Done r) Q w.
Proof. intros H Hst w1 Hr Hi. by apply Hst. Qed.

(** Hoare triples of a process among the others: [P] before, [Q] after, however it ends. *)
Definition stable (p : positive) (P : W -> Prop) : Prop := forall w w', rely p w w' -> inv w' -> P w -> P w'.
Definition triple {A} (p : positive) (P : W -> Prop) (m : proc A) (Q : E + A -> W -> Prop) : Prop :=
  forall w, inv w -> P w -> safe p m Q w.

Lemma triple_handle {A B} p P (m : proc A) (R : E + A -> W -> Prop) (k : E + A -> proc B) Q :
  triple p P m R -> (forall r, triple p (R r) (k r) Q) -> triple p P (handle m k) Q.
Proof.
  intros Hm Hk w Hi HP. apply safe_handle; [done|]. eapply safe_mono; [by apply Hm|]. intros r w' Hi' HR. by apply Hk.
Qed.
Lemma triple_done {A} p (r : E + A) (Q : E + A -> W -> Prop) : stable p (Q r) -> triple p (Q r) (Done r) Q.
Proof. intros Hst w Hi HQ w1 Hr Hi1. by apply (Hst w w1). Qed.
Lemma triple_conseq {A} p (P P' : W -> Prop) (m : proc A) (Q Q' : E + A -> W -> Prop) :
  triple p P m Q -> (forall w, inv w -> P' w -> P w) -> (forall r w, inv w -> Q r w -> Q' r w) -> triple p P' m Q'.
Proof. intros H HP HQ w Hi HP'. eapply safe_mono; [apply H; auto|auto]. Qed.
Lemma triple_bind {A B} p P (m : proc A) (R : A -> W -> Prop) (k : A -> proc B) Q :
  triple p P m (fun r => match r with inl e => Q (inl e) | inr a => R a end) ->
  (forall a, triple p (R a) (k a) Q) -> (forall e, stable p (Q (inl e))) -> triple p P (m ≫= k) Q.
Proof.
  intros Hm Hk Hst. unfold mbind, proc_bind. eapply triple_handle; [exact Hm|]. intros [e|a]; [|apply Hk].
  by apply (triple_done p (inl e) Q).
Qed.
Lemma triple_act {A} p P (f : W -> (E + A) * W) (Q : E + A -> W -> Prop) :
  stable p P -> (forall r, stable p (Q r)) ->
  (forall w, inv w -> P w -> inv (f w).2 /\ (forall q, q <> p -> rely q w (f w).2) /\ Q (f w).1 (f w).2) ->
  triple p P (act f) Q.
Proof.
  intros HP HQ H w Hi HPw. apply safe_act. intros w1 Hr Hi1.
  destruct (H w1 Hi1 (HP _ _ Hr Hi1 HPw)) as (H1 & H2 & H3). split_and!; [done..|].
  intros w2 Hr2 Hi2. by apply (HQ _ _ _ Hr2 Hi2).
Qed.

(** Every process is safe, and one that has ended left what it promised; a process in a
    state [ready] for it can be started. *)
Definition good (c : conf) : Prop :=
  inv (world c) /\ forall p m, pool c !! p = Some m -> safe p m (post p) (world c).

Context (ready : positive -> W -> Prop)
  (Hprogram : forall p m w, program p m -> inv w -> ready p w -> safe p m (post p) w)
  (Hfresh : forall p w, fresh p w -> inv w -> ready p w)
  (Hpost : forall p r w, post p r w -> inv w -> ready p w)
  (Hcrash : forall p w, inv w -> inv (crash p w) /\ forall q, q <> p -> rely q w (crash p w))
  (Henv : forall alive w w', env alive w w' -> inv w -> inv w' /\ forall q, q ∈ alive -> rely q w w').

Lemma cstep_good c c' : cstep c c' -> good c -> good c'.
Proof.
  intros [p f m' w w' pl Hp Hf|p r m w pl Hp Hm|p m w pl Hp Hfr Hm|p m w pl Hp|w w' pl He] [Hi Hs]; unfold good; simpl in *.
  - pose proof (Hs p _ Hp) as Hsp. simpl in Hsp. specialize (Hsp w (PreOrder_Reflexive _) Hi). rewrite Hf in Hsp.
    destruct Hsp as (Hi' & Hg & Hs'). split; [done|]. intros q mq [[<- <-]|[Hne Hq]]%lookup_insert_Some; [done|].
    eapply safe_rely; [by apply Hs|by apply Hg].
  - split; [done|]. intros q mq [[<- <-]|[Hne Hq]]%lookup_insert_Some; [|by apply Hs].
    apply Hprogram; [done..|]. pose proof (Hs p _ Hp) as Hsp. simpl in Hsp. apply (Hpost p r); [by apply Hsp|done].
  - split; [done|]. intros q mq [[<- <-]|[Hne Hq]]%lookup_insert_Some; [|by apply Hs].
    apply Hprogram; [done..|]. by apply Hfresh.
  - destruct (Hcrash p w Hi) as [Hi' Hg]. split; [done|]. intros q mq [Hne Hq]%lookup_delete_Some.
    eapply safe_rely; [by apply Hs|]. apply Hg. congruence.
  - destruct (Henv _ _ _ He Hi) as [Hi' Hg]. split; [done|]. intros q mq Hq.
    eapply safe_rely; [by apply Hs|]. apply Hg, elem_of_dom. by eexists.
Qed.
Lemma reach_good c c' : reach c c' -> good c -> good c'.
Proof. induction 1 as [|c c1 c2 H _ IH]; [done|]. intros Hg. by apply IH, (cstep_good c). Qed.
(** What every step does to the rest, a whole run does. *)
Lemma reach_relates (R : W -> W -> Prop) `{!PreOrder R} c c' :
  (forall p w w', rely p w w' -> R w w') -> (forall p w, R w (crash p w)) -> (forall alive w w', env alive w w' -> R w w') ->
  reach c c' -> good c -> R (world c) (world c').
Proof.
  intros HR Hc He. induction 1 as [|c c1 c2 H _ IH]; intros Hg; [reflexivity|].
  etrans; [|by apply IH, (cstep_good c)]. clear IH. destruct H as [p f m' w w' pl Hp Hf| | | |]; simpl; try reflexivity; eauto.
  destruct Hg as [Hi Hs]. specialize (Hs p _ Hp w (PreOrder_Reflexive _) Hi). rewrite Hf in Hs.
  destruct Hs as (_ & Hg & _). apply (HR (Pos.succ p)), Hg. lia.
Qed.
(** A process that has ended satisfies its postcondition. *)
Lemma good_done c p r : good c -> pool c !! p = Some (Done r) -> post p r (world c).
Proof. intros [Hi Hs] Hp. specialize (Hs p _ Hp). simpl in Hs. by apply Hs. Qed.
End proc.

#[global] Arguments proc : clear implicits.
#[global] Arguments conf : clear implicits.

(** A process of one part of the state, as one of the whole. *)
Fixpoint on_second {E W X A} (m : proc E X A) : proc E (W * X) A :=
  match m with
  | Done r => Done r
  | Step f => Step (fun w => match f w.2 with Some (m', x) => Some (on_second m', (w.1, x)) | None => None end)
  end.

(** ** A relation every step respects

    [moves R m]: each atomic step of [m], wherever the others have brought the state in
    between, relates the states by [R].  Then so does all that a pool of such processes
    does, and each alone. *)
Section moves.
Context {E W Res : Type} (R : W -> W -> Prop).
Fixpoint moves {A} (m : proc E W A) : Prop :=
  match m with
  | Done _ => True
  | Step f => forall w, match f w with Some (m', w') => R w w' /\ moves m' | None => True end
  end.
Lemma moves_act {A} (f : W -> (E + A) * W) : (forall w, R w (f w).2) -> moves (act f).
Proof. intros H w. by split. Qed.
Lemma moves_handle {A B} (m : proc E W A) (k : E + A -> proc E W B) : moves m -> (forall r, moves (k r)) -> moves (handle m k).
Proof.
  intros Hm Hk. induction m as [r|f IH] using proc_ind'; [apply Hk|]. intros w. simpl. specialize (Hm w).
  destruct (f w) as [[m1 w1]|] eqn:Ef; [|done]. destruct Hm as [H1 H2]. split; [done|]. by apply (IH w m1 w1 Ef).
Qed.
Lemma moves_bind {A B} (m : proc E W A) (k : A -> proc E W B) : moves m -> (forall a, moves (k a)) -> moves (m ≫= k).
Proof. intros Hm Hk. apply moves_handle; [done|]. by intros [e|a]. Qed.
Lemma moves_catch {A} (m : proc E W A) (k : E -> proc E W A) : moves m -> (forall e, moves (k e)) -> moves (catch m k).
Proof. intros Hm Hk. apply moves_handle; [done|]. by intros [e|a]. Qed.

Context `{!PreOrder R}.
Lemma moves_get {A} (f : W -> A) : moves (get f).
Proof. apply moves_act. intros w. reflexivity. Qed.
Lemma moves_keeps {A} (m : proc E W A) : moves m -> keeps R m.
Proof.
  induction m as [r|f IH] using proc_ind'; intros Hm w r' w'; simpl; [intros [= _ <-]; reflexivity|].
  specialize (Hm w).
  destruct (f w) as [[m1 w1]|] eqn:Ef; [|done]. intros Hr. destruct Hm as [H1 H2]. etrans; [exact H1|]. by apply (IH w m1 w1 Ef H2 w1 r' w').
Qed.

Context (program : positive -> proc E W Res -> Prop) (crash : positive -> W -> W)
  (env : gset positive -> W -> W -> Prop) (fresh : positive -> W -> Prop).
Lemma reach_moves (c c' : conf E W Res) : (forall p m, program p m -> moves m) -> (forall p w, R w (crash p w)) ->
  (forall alive w w', env alive w w' -> R w w') -> reach program crash env fresh c c' ->
  (forall p m, pool c !! p = Some m -> moves m) ->
  R (world c) (world c') /\ forall p m, pool c' !! p = Some m -> moves m.
Proof.
  intros Hp Hc He. induction 1 as [c|c c1 c2 Hs _ IH]; intros Hm; [split; [reflexivity|done]|].
  assert (R (world c) (world c1) /\ forall p m, pool c1 !! p = Some m -> moves m) as [H1 H2].
  { destruct Hs as [p f m' w w' pl Hl Hf|p r m w pl Hl Hpm|p m w pl Hl Hfr Hpm|p m w pl Hl|w w' pl He']; simpl in *.
    - pose proof (Hm p _ Hl w) as Hw. rewrite Hf in Hw. destruct Hw as [Ha Hb]. split; [done|]. intros q m [[<- <-]|[_ Hq]]%lookup_insert_Some; [done|by apply (Hm q)].
    - split; [reflexivity|]. intros q mq [[<- <-]|[_ Hq]]%lookup_insert_Some; [by apply (Hp p)|by apply (Hm q)].
    - split; [reflexivity|]. intros q mq [[<- <-]|[_ Hq]]%lookup_insert_Some; [by apply (Hp p)|by apply (Hm q)].
    - split; [apply Hc|]. intros q mq [_ Hq]%lookup_delete_Some. by apply (Hm q).
    - split; [by apply (He (dom pl))|done]. }
  destruct (IH H2) as [H3 H4]. split; [by etrans|done].
Qed.
End moves.

(** [among R Q m w]: however the others, whose steps relate states by [R], run before and
    between the steps of [m] from [w] on, its outcome satisfies [Q] where it ends. *)
Section among.
Context {E W : Type} (R : W -> W -> Prop).
Fixpoint among {A} (Q : E + A -> W -> Prop) (m : proc E W A) (w : W) : Prop :=
  match m with
  | Done r => Q r w
  | Step f => forall w1, R w w1 -> match f w1 with Some (m', w2) => among Q m' w2 | None => True end
  end.
Lemma among_mono {A} (Q Q' : E + A -> W -> Prop) (m : proc E W A) w :
  (forall r w', Q r w' -> Q' r w') -> among Q m w -> among Q' m w.
Proof.
  intros HQ. revert w. induction m as [r|f IH] using proc_ind'; intros w; simpl; [apply HQ|]. intros H w1 Hr. specialize (H w1 Hr).
  destruct (f w1) as [[m' w2]|] eqn:Ef; [|done]. by apply (IH _ _ _ Ef).
Qed.
Lemma among_any {A} (Q : E + A -> W -> Prop) (m : proc E W A) w : (forall r w', Q r w') -> among Q m w.
Proof.
  intros HQ. revert w. induction m as [r|f IH] using proc_ind'; intros w; simpl; [apply HQ|]. intros w1 _.
  destruct (f w1) as [[m' w2]|] eqn:Ef; [|done]. by apply (IH _ _ _ Ef).
Qed.
Lemma among_handle {A B} (Q : E + B -> W -> Prop) (m : proc E W A) (k : E + A -> proc E W B) w :
  among (fun r w' => among Q (k r) w') m w -> among Q (handle m k) w.
Proof.
  revert w. induction m as [r|f IH] using proc_ind'; intros w; simpl; [done|]. intros H w1 Hr. specialize (H w1 Hr).
  destruct (f w1) as [[m' w2]|] eqn:Ef; [|done]. by apply (IH _ _ _ Ef).
Qed.
Lemma among_bind {A B} (Q : E + B -> W -> Prop) (m : proc E W A) (k : A -> proc E W B) w :
  among (fun r w' => match r with inl e => Q (inl e) w' | inr a => among Q (k a) w' end) m w -> among Q (m ≫= k) w.
Proof. intros H. apply among_handle. eapply among_mono; [|exact H]. by intros [e|a] w'. Qed.
Lemma among_act {A} (Q : E + A -> W -> Prop) (f : W -> (E + A) * W) w : (forall w1, R w w1 -> Q (f w1).1 (f w1).2) -> among Q (act f) w.
Proof. done. Qed.
Lemma among_get {A} (Q : E + A -> W -> Prop) (f : W -> A) w : (forall w1, R w w1 -> Q (inr (f w1)) w1) -> among Q (get f) w.
Proof. done. Qed.
(** What every step respects, the whole respects. *)
Lemma among_moves (S : W -> W -> Prop) `{!PreOrder S} {A} (m : proc E W A) w :
  (forall w w', R w w' -> S w w') -> moves S m -> among (fun _ w' => S w w') m w.
Proof.
  intros HS. revert w. induction m as [r|f IH] using proc_ind'; intros w Hm; simpl; [reflexivity|]. intros w1 Hr. specialize (Hm w1).
  destruct (f w1) as [[m' w2]|] eqn:Ef; [|done]. destruct Hm as [H1 H2]. eapply among_mono; [|by apply (IH _ _ _ Ef)].
  intros r w3 H3. etrans; [by apply HS|]. by etrans.
Qed.
(** Alone, in particular. *)
Lemma among_run {A} (Q : E + A -> W -> Prop) (m : proc E W A) w : (forall w, R w w) -> among Q m w -> after Q m w.
Proof.
  intros HR. unfold after. revert w. induction m as [r|f IH] using proc_ind'; intros w; simpl; [done|]. intros H. specialize (H w (HR w)).
  destruct (f w) as [[m' w2]|] eqn:Ef; [|done]. by apply (IH _ _ _ Ef).
Qed.
End among.

(** Take a program apart down to the steps [leaf] proves, for a property of programs that
    sequencing, handling and catching preserve. *)
Ltac walk leaf bind handle catch :=
  lazymatch goal with
  | |- forall _, _ => intros ?; walk leaf bind handle catch
  | |- _ =>
    solve [leaf] ||
    lazymatch goal with
    | |- _ (mbind _ _) => bind; walk leaf bind handle catch
    | |- _ (Interleave.handle _ _) => handle; walk leaf bind handle catch
    | |- _ (Interleave.catch _ _) => catch; walk leaf bind handle catch
    | |- _ (if ?b then _ else _) => destruct b; walk leaf bind handle catch
    | |- _ (match ?x with _ => _ end) => destruct x; walk leaf bind handle catch
    | _ => idtac
    end
  end.
