(* ===== verification/Envelope.v ===== *)
(** * The wire format of inter-agent messages

    [A2AEnvelope] of [contexts/orchestration/domain/models.py]: what the streams carry,
    and how it is read back from any JSON value, by [from_dict], with the exception each
    malformed value raises.  Identifiers and instants are written and read by the
    standard library: [Codec] is what the code relies on. *)

From S2P Require Import Prelude PyFloat PyValue.

(** [str(x)] and its inverse, [uuid.UUID] or [datetime.fromisoformat]. *)
Class Codec (A : Type) := {
  show : A -> string;
  read : string -> option A;
  read_show : forall a, read (show a) = Some a;
  show_nonempty : forall a, show a <> ""%string;
}.

(** ** Reading *)
Definition subscript (k : string) (v : pyval) : res pyval :=
  match v with
  | VDict d => match dict_get k d with Some x => Ok x | None => Raise KeyError end
  | _ => Raise TypeError
  end.
(** [data.get(k)]: on a value without [get] the attribute is missing. *)
Definition get_field (k : string) (default_ : pyval) (v : pyval) : res pyval :=
  match v with VDict d => Ok (dict_get_or k default_ d) | _ => Raise AttributeError end.

Section codec.
Context `{!Codec uuid}.

(** [uuid.UUID(v)]: the constructor calls [replace] on its argument. *)
Definition as_uuid (v : pyval) : res uuid :=
  match v with
  | VStr s => match read s with Some u => Ok u | None => Raise ValueError end
  | VNone => Raise TypeError
  | _ => Raise AttributeError
  end.
Definition as_uuid_opt (v : pyval) : res (option uuid) :=
  if py_bool v then u ← as_uuid v; Ok (Some u) else Ok None.
End codec.

(** [datetime.fromisoformat(v)] *)
Definition as_instant `{!Codec Z} (v : pyval) : res Z :=
  match v with
  | VStr s => match read s with Some t => Ok t | None => Raise ValueError end
  | _ => Raise TypeError
  end.
(** [tuple(v or ())] *)
Definition as_tuple (v : pyval) : res (list pyval) :=
  if py_bool v then
    match v with
    | VList l => Ok l
    | VStr s => Ok (map (fun c => VStr (String c EmptyString)) (chars s))
    | VDict d => Ok (map (fun kv => VStr kv.1) d)
    | _ => Raise TypeError
    end
  else Ok [].

Inductive A2AMessageType := M_CALL | M_REPLY | M_NOTIFY | M_INSTRUCT.
#[export] Instance A2AMessageType_eq_dec : EqDecision A2AMessageType.
Proof. solve_decision. Defined.
Definition message_type_value (t : A2AMessageType) : string :=
  match t with M_CALL => "call" | M_REPLY => "reply" | M_NOTIFY => "notify" | M_INSTRUCT => "instruct" end.
Definition as_message_type (v : pyval) : res A2AMessageType :=
  match v with
  | VStr "call" => Ok M_CALL | VStr "reply" => Ok M_REPLY
  | VStr "notify" => Ok M_NOTIFY | VStr "instruct" => Ok M_INSTRUCT
  | _ => Raise ValueError
  end.

(** ** The envelope

    [from_dict] does not check what it stores in [to_agent], [payload] and the paths. *)
Record Envelope := mkEnv {
  e_id : uuid;
  e_from_agent : option uuid;
  e_to_agent : pyval;
  e_workflow_run_id : option uuid;
  e_type : A2AMessageType;
  e_payload : pyval;
  e_correlation_id : uuid;
  e_created_at : Z;
  e_call_depth : Z;
  e_call_path : list pyval;
  e_trigger_depth : Z;
  e_trigger_path : list pyval;
}.

Section envelope.
Context `{!Codec uuid, !Codec Z}.

Definition show_opt (u : option uuid) : pyval := match u with Some u => VStr (show u) | None => VNone end.

Definition to_dict (e : Envelope) : pydict :=
  [("id", VStr (show (e_id e))); ("from_agent", show_opt (e_from_agent e)); ("to_agent", e_to_agent e);
   ("workflow_run_id", show_opt (e_workflow_run_id e)); ("type", VStr (message_type_value (e_type e)));
   ("payload", e_payload e); ("correlation_id", VStr (show (e_correlation_id e)));
   ("created_at", VStr (show (e_created_at e))); ("call_depth", VInt (e_call_depth e));
   ("call_path", VList (e_call_path e)); ("trigger_depth", VInt (e_trigger_depth e));
   ("trigger_path", VList (e_trigger_path e))]%string.

Definition from_dict (data : pyval) : res Envelope :=
  id ← subscript "id" data ≫= as_uuid;
  from_agent ← get_field "from_agent" VNone data ≫= as_uuid_opt;
  to_agent ← subscript "to_agent" data;
  run ← get_field "workflow_run_id" VNone data ≫= as_uuid_opt;
  type ← subscript "type" data ≫= as_message_type;
  payload ← get_field "payload" VNone data;
  correlation ← subscript "correlation_id" data ≫= as_uuid;
  created ← subscript "created_at" data ≫= as_instant;
  call_depth ← get_field "call_depth" (VInt 0) data ≫= py_int;
  call_path ← get_field "call_path" VNone data ≫= as_tuple;
  trigger_depth ← get_field "trigger_depth" (VInt 0) data ≫= py_int;
  trigger_path ← get_field "trigger_path" VNone data ≫= as_tuple;
  Ok (mkEnv id from_agent to_agent run type (if py_bool payload then payload else VDict [])
        correlation created call_depth call_path trigger_depth trigger_path).

Lemma as_uuid_show u : as_uuid (VStr (show u)) = Ok u.
Proof. simpl. by rewrite read_show. Qed.
Lemma as_uuid_opt_show u : as_uuid_opt (show_opt u) = Ok u.
Proof.
  destruct u as [u|]; [|done]. unfold as_uuid_opt, show_opt. pose proof (show_nonempty u).
  simpl. rewrite read_show. by destruct (show u).
Qed.
Lemma as_instant_show t : as_instant (VStr (show t)) = Ok t.
Proof. simpl. by rewrite read_show. Qed.
Lemma as_message_type_value t : as_message_type (VStr (message_type_value t)) = Ok t.
Proof. by destruct t. Qed.
Lemma as_tuple_list l : as_tuple (VList l) = Ok l.
Proof. unfold as_tuple. by destruct l. Qed.

(** Every envelope the services build, whose payload is a dictionary, is read back
    from its wire form as it was. *)
Theorem envelope_roundtrip e d (Hp : e_payload e = VDict d) : from_dict (VDict (to_dict e)) = Ok e.
Proof.
  destruct e as [i fr to run ty p co cr cd cp td tp]. simpl in Hp. subst p. unfold from_dict, to_dict, get_field, dict_get_or. simpl.
  rewrite !read_show. simpl. rewrite !as_uuid_opt_show. simpl.
  destruct ty; simpl; rewrite ?as_tuple_list; simpl; rewrite ?as_tuple_list; by destruct d.
Qed.
End envelope.

(** * Witnesses

    A codec to run examples with: the digits of a positive, lowest first. *)
Fixpoint pos_text (p : positive) : string :=
  match p with xH => "1" | xO p => String "0" (pos_text p) | xI p => String "1" (pos_text p) end.
Fixpoint text_pos (s : string) : option positive :=
  match s with
  | EmptyString => None
  | String c EmptyString => if Ascii.eqb c "1" then Some xH else None
  | String c s =>
      match text_pos s with
      | Some p => if Ascii.eqb c "0" then Some (xO p) else if Ascii.eqb c "1" then Some (xI p) else None
      | None => None
      end
  end.
Lemma text_pos_text p : text_pos (pos_text p) = Some p.
Proof. induction p as [p IH|p IH|]; simpl; [..|done]; rewrite IH; by destruct p. Qed.
Lemma pos_text_nonempty p : pos_text p <> ""%string.
Proof. by destruct p. Qed.

#[export] Instance uuid_codec : Codec uuid :=
  {| show := pos_text; read := text_pos; read_show := text_pos_text; show_nonempty := pos_text_nonempty |}.
Lemma instant_read t : (text_pos (pos_text (encode t)) ≫= decode) = Some (t : Z).
Proof. rewrite text_pos_text. simpl. apply decode_encode. Qed.
#[export] Instance instant_codec : Codec Z :=
  {| show := fun t => pos_text (encode t); read := fun s => text_pos s ≫= decode;
     read_show := instant_read; show_nonempty := fun t => pos_text_nonempty (encode t) |}.

Definition a_call : Envelope :=
  mkEnv 5 (Some 2%positive) (VStr (show 3%positive)) None M_CALL (VDict [("input", VStr "hi")]%string) 6 1700 1
    [VStr (show 3%positive)] 0 [].
Lemma envelope_roundtrip_witness : from_dict (VDict (to_dict a_call)) = Ok a_call.
Proof. apply (envelope_roundtrip a_call _ eq_refl). Defined.

(** What a malformed message raises: a missing field, a bad identifier, an identifier
    that is a number, a depth too large for an integer. *)
Example malformed :
  from_dict (VDict []) = Raise KeyError /\ from_dict (VList []) = Raise TypeError /\
  from_dict (VDict [("id", VStr "zz")]%string) = Raise ValueError /\
  from_dict (VDict [("id", VInt 5)]%string) = Raise AttributeError /\
  from_dict (VDict (dict_set "call_depth"%string (VFloat (SpecFloat.S754_infinity false)) (to_dict a_call))) = Raise OverflowError.
Proof. vm_compute. done. Qed.
