(* ===== verification/A2AConsumer.v ===== *)
(** * The inbox consumers

    [contexts/orchestration/application/a2a_consumer.py] over
    [infrastructure/a2a_streams.py]: worker processes share the consumer group of an
    agent's inbox stream, hold a lease while a handler runs, retry with a backoff and
    move what keeps failing to a dead-letter stream.  One inbox is modelled, with its
    Redis keys; each Redis command is one step, and may be lost before or after it took
    effect.  The handler is a parameter working on the rest of the system, [X].  What a
    reply to [SET NX] and the first instruction after it see is one step; a lease is
    refreshed well before it expires, so it expires only when its holder has let it go.
    Both streams are capped: their oldest entries are evicted at any moment. *)

From stdpp Require Import sorting.
From S2P Require Import Prelude PyFloat PyValue Envelope Interleave.

Inductive ConsumerError := FromDict (e : exn) | Redis | Handler (what : string).
(** [None] is text that is not JSON. *)
Abbreviation wire := (option pyval).

(** ** The keys of one inbox *)
Record Keys := mkKeys {
  k_new : list nat;                     (** entries not yet delivered, oldest first *)
  k_content : gmap nat wire;            (** field [envelope] of the entries of the stream *)
  k_pel : gmap nat positive;            (** delivered, not acknowledged: the consumer *)
  k_retry : gmap nat (Z * Z);           (** [a2a:retry]: attempt, next_at_ms *)
  k_done : gset nat;                    (** [a2a:done] *)
  k_lease : gmap nat positive;          (** [a2a:inflight], with who set it *)
  k_dlq : list (nat * Z);               (** stream id, attempt_count *)
}.
(** What has happened, for the statements. *)
Record Past := mkPast {
  g_held : gset (positive * nat);       (** between a process's [SET NX] and its release *)
  g_running : gset (positive * nat);    (** in the handler *)
  g_succeeded : gset nat;               (** a handler returned normally *)
  g_failures : gmap nat nat;            (** failed attempts *)
  g_acked : gset nat;
  g_published : gmap nat wire;          (** every entry ever added *)
  g_trimmed : gset nat;                 (** evicted from the stream *)
}.
Record Inbox := mkInbox { ib_keys : Keys; ib_past : Past; ib_now : Z; ib_fate : fate; ib_draw : float }.

Definition with_keys (f : Keys -> Keys) (i : Inbox) : Inbox := mkInbox (f (ib_keys i)) (ib_past i) (ib_now i) (ib_fate i) (ib_draw i).
Definition with_past (f : Past -> Past) (i : Inbox) : Inbox := mkInbox (ib_keys i) (f (ib_past i)) (ib_now i) (ib_fate i) (ib_draw i).
Definition set_retry f k := mkKeys (k_new k) (k_content k) (k_pel k) (f (k_retry k)) (k_done k) (k_lease k) (k_dlq k).
Definition set_done f k := mkKeys (k_new k) (k_content k) (k_pel k) (k_retry k) (f (k_done k)) (k_lease k) (k_dlq k).
Definition set_lease f k := mkKeys (k_new k) (k_content k) (k_pel k) (k_retry k) (k_done k) (f (k_lease k)) (k_dlq k).
Definition set_pel f k := mkKeys (k_new k) (k_content k) (f (k_pel k)) (k_retry k) (k_done k) (k_lease k) (k_dlq k).
Definition set_dlq f k := mkKeys (k_new k) (k_content k) (k_pel k) (k_retry k) (k_done k) (k_lease k) (f (k_dlq k)).
Definition set_held f g := mkPast (f (g_held g)) (g_running g) (g_succeeded g) (g_failures g) (g_acked g) (g_published g) (g_trimmed g).
Definition set_running f g := mkPast (g_held g) (f (g_running g)) (g_succeeded g) (g_failures g) (g_acked g) (g_published g) (g_trimmed g).
Definition set_succeeded f g := mkPast (g_held g) (g_running g) (f (g_succeeded g)) (g_failures g) (g_acked g) (g_published g) (g_trimmed g).
Definition set_failures f g := mkPast (g_held g) (g_running g) (g_succeeded g) (f (g_failures g)) (g_acked g) (g_published g) (g_trimmed g).
Definition set_acked f g := mkPast (g_held g) (g_running g) (g_succeeded g) (g_failures g) (f (g_acked g)) (g_published g) (g_trimmed g).
Definition set_trimmed f g := mkPast (g_held g) (g_running g) (g_succeeded g) (g_failures g) (g_acked g) (g_published g) (f (g_trimmed g)).
Definition set_published f g := mkPast (g_held g) (g_running g) (g_succeeded g) (g_failures g) (g_acked g) (f (g_published g)) (g_trimmed g).
Definition failures (i : Inbox) (sid : nat) : nat := default 0%nat (g_failures (ib_past i) !! sid).

(** ** Stream commands ([a2a_streams.py]) *)
(** An entry that is pending and has been evicted comes without fields, and
    [fields.get(envelope, {})] is then the empty object. *)
Definition no_fields : wire := Some (VDict []).
Definition by_id (k : Keys) (ids : list nat) : list (nat * wire) := (fun sid => (sid, default no_fields (k_content k !! sid))) <$> ids.
Definition batch : nat := 10.
Definition xread_pending (p : positive) (i : Inbox) : list (nat * wire) * Inbox :=
  let k := ib_keys i in
  (by_id k (take batch (merge_sort le (filter (fun sid => k_pel k !! sid = Some p) (elements (dom (k_pel k)))))), i).
Definition deliver (p : positive) (ids : list nat) (k : Keys) : Keys :=
  mkKeys (drop (length ids) (k_new k)) (k_content k) (foldr (fun sid => insert sid p) (k_pel k) ids) (k_retry k) (k_done k)
    (k_lease k) (k_dlq k).
Definition xread_new (p : positive) (i : Inbox) : list (nat * wire) * Inbox :=
  let ids := take batch (k_new (ib_keys i)) in
  (by_id (ib_keys i) ids, with_keys (deliver p ids) i).
Definition xack (sid : nat) (i : Inbox) : unit * Inbox :=
  (tt, with_past (set_acked (union {[sid]})) (with_keys (set_pel (delete sid)) i)).
Definition xadd_dlq (sid : nat) (attempt : Z) (i : Inbox) : unit * Inbox :=
  (tt, with_keys (set_dlq (fun l => l ++ [(sid, attempt)])) i).

Definition del_retry (sid : nat) (i : Inbox) : unit * Inbox := (tt, with_keys (set_retry (delete sid)) i).
Definition hset_retry (sid : nat) (attempt next_at : Z) (i : Inbox) : unit * Inbox :=
  (tt, with_keys (set_retry (insert sid (attempt, next_at))) i).
Definition exists_done (sid : nat) (i : Inbox) : bool * Inbox := (bool_decide (sid ∈ k_done (ib_keys i)), i).
Definition set_done_marker (sid : nat) (i : Inbox) : unit * Inbox := (tt, with_keys (set_done (union {[sid]})) i).

Definition parse `{!Codec uuid, !Codec Z} (raw : wire) : res Envelope :=
  match raw with Some v => from_dict v | None => Raise ValueError end.
(** [except (JSONDecodeError, TypeError, KeyError, ValueError)] *)
Definition parse_error (e : exn) : bool :=
  match e with ValueError | TypeError | KeyError => true | _ => false end.

Definition MAX_RETRIES : Z := 3.
Definition BACKOFF_BASE : float := SpecFloat.S754_finite false 4503599627370496 (-52).
(** [int(_BACKOFF_BASE * (2 ** (attempt - 1)) * jitter * 1000)] *)
Definition backoff_ms (attempt : Z) (jitter : float) : res Z :=
  two ← float_of_int (2 ^ (attempt - 1));
  thousand ← float_of_int 1000;
  int_of_float (fmul (fmul (fmul BACKOFF_BASE two) jitter) thousand).

Section consumer.
Context {X : Type} `{!Codec uuid, !Codec Z}.
Abbreviation proc := (proc ConsumerError (Inbox * X)).

(** A Redis command, and a note in the history. *)
Definition redis {A} (f : Inbox -> A * Inbox) : proc A := act (fun w =>
  match ib_fate w.1 with
  | Answered => (inr (f w.1).1, ((f w.1).2, w.2))
  | Lost => (inl Redis, w)
  | Unanswered => (inl Redis, ((f w.1).2, w.2))
  end).
Definition note (f : Past -> Past) : proc unit := act (fun w => (inr tt, (with_past f w.1, w.2))).

(** [SET inflight NX]; the refresh task runs from here. *)
Definition acquire (p : positive) (sid : nat) : proc bool := act (fun w =>
  let k := ib_keys w.1 in
  let free := bool_decide (k_lease k !! sid = None) in
  let taken := if free then with_keys (set_lease (insert sid p)) w.1 else w.1 in
  match ib_fate w.1 with
  | Answered => (inr free, ((if free then with_past (set_held (union {[(p, sid)]})) taken else taken), w.2))
  | Lost => (inl Redis, w)
  | Unanswered => (inl Redis, (taken, w.2))
  end).
(** [DEL inflight]: whoever holds it. *)
Definition release (p : positive) (sid : nat) : proc unit := act (fun w =>
  let let_go := with_past (set_held (fun h => h ∖ {[(p, sid)]})) w.1 in
  match ib_fate w.1 with
  | Answered => (inr tt, (with_keys (set_lease (delete sid)) let_go, w.2))
  | Lost => (inl Redis, (let_go, w.2))
  | Unanswered => (inl Redis, (with_keys (set_lease (delete sid)) let_go, w.2))
  end).

Definition move_to_dlq (sid : nat) (attempt : Z) : proc unit := _ ← redis (xack sid); redis (xadd_dlq sid attempt).

Context (handler : Envelope -> Interleave.proc ConsumerError X unit)
  (on_dlq : nat -> Z -> Interleave.proc ConsumerError X unit).

(** [await handler(envelope)] by process [p], with its beginning and end noted. *)
Definition run_handler (p : positive) (sid : nat) (e : Envelope) : proc unit :=
  _ ← note (set_running (union {[(p, sid)]}));
  handle (on_second (handler e)) (fun r =>
    _ ← note (fun g => let g := set_running (fun h => h ∖ {[(p, sid)]}) g in
                       match r with inr _ => set_succeeded (union {[sid]}) g | inl _ => g end);
    Done r).

Definition dead_letter (sid : nat) (attempt : Z) : proc Z :=
  _ ← move_to_dlq sid attempt;
  _ ← redis (del_retry sid);
  _ ← on_second (on_dlq sid attempt);
  mret 0.

Definition attempt_failed (sid : nat) (attempt : Z) : proc Z :=
  _ ← note (set_failures (fun m => <[sid := S (default 0%nat (m !! sid))]> m));
  if MAX_RETRIES <=? attempt then dead_letter sid attempt
  else
    jitter ← get (fun w => ib_draw w.1);
    now ← get (fun w => ib_now w.1);
    match backoff_ms attempt jitter with
    | Ok ms => _ ← redis (hset_retry sid attempt (now + ms)); mret 0
    | Raise e => raise (FromDict e)
    | NoFuel => raise (FromDict OverflowError)
    end.

Definition settle_success (p : positive) (sid : nat) (e : Envelope) : proc Z :=
  _ ← run_handler p sid e;
  _ ← redis (set_done_marker sid);
  _ ← redis (xack sid);
  _ ← redis (del_retry sid);
  mret 1.

(** [_process_entry] *)
Definition process_entry (p : positive) (sid : nat) (raw : wire) (attempt : Z) : proc Z :=
  seen ← redis (exists_done sid);
  if (seen : bool) then
    _ ← redis (xack sid);
    _ ← redis (del_retry sid);
    mret 1
  else
    got ← acquire p sid;
    if (got : bool) then
      finally
        (match parse raw with
         | Ok e => catch (settle_success p sid e) (fun _ => attempt_failed sid attempt)
         | Raise e => if parse_error e then dead_letter sid attempt else raise (FromDict e)
         | NoFuel => raise (FromDict OverflowError)
         end)
        (release p sid)
    else mret 0.

(** [consume_once]; [hgetall] and the clock as the loop reads them. *)
Definition hgetall_retry (sid : nat) (i : Inbox) : option (Z * Z) * Inbox := (k_retry (ib_keys i) !! sid, i).
Definition process_pending (p : positive) (now_ms : Z) (entry : nat * wire) : proc Z :=
  state ← redis (hgetall_retry entry.1);
  match state with
  | Some (attempt, next_at) =>
      if now_ms <? next_at then mret 0 else process_entry p entry.1 entry.2 (attempt + 1)
  | None => process_entry p entry.1 entry.2 1
  end.
Definition consume_once (p : positive) : proc Z :=
  now_ms ← get (fun w => ib_now w.1);
  pending ← redis (xread_pending p);
  n ← for_all pending (process_pending p now_ms);
  new ← redis (xread_new p);
  m ← for_all new (fun entry => process_entry p entry.1 entry.2 1);
  mret (n + m).

(** One round of [run_consumer_loop], which logs what [consume_once] raises. *)
Definition consumer_round (p : positive) : proc unit :=
  catch (_ ← consume_once p; mret tt) (fun _ => mret tt).
Definition consumer_program (p : positive) (m : proc unit) : Prop := m = consumer_round p.

(** ** Around the consumers

    A crash takes a process out of the handler; [elsewhere] is what happens besides:
    messages are published, the oldest entries are evicted, entries are claimed from a
    process that seems stalled ([xautoclaim_stale], here from anyone at any moment), keys
    expire, time passes and commands meet their fate.  [XADD] with [MAXLEN ~ 10000] evicts
    as many of the oldest entries as it likes, delivered or not, and leaves at least ten
    thousand; here that happens at any moment, to the inbox and to the dead letters.
    [XAUTOCLAIM] drops an evicted entry from the pending ones. *)
Definition crash (p : positive) (w : Inbox * X) : Inbox * X :=
  (with_past (fun g => set_running (filter (fun x => x.1 <> p)) (set_held (filter (fun x => x.1 <> p)) g)) w.1, w.2).

Definition STREAM_MAXLEN : Z := 10000.
(** [XADD]: the identifiers grow. *)
Definition publish (sid : nat) (raw : wire) (i : Inbox) : Inbox :=
  with_past (set_published (insert sid raw))
    (with_keys (fun k => mkKeys (k_new k ++ [sid]) (<[sid := raw]> (k_content k)) (k_pel k) (k_retry k) (k_done k) (k_lease k) (k_dlq k)) i).
(** The entries from [cut] on stay. *)
Definition from_on (cut : nat) (m : gmap nat wire) : gmap nat wire := filter (fun e => (cut <= e.1)%nat) m.
Definition trim (cut : nat) (i : Inbox) : Inbox :=
  with_past (set_trimmed (union (dom (filter (fun e => (e.1 < cut)%nat) (k_content (ib_keys i))))))
    (with_keys (fun k => mkKeys (filter (le cut) (k_new k)) (from_on cut (k_content k)) (k_pel k) (k_retry k) (k_done k) (k_lease k) (k_dlq k)) i).

Inductive elsewhere (alive : gset positive) : Inbox * X -> Inbox * X -> Prop :=
  | ew_publish sid raw i x : map_Forall (fun s _ => (s < sid)%nat) (g_published (ib_past i)) ->
      elsewhere alive (i, x) (publish sid raw i, x)
  | ew_trim cut i x : STREAM_MAXLEN <= Z.of_nat (size (from_on cut (k_content (ib_keys i)))) ->
      elsewhere alive (i, x) (trim cut i, x)
  | ew_trim_dlq n i x : STREAM_MAXLEN <= Z.of_nat (length (drop n (k_dlq (ib_keys i)))) ->
      elsewhere alive (i, x) (with_keys (set_dlq (drop n)) i, x)
  | ew_forget sid i x : k_content (ib_keys i) !! sid = None -> elsewhere alive (i, x) (with_keys (set_pel (delete sid)) i, x)
  | ew_claim sid p q i x : k_pel (ib_keys i) !! sid = Some q -> p ∈ alive ->
      elsewhere alive (i, x) (with_keys (set_pel (insert sid p)) i, x)
  | ew_expire_lease sid i x : (forall p, (p, sid) ∉ g_held (ib_past i)) ->
      elsewhere alive (i, x) (with_keys (set_lease (delete sid)) i, x)
  | ew_expire_done sid i x : elsewhere alive (i, x) (with_keys (set_done (fun d => d ∖ {[sid]})) i, x)
  | ew_expire_retry sid i x : elsewhere alive (i, x) (with_keys (set_retry (delete sid)) i, x)
  | ew_world now f d i x x' : elsewhere alive (i, x) (mkInbox (ib_keys i) (ib_past i) now f d, x').

Definition newcomer (p : positive) (w : Inbox * X) : Prop :=
  forall sid, (p, sid) ∉ g_held (ib_past w.1) /\ (p, sid) ∉ g_running (ib_past w.1).
Abbreviation step := (cstep consumer_program crash elsewhere newcomer).
Abbreviation reaches := (reach consumer_program crash elsewhere newcomer).
End consumer.
