(* ===== verification/ConsumerFacts.v ===== *)
(** * Facts about the inbox consumers

    The rely-guarantee proof of [A2AConsumer]: what every consumer keeps, whatever the
    other consumers, crashes, claims, expiring keys and lost commands do. *)

From stdpp Require Import sorting.
From S2P Require Import Prelude PyFloat PyValue Envelope Interleave A2AConsumer.

Section facts.
Context `{!Codec uuid, !Codec Z}.

(** ** What is kept *)

(** What a consumer may have been given for an entry: its message, or, once it has been
    evicted, no fields. *)
Definition as_read (i : Inbox) (sid : nat) (raw : wire) : Prop :=
  g_published (ib_past i) !! sid = Some raw \/ (sid ∈ g_trimmed (ib_past i) /\ raw = no_fields).
(** Unreadable, or given up after the last attempt. *)
Definition hopeless (i : Inbox) (sid : nat) : Prop :=
  (exists raw e, as_read i sid raw /\ parse raw = Raise e /\ parse_error e = true)
  \/ MAX_RETRIES <= Z.of_nat (failures i sid).
Definition settled (i : Inbox) (sid : nat) : Prop := sid ∈ g_succeeded (ib_past i) \/ hopeless i sid.

Record inv (i : Inbox) : Prop := {
  inv_running : forall x, x ∈ g_running (ib_past i) -> x ∈ g_held (ib_past i);
  inv_held : forall p sid, (p, sid) ∈ g_held (ib_past i) -> k_lease (ib_keys i) !! sid = Some p;
  inv_done : k_done (ib_keys i) ⊆ g_succeeded (ib_past i);
  inv_retry : forall sid a t, k_retry (ib_keys i) !! sid = Some (a, t) -> a <= Z.of_nat (failures i sid);
  inv_acked : forall sid, sid ∈ g_acked (ib_past i) -> settled i sid;
  inv_dlq : forall sid a, (sid, a) ∈ k_dlq (ib_keys i) -> hopeless i sid;
  inv_entries : forall sid, is_Some (g_published (ib_past i) !! sid) ->
    sid ∈ k_new (ib_keys i) \/ is_Some (k_pel (ib_keys i) !! sid) \/ sid ∈ g_acked (ib_past i) \/ sid ∈ g_trimmed (ib_past i);
  inv_content : k_content (ib_keys i) ⊆ g_published (ib_past i);
  inv_evicted : forall sid, is_Some (g_published (ib_past i) !! sid) -> k_content (ib_keys i) !! sid = None -> sid ∈ g_trimmed (ib_past i);
  inv_pel : forall sid, is_Some (k_pel (ib_keys i) !! sid) -> is_Some (g_published (ib_past i) !! sid);
  inv_new : forall sid, sid ∈ k_new (ib_keys i) -> is_Some (k_content (ib_keys i) !! sid);
  inv_far : forall sid, sid ∈ g_trimmed (ib_past i) ->
    STREAM_MAXLEN <= Z.of_nat (size (from_on (S sid) (g_published (ib_past i))));
}.

Record rely (p : positive) (i i' : Inbox) : Prop := {
  rl_held : forall sid, (p, sid) ∈ g_held (ib_past i) <-> (p, sid) ∈ g_held (ib_past i');
  rl_running : forall sid, (p, sid) ∈ g_running (ib_past i) <-> (p, sid) ∈ g_running (ib_past i');
  rl_succeeded : g_succeeded (ib_past i) ⊆ g_succeeded (ib_past i');
  rl_failures : forall sid, (failures i sid <= failures i' sid)%nat;
  rl_published : g_published (ib_past i) ⊆ g_published (ib_past i');
  rl_trimmed : g_trimmed (ib_past i) ⊆ g_trimmed (ib_past i');
}.
#[export] Instance rely_preorder p : PreOrder (rely p).
Proof.
  split; [by split|]. intros i1 i2 i3 [] []. split; [intros sid; etrans; eauto..|set_solver| |by etrans|set_solver].
  intros sid. etrans; eauto.
Qed.

(** Steps that leave the leases' history alone look like nothing to the others. *)
Lemma rely_quiet q i i' :
  g_held (ib_past i') = g_held (ib_past i) -> g_running (ib_past i') = g_running (ib_past i) ->
  g_succeeded (ib_past i) ⊆ g_succeeded (ib_past i') -> (forall sid, (failures i sid <= failures i' sid)%nat) ->
  g_published (ib_past i') = g_published (ib_past i) -> g_trimmed (ib_past i') = g_trimmed (ib_past i) -> rely q i i'.
Proof. intros H1 H2 H3 H4 H5 H6. split; [by rewrite H1|by rewrite H2|done|done|by rewrite H5|by rewrite H6]. Qed.

Lemma as_read_mono i i' sid raw : g_published (ib_past i) ⊆ g_published (ib_past i') -> g_trimmed (ib_past i) ⊆ g_trimmed (ib_past i') ->
  as_read i sid raw -> as_read i' sid raw.
Proof. intros Hp Ht [H|[H ->]]; [left; by eapply lookup_weaken|right; set_solver]. Qed.
Lemma hopeless_mono i i' sid : g_published (ib_past i) ⊆ g_published (ib_past i') -> g_trimmed (ib_past i) ⊆ g_trimmed (ib_past i') ->
  (failures i sid <= failures i' sid)%nat -> hopeless i sid -> hopeless i' sid.
Proof.
  intros Hc Ht Hf [(raw & e & Hr & H)|H]; [left|right; lia]. exists raw, e. split; [by eapply as_read_mono|done].
Qed.
Lemma settled_mono i i' sid : g_published (ib_past i) ⊆ g_published (ib_past i') -> g_trimmed (ib_past i) ⊆ g_trimmed (ib_past i') ->
  g_succeeded (ib_past i) ⊆ g_succeeded (ib_past i') ->
  (failures i sid <= failures i' sid)%nat -> settled i sid -> settled i' sid.
Proof. intros Hc Ht Hs Hf [H|H]; [left; set_solver|right; by eapply hopeless_mono]. Qed.

(** ** What a process knows of its entry

    [seen]: the entries it has read, which stay as they are. *)
Context (seen : gmap nat wire).
Definition readable (i : Inbox) : Prop := forall sid raw, seen !! sid = Some raw -> as_read i sid raw.
Lemma readable_stable p i i' : rely p i i' -> readable i -> readable i'.
Proof. intros [] H sid raw Hs. eapply as_read_mono; eauto. Qed.
Record knows (p : positive) (sid : nat) (raw : wire) (held running : bool) (k : Z) (i : Inbox) : Prop := {
  kn_entry : seen !! sid = Some raw;
  kn_content : readable i;
  kn_held : forall s, (p, s) ∈ g_held (ib_past i) <-> held = true /\ s = sid;
  kn_running : forall s, (p, s) ∈ g_running (ib_past i) <-> running = true /\ s = sid;
  kn_failures : k <= Z.of_nat (failures i sid);
}.
Lemma knows_stable p sid raw h r k i i' : rely p i i' -> knows p sid raw h r k i -> knows p sid raw h r k i'.
Proof.
  intros Hr []. split; [done|by eapply readable_stable|..]; destruct Hr.
  - intros s. by rewrite <- rl_held0.
  - intros s. by rewrite <- rl_running0.
  - specialize (rl_failures0 sid). lia.
Qed.
Definition idle (p : positive) (i : Inbox) : Prop :=
  forall sid, (p, sid) ∉ g_held (ib_past i) /\ (p, sid) ∉ g_running (ib_past i).
Lemma idle_stable p i i' : rely p i i' -> idle p i -> idle p i'.
Proof. intros [] H sid. specialize (H sid). by rewrite <- rl_held0, <- rl_running0. Qed.
Definition resting (p : positive) (i : Inbox) : Prop := idle p i /\ readable i.
Lemma resting_stable p i i' : rely p i i' -> resting p i -> resting p i'.
Proof. intros Hr [H Hs]. split; [|by eapply readable_stable]. destruct Hr. intros sid. specialize (H sid). by rewrite <- rl_held0, <- rl_running0. Qed.
Lemma knows_resting p sid raw k i : knows p sid raw false false k i -> resting p i.
Proof. intros []. split; [|done]. intros s. rewrite kn_held0, kn_running0. naive_solver. Qed.
Lemma resting_knows p sid raw k i : resting p i -> seen !! sid = Some raw -> k <= Z.of_nat (failures i sid) ->
  knows p sid raw false false k i.
Proof. intros [H Hs] Hc Hf. split; [done|done|..|done]; intros s; specialize (H s); naive_solver. Qed.

(** ** Commands that only touch keys *)
Lemma inv_keys i k' : inv i ->
  k_content k' = k_content (ib_keys i) -> k_lease k' = k_lease (ib_keys i) ->
  k_done k' ⊆ g_succeeded (ib_past i) ->
  (forall sid a t, k_retry k' !! sid = Some (a, t) -> a <= Z.of_nat (failures i sid)) ->
  (forall sid a, (sid, a) ∈ k_dlq k' -> hopeless i sid) ->
  (forall sid, is_Some (g_published (ib_past i) !! sid) -> sid ∈ k_new k' \/ is_Some (k_pel k' !! sid) \/ sid ∈ g_acked (ib_past i) \/ sid ∈ g_trimmed (ib_past i)) ->
  (forall sid, is_Some (k_pel k' !! sid) -> is_Some (k_pel (ib_keys i) !! sid) \/ sid ∈ k_new (ib_keys i)) ->
  (forall sid, sid ∈ k_new k' -> sid ∈ k_new (ib_keys i)) ->
  inv (with_keys (fun _ => k') i).
Proof.
  intros [] Hc Hl Hd Hr Hq He Hp Hn. split; simpl; try done; rewrite ?Hc; try done.
  - intros p sid H. rewrite Hl. by apply inv_held0.
  - intros sid [H|H]%Hp; [by apply inv_pel0|]. destruct (inv_new0 sid H) as [raw E]. exists raw. by eapply lookup_weaken.
  - intros sid H. by apply inv_new0, Hn.
Qed.

Lemma inv_del_retry sid i : inv i -> inv (del_retry sid i).2.
Proof.
  intros Hi. simpl. change (with_keys (set_retry (delete sid)) i) with (with_keys (fun _ => set_retry (delete sid) (ib_keys i)) i).
  pose proof Hi as []. apply inv_keys; simpl; try done; try (by intros; left). intros s a t [_ H]%lookup_delete_Some. by eapply inv_retry0.
Qed.
Lemma inv_hset_retry sid a t i : a <= Z.of_nat (failures i sid) -> inv i -> inv (hset_retry sid a t i).2.
Proof.
  intros Ha Hi. simpl. change (with_keys (set_retry ?f) i) with (with_keys (fun _ => set_retry f (ib_keys i)) i).
  pose proof Hi as []. apply inv_keys; simpl; try done; try (by intros; left).
  intros s b u [[<- [= <- <-]]|[_ H]]%lookup_insert_Some; [done|by eapply inv_retry0].
Qed.
Lemma inv_set_done sid i : sid ∈ g_succeeded (ib_past i) -> inv i -> inv (set_done_marker sid i).2.
Proof.
  intros Hs Hi. simpl. change (with_keys (set_done ?f) i) with (with_keys (fun _ => set_done f (ib_keys i)) i).
  pose proof Hi as []. apply inv_keys; simpl; try done; try (by intros; left). set_solver.
Qed.
Lemma inv_xadd_dlq sid a i : hopeless i sid -> inv i -> inv (xadd_dlq sid a i).2.
Proof.
  intros Hh Hi. simpl. change (with_keys (set_dlq ?f) i) with (with_keys (fun _ => set_dlq f (ib_keys i)) i).
  pose proof Hi as []. apply inv_keys; simpl; try done; try (by intros; left).
  intros s b [H|[= -> ->]%list_elem_of_singleton]%elem_of_app; [by eapply inv_dlq0|done].
Qed.
Lemma deliver_pel (p : positive) (ids : list nat) (m : gmap nat positive) (sid : nat) : is_Some (m !! sid) \/ sid ∈ ids -> is_Some (foldr (fun s => insert s p) m ids !! sid).
Proof.
  induction ids as [|s ids IH]; simpl; [by intros [?|?%elem_of_nil]|]. intros H. destruct (decide (s = sid)) as [->|Hne].
  - rewrite lookup_insert_eq. by eexists.
  - rewrite lookup_insert_ne by done. apply IH. destruct H as [?|[?|?]%elem_of_cons]; [by left|congruence|by right].
Qed.
Lemma inv_xread_new p i : inv i -> inv (xread_new p i).2.
Proof.
  intros Hi. unfold xread_new. cbv zeta. simpl. set (ids := take batch (k_new (ib_keys i))).
  change (with_keys (deliver p ids) i) with (with_keys (fun _ => deliver p ids (ib_keys i)) i).
  pose proof Hi as []. apply inv_keys; simpl; try done; try (by intros; left).
  all: assert (Hsplit : k_new (ib_keys i) = ids ++ drop (length ids) (k_new (ib_keys i))).
  1,3,5: unfold ids; rewrite length_take; destruct (Nat.min_spec batch (length (k_new (ib_keys i)))) as [[Hlt ->]|[Hle ->]];
    [by rewrite firstn_skipn|by rewrite drop_all, app_nil_r, firstn_all2].
  - intros sid Hs. destruct (inv_entries0 sid Hs) as [Hn|[Hp|Ha]]; [|right; left; apply deliver_pel; by left|by right; right].
    rewrite Hsplit in Hn. apply elem_of_app in Hn as [Hn|Hn]; [right; left; apply deliver_pel; by right|by left].
  - intros sid Hs. destruct (decide (sid ∈ ids)) as [Hin|Hin]; [right; rewrite Hsplit; apply elem_of_app; by left|left].
    revert Hs. clear -Hin. induction ids as [|s ids IH]; simpl; [done|].
    apply not_elem_of_cons in Hin as [Hne Hin]. rewrite lookup_insert_ne by done. by apply IH.
  - intros sid Hs. rewrite Hsplit. apply elem_of_app. by right.
Qed.
Lemma inv_xack sid i : settled i sid -> inv i -> inv (xack sid i).2.
Proof.
  intros Hs []. split; simpl; try done.
  - intros s [->%elem_of_singleton|H]%elem_of_union; [exact Hs|by apply inv_acked0].
  - intros s H. destruct (inv_entries0 s H) as [?|[?|?]]; [by left| |right; right; set_solver].
    destruct (decide (s = sid)) as [->|Hne]; [right; right; set_solver|]. right. left. by rewrite lookup_delete_ne.
  - intros s [raw [_ H]%lookup_delete_Some]. by apply inv_pel0.
Qed.

(** ** The lease *)
Lemma acquire_ok p sid raw k i (taken := with_keys (set_lease (insert sid p)) i) :
  k_lease (ib_keys i) !! sid = None -> inv i -> knows p sid raw false false k i ->
  inv taken /\ inv (with_past (set_held (union {[(p, sid)]})) taken) /\
  (forall q, q <> p -> rely q i (with_past (set_held (union {[(p, sid)]})) taken)) /\
  (forall q, rely q i taken) /\
  knows p sid raw false false k taken /\ knows p sid raw true false k (with_past (set_held (union {[(p, sid)]})) taken).
Proof.
  intros Hfree [] []. split_and!.
  - split; simpl; try done. intros q s Hq. rewrite lookup_insert_ne; [by apply inv_held0|].
    intros <-. apply inv_held0 in Hq. congruence.
  - split; simpl; try done.
    + intros x Hx. apply elem_of_union. right. by apply inv_running0.
    + intros q s [[= -> ->]%elem_of_singleton|Hq]%elem_of_union; [apply lookup_insert_eq|].
      rewrite lookup_insert_ne; [by apply inv_held0|]. intros <-. apply inv_held0 in Hq. congruence.
  - intros q Hq. split; simpl; try done. intros s. rewrite elem_of_union, elem_of_singleton. split; [by right|].
    intros [[= -> ->]|?]; [congruence|done].
  - intros q. by apply rely_quiet.
  - by split.
  - split; simpl; try done. intros s. rewrite elem_of_union, elem_of_singleton, kn_held0. naive_solver.
Qed.

Lemma let_go_ok p sid raw k i (let_go := with_past (set_held (fun h => h ∖ {[(p, sid)]})) i)
    (gone := with_keys (set_lease (delete sid)) let_go) :
  inv i -> knows p sid raw true false k i ->
  (inv let_go /\ inv gone) /\ (forall q, q <> p -> rely q i let_go /\ rely q i gone) /\
  resting p let_go /\ resting p gone.
Proof.
  intros Hi Hk. pose proof Hi as []. pose proof Hk as [].
  assert (Hmine : (p, sid) ∈ g_held (ib_past i)) by (by apply kn_held0).
  assert (Hrun : forall x, x ∈ g_running (ib_past i) -> x ∈ g_held (ib_past i) ∖ {[(p, sid)]}).
  { intros [q s] Hx. apply elem_of_difference. split; [by apply inv_running0|]. intros [= -> ->]%elem_of_singleton.
    apply kn_running0 in Hx. naive_solver. }
  assert (Hidle : resting p let_go).
  { split; [|done]. intros s. simpl. rewrite elem_of_difference, not_elem_of_singleton, kn_held0, kn_running0. naive_solver. }
  assert (Hrel : forall q, q <> p -> rely q i let_go).
  { intros q Hq. split; simpl; try done. intros s. rewrite elem_of_difference, not_elem_of_singleton. naive_solver. }
  split; [|split; [intros q Hq; split; [by apply Hrel|]|by split]].
  - split; split; simpl; try done.
    + intros q s [Hq _]%elem_of_difference. by apply inv_held0.
    + intros q s [Hq Hne]%elem_of_difference. rewrite lookup_delete_ne; [by apply inv_held0|].
      intros <-. apply inv_held0 in Hq. apply inv_held0 in Hmine. rewrite Hq in Hmine. injection Hmine as ->.
      apply Hne. by apply elem_of_singleton.
  - destruct (Hrel q Hq). by split.
Qed.

(** ** History *)
Lemma begin_ok p sid raw k i (i' := with_past (set_running (union {[(p, sid)]})) i) :
  inv i -> knows p sid raw true false k i ->
  inv i' /\ (forall q, q <> p -> rely q i i') /\ knows p sid raw true true k i'.
Proof.
  intros [] []. split_and!.
  - split; simpl; try done. intros x [->%elem_of_singleton|Hx]%elem_of_union; [by apply kn_held0|by apply inv_running0].
  - intros q Hq. split; simpl; try done. intros s. rewrite elem_of_union, elem_of_singleton. naive_solver.
  - split; simpl; try done. intros s. rewrite elem_of_union, elem_of_singleton, kn_running0. naive_solver.
Qed.
Lemma end_ok p sid raw k i ok
    (i' := with_past (fun g => let g := set_running (fun h => h ∖ {[(p, sid)]}) g in
                               if (ok : bool) then set_succeeded (union {[sid]}) g else g) i) :
  inv i -> knows p sid raw true true k i ->
  inv i' /\ (forall q, q <> p -> rely q i i') /\ knows p sid raw true false k i' /\
  (ok = true -> sid ∈ g_succeeded (ib_past i')).
Proof.
  intros Hi Hk. pose proof Hi as []. pose proof Hk as []. destruct ok; split_and!.
  - split; simpl; try done; [set_solver|set_solver|]. intros s Hs.
    eapply settled_mono; [..|by apply inv_acked0]; simpl; [done|done|set_solver|done].
  - intros q Hq. split; simpl; try done; [|set_solver]. intros s. rewrite elem_of_difference, not_elem_of_singleton. naive_solver.
  - split; simpl; try done. intros s. rewrite elem_of_difference, not_elem_of_singleton, kn_running0. naive_solver.
  - set_solver.
  - split; simpl; try done. set_solver.
  - intros q Hq. split; simpl; try done. intros s. rewrite elem_of_difference, not_elem_of_singleton. naive_solver.
  - split; simpl; try done. intros s. rewrite elem_of_difference, not_elem_of_singleton, kn_running0. naive_solver.
  - done.
Qed.
Lemma failed_ok p sid raw k i (i' := with_past (set_failures (fun m => <[sid := S (default 0%nat (m !! sid))]> m)) i) :
  inv i -> knows p sid raw true false k i ->
  inv i' /\ (forall q, q <> p -> rely q i i') /\ knows p sid raw true false (k + 1) i'.
Proof.
  intros Hi Hk. pose proof Hi as []. pose proof Hk as [].
  assert (Hf : forall s, (failures i s <= failures i' s)%nat).
  { intros s. unfold failures, i'. simpl. destruct (decide (s = sid)) as [->|Hne];
      [rewrite lookup_insert_eq; simpl; lia|by rewrite lookup_insert_ne]. }
  split_and!.
  - split; simpl; try done.
    + intros s a t H. apply inv_retry0 in H. specialize (Hf s). lia.
    + intros s H. eapply settled_mono; [..|by apply inv_acked0]; simpl; done.
    + intros s a H. eapply hopeless_mono; [..|by eapply inv_dlq0]; simpl; done.
  - intros q Hq. by apply rely_quiet.
  - split; simpl; try done. unfold failures in *. simpl. rewrite lookup_insert_eq. simpl. lia.
Qed.
End facts.

(** * The code, command by command *)
Section code.
Context {X : Type} `{!Codec uuid, !Codec Z}.
Context (handler : Envelope -> Interleave.proc ConsumerError X unit)
  (on_dlq : nat -> Z -> Interleave.proc ConsumerError X unit).

Definition winv (w : Inbox * X) : Prop := inv w.1.
Definition wrely (p : positive) (w w' : Inbox * X) : Prop := rely p w.1 w'.1.
#[local] Instance wrely_preorder p : PreOrder (wrely p).
Proof. split; [intros w; unfold wrely; reflexivity|intros w1 w2 w3 H1 H2; unfold wrely in *; by etrans]. Qed.

(** Triples about the inbox. *)
Definition triple {A} (p : positive) (P : Inbox -> Prop) (m : Interleave.proc ConsumerError (Inbox * X) A)
    (Q : ConsumerError + A -> Inbox -> Prop) : Prop :=
  Interleave.triple winv wrely p (fun w => P w.1) m (fun r w => Q r w.1).
Definition steady (p : positive) (P : Inbox -> Prop) : Prop := forall i i', rely p i i' -> P i -> P i'.

Lemma triple_redis {A} p (P : Inbox -> Prop) (f : Inbox -> A * Inbox) (Q : ConsumerError + A -> Inbox -> Prop) :
  steady p P -> (forall r, steady p (Q r)) ->
  (forall i, inv i -> P i -> inv (f i).2 /\ (forall q, q <> p -> rely q i (f i).2) /\
     Q (inr (f i).1) (f i).2 /\ Q (inl Redis) (f i).2 /\ Q (inl Redis) i) ->
  triple p P (redis (X := X) f) Q.
Proof.
  intros HP HQ H. apply triple_act; [intros w w' Hr _; by apply HP|intros r w w' Hr _; by apply HQ|].
  intros [i x] Hi HPi. simpl in *. destruct (H i Hi HPi) as (H1 & H2 & H3 & H4 & H5). unfold winv, wrely.
  destruct (ib_fate i); simpl; (split; [done|]); (split; [|done]); intros q Hq; (reflexivity || by apply H2).
Qed.

(** Commands that read, and those that only touch keys. *)
Lemma triple_quiet {A} p (P : Inbox -> Prop) (f : Inbox -> A * Inbox) :
  steady p P -> (forall i, P i -> inv i -> inv (f i).2) ->
  (forall i, ib_past (f i).2 = ib_past i) ->
  triple p P (redis (X := X) f) (fun _ => P).
Proof.
  intros HP Hinv Hq. apply triple_redis; [done..|]. intros i Hi HPi. pose proof (Hq i) as Hpast.
  assert (Hrel : forall q, rely q i (f i).2).
  { intros q. apply rely_quiet; [by rewrite Hpast..| |by rewrite Hpast|by rewrite Hpast]. intros s. unfold failures. by rewrite Hpast. }
  pose proof (HP _ _ (Hrel p) HPi). split_and!; auto.
Qed.

(** A note never raises. *)
Lemma triple_note p (P : Inbox -> Prop) (f : Past -> Past) (Q : ConsumerError + unit -> Inbox -> Prop) :
  steady p P -> (forall r, steady p (Q r)) ->
  (forall i, inv i -> P i -> inv (with_past f i) /\ (forall q, q <> p -> rely q i (with_past f i)) /\ Q (inr tt) (with_past f i)) ->
  triple p P (note (X := X) f) Q.
Proof.
  intros HP HQ H. apply triple_act; [intros w w' Hr _; by apply HP|intros r w w' Hr _; by apply HQ|].
  intros [i x] Hi HPi. by apply H.
Qed.

Lemma triple_weaken {A} p (P P' : Inbox -> Prop) (m : Interleave.proc ConsumerError (Inbox * X) A)
    (Q Q' : ConsumerError + A -> Inbox -> Prop) :
  triple p P m Q -> (forall i, inv i -> P' i -> P i) -> (forall r i, inv i -> Q r i -> Q' r i) -> triple p P' m Q'.
Proof. intros H HP HQ. eapply triple_conseq; [exact H|intros w Hi; by apply HP|intros r w Hi; by apply HQ]. Qed.

Lemma triple_seq {A B} p (P : Inbox -> Prop) (R : A -> Inbox -> Prop) (Q : ConsumerError + B -> Inbox -> Prop)
    (m : Interleave.proc ConsumerError (Inbox * X) A) (k : A -> Interleave.proc ConsumerError (Inbox * X) B) :
  triple p P m (fun r i => match r with inl e => Q (inl e) i | inr a => R a i end) ->
  (forall a, triple p (R a) (k a) Q) -> (forall e, steady p (Q (inl e))) -> triple p P (m ≫= k) Q.
Proof.
  intros Hm Hk Hst. eapply triple_bind with (R := fun a w => R a w.1); [apply _| |exact Hk|intros e w w' Hr _; by apply Hst].
  eapply triple_conseq; [exact Hm|done|]. by intros [e|a] w _.
Qed.
Lemma triple_end {A} p (r : ConsumerError + A) (Q : ConsumerError + A -> Inbox -> Prop) (P : Inbox -> Prop) :
  steady p (Q r) -> (forall i, inv i -> P i -> Q r i) -> triple p P (Done r) Q.
Proof.
  intros Hst H. eapply triple_conseq; [apply (triple_done winv wrely p r (fun r w => Q r w.1))| |done].
  - intros w w' Hr _. by apply Hst.
  - intros w Hi HP. by apply H.
Qed.

Lemma triple_get {A} p (P : Inbox -> Prop) (f : Inbox * X -> A) : steady p P ->
  triple p P (get (E := ConsumerError) f) (fun _ => P).
Proof.
  intros HP. apply triple_act; [intros w w' Hr _; by apply HP|intros _ w w' Hr _; by apply HP|].
  intros w Hi HPw. simpl. split; [done|]. split; [|done]. intros q _. unfold wrely. reflexivity.
Qed.

(** What works on the rest of the system leaves the inbox alone. *)
Lemma triple_second {A} p (P : Inbox -> Prop) (m : Interleave.proc ConsumerError X A) : steady p P ->
  triple p P (on_second m) (fun _ => P).
Proof.
  intros HP. induction m as [r|f IH] using proc_ind'; simpl; intros w Hi HPw w1 Hr Hi1; [by eapply HP|].
  simpl. destruct (f w1.2) as [[m' x]|] eqn:Ef; [|done]. split; [done|].
  split; [intros q _; unfold wrely; simpl; reflexivity|]. eapply IH; [exact Ef|done|]. by eapply HP.
Qed.

(** ** Attempts *)
Context (seen : gmap nat wire).
Abbreviation knows := (knows seen).
Abbreviation resting := (resting seen).
Abbreviation mine p sid raw k := (knows p sid raw true false k).
Lemma mine_steady p sid raw h r k : steady p (knows p sid raw h r k).
Proof. intros i i'. apply knows_stable. Qed.
Lemma resting_steady p : steady p (resting p).
Proof. intros i i'. apply resting_stable. Qed.
Lemma and_steady p P Q : steady p P -> steady p Q -> steady p (fun i => P i /\ Q i).
Proof. intros HP HQ i i' Hr [? ?]. split; [by eapply HP|by eapply HQ]. Qed.
Lemma settled_steady p sid : steady p (fun i => settled i sid).
Proof. intros i i' [] H. eapply settled_mono; eauto. Qed.
Lemma hopeless_steady p sid : steady p (fun i => hopeless i sid).
Proof. intros i i' [] H. eapply hopeless_mono; eauto. Qed.
Lemma succeeded_steady p sid : steady p (fun i => sid ∈ g_succeeded (ib_past i)).
Proof. intros i i' []. set_solver. Qed.
Hint Resolve mine_steady resting_steady and_steady settled_steady hopeless_steady succeeded_steady : core.


Lemma triple_run_handler p sid raw k e :
  triple p (mine p sid raw k) (run_handler handler p sid e)
    (fun r i => mine p sid raw k i /\ match r with inr _ => sid ∈ g_succeeded (ib_past i) | inl _ => True end).
Proof.
  set (Q := fun (r : ConsumerError + unit) i => mine p sid raw k i /\ match r with inr _ => sid ∈ g_succeeded (ib_past i) | inl _ => True end).
  assert (Hst : forall r, steady p (Q r)) by (intros [|]; apply and_steady; auto; done).
  unfold run_handler. eapply triple_seq with (R := fun _ => knows p sid raw true true k); [| |auto].
  - apply triple_note; [auto|intros [|]; auto|]. intros i Hi Hk. by apply (begin_ok seen).
  - intros _. eapply triple_handle with (R := fun _ w => knows p sid raw true true k w.1);
      [apply _|by apply (triple_second p (knows p sid raw true true k))|].
    intros r. apply (triple_seq p _ (fun _ => Q r)); [| |auto].
    + apply triple_note; [auto|intros [|]; auto|]. intros i Hi Hk. destruct r as [e'|[]].
      * destruct (end_ok seen p sid raw k i false Hi Hk) as (H1 & H2 & H3 & _). done.
      * destruct (end_ok seen p sid raw k i true Hi Hk) as (H1 & H2 & H3 & H4). split; [done|]. split; [done|]. split; [done|by apply H4].
    + intros _. by apply triple_end.
Qed.

(** Once settled, an entry may be acknowledged and, if hopeless, parked. *)
Lemma triple_xack p sid (P : Inbox -> Prop) : steady p P -> (forall i, P i -> settled i sid) ->
  triple p P (redis (X := X) (xack sid)) (fun _ => P).
Proof.
  intros HP Hs. apply triple_redis; [done..|]. intros i Hi HPi.
  assert (Hrel : forall q, rely q i (xack sid i).2) by (intros q; by apply rely_quiet).
  pose proof (HP _ _ (Hrel p) HPi). split_and!; auto. by apply inv_xack; auto.
Qed.
Lemma triple_del_retry p sid (P : Inbox -> Prop) : steady p P ->
  triple p P (redis (X := X) (del_retry sid)) (fun _ => P).
Proof. intros HP. apply triple_quiet; [done| |done]. intros i _. apply inv_del_retry. Qed.

Lemma triple_dead_letter p sid attempt raw k :
  triple p (fun i => mine p sid raw k i /\ hopeless i sid) (dead_letter on_dlq sid attempt) (fun _ => mine p sid raw k).
Proof.
  assert (Hst : steady p (fun i => mine p sid raw k i /\ hopeless i sid)) by auto.
  unfold dead_letter, move_to_dlq. eapply triple_seq with (R := fun _ i => mine p sid raw k i /\ hopeless i sid); [| |auto].
  - eapply triple_seq with (R := fun _ i => mine p sid raw k i /\ hopeless i sid); [| |auto].
    + eapply triple_weaken; [apply (triple_xack p sid _ Hst)|done|]; [intros i [_ Hh]; by right|]. intros [|]; naive_solver.
    + intros _. eapply triple_weaken; [apply (triple_quiet p _ (xadd_dlq sid attempt) Hst)|done|]; [|done|].
      * intros i [_ Hh]. by apply inv_xadd_dlq.
      * intros [|]; naive_solver.
  - intros _. eapply triple_seq with (R := fun _ => mine p sid raw k); [| |auto].
    + eapply triple_weaken; [apply (triple_del_retry p sid _ (mine_steady p sid raw true false k))|naive_solver|]. by intros [|].
    + intros _. eapply triple_seq with (R := fun _ => mine p sid raw k); [| |auto].
      * eapply triple_weaken; [apply (triple_second p (mine p sid raw k) (on_dlq sid attempt)); auto|done|]. by intros [|].
      * intros _. by apply triple_end; auto.
Qed.

Lemma knows_le p sid raw h r k k' i : k' <= k -> knows p sid raw h r k i -> knows p sid raw h r k' i.
Proof. intros Hle []. split; [done..|lia]. Qed.

Lemma triple_attempt_failed p sid raw attempt :
  triple p (mine p sid raw (attempt - 1)) (attempt_failed on_dlq sid attempt) (fun _ => mine p sid raw (attempt - 1)).
Proof.
  unfold attempt_failed. apply (triple_seq p _ (fun _ => mine p sid raw attempt)); [| |auto].
  - apply triple_note; [auto|intros [|]; auto|]. intros i Hi Hk. destruct (failed_ok seen p sid raw _ i Hi Hk) as (H1 & H2 & H3).
    replace (attempt - 1 + 1) with attempt in H3 by lia. done.
  - intros _. destruct (MAX_RETRIES <=? attempt) eqn:Emax.
    + eapply triple_weaken; [apply (triple_dead_letter p sid attempt raw attempt)| |].
      * intros i _ Hk. split; [done|]. right. destruct Hk. lia.
      * intros r i _. apply knows_le. lia.
    + eapply triple_weaken with (P := mine p sid raw attempt) (Q := fun _ => mine p sid raw attempt);
        [|done|intros r i _; apply knows_le; lia].
      apply (triple_seq p _ (fun _ => mine p sid raw attempt)); [| |auto].
      * eapply triple_weaken; [apply (triple_get p (mine p sid raw attempt)); auto|done|by intros [|]].
      * intros jitter. apply (triple_seq p _ (fun _ => mine p sid raw attempt)); [| |auto].
        -- eapply triple_weaken; [apply (triple_get p (mine p sid raw attempt)); auto|done|by intros [|]].
        -- intros now. destruct (backoff_ms attempt jitter) as [ms|e|]; [|by apply triple_end; auto..].
           apply (triple_seq p _ (fun _ => mine p sid raw attempt)); [|intros _; by apply triple_end; auto|auto].
           eapply triple_weaken; [apply (triple_quiet p (mine p sid raw attempt) (hset_retry sid attempt (now + ms))); auto|done|by intros [|]].
           intros i []. by apply inv_hset_retry.
Qed.

Lemma triple_settle_success p sid raw k e :
  triple p (mine p sid raw k) (settle_success handler p sid e) (fun _ => mine p sid raw k).
Proof.
  set (R := fun i => mine p sid raw k i /\ sid ∈ g_succeeded (ib_past i)).
  assert (HR : steady p R) by (apply and_steady; auto).
  unfold settle_success. apply (triple_seq p _ (fun _ => R)); [| |auto].
  - eapply triple_weaken; [apply (triple_run_handler p sid raw k e)|done|]. intros [|]; unfold R; naive_solver.
  - intros _. apply (triple_seq p _ (fun _ => R)); [| |auto].
    + eapply triple_weaken; [apply (triple_quiet p R (set_done_marker sid)); [done| |done]|done|unfold R; intros [|]; naive_solver].
      intros i [_ Hs]. by apply inv_set_done.
    + intros _. apply (triple_seq p _ (fun _ => R)); [| |auto].
      * eapply triple_weaken; [apply (triple_xack p sid R HR); intros i [_ Hs]; by left|done|unfold R; intros [|]; naive_solver].
      * intros _. apply (triple_seq p _ (fun _ => R)); [| |auto].
        -- eapply triple_weaken; [by apply (triple_del_retry p sid R)|done|unfold R; intros [|]; naive_solver].
        -- intros _. apply triple_end; [auto|unfold R; naive_solver].
Qed.

(** ** An entry, a round, a process *)
Lemma triple_release p sid raw k :
  triple p (mine p sid raw k) (release (X := X) p sid) (fun _ => resting p).
Proof.
  apply triple_act; [intros w w' Hr _; by apply mine_steady|intros r w w' Hr _; by apply resting_steady|].
  intros [i x] Hi Hk. destruct (let_go_ok seen p sid raw k i Hi Hk) as ([H1 H2] & H3 & H4 & H5). unfold winv, wrely. simpl.
  destruct (ib_fate i); simpl; (split; [done|]); (split; [|done]); intros q Hq; by apply H3.
Qed.

(** What a process has read of an entry before it takes the lease. *)
Definition reading (p : positive) (sid : nat) (raw : wire) (attempt : Z) (i : Inbox) : Prop :=
  knows p sid raw false false (attempt - 1) i.

Lemma triple_acquire p sid raw k :
  triple p (knows p sid raw false false k) (acquire (X := X) p sid)
    (fun r i => match r with inr true => mine p sid raw k i | _ => resting p i end).
Proof.
  apply triple_act; [intros w w' Hr _; by apply mine_steady|
    intros [|[]] w w' Hr _; [by apply resting_steady|by apply mine_steady|by apply resting_steady]|].
  intros [i x] Hi Hk. unfold winv, wrely. simpl. pose proof (knows_resting _ _ _ _ _ _ Hk) as Hid. case_bool_decide as Hfree.
  - destruct (acquire_ok seen p sid raw k i Hfree Hi Hk) as (H1 & H2 & H3 & H4 & H5 & H6).
    destruct (ib_fate i); simpl; [done|by split_and!|]. split_and!; [done|intros q _; by apply H4|by apply (knows_resting _ _ _ _ _ _ H5)].
  - destruct (ib_fate i); simpl; by split_and!.
Qed.

Lemma triple_handler_outcome p sid raw attempt :
  triple p (mine p sid raw (attempt - 1))
    (match parse raw with
     | Ok e => catch (settle_success handler p sid e) (fun _ => attempt_failed on_dlq sid attempt)
     | Raise e => if parse_error e then dead_letter on_dlq sid attempt else raise (FromDict e)
     | NoFuel => raise (FromDict OverflowError)
     end) (fun _ => mine p sid raw (attempt - 1)).
Proof.
  destruct (parse raw) as [e|e|] eqn:Ep; [| |by apply triple_end; auto].
  - eapply triple_handle with (R := fun _ w => mine p sid raw (attempt - 1) w.1); [apply _|apply triple_settle_success|].
    intros [e'|n]; [apply triple_attempt_failed|].
    change (triple p (mine p sid raw (attempt - 1)) (Done (inr n) : Interleave.proc ConsumerError (Inbox * X) Z) (fun _ => mine p sid raw (attempt - 1))). by apply triple_end; auto.
  - destruct (parse_error e) eqn:Ee; [|by apply triple_end; auto].
    eapply triple_weaken; [apply (triple_dead_letter p sid attempt raw (attempt - 1))| |done].
    intros i _ Hk. split; [done|]. left. exists raw, e. destruct Hk. split; [by apply kn_content0|done].
Qed.

Lemma triple_process_entry p sid raw attempt :
  triple p (reading p sid raw attempt) (process_entry handler on_dlq p sid raw attempt) (fun _ => resting p).
Proof.
  unfold process_entry.
  apply (triple_seq p _ (fun done_ i => reading p sid raw attempt i /\ (done_ = true -> sid ∈ g_succeeded (ib_past i)))); [| |auto].
  - apply triple_redis; [apply mine_steady| |].
    + intros [|done_]; [auto|]. intros i i' Hr [Hk Hs]. split; [by eapply mine_steady|]. intros ->. eapply succeeded_steady; eauto.
    + intros i Hi Hk. simpl. split_and!; [done|intros q _; reflexivity|done| |by eapply knows_resting..].
      intros Hd%bool_decide_eq_true. destruct Hi. by apply inv_done0.
  - intros [|]; [|].
    + assert (Hst : steady p (fun i => reading p sid raw attempt i /\ sid ∈ g_succeeded (ib_past i))).
      { apply and_steady; [apply mine_steady|auto]. }
      assert (Hid : forall i, reading p sid raw attempt i /\ sid ∈ g_succeeded (ib_past i) -> resting p i).
      { intros i [Hk _]. by eapply knows_resting. }
      apply (triple_seq p _ (fun _ i => reading p sid raw attempt i /\ sid ∈ g_succeeded (ib_past i))); [| |auto].
      * eapply triple_weaken; [apply (triple_xack p sid _ Hst); intros i [_ H]; by left|naive_solver|]. intros [|]; auto.
      * intros _. apply (triple_seq p _ (fun _ => resting p)); [|intros _; by apply triple_end; auto|auto].
        eapply triple_weaken; [by apply (triple_del_retry p sid _ Hst)|done|]. intros [|]; auto.
    + apply (triple_seq p _ (fun got i => if got : bool then mine p sid raw (attempt - 1) i else resting p i)); [| |auto].
      * eapply triple_weaken; [apply (triple_acquire p sid raw (attempt - 1))|naive_solver|]. by intros [|[]].
      * intros [|]; [|by apply triple_end; auto]. unfold finally.
        eapply triple_handle with (R := fun _ w => mine p sid raw (attempt - 1) w.1); [apply _|apply triple_handler_outcome|].
        intros r. eapply triple_handle with (R := fun _ w => resting p w.1); [apply _|apply triple_release|].
        intros rc. change (triple p (resting p) (match rc with inl e => Done (inl e) | inr _ => Done r end) (fun _ => resting p)).
        destruct rc; by apply triple_end; auto.
Qed.

Lemma triple_for_all {A} p (I : Inbox -> Prop) (l : list A) (f : A -> Interleave.proc ConsumerError (Inbox * X) Z) :
  steady p I -> (forall x, x ∈ l -> triple p I (f x) (fun _ => I)) -> triple p I (for_all l f) (fun _ => I).
Proof.
  intros HI. induction l as [|x l IH]; intros Hf; simpl; [by apply triple_end|].
  apply (triple_seq p _ (fun _ => I)); [| |auto].
  - eapply triple_weaken; [apply Hf, list_elem_of_here|done|by intros [|]].
  - intros n. apply (triple_seq p _ (fun _ => I)); [|intros k; by apply triple_end|auto].
    eapply triple_weaken; [apply IH; intros y Hy; apply Hf; by apply list_elem_of_further|done|by intros [|]].
Qed.

End code.

(** * Rounds and pools *)
Section pool.
Context {X : Type} `{!Codec uuid, !Codec Z}.
Context (handler : Envelope -> Interleave.proc ConsumerError X unit)
  (on_dlq : nat -> Z -> Interleave.proc ConsumerError X unit).
#[local] Existing Instance wrely_preorder.
Abbreviation triple := (triple (X := X)).

Lemma triple_exists {A B} p (P : B -> Inbox -> Prop) (m : Interleave.proc ConsumerError (Inbox * X) A)
    (Q : ConsumerError + A -> Inbox -> Prop) :
  (forall b, triple p (P b) m Q) -> triple p (fun i => exists b, P b i) m Q.
Proof. intros H w Hi [b HP]. by apply (H b). Qed.

Lemma resting_idle seen p i : resting seen p i -> idle p i.
Proof. by intros []. Qed.
Lemma idle_resting p i : idle p i -> resting ∅ p i.
Proof. intros H. split; [done|]. intros sid raw. by rewrite lookup_empty. Qed.

(** A batch, with the entries it was read from. *)
Definition read_batch (p : positive) (l : list (nat * wire)) (i : Inbox) : Prop :=
  exists seen, resting seen p i /\ forall entry, entry ∈ l -> seen !! entry.1 = Some entry.2.
Lemma read_batch_steady p l : steady p (read_batch p l).
Proof. intros i i' Hr (seen & H1 & H2). exists seen. split; [by eapply resting_stable|done]. Qed.
Lemma idle_steady p : steady p (idle p).
Proof. intros i i'. apply idle_stable. Qed.
Lemma by_id_entry k ids entry : entry ∈ by_id k ids -> entry.1 ∈ ids /\ entry.2 = default no_fields (k_content k !! entry.1).
Proof. unfold by_id. by intros (s & -> & Hs)%list_elem_of_fmap. Qed.
Lemma read_now p l i : inv i -> idle p i ->
  (forall entry, entry ∈ l -> is_Some (g_published (ib_past i) !! entry.1) /\ entry.2 = default no_fields (k_content (ib_keys i) !! entry.1)) ->
  read_batch p l i.
Proof.
  intros [] H Hl. set (blank := gset_to_gmap no_fields (dom (g_published (ib_past i)))).
  exists (k_content (ib_keys i) ∪ blank). split; [split; [done|]|].
  - intros sid raw [Hc|[Hn Hb]]%lookup_union_Some_raw; [left; by eapply lookup_weaken|right].
    apply lookup_gset_to_gmap_Some in Hb as [Hd%elem_of_dom <-]. split; [by apply inv_evicted0|done].
  - intros entry [Hp He]%Hl. apply lookup_union_Some_raw. rewrite He. destruct (k_content (ib_keys i) !! entry.1) as [raw|] eqn:E; [by left|right].
    split; [done|]. apply lookup_gset_to_gmap_Some. split; [by apply elem_of_dom|done].
Qed.

Lemma triple_batch p l (f : nat * wire -> Interleave.proc ConsumerError (Inbox * X) Z) :
  (forall seen entry, seen !! entry.1 = Some entry.2 -> triple p (resting seen p) (f entry) (fun _ => resting seen p)) ->
  triple p (read_batch p l) (for_all l f) (fun _ => idle p).
Proof.
  intros Hf. apply triple_exists. intros seen w Hi [Hr Hl].
  eapply safe_mono; [apply (triple_for_all p (resting seen p) l f); [apply resting_steady| |done|exact Hr]|].
  - intros entry He. apply Hf. by apply Hl.
  - intros r w' _. apply resting_idle.
Qed.

Lemma entry_reading seen p sid raw attempt i : resting seen p i -> seen !! sid = Some raw ->
  attempt - 1 <= Z.of_nat (failures i sid) -> reading seen p sid raw attempt i.
Proof. intros Hr Hs Hf. by apply resting_knows. Qed.

Lemma triple_new_entry seen p entry : seen !! entry.1 = Some entry.2 ->
  triple p (resting seen p) (process_entry handler on_dlq p entry.1 entry.2 1) (fun _ => resting seen p).
Proof.
  intros He. eapply triple_weaken; [apply (triple_process_entry handler on_dlq seen p entry.1 entry.2 1)| |done].
  intros i _ Hr. apply entry_reading; [done..|]. lia.
Qed.

Lemma triple_pending_entry seen p now_ms entry : seen !! entry.1 = Some entry.2 ->
  triple p (resting seen p) (process_pending handler on_dlq p now_ms entry) (fun _ => resting seen p).
Proof.
  intros He. unfold process_pending.
  apply (triple_seq p _ (fun state i => resting seen p i /\
    match state with Some (a, _) => a <= Z.of_nat (failures i entry.1) | None => True end)); [| |intros _; apply resting_steady].
  - apply triple_redis; [apply resting_steady| |].
    + intros [|[[a t]|]] i i' Hr; [by apply resting_steady| |].
      * intros [H1 H2]. split; [by eapply resting_steady|]. destruct Hr. specialize (rl_failures0 entry.1). lia.
      * intros [H1 _]. split; [by eapply resting_steady|done].
    + intros i Hi Hr. simpl. split_and!; [done|intros q _; reflexivity|done| |done..].
      destruct (k_retry (ib_keys i) !! entry.1) as [[a t]|] eqn:E; [|done]. destruct Hi. by eapply inv_retry0.
  - intros [[a next_at]|].
    + destruct (now_ms <? next_at); [apply triple_end; [apply resting_steady|naive_solver]|].
      eapply triple_weaken; [apply (triple_process_entry handler on_dlq seen p entry.1 entry.2 (a + 1))| |done].
      intros i _ [Hr Ha]. apply entry_reading; [done..|]. lia.
    + eapply triple_weaken; [by apply (triple_new_entry seen p entry He)|naive_solver|done].
Qed.

Lemma triple_consume_once p : triple p (idle p) (consume_once handler on_dlq p) (fun _ => idle p).
Proof.
  unfold consume_once. apply (triple_seq p _ (fun _ => idle p)); [| |intros _; apply idle_steady].
  { eapply triple_weaken; [apply (triple_get p (idle p)), idle_steady|done|by intros [|]]. }
  intros now_ms. apply (triple_seq p _ (read_batch p)); [| |intros _; apply idle_steady].
  { apply triple_redis; [apply idle_steady|intros [|]; [apply idle_steady|apply read_batch_steady]|].
    intros i Hi Hid. simpl. split_and!; [done|intros q _; reflexivity| |done..].
    apply read_now; [done..|]. intros entry [Hin He]%by_id_entry. split; [|done]. destruct Hi. apply inv_pel0.
    apply elem_of_take in Hin as (n & Hin%list_elem_of_lookup_2 & _). rewrite merge_sort_Permutation in Hin.
    apply list_elem_of_filter in Hin as [-> _]. by eexists. }
  intros pending. apply (triple_seq p _ (fun _ => idle p)); [| |intros _; apply idle_steady].
  { eapply triple_weaken; [apply (triple_batch p pending (process_pending handler on_dlq p now_ms))|done|by intros [|]].
    intros seen entry. apply triple_pending_entry. }
  intros n. apply (triple_seq p _ (read_batch p)); [| |intros _; apply idle_steady].
  { apply triple_redis; [apply idle_steady|intros [|]; [apply idle_steady|apply read_batch_steady]|].
    intros i Hi Hid. assert (Hrel : forall q, rely q i (xread_new p i).2) by (intros q; by apply rely_quiet).
    pose proof (idle_steady p _ _ (Hrel p) Hid). split_and!; [by apply inv_xread_new|auto| |done..].
    apply read_now; [by apply inv_xread_new|done|]. simpl. intros entry [Hin He]%by_id_entry. split; [|done]. destruct Hi.
    apply elem_of_take in Hin as (j & Hin%list_elem_of_lookup_2 & _). destruct (inv_new0 _ Hin) as [raw E]. exists raw. by eapply lookup_weaken. }
  intros new. apply (triple_seq p _ (fun _ => idle p)); [| |intros _; apply idle_steady].
  { eapply triple_weaken; [apply (triple_batch p new (fun entry => process_entry handler on_dlq p entry.1 entry.2 1))|done|by intros [|]].
    intros seen entry. apply triple_new_entry. }
  intros m. apply triple_end; [apply idle_steady|done].
Qed.

Lemma triple_round p : triple p (idle p) (consumer_round handler on_dlq p) (fun _ => idle p).
Proof.
  unfold consumer_round. eapply triple_handle with (R := fun _ w => idle p w.1); [apply _| |].
  - change (triple p (idle p) (_ ← consume_once handler on_dlq p; mret tt) (fun _ => idle p)).
    apply (triple_seq p _ (fun _ => idle p)); [| |intros _; apply idle_steady].
    + eapply triple_weaken; [apply (triple_consume_once p)|done|by intros [|]].
    + intros _. apply triple_end; [apply idle_steady|done].
  - intros r. change (triple p (idle p) (match r with inl _ => mret tt | inr a => Done (inr a) end) (fun _ => idle p)).
    destruct r; (apply triple_end; [apply idle_steady|done]).
Qed.

(** ** Crashes and the rest of the world *)
Lemma crash_ok p (w : Inbox * X) : winv w -> winv (crash p w) /\ forall q, q <> p -> wrely q w (crash p w).
Proof.
  destruct w as [i x]. intros []. split.
  - split; simpl; try done.
    + intros [q s] [Hne Hx]%elem_of_filter. apply elem_of_filter. split; [done|by apply inv_running0].
    + intros q s [_ Hx]%elem_of_filter. by apply inv_held0.
  - intros q Hq. split; simpl; try done; intros s; rewrite elem_of_filter; naive_solver.
Qed.

Lemma from_on_size cut (m m' : gmap nat wire) : m ⊆ m' -> (size (from_on cut m) <= size (from_on cut m'))%nat.
Proof. intros H. by apply map_subseteq_size, map_filter_subseteq_mono. Qed.
Lemma from_on_later cut cut' (m : gmap nat wire) : (cut' <= cut)%nat -> from_on cut m ⊆ from_on cut' m.
Proof. intros H. apply map_filter_subseteq_ext. simpl. lia. Qed.
Lemma publish_ok sid raw i : map_Forall (fun s _ => (s < sid)%nat) (g_published (ib_past i)) -> inv i ->
  inv (publish sid raw i) /\ forall q, rely q i (publish sid raw i).
Proof.
  intros Hnew Hi. pose proof Hi as []. assert (Hfr : g_published (ib_past i) !! sid = None).
  { destruct (g_published (ib_past i) !! sid) as [r|] eqn:E; [|done]. specialize (Hnew _ _ E). simpl in Hnew. lia. }
  assert (Hc : g_published (ib_past i) ⊆ <[sid:=raw]> (g_published (ib_past i))) by (by apply insert_subseteq).
  split; [|intros q; by split]. split; simpl; try done.
  - intros s Hs. by eapply settled_mono; [..|by apply inv_acked0].
  - intros s a Hs. by eapply hopeless_mono; [..|by eapply inv_dlq0].
  - intros s [r [[<- <-]|[_ Hr]]%lookup_insert_Some]; [left; set_solver|].
    destruct (inv_entries0 s ltac:(by eexists)) as [?|[?|?]]; [left; set_solver|by right; left|by right; right].
  - by apply (insert_mono (M := gmap nat)).
  - intros s [r [[<- _]|[Hne Hr]]%lookup_insert_Some] Hn; [by rewrite lookup_insert_eq in Hn|].
    rewrite lookup_insert_ne in Hn by done. apply inv_evicted0; [by eexists|done].
  - intros s Hs. apply lookup_insert_is_Some'. right. by apply inv_pel0.
  - intros s [Hs| ->%list_elem_of_singleton]%elem_of_app; apply lookup_insert_is_Some'; [right; by apply inv_new0|by left].
  - intros s Hs%inv_far0. etrans; [exact Hs|]. apply Nat2Z.inj_le. by apply from_on_size.
Qed.
Lemma trim_ok cut i : STREAM_MAXLEN <= Z.of_nat (size (from_on cut (k_content (ib_keys i)))) -> inv i ->
  inv (trim cut i) /\ forall q, rely q i (trim cut i).
Proof.
  intros Hlong Hi. pose proof Hi as [].
  assert (Ht : g_trimmed (ib_past i) ⊆ g_trimmed (ib_past (trim cut i))) by apply union_subseteq_r.
  split; [|intros q; by split]. split; simpl; try done.
  - intros s Hs. by eapply settled_mono; [..|by apply inv_acked0].
  - intros s a Hs. by eapply hopeless_mono; [..|by eapply inv_dlq0].
  - intros s Hs. destruct (inv_entries0 s Hs) as [Hn|[?|[?|?]]]; [|by right; left|by right; right; left|right; right; right; set_solver].
    destruct (decide (cut <= s)%nat) as [Hle|Hlt]; [left; by apply list_elem_of_filter|]. right; right; right. apply elem_of_union_l.
    destruct (inv_new0 s Hn) as [r Er]. apply elem_of_dom. exists r. apply map_lookup_filter_Some. split; [done|simpl; lia].
  - etrans; [apply map_filter_subseteq|done].
  - intros s Hs Hn. apply map_lookup_filter_None in Hn as [Hn|Hn]; [apply elem_of_union_r; by apply inv_evicted0|].
    destruct (k_content (ib_keys i) !! s) as [r|] eqn:Er; [|apply elem_of_union_r; by apply inv_evicted0].
    apply elem_of_union_l, elem_of_dom. exists r. apply map_lookup_filter_Some. split; [done|]. specialize (Hn r eq_refl). simpl in *. lia.
  - intros s [Hle Hs]%list_elem_of_filter. destruct (inv_new0 s Hs) as [r Er]. exists r. by apply map_lookup_filter_Some.
  - intros s [[r [_ Hlt]%map_lookup_filter_Some]%elem_of_dom|Hs]%elem_of_union; [|by apply inv_far0]. simpl in Hlt.
    etrans; [exact Hlong|]. apply Nat2Z.inj_le. etrans; [by apply from_on_size|]. apply map_subseteq_size, from_on_later. lia.
Qed.
Lemma elsewhere_ok alive (w w' : Inbox * X) : elsewhere alive w w' -> winv w ->
  winv w' /\ forall q, q ∈ alive -> wrely q w w'.
Proof.
  unfold winv. intros [sid raw i x Hnew|cut i x Hlong|n i x Hlong|sid i x Hgone|sid p q i x Hp Hal|sid i x Hfree|sid i x|sid i x|now f d i x x'] Hi; simpl in *;
    pose proof Hi as [].
  - destruct (publish_ok sid raw i Hnew Hi) as [H1 H2]. split; [done|intros q _; apply H2].
  - destruct (trim_ok cut i Hlong Hi) as [H1 H2]. split; [done|intros q _; apply H2].
  - split; [|intros r _; by apply rely_quiet]. apply (inv_keys i (set_dlq (drop n) (ib_keys i))); simpl; try done; try (by intros; left).
    intros s a Hs. apply (inv_dlq0 s a). apply list_elem_of_lookup_1 in Hs as [j Hj]. rewrite lookup_drop in Hj. by eapply list_elem_of_lookup_2.
  - split; [|intros r _; by apply rely_quiet]. apply (inv_keys i (set_pel (delete sid) (ib_keys i))); simpl; try done; try (by intros; left).
    + intros s Hs. destruct (inv_entries0 s Hs) as [?|[?|?]]; [by left| |by right; right]. destruct (decide (s = sid)) as [->|Hne].
      * right; right; right. by apply inv_evicted0.
      * right; left. by rewrite lookup_delete_ne.
    + intros s [r [_ Hr]%lookup_delete_Some]. left. by eexists.
  - split; [|intros r _; by apply rely_quiet]. apply (inv_keys i (set_pel (insert sid p) (ib_keys i))); simpl; try done.
    + intros s Hs. destruct (inv_entries0 s Hs) as [?|[?|?]]; [by left| |by right; right]. right. left.
      by apply lookup_insert_is_Some'; right.
    + intros s [<-|Hs]%lookup_insert_is_Some'; left; [by eexists|done].
  - split; [|intros r _; by apply rely_quiet]. split; simpl; try done. intros p s Hp.
    rewrite lookup_delete_ne; [by apply inv_held0|]. intros <-. by apply (Hfree p).
  - split; [|intros r _; by apply rely_quiet]. apply (inv_keys i (set_done (fun d => d ∖ {[sid]}) (ib_keys i))); simpl; try done; try (by intros; left). set_solver.
  - split; [|intros r _; by apply rely_quiet]. apply (inv_del_retry sid i Hi).
  - split; [by split|intros r _; by split].
Qed.

(** ** All reachable states *)
Abbreviation reaches := (reach (consumer_program handler on_dlq) (crash (X := X)) elsewhere newcomer).

(** An inbox before its first message. *)
Definition empty_past : Past := mkPast ∅ ∅ ∅ ∅ ∅ ∅ ∅.
Definition start (now : Z) (x : X) : conf ConsumerError (Inbox * X) unit :=
  mkConf (mkInbox (mkKeys [] ∅ ∅ ∅ ∅ ∅ []) empty_past now Answered BACKOFF_BASE, x) ∅.

Lemma start_good now x : good winv wrely (fun p _ w => idle p w.1) (start now x).
Proof. split; [|done]. split; simpl; try done; try set_solver; intros sid [? Hs]; by rewrite lookup_empty in Hs. Qed.

Lemma reaches_inv now x c : reaches (start now x) c -> inv (world c).1.
Proof.
  intros H. apply (reach_good _ _ _ _ winv wrely (fun p _ w => idle p w.1) (fun p w => idle p w.1)) in H as [Hi _]; [done| | | | | |apply start_good].
  - intros p m w -> Hi Hid. by apply triple_round.
  - by intros p w Hn _.
  - done.
  - intros p w. apply crash_ok.
  - intros alive w w'. apply elsewhere_ok.
Qed.
End pool.
