(* ===== verification/ConsumerClaims.v ===== *)
(** * What the inbox consumers guarantee

    The properties of [A2AConsumer], from the invariant of [ConsumerFacts] and, for one
    consumer alone, by running its code. *)

From stdpp Require Import sorting.
From S2P Require Import Prelude PyFloat PyValue Envelope Interleave A2AConsumer ConsumerFacts.

Section claims.
Context {X : Type} `{!Codec uuid, !Codec Z}.
Context (handler : Envelope -> Interleave.proc ConsumerError X unit)
  (on_dlq : nat -> Z -> Interleave.proc ConsumerError X unit).
Abbreviation reaches := (reach (consumer_program handler on_dlq) (crash (X := X)) elsewhere newcomer).

(** ** One consumer alone *)
Section alone.
Context (p : positive) (sid : nat) (raw : wire).

(** The inbox holds one pending entry, which no other consumer works on. *)
Record alone (retry : option (Z * Z)) (i : Inbox) : Prop := {
  al_answered : ib_fate i = Answered;
  al_new : k_new (ib_keys i) = [];
  al_pel : k_pel (ib_keys i) = {[sid := p]};
  al_content : k_content (ib_keys i) !! sid = Some raw;
  al_retry : k_retry (ib_keys i) !! sid = retry;
  al_done : sid ∉ k_done (ib_keys i);
  al_lease : k_lease (ib_keys i) !! sid = None;
}.

Lemma run_redis {A} (f : Inbox -> A * Inbox) (w : Inbox * X) : ib_fate w.1 = Answered ->
  run (redis f) w = Some (inr (f w.1).1, ((f w.1).2, w.2)).
Proof. intros H. unfold redis. rewrite run_act. by rewrite H. Qed.
Lemma run_note (f : Past -> Past) (w : Inbox * X) : run (note f) w = Some (inr tt, (with_past f w.1, w.2)).
Proof. unfold note. by rewrite run_act. Qed.
Lemma run_get {A} (f : Inbox * X -> A) w : run (E := ConsumerError) (get f) w = Some (inr (f w), w).
Proof. unfold get. by rewrite run_act. Qed.
Lemma run_second {A} (m : Interleave.proc ConsumerError X A) (i : Inbox) x :
  run (on_second m) (i, x) = match run m x with Some (r, x') => Some (r, (i, x')) | None => None end.
Proof.
  revert x. induction m as [r|f IH] using proc_ind'; intros x; [done|]. simpl.
  destruct (f x) as [[m' x']|] eqn:Ef; [|done]. by apply (IH _ _ _ Ef).
Qed.

Lemma pending_alone retry i : alone retry i -> xread_pending p i = ([(sid, raw)], i).
Proof.
  intros []. unfold xread_pending. rewrite al_pel0, dom_singleton_L, elements_singleton. f_equal.
  rewrite filter_cons_True by apply lookup_singleton_eq. rewrite filter_nil. unfold by_id. simpl. by rewrite al_content0.
Qed.

(** The inbox while [p] holds the lease, and once an attempt has failed. *)
Definition leased (i : Inbox) : Inbox := with_past (set_held (union {[(p, sid)]})) (with_keys (set_lease (insert sid p)) i).
Definition released (i : Inbox) : Inbox := with_keys (set_lease (delete sid)) (with_past (set_held (fun h => h ∖ {[(p, sid)]})) i).
Definition attempted (i : Inbox) : Inbox :=
  with_past (set_failures (fun m => <[sid := S (default 0%nat (m !! sid))]> m))
    (with_past (set_running (fun h => h ∖ {[(p, sid)]})) (with_past (set_running (union {[(p, sid)]})) i)).

Lemma run_acquire i (x : X) : ib_fate i = Answered -> k_lease (ib_keys i) !! sid = None ->
  run (acquire p sid) (i, x) = Some (inr true, (leased i, x)).
Proof. intros Hf Hl. unfold acquire. rewrite run_act. simpl. rewrite Hf, Hl. done. Qed.
Lemma run_release i (x : X) : ib_fate i = Answered -> run (release p sid) (i, x) = Some (inr tt, (released i, x)).
Proof. intros Hf. unfold release. rewrite run_act. simpl. by rewrite Hf. Qed.

Lemma run_failing_handler e i x err x' : run (handler e) x = Some (inl err, x') ->
  run (settle_success handler p sid e) (i, x)
  = Some (inl err, (with_past (set_running (fun h => h ∖ {[(p, sid)]})) (with_past (set_running (union {[(p, sid)]})) i), x')).
Proof.
  intros Hh. unfold settle_success, run_handler. rewrite !run_bind, run_note, run_handle, run_second. simpl. by rewrite Hh.
Qed.

(** What is left after the attempt: a retry record, or a dead letter. *)
Lemma run_attempt_failed attempt ms i x : ib_fate i = Answered -> attempt < MAX_RETRIES ->
  backoff_ms attempt (ib_draw i) = Ok ms ->
  run (attempt_failed on_dlq sid attempt) (i, x)
  = Some (inr 0, (with_keys (set_retry (insert sid (attempt, ib_now i + ms)))
                    (with_past (set_failures (fun m => <[sid := S (default 0%nat (m !! sid))]> m)) i), x)).
Proof.
  intros Hf Ha Hms. unfold attempt_failed. rewrite run_bind, run_note. cbv beta iota.
  destruct (MAX_RETRIES <=? attempt) eqn:E; [lia|]. rewrite run_bind, run_get. cbv beta iota.
  rewrite run_bind, run_get. cbv beta iota. simpl ib_draw. simpl ib_now. rewrite Hms. rewrite run_bind, run_redis by done. done.
Qed.
Lemma run_dead_letter attempt i x x' : ib_fate i = Answered -> MAX_RETRIES <= attempt ->
  run (on_dlq sid attempt) x = Some (inr tt, x') ->
  run (attempt_failed on_dlq sid attempt) (i, x)
  = Some (inr 0, ((del_retry sid (xadd_dlq sid attempt (xack sid
      (with_past (set_failures (fun m => <[sid := S (default 0%nat (m !! sid))]> m)) i)).2).2).2, x')).
Proof.
  intros Hf Ha Hd. unfold attempt_failed. rewrite run_bind, run_note. cbv beta iota.
  destruct (MAX_RETRIES <=? attempt) eqn:E; [|lia]. unfold dead_letter, move_to_dlq.
  rewrite !run_bind, run_redis by done. cbv beta iota. rewrite run_redis by done. cbv beta iota.
  rewrite run_bind, run_redis by done. cbv beta iota. rewrite run_bind, run_second. simpl. by rewrite Hd.
Qed.

Lemma run_failing_entry e attempt retry i x err x' :
  alone retry i -> parse raw = Ok e -> run (handler e) x = Some (inl err, x') ->
  run (process_entry handler on_dlq p sid raw attempt) (i, x)
  = match run (attempt_failed on_dlq sid attempt)
            (with_past (set_running (fun h => h ∖ {[(p, sid)]})) (with_past (set_running (union {[(p, sid)]})) (leased i)), x') with
    | Some (r, (i', x'')) => run (finally (Done r) (release p sid)) (i', x'')
    | None => None
    end.
Proof.
  intros [] Hraw Hh. unfold process_entry. rewrite run_bind, run_redis by done. unfold exists_done. cbv beta iota.
  cbn [fst snd]. rewrite bool_decide_false by done. rewrite run_bind, run_acquire by done. cbv beta iota.
  unfold finally at 1. rewrite run_handle, Hraw. unfold catch. rewrite run_handle, (run_failing_handler e _ x err x' Hh). cbv beta iota.
  destruct (run (attempt_failed on_dlq sid attempt) _) as [[r [i' x'']]|]; done.
Qed.

(** A round over this entry is what [process_pending] does with it. *)
Lemma no_new i : k_new (ib_keys i) = [] -> xread_new p i = ([], i).
Proof. destruct i as [[nw ct pl rt dn ls dl] past now f d]. simpl. intros ->. done. Qed.
Lemma run_round retry i x n i' x' : alone retry i ->
  run (process_pending handler on_dlq p (ib_now i) (sid, raw)) (i, x) = Some (inr n, (i', x')) ->
  ib_fate i' = Answered -> k_new (ib_keys i') = [] ->
  run (consume_once handler on_dlq p) (i, x) = Some (inr n, (i', x')).
Proof.
  intros Hal Hrun Hf Hn. unfold consume_once. rewrite run_bind, run_get. cbv beta iota.
  rewrite run_bind, run_redis by apply Hal. cbn [fst snd]. rewrite (pending_alone _ _ Hal). cbn [fst snd]. cbv beta iota.
  rewrite run_bind, run_for_all_cons, Hrun. change (run (for_all [] ?f) ?w) with (Some (inr 0 : ConsumerError + Z, w)). cbv beta iota.
  rewrite run_bind, run_redis by done. cbn [fst snd]. rewrite (no_new _ Hn). simpl. f_equal. f_equal. f_equal. lia.
Qed.

Lemma run_due attempt retry i x r : alone retry i ->
  attempt = match retry with Some (a, _) => a + 1 | None => 1 end ->
  (forall a t, retry = Some (a, t) -> t <= ib_now i) ->
  run (process_entry handler on_dlq p sid raw attempt) (i, x) = r ->
  run (process_pending handler on_dlq p (ib_now i) (sid, raw)) (i, x) = r.
Proof.
  intros [] -> Hdue <-. unfold process_pending. rewrite run_bind, run_redis by done. unfold hgetall_retry. cbn [fst snd]. rewrite al_retry0.
  destruct retry as [[a t]|]; [|done]. destruct (ib_now i <? t) eqn:E; [|done]. specialize (Hdue a t eq_refl). lia.
Qed.
End alone.

(** A message whose handler fails is retried and, at the third failed attempt,
    parked: one round over a pending entry that is due runs the handler once and either
    records the attempt and the moment of the next one, leaving the entry pending with
    its lease let go, or acknowledges the entry and adds it once to the dead letters.
    An entry that is not yet due is left exactly as it was. *)
Theorem failing_entry_round p sid raw e ms retry attempt i x err x' x''
    (Halone : alone p sid raw retry i) (Hraw : parse raw = Ok e)
    (Hfails : run (handler e) x = Some (inl err, x'))
    (Hattempt : attempt = match retry with Some (a, _) => a + 1 | None => 1 end)
    (Hms : attempt < MAX_RETRIES -> backoff_ms attempt (ib_draw i) = Ok ms)
    (Hdlq : MAX_RETRIES <= attempt -> run (on_dlq sid attempt) x' = Some (inr tt, x'')) :
  (forall a t, retry = Some (a, t) -> ib_now i < t -> run (consume_once handler on_dlq p) (i, x) = Some (inr 0, (i, x))) /\
  ((forall a t, retry = Some (a, t) -> t <= ib_now i) ->
   exists i',
     run (consume_once handler on_dlq p) (i, x) = Some (inr 0, (i', if attempt <? MAX_RETRIES then x' else x'')) /\
     failures i' sid = S (failures i sid) /\
     if attempt <? MAX_RETRIES
     then alone p sid raw (Some (attempt, ib_now i + ms)) i' /\ k_dlq (ib_keys i') = k_dlq (ib_keys i)
     else k_pel (ib_keys i') = ∅ /\ sid ∈ g_acked (ib_past i') /\ k_retry (ib_keys i') !! sid = None /\
          k_lease (ib_keys i') !! sid = None /\ k_dlq (ib_keys i') = k_dlq (ib_keys i) ++ [(sid, attempt)]).
Proof.
  split.
  - intros a t -> Hlt. eapply run_round; [done| |apply Halone..]. unfold process_pending.
    rewrite run_bind, run_redis by apply Halone. unfold hgetall_retry. cbn [fst snd]. rewrite (al_retry _ _ _ _ _ Halone).
    destruct (ib_now i <? t) eqn:E; [done|lia].
  - intros Hdue. pose proof Halone as []. destruct (attempt <? MAX_RETRIES) eqn:Eatt.
    + eexists. split; [|split].
      * eapply run_round; [done|eapply run_due; [done..|]| |].
        -- rewrite (run_failing_entry _ _ _ _ _ _ _ _ _ _ Halone Hraw Hfails).
           rewrite (run_attempt_failed sid attempt ms); [|done|lia|apply Hms; lia]. rewrite run_finally_done, run_release by done. done.
        -- done.
        -- done.
      * unfold failures. simpl. by rewrite lookup_insert_eq.
      * split; [|done]. split; simpl; try done; [by rewrite lookup_insert_eq|by rewrite lookup_delete_eq].
    + eexists. split; [|split].
      * eapply run_round; [done|eapply run_due; [done..|]| |].
        -- rewrite (run_failing_entry _ _ _ _ _ _ _ _ _ _ Halone Hraw Hfails).
           rewrite (run_dead_letter sid attempt _ _ x''); [|done|lia|apply Hdlq; lia]. rewrite run_finally_done, run_release by done. done.
        -- done.
        -- done.
      * unfold failures. simpl. by rewrite lookup_insert_eq.
      * simpl. rewrite al_pel0, delete_singleton_eq, !lookup_delete_eq. split_and!; try done. set_solver.
Qed.

(** C26. At any moment at most one process runs the handler of a message, whatever the
    consumers do: entries may be claimed from a process that is still working, commands
    may be lost before or after taking effect, processes may crash and keys expire, as
    long as the lease of a process at work does not. *)
Theorem one_handler_at_a_time now x c p q sid (Hreach : reaches (start now x) c)
    (Hp : (p, sid) ∈ g_running (ib_past (world c).1)) (Hq : (q, sid) ∈ g_running (ib_past (world c).1)) : p = q.
Proof.
  apply reaches_inv in Hreach. apply (inv_running _ Hreach), (inv_held _ Hreach) in Hp, Hq. congruence.
Qed.

(** C27. A message is acknowledged only when it is settled.  In every reachable state each
    message ever published is waiting, pending, acknowledged, or has been evicted from
    the stream, which happens only to a message with at least ten thousand later ones;
    it is acknowledged only after its handler once returned normally, or when what the
    consumer read cannot be parsed - the message itself, or the empty fields that stand
    for an evicted one - or when three of its attempts have failed; and only those of
    the last two kinds are dead letters.  That a dead letter is there is not claimed: it
    is added after the acknowledgement ([dead_letter_lost]), to a stream that is capped
    as well. *)
Theorem acknowledged_only_settled now x c sid (Hreach : reaches (start now x) c) :
  let i := (world c).1 in
  (is_Some (g_published (ib_past i) !! sid) ->
     sid ∈ k_new (ib_keys i) \/ is_Some (k_pel (ib_keys i) !! sid) \/ sid ∈ g_acked (ib_past i) \/ sid ∈ g_trimmed (ib_past i)) /\
  (sid ∈ k_new (ib_keys i) -> k_content (ib_keys i) !! sid = g_published (ib_past i) !! sid) /\
  (sid ∈ g_trimmed (ib_past i) -> STREAM_MAXLEN <= Z.of_nat (size (from_on (S sid) (g_published (ib_past i))))) /\
  (sid ∈ g_acked (ib_past i) -> sid ∈ g_succeeded (ib_past i) \/ hopeless i sid) /\
  (forall attempt, (sid, attempt) ∈ k_dlq (ib_keys i) -> hopeless i sid).
Proof.
  apply reaches_inv in Hreach. split; [by apply (inv_entries _ Hreach)|]. split.
  { intros H. destruct (inv_new _ Hreach sid H) as [raw E]. rewrite E. symmetry. by eapply lookup_weaken, (inv_content _ Hreach). }
  split; [by apply (inv_far _ Hreach)|]. split; [by apply (inv_acked _ Hreach)|intros a; by apply (inv_dlq _ Hreach)].
Qed.

(** A message that is JSON but raises something else than the parser expects blocks
    its inbox: as long as it is the first pending entry, a round only raises, and leaves
    the keys as they were; no attempt is counted, nothing is parked and no other message
    of the agent is looked at. *)
Theorem unexpected_error_blocks p sid raw rest e i x
    (Hanswered : ib_fate i = Answered) (Hfirst : (xread_pending p i).1 = (sid, raw) :: rest)
    (Hretry : k_retry (ib_keys i) !! sid = None) (Hdone : sid ∉ k_done (ib_keys i))
    (Hlease : k_lease (ib_keys i) !! sid = None)
    (Hraw : parse raw = Raise e) (Hunexpected : parse_error e = false) :
  exists i', run (consume_once handler on_dlq p) (i, x) = Some (inl (FromDict e), (i', x)) /\ ib_keys i' = ib_keys i /\
    failures i' = failures i.
Proof.
  eexists. split; [|split].
  - unfold consume_once. rewrite run_bind, run_get. cbv beta iota.
    rewrite run_bind, run_redis by done. cbn [fst snd]. rewrite Hfirst. change (xread_pending p i).2 with i. cbv beta iota.
    rewrite run_bind, run_for_all_cons. unfold process_pending at 1. cbn [fst snd].
    rewrite run_bind, run_redis by done. unfold hgetall_retry. cbn [fst snd]. rewrite Hretry.
    unfold process_entry. rewrite run_bind, run_redis by done. unfold exists_done. cbv beta iota. cbn [fst snd].
    rewrite bool_decide_false by done. rewrite run_bind, run_acquire by done. cbv beta iota.
    unfold finally. rewrite run_handle, Hraw, Hunexpected. simpl run at 1. cbv beta iota. rewrite run_handle, run_release by done. done.
  - destruct i as [[nw ct pl rt dn ls dl] past now f d]. simpl in Hlease |- *. unfold set_lease. simpl. f_equal. by apply delete_insert_id.
  - done.
Qed.
End claims.

(** * Witnesses and examples

    Schedules are lists of moves; [performs] executes one. *)
Section schedule.
Context {X : Type} `{!Codec uuid, !Codec Z}.
Context (handler : Envelope -> Interleave.proc ConsumerError X unit)
  (on_dlq : nat -> Z -> Interleave.proc ConsumerError X unit).
Abbreviation conf := (conf ConsumerError (Inbox * X) unit).
Abbreviation cstep := (cstep (consumer_program handler on_dlq) (crash (X := X)) elsewhere newcomer).

Inductive move :=
  | Publish (sid : nat) (raw : wire) | Begin (p : positive) | Go (p : positive) | Die (p : positive)
  | Claim (sid : nat) (p : positive) | Tick (now : Z).

Definition is_newcomer (p : positive) (i : Inbox) : bool :=
  forallb (fun x : positive * nat => negb (Pos.eqb x.1 p)) (elements (g_held (ib_past i)) ++ elements (g_running (ib_past i))).
Definition perform (c : conf) (m : move) : option conf :=
  let '(mkConf (i, x) pl) := c in
  match m with
  | Publish sid raw =>
      if bool_decide (map_Forall (fun s _ => (s < sid)%nat) (g_published (ib_past i))) then Some (mkConf (publish sid raw i, x) pl) else None
  | Begin p =>
      match pl !! p with
      | Some (Done _) => Some (mkConf (i, x) (<[p := consumer_round handler on_dlq p]> pl))
      | Some _ => None
      | None => if is_newcomer p i then Some (mkConf (i, x) (<[p := consumer_round handler on_dlq p]> pl)) else None
      end
  | Go p =>
      match pl !! p with
      | Some (Step f) => match f (i, x) with Some (m', w') => Some (mkConf w' (<[p := m']> pl)) | None => None end
      | _ => None
      end
  | Die p => match pl !! p with Some _ => Some (mkConf (crash p (i, x)) (delete p pl)) | None => None end
  | Claim sid p =>
      match k_pel (ib_keys i) !! sid, pl !! p with
      | Some _, Some _ => Some (mkConf (with_keys (set_pel (insert sid p)) i, x) pl)
      | _, _ => None
      end
  | Tick now => Some (mkConf (mkInbox (ib_keys i) (ib_past i) now (ib_fate i) (ib_draw i), x) pl)
  end.
Fixpoint performs (l : list move) (c : conf) : option conf :=
  match l with [] => Some c | m :: l => match perform c m with Some c' => performs l c' | None => None end end.

Lemma is_newcomer_ok p i (x : X) : is_newcomer p i = true -> newcomer p (i, x).
Proof.
  unfold is_newcomer. rewrite forallb_forall. intros H sid.
  assert (Hno : forall y, List.In y (elements (g_held (ib_past i)) ++ elements (g_running (ib_past i))) -> y <> (p, sid)).
  { intros y Hy ->. specialize (H _ Hy). simpl in H. rewrite Pos.eqb_refl in H. done. }
  simpl. split; intros Hin; eapply (Hno (p, sid)); try done; apply in_app_iff; [left|right];
    apply list_elem_of_In; by apply elem_of_elements.
Qed.
Lemma perform_step c m c' : perform c m = Some c' -> cstep c c'.
Proof.
  destruct c as [[i x] pl], m as [sid raw|p|p|p|sid p|now]; simpl; intros H.
  - case_bool_decide; [|done]. injection H as <-. apply cs_env. by constructor.
  - destruct (pl !! p) as [[r|f]|] eqn:E; [|done|].
    + injection H as <-. by eapply cs_again.
    + destruct (is_newcomer p i) eqn:En; [|done]. injection H as <-. apply cs_spawn; [done|by apply is_newcomer_ok|done].
  - destruct (pl !! p) as [[r|f]|] eqn:E; [done| |done]. destruct (f (i, x)) as [[m' w']|] eqn:Ef; [|done].
    injection H as <-. by eapply cs_run.
  - destruct (pl !! p) eqn:E; [|done]. injection H as <-. by eapply cs_crash.
  - destruct (k_pel (ib_keys i) !! sid) eqn:E; [|done]. destruct (pl !! p) eqn:Ep; [|done]. injection H as <-.
    apply cs_env. eapply ew_claim; [done|]. apply elem_of_dom. by eexists.
  - injection H as <-. apply cs_env, ew_world.
Qed.
Lemma performs_reach l c c' : performs l c = Some c' ->
  reach (consumer_program handler on_dlq) (crash (X := X)) elsewhere newcomer c c'.
Proof.
  revert c. induction l as [|m l IH]; intros c; simpl; [intros [= <-]; apply rtc_refl|].
  destruct (perform c m) as [c1|] eqn:E; [|done]. intros H. eapply rtc_l; [by eapply perform_step|by apply IH].
Qed.
End schedule.

(** A handler that records the messages it has seen; one that always fails. *)
Definition recording (e : Envelope) : Interleave.proc ConsumerError (list uuid) unit :=
  act (fun l => (inr tt, l ++ [e_id e])).
Definition failing (e : Envelope) : Interleave.proc ConsumerError (list uuid) unit := raise (Handler "down").
Definition no_callback (sid : nat) (attempt : Z) : Interleave.proc ConsumerError (list uuid) unit := mret tt.
Definition call_wire : wire := Some (VDict (to_dict a_call)).
Definition bad_wire : wire := Some (VDict (dict_set "id"%string (VInt 5) (to_dict a_call))).
Definition state_after h (l : list move) := (fun c => (world c).1) <$> performs h no_callback l (start 0 []).
Definition log_after h (l : list move) := (fun c => (world c).2) <$> performs h no_callback l (start 0 []).

Definition one_at_work : list move :=
  [Publish 0 call_wire; Begin 1] ++ replicate 6 (Go 1) ++ [Begin 2; Claim 0 2] ++ replicate 5 (Go 2).
Lemma one_handler_at_a_time_witness :
  exists c, reach (consumer_program recording no_callback) (crash (X := list uuid)) elsewhere newcomer (start 0 []) c /\
    (1%positive, 0%nat) ∈ g_running (ib_past (world c).1) /\
    (forall q, (q, 0%nat) ∈ g_running (ib_past (world c).1) -> 1%positive = q).
Proof.
  assert (Hrun : (fun i => bool_decide ((1%positive, 0%nat) ∈ g_running (ib_past i))) <$> state_after recording one_at_work = Some true)
    by (vm_compute; reflexivity).
  unfold state_after in Hrun. destruct (performs recording no_callback one_at_work (start 0 [])) as [c|] eqn:E; [|discriminate].
  simpl in Hrun. injection Hrun as Hrun%bool_decide_eq_true.
  exists c. split; [by eapply performs_reach|]. split; [done|]. intros q Hq.
  apply (one_handler_at_a_time recording no_callback 0 [] c 1 q 0); [by eapply performs_reach|done|done].
Defined.

(** One consumer takes the message and acknowledges it. *)
Definition taken_and_done : list move := [Publish 0 call_wire; Begin 1] ++ replicate 12 (Go 1).
Lemma acknowledged_only_settled_witness :
  exists c, reach (consumer_program recording no_callback) (crash (X := list uuid)) elsewhere newcomer (start 0 []) c /\
    0%nat ∈ g_acked (ib_past (world c).1) /\
    (0%nat ∈ g_succeeded (ib_past (world c).1) \/ hopeless (world c).1 0%nat).
Proof.
  assert (Hack : (fun i => bool_decide (0%nat ∈ g_acked (ib_past i))) <$> state_after recording taken_and_done = Some true)
    by (vm_compute; reflexivity).
  unfold state_after in Hack. destruct (performs recording no_callback taken_and_done (start 0 [])) as [c|] eqn:E; [|discriminate].
  simpl in Hack. injection Hack as Hack%bool_decide_eq_true. exists c. split; [by eapply performs_reach|]. split; [done|].
  assert (Hreach : reach (consumer_program recording no_callback) (crash (X := list uuid)) elsewhere newcomer (start 0 []) c)
    by (by eapply performs_reach).
  destruct (acknowledged_only_settled recording no_callback 0 [] c 0 Hreach) as (_ & _ & _ & H & _). by apply H.
Defined.

(** One pending entry of consumer 1, on its [n]-th retry record. *)
Definition lone (raw : wire) (retry : gmap nat (Z * Z)) : Inbox :=
  mkInbox (mkKeys [] {[0%nat := raw]} {[0%nat := 1%positive]} retry ∅ ∅ []) empty_past 5000 Answered BACKOFF_BASE.
Lemma lone_alone raw retry r : retry !! 0%nat = r -> alone 1 0 raw r (lone raw retry).
Proof. intros <-. by split. Qed.
Lemma failing_entry_round_witness :
  (exists i', run (consume_once failing no_callback 1) (lone call_wire ∅, []) = Some (inr 0, (i', [])) /\
     k_retry (ib_keys i') !! 0%nat = Some (1, 6000)) /\
  (exists i', run (consume_once failing no_callback 1) (lone call_wire {[0%nat := (2, 4000)]}, []) = Some (inr 0, (i', [])) /\
     k_dlq (ib_keys i') = [(0%nat, 3)]).
Proof.
  assert (Hraw : parse call_wire = Ok a_call) by (vm_compute; reflexivity). split.
  - destruct (failing_entry_round failing no_callback 1 0 call_wire a_call 1000 None 1 (lone call_wire ∅) [] (Handler "down") [] [])
      as [_ H]; [by apply lone_alone|done|done|done|by intros; vm_compute|by intros|].
    destruct H as (i' & Hrun & _ & Hal & _); [done|]. exists i'. split; [exact Hrun|]. apply Hal.
  - destruct (failing_entry_round failing no_callback 1 0 call_wire a_call 0 (Some (2, 4000)) 3 (lone call_wire {[0%nat := (2, 4000)]}) []
      (Handler "down") [] []) as [_ H]; [by apply lone_alone|done|done|done|by intros|done|].
    destruct H as (i' & Hrun & _ & _ & _ & _ & _ & Hd); [by intros a t [= <- <-]|]. exists i'. split; [exact Hrun|exact Hd].
Defined.

(** The identifier is a JSON number: every round raises [AttributeError]. *)
Lemma unexpected_error_blocks_witness :
  exists i', run (consume_once recording no_callback 1) (lone bad_wire ∅, []) = Some (inl (FromDict AttributeError), (i', [])) /\
    ib_keys i' = ib_keys (lone bad_wire ∅) /\ failures i' = failures (lone bad_wire ∅).
Proof.
  apply (unexpected_error_blocks recording no_callback 1 0 bad_wire [] AttributeError (lone bad_wire ∅) []);
    [done|by vm_compute|done|done|done|by vm_compute|done].
Defined.

(** The marker is looked up before the lease is taken.  Consumer 2 claims the entry from
    consumer 1 and finds no marker; 1 finishes, marks, acknowledges and lets go; then 2
    gets the lease, and the handler has run twice without any failure. *)
Definition marker_missed : list move :=
  [Publish 0 call_wire; Begin 1] ++ replicate 7 (Go 1) ++
  [Begin 2; Claim 0 2] ++ replicate 4 (Go 2) ++ replicate 5 (Go 1) ++ replicate 9 (Go 2).
Example handler_runs_twice :
  log_after recording marker_missed = Some [e_id a_call; e_id a_call] /\
  (fun i => failures i 0) <$> state_after recording marker_missed = Some 0%nat.
Proof. vm_compute. done. Qed.

(** A crash while the handler runs counts no attempt: the next consumer starts again at
    the first one. *)
Definition crash_and_again : list move :=
  [Publish 0 call_wire; Begin 1] ++ replicate 6 (Go 1) ++ [Die 1].
Example crash_counts_nothing :
  (fun i => (k_retry (ib_keys i) !! 0%nat, failures i 0, k_pel (ib_keys i) !! 0%nat)) <$> state_after recording crash_and_again
    = Some (None, 0%nat, Some 1%positive).
Proof. vm_compute. done. Qed.

(** A crash between the acknowledgement and the dead letter: the message is gone. *)
Definition lost_letter : list move := [Publish 0 None; Begin 1] ++ replicate 6 (Go 1) ++ [Die 1].
Example dead_letter_lost :
  (fun i => (k_pel (ib_keys i) !! 0%nat, k_dlq (ib_keys i), bool_decide (0%nat ∈ g_acked (ib_past i)))) <$> state_after recording lost_letter
    = Some (None, [], true).
Proof. vm_compute. done. Qed.

(** A pending entry that has been evicted comes back without fields: it is parked as
    unreadable, and what it said is lost. *)
Example evicted_entry_parked :
  match run (consume_once recording no_callback 1)
    (mkInbox (mkKeys [] ∅ {[0%nat := 1%positive]} ∅ ∅ ∅ []) empty_past 5000 Answered BACKOFF_BASE, []) with
  | Some (inr n, (i, l)) => Some (n, k_dlq (ib_keys i), l)
  | _ => None
  end = Some (0, [(0%nat, 1)], []).
Proof. vm_compute. done. Qed.
