(* ===== verification/A2A.v ===== *)
(** * The agent-to-agent transport

    [contexts/orchestration/application/a2a_service.py] with the scope checker
    [contexts/agents/application/a2a_scope.py], the synchronous call chain
    [a2a_call_chain.py], the reply rendezvous [infrastructure/a2a_rendezvous.py] and the
    pending notifications [infrastructure/pending_notify.py].  Every statement that
    reaches the database or Redis is one step of a process; a Redis command consumes its
    fate from [bus_fates].  Identifiers drawn with [uuid4] are never drawn twice.
    [bus_inbox] is the history of all that was ever appended; that the streams are capped
    ([MAXLEN ~ 10000]) and evict their oldest entries is the matter of [A2AConsumer].
    The expected responder's key expires after 900 seconds, which no caller outlives (a
    call waits at most 600); it is kept for good here. *)

From S2P Require Import Prelude PyFloat PyValue OrchBase Wakeup Envelope Interleave.

(** ** The state *)
Record WorkflowRunRow := mkRunRow { rr_project_id : uuid; rr_started_at : option Z; rr_participants : gset uuid }.

(** What other contexts own: agents, projects, rooms, runs. *)
Record Directory := mkDirectory {
  d_agents : gmap uuid Agent;
  d_newest : list uuid;              (** agent ids by [created_at], newest first *)
  d_live_projects : gset uuid;
  d_bindings : gset (uuid * uuid);   (** room and agent, in rooms that are not deleted *)
  d_runs : gmap uuid WorkflowRunRow;
}.
(** The rendezvous keys of Redis, by correlation id or run. *)
Record Rendezvous := mkRendezvous {
  rv_replies : gmap uuid (list pyval);
  rv_expect : gmap uuid string;
  rv_cancelled : gset uuid;
  rv_calls : gset (uuid * uuid);     (** run, correlation id *)
  rv_run_cancelled : gset uuid;
}.

Inductive InstructionState := I_ISSUED | I_DELIVERED | I_COMPLETED | I_REJECTED_LOOP | I_TIMEOUT.
#[export] Instance InstructionState_eq_dec : EqDecision InstructionState.
Proof. solve_decision. Defined.
Record Instruction := mkInstruction {
  in_id : uuid;
  in_chain_id : uuid;
  in_path : list uuid;
  in_depth : Z;
  in_issuer : uuid;
  in_target : uuid;
  in_payload : pydict;
  in_state : InstructionState;
  in_issued_at : Z;
  in_resolved_at : option Z;
}.

(** [INSTRUCTION_TERMINAL_STATES], [INSTRUCTION_ALLOWED_PREDECESSORS] *)
Definition instruction_terminal (s : InstructionState) : bool :=
  match s with I_COMPLETED | I_TIMEOUT | I_REJECTED_LOOP => true | _ => false end.
Definition allowed_predecessors (s : InstructionState) : list InstructionState :=
  match s with
  | I_DELIVERED => [I_ISSUED]
  | I_COMPLETED | I_TIMEOUT => [I_ISSUED; I_DELIVERED]
  | _ => []
  end.
Definition settle (s : InstructionState) (resolved : option Z) (i : Instruction) : Instruction :=
  mkInstruction (in_id i) (in_chain_id i) (in_path i) (in_depth i) (in_issuer i) (in_target i) (in_payload i) s
    (in_issued_at i) resolved.

Inductive BusJob :=
  | J_workflow_signal (payload : pydict)
  | J_resume_instruct (instruction_id : uuid)
  | J_instruct_timeout (instruction_id : uuid) (defer : Z).

Record Bus := mkBus {
  bus_dir : Directory;
  bus_rdv : Rendezvous;
  bus_inbox : list (uuid * Envelope);       (** all entries ever appended to the inbox streams *)
  bus_pending : gmap uuid (list pyval);     (** [a2a:pending_notify] *)
  bus_instructions : gmap uuid Instruction;
  bus_audit : list string;
  bus_now : Z;
  bus_next : positive;                      (** the next [uuid4] *)
  bus_fates : list fate;
  bus_jobs : list BusJob;                   (** jobs enqueued for the workers *)
}.
Definition set_rdv f b := mkBus (bus_dir b) (f (bus_rdv b)) (bus_inbox b) (bus_pending b) (bus_instructions b) (bus_audit b) (bus_now b) (bus_next b) (bus_fates b) (bus_jobs b).
Definition set_inbox f b := mkBus (bus_dir b) (bus_rdv b) (f (bus_inbox b)) (bus_pending b) (bus_instructions b) (bus_audit b) (bus_now b) (bus_next b) (bus_fates b) (bus_jobs b).
Definition set_pending f b := mkBus (bus_dir b) (bus_rdv b) (bus_inbox b) (f (bus_pending b)) (bus_instructions b) (bus_audit b) (bus_now b) (bus_next b) (bus_fates b) (bus_jobs b).
Definition set_instructions f b := mkBus (bus_dir b) (bus_rdv b) (bus_inbox b) (bus_pending b) (f (bus_instructions b)) (bus_audit b) (bus_now b) (bus_next b) (bus_fates b) (bus_jobs b).
Definition set_audit f b := mkBus (bus_dir b) (bus_rdv b) (bus_inbox b) (bus_pending b) (bus_instructions b) (f (bus_audit b)) (bus_now b) (bus_next b) (bus_fates b) (bus_jobs b).
Definition set_next f b := mkBus (bus_dir b) (bus_rdv b) (bus_inbox b) (bus_pending b) (bus_instructions b) (bus_audit b) (bus_now b) (f (bus_next b)) (bus_fates b) (bus_jobs b).
Definition set_fates f b := mkBus (bus_dir b) (bus_rdv b) (bus_inbox b) (bus_pending b) (bus_instructions b) (bus_audit b) (bus_now b) (bus_next b) (f (bus_fates b)) (bus_jobs b).
Definition set_jobs f b := mkBus (bus_dir b) (bus_rdv b) (bus_inbox b) (bus_pending b) (bus_instructions b) (bus_audit b) (bus_now b) (bus_next b) (bus_fates b) (f (bus_jobs b)).

Abbreviation proc := (proc OrchestrationError Bus).

Definition INSTRUCT_MAX_CHAIN_DEPTH : Z := 5.
Definition INSTRUCT_MAX_CHAIN_DEPTH_HARD : Z := 20.
Definition INSTRUCT_MAX_PER_WAKEUP : Z := 5.
Definition INSTRUCT_MAX_CHAIN_SECONDS : Z := 120.

(** A database statement, a Redis command, a fresh identifier, an audit record. *)
Definition db {A} (f : Bus -> A) : proc A := get f.
Definition update (f : Bus -> Bus) : proc unit := act (fun b => (inr tt, f b)).
Definition redis {A} (f : Bus -> A * Bus) : proc A := act (fun b =>
  let b' := set_fates tail b in
  match head (bus_fates b) with
  | Some Lost => (inl Infra, b')
  | Some Unanswered => (inl Infra, (f b').2)
  | _ => (inr (f b').1, (f b').2)
  end).
Definition uuid4 : proc uuid := act (fun b => (inr (bus_next b), set_next Pos.succ b)).
Definition audit (action : string) : proc unit := update (set_audit (fun l => l ++ [action])).

(** ** The scope check (R9.17) *)
Record A2ACheckInput := mkCheck {
  ck_caller : Agent;
  ck_callee : Agent;
  callee_attached_context_ids : gset uuid;
  caller_invocation_context_id : option uuid;
  callee_project_deleted : bool;
}.

Definition is_call_only_enabled (a : Agent) : bool :=
  match dict_get_none "triggers" (ag_wakeup_config a) with
  | VDict triggers =>
      match dict_get_none "call_only" triggers with
      | VDict call_only => match dict_get_or "enabled" (VBool false) call_only with VBool b => b | _ => false end
      | _ => false
      end
  | _ => false
  end.

Definition evaluate (c : A2ACheckInput) : bool * string :=
  if negb (Pos.eqb (ag_project_id (ck_caller c)) (ag_project_id (ck_callee c))) then (false, "cross-project"%string)
  else if callee_project_deleted c then (false, "callee project soft-deleted"%string)
  else if Pos.eqb (ag_id (ck_caller c)) (ag_id (ck_callee c)) then (true, "self-invocation"%string)
  else if negb (ag_a2a_enabled (ck_caller c)) then (false, "caller a2a_enabled=false"%string)
  else if negb (ag_a2a_enabled (ck_callee c)) then (false, "callee a2a_enabled=false"%string)
  else if match caller_invocation_context_id c with
          | Some ctx => bool_decide (ctx ∈ callee_attached_context_ids c) | None => false end
  then (true, "shared invocation context"%string)
  else if is_call_only_enabled (ck_callee c) then (true, "callee call_only enabled"%string)
  else (false, "no shared context and callee call_only disabled"%string).

(** ** The call chain (R9.15) *)
Definition A2A_CALL_MAX_DEPTH : Z := 8.
Definition next_hop (callee : string) (base : Z * list string) : OrchestrationError + (Z * list string) :=
  if bool_decide (callee ∈ base.2) then inl A2ACallLoop
  else if A2A_CALL_MAX_DEPTH <? base.1 + 1 then inl A2ACallDepthExceeded
  else inr (base.1 + 1, base.2 ++ [callee]).

(** ** The rendezvous *)
Definition A2A_ERROR_KEY : string := "__a2a_error__".
Definition A2A_CANCELLED_KEY : string := "__a2a_cancelled__".

Definition with_replies f r := mkRendezvous (f (rv_replies r)) (rv_expect r) (rv_cancelled r) (rv_calls r) (rv_run_cancelled r).
Definition with_expect f r := mkRendezvous (rv_replies r) (f (rv_expect r)) (rv_cancelled r) (rv_calls r) (rv_run_cancelled r).
Definition with_cancelled f r := mkRendezvous (rv_replies r) (rv_expect r) (f (rv_cancelled r)) (rv_calls r) (rv_run_cancelled r).
Definition with_calls f r := mkRendezvous (rv_replies r) (rv_expect r) (rv_cancelled r) (f (rv_calls r)) (rv_run_cancelled r).
Definition with_run_cancelled f r := mkRendezvous (rv_replies r) (rv_expect r) (rv_cancelled r) (rv_calls r) (f (rv_run_cancelled r)).

Definition rpush (corr : uuid) (v : pyval) (m : gmap uuid (list pyval)) : gmap uuid (list pyval) :=
  <[corr := default [] (m !! corr) ++ [v]]> m.
Definition rdv (f : Rendezvous -> Rendezvous) : proc unit := redis (fun b => (tt, set_rdv f b)).

Definition mark_call_cancelled (corr : uuid) : proc unit := rdv (with_cancelled (union {[corr]})).
Definition cancellation : pyval := VDict [("payload", VDict [(A2A_CANCELLED_KEY, VBool true)])]%string.
Definition deliver_cancellation (corr : uuid) : proc unit := rdv (with_replies (rpush corr cancellation)).

Section texts.
Context `{!Codec uuid, !Codec Z}.

(** [register_expected_responder], under a correlation id that is drawn in the step that
    first stores it: until then only this call knows it. *)
Definition register_expected_responder (responder : uuid) : proc uuid :=
  redis (fun b => (bus_next b, set_next Pos.succ (set_rdv (with_expect (insert (bus_next b) (show responder))) b))).
Definition register_workflow_call (run corr : uuid) : proc bool :=
  _ ← rdv (with_calls (union {[(run, corr)]}));
  already ← redis (fun b => (bool_decide (run ∈ rv_run_cancelled (bus_rdv b)), b));
  if (already : bool) then
    _ ← mark_call_cancelled corr;
    _ ← deliver_cancellation corr;
    mret true
  else mret false.
Definition unregister_workflow_call (run corr : uuid) : proc unit := rdv (with_calls (fun s => s ∖ {[(run, corr)]})).
Definition cancel_workflow_calls (run : uuid) : proc unit :=
  _ ← rdv (with_run_cancelled (union {[run]}));
  live ← redis (fun b => (elements (filter (fun x : uuid * uuid => x.1 = run) (rv_calls (bus_rdv b))), b));
  _ ← for_all live (fun x => _ ← mark_call_cancelled x.2; _ ← deliver_cancellation x.2; mret 0);
  mret tt.

(** [deliver_reply]: [str(from_agent) != expected]. *)
Definition from_is (v : pyval) (expected : string) : bool :=
  match v with
  | VNone => false
  | _ => match py_str v with Ok s => String.eqb s expected | _ => false end
  end.
Definition deliver_reply (corr : uuid) (reply : pydict) : proc unit :=
  expected ← redis (fun b => (rv_expect (bus_rdv b) !! corr, b));
  if match expected with Some s => negb (from_is (dict_get_none "from_agent" reply) s) | None => false end
  then mret tt
  else rdv (with_replies (rpush corr (VDict reply))).

(** [await_reply]: [BLPOP] with a deadline; the reply if it is an object. *)
Definition blpop (corr : uuid) (deadline : Z) : proc (option pyval) := await (fun b =>
  match rv_replies (bus_rdv b) !! corr with
  | Some (v :: rest) => Some (Some v, set_rdv (with_replies (insert corr rest)) b)
  | _ => if deadline <=? bus_now b then Some (None, b) else None
  end).
Definition await_reply (corr : uuid) (timeout_seconds : Z) : proc (option pydict) :=
  now ← db bus_now;
  v ← blpop corr (now + Z.max 1 timeout_seconds);
  mret match v with Some (VDict d) => Some d | _ => None end.

(** ** Sending *)
Definition require_agent (id : uuid) : proc Agent :=
  found ← db (fun b => get_agent false (d_agents (bus_dir b)) id);
  match found with Some a => mret a | None => raise A2AForbidden end.

Definition enforce_scope (caller callee : Agent) (attached : gset uuid) (ctx : option uuid) : proc unit :=
  live ← db (fun b => bool_decide (ag_project_id callee ∈ d_live_projects (bus_dir b)));
  if (evaluate (mkCheck caller callee attached ctx (negb live))).1 then mret tt
  else _ ← audit "a2a.forbidden"; raise A2AForbidden.

Definition derive_workflow_context (run issuer callee : uuid) : proc (option uuid * gset uuid) :=
  members ← db (fun b => match d_runs (bus_dir b) !! run with Some r => rr_participants r | None => ∅ end);
  mret (if bool_decide (issuer ∈ members) && bool_decide (callee ∈ members) then (Some run, {[run]}) else (None, ∅)).

Definition enforce_workflow_tenant (run : option uuid) (callee : Agent) : proc unit :=
  match run with
  | None => raise A2AForbidden
  | Some run =>
      project ← db (fun b => rr_project_id <$> d_runs (bus_dir b) !! run);
      if bool_decide (project = Some (ag_project_id callee)) then mret tt
      else _ ← audit "a2a.forbidden"; raise A2AForbidden
  end.

(** [ensure_consumer_group] changes nothing a sender sees. *)
Definition xadd (to : uuid) (e : Envelope) : proc nat :=
  redis (fun b => (length (bus_inbox b), set_inbox (fun l => l ++ [(to, e)]) b)).

Definition A2A_BROADCAST_MAX_RECIPIENTS : nat := 100.
Definition shared_room (b : Bus) (caller target : uuid) : option uuid :=
  head (List.filter (fun room => bool_decide ((room, target) ∈ d_bindings (bus_dir b)) && negb (Pos.eqb caller target))
          (elements (set_map (C := gset (uuid * uuid)) (D := gset uuid) fst (filter (fun x : uuid * uuid => x.2 = caller) (d_bindings (bus_dir b)))))).

Record Fanout := mkFanout { fo_first : option nat; fo_delivered : nat; fo_dropped : nat }.
Fixpoint fan_out (e : Envelope) (caller : Agent) (ctx : option uuid) (rooms : uuid -> option uuid)
    (targets : list Agent) (acc : Fanout) : proc Fanout :=
  match targets with
  | [] => mret acc
  | target :: targets =>
      if Pos.eqb (ag_id target) (ag_id caller) || negb (ag_a2a_enabled target) then fan_out e caller ctx rooms targets acc
      else
        let context := match rooms (ag_id target) with Some r => (Some r, {[r]}) | None => (ctx, ∅) end in
        allowed ← catch (_ ← enforce_scope caller target context.2 context.1; mret true)
                    (fun err => if decide (err = A2AForbidden) then mret false else raise err);
        if negb (allowed : bool) then fan_out e caller ctx rooms targets acc
        else if (A2A_BROADCAST_MAX_RECIPIENTS <=? fo_delivered acc)%nat
        then fan_out e caller ctx rooms targets (mkFanout (fo_first acc) (fo_delivered acc) (S (fo_dropped acc)))
        else
          id ← uuid4;
          sid ← xadd (ag_id target) (mkEnv id (e_from_agent e) (VStr (show (ag_id target))) (e_workflow_run_id e) (e_type e)
                  (e_payload e) (e_correlation_id e) (e_created_at e) 0 [] 0 []);
          fan_out e caller ctx rooms targets
            (mkFanout (match fo_first acc with Some s => Some s | None => Some sid end) (S (fo_delivered acc)) (fo_dropped acc))
  end.

(** [list_agents_for_project] *)
Definition agents_of_project (b : Bus) (project : uuid) : list Agent :=
  List.filter (fun a => Pos.eqb (ag_project_id a) project) (omap (get_agent false (d_agents (bus_dir b))) (d_newest (bus_dir b))).

Definition broadcast (e : Envelope) (ctx : option uuid) : proc (option nat) :=
  match e_from_agent e with
  | None => raise A2AForbidden
  | Some from =>
      caller ← require_agent from;
      live ← db (fun b => bool_decide (ag_project_id caller ∈ d_live_projects (bus_dir b)));
      if negb (live : bool) then _ ← audit "a2a.forbidden"; raise A2AForbidden
      else
        agents ← db (fun b => agents_of_project b (ag_project_id caller));
        rooms ← db (fun b => shared_room b (ag_id caller));
        r ← fan_out e caller ctx rooms agents (mkFanout None 0 0);
        _ ← audit "a2a.sent";
        mret (fo_first r)
  end.

(** [send]: the stream entry, [None] where a broadcast reached nobody. *)
Definition send (e : Envelope) (attached : gset uuid) (ctx : option uuid) : proc (option nat) :=
  match e_to_agent e with
  | VStr to =>
      if String.prefix "broadcast:workspace" to then broadcast e ctx
      else match read to with
      | None => raise A2AForbidden
      | Some to_id =>
          _ ← match e_from_agent e with
              | Some from =>
                  caller ← require_agent from;
                  callee ← require_agent to_id;
                  context ← match e_workflow_run_id e with
                            | Some run => derive_workflow_context run from to_id
                            | None => mret (ctx, attached)
                            end;
                  enforce_scope caller callee context.2 context.1
              | None =>
                  callee ← require_agent to_id;
                  enforce_workflow_tenant (e_workflow_run_id e) callee
              end;
          sid ← xadd to_id e;
          _ ← audit "a2a.sent";
          mret (Some sid)
      end
  | _ => raise Infra  (* no [startswith]; the services pass a string *)
  end.

(** ** Synchronous calls *)
Record CallRequest := mkCall {
  cl_from : option uuid;
  cl_to : uuid;
  cl_payload : pydict;
  cl_run : option uuid;
  cl_timeout : Z;  (** [int(timeout_seconds)] *)
  cl_context : option uuid;
  cl_attached : gset uuid;
  cl_inbound_depth : option Z;
  cl_inbound_path : option (list string);
  cl_trigger_depth : Z;
  cl_trigger_path : list pyval;
}.

Definition call_base (ambient : Z * list string) (c : CallRequest) : Z * list string :=
  match cl_inbound_depth c, cl_inbound_path c with
  | None, None => ambient
  | d, p => (default 0 d, default [] p)
  end.
Definition has_key (k : string) (v : pyval) : bool := match v with VDict d => dict_has k d | _ => false end.

Definition dispatch (c : CallRequest) (corr : uuid) (e : Envelope) (already_cancelled : bool) : proc pydict :=
  if already_cancelled then raise A2ACallCancelled
  else
    _ ← send e (cl_attached c) (cl_context c);
    reply ← await_reply corr (cl_timeout c);
    match reply with
    | None => _ ← mark_call_cancelled corr; raise A2ATimeout
    | Some d =>
        let payload := dict_get_none "payload" d in
        if has_key A2A_CANCELLED_KEY payload then raise A2ACallCancelled
        else if has_key A2A_ERROR_KEY payload then raise A2ADeliveryFailed
        else mret d
    end.

Definition call (ambient : Z * list string) (c : CallRequest) : proc pydict :=
  match next_hop (show (cl_to c)) (call_base ambient c) with
  | inl err => raise err
  | inr (depth, path) =>
      id ← uuid4;
      now ← db bus_now;
      corr ← register_expected_responder (cl_to c);
      let e := mkEnv id (cl_from c) (VStr (show (cl_to c))) (cl_run c) M_CALL (VDict (cl_payload c)) corr now
                 depth (VStr <$> path) (cl_trigger_depth c) (cl_trigger_path c) in
      already ← match cl_run c with Some run => register_workflow_call run corr | None => mret false end;
      finally (dispatch c corr e already)
        (match cl_run c with Some run => unregister_workflow_call run corr | None => mret tt end)
  end.

Definition notify (from to : uuid) (payload : pydict) (run ctx : option uuid) (attached : gset uuid) : proc (option nat) :=
  id ← uuid4;
  corr ← uuid4;
  now ← db bus_now;
  send (mkEnv id (Some from) (VStr (show to)) run M_NOTIFY (VDict payload) corr now 0 [] 0 []) attached ctx.

Definition reply (from to corr : uuid) (payload : pydict) (run : option uuid) : proc nat :=
  _ ← require_agent from;
  id ← uuid4;
  now ← db bus_now;
  sid ← xadd to (mkEnv id (Some from) (VStr (show to)) run M_REPLY (VDict payload) corr now 0 [] 0 []);
  _ ← audit "a2a.sent";
  mret sid.
End texts.

(** ** Pending notifications ([pending_notify.py]) *)
Definition MAX_PENDING : nat := 50.
(** [LTRIM key -50 -1] *)
Definition ltrim {A} (l : list A) : list A := drop (length l - MAX_PENDING) l.
Definition queue_of (b : Bus) (agent : uuid) : list pyval := default [] (bus_pending b !! agent).
Definition push (agent : uuid) (payload : pydict) : proc unit :=
  redis (fun b => (tt, set_pending (insert agent (ltrim (queue_of b agent ++ [VDict payload]))) b)).
Definition drain (agent : uuid) : proc (list pydict) :=
  redis (fun b => (omap (fun v => match v with VDict d => Some d | _ => None end) (queue_of b agent),
                   set_pending (delete agent) b)).
Definition requeue (agent : uuid) (notes : list pydict) : proc unit :=
  match notes with
  | [] => mret tt
  | _ => redis (fun b => (tt, set_pending (insert agent (ltrim ((VDict <$> notes) ++ queue_of b agent))) b))
  end.
