(* ===== verification/A2AFacts.v ===== *)
(** * What the transport guarantees

    Any number of coroutines use the transport at once: what the inbox streams then hold
    and what a synchronous call can return; and the bounds of the call chain, of a
    broadcast and of the notification queue. *)

From S2P Require Import Prelude PyFloat PyValue OrchBase Wakeup Envelope Interleave A2A.

(** ** The scope rule *)
Definition scope_rule (c : A2ACheckInput) : Prop :=
  ag_project_id (ck_caller c) = ag_project_id (ck_callee c) /\ callee_project_deleted c = false /\
  (ag_id (ck_caller c) = ag_id (ck_callee c) \/
   ag_a2a_enabled (ck_caller c) = true /\ ag_a2a_enabled (ck_callee c) = true /\
   ((exists ctx, caller_invocation_context_id c = Some ctx /\ ctx ∈ callee_attached_context_ids c) \/
    call_only (triggers (Wakeup.from_dict (ag_wakeup_config (ck_callee c)))) = true)).

Lemma call_only_agrees a : is_call_only_enabled a = call_only (triggers (Wakeup.from_dict (ag_wakeup_config a))).
Proof.
  unfold is_call_only_enabled, Wakeup.from_dict. destruct (ag_wakeup_config a) as [|kv d]; [done|].
  set (raw := kv :: d). clearbody raw. simpl. unfold get_bool. rewrite !tolerant_dict_get.
  unfold dict_get_none. destruct (dict_get "triggers" raw) as [[]|]; simpl; try done.
  destruct (dict_get "call_only" d0) as [[]|]; simpl; done.
Qed.

Lemma evaluate_rule c : (evaluate c).1 = true <-> scope_rule c.
Proof.
  unfold evaluate, scope_rule. rewrite <- call_only_agrees.
  destruct (Pos.eqb_spec (ag_project_id (ck_caller c)) (ag_project_id (ck_callee c))) as [Hp|Hp]; simpl; [|naive_solver].
  destruct (callee_project_deleted c); [naive_solver|].
  destruct (Pos.eqb_spec (ag_id (ck_caller c)) (ag_id (ck_callee c))) as [He|He]; [naive_solver|].
  destruct (ag_a2a_enabled (ck_caller c)); simpl; [|naive_solver].
  destruct (ag_a2a_enabled (ck_callee c)); simpl; [|naive_solver].
  destruct (caller_invocation_context_id c) as [ctx|]; simpl.
  - case_bool_decide as Hctx; [naive_solver|]. destruct (is_call_only_enabled (ck_callee c)); naive_solver.
  - destruct (is_call_only_enabled (ck_callee c)); naive_solver.
Qed.

(** ** The state during concurrent use *)
Section pool.
Context `{!Codec uuid, !Codec Z} (d : Directory).

(** An inbox entry that a check let through, by the directory. *)
Definition permitted (to : uuid) (e : Envelope) : Prop :=
  match e_from_agent e with
  | Some from =>
      (e_type e = M_REPLY /\ is_Some (get_agent false (d_agents d) from)) \/
      exists caller callee, get_agent false (d_agents d) from = Some caller /\ get_agent false (d_agents d) to = Some callee /\
        ag_project_id caller = ag_project_id callee /\ ag_project_id callee ∈ d_live_projects d /\
        (ag_id caller = ag_id callee \/ ag_a2a_enabled caller = true /\ ag_a2a_enabled callee = true)
  | None =>
      exists callee run row, get_agent false (d_agents d) to = Some callee /\ e_workflow_run_id e = Some run /\
        d_runs d !! run = Some row /\ rr_project_id row = ag_project_id callee
  end.
(** What a rendezvous list may hold. *)
Definition genuine (responder : string) (v : pyval) : Prop :=
  v = cancellation \/ exists r, v = VDict r /\ from_is (dict_get_none "from_agent" r) responder = true.

(** A row of the instructions, as [issue] leaves it. *)
Record instruction_ok (i : Instruction) : Prop := {
  ik_depth : in_depth i = Z.of_nat (length (in_path i));
  ik_issuer : list.last (in_path i) = Some (in_issuer i);
  ik_loop : in_state i = I_REJECTED_LOOP <-> in_target i ∈ in_path i;
  ik_bound : in_state i <> I_REJECTED_LOOP -> in_depth i < INSTRUCT_MAX_CHAIN_DEPTH_HARD;
  ik_capable : agent_has_capability (get_agent false (d_agents d) (in_issuer i)) can_instruct = true;
  ik_resolved : is_Some (in_resolved_at i) <-> in_state i = I_COMPLETED \/ in_state i = I_TIMEOUT;
}.
Record inv (b : Bus) : Prop := {
  iv_dir : bus_dir b = d;
  iv_inbox : forall to e, (to, e) ∈ bus_inbox b -> permitted to e;
  iv_genuine : forall corr s v, rv_expect (bus_rdv b) !! corr = Some s ->
    v ∈ default [] (rv_replies (bus_rdv b) !! corr) -> genuine s v;
  iv_replies : forall corr l, rv_replies (bus_rdv b) !! corr = Some l -> (corr < bus_next b)%positive;
  iv_calls : forall run corr, (run, corr) ∈ rv_calls (bus_rdv b) -> is_Some (rv_expect (bus_rdv b) !! corr);
  iv_next : forall corr s, rv_expect (bus_rdv b) !! corr = Some s -> (corr < bus_next b)%positive;
  iv_instructions : forall id i, bus_instructions b !! id = Some i -> (id < bus_next b)%positive /\ instruction_ok i;
}.

(** An instruction moves on by the state machine, keeping the rest. *)
Definition moves_on (i i' : Instruction) : Prop :=
  i' = i \/ exists s at_, in_state i ∈ allowed_predecessors s /\ i' = settle s at_ i.
Lemma moves_on_trans i1 i2 i3 : moves_on i1 i2 -> moves_on i2 i3 -> moves_on i1 i3.
Proof.
  intros [->|(s & t & Hs & ->)]; [done|]. intros [->|(s' & t' & Hs' & ->)]; [by right; exists s, t|].
  right. exists s', t'. split; [|done]. simpl in Hs'. destruct s, s'; simpl in *; set_solver.
Qed.
(** What any process does to the rest: a correlation id keeps its responder, identifiers
    are not drawn twice, instructions only move on or are removed. *)
Record follows (b b' : Bus) : Prop := {
  fw_expect : rv_expect (bus_rdv b) ⊆ rv_expect (bus_rdv b');
  fw_next : (bus_next b <= bus_next b')%positive;
  fw_known : forall corr s, (corr < bus_next b)%positive -> rv_expect (bus_rdv b') !! corr = Some s ->
    rv_expect (bus_rdv b) !! corr = Some s;
  fw_instructions : forall id i', (id < bus_next b)%positive -> bus_instructions b' !! id = Some i' ->
    exists i, bus_instructions b !! id = Some i /\ moves_on i i';
}.
Lemma follows_same b b' : rv_expect (bus_rdv b') = rv_expect (bus_rdv b) -> (bus_next b <= bus_next b')%positive ->
  bus_instructions b' = bus_instructions b -> follows b b'.
Proof. intros H1 H2 H3. split; [by rewrite H1|done|by rewrite H1|]. intros id i' _. rewrite H3. intros H. exists i'. split; [done|by left]. Qed.
Ltac same := apply follows_same; simpl; [done|lia|done].
#[export] Instance follows_preorder : PreOrder follows.
Proof.
  split; [intros b; by apply follows_same|]. intros b1 b2 b3 [] []. split; [by etrans|lia| |].
  { intros corr s Hc H3. apply fw_known0; [done|]. apply fw_known1; [lia|done]. }
  intros id i3 Hid H3. destruct (fw_instructions1 id i3 ltac:(lia) H3) as (i2 & H2 & ?).
  destruct (fw_instructions0 id i2 Hid H2) as (i1 & H1 & ?). exists i1. split; [done|by eapply moves_on_trans].
Qed.
#[local] Hint Extern 0 (follows ?b ?b) => reflexivity : core.
Definition rely (p : positive) (b b' : Bus) : Prop := follows b b'.
#[export] Instance rely_preorder p : PreOrder (rely p).
Proof. apply follows_preorder. Qed.

(** [spec F m Q]: run among the others where [F] keeps holding, [m] returns [a] only if
    [Q a]. *)
Definition kept (F : Bus -> Prop) : Prop := forall b b', follows b b' -> F b -> F b'.
Definition spec {A} (F : Bus -> Prop) (m : proc A) (Q : A -> Bus -> Prop) : Prop :=
  forall p, triple inv rely p F m (fun r => match r with inr a => Q a | inl _ => fun _ => True end).
Definition pure_spec {A} (m : proc A) (Q : A -> Prop) : Prop := forall F, kept F -> spec F m (fun a b => F b /\ Q a).

Lemma spec_bind {A B} F (m : proc A) (k : A -> proc B) R Q :
  spec F m R -> (forall a, spec (R a) (k a) Q) -> spec F (m ≫= k) Q.
Proof. intros Hm Hk p. eapply triple_bind with (R := R); [apply _|apply Hm|intros a; apply Hk|done]. Qed.
Lemma spec_ret {A} (F : Bus -> Prop) (a : A) (Q : A -> Bus -> Prop) :
  kept (Q a) -> (forall b, inv b -> F b -> Q a b) -> spec F (mret a) Q.
Proof.
  intros Hk H p. eapply triple_conseq; [apply (triple_done inv rely p (inr a) (fun r => match r with inr a => Q a | inl _ => fun _ => True end))| |done].
  - intros b b' Hr _. by apply Hk.
  - intros b Hi HF. by apply H.
Qed.
Lemma spec_raise {A} F err (Q : A -> Bus -> Prop) : spec F (raise err) Q.
Proof. intros p b Hi HF b1 Hr Hi1. done. Qed.
Lemma spec_weaken {A} (F F' : Bus -> Prop) (m : proc A) (Q Q' : A -> Bus -> Prop) :
  spec F m Q -> (forall b, inv b -> F' b -> F b) -> (forall a b, inv b -> Q a b -> Q' a b) -> spec F' m Q'.
Proof. intros H HF HQ p. eapply triple_conseq; [apply H|done|]. intros [e|a] b; auto. Qed.

(** One step: what it does to the state keeps the invariant and the responders. *)
Lemma spec_act {A} (F : Bus -> Prop) (f : Bus -> (OrchestrationError + A) * Bus) (Q : A -> Bus -> Prop) :
  kept F -> (forall a, kept (Q a)) ->
  (forall b, inv b -> F b -> inv (f b).2 /\ follows b (f b).2 /\
     match (f b).1 with inr a => Q a (f b).2 | inl _ => True end) ->
  spec F (act f) Q.
Proof.
  intros HF HQ H p. apply triple_act; [intros b b' Hr _; by apply HF|intros [|a] b b' Hr _; [done|by apply HQ]|].
  intros b Hi HFb. destruct (H b Hi HFb) as (H1 & H2 & H3). split; [done|]. split; [by intros q _|]. by destruct (f b).1.
Qed.
Lemma spec_db {A} (F : Bus -> Prop) (f : Bus -> A) (Q : A -> Bus -> Prop) :
  kept F -> (forall a, kept (Q a)) -> (forall b, inv b -> F b -> Q (f b) b) -> spec F (db f) Q.
Proof. intros HF HQ H. apply spec_act; [done..|]. intros b Hi HFb. simpl. split; [done|]. split; [reflexivity|auto]. Qed.
(** A Redis command, that neither changes fates' meaning nor the directory. *)
Lemma inv_fates f b : inv b -> inv (set_fates f b).
Proof. intros []. by split. Qed.
Lemma spec_redis {A} (F : Bus -> Prop) (f : Bus -> A * Bus) (Q : A -> Bus -> Prop) :
  kept F -> (forall a, kept (Q a)) ->
  (forall b, inv b -> F b -> inv (f b).2 /\ follows b (f b).2 /\ Q (f b).1 (f b).2) ->
  spec F (redis f) Q.
Proof.
  intros HF HQ H. apply spec_act; [done..|]. intros b Hi HFb.
  assert (Hi' : inv (set_fates tail b)) by (by apply inv_fates).
  assert (Hf : follows b (set_fates tail b)) by same. assert (HF' : F (set_fates tail b)) by (by apply (HF b)).
  destruct (H _ Hi' HF') as (H1 & H2 & H3). assert (follows b (f (set_fates tail b)).2) by (by etrans).
  destruct (head (bus_fates b)) as [[]|]; simpl; auto.
Qed.

(** What is kept by all steps is kept to the end, exception or not. *)
Lemma triple_keep {A} p (P : Bus -> Prop) (m : proc A) Q (F : Bus -> Prop) : kept F ->
  triple inv rely p P m Q -> triple inv rely p (fun b => P b /\ F b) m (fun r b => Q r b /\ F b).
Proof.
  intros HF H b Hi [HP HFb]. specialize (H b Hi HP). clear HP. revert b Hi HFb H.
  induction m as [r|f IH] using proc_ind'; simpl; intros b Hi HFb H b1 Hr Hi1; [split; [by apply H|by apply (HF b)]|].
  specialize (H b1 Hr Hi1). destruct (f b1) as [[m' b2]|] eqn:Ef; [|done]. destruct H as (H1 & H2 & H3).
  split; [done|]. split; [done|]. apply (IH _ _ _ Ef); [done| |done]. apply (HF b1); [|by apply (HF b)].
  apply (H2 (Pos.succ p)). lia.
Qed.
Lemma spec_catch {A} F (m : proc A) (k : OrchestrationError -> proc A) Q :
  kept F -> (forall a, kept (Q a)) -> spec F m Q -> (forall e, spec F (k e) Q) -> spec F (catch m k) Q.
Proof.
  intros HF HQ Hm Hk p. unfold catch. eapply triple_handle; [apply _| |].
  - eapply triple_conseq; [apply (triple_keep p F m _ F HF (Hm p))|by intros|]. intros r b _ H. exact H.
  - intros [e|a]; simpl.
    + eapply triple_conseq; [apply (Hk e p)|by intros b _ [_ H]|done].
    + eapply triple_conseq; [apply (spec_ret (Q a) a Q); [done|done]|by intros b _ [H _]|done].
Qed.
Lemma spec_finally {A} F (m : proc A) (c : proc unit) Q :
  (forall a, kept (Q a)) -> spec F m Q -> (forall G, kept G -> spec G c (fun _ => G)) -> spec F (finally m c) Q.
Proof.
  intros HQ Hm Hc p. unfold finally. eapply triple_handle; [apply _|apply Hm|]. intros [e|a].
  - eapply triple_handle; [apply _|apply (Hc (fun _ => True)); by intros ?|]. intros [e'|[]]; apply spec_raise.
  - eapply triple_handle; [apply _|by apply (Hc (Q a))|]. intros [e'|[]]; [apply spec_raise|].
    by apply (spec_ret (Q a) a Q).
Qed.
Lemma spec_for_all {A} F (l : list A) f : kept F -> (forall x, x ∈ l -> spec F (f x) (fun _ => F)) -> spec F (for_all l f) (fun _ => F).
Proof.
  intros HF. induction l as [|x l IH]; intros Hf; simpl; [by apply spec_ret|].
  eapply spec_bind; [apply Hf, list_elem_of_here|]. intros n. eapply spec_bind; [apply IH; intros y Hy; apply Hf; by apply list_elem_of_further|].
  intros k. by apply spec_ret.
Qed.

Lemma kept_and F G : kept F -> kept G -> kept (fun b => F b /\ G b).
Proof. intros HF HG b b' Hr [? ?]. split; [by apply (HF b)|by apply (HG b)]. Qed.
Lemma kept_pure (P : Prop) : kept (fun _ => P).
Proof. by intros b b'. Qed.
Lemma kept_expect corr s : kept (fun b => rv_expect (bus_rdv b) !! corr = Some s).
Proof. intros b b' [] H. by eapply lookup_weaken. Qed.
Lemma kept_expected corr : kept (fun b => is_Some (rv_expect (bus_rdv b) !! corr)).
Proof. intros b b' [] [s H]. exists s. by eapply lookup_weaken. Qed.
#[local] Hint Resolve kept_and kept_pure kept_expect kept_expected : core.

(** ** The operations *)
Lemma spec_audit F a : kept F -> spec F (audit a) (fun _ => F).
Proof. intros HF. apply spec_act; [done..|]. intros b [] HFb. simpl. split; [by split|]. split; [same|]. apply (HF b); [same|done]. Qed.
Lemma spec_uuid4 F : kept F -> spec F uuid4 (fun _ => F).
Proof.
  intros HF. apply spec_act; [done..|]. intros b [] HFb. simpl. split; [split; try done|split; [same|apply (HF b); [same|done]]]; simpl.
  - intros corr s H. apply iv_replies0 in H. lia.
  - intros corr s H. apply iv_next0 in H. lia.
  - intros i r H. apply iv_instructions0 in H as [? ?]. split; [lia|done].
Qed.

Context (Hkeys : map_Forall (fun id a => ag_id a = id) (d_agents d)).

Lemma spec_require_agent F id : kept F ->
  spec F (require_agent id) (fun a b => F b /\ get_agent false (d_agents d) id = Some a).
Proof.
  intros HF. unfold require_agent. eapply (spec_bind _ _ _ (fun r b => F b /\ r = get_agent false (d_agents d) id)).
  - apply spec_db; [done|auto|]. intros b [] HFb. by rewrite iv_dir0.
  - intros [a|]; [|apply spec_raise]. apply spec_ret; [auto|]. by intros b _ [? <-].
Qed.

(** Caller and callee as the scope check leaves them. *)
Definition cleared (caller callee : Agent) : Prop :=
  ag_project_id caller = ag_project_id callee /\ ag_project_id callee ∈ d_live_projects d /\
  (ag_id caller = ag_id callee \/ ag_a2a_enabled caller = true /\ ag_a2a_enabled callee = true).
Lemma spec_enforce_scope F caller callee att ctx : kept F ->
  spec F (enforce_scope caller callee att ctx) (fun _ b => F b /\ cleared caller callee).
Proof.
  intros HF. unfold enforce_scope.
  eapply (spec_bind _ _ _ (fun live b => F b /\ live = bool_decide (ag_project_id callee ∈ d_live_projects d))).
  - apply spec_db; [done|auto|]. intros b [] HFb. by rewrite iv_dir0.
  - intros live. destruct (evaluate _).1 eqn:Ev.
    + apply evaluate_rule in Ev as (Hp & Hd & Hrest). simpl in Hp, Hd, Hrest. apply spec_ret; [auto|].
      intros b _ [HFb ->]. split; [done|]. split; [done|]. split; [|naive_solver].
      apply negb_false_iff in Hd. by apply bool_decide_eq_true in Hd.
    + eapply (spec_bind _ _ _ (fun _ _ => True)); [|intros ?; apply spec_raise].
      eapply spec_weaken; [by apply (spec_audit (fun _ => True))|done|done].
Qed.
Lemma spec_derive F run issuer callee : kept F -> spec F (derive_workflow_context run issuer callee) (fun _ => F).
Proof.
  intros HF. unfold derive_workflow_context. eapply (spec_bind _ _ _ (fun _ => F)); [by apply spec_db|].
  intros m. by apply spec_ret.
Qed.
Lemma spec_tenant F run callee : kept F ->
  spec F (enforce_workflow_tenant run callee) (fun _ b => F b /\
    exists r row, run = Some r /\ d_runs d !! r = Some row /\ rr_project_id row = ag_project_id callee).
Proof.
  intros HF. unfold enforce_workflow_tenant. destruct run as [r|]; [|apply spec_raise].
  eapply (spec_bind _ _ _ (fun p b => F b /\ p = rr_project_id <$> d_runs d !! r)).
  - apply spec_db; [done|auto|]. intros b [] HFb. by rewrite iv_dir0.
  - intros project. case_bool_decide as Hp.
    + apply spec_ret; [auto|]. intros b _ [HFb ->]. split; [done|]. destruct (d_runs d !! r) as [row|] eqn:E; [|done].
      exists r, row. simpl in Hp. split_and!; congruence.
    + eapply (spec_bind _ _ _ (fun _ _ => True)); [|intros ?; apply spec_raise].
      eapply spec_weaken; [by apply (spec_audit (fun _ => True))|done|done].
Qed.
Lemma spec_xadd F to e : kept F -> permitted to e -> spec F (xadd to e) (fun _ => F).
Proof.
  intros HF Hp. apply spec_redis; [done..|]. intros b [] HFb. simpl. split; [split; try done|split; [same|apply (HF b); [same|done]]].
  simpl. intros t x [H|[= -> ->]%list_elem_of_singleton]%elem_of_app; [by apply iv_inbox0|done].
Qed.

Lemma get_agent_keyed id a : get_agent false (d_agents d) id = Some a -> ag_id a = id.
Proof.
  unfold get_agent. destruct (d_agents d !! id) as [x|] eqn:E; [|done]. case_match; [done|]. intros [= <-]. by apply (Hkeys id).
Qed.
Lemma cleared_permitted from to caller callee e : e_from_agent e = Some from ->
  get_agent false (d_agents d) from = Some caller -> get_agent false (d_agents d) to = Some callee ->
  cleared caller callee -> permitted to e.
Proof. intros He Hc Hd (H1 & H2 & H3). unfold permitted. rewrite He. right. exists caller, callee. by split_and!. Qed.

Lemma spec_fan_out F e from caller ctx rooms targets acc : kept F ->
  e_from_agent e = Some from -> get_agent false (d_agents d) from = Some caller ->
  (forall t, t ∈ targets -> get_agent false (d_agents d) (ag_id t) = Some t) ->
  spec F (fan_out e caller ctx rooms targets acc) (fun _ => F).
Proof.
  intros HF He Hc. revert acc. induction targets as [|t targets IH]; intros acc Ht; cbn [fan_out]; [by apply spec_ret|].
  assert (IH' : forall acc, spec F (fan_out e caller ctx rooms targets acc) (fun _ => F)).
  { intros a. apply IH. intros u Hu. apply Ht. by apply list_elem_of_further. }
  destruct (_ || _); [done|].
  eapply (spec_bind _ _ _ (fun allowed b => F b /\ (allowed = true -> cleared caller t))).
  - apply spec_catch; [done|auto| |].
    + eapply spec_bind; [by apply spec_enforce_scope|]. intros ?. apply spec_ret; [auto|]. by intros b _ [? ?].
    + intros err. case_decide; [|apply spec_raise]. apply spec_ret; [auto|]. by intros b _ HFb.
  - intros [|]; cbn [negb]; [|apply (spec_weaken F _ _ (fun _ => F)); [apply IH'|by intros b _ [? _]|done]].
    destruct (A2A_BROADCAST_MAX_RECIPIENTS <=? fo_delivered acc)%nat; [apply (spec_weaken F _ _ (fun _ => F)); [apply IH'|by intros b _ [? _]|done]|].
    eapply (spec_bind _ _ _ (fun _ b => F b /\ cleared caller t)).
    { eapply spec_weaken; [apply (spec_uuid4 (fun b => F b /\ cleared caller t)); auto|naive_solver|done]. }
    intros i.
    eapply (spec_bind _ _ _ (fun _ => F)); [|intros sid; apply IH'].
    intros p b Hi [HFb Hcl]. apply (spec_xadd F (ag_id t) _ HF); [|done|done].
    eapply cleared_permitted; [exact He|exact Hc|apply Ht, list_elem_of_here|by apply Hcl].
Qed.

Lemma agents_of_project_elem b project t : bus_dir b = d -> t ∈ agents_of_project b project ->
  get_agent false (d_agents d) (ag_id t) = Some t.
Proof.
  intros Hb Ht%list_elem_of_In. unfold agents_of_project in Ht. apply filter_In in Ht as [Ht _]. rewrite Hb in Ht.
  apply list_elem_of_In, list_elem_of_omap in Ht as (i & _ & Hi). by rewrite (get_agent_keyed i t Hi).
Qed.

Lemma spec_broadcast F e ctx : kept F -> spec F (broadcast e ctx) (fun _ => F).
Proof.
  intros HF. unfold broadcast. destruct (e_from_agent e) as [from|] eqn:He; [|apply spec_raise].
  eapply spec_bind; [by apply spec_require_agent|]. intros caller.
  eapply (spec_bind _ _ _ (fun _ b => F b /\ get_agent false (d_agents d) from = Some caller)); [apply spec_db; auto|].
  intros [|]; cbn [negb]; [|eapply (spec_bind _ _ _ (fun _ _ => True)); [|intros ?; apply spec_raise];
    eapply spec_weaken; [by apply (spec_audit (fun _ => True))|done|done]].
  eapply (spec_bind _ _ _ (fun agents b => (F b /\ get_agent false (d_agents d) from = Some caller) /\
    forall t, t ∈ agents -> get_agent false (d_agents d) (ag_id t) = Some t)).
  { apply spec_db; [auto|auto|]. intros b Hi HFb. split; [done|]. intros t. apply agents_of_project_elem. by destruct Hi. }
  intros agents. eapply (spec_bind _ _ _ (fun _ b => (F b /\ get_agent false (d_agents d) from = Some caller) /\
    forall t, t ∈ agents -> get_agent false (d_agents d) (ag_id t) = Some t)); [apply spec_db; auto|]. intros rooms.
  eapply (spec_bind _ _ _ (fun _ => F)).
  - intros p b Hi [[HFb Hc] Ht]. by apply (spec_fan_out F e from caller ctx rooms agents _ HF).
  - intros r. eapply spec_bind; [by apply spec_audit|]. intros ?. by apply spec_ret.
Qed.

Lemma spec_send F e att ctx : kept F -> spec F (send e att ctx) (fun _ => F).
Proof.
  intros HF. unfold send. destruct (e_to_agent e) as [| | | |to| |]; try apply spec_raise.
  destruct (String.prefix _ to); [by apply spec_broadcast|]. destruct (read to) as [to_id|]; [|apply spec_raise].
  eapply (spec_bind _ _ _ (fun _ b => F b /\ permitted to_id e)).
  - destruct (e_from_agent e) as [from|] eqn:He.
    + eapply spec_bind; [by apply spec_require_agent|]. intros caller.
      eapply spec_bind; [by apply (spec_require_agent (fun b => F b /\ get_agent false (d_agents d) from = Some caller)); auto|]. intros callee.
      eapply (spec_bind _ _ _ (fun _ b => (F b /\ get_agent false (d_agents d) from = Some caller) /\ get_agent false (d_agents d) to_id = Some callee)).
      { destruct (e_workflow_run_id e); [apply spec_derive; auto|]. apply spec_ret; auto. }
      intros c. eapply spec_weaken; [by apply (spec_enforce_scope (fun b => (F b /\ get_agent false (d_agents d) from = Some caller) /\
        get_agent false (d_agents d) to_id = Some callee)); auto|done|].
      intros _ b _ [[[HFb Hc] Hd] Hcl]. split; [done|]. by eapply cleared_permitted.
    + eapply spec_bind; [by apply spec_require_agent|]. intros callee.
      eapply spec_weaken; [by apply (spec_tenant (fun b => F b /\ get_agent false (d_agents d) to_id = Some callee)); auto|done|].
      intros _ b _ [[HFb Hd] (r & row & H1 & H2 & H3)]. split; [done|]. unfold permitted. rewrite He. by exists callee, r, row.
  - intros ?. eapply (spec_bind _ _ _ (fun _ => F)).
    + intros p b Hi [HFb Hp]. by apply (spec_xadd F to_id e HF).
    + intros sid. eapply spec_bind; [by apply spec_audit|]. intros ?. by apply spec_ret.
Qed.
Lemma spec_notify F from to payload run ctx att : kept F -> spec F (notify from to payload run ctx att) (fun _ => F).
Proof.
  intros HF. unfold notify. eapply spec_bind; [by apply spec_uuid4|]. intros i. eapply spec_bind; [by apply spec_uuid4|].
  intros corr. eapply (spec_bind _ _ _ (fun _ => F)); [by apply spec_db|]. intros now. by apply spec_send.
Qed.
Lemma spec_reply F from to corr payload run : kept F -> spec F (reply from to corr payload run) (fun _ => F).
Proof.
  intros HF. unfold reply. eapply spec_bind; [by apply spec_require_agent|]. intros a.
  eapply spec_bind; [by apply (spec_uuid4 (fun b => F b /\ get_agent false (d_agents d) from = Some a)); auto|]. intros i.
  eapply (spec_bind _ _ _ (fun _ b => F b /\ get_agent false (d_agents d) from = Some a)); [apply spec_db; auto|]. intros now.
  eapply (spec_bind _ _ _ (fun _ => F)).
  - intros p b Hi [HFb Ha]. apply (spec_xadd F to _ HF); [|done|done]. left. split; [done|]. by exists a.
  - intros sid. eapply spec_bind; [by apply spec_audit|]. intros ?. by apply spec_ret.
Qed.

(** ** The rendezvous *)
Lemma inv_push b corr v : inv b -> (forall s, rv_expect (bus_rdv b) !! corr = Some s -> genuine s v) ->
  (corr < bus_next b)%positive -> inv (set_rdv (with_replies (rpush corr v)) b).
Proof.
  intros [] Hg Hs. split; simpl; try done.
  - intros c s w Hc. unfold rpush. destruct (decide (c = corr)) as [->|Hne].
    + rewrite lookup_insert_eq. simpl. intros [Hw| ->%list_elem_of_singleton]%elem_of_app; [by eapply iv_genuine0|by apply Hg].
    + rewrite lookup_insert_ne by done. by apply iv_genuine0.
  - intros c l. unfold rpush. intros [[<- _]|[_ H]]%lookup_insert_Some; [done|by eapply iv_replies0].
Qed.
(** Commands on the other rendezvous keys. *)
Lemma spec_rdv F f : kept F ->
  (forall b, inv b -> F b -> inv (set_rdv f b) /\ follows b (set_rdv f b)) ->
  spec F (rdv f) (fun _ => F).
Proof.
  intros HF H. apply spec_redis; [done..|]. intros b Hi HFb. destruct (H b Hi HFb). simpl. split; [done|]. split; [done|]. by apply (HF b).
Qed.
Lemma spec_mark_cancelled F corr : kept F -> spec F (mark_call_cancelled corr) (fun _ => F).
Proof. intros HF. apply spec_rdv; [done|]. intros b [] _. split; [by split|same]. Qed.
Lemma spec_deliver_cancellation F corr : kept F -> (forall b, F b -> is_Some (rv_expect (bus_rdv b) !! corr)) ->
  spec F (deliver_cancellation corr) (fun _ => F).
Proof.
  intros HF Hs. apply spec_rdv; [done|]. intros b Hi HFb. split; [|same]. destruct (Hs b HFb) as [s Hc].
  apply inv_push; [done| |by apply (iv_next b Hi _ s)]. intros s' _. by left.
Qed.
Lemma spec_register_responder F to : kept F ->
  spec F (register_expected_responder to) (fun corr b => F b /\ rv_expect (bus_rdv b) !! corr = Some (show to)).
Proof.
  intros HF. apply spec_redis; [done|auto|]. intros b [] HFb. simpl.
  assert (Hnone : rv_expect (bus_rdv b) !! bus_next b = None).
  { destruct (rv_expect (bus_rdv b) !! bus_next b) as [s|] eqn:E; [|done]. apply iv_next0 in E. lia. }
  assert (Hsub : rv_expect (bus_rdv b) ⊆ <[bus_next b := show to]> (rv_expect (bus_rdv b))) by (by apply insert_subseteq).
  assert (Hf : follows b (set_next Pos.succ (set_rdv (with_expect (insert (bus_next b) (show to))) b))) 
  by (split; simpl; [done|lia|intros c s Hc; rewrite lookup_insert_ne by lia; done|intros i r _ H; exists r; split; [done|by left]]).
  split; [|split; [exact Hf|split; [by apply (HF b)|by rewrite lookup_insert_eq]]].
  split; simpl; try done.
  - intros c s v [[<- <-]|[Hne Hc]]%lookup_insert_Some; [|by apply iv_genuine0].
    destruct (rv_replies (bus_rdv b) !! bus_next b) as [l|] eqn:E; [|by intros ?%elem_of_nil].
    apply iv_replies0 in E. lia.
  - intros c l Hc. apply iv_replies0 in Hc. lia.
  - intros r c Hc. apply iv_calls0 in Hc as [s Hs]. exists s. by eapply lookup_weaken.
  - intros c s [[<- <-]|[Hne Hc]]%lookup_insert_Some; [lia|]. apply iv_next0 in Hc. lia.
  - intros i r H. apply iv_instructions0 in H as [? ?]. split; [lia|done].
Qed.
Lemma spec_register_call F run corr : kept F -> (forall b, F b -> is_Some (rv_expect (bus_rdv b) !! corr)) ->
  spec F (register_workflow_call run corr) (fun _ => F).
Proof.
  intros HF Hs. unfold register_workflow_call. eapply (spec_bind _ _ _ (fun _ => F)).
  - apply spec_rdv; [done|]. intros b [] HFb. split; [|same]. split; simpl; try done.
    intros r c [[= -> ->]%elem_of_singleton|H]%elem_of_union; [by apply Hs|by eapply iv_calls0].
  - intros ?. eapply (spec_bind _ _ _ (fun _ => F)); [by apply spec_redis|]. intros [|]; [|by apply spec_ret].
    eapply spec_bind; [by apply spec_mark_cancelled|]. intros ?.
    eapply spec_bind; [by apply spec_deliver_cancellation|]. intros ?. by apply spec_ret.
Qed.
Lemma spec_unregister F run corr : kept F -> spec F (unregister_workflow_call run corr) (fun _ => F).
Proof. intros HF. apply spec_rdv; [done|]. intros b [] _. split; [|same]. split; simpl; try done. intros r c [H _]%elem_of_difference. by eapply iv_calls0. Qed.

Lemma spec_cancel_calls F run : kept F -> spec F (cancel_workflow_calls run) (fun _ => F).
Proof.
  intros HF. unfold cancel_workflow_calls. eapply (spec_bind _ _ _ (fun _ => F)).
  { apply spec_rdv; [done|]. intros b [] _. split; [by split|same]. }
  intros ?. eapply (spec_bind _ _ _ (fun live b => F b /\ forall x, x ∈ live -> is_Some (rv_expect (bus_rdv b) !! x.2))).
  - apply spec_redis; [done| |].
    + intros live b b' Hr [HFb H]. split; [by apply (HF b)|]. intros x Hx. by apply (kept_expected x.2 b b' Hr), H.
    + intros b Hi HFb. simpl. split; [done|]. split; [done|]. split; [done|]. intros [r c] Hx.
      apply elem_of_elements, elem_of_filter in Hx as [_ Hx]. by apply (iv_calls b Hi r).
  - intros live. eapply (spec_bind _ _ _ (fun _ => F)); [|intros ?; by apply spec_ret].
    intros p b Hi [HFb Hl]. apply (safe_mono _ _ _ _ (fun r => match r with inr _ => fun b => F b /\ forall x, x ∈ live -> is_Some (rv_expect (bus_rdv b) !! x.2)
      | inl _ => fun _ => True end)); [|intros [e|?] b' _; [done|by intros []]].
    revert p b Hi HFb Hl.
    assert (Hk : kept (fun b => F b /\ forall x, x ∈ live -> is_Some (rv_expect (bus_rdv b) !! x.2))).
    { intros b b' Hr [HFb H]. split; [by apply (HF b)|]. intros x Hx. by apply (kept_expected x.2 b b' Hr), H. }
    intros p b Hi HFb Hl. refine (spec_for_all _ live _ Hk _ p b Hi (conj HFb Hl)).
    intros x Hx. eapply (spec_bind _ _ _ (fun _ b => F b /\ forall x, x ∈ live -> is_Some (rv_expect (bus_rdv b) !! x.2)));
      [by apply spec_mark_cancelled|].
    intros ?. eapply (spec_bind _ _ _ (fun _ b => F b /\ forall x, x ∈ live -> is_Some (rv_expect (bus_rdv b) !! x.2)));
      [apply spec_deliver_cancellation; [done|]; intros b' [_ H]; by apply H|].
    intros ?. by apply spec_ret.
Qed.

(** A reply is pushed only if its sender is the one expected, or nobody ever will be. *)
Definition expects (corr : uuid) (ex : option string) (b : Bus) : Prop :=
  (corr < bus_next b)%positive /\ rv_expect (bus_rdv b) !! corr = ex.
Lemma kept_expects corr ex : kept (expects corr ex).
Proof.
  intros b b' [] [Hc He]. split; [lia|]. destruct ex as [s|]; [by eapply lookup_weaken|].
  destruct (rv_expect (bus_rdv b') !! corr) as [s|] eqn:E; [|done]. apply fw_known0 in E; congruence.
Qed.
Lemma kept_next corr : kept (fun b => (corr < bus_next b)%positive).
Proof. intros b b' [] H. lia. Qed.
#[local] Hint Resolve kept_expects kept_next : core.
Lemma spec_deliver_reply F corr r : kept F -> (forall b, F b -> (corr < bus_next b)%positive) ->
  spec F (deliver_reply corr r) (fun _ => F).
Proof.
  intros HF Hs. unfold deliver_reply.
  eapply (spec_bind _ _ _ (fun expected b => F b /\ expects corr expected b)).
  - apply spec_redis; [done|auto|]. intros b Hi HFb. simpl. split; [done|]. split; [reflexivity|]. split; [done|].
    split; [by apply Hs|done].
  - intros ex. destruct (match ex with Some s => _ | None => false end) eqn:Ef.
    + apply spec_ret; [done|]. by intros b _ [? _].
    + apply (spec_weaken (fun b => F b /\ expects corr ex b) (fun b => F b /\ expects corr ex b) _
        (fun _ b => F b /\ expects corr ex b) (fun _ => F)); [|done|by intros a b' _ []].
      apply spec_rdv; [auto|]. intros b1 Hi1 [_ [Hc He]]. split; [|same]. apply inv_push; [done| |done].
      intros s1 Hs1. right. exists r. split; [done|]. simplify_eq. rewrite Hs1 in Ef. by apply negb_false_iff in Ef.
Qed.

Lemma spec_await_reply F corr s t : kept F -> (forall b, F b -> rv_expect (bus_rdv b) !! corr = Some s) ->
  spec F (await_reply corr t) (fun v b => F b /\ match v with Some r => genuine s (VDict r) | None => True end).
Proof.
  intros HF Hs. unfold await_reply. eapply (spec_bind _ _ _ (fun _ => F)); [by apply spec_db|]. intros now.
  eapply (spec_bind _ _ _ (fun v b => F b /\ match v with Some v => genuine s v | None => True end)).
  - intros p b Hi HFb b1 Hr Hi1. assert (HF1 : F b1) by (by apply (HF b)). cbn beta.
    destruct (rv_replies (bus_rdv b1) !! corr) as [[|v rest]|] eqn:E.
    + destruct (_ <=? bus_now b1); [|done]. split; [done|]. split; [by intros q _|]. intros b2 Hr2 _. split; [by apply (HF b1)|done].
    + pose proof Hi1 as []. assert (Hv : genuine s v).
      { apply (iv_genuine0 corr); [by apply Hs|]. rewrite E. simpl. apply list_elem_of_here. }
      assert (Hi2 : inv (set_rdv (with_replies (insert corr rest)) b1)).
      { split; simpl; try done.
        - intros c s' w Hc. destruct (decide (c = corr)) as [->|Hne]; [|rewrite lookup_insert_ne by done; by apply iv_genuine0].
          rewrite lookup_insert_eq. simpl. intros Hw. apply (iv_genuine0 corr); [done|]. rewrite E. by apply list_elem_of_further.
        - intros c l [[<- _]|[_ H]]%lookup_insert_Some; [by eapply iv_replies0|by eapply iv_replies0]. }
      split; [done|]. assert (Hf : follows b1 (set_rdv (with_replies (insert corr rest)) b1)) by same.
      split; [by intros q _|]. intros b2 Hr2 _. split; [|done]. apply (HF b1); [|done]. by etrans.
    + destruct (_ <=? bus_now b1); [|done]. split; [done|]. split; [by intros q _|]. intros b2 Hr2 _. split; [by apply (HF b1)|done].
  - intros v. apply spec_ret; [auto|]. intros b _ [HFb Hv]. split; [done|]. by destruct v as [[]|].
Qed.

(** The reply of a call is its callee's. *)
Definition from_callee (c : CallRequest) (r : pydict) : Prop := from_is (dict_get_none "from_agent" r) (show (cl_to c)) = true.

Lemma spec_dispatch c corr e already :
  spec (fun b => rv_expect (bus_rdv b) !! corr = Some (show (cl_to c))) (dispatch c corr e already) (fun r _ => from_callee c r).
Proof.
  unfold dispatch. destruct already; [apply spec_raise|].
  eapply spec_bind; [apply spec_send; auto|]. intros ?.
  eapply spec_bind; [by apply (spec_await_reply _ corr (show (cl_to c)))|]. intros [r|].
  - destruct (has_key A2A_CANCELLED_KEY _) eqn:Ec; [apply spec_raise|]. destruct (has_key A2A_ERROR_KEY _); [apply spec_raise|].
    apply spec_ret; [auto|]. intros b _ [_ [[= ->]|(r' & [= <-] & Hr)]]; [by vm_compute in Ec|done].
  - eapply (spec_bind _ _ _ (fun _ _ => True)); [|intros ?; apply spec_raise].
    eapply spec_weaken; [by apply (spec_mark_cancelled (fun _ => True))|done|done].
Qed.

Lemma spec_call ambient c : spec (fun _ => True) (call ambient c) (fun r _ => from_callee c r).
Proof.
  unfold call. destruct (next_hop _ _) as [err|[depth path]]; [apply spec_raise|].
  eapply (spec_bind _ _ _ (fun _ _ => True)); [by apply spec_uuid4|]. intros i.
  eapply (spec_bind _ _ _ (fun _ _ => True)); [by apply spec_db|]. intros now.
  eapply (spec_bind _ _ _ (fun corr b => rv_expect (bus_rdv b) !! corr = Some (show (cl_to c)))).
  { eapply spec_weaken; [by apply (spec_register_responder (fun _ => True))|done|by intros a b _ []]. }
  intros corr. eapply (spec_bind _ _ _ (fun _ b => rv_expect (bus_rdv b) !! corr = Some (show (cl_to c)))).
  { destruct (cl_run c) as [run|]; [|apply spec_ret; auto]. apply spec_register_call; [auto|]. intros b H. by eexists. }
  intros already. apply spec_finally; [auto|apply spec_dispatch|]. intros G HG.
  destruct (cl_run c) as [run|]; [by apply spec_unregister|by apply spec_ret].
Qed.
End pool.

(** ** Pools of users of the transport

    [code p] is what process [p] runs, [promised p] what it ends with. *)
Section pools.
Context `{!Codec uuid, !Codec Z} (d : Directory) {Res : Type} (code : positive -> proc Res)
  (promised : positive -> OrchestrationError + Res -> Bus -> Prop).

Definition user_program (p : positive) (m : proc Res) : Prop := m = code p.
(** Time passes and commands meet their fate; other contexts leave the directory alone. *)
Inductive passes (alive : gset positive) : Bus -> Bus -> Prop :=
  | passes_by b now fates : bus_now b <= now -> passes alive b
      (mkBus (bus_dir b) (bus_rdv b) (bus_inbox b) (bus_pending b) (bus_instructions b) (bus_audit b) now (bus_next b) fates (bus_jobs b)).
Definition quiet_bus : Bus := mkBus d (mkRendezvous ∅ ∅ ∅ ∅ ∅) [] ∅ ∅ [] 0 1 [] [].
Abbreviation steps_to := (reach user_program (fun _ b => b) passes (fun _ _ => True)).

Context (Hcode : forall p, spec d (fun _ => True) (code p) (fun r b => promised p (inr r) b))
  (Herr : forall p e b, promised p (inl e) b).

Lemma quiet_inv : inv d quiet_bus.
Proof.
  split; simpl; try done.
  intros to e H. by apply elem_of_nil in H.
Qed.
Lemma passes_follows alive b b' : passes alive b b' -> follows b b'.
Proof. intros [b1 now fates _]. apply follows_same; simpl; [done|lia|done]. Qed.
Lemma code_safe p b : inv d b -> safe (inv d) rely p (code p) (promised p) b.
Proof. intros Hi. eapply safe_mono; [by apply (Hcode p p b Hi)|]. intros [e|r] b' _ Hr; [apply Herr|exact Hr]. Qed.

Lemma pool_good c c' : steps_to c c' -> good (inv d) rely promised c -> good (inv d) rely promised c'.
Proof.
  apply (reach_good _ _ _ _ (inv d) rely promised (fun _ _ => True)); try done.
  - intros p m b -> Hi _. by apply code_safe.
  - intros alive b b' He Hi. split; [|intros q _; by eapply passes_follows]. destruct He, Hi. by split.
Qed.
Lemma users_good (c : conf OrchestrationError Bus Res) : steps_to (mkConf quiet_bus ∅) c -> good (inv d) rely promised c.
Proof. intros H. apply (pool_good _ _ H). split; [apply quiet_inv|done]. Qed.
Lemma users_follow c c' : steps_to c c' -> good (inv d) rely promised c -> follows (world c) (world c').
Proof.
  intros H Hg. eapply (reach_relates _ _ _ _ (inv d) rely promised (fun _ _ => True)); [..|exact H|exact Hg]; try done; try apply _.
  - intros p m b -> Hi _. by apply code_safe.
  - intros alive b b' He Hi. split; [|intros q _; by eapply passes_follows]. destruct He, Hi. by split.
  - intros alive b b'. apply passes_follows.
Qed.

(** A schedule, executed. *)
Fixpoint steps (l : list positive) (c : conf OrchestrationError Bus Res) : option (conf OrchestrationError Bus Res) :=
  match l with
  | [] => Some c
  | p :: l =>
      match pool c !! p with
      | None => steps l (mkConf (world c) (<[p := code p]> (pool c)))
      | Some (Step f) => match f (world c) with Some (m, b) => steps l (mkConf b (<[p := m]> (pool c))) | None => None end
      | Some (Done _) => None
      end
  end.
Lemma steps_reach l : forall c c', steps l c = Some c' -> steps_to c c'.
Proof.
  induction l as [|p l IH]; intros [b pl] c'; cbn [steps world pool]; [intros [= <-]; apply rtc_refl|].
  destruct (pl !! p) as [[r|f]|] eqn:E; [done| |].
  - destruct (f b) as [[m b']|] eqn:Ef; [|done]. intros H. eapply rtc_l; [by eapply cs_run|by apply IH].
  - intros H. eapply rtc_l; [by apply cs_spawn|by apply IH].
Qed.
End pools.

Inductive Role :=
  | Caller (ambient : Z * list string) (c : CallRequest)
  | Sender (e : Envelope) (attached : gset uuid) (ctx : option uuid)
  | Notifier (from to : uuid) (payload : pydict) (run ctx : option uuid) (attached : gset uuid)
  | Replier (from to corr : uuid) (payload : pydict) (run : option uuid)
  | Deliverer (corr : uuid) (reply : pydict)  (** hands over a reply, true or forged *)
  | Canceller (run : uuid).

Section users.
Context `{!Codec uuid, !Codec Z} (d : Directory).

(** What a user of the transport runs; identifiers are known once they are drawn. *)
Definition role_code (r : Role) : proc pydict :=
  match r with
  | Caller ambient c => call ambient c
  | Sender e attached ctx => _ ← send e attached ctx; mret []
  | Notifier from to payload run ctx attached => _ ← notify from to payload run ctx attached; mret []
  | Replier from to corr payload run => _ ← reply from to corr payload run; mret []
  | Deliverer corr r =>
      known ← db (fun b => bool_decide (corr < bus_next b)%positive);
      if known : bool then _ ← deliver_reply corr r; mret [] else mret []
  | Canceller run => _ ← cancel_workflow_calls run; mret []
  end.
Definition role_promise (r : Role) (a : OrchestrationError + pydict) : Prop :=
  match r, a with Caller _ c, inr reply => from_callee c reply | _, _ => True end.

Context (Hkeys : map_Forall (fun id a => ag_id a = id) (d_agents d)).

Lemma spec_role r : spec d (fun _ => True) (role_code r) (fun a _ => role_promise r (inr a)).
Proof.
  destruct r as [ambient c|e att ctx|from to pl run ctx att|from to corr pl run|corr r|run]; cbn [role_code role_promise].
  - by apply spec_call.
  - eapply spec_bind; [by apply spec_send|]. intros ?. by apply spec_ret.
  - eapply spec_bind; [by apply spec_notify|]. intros ?. by apply spec_ret.
  - eapply spec_bind; [by apply spec_reply|]. intros ?. by apply spec_ret.
  - eapply (spec_bind _ _ _ _ (fun (known : bool) b => if known then (corr < bus_next b)%positive else True)).
    + apply spec_db; [done|intros [|]; [apply kept_next|done]|]. intros b1 _ _. by case_bool_decide.
    + intros [|]; [|by apply spec_ret].
      eapply (spec_bind _ (fun b => (corr < bus_next b)%positive) _ _ (fun _ b => (corr < bus_next b)%positive)).
      * apply spec_deliver_reply; [apply kept_next|done].
      * intros ?. by apply spec_ret.
  - eapply spec_bind; [by apply spec_cancel_calls|]. intros ?. by apply spec_ret.
Qed.
End users.

(** ** The call chain *)
Inductive call_stack : Z * list string -> Prop :=
  | cs_root : call_stack (0, [])
  | cs_hop base callee next : call_stack base -> next_hop callee base = inr next -> call_stack next.
Lemma call_stack_ok base : call_stack base -> base.1 = Z.of_nat (length base.2) /\ NoDup base.2 /\ base.1 <= A2A_CALL_MAX_DEPTH.
Proof.
  induction 1 as [|[depth path] callee next _ (IH1 & IH2 & IH3) Hnext]; [split_and!; [done|constructor|done]|].
  unfold next_hop in Hnext. simpl in *. case_bool_decide as Hin; [done|].
  destruct (A2A_CALL_MAX_DEPTH <? depth + 1) eqn:E; [done|]. injection Hnext as <-. simpl. split_and!.
  - rewrite length_app. simpl. lia.
  - apply list.NoDup_app. split; [done|]. split; [by intros x Hx ->%list_elem_of_singleton|]. apply NoDup_singleton.
  - lia.
Qed.

(** ** Broadcasts *)
Lemma enforce_scope_inbox caller callee att ctx b r b' :
  run (enforce_scope caller callee att ctx) b = Some (r, b') -> bus_inbox b' = bus_inbox b.
Proof.
  unfold enforce_scope. rewrite run_bind. simpl. destruct (evaluate _).1; simpl; by intros [= _ <-].
Qed.
Lemma xadd_inbox to e b r b' : run (xadd to e) b = Some (r, b') ->
  (r = inl Infra /\ (bus_inbox b' = bus_inbox b \/ bus_inbox b' = bus_inbox b ++ [(to, e)])) \/
  ((exists n, r = inr n) /\ bus_inbox b' = bus_inbox b ++ [(to, e)]).
Proof.
  unfold xadd, redis. rewrite run_act. destruct (head (bus_fates b)) as [[]|]; intros [= <- <-]; simpl; eauto.
Qed.

Section fan_out.
Context `{!Codec uuid, !Codec Z}.

(** Who a broadcast may reach. *)
Definition eligible (caller : Agent) (t : Agent) : bool := negb (Pos.eqb (ag_id t) (ag_id caller)) && ag_a2a_enabled t.

Definition max_recipients : nat := A2A_BROADCAST_MAX_RECIPIENTS.

Lemma allowed_inbox caller t att ctx b r b' :
  run (catch (_ ← enforce_scope caller t att ctx; mret true)
        (fun err => if decide (err = A2AForbidden) then mret false else raise err)) b = Some (r, b') ->
  bus_inbox b' = bus_inbox b.
Proof.
  unfold catch. rewrite run_handle, run_bind.
  destruct (run (enforce_scope caller t att ctx) b) as [[[err|[]] b1]|] eqn:E; [| |done].
  - apply enforce_scope_inbox in E as <-. case_decide; simpl; by intros [= _ <-].
  - apply enforce_scope_inbox in E as <-. simpl. by intros [= _ <-].
Qed.

Lemma fan_out_inbox e caller ctx rooms targets : forall acc b r b',
  (fo_delivered acc <= max_recipients)%nat ->
  run (fan_out e caller ctx rooms targets acc) b = Some (r, b') ->
  exists new, bus_inbox b' = bus_inbox b ++ new /\
    sublist (fst <$> new) (ag_id <$> List.filter (eligible caller) targets) /\
    (fo_delivered acc + length new <= max_recipients)%nat.
Proof.
  induction targets as [|t targets IH]; intros acc b r b' Hacc H; cbn [fan_out] in H.
  { injection H as <- <-. exists []. rewrite app_nil_r. simpl. split_and!; [done|constructor|lia]. }
  assert (Hel : eligible caller t = negb (Pos.eqb (ag_id t) (ag_id caller) || negb (ag_a2a_enabled t))).
  { unfold eligible. by rewrite negb_orb, negb_involutive. }
  cbn [List.filter]. destruct (_ || _) in H, Hel; rewrite Hel; cbn [negb fmap list_fmap]; [by apply IH in H|].
  rewrite run_bind in H. destruct (run (catch _ _) b) as [[[err|ok] b1]|] eqn:E; [| |done].
  { apply allowed_inbox in E. injection H as <- <-. exists []. rewrite app_nil_r. simpl. split_and!; [done|apply sublist_nil_l|lia]. }
  apply allowed_inbox in E. destruct ok; cbn [negb] in H.
  - destruct (A2A_BROADCAST_MAX_RECIPIENTS <=? fo_delivered acc)%nat eqn:Ecap.
    + apply IH in H as (new & H1 & H2 & H3); [|done]. exists new. rewrite H1, E. split_and!; [done|by apply sublist_cons|done].
    + apply Nat.leb_gt in Ecap. fold max_recipients in Ecap. rewrite run_bind in H. unfold uuid4 in H. rewrite run_act in H. cbv beta iota in H.
      rewrite run_bind in H. destruct (run (xadd _ _) _) as [[[err|sid] b2]|] eqn:Ex in H; [| |done].
      * injection H as <- <-. apply xadd_inbox in Ex as [[_ [Hb2|Hb2]]|[[? [=]] _]]; simpl in Hb2; rewrite Hb2, E.
        -- exists []. rewrite app_nil_r. simpl. split_and!; [done|apply sublist_nil_l|lia].
        -- eexists [_]. simpl. split_and!; [done|by apply sublist_skip, sublist_nil_l|lia].
      * apply xadd_inbox in Ex as [[[=] _]|[_ Hb2]]. simpl in Hb2. apply IH in H as (new & H1 & H2 & H3); [|simpl; lia].
        rewrite H1, Hb2, E. simpl in H3. eexists (_ :: new). rewrite <- app_assoc. simpl. split_and!; [done|by apply sublist_skip|lia].
  - apply IH in H as (new & H1 & H2 & H3); [|done]. exists new. rewrite H1, E. split_and!; [done|by apply sublist_cons|done].
Qed.
End fan_out.

Lemma run_db {A} (f : Bus -> A) b : run (db f) b = Some (inr (f b), b).
Proof. unfold db, get. by rewrite run_act. Qed.
Lemma run_audit a b : run (audit a) b = Some (inr tt, set_audit (fun l => l ++ [a]) b).
Proof. unfold audit, update. by rewrite run_act. Qed.
Lemma run_require_agent id b :
  run (require_agent id) b = Some (match get_agent false (d_agents (bus_dir b)) id with Some a => inr a | None => inl A2AForbidden end, b).
Proof. unfold require_agent. rewrite run_bind, run_db. by destruct (get_agent _ _ _). Qed.

Lemma agents_of_project_ids b project : map_Forall (fun id a => ag_id a = id) (d_agents (bus_dir b)) ->
  NoDup (d_newest (bus_dir b)) ->
  sublist (ag_id <$> agents_of_project b project) (d_newest (bus_dir b)) /\
  forall t, t ∈ agents_of_project b project -> get_agent false (d_agents (bus_dir b)) (ag_id t) = Some t.
Proof.
  intros Hkeys _. unfold agents_of_project. split.
  - induction (d_newest (bus_dir b)) as [|i l IH]; [constructor|]. cbn [omap list_omap].
    destruct (get_agent false (d_agents (bus_dir b)) i) as [a|] eqn:E; [|by apply sublist_cons]. cbn [List.filter].
    assert (ag_id a = i) as <-.
    { by apply (get_agent_keyed (bus_dir b) Hkeys). }
    case_match; [by apply sublist_skip|by apply sublist_cons].
  - intros t Ht%list_elem_of_In. apply filter_In in Ht as [Ht _]. apply list_elem_of_In, list_elem_of_omap in Ht as (i & _ & Hi).
    assert (ag_id t = i) as ->; [|done].
    by apply (get_agent_keyed (bus_dir b) Hkeys).
Qed.

(** * Properties *)

(** The scope check is rule R9.17: a call is allowed exactly within one live project,
    to the agent itself or between two agents that take part in agent-to-agent traffic
    and either share the invocation context or the callee's configuration, read as the
    wake-up engine reads it, is call-only. *)
Theorem scope_decides c : (evaluate c).1 = true <-> scope_rule c.
Proof. apply evaluate_rule. Qed.

(** However the hops are relayed, nested synchronous calls never come back to an
    agent already on the stack and are never more than eight deep; the depth on the
    envelope is the length of its path. *)
Theorem call_chain_bounded base (Hstack : call_stack base) :
  base.1 = Z.of_nat (length base.2) /\ NoDup base.2 /\ base.1 <= A2A_CALL_MAX_DEPTH /\
  forall callee, (exists next, next_hop callee base = inr next) <-> callee ∉ base.2 /\ base.1 < A2A_CALL_MAX_DEPTH.
Proof.
  destruct (call_stack_ok base Hstack) as (H1 & H2 & H3). split_and!; [done..|]. intros callee. unfold next_hop.
  case_bool_decide as Hin; [naive_solver|]. destruct (A2A_CALL_MAX_DEPTH <? base.1 + 1) eqn:E; split;
    [by intros [? [=]]|intros [_ ?]; lia|intros _; split; [done|lia]|by eexists].
Qed.

Section claims.
Context `{!Codec uuid, !Codec Z}.
Abbreviation reaches d role := (reach (user_program (fun p => role_code (role p))) (fun _ b => b) passes (fun _ _ => True) (mkConf (quiet_bus d) ∅)).

(** C10. Tenants do not reach each other's agents.  Whatever sends, calls, notifications,
    broadcasts and replies run at once, every entry of every inbox stream was addressed
    within one live project to a participating agent (or to the sender itself), or by a
    workflow run of the project that owns the callee, or is the reply of a live agent. *)
Theorem inbox_tenant_isolation d role c to e
    (Hkeys : map_Forall (fun id a => ag_id a = id) (d_agents d)) (Hreach : reaches d role c)
    (He : (to, e) ∈ bus_inbox (world c)) : permitted d to e.
Proof. apply (users_good d _ (fun p r _ => role_promise (role p) r)) in Hreach as [Hi _];
  [by apply (iv_inbox d _ Hi)|intros p; by apply spec_role|intros p e' b; by destruct (role p)].
Qed.

(** C9. A synchronous call that returns an answer returns one its callee sent: whatever
    other processes hand to the rendezvous, forged replies and cancellations included,
    no answer of another agent ends the call. *)
Theorem call_answered_by_callee d role c p ambient request answer
    (Hkeys : map_Forall (fun id a => ag_id a = id) (d_agents d)) (Hreach : reaches d role c)
    (Hrole : role p = Caller ambient request) (Hdone : pool c !! p = Some (Done (inr answer))) :
  exists v, dict_get "from_agent"%string answer = Some v /\ py_str v = Ok (show (cl_to request)).
Proof.
  apply (users_good d _ (fun p r _ => role_promise (role p) r)) in Hreach; [|intros q; by apply spec_role|intros q e' b; by destruct (role q)].
  pose proof (good_done _ _ _ _ _ _ Hreach Hdone) as H. cbv beta in H. rewrite Hrole in H. unfold role_promise in H.
  unfold from_callee, from_is, dict_get_none in H. destruct (dict_get "from_agent" answer) as [v|]; [|done]. exists v. split; [done|].
  simpl in H. destruct v; try done; destruct (py_str _); try done; apply String.eqb_eq in H; by subst.
Qed.

(** A broadcast appends at most one entry to an inbox, at most a hundred in all, and
    none to its sender's; the entries go to agents of the sender's project that take
    part in agent-to-agent traffic, whatever fails on the way. *)
Theorem broadcast_bounded e ctx b r b'
    (Hnewest : NoDup (d_newest (bus_dir b))) (Hkeys : map_Forall (fun id a => ag_id a = id) (d_agents (bus_dir b)))
    (Hrun : run (broadcast e ctx) b = Some (r, b')) :
  exists new, bus_inbox b' = bus_inbox b ++ new /\ (length new <= A2A_BROADCAST_MAX_RECIPIENTS)%nat /\ NoDup (fst <$> new) /\
    forall to, to ∈ fst <$> new -> e_from_agent e <> Some to /\
      exists t, get_agent false (d_agents (bus_dir b)) to = Some t /\ ag_a2a_enabled t = true.
Proof.
  set (goal := exists new, _).
  assert (Hnone : bus_inbox b' = bus_inbox b -> goal).
  { intros Hb. exists []. rewrite app_nil_r. simpl. split_and!; [done|lia|constructor|by intros to ?%elem_of_nil]. }
  unfold broadcast in Hrun. destruct (e_from_agent e) as [from|] eqn:He; [|injection Hrun as _ <-; by apply Hnone].
  rewrite run_bind, run_require_agent in Hrun. destruct (get_agent _ _ from) as [caller|] eqn:Ec; [|injection Hrun as _ <-; by apply Hnone].
  rewrite run_bind, run_db in Hrun. cbv beta iota in Hrun. case_bool_decide; cbn [negb] in Hrun;
    [|rewrite run_bind, run_audit in Hrun; injection Hrun as _ <-; by apply Hnone].
  rewrite !run_bind, run_db in Hrun. cbv beta iota in Hrun. rewrite run_bind, run_db in Hrun. cbv beta iota in Hrun.
  rewrite run_bind in Hrun. destruct (run (fan_out _ _ _ _ _ _) b) as [[out b1]|] eqn:Ef; [|done].
  apply fan_out_inbox in Ef as (new & H1 & H2 & H3); [|simpl; lia].
  assert (bus_inbox b' = bus_inbox b1) as Hb'.
  { destruct out as [err|out]; [by injection Hrun as _ <-|]. rewrite run_bind, run_audit in Hrun. by injection Hrun as _ <-. }
  destruct (agents_of_project_ids b (ag_project_id caller) Hkeys Hnewest) as [Hsub Hget].
  assert (Hcaller : ag_id caller = from).
  { by apply (get_agent_keyed (bus_dir b) Hkeys). }
  exists new. rewrite Hb'. split_and!; [done|simpl in H3; unfold max_recipients in H3; lia| |].
  - eapply sublist_NoDup; [|exact H2]. eapply sublist_NoDup; [exact Hnewest|]. etrans; [|exact Hsub].
    apply fmap_sublist. clear. induction (agents_of_project b (ag_project_id caller)) as [|x l IH]; simpl; [done|].
    case_match; [by apply sublist_skip|by apply sublist_cons].
  - intros to Hto. eapply elem_of_sublist in Hto; [|exact H2]. apply list_elem_of_fmap in Hto as (t & -> & Ht).
    apply list_elem_of_In, filter_In in Ht as [Ht Hel]. apply andb_true_iff in Hel as [Hne Hen].
    split; [|exists t; split; [apply Hget; by apply list_elem_of_In|done]]. intros [= ->].
    apply negb_true_iff, Pos.eqb_neq in Hne. congruence.
Qed.
End claims.

(** ** Notifications *)
Lemma ltrim_app_l {A} (l m : list A) : ltrim (ltrim l ++ m) = ltrim (l ++ m).
Proof.
  unfold ltrim. rewrite !length_app, length_drop.
  destruct (decide (length l <= MAX_PENDING)%nat) as [H|H].
  - replace (length l - MAX_PENDING)%nat with 0%nat by lia. by rewrite drop_0, Nat.sub_0_r.
  - replace (length l - (length l - MAX_PENDING) + length m - MAX_PENDING)%nat with (length m) by lia.
    replace (length l + length m - MAX_PENDING)%nat with ((length l - MAX_PENDING) + length m)%nat by lia.
    rewrite <- drop_drop. f_equal. by rewrite drop_app_le by lia.
Qed.
Lemma ltrim_app_r {A} (l m : list A) : ltrim (l ++ ltrim m) = ltrim (l ++ m).
Proof.
  unfold ltrim. rewrite !length_app, length_drop.
  destruct (decide (length m <= MAX_PENDING)%nat) as [H|H].
  - replace (length m - MAX_PENDING)%nat with 0%nat by lia. by rewrite drop_0, Nat.sub_0_r.
  - replace (length l + (length m - (length m - MAX_PENDING)) - MAX_PENDING)%nat with (length l) by lia.
    rewrite drop_app_length. rewrite drop_app_ge by lia. f_equal. lia.
Qed.

Fixpoint push_all (agent : uuid) (notes : list pydict) : proc unit :=
  match notes with [] => mret tt | n :: notes => _ ← push agent n; push_all agent notes end.
Lemma run_answered {A} (f : Bus -> A * Bus) b : bus_fates b = [] -> run (redis f) b = Some (inr (f b).1, (f b).2).
Proof. intros H. unfold redis. rewrite run_act, H. destruct b. simpl in *. by subst. Qed.
Lemma ltrim_short {A} (l : list A) : (length l <= MAX_PENDING)%nat -> ltrim l = l.
Proof. intros H. unfold ltrim. replace (length l - MAX_PENDING)%nat with 0%nat by lia. apply drop_0. Qed.
Lemma ltrim_length {A} (l : list A) : (length (ltrim l) <= MAX_PENDING)%nat.
Proof. unfold ltrim. rewrite length_drop. lia. Qed.
Lemma queue_of_set b agent l : queue_of (set_pending (insert agent l) b) agent = l.
Proof. unfold queue_of. simpl. by rewrite lookup_insert_eq. Qed.
Lemma push_all_queue agent notes : forall b, bus_fates b = [] -> (length (queue_of b agent) <= MAX_PENDING)%nat ->
  exists b', run (push_all agent notes) b = Some (inr tt, b') /\ bus_fates b' = [] /\
    queue_of b' agent = ltrim (queue_of b agent ++ (VDict <$> notes)).
Proof.
  induction notes as [|n notes IH]; intros b Hf Hq; simpl.
  - exists b. rewrite app_nil_r, ltrim_short by done. done.
  - set (b1 := set_pending (insert agent (ltrim (queue_of b agent ++ [VDict n]))) b).
    destruct (IH b1) as (b' & H1 & H2 & H3); [done|unfold b1; rewrite queue_of_set; apply ltrim_length|].
    exists b'. change (run (push_all agent (n :: notes)) b = Some (inr tt, b') /\ bus_fates b' = [] /\
      queue_of b' agent = ltrim (queue_of b agent ++ VDict n :: (VDict <$> notes))).
    cbn [push_all]. unfold push. rewrite run_bind, run_answered by done. split; [exact H1|]. split; [done|].
    rewrite H3. unfold b1. rewrite queue_of_set, ltrim_app_l, <- app_assoc. done.
Qed.

(** A turn that drains its agent's notifications and gives them back leaves the queue
    as if it had never been drained: those given back come before what arrived in the
    meantime, and where all of them do not fit the oldest are dropped, never the newest. *)
Theorem requeue_undoes_drain b agent q arrivals
    (Hfates : bus_fates b = []) (Hq : queue_of b agent = VDict <$> q) (Hlen : (length q <= MAX_PENDING)%nat) :
  exists b1 b2 b3 b4,
    run (drain agent) b = Some (inr q, b1) /\ run (push_all agent arrivals) b1 = Some (inr tt, b2) /\
    run (requeue agent q) b2 = Some (inr tt, b3) /\ run (push_all agent arrivals) b = Some (inr tt, b4) /\
    queue_of b3 agent = queue_of b4 agent /\ (length (queue_of b3 agent) <= MAX_PENDING)%nat /\
    exists dropped, q ++ arrivals = dropped ++ drop (length q + length arrivals - MAX_PENDING) (q ++ arrivals) /\
      queue_of b3 agent = VDict <$> drop (length q + length arrivals - MAX_PENDING) (q ++ arrivals).
Proof.
  destruct (push_all_queue agent arrivals (set_pending (delete agent) b)) as (b2 & Hp2 & Hf2 & Hq2); [done| |].
  { unfold queue_of. simpl. rewrite lookup_delete_eq. simpl. lia. }
  destruct (push_all_queue agent arrivals b) as (b4 & Hp4 & Hf4 & Hq4); [done|rewrite Hq, length_fmap; done|].
  assert (Hempty : queue_of (set_pending (delete agent) b) agent = []) by (unfold queue_of; simpl; by rewrite lookup_delete_eq).
  rewrite Hempty in Hq2. simpl in Hq2. rewrite Hq in Hq4.
  assert (Hfinal : ltrim ((VDict <$> q) ++ (VDict <$> arrivals)) = VDict <$> drop (length q + length arrivals - MAX_PENDING) (q ++ arrivals)).
  { rewrite <- fmap_app. unfold ltrim. rewrite length_fmap, length_app. by rewrite fmap_drop. }
  assert (Hreq : exists b3, run (requeue agent q) b2 = Some (inr tt, b3) /\ queue_of b3 agent = ltrim ((VDict <$> q) ++ (VDict <$> arrivals))).
  { destruct q as [|n q]; [exists b2; by rewrite Hq2|]. unfold requeue. rewrite run_answered by done. eexists. split; [done|].
    cbn [snd]. rewrite queue_of_set, Hq2. apply ltrim_app_r. }
  destruct Hreq as (b3 & Hr3 & Hq3). exists (set_pending (delete agent) b), b2, b3, b4. split_and!; [|done..| | |].
  - unfold drain. rewrite run_answered by done. cbn [fst snd]. rewrite Hq. f_equal. f_equal. f_equal.
    clear. induction q as [|n q IH]; [done|]. cbn [fmap list_fmap omap list_omap]. by f_equal.
  - by rewrite Hq3, Hq4.
  - rewrite Hq3. apply ltrim_length.
  - exists (firstn (length q + length arrivals - MAX_PENDING)%nat (q ++ arrivals)). split; [by rewrite firstn_skipn|by rewrite Hq3].
Qed.

(** * Witnesses

    Two agents of project 1 and one of project 2; run 9 belongs to project 1. *)
Definition helper (id project : uuid) (enabled : bool) (config : pydict) : Agent := mkAgent id project enabled [] config false.
Definition callable : pydict := [("triggers", VDict [("call_only", VDict [("enabled", VBool true)])])]%string.
Definition office : Directory :=
  mkDirectory (list_to_map [(1%positive, helper 1 1 true []); (2%positive, helper 2 1 true callable); (3%positive, helper 3 2 true callable)])
    [3; 2; 1]%positive {[1%positive; 2%positive]} ∅ {[9%positive := mkRunRow 1 (Some 100) {[1%positive; 2%positive]}]}.
Lemma office_keyed : map_Forall (fun id a => ag_id a = id) (d_agents office).
Proof. apply (bool_decide_unpack _). vm_compute. exact I. Qed.

Lemma call_chain_bounded_witness :
  NoDup ["a"; "b"]%string /\ next_hop "a" (2, ["a"; "b"]%string) = inl A2ACallLoop.
Proof.
  assert (Hs : call_stack (2, ["a"; "b"]%string)).
  { eapply (cs_hop (1, ["a"]%string) "b"); [eapply (cs_hop (0, []) "a"); [constructor|done]|done]. }
  destruct (call_chain_bounded _ Hs) as (_ & H & _). split; [exact H|done].
Defined.

(** Agent 1 asks agent 2, whose reply competes with a forged one of agent 3. *)
Definition question : CallRequest := mkCall (Some 1%positive) 2 [("input", VStr "?")]%string None 300 None ∅ None None 0 [].
Definition answer_of (from : uuid) : pydict := [("from_agent", VStr (show from)); ("payload", VDict [("reply", VStr "!")])]%string.
Definition cast (p : positive) : Role :=
  match p with
  | 1%positive => Caller (0, []) question
  | 2%positive => Deliverer 2 (answer_of 3)
  | 3%positive => Deliverer 2 (answer_of 2)
  | _ => Sender (mkEnv 50 (Some 1%positive) (VStr (show 3%positive)) None M_NOTIFY (VDict []) 51 0 0 [] 0 []) ∅ None
  end.
Definition contest : list positive := 
  (replicate 9 1%positive ++ replicate 3 2%positive ++ replicate 4 3%positive ++ replicate 2 1%positive ++ replicate 5 4%positive)%list.
Definition contest_end := steps (fun p => role_code (cast p)) contest (mkConf (quiet_bus office) ∅).

Lemma inbox_tenant_isolation_witness :
  exists c e, reach (user_program (fun p => role_code (cast p))) (fun _ b => b) passes (fun _ _ => True) (mkConf (quiet_bus office) ∅) c /\
    bus_inbox (world c) = [(2%positive, e)] /\ permitted office 2 e.
Proof.
  assert (Hin : (fun c => bus_inbox (world c)) <$> contest_end = Some [(2%positive,
    mkEnv 1 (Some 1%positive) (VStr (show 2%positive)) None M_CALL (VDict [("input", VStr "?")]%string) 2 0 1 [VStr (show 2%positive)] 0 [])])
    by (vm_compute; reflexivity).
  unfold contest_end in Hin. destruct (steps (fun p => role_code (cast p)) contest (mkConf (quiet_bus office) ∅)) as [c|] eqn:E; [|discriminate].
  simpl in Hin. injection Hin as Hin. eexists c, _. split; [by eapply steps_reach|]. split; [exact Hin|].
  eapply (inbox_tenant_isolation office cast c); [apply office_keyed|by eapply steps_reach|]. rewrite Hin. apply list_elem_of_here.
Defined.

Definition answer_at (c : conf OrchestrationError Bus pydict) (p : positive) : option pydict :=
  match pool c !! p with Some (Done (inr a)) => Some a | _ => None end.
Lemma answer_at_done c p a : answer_at c p = Some a -> pool c !! p = Some (Done (inr a)).
Proof. unfold answer_at. destruct (pool c !! p) as [[[err|x]|f]|]; try done. by intros [= ->]. Qed.
Lemma call_answered_by_callee_witness :
  exists c answer, reach (user_program (fun p => role_code (cast p))) (fun _ b => b) passes (fun _ _ => True) (mkConf (quiet_bus office) ∅) c /\
    pool c !! 1%positive = Some (Done (inr answer)) /\
    exists v, dict_get "from_agent"%string answer = Some v /\ py_str v = Ok (show 2%positive).
Proof.
  assert (Hans : (fun c => answer_at c 1) <$> contest_end = Some (Some (answer_of 2)))
    by (vm_compute; reflexivity).
  unfold contest_end in Hans. destruct (steps (fun p => role_code (cast p)) contest (mkConf (quiet_bus office) ∅)) as [c|] eqn:E; [|discriminate].
  cbn [fmap option_fmap option_map] in Hans. apply (inj Some), answer_at_done in Hans.
  exists c, (answer_of 2). split; [by eapply steps_reach|]. split; [exact Hans|].
  apply (call_answered_by_callee office cast c 1 (0, []) question (answer_of 2)); [apply office_keyed|by eapply steps_reach|done|exact Hans].
Defined.

Definition announcement : Envelope := mkEnv 60 (Some 1%positive) (VStr "broadcast:workspace") None M_NOTIFY (VDict []) 61 0 0 [] 0 [].
Lemma broadcast_bounded_witness :
  exists r b' new, run (broadcast announcement None) (quiet_bus office) = Some (r, b') /\ bus_inbox b' = new /\
    (length new <= A2A_BROADCAST_MAX_RECIPIENTS)%nat /\ fst <$> new = [2%positive].
Proof.
  assert (Hids : match run (broadcast announcement None) (quiet_bus office) with Some (_, b) => fst <$> bus_inbox b | None => [] end = [2%positive])
    by (vm_compute; reflexivity).
  destruct (run (broadcast announcement None) (quiet_bus office)) as [[r b']|] eqn:E; [|discriminate].
  destruct (broadcast_bounded announcement None (quiet_bus office) r b') as (new & H1 & H2 & _);
    [apply (bool_decide_unpack _); vm_compute; exact I|apply office_keyed|exact E|].
  simpl in H1. exists r, b', new. split; [done|]. split; [done|]. split; [done|]. by rewrite <- H1.
Defined.

Definition note_of (s : string) : pydict := [("kind", VStr s)]%string.
Definition waiting_bus : Bus :=
  mkBus office (mkRendezvous ∅ ∅ ∅ ∅ ∅) [] {[1%positive := [VDict (note_of "ballot")]]} ∅ [] 0 1 [] [].
Lemma requeue_undoes_drain_witness :
  exists b1 b2 b3, run (drain 1) waiting_bus = Some (inr [note_of "ballot"], b1) /\
    run (push_all 1 [note_of "notify"]) b1 = Some (inr tt, b2) /\ run (requeue 1 [note_of "ballot"]) b2 = Some (inr tt, b3) /\
    queue_of b3 1 = [VDict (note_of "ballot"); VDict (note_of "notify")].
Proof.
  destruct (requeue_undoes_drain waiting_bus 1 [note_of "ballot"] [note_of "notify"]) as (b1 & b2 & b3 & b4 & H1 & H2 & H3 & _ & _ & _ & dr & _ & H5);
    [done|by vm_compute|by vm_compute; lia|]. exists b1, b2, b3. by split_and!.
Defined.
