(* ===== verification/Instruct.v ===== *)
(** * Instructions between agents

    [contexts/orchestration/application/instruct_service.py] with its chain context
    [instruct_chain.py] and its repository, and the handler of inbox messages
    [a2a_handler.py], on the transport of [A2A].  A context variable is an argument: the
    chain a handler binds for a turn is handed to the turn.  The turn itself belongs to
    the turn engine and is a parameter. *)

From S2P Require Import Prelude PyFloat PyValue OrchBase Envelope Interleave A2A.

(** ** The repository *)

(** The identifier drawn for a row is drawn in the step that inserts it: until then only
    this call knows it. *)
Definition instruction_insert (chain : uuid) (path : list uuid) (issuer target : uuid) (payload : pydict)
    (state : InstructionState) : proc Instruction := act (fun b =>
  let i := mkInstruction (bus_next b) chain path (Z.of_nat (length path)) issuer target payload state (bus_now b) None in
  (inr i, set_next Pos.succ (set_instructions (insert (in_id i) i) b))).
Definition instruction_get (id : uuid) : proc (option Instruction) := db (fun b => bus_instructions b !! id).
Definition instruction_delete (id : uuid) : proc unit := update (set_instructions (delete id)).
(** [cas_update], and the read that tells an absent row from a rejected transition. *)
Definition instruction_cas (id : uuid) (s : InstructionState) : proc bool := act (fun b =>
  match bus_instructions b !! id with
  | Some i =>
      if bool_decide (in_state i ∈ allowed_predecessors s)
      then (inr true, set_instructions (insert id (settle s (match s with I_ISSUED | I_DELIVERED => None | _ => Some (bus_now b) end) i)) b)
      else (inr false, b)
  | None => (inr false, b)
  end).
Definition instruction_update_state (id : uuid) (s : InstructionState) : proc bool :=
  won ← instruction_cas id s;
  if won : bool then mret true
  else
    current ← instruction_get id;
    match current with None => raise OrchValueError | Some _ => mret false end.

Definition rows (b : Bus) : list Instruction := (map_to_list (bus_instructions b)).*2.
Definition count_issued_by_agent_since (b : Bus) (agent : uuid) (since : Z) : Z :=
  Z.of_nat (length (List.filter (fun i => Pos.eqb (in_issuer i) agent && (since <=? in_issued_at i)) (rows b))).
(** [min(issued_at)] of a chain. *)
Definition get_chain_start_time (b : Bus) (chain : uuid) : option Z :=
  match List.filter (fun i => Pos.eqb (in_chain_id i) chain) (rows b) with
  | [] => None
  | i :: l => Some (foldr (fun i m => Z.min (in_issued_at i) m) (in_issued_at i) l)
  end.

(** ** Issuing *)
Record IssueRequest := mkIssue {
  iq_issuer : uuid;
  iq_target : uuid;
  iq_payload : pydict;
  iq_run : option uuid;
  iq_chain : option uuid;
  iq_parent_path : list uuid;
  iq_wakeup_started_at : option Z;
  iq_max_chain_depth : Z;
  iq_max_per_wakeup : Z;
  iq_max_chain_seconds : Z;
  iq_trigger_depth : Z;
  iq_trigger_path : list pyval;
}.

(** The chain an in-turn instruct inherits, where none is supplied. *)
Definition inherited (current : option uuid * list uuid) (q : IssueRequest) : option uuid * list uuid :=
  match iq_chain q, iq_parent_path q with
  | None, [] => match current.1 with Some c => (Some c, current.2) | None => (None, []) end
  | c, p => (c, p)
  end.
Definition run_started_at (run : uuid) : proc (option Z) := db (fun b => d_runs (bus_dir b) !! run ≫= rr_started_at).

Section texts.
Context `{!Codec uuid, !Codec Z}.

Definition instruct_payload (id chain : uuid) (path : list uuid) (payload : pydict) : pydict :=
  dict_update [("instruction_id", VStr (show id)); ("chain_id", VStr (show chain));
               ("path", VList (map (fun p => VStr (show p)) path)); ("depth", VInt (Z.of_nat (length path)))]%string payload.

(** Rule 3: the issuing window is the wakeup, or the run where there is none. *)
Definition window_spent (q : IssueRequest) : proc bool :=
  window ← match iq_wakeup_started_at q, iq_run q with
           | None, Some run => run_started_at run
           | started, _ => mret started
           end;
  match window with
  | Some since =>
      count ← db (fun b => count_issued_by_agent_since b (iq_issuer q) since);
      mret (iq_max_per_wakeup q <=? count)
  | None => mret false
  end.
(** Rule 4. *)
Definition chain_expired (q : IssueRequest) (chain : uuid) : proc bool :=
  chain_start ← db (fun b => get_chain_start_time b chain);
  now ← db bus_now;
  mret match chain_start with Some t => iq_max_chain_seconds q <=? now - t | None => false end.

Definition record_and_dispatch (q : IssueRequest) (chain : uuid) (path : list uuid) : proc Instruction :=
  instruction ← instruction_insert chain path (iq_issuer q) (iq_target q) (iq_payload q) I_ISSUED;
  id ← uuid4;
  corr ← uuid4;
  now ← db bus_now;
  let e := mkEnv id (Some (iq_issuer q)) (VStr (show (iq_target q))) (iq_run q) M_INSTRUCT
             (VDict (instruct_payload (in_id instruction) chain path (iq_payload q)))
             corr now 0 [] (iq_trigger_depth q) (iq_trigger_path q) in
  _ ← catch (send e ∅ None) (fun err =>
        _ ← catch (instruction_delete (in_id instruction)) (fun _ => mret tt); raise err);
  _ ← audit "instruct.issued";
  mret instruction.

Definition issue (current : option uuid * list uuid) (q : IssueRequest) : proc Instruction :=
  issuer ← db (fun b => get_agent false (d_agents (bus_dir b)) (iq_issuer q));
  if negb (agent_has_capability issuer can_instruct) then
    _ ← audit "instruct.forbidden"; raise InstructCapabilityDenied
  else
    chain_id ← match (inherited current q).1 with Some c => mret c | None => uuid4 end;
    let new_path := (inherited current q).2 ++ [iq_issuer q] in
    let depth := Z.of_nat (length new_path) in
    let effective_depth := Z.min (iq_max_chain_depth q) INSTRUCT_MAX_CHAIN_DEPTH_HARD in
    if bool_decide (iq_target q ∈ new_path) then
      _ ← instruction_insert chain_id new_path (iq_issuer q) (iq_target q) (iq_payload q) I_REJECTED_LOOP;
      _ ← audit "instruct.rejected_loop"; raise InstructLoopDetected
    else if effective_depth <=? depth then raise InstructBudgetExceeded
    else
      spent ← window_spent q;
      if (spent : bool) then _ ← audit "instruct.budget_exceeded"; raise InstructBudgetExceeded
      else
        expired ← chain_expired q chain_id;
        if (expired : bool) then raise InstructBudgetExceeded
        else record_and_dispatch q chain_id new_path.
End texts.

(** ** Settling *)
Definition audit_terminal_conflict (id : uuid) : proc unit :=
  current ← instruction_get id;
  match current with
  | Some i => if negb (instruction_terminal (in_state i)) then mret tt else audit "instruct.terminal_conflict"
  | None => audit "instruct.terminal_conflict"
  end.
(** [mark_delivered], [mark_completed], [mark_timeout] *)
Definition mark (s : InstructionState) (id : uuid) : proc bool :=
  won ← instruction_update_state id s;
  if won : bool then mret true else _ ← audit_terminal_conflict id; mret false.
Definition mark_failed (id : uuid) : proc bool :=
  won ← instruction_update_state id I_TIMEOUT;
  if won : bool then _ ← audit "instruct.failed"; mret true
  else _ ← audit_terminal_conflict id; mret false.

Definition enqueue (j : BusJob) : proc unit := redis (fun b => (tt, set_jobs (fun l => l ++ [j]) b)).
(** The deadline job of a parked instruct node ([workflow_instruct_timeout]). *)
Definition workflow_instruct_timeout (id : uuid) : proc string :=
  timed_out ← catch (won ← mark I_TIMEOUT id; mret (Some won))
                (fun err => if decide (err = OrchValueError) then mret None else raise err);
  match timed_out with
  | None => mret "noop:gone"%string
  | Some won => _ ← enqueue (J_resume_instruct id); mret (if won : bool then "timed_out" else "already_settled")%string
  end.
(** The port [workflow_resume_instruct] leaves a settled instruct node by. *)
Definition instruct_port (s : InstructionState) : option string :=
  match s with
  | I_COMPLETED => Some "success"%string
  | I_TIMEOUT | I_REJECTED_LOOP => Some "failure"%string
  | _ => None
  end.

(** ** The inbox handler *)
Record TurnResult := mkTurnResult {
  tr_status : string;
  tr_reason : option string;
  tr_text : string;
  tr_synthesis_failed : bool;
  tr_error_kind : option string;
}.
Inductive TurnInput := Input (text : string) | InputJson (payload : pydict).
Record TurnRequest := mkTurnRequest {
  tq_agent : uuid;
  tq_input : TurnInput;
  tq_parent : option uuid;
  tq_run : option uuid;
  tq_cancel : option uuid;  (** the call whose cancellation is polled *)
}.

Definition maybe_uuid `{!Codec uuid} (v : pyval) : option uuid :=
  if py_bool v then match py_str v with Ok s => read s | _ => None end else None.

(** [_input_from_payload]: the first text field, else the payload as JSON. *)
Fixpoint first_text (keys : list string) (payload : pydict) : option string :=
  match keys with
  | [] => None
  | k :: keys =>
      match dict_get_none k payload with
      | VStr s => if String.eqb s "" then first_text keys payload else Some s
      | _ => first_text keys payload
      end
  end.
Definition input_from_payload (payload : pydict) : TurnInput :=
  match first_text ["input"; "message"; "text"; "content"]%string payload with Some s => Input s | None => InputJson payload end.

Section handler.
Context `{!Codec uuid, !Codec Z}.
(** A turn, under the call chain and the instruct chain bound around it. *)
Context (turn : Z * list pyval -> option uuid * list uuid -> TurnRequest -> proc TurnResult).

(** [try: m except Exception] *)
Definition attempt {A} (m : proc A) : proc (OrchestrationError + A) := handle m (fun r => mret r).

(** A payload without [get] raises; the classes the orchestration catches do not cover it. *)
Definition run_turn (calls : Z * list pyval) (chain : option uuid * list uuid) (to : uuid) (e : Envelope) : proc TurnResult :=
  match e_payload e with
  | VDict payload =>
      turn calls chain (mkTurnRequest to (input_from_payload payload) (e_from_agent e) (e_workflow_run_id e)
        (if decide (e_type e = M_CALL) then Some (e_correlation_id e) else None))
  | _ => raise Infra
  end.

Definition error_reply (e : Envelope) (detail : string) : pydict :=
  [("type", VStr "reply"); ("from_agent", e_to_agent e); ("to_agent", show_opt (e_from_agent e));
   ("correlation_id", VStr (show (e_correlation_id e)));
   ("payload", VDict [(A2A_ERROR_KEY, VStr "agent call failed"); ("detail", VStr detail)])]%string.
Definition deliver_error (e : Envelope) (detail : string) : proc unit :=
  catch (deliver_reply (e_correlation_id e) (error_reply e detail)) (fun _ => mret tt).

Definition turn_reply (e : Envelope) (r : TurnResult) : pydict :=
  let flag := match tr_error_kind r with
    | Some k => if String.eqb k "" then "synthesis_failed"%string else k
    | None => "synthesis_failed"%string
    end in
  app (A := string * pyval)
    [("type", VStr "reply"); ("from_agent", e_to_agent e); ("to_agent", show_opt (e_from_agent e));
     ("correlation_id", VStr (show (e_correlation_id e))); ("reply", VStr (tr_text r));
     ("payload", VDict [("reply", VStr (tr_text r)); ("output", VStr (tr_text r))])]%string
    (if tr_synthesis_failed r then [("synthesis_failed", VBool true); ("synthesis_error", VStr flag)]%string else []).
Definition failure_detail (r : TurnResult) : string :=
  unchars (strip_chars is_space (chars ("agent turn " ++ tr_status r ++ ": " ++ default "" (tr_reason r))%string)).

Definition handle_call (e : Envelope) : proc unit :=
  match as_uuid (e_to_agent e) with
  | Raise ValueError => deliver_error e "call target is not a valid agent id"
  | Ok to =>
      result ← attempt (run_turn (e_call_depth e, e_call_path e) (None, []) to e);
      match result with
      | inl _ => deliver_error e "agent turn failed"
      | inr r =>
          if String.eqb (tr_status r) "skipped" && match tr_reason r with Some s => String.eqb s "cancelled" | None => false end
          then mret tt
          else if negb (String.eqb (tr_status r) "completed") then deliver_error e (failure_detail r)
          else deliver_reply (e_correlation_id e) (turn_reply e r)
      end
  | _ => raise Infra
  end.

(** What [_handle_instruct] reads back from the payload. *)
Definition payload_field (k : string) (e : Envelope) : proc pyval :=
  match e_payload e with VDict d => mret (dict_get_none k d) | _ => raise Infra end.
Definition payload_path (e : Envelope) : proc (list uuid) :=
  v ← payload_field "path" e;
  match as_tuple v with Ok l => mret (omap maybe_uuid l) | _ => raise Infra end.

Definition settle_turn (instruction_id : uuid) (r : TurnResult) : proc bool :=
  if String.eqb (tr_status r) "completed" then mark I_COMPLETED instruction_id else mark_failed instruction_id.

Definition handle_instruct (e : Envelope) : proc unit :=
  match as_uuid (e_to_agent e) with
  | Raise ValueError => mret tt
  | Ok to =>
      v ← payload_field "instruction_id" e;
      let instruction_id := maybe_uuid v in
      _ ← match instruction_id with Some id => _ ← mark I_DELIVERED id; mret tt | None => mret tt end;
      chain ← payload_field "chain_id" e;
      parent_path ← payload_path e;
      result ← run_turn (0, []) (maybe_uuid chain, parent_path) to e;
      match instruction_id with
      | Some id => _ ← settle_turn id result; catch (enqueue (J_resume_instruct id)) (fun _ => mret tt)
      | None => mret tt
      end
  | _ => raise Infra
  end.

Definition signal_payload (e : Envelope) (payload : pydict) (to : string) : pydict :=
  [("target_agent_id", VStr to); ("msg_type", VStr (message_type_value (e_type e)));
   ("call_depth", VInt (e_call_depth e)); ("call_path", VList (e_call_path e));
   ("chain_id", dict_get_none "chain_id" payload); ("chain_path", dict_get_none "path" payload);
   ("trigger_depth", VInt (e_trigger_depth e)); ("trigger_path", VList (e_trigger_path e))]%string.
Definition dispatch_a2a_workflow_signal (e : Envelope) : proc unit :=
  catch (match e_payload e, py_str (e_to_agent e) with
         | VDict d, Ok to => enqueue (J_workflow_signal (signal_payload e d to))
         | _, _ => raise Infra
         end) (fun _ => mret tt).

Definition handle_envelope (e : Envelope) : proc unit :=
  _ ← dispatch_a2a_workflow_signal e;
  match e_type e with
  | M_REPLY => deliver_reply (e_correlation_id e) (to_dict e)
  | M_CALL => handle_call e
  | M_INSTRUCT => handle_instruct e
  | M_NOTIFY =>
      match as_uuid (e_to_agent e) with
      | Raise ValueError => mret tt
      | Ok to => push to [("kind", VStr "notify"); ("from_agent", show_opt (e_from_agent e)); ("payload", e_payload e)]%string
      | _ => raise Infra
      end
  end.
End handler.
