(* ===== verification/InstructFacts.v ===== *)
(** * Instructions: what holds whoever else is at work

    The rows are well formed and settle once, whatever issuers, inbox handlers, deadline
    jobs and users of the transport do at the same time.  What issuing does alone, branch
    by branch, and that an instruction handled or overdue resumes the run waiting for it,
    is in [InstructClaims]. *)

From S2P Require Import Prelude PyFloat PyValue OrchBase Envelope Interleave A2A A2AFacts Instruct.

Section specs.
Context `{!Codec uuid, !Codec Z} (d : Directory) (Hkeys : map_Forall (fun id a => ag_id a = id) (d_agents d)).
Abbreviation spec := (spec d).
#[local] Hint Resolve kept_and kept_pure kept_next : core.
#[local] Hint Extern 0 (follows ?b ?b) => reflexivity : core.

(** ** The repository *)

(** A row as it is first written. *)
Definition insertable (path : list uuid) (issuer target : uuid) (s : InstructionState) : Prop :=
  list.last path = Some issuer /\ agent_has_capability (get_agent false (d_agents d) issuer) can_instruct = true /\
  (s = I_REJECTED_LOOP /\ target ∈ path \/ s = I_ISSUED /\ target ∉ path /\ Z.of_nat (length path) < INSTRUCT_MAX_CHAIN_DEPTH_HARD).
Lemma insertable_ok id chain path issuer target payload s now : insertable path issuer target s ->
  instruction_ok d (mkInstruction id chain path (Z.of_nat (length path)) issuer target payload s now None).
Proof.
  intros (Hl & Hc & Hs). split; simpl; try done.
  - destruct Hs as [[-> ?]|(-> & ? & ?)]; naive_solver.
  - destruct Hs as [[-> ?]|(-> & ? & ?)]; naive_solver.
  - split; [by intros []|]. destruct Hs as [[-> ?]|(-> & ? & ?)]; intros [|]; done.
Qed.
Lemma spec_insert F chain path issuer target payload s : kept F -> insertable path issuer target s ->
  spec F (instruction_insert chain path issuer target payload s) (fun _ => F).
Proof.
  intros HF Hok. apply spec_act; [done..|]. intros b Hi HFb. pose proof Hi as []. cbn zeta. cbn [fst snd in_id].
  set (i := mkInstruction _ _ _ _ _ _ _ _ _ _). set (b' := set_next _ _).
  assert (Hf : follows b b').
  { split; simpl; [done|lia|done|]. intros id r Hid Hr. rewrite lookup_insert_ne in Hr by lia. exists r. split; [done|by left]. }
  split; [|split; [done|by apply (HF b)]]. split; simpl; try done.
  - intros corr l H. apply iv_replies in H. lia.
  - intros corr r H. apply iv_next in H. lia.
  - intros id r [[<- <-]|[_ H]]%lookup_insert_Some; [split; [lia|by apply insertable_ok]|].
    apply iv_instructions in H as [? ?]. split; [lia|done].
Qed.
Lemma spec_get F id : kept F -> spec F (instruction_get id) (fun _ => F).
Proof. intros HF. by apply spec_db. Qed.
Lemma spec_delete F id : kept F -> spec F (instruction_delete id) (fun _ => F).
Proof.
  intros HF. apply spec_act; [done..|]. intros b Hi HFb. pose proof Hi as []. simpl.
  assert (Hf : follows b (set_instructions (delete id) b)).
  { split; simpl; [done|lia|done|]. intros j r _ [_ Hr]%lookup_delete_Some. exists r. split; [done|by left]. }
  split; [|split; [done|by apply (HF b)]]. split; simpl; try done. intros j r [_ Hr]%lookup_delete_Some. by apply iv_instructions.
Qed.
Lemma settle_ok i s at_ : instruction_ok d i -> in_state i ∈ allowed_predecessors s ->
  (is_Some at_ <-> s = I_COMPLETED \/ s = I_TIMEOUT) -> instruction_ok d (settle s at_ i).
Proof.
  intros [H1 H2 H3 H4 H5 H6] Hs Ha. assert (Hl : in_state i <> I_REJECTED_LOOP /\ s <> I_REJECTED_LOOP).
  { destruct s, (in_state i); set_solver. }
  split; simpl; [done|done| |intros _; apply H4, Hl|done|done]. naive_solver.
Qed.
Lemma spec_cas F id s : kept F -> spec F (instruction_cas id s) (fun _ => F).
Proof.
  intros HF. apply spec_act; [done..|]. intros b Hi HFb. pose proof Hi as [].
  destruct (bus_instructions b !! id) as [i|] eqn:E; [|by split]. case_bool_decide as Hs; [|by split]. simpl.
  set (at_ := match s with I_ISSUED | I_DELIVERED => None | _ => Some (bus_now b) end).
  assert (Hf : follows b (set_instructions (insert id (settle s at_ i)) b)).
  { split; simpl; [done|lia|done|]. intros j r _ [[<- <-]|[_ Hr]]%lookup_insert_Some.
    - exists i. split; [done|]. right. by exists s, at_.
    - exists r. split; [done|by left]. }
  split; [|split; [done|by apply (HF b)]]. split; simpl; try done.
  intros j r [[<- <-]|[_ Hr]]%lookup_insert_Some; [|by apply iv_instructions].
  apply iv_instructions in E as [? Hok]. split; [done|]. apply settle_ok; [done..|].
  unfold at_. destruct s; simpl in *; split; try by intros []. all: try by (intros _; auto). all: try set_solver.
Qed.
Lemma spec_update_state F id s : kept F -> spec F (instruction_update_state id s) (fun _ => F).
Proof.
  intros HF. eapply spec_bind; [by apply spec_cas|]. intros [|]; [by apply spec_ret|].
  eapply spec_bind; [by apply spec_get|]. intros [i|]; [by apply spec_ret|apply spec_raise].
Qed.

(** ** Issuing and settling *)
Lemma spec_audit_then {A} F a e (Q : A -> Bus -> Prop) : kept F -> spec F (_ ← audit a; raise e) Q.
Proof. intros HF. eapply spec_bind; [by apply spec_audit|]. intros ?. apply spec_raise. Qed.
Lemma spec_pure {A} F (P : Prop) (m : proc A) Q : (P -> spec F m Q) -> spec (fun b => F b /\ P) m Q.
Proof. intros H p b Hi [HFb HP]. by apply H. Qed.
Lemma spec_window F q : kept F -> spec F (window_spent q) (fun _ => F).
Proof.
  intros HF. eapply (spec_bind _ _ _ _ (fun _ => F)).
  { destruct (iq_wakeup_started_at q), (iq_run q); [by apply spec_ret..| |by apply spec_ret]. by apply spec_db. }
  intros [since|]; [|by apply spec_ret]. eapply (spec_bind _ _ _ _ (fun _ => F)); [by apply spec_db|]. intros n. by apply spec_ret.
Qed.
Lemma spec_expired F q chain : kept F -> spec F (chain_expired q chain) (fun _ => F).
Proof.
  intros HF. eapply (spec_bind _ _ _ _ (fun _ => F)); [by apply spec_db|]. intros start.
  eapply (spec_bind _ _ _ _ (fun _ => F)); [by apply spec_db|]. intros now. by apply spec_ret.
Qed.
Lemma spec_record F q chain path : kept F -> insertable path (iq_issuer q) (iq_target q) I_ISSUED ->
  spec F (record_and_dispatch q chain path) (fun _ => F).
Proof.
  intros HF Hins. eapply spec_bind; [by apply spec_insert|]. intros i.
  eapply spec_bind; [by apply spec_uuid4|]. intros eid. eapply spec_bind; [by apply spec_uuid4|]. intros corr.
  eapply (spec_bind _ _ _ _ (fun _ => F)); [by apply spec_db|]. intros now.
  eapply (spec_bind _ _ _ _ (fun _ => F)).
  { apply spec_catch; [done|done|by apply spec_send|]. intros err. eapply (spec_bind _ _ _ _ (fun _ => F)); [|intros ?; apply spec_raise].
    apply spec_catch; [done|done|by apply spec_delete|]. intros ?. by apply spec_ret. }
  intros ?. eapply spec_bind; [by apply spec_audit|]. intros ?. by apply spec_ret.
Qed.
Lemma spec_issue F current q : kept F -> spec F (issue current q) (fun _ => F).
Proof.
  intros HF. unfold issue.
  eapply (spec_bind _ _ _ _ (fun issuer b => F b /\ issuer = get_agent false (d_agents d) (iq_issuer q))).
  { apply spec_db; [done|auto|]. intros b [] HFb. by rewrite iv_dir. }
  intros issuer. apply spec_pure. intros ->.
  destruct (agent_has_capability _ can_instruct) eqn:Ecap; cbn [negb]; [|by apply spec_audit_then].
  eapply (spec_bind _ _ _ _ (fun _ => F)); [destruct (inherited current q).1; [by apply spec_ret|by apply spec_uuid4]|].
  intros chain. cbv zeta. set (path := _ ++ _).
  assert (Hlast : list.last path = Some (iq_issuer q)) by (unfold path; apply last_snoc).
  case_bool_decide as Hin.
  { eapply spec_bind; [apply spec_insert; [done|by split_and!; [| |left]]|]. intros ?. by apply spec_audit_then. }
  destruct (_ <=? _) eqn:Edepth; [apply spec_raise|].
  assert (Hins : insertable path (iq_issuer q) (iq_target q) I_ISSUED) by (split_and!; [done|done|right; split_and!; [done|done|lia]]).
  eapply spec_bind; [by apply spec_window|]. intros [|]; [by apply spec_audit_then|].
  eapply spec_bind; [by apply spec_expired|]. intros [|]; [apply spec_raise|by apply spec_record].
Qed.
Lemma spec_conflict F id : kept F -> spec F (audit_terminal_conflict id) (fun _ => F).
Proof.
  intros HF. eapply spec_bind; [by apply spec_get|]. intros [i|]; [|by apply spec_audit].
  destruct (negb _); [by apply spec_ret|by apply spec_audit].
Qed.
Lemma spec_mark F s id : kept F -> spec F (mark s id) (fun _ => F).
Proof.
  intros HF. eapply spec_bind; [by apply spec_update_state|]. intros [|]; [by apply spec_ret|].
  eapply spec_bind; [by apply spec_conflict|]. intros ?. by apply spec_ret.
Qed.
Lemma spec_mark_failed F id : kept F -> spec F (mark_failed id) (fun _ => F).
Proof.
  intros HF. eapply spec_bind; [by apply spec_update_state|]. intros [|].
  - eapply spec_bind; [by apply spec_audit|]. intros ?. by apply spec_ret.
  - eapply spec_bind; [by apply spec_conflict|]. intros ?. by apply spec_ret.
Qed.
Lemma spec_enqueue F j : kept F -> spec F (enqueue j) (fun _ => F).
Proof.
  intros HF. apply spec_redis; [done..|]. intros b [] HFb. simpl.
  assert (Hf : follows b (set_jobs (fun l => l ++ [j]) b)) by (apply follows_same; simpl; [done|lia|done]).
  split; [by split|]. split; [done|by apply (HF b)].
Qed.
Lemma spec_try {A} F (m : proc A) (v : A) : kept F -> spec F m (fun _ => F) -> spec F (catch m (fun _ => mret v)) (fun _ => F).
Proof. intros HF Hm. apply spec_catch; [done|done|done|]. intros ?. by apply spec_ret. Qed.
Lemma spec_timeout_job F id : kept F -> spec F (workflow_instruct_timeout id) (fun _ => F).
Proof.
  intros HF. eapply (spec_bind _ _ _ _ (fun _ => F)).
  - apply spec_catch; [done|done| |].
    + eapply spec_bind; [by apply spec_mark|]. intros w. by apply spec_ret.
    + intros err. case_decide; [by apply spec_ret|apply spec_raise].
  - intros [w|]; [|by apply spec_ret]. eapply spec_bind; [by apply spec_enqueue|]. intros ?. by apply spec_ret.
Qed.

(** ** The inbox handler *)
Context (turn : Z * list pyval -> option uuid * list uuid -> TurnRequest -> proc TurnResult).
Context (Hturn : forall F calls chain request, kept F -> spec F (turn calls chain request) (fun _ => F)).

Lemma spec_run_turn F calls chain to e : kept F -> spec F (run_turn turn calls chain to e) (fun _ => F).
Proof. intros HF. unfold run_turn. destruct (e_payload e); try apply spec_raise. by apply Hturn. Qed.
Lemma spec_attempt {A} F (m : proc A) : kept F -> spec F m (fun _ => F) -> spec F (attempt m) (fun _ => F).
Proof.
  intros HF Hm p. unfold attempt. eapply triple_handle; [apply _| |].
  - eapply triple_conseq; [apply (triple_keep d p F m _ F HF (Hm p))|by intros|]. intros r b _ H. exact H.
  - intros r. eapply triple_conseq; [apply (spec_ret d F r (fun _ => F)); done|by intros b _ [_ H]|done].
Qed.
Lemma spec_deliver F corr r : kept F ->
  spec (fun b => F b /\ (corr < bus_next b)%positive) (deliver_reply corr r) (fun _ b => F b /\ (corr < bus_next b)%positive).
Proof. intros HF. apply spec_deliver_reply; [auto|]. by intros b []. Qed.
Lemma spec_field F k e : kept F -> spec F (payload_field k e) (fun _ => F).
Proof. intros HF. unfold payload_field. destruct (e_payload e); try apply spec_raise. by apply spec_ret. Qed.
Lemma spec_handle_call F e : kept F ->
  spec (fun b => F b /\ (e_correlation_id e < bus_next b)%positive) (handle_call turn e) (fun _ b => F b /\ (e_correlation_id e < bus_next b)%positive).
Proof.
  intros HF. set (G := fun b => _ /\ _). assert (HG : kept G) by (unfold G; auto).
  assert (He : forall s, spec G (deliver_error e s) (fun _ => G)) by (intros s; apply spec_try; [done|by apply spec_deliver]).
  unfold handle_call. destruct (as_uuid _) as [to|x| ]; [|destruct x; try apply spec_raise; apply He|apply spec_raise].
  eapply spec_bind; [apply spec_attempt; [done|by apply spec_run_turn]|]. intros [err|r]; [apply He|].
  destruct (_ && _); [by apply spec_ret|]. destruct (negb _); [apply He|by apply spec_deliver].
Qed.
Lemma spec_handle_instruct F e : kept F -> spec F (handle_instruct turn e) (fun _ => F).
Proof.
  intros HF. unfold handle_instruct. destruct (as_uuid _) as [to|x| ]; [|destruct x; try apply spec_raise; by apply spec_ret|apply spec_raise].
  eapply spec_bind; [by apply spec_field|]. intros v. cbv zeta.
  eapply (spec_bind _ _ _ _ (fun _ => F)).
  { destruct (maybe_uuid v); [|by apply spec_ret]. eapply spec_bind; [by apply spec_mark|]. intros ?. by apply spec_ret. }
  intros ?. eapply spec_bind; [by apply spec_field|]. intros chain.
  eapply (spec_bind _ _ _ _ (fun _ => F)).
  { eapply spec_bind; [by apply spec_field|]. intros p. destruct (as_tuple p); try apply spec_raise. by apply spec_ret. }
  intros path. eapply spec_bind; [by apply spec_run_turn|]. intros r.
  destruct (maybe_uuid v); [|by apply spec_ret].
  eapply (spec_bind _ _ _ _ (fun _ => F)); [unfold settle_turn; destruct (String.eqb _ _); [by apply spec_mark|by apply spec_mark_failed]|].
  intros ?. apply spec_try; [done|by apply spec_enqueue].
Qed.
Lemma spec_push F agent n : kept F -> spec F (push agent n) (fun _ => F).
Proof.
  intros HF. apply spec_redis; [done..|]. intros b [] HFb. simpl.
  assert (Hf : follows b (set_pending (insert agent (ltrim (queue_of b agent ++ [VDict n]))) b)) by (apply follows_same; simpl; [done|lia|done]).
  split; [by split|]. split; [done|by apply (HF b)].
Qed.
Lemma spec_handle_envelope F e : kept F ->
  spec (fun b => F b /\ (e_correlation_id e < bus_next b)%positive) (handle_envelope turn e) (fun _ b => F b /\ (e_correlation_id e < bus_next b)%positive).
Proof.
  intros HF. set (G := fun b => _ /\ _). assert (HG : kept G) by (unfold G; auto).
  unfold handle_envelope. eapply (spec_bind _ _ _ _ (fun _ => G)).
  { apply spec_try; [done|]. destruct (e_payload e); try apply spec_raise. destruct (py_str _); try apply spec_raise. by apply spec_enqueue. }
  intros ?. destruct (e_type e).
  - by apply spec_handle_call.
  - by apply spec_deliver.
  - destruct (as_uuid _) as [to|x| ]; [by apply spec_push|destruct x; try apply spec_raise; by apply spec_ret|apply spec_raise].
  - by apply spec_handle_instruct.
Qed.

End specs.

(** ** Turns

    What a turn does with the bus: it issues instructions, under the chain bound around
    it, and uses the transport; what comes next depends on what came back.  [behave]
    chooses, from the request and the chains. *)
Inductive Turn :=
  | Ends (r : OrchestrationError + TurnResult)
  | Instructs (q : IssueRequest) (k : OrchestrationError + Instruction -> Turn)
  | Transports (r : Role) (k : OrchestrationError + pydict -> Turn).

Section turns.
Context `{!Codec uuid, !Codec Z} (behave : Z * list pyval -> option uuid * list uuid -> TurnRequest -> Turn).

Fixpoint perform (chain : option uuid * list uuid) (t : Turn) : proc TurnResult :=
  match t with
  | Ends r => Done r
  | Instructs q k => r ← attempt (issue chain q); perform chain (k r)
  | Transports u k => r ← attempt (role_code u); perform chain (k r)
  end.
Definition turn (calls : Z * list pyval) (chain : option uuid * list uuid) (request : TurnRequest) : proc TurnResult :=
  perform chain (behave calls chain request).

(** A pool of users of instructions and of the transport. *)
Inductive Duty :=
  | Transport (r : Role)
  | Issuer (current : option uuid * list uuid) (q : IssueRequest)
  | Handler (e : Envelope)        (** an entry of an inbox *)
  | Deadline (id : uuid).
Definition duty_code (u : Duty) : proc (option Instruction) :=
  match u with
  | Transport r => _ ← role_code r; mret None
  | Issuer current q => i ← issue current q; mret (Some i)
  | Handler e =>
      known ← db (fun b => bool_decide (e_correlation_id e < bus_next b)%positive);
      if known : bool then _ ← handle_envelope turn e; mret None else mret None
  | Deadline id => _ ← workflow_instruct_timeout id; mret None
  end.

Context (d : Directory) (Hkeys : map_Forall (fun id a => ag_id a = id) (d_agents d)).
#[local] Hint Resolve kept_and kept_pure kept_next : core.

Lemma spec_perform F chain t : kept F -> spec d F (perform chain t) (fun _ => F).
Proof.
  intros HF. induction t as [[err|r]|q k IH|u k IH]; cbn [perform].
  - apply spec_raise.
  - by apply (spec_ret d F r (fun _ => F)).
  - eapply spec_bind; [apply spec_attempt; [done|by apply spec_issue]|]. intros r. apply IH.
  - eapply (spec_bind _ _ _ _ (fun _ => F)); [|intros r; apply IH].
    intros p. eapply triple_handle; [apply _| |].
    + eapply triple_conseq; [apply (triple_keep d p (fun _ => True) (role_code u) _ F HF (spec_role d Hkeys u p))|by intros|].
      intros r b _ H. exact H.
    + intros r. eapply triple_conseq; [apply (spec_ret d F r (fun _ => F)); done|by intros b _ [_ H]|done].
Qed.
Lemma spec_duty u : spec d (fun _ => True) (duty_code u) (fun _ _ => True).
Proof.
  assert (Hturn : forall F calls chain request, kept F -> spec d F (turn calls chain request) (fun _ => F)) by (intros; by apply spec_perform).
  destruct u as [r|current q|e|id]; cbn [duty_code].
  - eapply spec_bind; [by apply spec_role|]. intros ?. by apply spec_ret.
  - eapply spec_bind; [by apply (spec_issue d Hkeys (fun _ => True))|]. intros ?. by apply spec_ret.
  - eapply (spec_bind _ _ _ _ (fun (known : bool) b => True /\ if known then (e_correlation_id e < bus_next b)%positive else True)).
    + apply spec_db; [done|intros [|]; auto|]. intros b _ _. by case_bool_decide.
    + intros [|]; [|by apply spec_ret]. eapply spec_bind; [by apply (spec_handle_envelope d Hkeys turn Hturn (fun _ => True))|]. intros ?. by apply spec_ret.
  - eapply spec_bind; [by apply (spec_timeout_job d Hkeys (fun _ => True))|]. intros ?. by apply spec_ret.
Qed.
Lemma duties_good duties c :
  reach (user_program (fun p => duty_code (duties p))) (fun _ b => b) passes (fun _ _ => True) (mkConf (quiet_bus d) ∅) c ->
  good (inv d) rely (fun _ _ _ => True) c.
Proof. apply users_good; [|done]. intros p. apply spec_duty. Qed.
Lemma duties_follow duties c c' :
  reach (user_program (fun p => duty_code (duties p))) (fun _ b => b) passes (fun _ _ => True) c c' ->
  good (inv d) rely (fun _ _ _ => True) c -> follows (world c) (world c').
Proof. apply users_follow; [|done]. intros p. apply spec_duty. Qed.
End turns.

(** ** What issuing does alone *)
Section alone.
Context `{!Codec uuid, !Codec Z}.

(** The statements and commands of the transport leave the instructions alone. *)
Definition same_instructions (b b' : Bus) : Prop := bus_instructions b' = bus_instructions b.
#[local] Instance same_instructions_preorder : PreOrder same_instructions.
Proof. split; [by intros b|]. intros b1 b2 b3. unfold same_instructions. congruence. Qed.
Abbreviation quiet := (keeps same_instructions).

Lemma quiet_redis {A} (f : Bus -> A * Bus) : (forall b, same_instructions b (f b).2) -> quiet (redis f).
Proof. intros H. apply keeps_act. intros b. specialize (H (set_fates tail b)). by destruct (head (bus_fates b)) as [[]|]. Qed.
Ltac quiet_tac :=
  repeat first
    [ apply keeps_done; apply _ | apply keeps_get; apply _ | apply keeps_act; by intros ?
    | apply quiet_redis; by intros ? | apply keeps_bind; [apply _| |intros ?] | apply keeps_catch; [apply _| |intros ?]
    | match goal with |- keeps _ (match ?x with _ => _ end) => destruct x end ].
Lemma quiet_scope caller callee att ctx : quiet (enforce_scope caller callee att ctx).
Proof. unfold enforce_scope. quiet_tac. Qed.
Lemma quiet_fan_out e caller ctx rooms targets : forall acc, quiet (fan_out e caller ctx rooms targets acc).
Proof.
  induction targets as [|t targets IH]; intros acc; cbn [fan_out]; [quiet_tac|]. destruct (_ || _); [apply IH|]. cbv zeta.
  apply keeps_bind; [apply _| |].
  - apply keeps_catch; [apply _| |intros ?; quiet_tac]. apply keeps_bind; [apply _|apply quiet_scope|intros ?; quiet_tac].
  - intros [|]; cbn [negb]; [|apply IH]. destruct (_ <=? _)%nat; [apply IH|].
    apply keeps_bind; [apply _|quiet_tac|intros ?]. apply keeps_bind; [apply _|unfold xadd; quiet_tac|intros ?]. apply IH.
Qed.
Lemma quiet_broadcast e ctx : quiet (broadcast e ctx).
Proof.
  unfold broadcast, require_agent. destruct (e_from_agent e); [|quiet_tac].
  apply keeps_bind; [apply _|quiet_tac|intros ?]. apply keeps_bind; [apply _|quiet_tac|intros [|]]; cbn [negb]; [|quiet_tac].
  apply keeps_bind; [apply _|quiet_tac|intros ?]. apply keeps_bind; [apply _|quiet_tac|intros ?].
  apply keeps_bind; [apply _|apply quiet_fan_out|intros ?]. quiet_tac.
Qed.
Lemma quiet_send e att ctx : quiet (send e att ctx).
Proof.
  unfold send. destruct (e_to_agent e); try (quiet_tac; fail). destruct (String.prefix _ _); [apply quiet_broadcast|].
  destruct (read s); [|quiet_tac]. apply keeps_bind; [apply _| |intros ?; unfold xadd; quiet_tac].
  destruct (e_from_agent e).
  - unfold require_agent, derive_workflow_context. apply keeps_bind; [apply _|quiet_tac|intros ?].
    apply keeps_bind; [apply _|quiet_tac|intros ?]. apply keeps_bind; [apply _|quiet_tac|intros ?]. apply quiet_scope.
  - unfold require_agent, enforce_workflow_tenant. quiet_tac.
Qed.
(** A message to one agent is appended to its inbox, once it is let through. *)
Definition same_inbox (b b' : Bus) : Prop := bus_inbox b' = bus_inbox b.
#[local] Instance same_inbox_preorder : PreOrder same_inbox.
Proof. split; [by intros b|]. intros b1 b2 b3. unfold same_inbox. congruence. Qed.
Definition direct (target : uuid) : Prop := String.prefix "broadcast:workspace" (show target) = false.
Lemma send_direct e target att ctx b v b' : e_to_agent e = VStr (show target) -> direct target ->
  run (send e att ctx) b = Some (inr v, b') -> bus_inbox b' = bus_inbox b ++ [(target, e)].
Proof.
  intros He Hd. unfold send. rewrite He, Hd, read_show, run_bind.
  set (checks := match e_from_agent e with Some _ => _ | None => _ end).
  assert (Hc : keeps same_inbox checks).
  { unfold checks, require_agent, derive_workflow_context, enforce_scope, enforce_workflow_tenant. quiet_tac. }
  destruct (run checks b) as [[[err|[]] b1]|] eqn:E; [done| |done]. apply Hc in E. rewrite run_bind.
  destruct (run (xadd target e) b1) as [[[err|n] b2]|] eqn:Ex; [done| |done].
  apply xadd_inbox in Ex as [[[=] _]|[_ Hx]]. rewrite run_bind, run_audit. intros [= _ <-]. simpl. by rewrite Hx, E.
Qed.

Lemma run_insert chain path issuer target payload s b :
  run (instruction_insert chain path issuer target payload s) b =
  let i := mkInstruction (bus_next b) chain path (Z.of_nat (length path)) issuer target payload s (bus_now b) None in
  Some (inr i, set_next Pos.succ (set_instructions (insert (bus_next b) i) b)).
Proof. done. Qed.
Lemma run_uuid4 b : run uuid4 b = Some (inr (bus_next b), set_next Pos.succ b).
Proof. done. Qed.
Lemma run_delete id b : run (instruction_delete id) b = Some (inr tt, set_instructions (delete id) b).
Proof. done. Qed.
End alone.

(** The rules [R15.16] an instruct has to satisfy, at the time it is issued. *)
Definition issuing_window (b : Bus) (q : IssueRequest) : option Z :=
  match iq_wakeup_started_at q, iq_run q with
  | None, Some run => d_runs (bus_dir b) !! run ≫= rr_started_at
  | started, _ => started
  end.
Record allowed (b : Bus) (q : IssueRequest) (chain : uuid) (path : list uuid) : Prop := {
  al_capable : agent_has_capability (get_agent false (d_agents (bus_dir b)) (iq_issuer q)) can_instruct = true;
  al_cycle : iq_target q ∉ path;
  al_depth : Z.of_nat (length path) < iq_max_chain_depth q /\ Z.of_nat (length path) < INSTRUCT_MAX_CHAIN_DEPTH_HARD;
  al_window : forall since, issuing_window b q = Some since -> count_issued_by_agent_since b (iq_issuer q) since < iq_max_per_wakeup q;
  al_elapsed : forall start, get_chain_start_time b chain = Some start -> bus_now b - start < iq_max_chain_seconds q;
}.

Section outcome.
Context `{!Codec uuid, !Codec Z}.

(** What [issue] does after the chain is known. *)
Definition instruct_of (q : IssueRequest) (chain : uuid) (path : list uuid) (id : uuid) (now : Z) : Instruction :=
  mkInstruction id chain path (Z.of_nat (length path)) (iq_issuer q) (iq_target q) (iq_payload q) I_ISSUED now None.
Definition sent_for (q : IssueRequest) (i : Instruction) (e : Envelope) : Prop :=
  e_type e = M_INSTRUCT /\ e_from_agent e = Some (iq_issuer q) /\ e_to_agent e = VStr (show (iq_target q)) /\
  e_workflow_run_id e = iq_run q /\ e_payload e = VDict (instruct_payload (in_id i) (in_chain_id i) (in_path i) (iq_payload q)).
Definition issued (q : IssueRequest) (chain : uuid) (path : list uuid) (b b' : Bus) (i : Instruction) : Prop :=
  allowed b q chain path /\ bus_instructions b !! in_id i = None /\ i = instruct_of q chain path (in_id i) (bus_now b) /\
  bus_instructions b' = <[in_id i := i]> (bus_instructions b) /\
  exists e, sent_for q i e /\ bus_inbox b' = bus_inbox b ++ [(iq_target q, e)].
Definition rejected_loop (q : IssueRequest) (chain : uuid) (path : list uuid) (b b' : Bus) : Prop :=
  iq_target q ∈ path /\ bus_inbox b' = bus_inbox b /\
  exists i, in_state i = I_REJECTED_LOOP /\ in_path i = path /\ in_chain_id i = chain /\
    bus_instructions b !! in_id i = None /\ bus_instructions b' = <[in_id i := i]> (bus_instructions b).
Definition refused (q : IssueRequest) (chain : uuid) (path : list uuid) (b b' : Bus) (err : OrchestrationError) : Prop :=
  bus_instructions b' = bus_instructions b /\
  (allowed b q chain path -> exists e b1 b2, run (send e ∅ None) b1 = Some (inl err, b2)).

(** Drawing a chain identifier changes nothing the rules look at. *)
Lemma window_same b b0 q : bus_dir b0 = bus_dir b -> issuing_window b0 q = issuing_window b q.
Proof. intros H. unfold issuing_window. by rewrite H. Qed.
Lemma count_same b b0 agent since : rows b0 = rows b -> count_issued_by_agent_since b0 agent since = count_issued_by_agent_since b agent since.
Proof. intros H. unfold count_issued_by_agent_since. by rewrite H. Qed.
Lemma start_same b b0 chain : rows b0 = rows b -> get_chain_start_time b0 chain = get_chain_start_time b chain.
Proof. intros H. unfold get_chain_start_time. by rewrite H. Qed.

(** Each stage, run alone. *)
Lemma run_window_spent q b : run (window_spent q) b =
  Some (inr (match issuing_window b q with Some since => iq_max_per_wakeup q <=? count_issued_by_agent_since b (iq_issuer q) since | None => false end), b).
Proof.
  unfold window_spent, issuing_window, run_started_at. rewrite run_bind.
  destruct (iq_wakeup_started_at q), (iq_run q); try done. rewrite run_db. cbv beta iota. by destruct (_ ≫= _).
Qed.
Lemma run_chain_expired q chain b : run (chain_expired q chain) b =
  Some (inr (match get_chain_start_time b chain with Some t => iq_max_chain_seconds q <=? bus_now b - t | None => false end), b).
Proof. unfold chain_expired. by rewrite run_bind, run_db. Qed.
Lemma record_outcome q chain path b r b' : direct (iq_target q) -> bus_instructions b !! bus_next b = None ->
  run (record_and_dispatch q chain path) b = Some (r, b') ->
  match r with
  | inr i => i = instruct_of q chain path (bus_next b) (bus_now b) /\ bus_instructions b' = <[bus_next b := i]> (bus_instructions b) /\
      exists e, sent_for q i e /\ bus_inbox b' = bus_inbox b ++ [(iq_target q, e)]
  | inl err => bus_instructions b' = bus_instructions b /\ exists e b1 b2, run (send e ∅ None) b1 = Some (inl err, b2)
  end.
Proof.
  intros Hd Hnone. unfold record_and_dispatch. rewrite run_bind, run_insert. cbv beta iota zeta.
  fold (instruct_of q chain path (bus_next b) (bus_now b)). set (i := instruct_of _ _ _ _ _). set (b1 := set_next _ _).
  rewrite run_bind, run_uuid4. cbv beta iota. rewrite run_bind, run_uuid4. cbv beta iota. rewrite run_bind, run_db. cbv beta iota zeta.
  set (e := mkEnv _ _ _ _ _ _ _ _ _ _ _ _). set (b2 := set_next _ _). rewrite run_bind. unfold catch at 1. rewrite run_handle.
  destruct (run (send e ∅ None) b2) as [[[err|v] b3]|] eqn:Es; [| |done].
  - cbn [run]. rewrite run_bind. unfold catch. rewrite run_handle, run_delete. cbn [run]. intros [= <- <-].
    split; [|by exists e, b2, b3]. simpl. apply quiet_send in Es. rewrite Es. simpl. by apply delete_insert_id.
  - cbn [run]. rewrite run_bind, run_audit. intros [= <- <-]. split; [done|]. simpl. pose proof Es as Es'. apply quiet_send in Es.
    apply (send_direct _ (iq_target q)) in Es'; [|done..]. split; [exact Es|]. exists e. split; [done|exact Es'].
Qed.
End outcome.
