(* ===== verification/InstructClaims.v ===== *)
(** * What instructions guarantee

    Well-formed rows, one final outcome, and a run that is resumed. *)

From S2P Require Import Prelude PyFloat PyValue OrchBase Envelope Interleave A2A A2AFacts Instruct InstructFacts.

(** ** Settling, alone *)
Lemma run_get_row id b : run (instruction_get id) b = Some (inr (bus_instructions b !! id), b).
Proof. apply (run_db (fun b => bus_instructions b !! id)). Qed.
Lemma run_cas_row id s b : run (instruction_cas id s) b =
  Some (match bus_instructions b !! id with
        | Some i => if bool_decide (in_state i ∈ allowed_predecessors s)
                    then (inr true, set_instructions (insert id (settle s (match s with I_ISSUED | I_DELIVERED => None | _ => Some (bus_now b) end) i)) b)
                    else (inr false, b)
        | None => (inr false, b) end).
Proof. unfold instruction_cas. by rewrite run_act. Qed.

(** A transition that returns found the row: now in the state, or no longer able to reach it. *)
Lemma update_state_outcome id s b r b' : run (instruction_update_state id s) b = Some (r, b') ->
  bus_jobs b' = bus_jobs b /\ bus_fates b' = bus_fates b /\
  match r with
  | inr true => exists i, bus_instructions b' !! id = Some i /\ in_state i = s
  | inr false => exists i, bus_instructions b' !! id = Some i /\ in_state i ∉ allowed_predecessors s
  | inl err => err = OrchValueError /\ bus_instructions b !! id = None
  end.
Proof.
  unfold instruction_update_state. rewrite run_bind, run_cas_row. destruct (bus_instructions b !! id) as [i|] eqn:E.
  - case_bool_decide as Hs.
    + intros [= <- <-]. split_and!; [done..|]. eexists. split; [simpl; by rewrite lookup_insert_eq|done].
    + rewrite run_bind, run_get_row, E. intros [= <- <-]. split_and!; [done..|]. by exists i.
  - rewrite run_bind, run_get_row, E. by intros [= <- <-].
Qed.
Lemma conflict_outcome id b : exists l, run (audit_terminal_conflict id) b = Some (inr tt, set_audit (fun a => a ++ l) b).
Proof.
  unfold audit_terminal_conflict. rewrite run_bind, run_get_row.
  destruct (bus_instructions b !! id) as [i|]; [destruct (negb _)|]; [|by eexists..].
  exists []. simpl. destruct b. unfold set_audit. simpl. by rewrite app_nil_r.
Qed.
(** A row that can move neither to completed nor to timeout is settled. *)
Lemma no_way_out s i : s = I_COMPLETED \/ s = I_TIMEOUT -> in_state i ∉ allowed_predecessors s -> instruction_terminal (in_state i) = true.
Proof. intros [-> | ->] H; destruct (in_state i); simpl in *; try done; set_solver. Qed.
Definition settled (b : Bus) (id : uuid) : Prop := exists i, bus_instructions b !! id = Some i /\ instruction_terminal (in_state i) = true.

Lemma terminal_of s : s = I_COMPLETED \/ s = I_TIMEOUT -> instruction_terminal s = true.
Proof. by intros [-> | ->]. Qed.
Lemma mark_outcome id s b r b' : s = I_COMPLETED \/ s = I_TIMEOUT -> run (mark s id) b = Some (r, b') ->
  bus_jobs b' = bus_jobs b /\ bus_fates b' = bus_fates b /\
  match r with inr _ => settled b' id | inl err => err = OrchValueError /\ bus_instructions b !! id = None end.
Proof.
  intros Hs. unfold mark. rewrite run_bind. destruct (run (instruction_update_state id s) b) as [[r1 b1]|] eqn:E; [|done].
  apply update_state_outcome in E as (Hj & Hf & H). destruct r1 as [err|[|]].
  - by intros [= <- <-].
  - intros [= <- <-]. split_and!; [done..|]. destruct H as (i & Hi & <-). exists i. split; [done|by apply terminal_of].
  - rewrite run_bind. destruct (conflict_outcome id b1) as [l ->]. intros [= <- <-]. split_and!; [done..|].
    destruct H as (i & Hi & Hn). exists i. split; [done|by apply (no_way_out s)].
Qed.
Lemma mark_failed_outcome id b r b' : run (mark_failed id) b = Some (r, b') ->
  match r with inr _ => settled b' id | inl err => err = OrchValueError end.
Proof.
  unfold mark_failed. rewrite run_bind. destruct (run (instruction_update_state id I_TIMEOUT) b) as [[r1 b1]|] eqn:E; [|done].
  apply update_state_outcome in E as (Hj & Hf & H). destruct r1 as [err|[|]].
  - intros [= <- _]. by destruct H.
  - rewrite run_bind, run_audit. intros [= <- <-]. destruct H as (i & Hi & Hs). exists i. simpl. by rewrite Hs.
  - rewrite run_bind. destruct (conflict_outcome id b1) as [l ->]. intros [= <- <-].
    destruct H as (i & Hi & Hn). exists i. split; [done|apply (no_way_out I_TIMEOUT); auto].
Qed.
Lemma run_enqueue j b : exists r f, run (enqueue j) b = Some (r, set_fates tail (if f : bool then set_jobs (fun l => l ++ [j]) b else b)) /\
  match r with inl err => err = Infra | inr _ => f = true end.
Proof.
  unfold enqueue, redis. rewrite run_act.
  destruct (head (bus_fates b)) as [[]|]; [exists (inr tt), true|exists (inl Infra), false|exists (inl Infra), true|exists (inr tt), true]; done.
Qed.

Lemma no_row_mark id s b : bus_instructions b !! id = None -> exists b', run (mark s id) b = Some (inl OrchValueError, b').
Proof.
  intros E. exists b. unfold mark, instruction_update_state. by rewrite !run_bind, run_cas_row, E, run_bind, run_get_row, E.
Qed.
Lemma run_mark_total id s b : exists r b', run (mark s id) b = Some (r, b').
Proof.
  unfold mark. rewrite run_bind. assert (H : exists r b', run (instruction_update_state id s) b = Some (r, b')).
  { unfold instruction_update_state. rewrite run_bind, run_cas_row.
    destruct (bus_instructions b !! id) as [i|] eqn:E; [case_bool_decide|]; [by eexists _, _|by rewrite run_bind, run_get_row, E; eexists _, _..]. }
  destruct H as (r & b1 & ->). destruct r as [err|[|]]; [by eexists _, _..|]. rewrite run_bind.
  destruct (conflict_outcome id b1) as [l ->]. by eexists _, _.
Qed.

(** C38. The deadline of a parked instruct node always ends, and where the queue answers it
    leaves the instruction settled, whoever settled it, and a resume job for the run
    enqueued: a second delivery of the job does the same; only an instruction that is gone
    resumes nothing. *)
Theorem deadline_settles id b (Hqueue : bus_fates b = []) :
  exists s b', run (workflow_instruct_timeout id) b = Some (inr s, b') /\
    (is_Some (bus_instructions b !! id) -> settled b' id /\ bus_jobs b' = bus_jobs b ++ [J_resume_instruct id]) /\
    (bus_instructions b !! id = None -> s = "noop:gone"%string /\ bus_jobs b' = bus_jobs b).
Proof.
  unfold workflow_instruct_timeout, catch. rewrite run_bind, run_handle, run_bind.
  destruct (bus_instructions b !! id) as [i|] eqn:Ei.
  - destruct (run_mark_total id I_TIMEOUT b) as (r & b1 & E). rewrite E.
    apply mark_outcome in E as (Hj & Hf & H); [|by right]. rewrite Hqueue in Hf.
    destruct r as [err|w]; [destruct H; congruence|]. cbn [run mret proc_ret]. rewrite run_bind.
    unfold enqueue. rewrite run_answered by done. eexists _, _. split; [done|]. split; [|done]. intros _. simpl. by rewrite Hj.
  - destruct (no_row_mark id I_TIMEOUT b Ei) as [b1 E]. pose proof E as E'. apply mark_outcome in E' as (Hj & _ & _); [|by right].
    rewrite E. eexists _, _. split; [done|]. split; [by intros []|done].
Qed.

(** ** Claims *)
(** Issuing an instruction, on every path through it: it is issued only if the issuer
    may instruct, its target is not on the chain's path, the path is within both depth
    bounds, the issuing window has room and the chain is younger than its budget; one row
    is then written and one message naming it delivered to the target's inbox.  A cycle
    writes a rejected row and sends nothing.  Whatever else fails leaves the table as it
    was, the row of a message that could not be sent included; and where every rule holds,
    only the transport can fail. *)
Theorem issue_outcome `{!Codec uuid, !Codec Z} current q b r b'
    (Hfresh : forall id, is_Some (bus_instructions b !! id) -> (id < bus_next b)%positive)
    (Hdirect : direct (iq_target q)) (Hrun : run (issue current q) b = Some (r, b')) :
  let path := (inherited current q).2 ++ [iq_issuer q] in
  let chain := default (bus_next b) (inherited current q).1 in
  match r with
  | inr i => issued q chain path b b' i
  | inl err => err = InstructLoopDetected /\ rejected_loop q chain path b b' \/ refused q chain path b b' err
  end.
Proof.
  intros path chain. unfold issue in Hrun. rewrite run_bind, run_db in Hrun. cbv beta iota in Hrun.
  destruct (agent_has_capability _ _) eqn:Ecap; cbn [negb] in Hrun.
  2: { rewrite run_bind, run_audit in Hrun. injection Hrun as <- <-. right. split; [done|]. intros [H _ _ _ _]. congruence. }
  rewrite run_bind in Hrun.
  assert (Hb0 : exists b0, run (match (inherited current q).1 with Some c => mret c | None => uuid4 end) b = Some (inr chain, b0) /\
    (bus_next b <= bus_next b0)%positive /\ bus_instructions b0 = bus_instructions b /\ bus_dir b0 = bus_dir b /\
    bus_inbox b0 = bus_inbox b /\ bus_now b0 = bus_now b).
  { unfold chain. destruct (inherited current q).1 as [c|]; [exists b; simpl; by split_and!|].
    eexists. split; [apply run_uuid4|]. simpl. split_and!; [lia|done..]. }
  destruct Hb0 as (b0 & Hc & Hnext & Hi0 & Hd0 & Hinbox0 & Hnow0). rewrite Hc in Hrun. cbv beta iota zeta in Hrun. fold path in Hrun.
  assert (Hnone : forall k, (bus_next b0 <= k)%positive -> bus_instructions b !! k = None).
  { intros k Hk. destruct (bus_instructions b !! k) eqn:E; [|done]. assert (k < bus_next b)%positive by (apply Hfresh; by eexists). lia. }
  case_bool_decide as Hin.
  { rewrite run_bind, run_insert in Hrun. cbv beta iota zeta in Hrun. rewrite run_bind, run_audit in Hrun. injection Hrun as <- <-.
    left. split; [done|]. split; [done|]. split; [exact Hinbox0|].
    exists (mkInstruction (bus_next b0) chain path (Z.of_nat (length path)) (iq_issuer q) (iq_target q) (iq_payload q) I_REJECTED_LOOP (bus_now b0) None).
    split_and!; [done..|by apply Hnone|simpl; by rewrite Hi0]. }
  assert (Hrows : rows b0 = rows b) by (unfold rows; by rewrite Hi0).
  destruct (_ <=? Z.of_nat (length path)) eqn:Edepth; [injection Hrun as <- <-; right; split; [done|]; intros [_ _ H _ _]; lia|].
  rewrite run_bind, run_window_spent in Hrun. cbv beta iota in Hrun.
  rewrite (window_same b b0) in Hrun by done.
  destruct (match issuing_window b q with Some since => iq_max_per_wakeup q <=? count_issued_by_agent_since b0 _ since | None => false end) eqn:Espent.
  { rewrite run_bind, run_audit in Hrun. injection Hrun as <- <-. right. split; [done|]. intros [_ _ _ H _].
    destruct (issuing_window b q) as [since|]; [|done]. rewrite (count_same b) in Espent by done. specialize (H since eq_refl). lia. }
  rewrite run_bind, run_chain_expired in Hrun. cbv beta iota in Hrun. rewrite (start_same b b0), Hnow0 in Hrun by done.
  destruct (match get_chain_start_time b chain with Some t => _ | None => false end) eqn:Eold.
  { injection Hrun as <- <-. right. split; [done|]. intros [_ _ _ _ H]. destruct (get_chain_start_time b chain); [|done].
    specialize (H _ eq_refl). lia. }
  assert (Hok : allowed b q chain path).
  { split; [done|done|lia| |]; intros ? Hs; rewrite Hs in *; try rewrite (count_same b) in Espent by done; lia. }
  apply record_outcome in Hrun; [|done|rewrite Hi0; by apply Hnone]. rewrite Hi0, Hinbox0, Hnow0 in Hrun. destruct r as [err|i].
  - right. destruct Hrun as [Hrun He]. split; [done|]. by intros _.
  - destruct Hrun as (Hi & Hins & e & He). assert (Hid : in_id i = bus_next b0) by (by subst). rewrite <- Hid in *.
    split; [done|]. split; [by apply Hnone; lia|]. split; [done|]. split; [done|]. by exists e.
Qed.

Section claims.
Context `{!Codec uuid, !Codec Z} (behave : Z * list pyval -> option uuid * list uuid -> TurnRequest -> Turn).

(** A delivered instruction that has been handled is settled: whatever the target's
    turn did meanwhile, and whoever else wrote the row, once the handler returns normally
    the row is completed, timed out or was a rejected loop, so that the run waiting for it
    can be resumed at one of the node's two ports. *)
Theorem handled_instruct_settled e payload id b b'
    (Hpayload : e_payload e = VDict payload) (Hid : maybe_uuid (dict_get_none "instruction_id" payload) = Some id)
    (Hto : is_Some (match as_uuid (e_to_agent e) with Ok to => Some to | _ => None end))
    (Hrun : run (handle_instruct (turn behave) e) b = Some (inr tt, b')) :
  exists i, bus_instructions b' !! id = Some i /\ instruction_terminal (in_state i) = true /\ is_Some (instruct_port (in_state i)).
Proof.
  assert (H : settled b' id); [|destruct H as (i & Hi & Ht); exists i; split; [done|]; split; [done|]; by destruct (in_state i)].
  unfold handle_instruct, payload_path, payload_field in Hrun. rewrite Hpayload in Hrun.
  destruct (as_uuid (e_to_agent e)) as [to|x| ]; try by destruct Hto.
  apply run_bind_inr in Hrun as (v & b0 & [= <- <-] & Hrun). rewrite Hid in Hrun.
  apply run_bind_inr in Hrun as (? & b1 & _ & Hrun). apply run_bind_inr in Hrun as (? & b2 & _ & Hrun).
  apply run_bind_inr in Hrun as (? & b3 & _ & Hrun). apply run_bind_inr in Hrun as (result & b3' & _ & Hrun).
  apply run_bind_inr in Hrun as (w & b4 & Es & Hrun).
  assert (H4 : settled b4 id).
  { unfold settle_turn in Es. destruct (String.eqb _ _); [|by apply mark_failed_outcome in Es].
    apply mark_outcome in Es as (_ & _ & H); [done|by left]. }
  unfold catch in Hrun. rewrite run_handle in Hrun.
  destruct (run_enqueue (J_resume_instruct id) b4) as (r & f & He & _). rewrite He in Hrun.
  destruct H4 as (i & Hi & Ht). exists i. split; [|done]. by destruct r as [err|[]]; apply (inj Some), pair_eq in Hrun as [_ <-]; destruct f.
Qed.

Context (d : Directory) (duties : positive -> Duty).
Abbreviation reaches := (reach (user_program (fun p => duty_code behave (duties p))) (fun _ b => b) passes (fun _ _ => True)).

(** Every row of the instructions is well formed at all times, however many issuers,
    handlers, deadline jobs and users of the transport run at once, and wherever they are
    interrupted: its depth is the length of its path, the path ends with an issuer that
    may instruct, the target closes a cycle exactly in a rejected row, no other row is
    twenty deep, and it has an end time exactly if it is completed or timed out. *)
Theorem instructions_wellformed c id i (Hkeys : map_Forall (fun id a => ag_id a = id) (d_agents d))
    (Hreach : reaches (mkConf (quiet_bus d) ∅) c) (Hi : bus_instructions (world c) !! id = Some i) : instruction_ok d i.
Proof. apply duties_good in Hreach as [Hinv _]; [|done]. by apply (iv_instructions d _ Hinv id i). Qed.

(** C8. An instruction settles once: a row that is completed, timed out or rejected is
    never written again by anyone, so every resume of the waiting run, however late or
    often, leaves the node by the same port. *)
Theorem settled_instruction_final c c' id i (Hkeys : map_Forall (fun id a => ag_id a = id) (d_agents d))
    (Hreach : reaches (mkConf (quiet_bus d) ∅) c) (Hlater : reaches c c')
    (Hi : bus_instructions (world c) !! id = Some i) (Hterm : instruction_terminal (in_state i) = true) :
  forall i', bus_instructions (world c') !! id = Some i' -> i' = i /\ is_Some (instruct_port (in_state i')).
Proof.
  intros i' Hi'. apply duties_good in Hreach; [|done]. pose proof (duties_follow behave d Hkeys duties c c' Hlater Hreach) as [].
  destruct Hreach as [Hinv _]. destruct (iv_instructions d _ Hinv id i Hi) as [Hid _].
  destruct (fw_instructions id i' Hid Hi') as (j & Hj & Hmove). rewrite Hi in Hj. injection Hj as <-.
  destruct Hmove as [->|(s & t & Hs & _)].
  - split; [done|]. by destruct (in_state i).
  - exfalso. destruct s, (in_state i); simpl in *; try done; set_solver.
Qed.
End claims.

(** * Witnesses

    Two agents of one project; each may instruct and answers any call. *)
Definition worker_agent (id : uuid) : Agent := mkAgent id 1 true [("can_instruct", VBool true)]%string callable false.
Definition bureau : Directory :=
  mkDirectory (list_to_map [(1%positive, worker_agent 1); (2%positive, worker_agent 2)]) [2; 1]%positive {[1%positive]} ∅ ∅.
Lemma bureau_keyed : map_Forall (fun id a => ag_id a = id) (d_agents bureau).
Proof. apply (bool_decide_unpack _). vm_compute. exact I. Qed.
Definition order (issuer target : uuid) : IssueRequest :=
  mkIssue issuer target [("input", VStr "go")]%string None None [] (Some 0) 5 1 120 0 [].
(** Every turn passes the order on to agent 1. *)
Definition passes_on (calls : Z * list pyval) (chain : option uuid * list uuid) (rq : TurnRequest) : Turn :=
  Instructs (order (tq_agent rq) 1) (fun _ => Ends (inr (mkTurnResult "completed" None "done" false None))).
(** The message of the first order. *)
Definition first_order : Envelope :=
  mkEnv 3 (Some 1%positive) (VStr (show 2%positive)) None M_INSTRUCT
    (VDict (instruct_payload 2 1 [1%positive] [("input", VStr "go")]%string)) 4 0 0 [] 0 [].
Definition staff (p : positive) : Duty :=
  match p with
  | 1%positive => Issuer (None, []) (order 1 2)
  | 2%positive => Handler first_order
  | 3%positive => Deadline 2
  | _ => Issuer (None, []) (order 1 2)
  end.
Abbreviation shift l := (steps (fun p => duty_code passes_on (staff p)) l (mkConf (quiet_bus bureau) ∅)).
(** The order is issued, then handled: agent 2 hands it back to agent 1, which closes a cycle. *)
Definition handed_over : list positive := (replicate 16 1%positive ++ replicate 9 2%positive)%list.
Definition row_at (c : conf OrchestrationError Bus (option Instruction)) (id : uuid) : option (InstructionState * list uuid) :=
  (fun i => (in_state i, in_path i)) <$> bus_instructions (world c) !! id.

Lemma row_at_inv c id s path : row_at c id = Some (s, path) ->
  exists i, bus_instructions (world c) !! id = Some i /\ in_state i = s /\ in_path i = path.
Proof. unfold row_at. destruct (bus_instructions (world c) !! id) as [i|]; [|done]. intros [= <- <-]. by exists i. Qed.

Lemma instructions_wellformed_witness :
  exists c i, reach (user_program (fun p => duty_code passes_on (staff p))) (fun _ b => b) passes (fun _ _ => True) (mkConf (quiet_bus bureau) ∅) c /\
    bus_instructions (world c) !! 5%positive = Some i /\ in_path i = [1%positive; 2%positive] /\ instruction_ok bureau i /\ in_depth i = 2.
Proof.
  assert (H : shift handed_over ≫= (fun c => row_at c 5) = Some (I_REJECTED_LOOP, [1%positive; 2%positive])) by (vm_compute; reflexivity).
  apply bind_Some in H as (c & E & H). apply row_at_inv in H as (i & Hi & _ & Hp). apply steps_reach in E. exists c, i. split; [exact E|]. split; [exact Hi|]. split; [exact Hp|].
  pose proof (instructions_wellformed passes_on bureau staff c 5 i bureau_keyed E Hi) as Hok. split; [exact Hok|].
  rewrite (ik_depth _ _ Hok), Hp. reflexivity.
Defined.

(** The deadline fires first; the handler, afterwards, does not change the outcome. *)
Definition overdue : list positive := (replicate 16 1%positive ++ replicate 3 3%positive)%list.
Lemma settled_instruction_final_witness :
  exists c c' i, reach (user_program (fun p => duty_code passes_on (staff p))) (fun _ b => b) passes (fun _ _ => True) c c' /\
    bus_instructions (world c) !! 2%positive = Some i /\ bus_instructions (world c') !! 2%positive = Some i /\ in_state i = I_TIMEOUT /\
    bus_next (world c) <> bus_next (world c').
Proof.
  assert (H : (c ← shift overdue; c' ← steps (fun p => duty_code passes_on (staff p)) (replicate 14 2%positive) c;
    r ← row_at c 2; r' ← row_at c' 2; Some (r, r', bus_next (world c), bus_next (world c'))) =
    Some ((I_TIMEOUT, [1%positive]), (I_TIMEOUT, [1%positive]), 5%positive, 6%positive)) by (vm_compute; reflexivity).
  apply bind_Some in H as (c & E & H). apply bind_Some in H as (c' & E' & H). apply bind_Some in H as ([s path] & Hr & H).
  apply bind_Some in H as ([s' path'] & Hr' & H). injection H as -> -> -> -> Hn Hn'.
  apply row_at_inv in Hr as (i & Hi & Hs & _). apply row_at_inv in Hr' as (i' & Hi' & _ & _).
  apply steps_reach in E, E'. exists c, c', i. split; [exact E'|]. split; [exact Hi|].
  assert (Ht : instruction_terminal (in_state i) = true) by (rewrite Hs; reflexivity).
  destruct (settled_instruction_final passes_on bureau staff c c' 2 i bureau_keyed E E' Hi Ht i' Hi') as [-> _].
  split; [exact Hi'|]. split; [exact Hs|]. rewrite Hn, Hn'. discriminate.
Defined.

Lemma deadline_settles_witness :
  exists s b b', is_Some (bus_instructions b !! 2%positive) /\ run (workflow_instruct_timeout 2) b = Some (inr s, b') /\ settled b' 2.
Proof.
  set (b := set_instructions (insert 2%positive (instruct_of (order 1 2) 1 [1%positive] 2 0)) (quiet_bus bureau)).
  assert (Hrow : is_Some (bus_instructions b !! 2%positive)) by (eexists; reflexivity).
  destruct (deadline_settles 2 b eq_refl) as (s & b' & H1 & H2 & _). exists s, b, b'. split; [exact Hrow|]. split; [exact H1|].
  exact (proj1 (H2 Hrow)).
Defined.

Definition delivered : Bus := set_next (fun _ => 5%positive)
  (set_instructions (insert 2%positive (instruct_of (order 1 2) 1 [1%positive] 2 0)) (quiet_bus bureau)).
Lemma handled_instruct_settled_witness :
  exists b' i, run (handle_instruct (turn passes_on) first_order) delivered = Some (inr tt, b') /\
    bus_instructions b' !! 2%positive = Some i /\ instruction_terminal (in_state i) = true.
Proof.
  assert (H : match run (handle_instruct (turn passes_on) first_order) delivered with Some (inr _, _) => true | _ => false end = true)
    by (vm_compute; reflexivity).
  destruct (run (handle_instruct (turn passes_on) first_order) delivered) as [[[err|[]] b']|] eqn:E; [discriminate| |discriminate].
  destruct (handled_instruct_settled passes_on first_order (instruct_payload 2 1 [1%positive] [("input", VStr "go")]%string) 2 delivered b')
    as (i & Hi & Ht & _); [reflexivity|vm_compute; reflexivity|vm_compute; eexists; reflexivity|exact E|].
  exists b', i. split; [reflexivity|]. split; [exact Hi|exact Ht].
Defined.

Lemma issue_outcome_witness :
  exists i b', run (issue (None, []) (order 1 2)) (quiet_bus bureau) = Some (inr i, b') /\
    issued (order 1 2) 1 [1%positive] (quiet_bus bureau) b' i.
Proof.
  assert (H : match run (issue (None, []) (order 1 2)) (quiet_bus bureau) with Some (inr _, _) => true | _ => false end = true)
    by (vm_compute; reflexivity).
  destruct (run (issue (None, []) (order 1 2)) (quiet_bus bureau)) as [[[err|i] b']|] eqn:E; [discriminate| |discriminate].
  exists i, b'. split; [reflexivity|].
  apply (issue_outcome (None, []) (order 1 2) (quiet_bus bureau) (inr i) b'); [intros id [x Hx]; discriminate Hx|vm_compute; reflexivity|exact E].
Defined.

(** Two issuers of one agent count before either inserts: both orders go out, where the
    window has room for one. *)
Definition at_once : list positive := (replicate 5 1%positive ++ replicate 16 4%positive ++ replicate 11 1%positive)%list.
Example window_overshoot :
  (c ← shift at_once; Some (count_issued_by_agent_since (world c) 1 0, iq_max_per_wakeup (order 1 2), length (bus_inbox (world c))))
  = Some (2, 1, 2%nat).
Proof. vm_compute. reflexivity. Qed.
