(* ===== verification/WakeupState.v ===== *)
(** * The state wake-ups are decided on

    The Redis keys of [contexts/orchestration/infrastructure/wakeup_state.py], the rooms,
    bindings, grants and presence the decisions of the following files read, and the
    reads of [contexts/conversation/interfaces/facade.py].  Every statement and command
    is one step, whose fate comes from [wa_fates]; instants are whole microseconds.  A
    room row written by a transaction is in [rt_open] until its commit, and what the
    transaction audits in [rt_staged].  The key of the autostop counter expires seven
    days after the last count.  The same expiry of the other cadence keys and the two
    cooldowns are not modelled: a claimed batch or notice stays claimed. *)

From S2P Require Import Prelude PyFloat PyValue OrchBase Wakeup RoomWakeup Interleave.

(** ** Rooms *)
Record Room := mkRoom {
  rm_created_by : option uuid;
  rm_class_config : option pyval;      (** the stored JSON; [None] is SQL NULL *)
  rm_first_arrival_at : option Z;
  rm_started_at : option Z;
  rm_closed_at : option Z;
}.
Definition with_first_arrival t r := mkRoom (rm_created_by r) (rm_class_config r) t (rm_started_at r) (rm_closed_at r).
Definition with_started t r := mkRoom (rm_created_by r) (rm_class_config r) (rm_first_arrival_at r) t (rm_closed_at r).
Definition with_closed t r := mkRoom (rm_created_by r) (rm_class_config r) (rm_first_arrival_at r) (rm_started_at r) t.

Definition absent {A} (o : option A) : bool := match o with None => true | Some _ => false end.

(** ** The state *)
Record Cadence := mkCadence {
  message_count : Z;
  fire_due : bool;
  silence_ts : option Z;
  autostop : Z;
  autostop_until : Z;                  (** the last instant of its key *)
  join_batch : bool;
}.
Definition fresh_cadence : Cadence := mkCadence 0 false None 0 (-1) false.
Definition set_count f c := mkCadence (f (message_count c)) (fire_due c) (silence_ts c) (autostop c) (autostop_until c) (join_batch c).
Definition set_due v c := mkCadence (message_count c) v (silence_ts c) (autostop c) (autostop_until c) (join_batch c).
Definition set_silence v c := mkCadence (message_count c) (fire_due c) v (autostop c) (autostop_until c) (join_batch c).
Definition set_autostop n until c := mkCadence (message_count c) (fire_due c) (silence_ts c) n until (join_batch c).
Definition set_batch v c := mkCadence (message_count c) (fire_due c) (silence_ts c) (autostop c) (autostop_until c) v.

(** The keys of one binding: agent, room, binding. *)
Definition key : Type := uuid * uuid * uuid.
Inductive WakeLog :=
  | L_notified (owner agent room : uuid)       (** a committed notification *)
  | L_class_started (room : uuid) (connected : Z) (reason : string) (** audit [chatroom.class_started] *)
  | L_class_updated (room : uuid) (reset : bool) (** audit [chatroom.class_start_updated] *)
  | L_class_close (room : uuid) (closed : bool) (** audits [class_closed], [class_reopened] *)
  | L_turn (action : string) (agent room : uuid) (trigger : string) (** the audit of a turn *)
  | L_finished_error (room agent : uuid) (reason : string)
  | L_signal (agent : uuid)                    (** the job [workflow_signal], kind wakeup *)
  | L_job (agent room binding : uuid) (trigger : string).
#[export] Instance WakeLog_eq_dec : EqDecision WakeLog.
Proof. solve_decision. Defined.

(** A transaction: its id, and the instant [now()] is for it. *)
Record Tx := mkTx { tx_id : positive; tx_now : Z }.
Record RoomTable := mkTable {
  rt_rows : gmap uuid Room;                    (** committed, and not deleted *)
  rt_open : gmap uuid (positive * Room);       (** locked by a transaction, with its version *)
  rt_staged : gmap positive (list WakeLog);    (** what open transactions audited *)
}.
Record Watch := mkWatch {
  wa_agents : gmap uuid Agent;
  wa_rooms : RoomTable;
  wa_bindings : list Binding;                  (** live bindings, by room and agent *)
  wa_grants : gmap (uuid * uuid) (gset uuid);  (** room, agent: activity types under live control *)
  wa_roster : gmap uuid (gset uuid);           (** connected principals by room *)
  wa_composing : gset uuid;
  wa_spoken : gset uuid;                       (** rooms with a message *)
  wa_owners : gmap uuid (list uuid);           (** owners by project *)
  wa_keys : gmap key Cadence;
  wa_gated : gset (uuid * uuid);
  wa_now : Z;
  wa_fates : list fate;
  wa_log : list WakeLog;
}.
Definition put_rooms f w := mkWatch (wa_agents w) (f (wa_rooms w)) (wa_bindings w) (wa_grants w) (wa_roster w) (wa_composing w) (wa_spoken w) (wa_owners w) (wa_keys w) (wa_gated w) (wa_now w) (wa_fates w) (wa_log w).
Definition put_keys f w := mkWatch (wa_agents w) (wa_rooms w) (wa_bindings w) (wa_grants w) (wa_roster w) (wa_composing w) (wa_spoken w) (wa_owners w) (f (wa_keys w)) (wa_gated w) (wa_now w) (wa_fates w) (wa_log w).
Definition put_gated f w := mkWatch (wa_agents w) (wa_rooms w) (wa_bindings w) (wa_grants w) (wa_roster w) (wa_composing w) (wa_spoken w) (wa_owners w) (wa_keys w) (f (wa_gated w)) (wa_now w) (wa_fates w) (wa_log w).
Definition put_fates f w := mkWatch (wa_agents w) (wa_rooms w) (wa_bindings w) (wa_grants w) (wa_roster w) (wa_composing w) (wa_spoken w) (wa_owners w) (wa_keys w) (wa_gated w) (wa_now w) (f (wa_fates w)) (wa_log w).
Definition put_log f w := mkWatch (wa_agents w) (wa_rooms w) (wa_bindings w) (wa_grants w) (wa_roster w) (wa_composing w) (wa_spoken w) (wa_owners w) (wa_keys w) (wa_gated w) (wa_now w) (wa_fates w) (f (wa_log w)).
Definition cadence (k : key) (w : Watch) : Cadence := default fresh_cadence (wa_keys w !! k).
Definition on_key (k : key) (f : Cadence -> Cadence) : Watch -> Watch := put_keys (fun m => <[k := f (default fresh_cadence (m !! k))]> m).

Abbreviation proc := (proc OrchestrationError Watch).
(** A statement or a command; one that changes nothing but may fail as well. *)
Definition call {A} (f : Watch -> A * Watch) : proc A := act (fun w =>
  let w' := put_fates tail w in
  match head (wa_fates w) with
  | Some Lost => (inl Infra, w')
  | Some Unanswered => (inl Infra, (f w').2)
  | _ => (inr (f w').1, (f w').2)
  end).
Definition ask {A} (f : Watch -> A) : proc A := call (fun w => (f w, w)).
Definition tell (f : Watch -> Watch) : proc unit := call (fun w => (tt, f w)).
Definition log (l : WakeLog) : proc unit := tell (put_log (fun ls => ls ++ [l])).
Definition attempt {A} (m : proc A) : proc (OrchestrationError + A) := handle m (fun r => mret r).

(** ** Redis ([wakeup_state.py]) *)
Definition increment_message_count (k : key) : proc Z :=
  call (fun w => (message_count (cadence k w) + 1, on_key k (set_count (Z.add 1)) w)).
Definition restart_message_count (k : key) : proc unit := tell (on_key k (fun c => set_due false (set_count (fun _ => 0) c))).
Definition set_fire_due (k : key) : proc unit := tell (on_key k (set_due true)).
Definition pop_fire_due (k : key) : proc bool := call (fun w => (fire_due (cadence k w), on_key k (set_due false) w)).
Definition touch_silence_timestamp (k : key) : proc unit := tell (fun w => on_key k (set_silence (Some (wa_now w))) w).
Definition get_silence_timestamp (k : key) : proc (option Z) := ask (fun w => silence_ts (cadence k w)).
(** Seven days. *)
Definition KEY_TTL : Z := 86400 * 7 * 1000000.
Definition autostop_count (k : key) (w : Watch) : Z :=
  if wa_now w <=? autostop_until (cadence k w) then autostop (cadence k w) else 0.
Definition increment_autostop (k : key) : proc Z :=
  call (fun w => let n := autostop_count k w + 1 in (n, on_key k (set_autostop n (wa_now w + KEY_TTL)) w)).
Definition reset_autostop (k : key) : proc unit := tell (on_key k (set_autostop 0 (-1))).
Definition get_autostop_count (k : key) : proc Z := ask (autostop_count k).
Definition claim_join_batch (k : key) : proc bool := call (fun w => (negb (join_batch (cadence k w)), on_key k (set_batch true) w)).
Definition claim_gated_notice (agent room : uuid) : proc bool :=
  call (fun w => (negb (bool_decide ((agent, room) ∈ wa_gated w)), put_gated (union {[(agent, room)]}) w)).
Definition release_gated_notice (agent room : uuid) : proc unit := tell (put_gated (fun s => s ∖ {[(agent, room)]})).

(** [room_wakeup_service.apply_timer_effects] *)
Fixpoint apply_timer_effects (effects : list (option TimerEffects)) : proc unit :=
  match effects with
  | [] => mret tt
  | None :: effects => apply_timer_effects effects
  | Some e :: effects =>
      let k := (te_agent_id e, te_room_id e, te_binding_id e) in
      _ ← (if RoomWakeup.restart_message_count e then restart_message_count k
           else if drop_deferred_fire e then _ ← pop_fire_due k; mret tt else mret tt);
      _ ← (if rearm_silence e then touch_silence_timestamp k else mret tt);
      apply_timer_effects effects
  end.

(** ** The conversation facade *)
Definition live_room (room : uuid) (w : Watch) : option Room := rt_rows (wa_rooms w) !! room.
Definition room_binding_wakeup_states (room : uuid) (w : Watch) : list Binding :=
  if absent (live_room room w) then [] else List.filter (fun b => Pos.eqb (b_chatroom_id b) room) (wa_bindings w).
Definition binding_wakeup_state (room agent : uuid) (w : Watch) : option Binding :=
  head (List.filter (fun b => Pos.eqb (b_agent_id b) agent) (room_binding_wakeup_states room w)).
(** [live_binding_wakeup_states], all pages. *)
Definition live_binding_wakeup_states (w : Watch) : list Binding :=
  List.filter (fun b => match live_room (b_chatroom_id b) w with Some r => absent (rm_closed_at r) | None => false end) (wa_bindings w).

Definition HEADCOUNT_PRESENCE_LIMIT : nat := 500.
Definition list_room (room : uuid) (w : Watch) : list uuid := elements (default ∅ (wa_roster w !! room)).
(** At most [limit] members; [None] where the roster cannot be read. *)
Definition room_presence_snapshot (limit : nat) (room : uuid) : proc (option (list uuid)) :=
  r ← attempt (ask (fun w => firstn limit (list_room room w)));
  mret match r with inr ids => Some ids | inl _ => None end.

(** [activity_control_grant] *)
Definition activity_control_grant (room agent : uuid) (w : Watch) : option (gset uuid) := wa_grants w !! (room, agent).

(** [RoomWakeupService.for_state], [load] *)
Definition for_state (state : Binding) : proc (option RoomWakeup) :=
  ask (fun w => build_room_wakeup state <$> get_agent false (wa_agents w) (b_agent_id state)).
Definition room_wakeup (agent room : uuid) : proc (option RoomWakeup) :=
  found ← ask (binding_wakeup_state room agent);
  match found with Some state => for_state state | None => mret None end.

(** * Facts *)

(** One step of a process that runs alone, and is answered. *)
Lemma fates_nil w : wa_fates w = [] -> put_fates tail w = w.
Proof. destruct w. simpl. by intros ->. Qed.
Lemma alone_call {A} (f : Watch -> A * Watch) w : wa_fates w = [] -> run (call f) w = Some (inr (f w).1, (f w).2).
Proof. intros Hf. unfold call. rewrite run_act, Hf. simpl. by rewrite fates_nil. Qed.
Lemma alone_ask {A} (f : Watch -> A) w : wa_fates w = [] -> run (ask f) w = Some (inr (f w), w).
Proof. apply (alone_call (fun w => (f w, w))). Qed.
Lemma alone_tell f w : wa_fates w = [] -> run (tell f) w = Some (inr tt, f w).
Proof. apply (alone_call (fun w => (tt, f w))). Qed.
Lemma alone_get {A} (f : Watch -> A) w : run (get (E := OrchestrationError) f) w = Some (inr (f w), w).
Proof. done. Qed.
Lemma alone_ret {A} (a : A) w : run (E := OrchestrationError) (W := Watch) (mret a) w = Some (inr a, w).
Proof. done. Qed.
Lemma run_snapshot limit room w : wa_fates w = [] ->
  run (room_presence_snapshot limit room) w = Some (inr (Some (firstn limit (list_room room w))), w).
Proof. intros Hf. unfold room_presence_snapshot, attempt. by rewrite run_bind, run_handle, alone_ask. Qed.
