(* ===== verification/WakeupService.v ===== *)
(** * Deciding wake-ups

    [contexts/orchestration/application/wakeup_service.py] and the worker tasks
    [evaluate_silence] and [wakeup_agent] of [app/workers/tasks/orchestration.py].  The
    class-start check is in ClassStart.v. *)

From S2P Require Import Prelude PyFloat PyValue OrchBase Wakeup RoomWakeup Interleave WakeupState.

(** ** A message in a room *)
Definition WakeTarget : Type := uuid * uuid.  (** agent and binding *)
Record Message := mkMessage {
  ms_room : uuid;
  sender_is_user : bool;
  sender_agent_id : option uuid;
  sender_is_human : bool;
}.

(** [_notify_wakeup_gated]: the owners told, and whether a failure stopped it. *)
Fixpoint send_notices (agent room : uuid) (owners : list uuid) (delivered : nat) : proc (nat * bool) :=
  match owners with
  | [] => mret (delivered, false)
  | owner :: owners =>
      r ← attempt (log (L_notified owner agent room));
      match r with inr _ => send_notices agent room owners (S delivered) | inl _ => mret (delivered, true) end
  end.
Definition notify_wakeup_gated (agent : Agent) (room : uuid) : proc unit :=
  mine ← claim_gated_notice (ag_id agent) room;
  if (mine : bool) then
    owners ← attempt (ask (fun w => default [] (wa_owners w !! ag_project_id agent)));
    sent ← match owners with
           | inr owners => send_notices (ag_id agent) room owners 0
           | inl _ => mret (0%nat, true)
           end;
    if sent.2 && Nat.eqb sent.1 0 then release_gated_notice (ag_id agent) room else mret tt
  else mret tt.

(** The presence gate of the message trigger. *)
Definition presence_gated (observer : bool) (cfg : WakeupConfig) (m : Message) : proc bool :=
  if negb observer && negb (allow_self_open cfg) && negb (sender_is_user m)
  then ask (fun w => bool_decide (list_room (ms_room m) w = [])) else mret false.

(** One agent of the loop. *)
Definition evaluate_message (observers : gset uuid) (m : Message) (agent_id : uuid) (state : option Binding)
    : proc (option WakeTarget) :=
  match state with
  | None => mret None
  | Some state =>
      found ← for_state state;
      match found with
      | None => mret None
      | Some current =>
          let cfg := config (rw_effective current) in
          let k := (agent_id, ms_room m, b_binding_id state) in
          if is_inert cfg || call_only (triggers cfg) then mret None
          else
            _ ← touch_silence_timestamp k;
            _ ← (if sender_is_user m then reset_autostop k else mret tt);
            let every_n := every_n_messages (triggers cfg) in
            if en_enabled every_n && (bool_decide (en_count every_n = COUNT_ALL) || sender_is_human m) then
              count ← increment_message_count k;
              let due := (0 <? en_n every_n) && (count mod en_n every_n =? 0) in
              if bool_decide (Some agent_id = sender_agent_id m) then
                _ ← (if due then set_fire_due k else mret tt); mret None
              else
                pending ← pop_fire_due k;
                if due || pending then
                  gated ← presence_gated (bool_decide (agent_id ∈ observers)) cfg m;
                  if (gated : bool) then _ ← notify_wakeup_gated (rw_agent current) (ms_room m); mret None
                  else mret (Some (agent_id, b_binding_id state))
                else mret None
            else mret None
      end
  end.

(** [by_agent]: the last state of an agent wins. *)
Definition state_of (states : list Binding) (agent : uuid) : option Binding :=
  list.last (List.filter (fun s => Pos.eqb (b_agent_id s) agent) states).
(** A failure costs its agent's wake only. *)
Fixpoint evaluate_agents (f : uuid -> proc (option WakeTarget)) (agents : list uuid) : proc (list WakeTarget) :=
  match agents with
  | [] => mret []
  | a :: agents =>
      r ← catch (f a) (fun _ => mret None);
      rest ← evaluate_agents f agents;
      mret (option_list r ++ rest)
  end.
Definition on_message_created (observers : gset uuid) (states : option (list Binding)) (agents : list uuid) (m : Message)
    : proc (list WakeTarget) :=
  states ← match states with Some l => mret l | None => ask (room_binding_wakeup_states (ms_room m)) end;
  evaluate_agents (fun a => evaluate_message observers m a (state_of states a)) agents.

(** ** Silence *)
Definition minutes (n : Z) : Z := 60000000 * n.
Definition evaluate_silence_trigger (state : Binding) : proc bool :=
  found ← for_state state;
  match found with
  | None => mret false
  | Some current =>
      let cfg := config (rw_effective current) in
      let silence := silence_minutes (triggers cfg) in
      let k := (b_agent_id state, b_chatroom_id state, b_binding_id state) in
      if negb (sm_enabled silence) then mret false
      else if call_only (triggers cfg) then mret false
      else
        last_ts ← get_silence_timestamp k;
        match last_ts with
        | None => _ ← touch_silence_timestamp k; mret false
        | Some last_ts =>
            now ← get wa_now;
            if now - last_ts <? minutes (sm_t_minutes silence) then mret false
            else
              composing ← ask (fun w => bool_decide (b_chatroom_id state ∈ wa_composing w));
              if (composing : bool) then _ ← touch_silence_timestamp k; mret false
              else
                count ← get_autostop_count k;
                if autostop_limit_for silence (b_observer state) <=? count then mret false
                else if b_observer state then mret true
                else ask (fun w => negb (bool_decide (list_room (b_chatroom_id state) w = [])))
        end
  end.
(** [evaluate_silence]: the sweep over every live binding of a class that is not closed. *)
Fixpoint sweep_silence (states : list Binding) (fired : Z) : proc Z :=
  match states with
  | [] => mret fired
  | s :: states =>
      r ← catch (fires ← evaluate_silence_trigger s;
                 if (fires : bool) then
                   _ ← log (L_job (b_agent_id s) (b_chatroom_id s) (b_binding_id s) "silence_minutes");
                   _ ← touch_silence_timestamp (b_agent_id s, b_chatroom_id s, b_binding_id s);
                   mret 1
                 else mret 0)
            (fun _ => mret 0);
      sweep_silence states (fired + r)
  end.
Definition evaluate_silence : proc Z :=
  states ← ask live_binding_wakeup_states;
  sweep_silence states 0.
Fixpoint for_states (states : list Binding) (f : Binding -> proc unit) : proc unit :=
  match states with [] => mret tt | s :: states => _ ← f s; for_states states f end.
Definition on_users_present (room : uuid) (agents : list uuid) : proc unit :=
  states ← ask (room_binding_wakeup_states room);
  for_states states (fun s =>
    if bool_decide (b_agent_id s ∈ agents) then touch_silence_timestamp (b_agent_id s, room, b_binding_id s) else mret tt).
Definition on_activation_changed (room : uuid) : proc unit :=
  states ← ask (room_binding_wakeup_states room);
  for_states states (fun s => reset_autostop (b_agent_id s, room, b_binding_id s)).

(** ** Arrivals *)

(** [has_messages], read once, by the first binding that needs it. *)
Definition room_has_messages (room : uuid) (known : option bool) : proc bool :=
  match known with Some b => mret b | None => ask (fun w => bool_decide (room ∈ wa_spoken w)) end.
(** One binding of the loop, with what is known of [has_messages] after it. *)
Definition evaluate_join (room : uuid) (state : Binding) (known : option bool) : proc (option WakeTarget * option bool) :=
  found ← for_state state;
  match found with
  | None => mret (None, known)
  | Some current =>
      let cfg := config (rw_effective current) in
      if b_observer state then mret (None, known)
      else if negb (on_join (triggers cfg)) || call_only (triggers cfg) then mret (None, known)
      else
        known ← (if allow_self_open cfg then mret known else has ← room_has_messages room known; mret (Some has));
        if negb (allow_self_open cfg) && bool_decide (known = Some false) then mret (None, known)
        else
          mine ← catch (claim_join_batch (b_agent_id state, room, b_binding_id state)) (fun _ => mret false);
          mret (if (mine : bool) then Some (b_agent_id state, b_binding_id state) else None, known)
  end.
Fixpoint evaluate_joins (room : uuid) (states : list Binding) (known : option bool) : proc (list WakeTarget) :=
  match states with
  | [] => mret []
  | s :: states =>
      r ← catch (evaluate_join room s known) (fun _ => mret (None, known));
      rest ← evaluate_joins room states r.2;
      mret (option_list r.1 ++ rest)
  end.
Definition on_participant_joined (room principal : uuid) : proc (list WakeTarget) :=
  found ← ask (live_room room);
  match found with
  | None => mret []
  | Some r =>
      if bool_decide (rm_created_by r = Some principal) then mret []
      else states ← ask (room_binding_wakeup_states room); evaluate_joins room states None
  end.

(** ** Grants *)

(** The bindings a platform fact or the creator's word may wake: not an observer, not
    on call only, and with a grant that [covers]. *)
Definition grant_target (covers : gset uuid -> bool) (room : uuid) (binding : Binding) : proc (option WakeTarget) :=
  found ← for_state binding;
  match found with
  | None => mret None
  | Some current =>
      if b_observer binding || call_only (triggers (config (rw_effective current))) then mret None
      else
        grant ← ask (activity_control_grant room (b_agent_id binding));
        mret match grant with
             | Some types => if covers types then Some (b_agent_id binding, b_binding_id binding) else None
             | None => None
             end
  end.
Fixpoint grant_targets (covers : gset uuid -> bool) (room : uuid) (bindings : list Binding) : proc (list WakeTarget) :=
  match bindings with
  | [] => mret []
  | b :: bindings =>
      t ← grant_target covers room b;
      rest ← grant_targets covers room bindings;
      mret (option_list t ++ rest)
  end.
Definition granted_targets (room activity_type_id : uuid) : proc (list WakeTarget) :=
  bindings ← ask (room_binding_wakeup_states room);
  grant_targets (fun types => bool_decide (activity_type_id ∈ types)) room bindings.
Definition on_creator_message (room sender : uuid) : proc (list WakeTarget) :=
  catch
    (found ← ask (live_room room);
     match found with
     | None => mret []
     | Some r =>
         if bool_decide (rm_created_by r = Some sender) then
           bindings ← ask (room_binding_wakeup_states room);
           grant_targets (fun types => negb (bool_decide (types = ∅))) room bindings
         else mret []
     end)
    (fun _ => mret []).

(** ** Rounds *)

(** [_runs_the_class] *)
Definition runs_the_class (agent room : uuid) : proc bool :=
  catch
    (grant ← ask (activity_control_grant room agent);
     if bool_decide (default ∅ grant = ∅) then mret false
     else
       state ← ask (binding_wakeup_state room agent);
       match state with
       | None => mret false
       | Some b =>
           if b_observer b then mret false
           else
             found ← ask (live_room room);
             match found with
             | None => mret false
             | Some r =>
                 snapshot ← room_presence_snapshot HEADCOUNT_PRESENCE_LIMIT room;
                 mret (existsb (fun u => negb (bool_decide (Some u = rm_created_by r))) (default [] snapshot))
             end
       end)
    (fun _ => mret false).
Definition on_agent_message_sent (agent room : uuid) (binding_id : option uuid) : proc Z :=
  teaching ← runs_the_class agent room;
  if (teaching : bool) then mret 0
  else
    match binding_id with
    | Some b => increment_autostop (agent, room, b)
    | None =>
        state ← ask (binding_wakeup_state room agent);
        match state with Some s => increment_autostop (agent, room, b_binding_id s) | None => mret 0 end
    end.

(** ** The turn task *)
Definition EXPLICIT_TRIGGERS : list string := ["mention"; "release"]%string.
Definition PLATFORM_TRIGGERS : list string := ["class_start"; "activity_deadline"; "all_submitted"]%string.

Definition still_on (t : WakeupTriggers) (trigger : string) : bool :=
  if String.eqb trigger "every_n_messages" then en_enabled (every_n_messages t)
  else if String.eqb trigger "silence_minutes" then sm_enabled (silence_minutes t)
  else if String.eqb trigger "on_join" then on_join t
  else if String.eqb trigger "class_start" then class_start t
  else true.

Definition emit_agent_finished_error (room agent : uuid) (reason : string) : proc unit :=
  catch (log (L_finished_error room agent reason)) (fun _ => mret tt).
(** The guards: a reason to skip, or the incarnation the turn runs for. *)
Definition wakeup_guards (agent room : uuid) (trigger : string) (binding_id : option uuid) : proc (string + option uuid) :=
  found ← ask (live_room room);
  match found with
  | None => mret (inl "skipped:room_gone"%string)
  | Some r =>
      known ← ask (fun w => get_agent false (wa_agents w) agent);
      match known with
      | None =>
          _ ← (if bool_decide (trigger ∈ EXPLICIT_TRIGGERS) then emit_agent_finished_error room agent "agent_gone" else mret tt);
          mret (inl "skipped:agent_gone"%string)
      | Some _ =>
          if bool_decide (trigger ∈ EXPLICIT_TRIGGERS) then
            bound ← ask (binding_wakeup_state room agent);
            mret (inr (b_binding_id <$> bound))
          else if negb (absent (rm_closed_at r)) then mret (inl "skipped:class_closed"%string)
          else
            loaded ← room_wakeup agent room;
            match loaded with
            | None => mret (inl "skipped:binding_gone"%string)
            | Some current =>
                let b := b_binding_id (rw_state current) in
                if negb (bool_decide (default b binding_id = b)) then mret (inl "skipped:binding_gone"%string)
                else
                  let t := triggers (config (rw_effective current)) in
                  if call_only t || negb (still_on t trigger) then mret (inl "skipped:trigger_off"%string)
                  else
                    count ← get_autostop_count (agent, room, b);
                    if negb (bool_decide (trigger ∈ PLATFORM_TRIGGERS))
                       && (autostop_limit_for (silence_minutes t) (b_observer (rw_state current)) <=? count)
                    then mret (inl "skipped:autostop"%string) else mret (inr (Some b))
            end
      end
  end.

Definition wakeup_action (status : string) : string :=
  if String.eqb status "completed" then "wakeup.fired"
  else if String.eqb status "skipped" then "wakeup.skipped" else "wakeup.failed".

(** [run_turn] stands for the turn engine: agent, room, trigger, binding; its status. *)
Section turn.
Context (run_turn : uuid -> uuid -> string -> option uuid -> proc string).

Definition wakeup_agent (agent room : uuid) (trigger : string) (binding_id : option uuid) : proc string :=
  verdict ← wakeup_guards agent room trigger binding_id;
  match verdict with
  | inl skipped => mret skipped
  | inr turn_binding =>
      status ← run_turn agent room trigger turn_binding;
      _ ← log (L_turn (wakeup_action status) agent room trigger);
      _ ← (if String.eqb status "completed" && negb (bool_decide (trigger ∈ PLATFORM_TRIGGERS))
           then _ ← on_agent_message_sent agent room turn_binding; mret tt else mret tt);
      _ ← catch (log (L_signal agent)) (fun _ => mret tt);
      mret status
  end.
End turn.
