(* ===== verification/WakeupFacts.v ===== *)
(** * When an agent is woken

    The message trigger of WakeupService.v against a specification by the history of the
    room.  The bound that autostop puts on what agents do among themselves is in
    AutostopFacts.v. *)

From S2P Require Import Prelude PyFloat PyValue OrchBase Wakeup RoomWakeup Interleave WakeupState WakeupService.

(** ** The cadence, by history

    [count] messages have been counted, [seen] of them when someone else last spoke:
    the agent is due when a multiple of [n] lies between. *)
Definition effective (agents : gmap uuid Agent) (s : Binding) : option WakeupConfig :=
  (fun a => config (rw_effective (build_room_wakeup s a))) <$> get_agent false agents (b_agent_id s).
Definition counted (cfg : WakeupConfig) (m : Message) : bool :=
  negb (is_inert cfg) && negb (call_only (triggers cfg)) && en_enabled (every_n_messages (triggers cfg))
  && (bool_decide (en_count (every_n_messages (triggers cfg)) = COUNT_ALL) || sender_is_human m).
Definition own_message (agent : uuid) (m : Message) : bool := bool_decide (Some agent = sender_agent_id m).
Definition count_of (cfg : WakeupConfig) (h : list Message) : Z := Z.of_nat (length (List.filter (counted cfg) h)).
(** The count when someone else was last counted. *)
Fixpoint seen_by (agent : uuid) (cfg : WakeupConfig) (before : Z) (seen : Z) (h : list Message) : Z :=
  match h with
  | [] => seen
  | m :: h =>
      if counted cfg m then seen_by agent cfg (before + 1) (if own_message agent m then seen else before + 1) h
      else seen_by agent cfg before seen h
  end.
Definition seen_of (agent : uuid) (cfg : WakeupConfig) (h : list Message) : Z := seen_by agent cfg 0 0 h.
Definition due_after (agent : uuid) (cfg : WakeupConfig) (h : list Message) (m : Message) : bool :=
  let n := en_n (every_n_messages (triggers cfg)) in
  counted cfg m && negb (own_message agent m) && (seen_of agent cfg h / n <? count_of cfg (h ++ [m]) / n).
(** An agent's message wakes nobody in an empty room, but observers and those that may
    open it. *)
Definition gated (observer : bool) (cfg : WakeupConfig) (present : list uuid) (m : Message) : bool :=
  negb observer && negb (allow_self_open cfg) && negb (sender_is_user m) && bool_decide (present = []).

Definition wakes_after (observers : gset uuid) (w : Watch) (states : list Binding) (h : list Message) (m : Message) (agent : uuid)
    : option WakeTarget :=
  match state_of states agent with
  | Some s =>
      match effective (wa_agents w) s with
      | Some cfg =>
          if due_after agent cfg h m && negb (gated (bool_decide (agent ∈ observers)) cfg (list_room (ms_room m) w) m)
          then Some (agent, b_binding_id s) else None
      | None => None
      end
  | None => None
  end.
(** Each message of a conversation is evaluated for the agents of the room. *)
Fixpoint converse (observers : gset uuid) (states : list Binding) (agents : list uuid) (ms : list Message) : proc (list (list WakeTarget)) :=
  match ms with
  | [] => mret []
  | m :: ms =>
      t ← on_message_created observers (Some states) agents m;
      ts ← converse observers states agents ms;
      mret (t :: ts)
  end.
Fixpoint wakes_of (observers : gset uuid) (w : Watch) (states : list Binding) (agents : list uuid) (h ms : list Message) : list (list WakeTarget) :=
  match ms with
  | [] => []
  | m :: ms => omap (wakes_after observers w states h m) agents :: wakes_of observers w states agents (h ++ [m]) ms
  end.

(** * Facts *)

(** ** Counting *)
Lemma count_app cfg h m : count_of cfg (h ++ [m]) = count_of cfg h + if counted cfg m then 1 else 0.
Proof. unfold count_of. rewrite List.filter_app, length_app. simpl. destruct (counted cfg m); simpl; lia. Qed.
Lemma seen_by_app agent cfg h m : forall before seen, seen_by agent cfg before seen (h ++ [m]) =
  if counted cfg m && negb (own_message agent m) then before + count_of cfg h + 1 else seen_by agent cfg before seen h.
Proof.
  unfold count_of. induction h as [|x h IH]; intros before seen; simpl.
  - destruct (counted cfg m), (own_message agent m); simpl; lia.
  - destruct (counted cfg x); simpl; rewrite IH; destruct (counted cfg m && negb (own_message agent m)); try done. lia.
Qed.
Lemma seen_app agent cfg h m : seen_of agent cfg (h ++ [m]) =
  if counted cfg m && negb (own_message agent m) then count_of cfg (h ++ [m]) else seen_of agent cfg h.
Proof. unfold seen_of. rewrite seen_by_app, count_app. by destruct (counted cfg m). Qed.
Lemma seen_below agent cfg h : 0 <= seen_of agent cfg h <= count_of cfg h.
Proof.
  induction h as [|m h IH] using rev_ind; [done|]. rewrite seen_app, count_app.
  destruct (counted cfg m), (own_message agent m); simpl; lia.
Qed.
(** Another multiple of [n] is passed exactly at a multiple. *)
Lemma next_multiple l c n : 0 < n -> 0 <= l <= c -> (l / n <? (c + 1) / n) = ((c + 1) mod n =? 0) || (l / n <? c / n).
Proof.
  intros Hn Hl. pose proof (Z.div_mod c n ltac:(lia)). pose proof (Z.div_mod (c + 1) n ltac:(lia)).
  pose proof (Z.mod_pos_bound c n Hn). pose proof (Z.mod_pos_bound (c + 1) n Hn).
  assert (Hdiv : l / n <= c / n) by (apply Z.div_le_mono; lia).
  destruct (Z.eqb_spec ((c + 1) mod n) 0) as [E|E]; simpl.
  - apply Z.ltb_lt. nia.
  - assert ((c + 1) / n = c / n) as -> by nia. done.
Qed.

(** ** One agent hears a message *)
Lemma cadence_on k f w : cadence k (on_key k f w) = f (cadence k w).
Proof. unfold cadence, on_key. simpl. by rewrite lookup_insert_eq. Qed.
Lemma cadence_off k k' f w : k' <> k -> cadence k' (on_key k f w) = cadence k' w.
Proof. intros Hk. unfold cadence, on_key. simpl. by rewrite lookup_insert_ne. Qed.

(** What hearing a message leaves alone. *)
Record apart (k : key) (w w' : Watch) : Prop := {
  ap_fates : wa_fates w = [] -> wa_fates w' = [];
  ap_agents : wa_agents w' = wa_agents w;
  ap_roster : wa_roster w' = wa_roster w;
  ap_keys k' : k' <> k -> cadence k' w' = cadence k' w;
}.
#[export] Instance apart_preorder k : PreOrder (apart k).
Proof.
  split; [by intros w; split|]. intros w1 w2 w3 [A1 A2 A3 A4] [B1 B2 B3 B4]. split; [auto|congruence|congruence|].
  intros k' Hk. rewrite B4 by done. auto.
Qed.
Lemma apart_on k f w : apart k w (on_key k f w).
Proof. split; try done. intros k' Hk. by apply cadence_off. Qed.

Lemma notices_alone agent room owners n w : wa_fates w = [] ->
  exists r w', run (send_notices agent room owners n) w = Some (inr r, w') /\ (forall k, apart k w w') /\ wa_keys w' = wa_keys w.
Proof.
  revert n w. induction owners as [|o l IH]; intros n w Hf; [exists (n, false), w; split_and!; try done; intros k; reflexivity|].
  cbn [send_notices]. unfold attempt, log. rewrite run_bind, run_handle, alone_tell by done. cbv beta iota. rewrite alone_ret. cbv beta iota.
  destruct (IH (S n) (put_log (fun ls => ls ++ [L_notified o agent room]) w) Hf) as (r & w' & Hr & Ha & Hk).
  exists r, w'. split_and!; [done| |done]. intros k. etrans; [|apply Ha]. by split.
Qed.
Lemma notify_alone agent room w : wa_fates w = [] ->
  exists w', run (notify_wakeup_gated agent room) w = Some (inr tt, w') /\ (forall k, apart k w w') /\ wa_keys w' = wa_keys w.
Proof.
  intros Hf. unfold notify_wakeup_gated, claim_gated_notice. rewrite run_bind, alone_call by done. cbv beta iota. cbn [fst snd].
  set (w1 := put_gated _ w). assert (H1 : forall k, apart k w w1) by (intros k; by split).
  destruct (negb _); [|exists w1; by split_and!].
  unfold attempt. rewrite run_bind, run_handle, alone_ask by done. cbv beta iota. rewrite alone_ret. cbv beta iota.
  set (owners := default [] _). destruct (notices_alone (ag_id agent) room owners 0 w1 Hf) as (r & w2 & Hr & Ha & Hk).
  rewrite run_bind, Hr. cbv beta iota. assert (Hf2 : wa_fates w2 = []) by (by apply (ap_fates (1, 1, 1)%positive w1)).
  assert (H2 : forall k, apart k w w2) by (intros k; etrans; [apply H1|apply Ha]).
  destruct (r.2 && _); [|exists w2; by rewrite alone_ret].
  unfold release_gated_notice. rewrite alone_tell by done. eexists. split_and!; [done| |done].
  intros k. etrans; [apply H2|]. by split.
Qed.

Lemma effective_n agents s cfg : effective agents s = Some cfg -> 0 < en_n (every_n_messages (triggers cfg)).
Proof.
  unfold effective, build_room_wakeup. destruct (get_agent _ _ _) as [a|]; [|done]. cbn [fmap option_fmap option_map rw_effective]. intros E. apply (inj Some) in E as <-.
  pose proof (resolve_in_bounds _ (overrides_from_dict false (VDict (b_room_overrides s))) (overrides_from_dict true (VDict (b_runtime_overrides s)))
    (b_observer s) (from_dict_in_bounds (ag_wakeup_config a))) as [Hn _ _ _ _ _ _].
  apply (Z.lt_le_trans _ N_MIN); [done|apply Hn].
Qed.

(** The counter and the deferred firing say what the history does. *)
Definition tuned (k : key) (agent : uuid) (cfg : WakeupConfig) (h : list Message) (w : Watch) : Prop :=
  message_count (cadence k w) = count_of cfg h /\
  fire_due (cadence k w) = (seen_of agent cfg h / en_n (every_n_messages (triggers cfg)) <? count_of cfg h / en_n (every_n_messages (triggers cfg))).

Lemma tuned_quiet k agent cfg h m w w' : counted cfg m = false -> tuned k agent cfg h w ->
  message_count (cadence k w') = message_count (cadence k w) -> fire_due (cadence k w') = fire_due (cadence k w) ->
  tuned k agent cfg (h ++ [m]) w'.
Proof. unfold tuned. intros Hc [H1 H2] -> ->. rewrite count_app, seen_app, Hc, Z.add_0_r. done. Qed.

Lemma evaluate_alone observers room agent s cfg h m w :
  wa_fates w = [] -> ms_room m = room -> b_agent_id s = agent -> effective (wa_agents w) s = Some cfg ->
  let k := (agent, room, b_binding_id s) in
  tuned k agent cfg h w ->
  exists w', run (evaluate_message observers m agent (Some s)) w =
    Some (inr (if due_after agent cfg h m && negb (gated (bool_decide (agent ∈ observers)) cfg (list_room room w) m)
               then Some (agent, b_binding_id s) else None), w') /\
    apart k w w' /\ tuned k agent cfg (h ++ [m]) w'.
Proof.
  intros Hf Hroom Ha He k Ht. pose proof (effective_n _ _ _ He) as Hn. unfold effective in He.
  cbn [evaluate_message]. unfold for_state. rewrite run_bind, alone_ask by done. cbv beta iota.
  destruct (get_agent false (wa_agents w) (b_agent_id s)) as [ag|] eqn:Eg; cbn [fmap option_fmap option_map] in He; [|done].
  apply (inj Some) in He.
  cbn [fmap option_fmap option_map]. rewrite He, Hroom. fold k.
  destruct (is_inert cfg || call_only (triggers cfg)) eqn:Eoff.
  { exists w. assert (Hc : counted cfg m = false) by (unfold counted; destruct (is_inert cfg), (call_only _); done).
    rewrite alone_ret. split_and!; [|reflexivity|by eapply tuned_quiet]. unfold due_after. by rewrite Hc. }
  unfold touch_silence_timestamp. rewrite run_bind, alone_tell by done. cbv beta iota.
  set (w1 := on_key k _ w). assert (H1 : apart k w w1) by apply apart_on.
  assert (C1 : message_count (cadence k w1) = message_count (cadence k w) /\ fire_due (cadence k w1) = fire_due (cadence k w)) by (by unfold w1; rewrite cadence_on).
  rewrite run_bind. set (w2 := if sender_is_user m then on_key k (set_autostop 0 (-1)) w1 else w1).
  assert (E2 : run (if sender_is_user m then reset_autostop k else mret tt) w1 = Some (inr tt, w2)).
  { unfold w2, reset_autostop. destruct (sender_is_user m); [by rewrite alone_tell|done]. }
  rewrite E2. cbv beta iota.
  assert (H2 : apart k w w2) by (etrans; [exact H1|]; unfold w2; destruct (sender_is_user m); [apply apart_on|reflexivity]).
  assert (C2 : message_count (cadence k w2) = count_of cfg h /\
    fire_due (cadence k w2) = (seen_of agent cfg h / en_n (every_n_messages (triggers cfg)) <? count_of cfg h / en_n (every_n_messages (triggers cfg)))).
  { destruct C1 as [C1 C1'], Ht as [<- <-]. rewrite <- C1, <- C1'. unfold w2. by destruct (sender_is_user m); rewrite ?cadence_on. }
  clearbody w2. clear E2 C1 H1 w1. destruct C2 as [C2 D2].
  assert (Hc : counted cfg m = en_enabled (every_n_messages (triggers cfg)) &&
    (bool_decide (en_count (every_n_messages (triggers cfg)) = COUNT_ALL) || sender_is_human m)).
  { unfold counted. apply orb_false_iff in Eoff as [-> ->]. done. }
  rewrite <- Hc. destruct (counted cfg m) eqn:Ecm; [|exists w2; unfold due_after; rewrite Ecm; split_and!; [done..|]].
  2: { destruct Ht as [Ht1 Ht2]. eapply tuned_quiet; [done|by split|congruence|congruence]. }
  assert (Hf2 : wa_fates w2 = []) by (by apply (ap_fates _ _ _ H2)).
  set (n := en_n (every_n_messages (triggers cfg))) in *.
  unfold increment_message_count. rewrite run_bind, alone_call by done. cbv beta iota. cbn [fst snd]. rewrite C2.
  set (w3 := on_key k _ w2). assert (Hn0 : (0 <? n) = true) by (by apply Z.ltb_lt). rewrite Hn0. cbn [andb].
  pose proof (next_multiple (seen_of agent cfg h) (count_of cfg h) n Hn (seen_below agent cfg h)) as Hnext.
  assert (C3 : message_count (cadence k w3) = count_of cfg h + 1) by (unfold w3; rewrite cadence_on; simpl; lia).
  assert (D3 : fire_due (cadence k w3) = fire_due (cadence k w2)) by (by unfold w3; rewrite cadence_on).
  assert (H3 : apart k w w3) by (etrans; [exact H2|apply apart_on]).
  unfold own_message. fold (own_message agent m). unfold due_after. rewrite Ecm, count_app, Ecm. fold n.
  change (bool_decide (Some agent = sender_agent_id m)) with (own_message agent m).
  destruct (own_message agent m) eqn:Eown; cbn [andb negb].
  - set (w4 := if (count_of cfg h + 1) mod n =? 0 then on_key k (set_due true) w3 else w3).
    exists w4. split_and!.
    + rewrite run_bind. unfold set_fire_due, w4. destruct (_ =? 0); [by rewrite alone_tell|done].
    + etrans; [exact H3|]. unfold w4. destruct (_ =? 0); [apply apart_on|reflexivity].
    + unfold tuned. rewrite count_app, seen_app, Ecm, Eown. cbn [andb negb]. fold n. rewrite Hnext.
      unfold w4. destruct (_ =? 0); rewrite ?cadence_on; cbn [orb]; [by rewrite <- C3|]. by rewrite C3, D3, D2.
  - unfold pop_fire_due. rewrite run_bind, alone_call by done. cbv beta iota. cbn [fst snd].
    set (w4 := on_key k (set_due false) w3). rewrite D3, D2, <- Hnext.
    assert (H4 : apart k w w4) by (etrans; [exact H3|apply apart_on]).
    assert (T4 : forall w', wa_keys w' = wa_keys w4 -> tuned k agent cfg (h ++ [m]) w').
    { intros w' Hk. unfold tuned, cadence. rewrite Hk. fold (cadence k w4). rewrite count_app, seen_app, Ecm, Eown. cbn [andb negb].
      rewrite count_app, Ecm. unfold w4. rewrite cadence_on. cbn [message_count fire_due set_due]. rewrite C3.
      split; [done|]. symmetry. by rewrite Z.ltb_irrefl. }
    destruct (seen_of agent cfg h / n <? (count_of cfg h + 1) / n); [|exists w4; split_and!; [done|done|by apply T4]]. cbn [andb].
    unfold presence_gated, gated. rewrite run_bind.
    destruct (negb (bool_decide (agent ∈ observers)) && negb (allow_self_open cfg) && negb (sender_is_user m)); cbn [andb negb];
      [|exists w4; split_and!; [done|done|by apply T4]].
    rewrite alone_ask by (by apply (ap_fates _ _ _ H4)). cbv beta iota. rewrite Hroom.
    replace (list_room room w4) with (list_room room w) by (unfold list_room; by rewrite (ap_roster _ _ _ H4)).
    destruct (bool_decide (list_room room w = [])); [|exists w4; split_and!; [done|done|by apply T4]].
    destruct (notify_alone (rw_agent (build_room_wakeup s ag)) room w4) as (w5 & Hrun & Ha5 & Hk5); [by apply (ap_fates _ _ _ H4)|].
    exists w5. rewrite run_bind, Hrun. split_and!; [done|by etrans|by apply T4].
Qed.

(** ** A room hears it *)
Lemma state_of_agent states a s : state_of states a = Some s -> b_agent_id s = a.
Proof.
  unfold state_of. intros Hs. apply list.last_Some_elem_of in Hs. apply list_elem_of_In, List.filter_In in Hs as [_ Hs].
  by apply Pos.eqb_eq.
Qed.

Lemma omap_same {A B} (f g : A -> option B) (l : list A) : (forall a, f a = g a) -> omap f l = omap g l.
Proof. intros H. induction l as [|a l IH]; [done|]. cbn. by rewrite H, IH. Qed.

Section room.
Context (observers : gset uuid) (states : list Binding) (room : uuid).
Definition attuned (agents : list uuid) (h : list Message) (w : Watch) : Prop :=
  forall a s cfg, a ∈ agents -> state_of states a = Some s -> effective (wa_agents w) s = Some cfg ->
    tuned (a, room, b_binding_id s) a cfg h w.
(** What evaluating these agents leaves alone. *)
Record aside (agents : list uuid) (w w' : Watch) : Prop := {
  as_fates : wa_fates w = [] -> wa_fates w' = [];
  as_agents : wa_agents w' = wa_agents w;
  as_roster : wa_roster w' = wa_roster w;
  as_keys k : k.1.1 ∉ agents -> cadence k w' = cadence k w;
}.
Lemma wakes_same h m a w w' : wa_agents w' = wa_agents w -> wa_roster w' = wa_roster w ->
  wakes_after observers w' states h m a = wakes_after observers w states h m a.
Proof. intros Ha Hr. unfold wakes_after, list_room. by rewrite Ha, Hr. Qed.

Lemma agent_alone h m a w : wa_fates w = [] -> ms_room m = room ->
  (forall s cfg, state_of states a = Some s -> effective (wa_agents w) s = Some cfg -> tuned (a, room, b_binding_id s) a cfg h w) ->
  exists w', run (evaluate_message observers m a (state_of states a)) w = Some (inr (wakes_after observers w states h m a), w') /\
    aside [a] w w' /\
    (forall s cfg, state_of states a = Some s -> effective (wa_agents w) s = Some cfg -> tuned (a, room, b_binding_id s) a cfg (h ++ [m]) w').
Proof.
  intros Hf Hm Ht. assert (Hsame : aside [a] w w) by done. unfold wakes_after.
  destruct (state_of states a) as [s|] eqn:Es; [|by exists w].
  destruct (effective (wa_agents w) s) as [cfg|] eqn:Ee.
  - destruct (evaluate_alone observers room a s cfg h m w Hf Hm (state_of_agent _ _ _ Es) Ee (Ht _ _ eq_refl Ee)) as (w' & Hrun & Ha & Ht').
    exists w'. split_and!.
    + by rewrite Hrun, Hm.
    + destruct Ha as [A1 A2 A3 A4]. split; [done..|]. intros [[x y] z]. simpl. rewrite list_elem_of_singleton. intros Hx. apply A4. congruence.
    + intros s' cfg' [= <-] He'. rewrite Ee in He'. injection He' as <-. done.
  - exists w. split_and!; [|done|intros s' cfg' [= <-]; by rewrite Ee].
    cbn [evaluate_message]. unfold for_state. rewrite run_bind, alone_ask by done. cbv beta iota. unfold effective in Ee.
    by destruct (get_agent _ _ _).
Qed.
Lemma agents_alone h m agents : NoDup agents -> forall w, wa_fates w = [] -> ms_room m = room -> attuned agents h w ->
  exists w', run (on_message_created observers (Some states) agents m) w =
    Some (inr (omap (wakes_after observers w states h m) agents), w') /\
    aside agents w w' /\ attuned agents (h ++ [m]) w'.
Proof.
  intros Hnd w Hf Hm.
  change (on_message_created observers (Some states) agents m)
    with (evaluate_agents (fun a => evaluate_message observers m a (state_of states a)) agents). revert w Hf.
  induction Hnd as [|a agents Hna Hnd IH]; intros w Hf Hat; [exists w; split_and!; [done|done|intros b s cfg Hb; by apply not_elem_of_nil in Hb]|].
  destruct (agent_alone h m a w Hf Hm) as (w1 & Hrun & [A1 A2 A3 A4] & Ht1); [intros; by apply Hat; [left|..]|].
  assert (Hat1 : attuned agents h w1).
  { intros b s cfg Hb Hs He. rewrite A2 in He. specialize (Hat b s cfg (list_elem_of_further _ _ _ Hb) Hs He).
    unfold tuned in *. rewrite A4; [done|]. simpl. intros ->%list_elem_of_singleton. done. }
  destruct (IH w1 (A1 Hf) Hat1) as (w2 & Hrun2 & [B1 B2 B3 B4] & Hat2). exists w2. split_and!.
  - cbn [evaluate_agents]. unfold catch. rewrite run_bind, run_handle, Hrun. cbv beta iota. cbn [run].
    rewrite run_bind, Hrun2. cbv beta iota. rewrite alone_ret, (omap_same _ (wakes_after observers w states h m)) by (intros; by apply wakes_same).
    cbn. by destruct (wakes_after observers w states h m a).
  - split; [auto|congruence|congruence|]. intros k Hk. rewrite not_elem_of_cons in Hk. destruct Hk as [Hk1 Hk2].
    rewrite B4, A4; [done|by rewrite list_elem_of_singleton|done].
  - intros b s cfg Hb Hs He. rewrite B2 in He. apply elem_of_cons in Hb as [->|Hb]; [|apply (Hat2 b s cfg Hb Hs); congruence].
    rewrite A2 in He. specialize (Ht1 s cfg Hs He). unfold tuned in *. by rewrite B4.
Qed.
End room.

Lemma converse_alone observers states room agents ms : NoDup agents -> Forall (fun m => ms_room m = room) ms ->
  forall h w w0, wa_fates w = [] -> wa_agents w = wa_agents w0 -> wa_roster w = wa_roster w0 -> attuned states room agents h w ->
  exists w', run (converse observers states agents ms) w = Some (inr (wakes_of observers w0 states agents h ms), w').
Proof.
  intros Hnd Hms. induction Hms as [|m ms Hm _ IH]; intros h w w0 Hf Ha Hr Hat; [by exists w|].
  destruct (agents_alone observers states room h m agents Hnd w Hf Hm Hat) as (w1 & Hrun & [A1 A2 A3 _] & Hat1).
  destruct (IH (h ++ [m]) w1 w0) as [w2 Hrun2]; [auto|congruence|congruence|done|]. exists w2.
  cbn [converse wakes_of]. rewrite run_bind, Hrun. cbv beta iota. rewrite run_bind, Hrun2. cbv beta iota. rewrite alone_ret.
  do 4 f_equal. apply omap_same. intros a. by apply wakes_same.
Qed.

(** C31. The cadence of the message trigger.  In a conversation of any messages, evaluated
    one by one for the agents of the room from fresh counters, with every command
    answered and no counter expiring in between (seven days after its last count), an
    agent is woken by exactly those messages that its trigger counts, that
    are not its own, and up to which a multiple of its [n] was counted since someone else
    was last counted; but in an empty room an agent's message wakes only observers and
    agents that may open the room. *)
Theorem cadence_by_history observers states room agents ms w (Hfates : wa_fates w = []) (Hagents : NoDup agents)
    (Hroom : Forall (fun m => ms_room m = room) ms)
    (Hfresh : forall a s, a ∈ agents -> state_of states a = Some s -> wa_keys w !! (a, room, b_binding_id s) = None) :
  exists w', run (converse observers states agents ms) w = Some (inr (wakes_of observers w states agents [] ms), w').
Proof.
  apply (converse_alone observers states room); try done. intros a s cfg Ha Hs _. unfold tuned, cadence. rewrite Hfresh by done.
  split; [done|]. symmetry. apply Z.ltb_irrefl.
Qed.

(** Two agents that talk to each other: 8 on every second message, 9 on every third. *)
Definition every (n : Z) : pydict :=
  [("triggers", VDict [("every_n_messages", VDict [("enabled", VBool true); ("n", VInt n)])])]%string.
Definition debate : Watch :=
  mkWatch {[8%positive := mkAgent 8 2 true [] (every 2) false; 9%positive := mkAgent 9 2 true [] (every 3) false]}
    (mkTable {[7%positive := mkRoom None None None None None]} ∅ ∅)
    [mkBinding 7 8 5 false 1 [] [] None; mkBinding 7 9 6 false 1 [] [] None] ∅ {[7%positive := {[3%positive]}]} ∅ ∅ ∅ ∅ ∅ 0 [] [].
Definition said (by_ : option uuid) : Message := mkMessage 7 (absent by_) by_ (absent by_).
Definition exchange : list Message := said <$> [None; Some 8; Some 9; None; Some 8; None]%positive.
Lemma cadence_by_history_witness : exists w',
  run (converse ∅ (wa_bindings debate) [8; 9]%positive exchange) debate =
  Some (inr [[]; []; [(8, 5)]; [(8, 5); (9, 6)]; []; [(8, 5); (9, 6)]]%positive, w').
Proof.
  destruct (cadence_by_history ∅ (wa_bindings debate) 7 [8; 9]%positive exchange debate eq_refl) as [w' Hrun].
  - apply (bool_decide_unpack _). vm_compute. exact I.
  - repeat constructor.
  - intros a s Ha Hs. apply lookup_empty.
  - exists w'. rewrite Hrun. assert (H : wakes_of ∅ debate (wa_bindings debate) [8; 9]%positive [] exchange =
      [[]; []; [(8, 5)]; [(8, 5); (9, 6)]; []; [(8, 5); (9, 6)]]%positive) by (vm_compute; reflexivity). by rewrite H.
Defined.
