(* ===== verification/AutostopFacts.v ===== *)
(** * The bound on what agents do among themselves

    Turns woken by the platform's own triggers aside, autostop bounds the turns agents
    complete between two messages of a user: the jobs of WakeupService.v, the messages
    agents post and the silence sweeps, in any order, in a room nobody reconfigures. *)

From S2P Require Import Prelude PyFloat PyValue OrchBase Wakeup RoomWakeup Interleave WakeupState WakeupService WakeupFacts.

Definition autonomous (trigger : string) : bool :=
  negb (bool_decide (trigger ∈ EXPLICIT_TRIGGERS)) && negb (bool_decide (trigger ∈ PLATFORM_TRIGGERS)).
(** A completed turn of the agent that nobody called for. *)
Definition is_round (agent room : uuid) (l : WakeLog) : bool :=
  match l with
  | L_turn action a r trigger =>
      String.eqb action "wakeup.fired" && Pos.eqb a agent && Pos.eqb r room && autonomous trigger
  | _ => false
  end.
Definition rounds (agent room : uuid) (w : Watch) : Z := Z.of_nat (length (List.filter (is_round agent room) (wa_log w))).
Definition limit_of (s : Binding) (w : Watch) : option Z :=
  (fun cfg => autostop_limit_for (silence_minutes (triggers cfg)) (b_observer s)) <$> effective (wa_agents w) s.

(** What happens in a room left to its agents. *)
Inductive Event :=
  | Woken (agent room : uuid) (trigger : string) (binding_id : option uuid)
  | Posted (agents : list uuid) (m : Message)
  | Swept
  | Elapsed (microseconds : Z).
Definition elapse (dt : Z) (w : Watch) : Watch :=
  mkWatch (wa_agents w) (wa_rooms w) (wa_bindings w) (wa_grants w) (wa_roster w) (wa_composing w) (wa_spoken w) (wa_owners w)
    (wa_keys w) (wa_gated w) (wa_now w + dt) (wa_fates w) (wa_log w).

(** What the code writes: counts, on keys that expire within seven days. *)
Definition sane (w : Watch) : Prop :=
  forall k, 0 <= autostop (cadence k w) /\ autostop_until (cadence k w) <= wa_now w + KEY_TTL.
(** Nothing is reconfigured, no round is completed, and no count is taken back before
    its key expires. *)
Record left_alone (w w' : Watch) : Prop := {
  la_now : wa_now w <= wa_now w';
  la_sane : sane w';
  la_until k : autostop_until (cadence k w) <= autostop_until (cadence k w');
  la_fates : wa_fates w' = [];
  la_agents : wa_agents w' = wa_agents w;
  la_bindings : wa_bindings w' = wa_bindings w;
  la_grants : wa_grants w' = wa_grants w;
  la_rooms : rt_rows (wa_rooms w') = rt_rows (wa_rooms w);
  la_autostop k : wa_now w' <= autostop_until (cadence k w) -> autostop (cadence k w) <= autostop (cadence k w');
  la_rounds a r : rounds a r w' = rounds a r w;
}.
Definition unattended (w w' : Watch) : Prop := wa_fates w = [] -> sane w -> left_alone w w'.
#[export] Instance unattended_preorder : PreOrder unattended.
Proof.
  split; [intros w Hf Hs; by split|]. intros w1 w2 w3 H12 H23 Hf Hs. specialize (H12 Hf Hs). destruct H12 as [A0 As Au A1 A2 A3 A4 A5 A6 A7].
  specialize (H23 A1 As). destruct H23 as [B0 Bs Bu B1 B2 B3 B4 B5 B6 B7]. split; try exact Bs; try congruence; try lia.
  - intros k. etrans; [apply Au|apply Bu].
  - intros k Hk. etrans; [apply A6; lia|apply B6]. specialize (Au k). lia.
Qed.

Section turns.
Context (run_turn : uuid -> uuid -> string -> option uuid -> proc string).

Definition happen (e : Event) : proc unit :=
  match e with
  | Woken agent room trigger b => _ ← attempt (wakeup_agent run_turn agent room trigger b); mret tt
  | Posted agents m => _ ← attempt (on_message_created ∅ None agents m); mret tt
  | Swept => _ ← attempt evaluate_silence; mret tt
  | Elapsed dt => act (fun w => (inr tt, elapse dt w))
  end.
Fixpoint happens (es : list Event) : proc unit :=
  match es with [] => mret tt | e :: es => _ ← happen e; happens es end.
End turns.
(** No user speaks, and time passes forwards. *)
Definition agents_only (e : Event) : Prop :=
  match e with Posted _ m => sender_is_user m = false | Elapsed dt => 0 <= dt | _ => True end.

(** * Facts *)

(** ** Steps that leave the room alone *)
Lemma keeps_call {A} (f : Watch -> A * Watch) : (forall w, unattended w (f w).2) -> keeps unattended (call f).
Proof.
  intros Hf. apply keeps_act. intros w Hw Hs. rewrite Hw. simpl. rewrite fates_nil by done. by apply Hf.
Qed.
Lemma keeps_ask {A} (f : Watch -> A) : keeps unattended (ask f).
Proof. apply keeps_call. intros w. reflexivity. Qed.
Lemma sane_on k f w : sane w -> 0 <= autostop (f (cadence k w)) -> autostop_until (f (cadence k w)) <= wa_now w + KEY_TTL -> sane (on_key k f w).
Proof.
  intros Hs H1 H2 k'. destruct (decide (k' = k)) as [->|Hk]; [by rewrite cadence_on|rewrite cadence_off by done; apply Hs].
Qed.
Lemma unattended_on k f w : (forall c, autostop (f c) = autostop c /\ autostop_until (f c) = autostop_until c) -> unattended w (on_key k f w).
Proof.
  intros Hf Hw Hs. destruct (Hf (cadence k w)) as [E1 E2]. split; try done.
  - apply sane_on; [done|rewrite E1; apply Hs|rewrite E2; apply Hs].
  - intros k'. destruct (decide (k' = k)) as [->|Hk]; [by rewrite cadence_on, E2|by rewrite cadence_off].
  - intros k' _. destruct (decide (k' = k)) as [->|Hk]; [by rewrite cadence_on, E1|by rewrite cadence_off].
Qed.
Lemma count_nonneg k w : sane w -> 0 <= autostop_count k w.
Proof. intros Hs. unfold autostop_count. destruct (_ <=? _); [apply Hs|lia]. Qed.
Lemma keeps_increment k : keeps unattended (increment_autostop k).
Proof.
  apply keeps_call. intros w Hw Hs. pose proof (count_nonneg k w Hs). cbn [snd]. split; try done.
  - apply sane_on; cbn; [done|lia|lia].
  - intros k'. destruct (decide (k' = k)) as [->|Hk]; [rewrite cadence_on; cbn; apply Hs|by rewrite cadence_off].
  - intros k' Hl. destruct (decide (k' = k)) as [->|Hk]; [rewrite cadence_on; cbn|by rewrite cadence_off].
    change (wa_now w <= autostop_until (cadence k w)) in Hl. unfold autostop_count. rewrite (proj2 (Z.leb_le _ _) Hl). lia.
Qed.
Lemma unattended_log ls w : (forall a r, List.filter (is_round a r) ls = []) -> unattended w (put_log (fun l => l ++ ls) w).
Proof.
  intros Hl Hw Hs. split; try done. intros a r. unfold rounds. simpl. by rewrite List.filter_app, Hl, app_nil_r.
Qed.
Lemma keeps_ret {A} (a : A) : keeps (E := OrchestrationError) unattended (mret a).
Proof. apply keeps_done. apply _. Qed.
Lemma keeps_for_state s : keeps unattended (for_state s).
Proof. apply keeps_ask. Qed.
Create HintDb unattended discriminated.
#[local] Hint Resolve keeps_ret keeps_ask keeps_for_state : unattended.

(** Walk through a process, one call at a time. *)
Ltac attend :=
  repeat first
    [ solve [auto with unattended]
    | apply keeps_bind; [apply _| |intros ?] | apply keeps_catch; [apply _| |intros ?]
    | apply keeps_handle; [apply _| |intros ?]
    | apply keeps_get; apply _
    | match goal with |- keeps _ (match ?x with _ => _ end) => destruct x end
    | match goal with |- keeps _ (let x := ?y in _) => cbv zeta end ].

Lemma keeps_notice agent room owners n : keeps unattended (send_notices agent room owners n).
Proof.
  revert n. induction owners as [|o l IH]; intros n; cbn [send_notices]; [attend|]. unfold attempt. attend.
  apply keeps_call. intros w. by apply unattended_log.
Qed.
Lemma keeps_notify agent room : keeps unattended (notify_wakeup_gated agent room).
Proof.
  unfold notify_wakeup_gated, claim_gated_notice, release_gated_notice, attempt. attend; try apply keeps_notice.
  - apply keeps_call. intros w Hw Hs. by split.
  - apply keeps_call. intros w Hw Hs. by split.
Qed.
#[local] Hint Resolve keeps_notify : unattended.
Lemma keeps_touch k : keeps unattended (touch_silence_timestamp k).
Proof. apply keeps_call. intros w. by apply unattended_on. Qed.
Lemma keeps_count k : keeps unattended (increment_message_count k).
Proof. apply keeps_call. intros w. by apply unattended_on. Qed.
Lemma keeps_set_due k : keeps unattended (set_fire_due k).
Proof. apply keeps_call. intros w. by apply unattended_on. Qed.
Lemma keeps_pop_due k : keeps unattended (pop_fire_due k).
Proof. apply keeps_call. intros w. by apply unattended_on. Qed.
#[local] Hint Resolve keeps_touch keeps_count keeps_set_due keeps_pop_due : unattended.

Lemma keeps_message observers m a state : sender_is_user m = false -> keeps unattended (evaluate_message observers m a state).
Proof. intros Hm. unfold evaluate_message, presence_gated. rewrite Hm. destruct state; attend. Qed.
Lemma keeps_posted observers states agents m : sender_is_user m = false -> keeps unattended (on_message_created observers states agents m).
Proof.
  intros Hm. unfold on_message_created. apply keeps_bind; [apply _|destruct states; attend|]. intros l.
  induction agents as [|a agents IH]; cbn [evaluate_agents]; [attend|].
  apply keeps_bind; [apply _|apply keeps_catch; [apply _|by apply keeps_message|intros; attend]|]. intros r.
  apply keeps_bind; [apply _|exact IH|intros; attend].
Qed.
Lemma keeps_silence s : keeps unattended (evaluate_silence_trigger s).
Proof. unfold evaluate_silence_trigger, get_silence_timestamp, get_autostop_count. attend. Qed.
Lemma keeps_job a r b t : keeps unattended (log (L_job a r b t)).
Proof. apply keeps_call. intros w. by apply unattended_log. Qed.
#[local] Hint Resolve keeps_silence keeps_job : unattended.
Lemma keeps_swept : keeps unattended evaluate_silence.
Proof.
  unfold evaluate_silence. attend. generalize 0 as fired. induction a as [|s l IH]; intros fired; cbn [sweep_silence]; [attend|].
  apply keeps_bind; [apply _|attend|]. intros n. apply IH.
Qed.

(** ** A job *)
Lemma binding_of_agent room agent w s : binding_wakeup_state room agent w = Some s -> b_agent_id s = agent.
Proof.
  unfold binding_wakeup_state. destruct (List.filter _ _) as [|b l] eqn:E; [done|]. intros [= ->].
  assert (Hin : In s (List.filter (fun b => Pos.eqb (b_agent_id b) agent) (room_binding_wakeup_states room w))) by (rewrite E; by left).
  apply List.filter_In in Hin as [_ Hin]. by apply Pos.eqb_eq.
Qed.
Lemma keeps_finished room agent reason : keeps unattended (emit_agent_finished_error room agent reason).
Proof. unfold emit_agent_finished_error. attend. apply keeps_call. intros w. by apply unattended_log. Qed.
#[local] Hint Resolve keeps_finished : unattended.
Lemma keeps_guards a r t b : keeps unattended (wakeup_guards a r t b).
Proof. unfold wakeup_guards, room_wakeup, get_autostop_count. attend. Qed.
Lemma keeps_teaching a r : keeps unattended (runs_the_class a r).
Proof. unfold runs_the_class, room_presence_snapshot, attempt. attend. Qed.

(** A job of an autonomous trigger runs a turn only below the limit. *)
Lemma guards_below_limit a r t b w tb w' : wa_fates w = [] -> autonomous t = true ->
  run (wakeup_guards a r t b) w = Some (inr (inr tb), w') ->
  exists s L, binding_wakeup_state r a w = Some s /\ tb = Some (b_binding_id s) /\
    limit_of s w = Some L /\ autostop_count (a, r, b_binding_id s) w < L.
Proof.
  intros Hf Hauto. unfold wakeup_guards, room_wakeup, for_state, get_autostop_count.
  apply andb_true_iff in Hauto as [Hex%negb_true_iff Hpl%negb_true_iff].
  rewrite run_bind, alone_ask by done. cbv beta iota. destruct (live_room r w) as [room|]; [|done].
  rewrite run_bind, alone_ask by done. cbv beta iota. rewrite Hex, Hpl. destruct (get_agent false (wa_agents w) a) as [ag|] eqn:Ea.
  2: { rewrite run_bind, alone_ret. done. }
  destruct (negb (absent (rm_closed_at room))); [done|].
  rewrite !run_bind, alone_ask by done. cbv beta iota. destruct (binding_wakeup_state r a w) as [s|] eqn:Es; [|done].
  rewrite alone_ask by done. cbv beta iota. rewrite (binding_of_agent _ _ _ _ Es), Ea.
  cbn [fmap option_fmap option_map]. change (rw_state (build_room_wakeup s ag)) with s.
  destruct (negb (bool_decide (default (b_binding_id s) b = b_binding_id s))); [done|].
  destruct (call_only _ || _); [done|]. rewrite run_bind, alone_ask by done. cbv beta iota. cbn [negb andb].
  destruct (_ <=? _) eqn:El; [done|]. intros [= <- <-]. exists s, (autostop_limit_for (silence_minutes (triggers (config (rw_effective (build_room_wakeup s ag))))) (b_observer s)).
  split_and!; [done|done| |by apply Z.leb_gt]. unfold limit_of, effective. by rewrite (binding_of_agent _ _ _ _ Es), Ea.
Qed.

Section bound.
Context (run_turn : uuid -> uuid -> string -> option uuid -> proc string).
Context (Hturn : forall a r t b, keeps unattended (run_turn a r t b)).
Context (agent room : uuid) (s : Binding) (limit : Z) (w0 : Watch).
Context (Hbinding : binding_wakeup_state room agent w0 = Some s) (Hlimit : limit_of s w0 = Some limit)
  (Hgrant : default ∅ (activity_control_grant room agent w0) = ∅) (Hsane : sane w0).
Let k : key := (agent, room, b_binding_id s).

(** How long the counter lasts at least: what is left of its key, or seven days from the
    first round. *)
Definition lasts : Z := if wa_now w0 <=? autostop_until (cadence k w0) then autostop_until (cadence k w0) else wa_now w0 + KEY_TTL.
Let c0 : Z := autostop_count k w0.
Let done_ (w : Watch) : Z := rounds agent room w - rounds agent room w0.
Record bounded (w : Watch) : Prop := {
  bo_fates : wa_fates w = [];
  bo_sane : sane w;
  bo_now : wa_now w0 <= wa_now w;
  bo_agents : wa_agents w = wa_agents w0;
  bo_bindings : wa_bindings w = wa_bindings w0;
  bo_grants : wa_grants w = wa_grants w0;
  bo_rooms : rt_rows (wa_rooms w) = rt_rows (wa_rooms w0);
  bo_counted : wa_now w <= lasts ->
    (c0 = 0 /\ done_ w = 0) \/ (lasts <= autostop_until (cadence k w) /\ c0 + done_ w <= autostop (cadence k w));
  bo_bound : wa_now w <= lasts -> done_ w <= Z.max 0 (limit - c0);
}.
Lemma bounded_start : wa_fates w0 = [] -> bounded w0.
Proof.
  intros Hf. split; try done; unfold done_; try lia. intros _. unfold lasts, c0, autostop_count. destruct (wa_now w0 <=? _); [right|left]; lia.
Qed.
Lemma lasts_sane : lasts <= wa_now w0 + KEY_TTL.
Proof. unfold lasts. destruct (_ <=? _); [apply Hsane|lia]. Qed.
Lemma bounded_left_alone w w' : bounded w -> unattended w w' -> bounded w'.
Proof.
  intros [H1 Hs Hn H2 H3 H4 H5 H6 H7] Hu. destruct (Hu H1 Hs) as [A0 As Au A1 A2 A3 A4 A5 A6 A7].
  specialize (A6 k). specialize (Au k). unfold done_ in *. split; unfold done_; rewrite ?A7; try exact As; try congruence; try lia.
Qed.
Lemma bounded_keeps {A} (m : proc A) w r w' : keeps unattended m -> bounded w -> run m w = Some (r, w') -> bounded w'.
Proof. intros Hm Hb Hrun. apply (bounded_left_alone w); [done|]. by apply (Hm w r). Qed.
Lemma bounded_binding w : bounded w -> binding_wakeup_state room agent w = Some s /\ limit_of s w = Some limit.
Proof.
  intros [H1 Hs Hn H2 H3 H4 H5 H6 H7]. unfold binding_wakeup_state, room_binding_wakeup_states, live_room, limit_of in *.
  by rewrite H2, H3, H5.
Qed.
(** A round of the agent is counted. *)
Lemma sent_counts w : wa_fates w = [] -> wa_grants w = wa_grants w0 ->
  exists n, run (on_agent_message_sent agent room (Some (b_binding_id s))) w =
    Some (inr n, on_key k (set_autostop (autostop_count k w + 1) (wa_now w + KEY_TTL)) w).
Proof.
  intros Hf Hg. assert (Hno : run (runs_the_class agent room) w = Some (inr false, w)).
  { unfold runs_the_class, catch. rewrite run_handle, run_bind, alone_ask by done. cbv beta iota.
    unfold activity_control_grant in *. rewrite Hg, Hgrant, bool_decide_true by done. done. }
  unfold on_agent_message_sent, increment_autostop. rewrite run_bind, Hno. cbv beta iota. rewrite alone_call by done. by eexists.
Qed.
Lemma round_rounds w t : autonomous t = true ->
  rounds agent room (put_log (fun ls => ls ++ [L_turn "wakeup.fired" agent room t]) w) = rounds agent room w + 1.
Proof.
  intros Ht. unfold rounds. simpl. rewrite List.filter_app, length_app. cbn [List.filter is_round].
  rewrite !Pos.eqb_refl, Ht. cbn. lia.
Qed.
Lemma other_rounds w action a r t : action <> "wakeup.fired"%string \/ (a, r) <> (agent, room) \/ autonomous t = false ->
  bounded w -> bounded (put_log (fun ls => ls ++ [L_turn action a r t]) w).
Proof.
  intros Hne [H1 Hs Hn H2 H3 H4 H5 H6 H7].
  assert (Hr : rounds agent room (put_log (fun ls => ls ++ [L_turn action a r t]) w) = rounds agent room w).
  { unfold rounds. simpl. rewrite List.filter_app, length_app. cbn [List.filter is_round].
    destruct (String.eqb_spec action "wakeup.fired"), (Pos.eqb_spec a agent), (Pos.eqb_spec r room), (autonomous t); simpl; try lia.
    naive_solver. }
  split; try done; unfold done_ in *; rewrite Hr; done.
Qed.
Lemma keeps_sent a r b : keeps unattended (on_agent_message_sent a r b).
Proof.
  unfold on_agent_message_sent. attend; try apply keeps_teaching; apply keeps_increment.
Qed.
#[local] Hint Resolve keeps_sent : unattended.
Lemma job_bounded a r t b w x w' : bounded w -> run (wakeup_agent run_turn a r t b) w = Some (x, w') -> bounded w'.
Proof.
  intros Hb. unfold wakeup_agent. rewrite run_bind. destruct (run (wakeup_guards a r t b) w) as [[v w1]|] eqn:Eg; [|done].
  assert (Hb1 : bounded w1) by (eapply bounded_keeps; [apply keeps_guards|exact Hb|exact Eg]).
  destruct v as [e|[skipped|tb]]; [by intros [= _ <-]|by intros [= _ <-]|].
  rewrite run_bind. destruct (run (run_turn a r t tb) w1) as [[[e|status] w2]|] eqn:Et; [| |done].
  { intros [= _ <-]. eapply bounded_keeps; [apply Hturn|exact Hb1|exact Et]. }
  assert (Hb2 : bounded w2) by (eapply bounded_keeps; [apply Hturn|exact Hb1|exact Et]).
  rewrite run_bind. unfold log at 1. rewrite alone_tell by apply Hb2. cbv beta iota. set (w3 := put_log _ w2).
  intros Hrest.
  assert (Hend : forall w4, bounded w4 -> forall y w5,
    run (_ ← catch (log (L_signal a)) (fun _ => mret tt); mret status) w4 = Some (y, w5) -> bounded w5).
  { intros w4 Hb4 y w5. apply bounded_keeps; [|done]. attend. apply keeps_call. intros v. by apply unattended_log. }
  destruct (decide (status = "completed"%string /\ (a, r) = (agent, room) /\ autonomous t = true)) as [(-> & [= -> ->] & Ht)|Hne].
  - destruct (guards_below_limit agent room t b w tb w1 (bo_fates w Hb) Ht Eg) as (s' & L & Es & -> & HL & Hlt).
    destruct (bounded_binding w Hb) as [Es' HL']. rewrite Es' in Es. injection Es as <-. rewrite HL' in HL. injection HL as <-.
    assert (Hpl : bool_decide (t ∈ PLATFORM_TRIGGERS) = false) by (apply andb_true_iff in Ht as [_ Ht]; by apply negb_true_iff).
    rewrite Hpl in Hrest. change (String.eqb "completed" "completed" && negb false) with true in Hrest. cbv iota in Hrest.
    destruct (sent_counts w3 (bo_fates w2 Hb2) (bo_grants w2 Hb2)) as [n Hsent].
    rewrite !run_bind, Hsent in Hrest. cbv beta iota in Hrest. rewrite alone_ret in Hrest. cbv beta iota in Hrest.
    refine (Hend _ _ _ _ Hrest). clear Hrest Hend.
    pose proof (keeps_guards _ _ _ _ _ _ _ Eg (bo_fates w Hb) (bo_sane w Hb)) as Hg1.
    pose proof (Hturn _ _ _ _ _ _ _ Et (bo_fates w1 Hb1) (bo_sane w1 Hb1)) as Ht2.
    assert (Hsame : rounds agent room w2 = rounds agent room w) by (etrans; [apply Ht2|apply Hg1]).
    assert (Hnow : wa_now w <= wa_now w2) by (etrans; [apply Hg1|apply Ht2]).
    pose proof (round_rounds w2 t Ht) as Hr. change (rounds agent room w3 = rounds agent room w2 + 1) in Hr.
    pose proof (bo_sane w2 Hb2) as Hs2. pose proof (count_nonneg k w2 Hs2) as Hc2.
    assert (E3 : autostop_count k w3 = autostop_count k w2) by done. rewrite E3.
    destruct Hb as [_ Hs1 Hn1 _ _ _ _ Hcount _]. destruct Hb2 as [H1 Hs Hn H2 H3 H4 H5 H6 H7]. fold k in Hlt.
    unfold done_ in *. split; try done; unfold done_; try (change (rounds agent room (on_key k ?f w3)) with (rounds agent room w3); rewrite Hr).
    + apply sane_on; [exact Hs2|cbn; lia|cbn; lia].
    + intros Hl. change (wa_now w2 <= lasts) in Hl. pose proof lasts_sane. rewrite cadence_on. cbn [autostop autostop_until set_autostop]. right.
      split; [change (wa_now w3) with (wa_now w2); lia|]. destruct (H6 Hl) as [Hz|[Ha Hb]]; [lia|].
      unfold autostop_count. rewrite (proj2 (Z.leb_le _ _)) by lia. lia.
    + intros Hl. change (wa_now w2 <= lasts) in Hl. pose proof (count_nonneg k w Hs1) as Hc1.
      destruct (Hcount ltac:(lia)) as [Hz|[Ha Hb]]; [lia|].
      unfold autostop_count in Hlt. rewrite (proj2 (Z.leb_le _ _)) in Hlt by lia. lia.
  - assert (Hb3 : bounded w3).
    { apply other_rounds; [|done]. unfold wakeup_action.
      destruct (String.eqb_spec status "completed"); [|by left; destruct (String.eqb status "skipped")].
      destruct (decide ((a, r) = (agent, room))); [|by right; left]. right; right. destruct (autonomous t); naive_solver. }
    rewrite run_bind in Hrest.
    match type of Hrest with match ?m with _ => _ end = _ => destruct m as [[[e|u] w4]|] eqn:E4 end; [| |done].
    all: apply bounded_keeps in E4; [|destruct (_ && _); attend|done].
    + by injection Hrest as _ <-.
    + eapply Hend; [exact E4|exact Hrest].
Qed.

Lemma happens_bounded es w x w' :
  Forall agents_only es ->
  bounded w -> run (happens run_turn es) w = Some (x, w') -> bounded w'.
Proof.
  intros Hes. revert w. induction Hes as [|e es He _ IH]; intros w Hb; [by intros [= _ <-]|]. cbn [happens].
  rewrite run_bind. assert (Hstep : forall y w1, run (happen run_turn e) w = Some (y, w1) -> bounded w1).
  { intros y w1. destruct e as [a r t b|agents m| |dt]; cbn [happen]; try rewrite run_bind; unfold attempt; try rewrite run_handle.
    - destruct (run (wakeup_agent _ _ _ _ _) w) as [[v w2]|] eqn:E; [|done]. intros [= _ <-]. by eapply job_bounded.
    - destruct (run (on_message_created _ _ _ _) w) as [[v w2]|] eqn:E; [|done]. intros [= _ <-].
      eapply bounded_keeps; [by apply keeps_posted|done|exact E].
    - destruct (run evaluate_silence w) as [[v w2]|] eqn:E; [|done]. intros [= _ <-].
      eapply bounded_keeps; [apply keeps_swept|done|exact E].
    - intros [= _ <-]. apply (bounded_left_alone w); [done|]. intros Hf Hs. simpl in He. split; try done; [cbn; lia|].
      intros k'. destruct (Hs k') as [Hs1 Hs2]. split; [exact Hs1|]. change (cadence k' (elapse dt w)) with (cadence k' w). cbn. lia. }
  destruct (run (happen run_turn e) w) as [[[err|u] w1]|] eqn:E; [| |done].
  - intros [= _ <-]. by eapply Hstep.
  - intros Hrest. eapply IH; [by eapply Hstep|exact Hrest].
Qed.
End bound.

(** C32. Agents left to themselves stop for as long as the counter lasts.  In a room nobody
    reconfigures and no user speaks in, where every command is answered, whatever
    wake-up jobs run, messages agents post and silence sweeps happen, one after the
    other and with time between them, an agent that does not run the class completes, on
    autonomous triggers, at most as many turns as its limit leaves above the rounds
    counted at the beginning.  The bound holds until the counter's key of the beginning
    expires, and for seven days where there is none.  The turn itself is any that
    completes no round of its own, takes no count back and reconfigures nothing.  After
    that the agent may run again, which the last [Example] shows. *)
Theorem autonomous_rounds_bounded run_turn agent room s limit es w x w'
    (Hturn : forall a r t b, keeps unattended (run_turn a r t b)) (Hsane : sane w)
    (Hfates : wa_fates w = []) (Hbinding : binding_wakeup_state room agent w = Some s) (Hlimit : limit_of s w = Some limit)
    (Hgrant : default ∅ (activity_control_grant room agent w) = ∅)
    (Hposted : Forall agents_only es)
    (Hrun : run (happens run_turn es) w = Some (x, w'))
    (Hlasts : wa_now w' <= lasts agent room s w) :
  rounds agent room w' - rounds agent room w <= Z.max 0 (limit - autostop_count (agent, room, b_binding_id s) w).
Proof.
  pose proof (bounded_start agent room s limit w Hsane Hfates) as Hb.
  pose proof (happens_bounded run_turn Hturn agent room s limit w Hbinding Hlimit Hgrant Hsane es w x w' Hposted Hb Hrun) as [].
  by apply bo_bound0.
Qed.

(** ** Witness *)

(** A turn that posts one message, heard by both agents. *)
Definition reply_turn (agent room : uuid) (trigger : string) (binding : option uuid) : proc string :=
  _ ← on_message_created ∅ None [8; 9]%positive (mkMessage room false (Some agent) false); mret "completed"%string.
Lemma reply_turn_keeps a r t b : keeps unattended (reply_turn a r t b).
Proof. unfold reply_turn. apply keeps_bind; [apply _|by apply keeps_posted|intros; apply keeps_ret]. Qed.
(** Two agents that would go on for ever: eight jobs each, five turns each; and seven
    days later. *)
Definition one_round : list Event := [Woken 8 7 "every_n_messages" (Some 5%positive); Swept; Woken 9 7 "every_n_messages" (Some 6%positive); Elapsed 1000000]%string.
Definition loop : list Event := mjoin (replicate 8 one_round).
Definition debate_binding : Binding := mkBinding 7 8 5 false 1 [] [] None.
Lemma debate_sane : sane debate.
Proof. intros k. unfold cadence. change (wa_keys debate !! k) with (None : option Cadence). split; vm_compute; discriminate. Qed.
Lemma autonomous_rounds_bounded_witness : exists x w', run (happens reply_turn loop) debate = Some (x, w') /\
  rounds 8 7 w' = 5 /\ rounds 8 7 w' - rounds 8 7 debate <= 5.
Proof.
  assert (H : (r ← run (happens reply_turn loop) debate; Some (rounds 8 7 r.2, wa_now r.2)) = Some (5, 8000000)) by (vm_compute; reflexivity).
  apply bind_Some in H as ([x w'] & E & H). injection H as H Hn. exists x, w'. split; [exact E|]. split; [exact H|].
  refine (autonomous_rounds_bounded reply_turn 8 7 debate_binding 5 loop debate x w'
    reply_turn_keeps debate_sane eq_refl eq_refl eq_refl eq_refl _ E _).
  - repeat constructor; discriminate.
  - cbn [snd] in Hn. rewrite Hn. vm_compute. discriminate.
Defined.
(** Nobody has said anything, the counter has expired, and both start over. *)
Example autostop_forgets :
  (r ← run (happens reply_turn (loop ++ [Elapsed (KEY_TTL + 1)] ++ loop)) debate; Some (rounds 8 7 r.2)) = Some 10.
Proof. vm_compute. reflexivity. Qed.
