(* ===== verification/ClassStart.v ===== *)
(** * Opening a room's class

    [on_class_start_check] of [contexts/orchestration/application/wakeup_service.py] over
    the statements of [contexts/conversation/infrastructure/repositories/class_start_repo.py]
    and the setting of [contexts/conversation/domain/models.py], with the sessions that
    run it: [_check_class_start] of [app/api/ws/chatroom.py], the sweep of
    [app/workers/tasks/orchestration.py] and the creator's routes of
    [app/api/v1/class_flow.py], past their authorization.  An update of a row another transaction holds
    waits for it, unless the committed row is out of its reach already. *)

From stdpp Require Import sorting.
From S2P Require Import Prelude PyFloat PyValue OrchBase Wakeup RoomWakeup Interleave WakeupState WakeupService.

(** ** The setting *)
Record ClassStartConfig := mkClassStart { cs_enabled : bool; min_participants : Z; max_wait_minutes : Z }.
Definition CLASS_START_MIN_PARTICIPANTS_RANGE : Z * Z := (1, 100).
Definition CLASS_START_MAX_WAIT_MINUTES_RANGE : Z * Z := (1, 60).

(** [isinstance(value, bool)]; an instance of [int], which a [bool] is, and its value. *)
Definition is_bool (v : pyval) : bool := match v with VBool _ => true | _ => false end.
Definition int_instance (v : pyval) : option Z :=
  match v with VInt z => Some z | VBool b => Some (if b then 1 else 0) | _ => None end.
Definition bounded (v : pyval) (range : Z * Z) : option Z :=
  if is_bool v || absent (int_instance v) then None
  else match int_instance v with Some z => if (range.1 <=? z) && (z <=? range.2) then Some z else None | None => None end.
Definition from_stored (raw : option pyval) : option ClassStartConfig :=
  match raw with
  | Some (VDict d) =>
      match dict_get_none "enabled" d with
      | VBool enabled =>
          match bounded (dict_get_none "min_participants" d) CLASS_START_MIN_PARTICIPANTS_RANGE,
                bounded (dict_get_none "max_wait_minutes" d) CLASS_START_MAX_WAIT_MINUTES_RANGE with
          | Some m, Some w => Some (mkClassStart enabled m w)
          | _, _ => None
          end
      | _ => None
      end
  | _ => None
  end.
Definition to_stored (c : ClassStartConfig) : pyval :=
  VDict [("enabled", VBool (cs_enabled c)); ("min_participants", VInt (min_participants c));
         ("max_wait_minutes", VInt (max_wait_minutes c))]%string.
Definition patched (base : option ClassStartConfig) (enabled : option bool) (minimum wait : option Z) : option ClassStartConfig :=
  match match enabled with Some e => Some e | None => cs_enabled <$> base end,
        match minimum with Some m => Some m | None => min_participants <$> base end,
        match wait with Some w => Some w | None => max_wait_minutes <$> base end with
  | Some e, Some m, Some w => Some (mkClassStart e m w)
  | _, _, _ => None
  end.


(** [ClassStartState.armed], and the predicate [_armed] of the statements. *)
Definition armed (r : Room) : bool :=
  match from_stored (rm_class_config r) with
  | Some c => cs_enabled c && absent (rm_started_at r) && absent (rm_closed_at r)
  | None => false
  end.
Definition sql_armed (r : Room) : bool :=
  match rm_class_config r with
  | Some (VDict d) =>
      match dict_get_none "enabled" d with
      | VBool true => absent (rm_started_at r) && absent (rm_closed_at r)
      | _ => false
      end
  | _ => false
  end.

(** ** Transactions on rooms *)

(** The row as the transaction sees it. *)
Definition row (tx : Tx) (room : uuid) (w : Watch) : option Room :=
  match rt_open (wa_rooms w) !! room with
  | Some (q, r) => if Pos.eqb q (tx_id tx) then Some r else live_room room w
  | None => live_room room w
  end.
Definition set_open f (t : RoomTable) : RoomTable := mkTable (rt_rows t) (f (rt_open t)) (rt_staged t).
Definition set_staged f (t : RoomTable) : RoomTable := mkTable (rt_rows t) (rt_open t) (f (rt_staged t)).
(** [UPDATE … WHERE id AND when RETURNING]: [None] is a wait. *)
Definition update_row {A} (tx : Tx) (room : uuid) (when : Room -> bool) (f : Room -> Room) (out : option Room -> A) (w : Watch)
    : option (A * Watch) :=
  let change r := if when r then (out (Some (f r)), put_rooms (set_open (insert room (tx_id tx, f r))) w) else (out None, w) in
  match rt_open (wa_rooms w) !! room with
  | Some (q, r) =>
      if Pos.eqb q (tx_id tx) then Some (change r)
      else match live_room room w with
           | Some c => if when c then None else Some (out None, w)
           | None => Some (out None, w)
           end
  | None => match live_room room w with Some r => Some (change r) | None => Some (out None, w) end
  end.
(** A command that may have to wait. *)
Definition wait_call {A} (f : Watch -> option (A * Watch)) : proc A := Step (fun w =>
  let w' := put_fates tail w in
  match head (wa_fates w) with
  | Some Lost => Some (Done (inl Infra), w')
  | Some Unanswered => match f w' with Some (_, w'') => Some (Done (inl Infra), w'') | None => None end
  | _ => match f w' with Some (a, w'') => Some (Done (inr a), w'') | None => None end
  end).
(** [audit.emit]: a row of the same transaction. *)
Definition emit (tx : Tx) (l : WakeLog) : proc unit :=
  tell (put_rooms (set_staged (fun m => <[tx_id tx := default [] (m !! tx_id tx) ++ [l]]> m))).
Definition commit_rooms (id : positive) (w : Watch) : Watch :=
  let t := wa_rooms w in
  put_log (fun ls => ls ++ default [] (rt_staged t !! id))
    (put_rooms (fun t => mkTable (omap (fun o => if Pos.eqb o.1 id then Some o.2 else None) (rt_open t) ∪ rt_rows t)
                           (filter (fun o => o.2.1 <> id) (rt_open t)) (delete id (rt_staged t))) w).
Definition abort_rooms (id : positive) : Watch -> Watch :=
  put_rooms (fun t => mkTable (rt_rows t) (filter (fun o => o.2.1 <> id) (rt_open t)) (delete id (rt_staged t))).
Definition commit (tx : Tx) : proc unit := tell (commit_rooms (tx_id tx)).
Definition rollback (tx : Tx) : proc unit := act (fun w => (inr tt, abort_rooms (tx_id tx) w)).

(** ** The repository *)
Definition record_first_arrival (tx : Tx) (room : uuid) : proc unit :=
  wait_call (update_row tx room (fun r => sql_armed r && absent (rm_first_arrival_at r))
               (with_first_arrival (Some (tx_now tx))) (fun _ => tt)).
Definition clear_first_arrival (tx : Tx) (room : uuid) : proc unit :=
  wait_call (update_row tx room (fun r => sql_armed r && negb (absent (rm_first_arrival_at r)))
               (with_first_arrival None) (fun _ => tt)).
Definition claim_start (tx : Tx) (room : uuid) : proc bool :=
  wait_call (update_row tx room sql_armed (with_started (Some (tx_now tx))) (fun r => negb (absent r))).
Definition written_row (config : option ClassStartConfig) (reset : bool) (r : Room) : Room :=
  mkRoom (rm_created_by r) (to_stored <$> config) (if reset then None else rm_first_arrival_at r)
    (if reset then None else rm_started_at r) (if reset then None else rm_closed_at r).
Definition write (tx : Tx) (room : uuid) (config : option ClassStartConfig) (reset : bool) : proc (option Room) :=
  wait_call (update_row tx room (fun _ => true) (written_row config reset) id).
Definition claim_close (tx : Tx) (room : uuid) : proc bool :=
  wait_call (update_row tx room (fun r => absent (rm_closed_at r)) (with_closed (Some (tx_now tx))) (fun r => negb (absent r))).
Definition reopen (tx : Tx) (room : uuid) : proc bool :=
  wait_call (update_row tx room (fun r => negb (absent (rm_closed_at r))) (with_closed None) (fun r => negb (absent r))).
(** [awaiting_start], oldest first. *)
Definition awaiting (r : Room) : bool := sql_armed r && negb (absent (rm_first_arrival_at r)).
Definition older (a b : uuid * Room) : Prop := default 0 (rm_first_arrival_at a.2) <= default 0 (rm_first_arrival_at b.2).
#[export] Instance older_dec : RelDecision older.
Proof. intros a b. unfold older. apply _. Defined.
Definition awaiting_start (limit : nat) (w : Watch) : list uuid :=
  firstn limit (fst <$> merge_sort older (List.filter (fun kr => awaiting kr.2) (map_to_list (rt_rows (wa_rooms w))))).

(** [ConversationFacade.write_class_start] *)
Definition write_class_start (tx : Tx) (room : uuid) (config : option ClassStartConfig) (reset : bool) : proc (option Room) :=
  state ← write tx room config reset;
  match state with
  | Some r => _ ← emit tx (L_class_updated room reset); mret (Some r)
  | None => mret None
  end.

(** ** The check *)
Record PlatformWake := mkWake { pw_targets : list WakeTarget; pw_connected : Z }.

Fixpoint class_targets (bindings : list Binding) : proc (list WakeTarget) :=
  match bindings with
  | [] => mret []
  | b :: bindings =>
      found ← for_state b;
      rest ← class_targets bindings;
      mret (match found with
            | Some current =>
                let t := triggers (config (rw_effective current)) in
                if negb (b_observer b) && class_start t && negb (call_only t) then [(b_agent_id b, b_binding_id b)] else []
            | None => []
            end ++ rest)
  end.
Definition students (r : Room) (ids : list uuid) : Z :=
  Z.of_nat (length (remove_dups (List.filter (fun u => negb (bool_decide (Some u = rm_created_by r))) ids))).
Definition start_reason (c : ClassStartConfig) (connected waited : Z) : option string :=
  if min_participants c <=? connected then Some "min_participants"%string
  else if minutes (max_wait_minutes c) <=? waited then Some "max_wait"%string
  else None.

Definition on_class_start_check (tx : Tx) (room : uuid) (arriving : option uuid) : proc (option PlatformWake) :=
  state ← ask (row tx room);
  match state with
  | None => mret None
  | Some s =>
      match from_stored (rm_class_config s) with
      | None => mret None
      | Some config =>
          if negb (armed s) then mret None
          else
            found ← ask (row tx room);
            match found with
            | None => mret None
            | Some r =>
                first_arrival ←
                  (if absent (rm_first_arrival_at s) && negb (absent arriving) && negb (bool_decide (arriving = rm_created_by r))
                   then _ ← record_first_arrival tx room; t ← get wa_now; mret (Some t)
                   else mret (rm_first_arrival_at s));
                snapshot ← room_presence_snapshot HEADCOUNT_PRESENCE_LIMIT room;
                match snapshot with
                | None => mret None
                | Some ids =>
                    let connected := students r ids in
                    if connected =? 0 then
                      _ ← (if absent first_arrival then mret tt else clear_first_arrival tx room); mret None
                    else
                      since ← (match first_arrival with
                               | Some t => mret t
                               | None => _ ← record_first_arrival tx room; get wa_now
                               end);
                      now ← get wa_now;
                      match start_reason config connected (now - since) with
                      | None => mret None
                      | Some reason =>
                          mine ← claim_start tx room;
                          if (mine : bool) then
                            _ ← emit tx (L_class_started room connected reason);
                            bindings ← ask (room_binding_wakeup_states room);
                            targets ← class_targets bindings;
                            mret (Some (mkWake targets connected))
                          else mret None
                      end
                end
            end
      end
  end.

(** [enqueue_platform_wake] *)
Fixpoint enqueue_platform_wake (room : uuid) (trigger : string) (targets : list WakeTarget) : proc Z :=
  match targets with
  | [] => mret 0
  | t :: targets =>
      n ← catch (_ ← log (L_job t.1 room t.2 trigger); mret 1) (fun _ => mret 0);
      k ← enqueue_platform_wake room trigger targets;
      mret (n + k)
  end.

(** The check in a transaction of its own, up to the commit. *)
Definition check_in_session (id : positive) (room : uuid) (arriving : option uuid) : proc (option PlatformWake) :=
  now ← get wa_now;
  let tx := mkTx id now in
  catch (wake ← on_class_start_check tx room arriving; _ ← commit tx; mret wake)
    (fun _ => _ ← rollback tx; mret None).
(** [_check_class_start] *)
Definition check_class_start (id : positive) (room : uuid) (arriving : option uuid) : proc Z :=
  wake ← check_in_session id room arriving;
  match wake with Some w => enqueue_platform_wake room "class_start" (pw_targets w) | None => mret 0 end.
Definition CLASS_START_SWEEP_LIMIT : nat := 200.
(** The class-start half of [_sweep_platform_wakes]; the code opens the first room's
    transaction with the query. *)
Definition sweep_class_starts (id : positive) : proc Z :=
  catch (rooms ← ask (awaiting_start CLASS_START_SWEEP_LIMIT); for_all rooms (fun room => check_class_start id room None))
    (fun _ => mret 0).

(** ** The creator's routes *)
Inductive ClassReply := NotFound | Unprocessable | ServerError | OK (state : Room).

(** [_check_class_start_now]: [None] when the check failed. *)
Definition check_class_start_now (id : positive) (room : uuid) : proc (option Room) :=
  now ← get wa_now;
  let tx := mkTx id now in
  catch
    (wake ← on_class_start_check tx room None;
     _ ← commit tx;
     _ ← (match wake with Some w => enqueue_platform_wake room "class_start" (pw_targets w) | None => mret 0 end);
     ask (row tx room))
    (fun _ => _ ← rollback tx; mret None).

(** A route's work in its transaction: an error reply or an exception undoes it. *)
Definition route (id : positive) (body : Tx -> proc (ClassReply + Room)) : proc (ClassReply + Room) :=
  now ← get wa_now;
  let tx := mkTx id now in
  r ← attempt (reply ← body tx;
               match reply with
               | inl refused => _ ← rollback tx; mret (inl refused)
               | inr state => _ ← commit tx; mret (inr state)
               end);
  match r with
  | inr reply => mret reply
  | inl _ => _ ← rollback tx; mret (inl ServerError)
  end.
Definition patch_class_start (id : positive) (room : uuid) (enabled : option bool) (minimum wait : option Z) (reset : bool) : proc ClassReply :=
  reply ← route id (fun tx =>
    current ← ask (row tx room);
    match current with
    | None => mret (inl NotFound)
    | Some c =>
        match patched (from_stored (rm_class_config c)) enabled minimum wait with
        | None => mret (inl Unprocessable)
        | Some config =>
            state ← write_class_start tx room (Some config) reset;
            mret match state with Some s => inr s | None => inl NotFound end
        end
    end);
  match reply with
  | inl refused => mret refused
  | inr s =>
      if armed s then checked ← check_class_start_now id room; mret (OK (default s checked))
      else mret (OK s)
  end.
(** [close_class], [reopen_class] and [_committed_state]. *)
Definition close_or_reopen (id : positive) (room : uuid) (closing : bool) : proc ClassReply :=
  reply ← route id (fun tx =>
    changed ← (if closing then claim_close tx room else reopen tx room);
    _ ← (if (changed : bool) then emit tx (L_class_close room closing) else mret tt);
    state ← ask (row tx room);
    mret match state with Some s => inr s | None => inl NotFound end);
  mret match reply with inl refused => refused | inr s => OK s end.
