(* ===== verification/ClassStartFacts.v ===== *)
(** * A class opens once

    Checks, sweeps and the creator's routes of ClassStart.v, as the processes of a pool:
    whatever their interleaving, their failures and their crashes, the committed audit
    shows no second opening of a room's class without a reset in between. *)

From S2P Require Import Prelude PyFloat PyValue OrchBase Wakeup RoomWakeup Interleave WakeupState WakeupService ClassStart.

(** ** What the audit says of a room's class *)
Definition class_event (room : uuid) (l : WakeLog) : option bool :=
  match l with
  | L_class_started x _ _ => if Pos.eqb x room then Some true else None
  | L_class_updated x true => if Pos.eqb x room then Some false else None
  | _ => None
  end.
Definition events (room : uuid) (ls : list WakeLog) : list bool := omap (class_event room) ls.
(** Running after the events, or [None] when a running class is opened. *)
Fixpoint opens (running : bool) (es : list bool) : option bool :=
  match es with
  | [] => Some running
  | true :: es => if running then None else opens true es
  | false :: es => opens false es
  end.

Lemma events_app room l1 l2 : events room (l1 ++ l2) = events room l1 ++ events room l2.
Proof. apply omap_app. Qed.
Lemma events_one room l : events room [l] = option_list (class_event room l).
Proof. unfold events. cbn. by destruct (class_event room l). Qed.
Lemma opens_app b l1 l2 : opens b (l1 ++ l2) = match opens b l1 with Some c => opens c l2 | None => None end.
Proof. revert b. induction l1 as [|[] l1 IH]; intros b; simpl; [done| |apply IH]. destruct b; [done|apply IH]. Qed.

(** ** The invariant *)
Definition own (p : positive) (w : Watch) : gmap uuid Room :=
  omap (fun o => if Pos.eqb o.1 p then Some o.2 else None) (rt_open (wa_rooms w)).
Definition staged (p : positive) (w : Watch) : list WakeLog := default [] (rt_staged (wa_rooms w) !! p).

Lemma own_Some p w room r : own p w !! room = Some r <-> rt_open (wa_rooms w) !! room = Some (p, r).
Proof.
  unfold own. rewrite lookup_omap. destruct (rt_open (wa_rooms w) !! room) as [[q r']|]; simpl; [|done].
  destruct (Pos.eqb_spec q p); split; congruence.
Qed.

Record class_inv (w : Watch) : Prop := {
  ci_log room : exists b, opens false (events room (wa_log w)) = Some b /\
    (b = true -> forall c, live_room room w = Some c -> rm_started_at c <> None);
  ci_open room p r : own p w !! room = Some r -> is_Some (live_room room w);
  ci_staged p room : events room (staged p w) <> [] -> is_Some (own p w !! room);
}.

(** What the others leave to a process. *)
Record others_keep (p : positive) (w w' : Watch) : Prop := {
  ok_own : own p w' = own p w;
  ok_staged : staged p w' = staged p w;
  ok_rows room r : own p w !! room = Some r ->
    live_room room w' = live_room room w /\ events room (wa_log w') = events room (wa_log w);
}.
#[export] Instance others_keep_preorder p : PreOrder (others_keep p).
Proof.
  split; [by intros w; split|]. intros w1 w2 w3 [A1 A2 A3] [B1 B2 B3]. split; [congruence..|].
  intros room r Hr. destruct (A3 _ _ Hr) as [<- <-]. apply (B3 room r). by rewrite A1.
Qed.

(** ** Where a transaction stands *)
Definition clean (p : positive) (w : Watch) : Prop := own p w = ∅ /\ staged p w = [].
(** Its rows are as open as the committed ones, and it audited no opening. *)
Definition unchanged (p : positive) (w : Watch) : Prop :=
  (forall room, events room (staged p w) = []) /\
  forall room r c, own p w !! room = Some r -> live_room room w = Some c -> rm_started_at r = rm_started_at c.
(** It holds the claim of a room and has not audited it. *)
Definition claimed (p : positive) (room : uuid) (w : Watch) : Prop :=
  (forall x, events x (staged p w) = []) /\
  (exists r, own p w !! room = Some r /\ rm_started_at r <> None /\ opens false (events room (wa_log w)) = Some false) /\
  forall x r c, x <> room -> own p w !! x = Some r -> live_room x w = Some c -> rm_started_at r = rm_started_at c.
(** What it wrote and what it audited agree. *)
Definition settled (p : positive) (w : Watch) : Prop :=
  forall room r, own p w !! room = Some r -> exists b,
    opens false (events room (wa_log w ++ staged p w)) = Some b /\ (b = true -> rm_started_at r <> None).
(** It wrote the room's setting and has not audited it. *)
Definition rewritten (p : positive) (room : uuid) (reset : bool) (w : Watch) : Prop :=
  staged p w = [] /\
  (exists r, own p w !! room = Some r /\ (reset = false -> forall c, live_room room w = Some c -> rm_started_at r = rm_started_at c)) /\
  forall x, x <> room -> own p w !! x = None.

Notation stable := (stable class_inv others_keep).
Notation triple := (triple class_inv others_keep).

Ltac stably := intros w w' [Ho Hs Hr] _; unfold clean, unchanged, claimed, settled, rewritten; rewrite ?Ho, ?Hs; try done.
Lemma clean_stable p : stable p (clean p).
Proof. stably. Qed.
Lemma true_stable p : stable p (fun _ => True).
Proof. done. Qed.
Lemma unchanged_stable p : stable p (unchanged p).
Proof. stably. intros [H1 H2]. split; [done|]. intros room r c Hown. destruct (Hr _ _ Hown) as [-> _]. by apply H2. Qed.
Lemma claimed_stable p room : stable p (claimed p room).
Proof.
  stably. intros (H1 & (r & Hown & Hst & Hop) & H3). split_and!; [done| |].
  - exists r. destruct (Hr _ _ Hown) as [_ ->]. done.
  - intros x r' c Hx Hown'. destruct (Hr _ _ Hown') as [-> _]. by apply H3.
Qed.
Lemma settled_stable p : stable p (settled p).
Proof.
  stably. intros H room r Hown. destruct (H _ _ Hown) as (b & Hb & Hst). exists b. rewrite events_app in *.
  destruct (Hr _ _ Hown) as [_ ->]. done.
Qed.
Lemma rewritten_stable p room reset : stable p (rewritten p room reset).
Proof.
  stably. intros (H1 & (r & Hown & Hst) & H3). split_and!; [done| |done]. exists r. destruct (Hr _ _ Hown) as [-> _]. done.
Qed.
Create HintDb class discriminated.
#[export] Hint Resolve clean_stable true_stable unchanged_stable claimed_stable settled_stable rewritten_stable : class.

Lemma clean_unchanged p w : clean p w -> unchanged p w.
Proof. intros [Ho Hs]. split; rewrite ?Ho, ?Hs; done. Qed.
Lemma unchanged_settled p w : class_inv w -> unchanged p w -> settled p w.
Proof.
  intros Hi [H1 H2] room r Hown. destruct (ci_log _ Hi room) as (b & Hb & Hst).
  exists b. rewrite events_app, H1, app_nil_r. split; [done|]. intros ->.
  destruct (ci_open _ Hi _ _ _ Hown) as [c Hc]. rewrite (H2 _ _ _ Hown Hc). by apply Hst.
Qed.

(** ** Steps that leave the rooms alone *)
Definition same_rooms (w w' : Watch) : Prop :=
  wa_rooms w' = wa_rooms w /\ forall room, events room (wa_log w') = events room (wa_log w).
Lemma same_rooms_keeps w w' p : same_rooms w w' -> others_keep p w w'.
Proof. intros [Hr He]. split; unfold own, staged, live_room; rewrite ?Hr; done. Qed.
Lemma same_rooms_inv w w' : same_rooms w w' -> class_inv w -> class_inv w'.
Proof.
  intros [Hr He] [H1 H2 H3]. split; unfold own, staged, live_room in *; rewrite ?Hr; [|done|done].
  intros room. rewrite He. apply H1.
Qed.

Fixpoint quiet {A} (m : proc A) : Prop :=
  match m with
  | Done _ => True
  | Step f => forall w, match f w with Some (m', w') => same_rooms w w' /\ quiet m' | None => True end
  end.
Lemma quiet_triple {A} p P (m : proc A) : stable p P -> quiet m -> triple p P m (fun _ => P).
Proof.
  intros HP. induction m as [r|f IH] using proc_ind'; simpl; intros Hq w Hi HPw w1 Hr Hi1; [by apply (HP w w1)|].
  specialize (Hq w1). destruct (f w1) as [[m' w2]|] eqn:Ef; [|done]. destruct Hq as [Hs Hq].
  assert (Hi2 : class_inv w2) by (by apply (same_rooms_inv w1)).
  split_and!; [done|intros q _; by apply same_rooms_keeps|]. apply (IH _ _ _ Ef); [done..|].
  apply (HP w1 w2); [by apply same_rooms_keeps|done|]. by apply (HP w w1).
Qed.
Lemma quiet_handle {A B} (m : proc A) (k : OrchestrationError + A -> proc B) :
  quiet m -> (forall r, quiet (k r)) -> quiet (handle m k).
Proof.
  intros Hm Hk. induction m as [r|f IH] using proc_ind'; simpl in *; [apply Hk|]. intros w. specialize (Hm w).
  destruct (f w) as [[m' w']|] eqn:Ef; [|done]. destruct Hm as [Hs Hm]. split; [done|]. by apply (IH _ _ _ Ef).
Qed.
Lemma quiet_bind {A B} (m : proc A) (k : A -> proc B) : quiet m -> (forall a, quiet (k a)) -> quiet (m ≫= k).
Proof. intros Hm Hk. apply quiet_handle; [done|]. intros [e|a]; [done|apply Hk]. Qed.
Lemma quiet_catch {A} (m : proc A) (k : OrchestrationError -> proc A) : quiet m -> (forall e, quiet (k e)) -> quiet (catch m k).
Proof. intros Hm Hk. apply quiet_handle; [done|]. intros [e|a]; [apply Hk|done]. Qed.
Lemma quiet_call {A} (f : Watch -> A * Watch) : (forall w, same_rooms w (f w).2) -> quiet (call f).
Proof.
  intros Hf w. simpl. split; [|done]. destruct (Hf (put_fates tail w)) as [H1 H2].
  destruct (head (wa_fates w)) as [[]|]; done.
Qed.
Lemma quiet_ask {A} (f : Watch -> A) : quiet (ask f).
Proof. by apply quiet_call. Qed.
Lemma quiet_get {A} (f : Watch -> A) : quiet (get f).
Proof. done. Qed.
Lemma quiet_log l : (forall room, class_event room l = None) -> quiet (log l).
Proof. intros Hl. apply quiet_call. intros w. split; [done|]. intros room. simpl. rewrite events_app. cbn. rewrite Hl. apply app_nil_r. Qed.
Lemma quiet_for_all {A} (l : list A) f : (forall x, quiet (f x)) -> quiet (for_all l f).
Proof. intros Hf. induction l as [|x l IH]; [done|]. apply quiet_bind; [done|]. intros n. by apply quiet_bind. Qed.

Lemma quiet_snapshot limit room : quiet (room_presence_snapshot limit room).
Proof. apply quiet_bind; [|done]. apply quiet_handle; [apply quiet_ask|done]. Qed.
Lemma quiet_targets bindings : quiet (class_targets bindings).
Proof.
  induction bindings as [|b l IH]; [done|]. apply quiet_bind; [apply quiet_ask|]. intros found. by apply quiet_bind.
Qed.
Lemma quiet_enqueue room trigger targets : quiet (enqueue_platform_wake room trigger targets).
Proof.
  induction targets as [|t l IH]; [done|]. apply quiet_bind; [|intros n; by apply quiet_bind].
  apply quiet_catch; [|done]. apply quiet_bind; [by apply quiet_log|done].
Qed.
#[export] Hint Resolve quiet_ask quiet_get quiet_snapshot quiet_targets quiet_enqueue : class.

(** ** Updates *)
Lemma row_own tx room w : (forall q r, rt_open (wa_rooms w) !! room = Some (q, r) -> q = tx_id tx) ->
  row tx room w = match own (tx_id tx) w !! room with Some r => Some r | None => live_room room w end.
Proof.
  intros Hq. unfold row, own. rewrite lookup_omap. destruct (rt_open (wa_rooms w) !! room) as [[q r]|]; [|done].
  specialize (Hq _ _ eq_refl). simpl. by rewrite Hq, Pos.eqb_refl.
Qed.
Lemma update_row_run {A} tx room when f (out : option Room -> A) w a w' : update_row tx room when f out w = Some (a, w') ->
  (a = out None /\ w' = w) \/
  exists r, row tx room w = Some r /\ when r = true /\
    (forall q r', rt_open (wa_rooms w) !! room = Some (q, r') -> q = tx_id tx) /\
    a = out (Some (f r)) /\ w' = put_rooms (set_open (insert room (tx_id tx, f r))) w.
Proof.
  unfold update_row, row. destruct (rt_open (wa_rooms w) !! room) as [[q r]|] eqn:E.
  - destruct (Pos.eqb_spec q (tx_id tx)) as [->|Hq].
    + destruct (when r) eqn:Ew; intros [= <- <-]; [right|by left]. exists r. split_and!; try done. congruence.
    + destruct (live_room room w) as [c|]; [destruct (when c); [done|]|]; intros [= <- <-]; by left.
  - destruct (live_room room w) as [r|]; [|intros [= <- <-]; by left].
    destruct (when r) eqn:Ew; intros [= <- <-]; [right|by left]. exists r. by split_and!.
Qed.

Section opened.
Context (p : positive) (room : uuid) (r : Room) (w : Watch).
Let w' := put_rooms (set_open (insert room (p, r))) w.
Context (Hi : class_inv w) (Hlive : is_Some (live_room room w))
  (Hfree : forall q r', rt_open (wa_rooms w) !! room = Some (q, r') -> q = p).
Lemma opened_own : own p w' = <[room := r]> (own p w).
Proof.
  apply map_eq. intros x. apply option_eq. intros s. rewrite own_Some. unfold w'. simpl.
  rewrite !lookup_insert_Some, own_Some. naive_solver.
Qed.
Lemma opened_own_other q : q <> p -> own q w' = own q w.
Proof.
  intros Hq. apply map_eq. intros x. apply option_eq. intros s. rewrite !own_Some. unfold w'. simpl.
  rewrite lookup_insert_Some. split; [naive_solver|]. intros Hx. right. split; [|done].
  intros ->. apply Hq. symmetry. symmetry. by eapply Hfree.
Qed.
Lemma opened_inv : class_inv w'.
Proof.
  split; [apply (ci_log _ Hi)| |].
  - intros x q s. destruct (decide (q = p)) as [->|Hq]; [|rewrite opened_own_other by done; by apply (ci_open _ Hi)].
    rewrite opened_own. intros [[-> _]|[_ Hs]]%lookup_insert_Some; [done|]. by apply (ci_open _ Hi x p s).
  - intros q x Hq. pose proof (ci_staged _ Hi q x Hq) as Hs. destruct (decide (q = p)) as [->|Hqp]; [|by rewrite opened_own_other].
    rewrite opened_own. destruct (decide (x = room)) as [->|]; [rewrite lookup_insert_eq; by eexists|by rewrite lookup_insert_ne].
Qed.
Lemma opened_keeps q : q <> p -> others_keep q w w'.
Proof. intros Hq. split; [by apply opened_own_other|done|done]. Qed.
End opened.

Lemma row_live tx room w r : class_inv w -> row tx room w = Some r -> is_Some (live_room room w).
Proof.
  intros Hi. unfold row. destruct (rt_open (wa_rooms w) !! room) as [[q s]|] eqn:E; [|by eexists].
  destruct (Pos.eqb_spec q (tx_id tx)) as [->|]; [|by eexists]. intros _. apply own_Some in E. by apply (ci_open _ Hi) in E.
Qed.

Lemma same_fates w : same_rooms w (put_fates tail w).
Proof. done. Qed.

Lemma triple_update {A} p now room when f (out : option Room -> A) (P : Watch -> Prop) (Q : OrchestrationError + A -> Watch -> Prop) :
  stable p P -> (forall r, stable p (Q r)) -> (forall e w, Q (inl e) w) ->
  (forall w, class_inv w -> P w -> Q (inr (out None)) w) ->
  (forall w r, class_inv w -> P w ->
     row (mkTx p now) room w = Some r -> when r = true ->
     own p (put_rooms (set_open (insert room (p, f r))) w) = <[room := f r]> (own p w) ->
     match own p w !! room with Some s => r = s | None => live_room room w = Some r end ->
     Q (inr (out (Some (f r)))) (put_rooms (set_open (insert room (p, f r))) w)) ->
  triple p P (wait_call (update_row (mkTx p now) room when f out)) Q.
Proof.
  intros HP HQ Herr Hnone Hsome w0 Hi0 HP0 w Hr Hi. simpl.
  assert (HPw : P (put_fates tail w)) by (apply (HP w); [by apply same_rooms_keeps|by apply (same_rooms_inv w)|by apply (HP w0)]).
  assert (Hi' : class_inv (put_fates tail w)) by (by apply (same_rooms_inv w)).
  set (w1 := put_fates tail w) in *.
  assert (Hk1 : forall q, q <> p -> others_keep q w w1) by (intros q _; by apply same_rooms_keeps).
  assert (Hend : forall (o : option (A * Watch)) (g : A -> OrchestrationError + A),
    (o = update_row (mkTx p now) room when f out w1) -> (forall a, g a = inr a \/ exists e, g a = inl e) ->
    match match o with Some (a, w'') => Some (Done (g a), w'') | None => None end with
    | Some (m', w2) => class_inv w2 /\ (forall q, q <> p -> others_keep q w w2) /\ safe class_inv others_keep p m' Q w2
    | None => True end).
  { intros o g -> Hg. destruct (update_row _ _ _ _ _ w1) as [[a w2]|] eqn:E; [|done].
    assert (Hdone : class_inv w2 -> (forall q, q <> p -> others_keep q w1 w2) -> Q (inr a) w2 ->
      class_inv w2 /\ (forall q, q <> p -> others_keep q w w2) /\ safe class_inv others_keep p (Done (g a)) Q w2).
    { intros Hi2 Hk2 HQa. split_and!; [done|intros q Hq; etrans; [by apply Hk1|by apply Hk2]|].
      simpl. intros w3 Hr3 Hi3. destruct (Hg a) as [->|[e ->]]; [by apply (HQ _ w2)|apply Herr]. }
    apply update_row_run in E as [[-> ->]|(r & Hrow & Hw & Hfree & -> & ->)].
    - apply Hdone; [done|intros q _; reflexivity|by apply Hnone].
    - pose proof (row_live _ _ _ _ Hi' Hrow) as Hlive. simpl in *.
      apply Hdone; [by apply opened_inv|intros q Hq; by apply opened_keeps|].
      apply Hsome; [done..|by apply opened_own|]. rewrite (row_own (mkTx p now)) in Hrow by done. simpl in Hrow.
      by destruct (own p w1 !! room); [injection Hrow as ->|]. }
  destruct (head (wa_fates w)) as [[]|].
  - apply (Hend _ inr eq_refl). auto.
  - split_and!; [done|done|]. simpl. intros w3 Hr3 Hi3. apply Herr.
  - apply (Hend _ (fun _ => inl Infra) eq_refl). eauto.
  - apply (Hend _ inr eq_refl). auto.
Qed.

(** What holds when a step succeeds; a failure promises nothing. *)
Definition ok {A} (Q : A -> Watch -> Prop) (r : OrchestrationError + A) (w : Watch) : Prop :=
  match r with inl _ => True | inr a => Q a w end.
Lemma ok_stable {A} p (Q : A -> Watch -> Prop) : (forall a, stable p (Q a)) -> forall r, stable p (ok Q r).
Proof. by intros H [e|a]; [|apply H]. Qed.

Lemma triple_ok_bind {A B} p P (m : proc A) (R : A -> Watch -> Prop) (k : A -> proc B) (Q : B -> Watch -> Prop) :
  triple p P m (ok R) -> (forall a, triple p (R a) (k a) (ok Q)) -> triple p P (m ≫= k) (ok Q).
Proof. intros Hm Hk. apply (triple_bind _ _ p P m R k (ok Q)); [|done|done].
  eapply triple_conseq; [exact Hm|auto|]. by intros [e|a]. Qed.
Lemma triple_ret {A} p (a : A) (Q : A -> Watch -> Prop) : stable p (Q a) -> triple p (Q a) (mret a) (ok Q).
Proof. intros HQ w Hi HQw w1 Hr Hi1. by apply (HQ w w1). Qed.
Lemma weaken_triple {A} p (P P' : Watch -> Prop) (m : proc A) Q : triple p P m Q ->
  (forall w, class_inv w -> P' w -> P w) -> triple p P' m Q.
Proof. intros H HP. eapply triple_conseq; [exact H|exact HP|auto]. Qed.
Lemma triple_quiet_ok {A} p P (m : proc A) : stable p P -> quiet m -> triple p P m (ok (fun _ => P)).
Proof. intros HP Hm. eapply triple_conseq; [by apply (quiet_triple p P m)|auto|]. by intros [e|a]. Qed.

Lemma triple_tell p f (P Q : Watch -> Prop) : stable p P -> stable p Q ->
  (forall w, class_inv w -> P w -> class_inv (f w) /\ (forall q, q <> p -> others_keep q w (f w)) /\ Q (f w)) ->
  triple p P (tell f) (ok (fun _ => Q)).
Proof.
  intros HP HQ Hf. apply triple_act; [done|by apply ok_stable|]. intros w Hi HPw. cbv zeta.
  set (w1 := put_fates tail w).
  assert (HP1 : P w1) by (apply (HP w); [by apply same_rooms_keeps|by apply (same_rooms_inv w)|done]).
  assert (Hi1 : class_inv w1) by (by apply (same_rooms_inv w)).
  destruct (Hf w1 Hi1 HP1) as (H1 & H2 & H3).
  assert (Hk : forall q, q <> p -> others_keep q w (f w1)) by (intros q Hq; etrans; [apply (same_rooms_keeps w w1); done|by apply H2]).
  destruct (head (wa_fates w)) as [[]|]; by split_and!.
Qed.

Lemma triple_same_start p now room when f {A} (out : option Room -> A) :
  (forall r, rm_started_at (f r) = rm_started_at r) ->
  triple p (unchanged p) (wait_call (update_row (mkTx p now) room when f out)) (ok (fun _ => unchanged p)).
Proof.
  intros Hf. apply triple_update; [auto with class|apply ok_stable; auto with class|done|done|].
  intros w r Hi [H1 H2] _ _ Hown Hr. split; [done|]. rewrite Hown. intros x s c [[<- <-]|[_ Hs]]%lookup_insert_Some Hc.
  - rewrite Hf. change (live_room room w = Some c) in Hc. destruct (own p w !! room) as [s|] eqn:E; [subst s; by eapply H2|congruence].
  - by eapply H2.
Qed.

Lemma armed_not_started r : sql_armed r = true -> rm_started_at r = None.
Proof.
  unfold sql_armed. destruct (rm_class_config r) as [[]|]; try done. destruct (dict_get_none _ _) as [|[]| | | | |]; try done.
  by destruct (rm_started_at r).
Qed.
Lemma triple_claim p now room : triple p (unchanged p) (claim_start (mkTx p now) room)
  (ok (fun mine => if (mine : bool) then claimed p room else unchanged p)).
Proof.
  apply triple_update; [auto with class|apply ok_stable; intros []; auto with class|done|done|].
  intros w r Hi [H1 H2] _ Hw Hown Hr. apply armed_not_started in Hw. simpl in Hown |- *. split_and!; [done| |].
  - exists (with_started (Some now) r). rewrite Hown, lookup_insert_eq. split_and!; [done..|].
    change (opens false (events room (wa_log w)) = Some false). destruct (ci_log _ Hi room) as (b & Hb & Hst). rewrite Hb. destruct b; [exfalso|done].
    destruct (own p w !! room) as [s|] eqn:E.
    + subst s. destruct (ci_open _ Hi _ _ _ E) as [c Hc]. apply (Hst eq_refl c Hc). rewrite <- Hw. symmetry. by apply (H2 room).
    + by apply (Hst eq_refl r).
  - intros x s c Hx. rewrite Hown, lookup_insert_ne by done. apply H2.
Qed.

Lemma staged_emit p l w : staged p (put_rooms (set_staged (fun m => <[p := default [] (m !! p) ++ [l]]> m)) w) = staged p w ++ [l].
Proof. unfold staged. simpl. by rewrite lookup_insert_eq. Qed.
Lemma triple_emit p now l (P Q : Watch -> Prop) : stable p P -> stable p Q ->
  (forall w room, P w -> class_event room l <> None -> is_Some (own p w !! room)) ->
  (forall w w', class_inv w -> P w -> own p w' = own p w -> wa_log w' = wa_log w -> staged p w' = staged p w ++ [l] ->
    (forall room, live_room room w' = live_room room w) -> Q w') ->
  triple p P (emit (mkTx p now) l) (ok (fun _ => Q)).
Proof.
  intros HP HQ Hl Hq. apply triple_tell; [done..|]. intros w Hi HPw. simpl.
  set (w' := put_rooms _ w). split_and!.
  - split; [apply (ci_log _ Hi)|apply (ci_open _ Hi)|]. intros q room He. change (is_Some (own q w !! room)).
    destruct (decide (q = p)) as [->|Hqp].
    + unfold w' in He. rewrite staged_emit, events_app in He. destruct (events room (staged p w)) eqn:E.
      * apply (Hl w); [done|]. intros E2. cbn in He. by rewrite E2 in He.
      * apply (ci_staged _ Hi). by rewrite E.
    + apply (ci_staged _ Hi). unfold staged, w' in *. simpl in He. by rewrite lookup_insert_ne in He.
  - intros q Hqp. split; [done| |done]. unfold staged, w'. simpl. by rewrite lookup_insert_ne.
  - apply (Hq w); try done. apply staged_emit.
Qed.

Lemma triple_emit_started p now room k reason :
  triple p (claimed p room) (emit (mkTx p now) (L_class_started room k reason)) (ok (fun _ => settled p)).
Proof.
  apply triple_emit; [auto with class..| |].
  - intros w x (_ & (r & Hr & _) & _) He. simpl in He. destruct (Pos.eqb_spec room x) as [<-|]; [by eexists|done].
  - intros w w' Hi (H1 & (r & Hr & Hst & Hop) & H3) Ho Hlog Hs Hlive x s. rewrite Ho, Hlog, Hs, !events_app, H1, events_one. intros Hown.
    simpl. destruct (Pos.eqb_spec room x) as [<-|Hx].
    + exists true. rewrite opens_app, Hop. split; [done|]. congruence.
    + rewrite app_nil_r. destruct (ci_log _ Hi x) as (b & Hb & Hbs). exists b. split; [done|]. intros ->.
      destruct (ci_open _ Hi _ _ _ Hown) as [c Hc]. rewrite (H3 x s c) by auto. by apply Hbs.
Qed.
Lemma triple_write p now room config reset : triple p (clean p) (write (mkTx p now) room config reset)
  (ok (fun r => match r with Some _ => rewritten p room reset | None => unchanged p end)).
Proof.
  apply triple_update; [auto with class|apply ok_stable; intros []; auto with class|done|intros; by apply clean_unchanged|].
  intros w r Hi [H1 H2] _ _ Hown Hr. rewrite H1 in Hr. simpl in Hr. split_and!; [done| |].
  - exists (written_row config reset r). rewrite Hown, lookup_insert_eq. split; [done|]. intros -> c Hc.
    change (live_room room w = Some c) in Hc. rewrite Hr in Hc. injection Hc as <-. done.
  - intros x Hx. rewrite Hown, lookup_insert_ne, H1 by done. done.
Qed.
Lemma triple_emit_updated p now room reset :
  triple p (rewritten p room reset) (emit (mkTx p now) (L_class_updated room reset)) (ok (fun _ => settled p)).
Proof.
  apply triple_emit; [auto with class..| |].
  - intros w x (_ & (r & Hr & _) & _) He. simpl in He. destruct reset, (Pos.eqb_spec room x) as [<-|]; first [done | by eexists].
  - intros w w' Hi (H1 & (r & Hr & Hst) & H3) Ho Hlog Hs Hlive x s. rewrite Ho, Hlog, Hs, H1, events_app, app_nil_l, events_one. intros Hown.
    destruct (decide (x = room)) as [->|Hx]; [|by rewrite H3 in Hown]. rewrite Hr in Hown. injection Hown as <-.
    destruct (ci_log _ Hi room) as (b & Hb & Hbs). simpl. destruct reset.
    + rewrite Pos.eqb_refl. exists false. by rewrite opens_app, Hb.
    + rewrite app_nil_r. exists b. split; [done|]. intros ->. destruct (ci_open _ Hi _ _ _ Hr) as [c Hc].
      rewrite (Hst eq_refl c Hc). by apply Hbs.
Qed.

(** ** The end of a transaction *)
Definition ended (p : positive) (rows : gmap uuid Room -> gmap uuid Room) (t : RoomTable) : RoomTable :=
  mkTable (rows (rt_rows t)) (filter (fun o => o.2.1 <> p) (rt_open t)) (delete p (rt_staged t)).
Section ended.
Context (p : positive) (rows : gmap uuid Room -> gmap uuid Room) (ls : list WakeLog -> list WakeLog) (w : Watch).
Let w' := put_log ls (put_rooms (ended p rows) w).
Lemma ended_own : own p w' = ∅.
Proof.
  apply map_empty. intros x. apply eq_None_not_Some. intros [r Hr]. apply own_Some in Hr.
  unfold w' in Hr. simpl in Hr. apply map_lookup_filter_Some in Hr as [_ Hne]. done.
Qed.
Lemma ended_own_other q : q <> p -> own q w' = own q w.
Proof.
  intros Hq. apply map_eq. intros x. apply option_eq. intros r. rewrite !own_Some. unfold w'. simpl.
  rewrite map_lookup_filter_Some. naive_solver.
Qed.
Lemma ended_staged : staged p w' = [].
Proof. unfold staged, w'. simpl. by rewrite lookup_delete_eq. Qed.
Lemma ended_staged_other q : q <> p -> staged q w' = staged q w.
Proof. intros Hq. unfold staged, w'. simpl. by rewrite lookup_delete_ne. Qed.
Lemma ended_clean : clean p w'.
Proof. split; [apply ended_own|apply ended_staged]. Qed.
Lemma ended_inv : class_inv w ->
  (forall room, exists b, opens false (events room (wa_log w')) = Some b /\
    (b = true -> forall c, live_room room w' = Some c -> rm_started_at c <> None)) ->
  (forall room, is_Some (live_room room w) -> is_Some (live_room room w')) -> class_inv w'.
Proof.
  intros Hi Hlog Hlive. split; [done| |].
  - intros room q r. destruct (decide (q = p)) as [->|Hq]; [by rewrite ended_own|]. rewrite ended_own_other by done.
    intros Hr. by apply Hlive, (ci_open _ Hi room q r).
  - intros q room. destruct (decide (q = p)) as [->|Hq]; [by rewrite ended_staged|].
    rewrite ended_staged_other, ended_own_other by done. apply (ci_staged _ Hi).
Qed.
Lemma ended_keeps q : q <> p ->
  (forall room r, own q w !! room = Some r -> live_room room w' = live_room room w /\ events room (wa_log w') = events room (wa_log w)) ->
  others_keep q w w'.
Proof. intros Hq H. split; [by apply ended_own_other|by apply ended_staged_other|done]. Qed.
End ended.

Lemma abort_ends p w : class_inv w ->
  class_inv (abort_rooms p w) /\ (forall q, q <> p -> others_keep q w (abort_rooms p w)) /\ clean p (abort_rooms p w).
Proof.
  intros Hi. change (abort_rooms p w) with (put_log id (put_rooms (ended p id) w)). split_and!.
  - apply ended_inv; [done| |done]. apply (ci_log _ Hi).
  - intros q Hq. by apply ended_keeps.
  - apply ended_clean.
Qed.
Lemma disjoint_own p q w room r : p <> q -> own q w !! room = Some r -> own p w !! room = None.
Proof. intros Hpq Hq. apply eq_None_not_Some. intros [s Hs]. apply own_Some in Hs, Hq. congruence. Qed.
Lemma unowned_staged p w room : class_inv w -> own p w !! room = None -> events room (staged p w) = [].
Proof.
  intros Hi Hn. destruct (events room (staged p w)) eqn:E; [done|]. exfalso.
  destruct (ci_staged _ Hi p room) as [s Hs]; [by rewrite E|congruence].
Qed.
Lemma commit_ends p w : class_inv w -> settled p w ->
  class_inv (commit_rooms p w) /\ (forall q, q <> p -> others_keep q w (commit_rooms p w)) /\ clean p (commit_rooms p w).
Proof.
  intros Hi Hs. set (merge := fun m => own p w ∪ m).
  change (commit_rooms p w) with (put_log (fun ls => ls ++ staged p w) (put_rooms (ended p merge) w)).
  set (w' := put_log _ _).
  assert (Hlive : forall room, live_room room w' = match own p w !! room with Some r => Some r | None => live_room room w end).
  { intros room. unfold live_room, w'. simpl. unfold merge. rewrite lookup_union.
    by destruct (own p w !! room), (rt_rows (wa_rooms w) !! room). }
  assert (Hlog : forall room, events room (wa_log w') = events room (wa_log w) ++ events room (staged p w)) by (intros; apply events_app).
  split_and!.
  - apply ended_inv; [done| |].
    + intros room. fold w'. rewrite Hlog, Hlive. destruct (own p w !! room) as [r|] eqn:E.
      * destruct (Hs _ _ E) as (b & Hb & Hst). exists b. rewrite events_app in Hb. split; [done|]. intros -> c [= <-]. auto.
      * rewrite unowned_staged, app_nil_r by done. apply (ci_log _ Hi).
    + intros room [c Hc]. fold w'. rewrite Hlive. destruct (own p w !! room); by eexists.
  - intros q Hq. apply ended_keeps; [done|]. fold w'. intros room r Hr.
    assert (E : own p w !! room = None) by (apply (disjoint_own p q w room r); [congruence|done]).
    rewrite Hlog, Hlive, E, unowned_staged, app_nil_r by done. done.
  - apply ended_clean.
Qed.
Lemma triple_commit p now : triple p (settled p) (commit (mkTx p now)) (ok (fun _ => clean p)).
Proof. apply triple_tell; [auto with class..|]. intros w Hi Hs. by apply commit_ends. Qed.
Lemma triple_rollback p now : triple p (fun _ => True) (rollback (mkTx p now)) (fun _ => clean p).
Proof. apply triple_act; [done|auto with class|]. intros w Hi _. by apply abort_ends. Qed.

(** ** The processes *)
Definition tidy {A} (p : positive) (m : proc A) : Prop := triple p (clean p) m (fun _ => clean p).
Lemma tidy_bind {A B} p (m : proc A) (k : A -> proc B) : tidy p m -> (forall a, tidy p (k a)) -> tidy p (m ≫= k).
Proof.
  intros Hm Hk. apply (triple_bind _ _ p _ m (fun _ => clean p)); [|exact Hk|auto with class].
  eapply triple_conseq; [exact Hm|auto|]. by intros [e|a].
Qed.
Lemma tidy_quiet {A} p (m : proc A) : quiet m -> tidy p m.
Proof. apply quiet_triple. auto with class. Qed.
Lemma tidy_ret {A} p (a : A) : tidy p (mret a).
Proof. by apply tidy_quiet. Qed.
(** Whatever fails is rolled back. *)
Lemma tidy_rollback {A} p now (b : A) : triple p (fun _ => True) (_ ← rollback (mkTx p now); mret b) (fun _ => clean p).
Proof.
  apply (triple_bind _ _ p _ _ (fun _ => clean p)); [|intros; apply tidy_ret|auto with class].
  eapply triple_conseq; [apply triple_rollback|done|]. by intros [e'|a].
Qed.
Lemma tidy_catch {A} p now (m : proc A) (b : A) : triple p (clean p) m (ok (fun _ => clean p)) ->
  tidy p (catch m (fun _ => _ ← rollback (mkTx p now); mret b)).
Proof.
  intros Hm. eapply triple_handle; [apply _|exact Hm|]. intros [e|a]; [apply tidy_rollback|apply (tidy_ret p a)].
Qed.

Lemma triple_check p now room arriving :
  triple p (clean p) (on_class_start_check (mkTx p now) room arriving) (ok (fun _ => settled p)).
Proof.
  apply (weaken_triple p (unchanged p)); [|intros; by apply clean_unchanged].
  assert (Hnone : forall P : Watch -> Prop, (forall w, class_inv w -> P w -> settled p w) -> triple p P (mret None) (ok (A := option PlatformWake) (fun _ => settled p))).
  { intros P HP. apply (weaken_triple p (settled p)); [|done]. apply (triple_ret p None (fun _ => settled p)). auto with class. }
  assert (Hu : triple p (unchanged p) (mret None) (ok (A := option PlatformWake) (fun _ => settled p))).
  { apply Hnone. intros. by apply unchanged_settled. }
  assert (Hq : forall A (m : proc A), quiet m -> triple p (unchanged p) m (ok (fun _ => unchanged p))).
  { intros A m Hm. apply triple_quiet_ok; auto with class. }
  assert (Harr : triple p (unchanged p) (record_first_arrival (mkTx p now) room) (ok (fun _ => unchanged p))).
  { by apply triple_same_start. }
  unfold on_class_start_check. eapply triple_ok_bind; [apply Hq; auto with class|]. intros [s|]; [|done].
  destruct (from_stored _) as [config|]; [|done]. destruct (negb (armed s)); [done|].
  eapply triple_ok_bind; [apply Hq; auto with class|]. intros [r|]; [|done].
  eapply triple_ok_bind.
  { destruct (_ && _ && _); [|by apply Hq]. eapply triple_ok_bind; [exact Harr|]. intros ?. by apply Hq. }
  intros first. eapply triple_ok_bind; [apply Hq; auto with class|]. intros [ids|]; [|done].
  destruct (_ =? 0).
  { eapply triple_ok_bind; [|intros ?; exact Hu]. destruct (absent first); [by apply Hq|]. by apply triple_same_start. }
  eapply triple_ok_bind.
  { destruct first; [by apply Hq|]. eapply triple_ok_bind; [exact Harr|]. intros ?. by apply Hq. }
  intros since. eapply triple_ok_bind; [by apply Hq|]. intros t. destruct (start_reason _ _ _) as [reason|]; [|done].
  eapply triple_ok_bind; [apply triple_claim|]. intros []; [|done].
  eapply triple_ok_bind; [apply triple_emit_started|]. intros ?. eapply triple_ok_bind; [apply triple_quiet_ok; auto with class|].
  intros bindings. eapply triple_ok_bind; [apply triple_quiet_ok; auto with class|]. intros targets.
  apply (triple_ret p _ (fun _ => settled p)). auto with class.
Qed.

Lemma tidy_check id room arriving : tidy id (check_in_session id room arriving).
Proof.
  apply tidy_bind; [by apply tidy_quiet|]. intros now. apply tidy_catch.
  eapply triple_ok_bind; [apply triple_check|]. intros wake. eapply triple_ok_bind; [apply triple_commit|]. intros ?.
  apply (triple_ret id wake (fun _ => clean id)). auto with class.
Qed.
Lemma tidy_check_class_start id room arriving : tidy id (check_class_start id room arriving).
Proof.
  apply tidy_bind; [apply tidy_check|]. intros [wake|]; [|apply tidy_ret]. apply tidy_quiet. auto with class.
Qed.
Lemma tidy_for_all {A} id (l : list A) f : (forall x, tidy id (f x)) -> tidy id (for_all l f).
Proof. intros Hf. induction l as [|x l IH]; [apply tidy_ret|]. apply tidy_bind; [done|]. intros n. apply tidy_bind; [done|]. intros k. apply tidy_ret. Qed.
Lemma tidy_sweep id : tidy id (sweep_class_starts id).
Proof.
  eapply triple_handle; [apply _|apply tidy_bind|].
  - apply tidy_quiet. auto with class.
  - intros rooms. apply tidy_for_all. intros room. apply tidy_check_class_start.
  - intros [e|n]; by apply tidy_quiet.
Qed.
Lemma tidy_check_now id room : tidy id (check_class_start_now id room).
Proof.
  apply tidy_bind; [by apply tidy_quiet|]. intros now. apply tidy_catch.
  eapply triple_ok_bind; [apply triple_check|]. intros wake. eapply triple_ok_bind; [apply triple_commit|]. intros ?.
  apply triple_quiet_ok; [auto with class|]. apply quiet_bind; [|intros; apply quiet_ask]. destruct wake; [apply quiet_enqueue|done].
Qed.
Lemma tidy_route id body : (forall now, triple id (clean id) (body (mkTx id now)) (ok (fun _ => settled id))) -> tidy id (route id body).
Proof.
  intros Hbody. apply tidy_bind; [by apply tidy_quiet|]. intros now. unfold attempt. eapply triple_handle; [apply _| |].
  - eapply triple_handle; [apply _| |].
    + eapply (triple_ok_bind id _ _ _ _ (fun _ => clean id)); [apply Hbody|]. intros [refused|state].
      * apply (weaken_triple id (fun _ => True)); [|done]. eapply triple_conseq; [apply tidy_rollback|done|]. by intros [e|a].
      * eapply triple_ok_bind; [apply triple_commit|]. intros ?. apply (triple_ret id _ (fun _ => clean id)). auto with class.
    + intros r. instantiate (1 := fun r w => match r with inl _ => False | inr r => ok (fun _ => clean id) r w end).
      intros w Hi Hr w1 Hk Hi1. by apply (ok_stable id (fun _ => clean id) (fun _ => clean_stable id) r w w1).
  - intros [e|[e|reply]]; [by intros w _ []| |apply tidy_ret].
    apply tidy_rollback.
Qed.

Lemma tidy_patch id room enabled minimum wait reset : tidy id (patch_class_start id room enabled minimum wait reset).
Proof.
  apply tidy_bind; [apply tidy_route|].
  - intros now. eapply triple_ok_bind; [apply (triple_quiet_ok id (clean id)); auto with class|]. intros current.
    assert (Hret : forall r : ClassReply + Room, triple id (clean id) (mret r) (ok (fun _ => settled id))).
    { intros r. apply (weaken_triple id (settled id)); [|by intros; apply unchanged_settled, clean_unchanged].
      apply (triple_ret id r (fun _ => settled id)). auto with class. }
    destruct current as [c|]; [|apply Hret]. destruct (patched _ _ _ _) as [config|]; [|apply Hret].
    eapply (triple_ok_bind id _ _ _ _ (fun _ => settled id)); [|intros; apply (triple_ret id _ (fun _ => settled id)); auto with class].
    eapply triple_ok_bind; [apply triple_write|]. intros [r|].
    + eapply triple_ok_bind; [apply triple_emit_updated|]. intros ?. apply (triple_ret id _ (fun _ => settled id)). auto with class.
    + apply (weaken_triple id (settled id)); [|by intros; apply unchanged_settled].
      apply (triple_ret id _ (fun _ => settled id)). auto with class.
  - intros [refused|s]; [apply tidy_ret|]. destruct (armed s); [|apply tidy_ret].
    apply tidy_bind; [apply tidy_check_now|]. intros checked. apply tidy_ret.
Qed.
Lemma tidy_close id room closing : tidy id (close_or_reopen id room closing).
Proof.
  apply tidy_bind; [apply tidy_route|intros; apply tidy_ret]. intros now.
  apply (weaken_triple id (unchanged id)); [|by intros; apply clean_unchanged].
  eapply triple_ok_bind; [destruct closing; by apply triple_same_start|]. intros changed.
  eapply (triple_ok_bind id _ _ (fun _ => unchanged id)).
  - destruct changed; [|by apply triple_quiet_ok; auto with class].
    apply triple_emit; [auto with class..|done|]. intros w w' Hi [H1 H2] Ho Hlog Hs Hlive. split.
    + intros x. by rewrite Hs, events_app, H1, events_one.
    + intros x r c. rewrite Ho, Hlive. apply H2.
  - intros ?. eapply triple_ok_bind; [apply triple_quiet_ok; auto with class|]. intros state.
    apply (weaken_triple id (settled id)); [|by intros; apply unchanged_settled].
    apply (triple_ret id _ (fun _ => settled id)). auto with class.
Qed.

(** ** The pool *)
Inductive class_program (p : positive) : proc Z -> Prop :=
  | cp_check room arriving : class_program p (check_class_start p room arriving)
  | cp_sweep : class_program p (sweep_class_starts p)
  | cp_patch room enabled minimum wait reset :
      class_program p (_ ← patch_class_start p room enabled minimum wait reset; mret 0)
  | cp_close room closing : class_program p (_ ← close_or_reopen p room closing; mret 0).

(** Besides: rooms are created under ids never used, and deleted, unless a transaction
    holds them; everything but the rooms and their audit changes at will. *)
Inductive class_env (alive : gset positive) : Watch -> Watch -> Prop :=
  | ce_rest w w' : same_rooms w w' -> class_env alive w w'
  | ce_create w room r : live_room room w = None -> rt_open (wa_rooms w) !! room = None -> events room (wa_log w) = [] ->
      class_env alive w (put_rooms (fun t => mkTable (<[room := r]> (rt_rows t)) (rt_open t) (rt_staged t)) w)
  | ce_delete w room : rt_open (wa_rooms w) !! room = None ->
      class_env alive w (put_rooms (fun t => mkTable (delete room (rt_rows t)) (rt_open t) (rt_staged t)) w).

Abbreviation class_reach := (reach class_program abort_rooms class_env clean).

Lemma env_ok alive w w' : class_env alive w w' -> class_inv w -> class_inv w' /\ forall q, q ∈ alive -> others_keep q w w'.
Proof.
  destruct 1 as [w w' Hs|w room r Hn Ho He|w room Ho]; intros Hi.
  - split; [by apply (same_rooms_inv w)|]. intros q _. by apply same_rooms_keeps.
  - assert (Hown : forall q, own q w !! room = None).
    { intros q. apply eq_None_not_Some. intros [s Hs]. apply own_Some in Hs. congruence. }
    split; [split|].
    + intros x. destruct (ci_log _ Hi x) as (b & Hb & Hst). exists b. split; [done|]. intros -> c.
      unfold live_room. simpl. destruct (decide (x = room)) as [->|Hx]; [|rewrite lookup_insert_ne by done; by apply Hst].
      rewrite He in Hb. done.
    + intros x q s Hs. apply (ci_open _ Hi x q s) in Hs. unfold live_room in *. simpl.
      apply lookup_insert_is_Some'. by right.
    + apply (ci_staged _ Hi).
    + intros q _. split; [done|done|]. intros x s Hs. split; [|done]. unfold live_room. simpl. apply lookup_insert_ne.
      intros ->. change (own q w !! x = Some s) in Hs. by rewrite Hown in Hs.
  - assert (Hown : forall q x s, own q w !! x = Some s -> x <> room).
    { intros q x s Hs ->. apply own_Some in Hs. congruence. }
    split; [split|].
    + intros x. destruct (ci_log _ Hi x) as (b & Hb & Hst). exists b. split; [done|]. intros Hbt c Hc. apply (Hst Hbt).
      unfold live_room in Hc. simpl in Hc. by apply lookup_delete_Some in Hc as [_ Hc].
    + intros x q s Hs. pose proof (Hown q x s Hs) as Hx. apply (ci_open _ Hi x q s) in Hs.
      unfold live_room in *. simpl. by rewrite lookup_delete_ne.
    + apply (ci_staged _ Hi).
    + intros q _. split; [done|done|]. intros x s Hs. split; [|done]. unfold live_room. simpl. apply lookup_delete_ne.
      intros ->. by apply (Hown q x s).
Qed.

Lemma pool_inv w c : class_inv w -> class_reach (mkConf w ∅) c -> class_inv (world c).
Proof.
  intros Hi Hr. apply (reach_good class_program abort_rooms class_env clean class_inv others_keep (fun p _ => clean p) clean) in Hr.
  - apply Hr.
  - intros p m v Hm Hv Hc. revert v Hv Hc. change (tidy p m). destruct Hm.
    + apply tidy_check_class_start.
    + apply tidy_sweep.
    + apply tidy_bind; [apply tidy_patch|intros; apply tidy_ret].
    + apply tidy_bind; [apply tidy_close|intros; apply tidy_ret].
  - done.
  - done.
  - intros p v Hv. destruct (abort_ends p v Hv) as (H1 & H2 & _). done.
  - apply env_ok.
  - by split; [|intros p m].
Qed.

Lemma reset_event room l : class_event room l = Some false -> l = L_class_updated room true.
Proof.
  destruct l; simpl; try done; [by destruct (Pos.eqb _ _)|]. destruct reset; [|done].
  by destruct (Pos.eqb_spec room0 room) as [->|].
Qed.
Lemma opens_once es1 es2 es3 b : opens b (es1 ++ true :: es2 ++ true :: es3) <> None -> false ∈ es2.
Proof.
  rewrite opens_app. destruct (opens b es1) as [[]|]; [done| |done]. simpl. rewrite opens_app. intros H.
  destruct (decide (false ∈ es2)) as [|Hn]; [done|]. exfalso. revert H. destruct es2 as [|[] es2]; [done..|].
  exfalso. apply Hn. left.
Qed.

(** C28. A class opens once.  From rooms of any setting, whatever checks, sweeps and
    routes of the creator run at the same time, fail or crash, the committed audit never
    shows two openings of a room's class without a reset of that room between them. *)
Theorem class_opens_once w c room l1 k1 reason1 l2 k2 reason2 l3
    (Hopen : rt_open (wa_rooms w) = ∅) (Hstaged : rt_staged (wa_rooms w) = ∅) (Hlog : wa_log w = [])
    (Hreach : reach class_program abort_rooms class_env clean (mkConf w ∅) c)
    (Hend : wa_log (world c) = l1 ++ L_class_started room k1 reason1 :: l2 ++ L_class_started room k2 reason2 :: l3) :
  L_class_updated room true ∈ l2.
Proof.
  assert (Hi : class_inv w).
  { split; [intros x; exists false; by rewrite Hlog|intros x p r; rewrite own_Some, Hopen; done|].
    intros p x. unfold staged. by rewrite Hstaged. }
  apply (pool_inv _ _ Hi) in Hreach as Hc. destruct (ci_log _ Hc room) as (b & Hb & _).
  assert (H : false ∈ events room l2).
  { apply (opens_once (events room l1) (events room l2) (events room l3) false).
    rewrite Hend in Hb. unfold events in *. rewrite !omap_app in Hb. cbn in Hb. rewrite Pos.eqb_refl in Hb.
    rewrite omap_app in Hb. cbn in Hb. rewrite Pos.eqb_refl in Hb. by rewrite Hb. }
  apply list_elem_of_omap in H as (l & Hl & He).
  by apply reset_event in He as <-.
Qed.

(** ** Witnesses *)

(** Three processes, and the pool after the steps of those listed. *)
Fixpoint play (l : list positive) (c : conf OrchestrationError Watch Z) : option (conf OrchestrationError Watch Z) :=
  match l with
  | [] => Some c
  | p :: l =>
      match pool c !! p with
      | Some (Step f) => match f (world c) with Some (m, w) => play l (mkConf w (<[p := m]> (pool c))) | None => None end
      | _ => None
      end
  end.
Lemma play_reach l : forall c c', play l c = Some c' -> class_reach c c'.
Proof.
  induction l as [|p l IH]; intros [b pl] c'; cbn [play world pool]; [intros [= <-]; apply rtc_refl|].
  destruct (pl !! p) as [[r|f]|] eqn:E; [done| |done].
  destruct (f b) as [[m b']|] eqn:Ef; [|done]. intros H. eapply rtc_l; [by eapply cs_run|by apply IH].
Qed.

Definition lesson : Watch :=
  mkWatch ∅ (mkTable {[7%positive := mkRoom (Some 1%positive) (Some (to_stored (mkClassStart true 2 10))) None None None]} ∅ ∅)
    [] ∅ {[7%positive := {[1%positive; 3%positive; 4%positive]}]} ∅ ∅ ∅ ∅ ∅ 0 [] [].
Definition staff : gmap positive (proc Z) :=
  <[1%positive := check_class_start 1 7 (Some 3%positive)]> (<[2%positive := check_class_start 2 7 (Some 4%positive)]>
    (<[3%positive := (_ ← patch_class_start 3 7 None None None true; mret 0)]> ∅)).
Lemma staff_spawned : class_reach (mkConf lesson ∅) (mkConf lesson staff).
Proof.
  assert (Hc : forall p, clean p lesson) by (intros p; split; [apply map_eq; intros x; done|done]).
  eapply rtc_l; [apply (cs_spawn _ _ _ _ 3%positive); [done|apply Hc|apply cp_patch]|].
  eapply rtc_l; [apply (cs_spawn _ _ _ _ 2%positive); [done|apply Hc|apply cp_check]|].
  eapply rtc_l; [apply (cs_spawn _ _ _ _ 1%positive); [done|apply Hc|apply cp_check]|]. apply rtc_refl.
Qed.

(** Two students' connections race for the opening; the creator then resets the class,
    which opens again at once. *)
Definition contest : list positive :=
  [1; 2; 1; 2; 1; 2; 1; 1; 1; 1; 1; 1; 1; 1; 2; 2; 2; 2; 2; 2; 3; 3; 3; 3; 3; 3; 3; 3; 3; 3; 3; 3; 3; 3; 3; 3; 3]%positive.
Lemma class_opens_once_witness : exists c l1 k1 reason1 l2 k2 reason2 l3,
  class_reach (mkConf lesson ∅) c /\
  wa_log (world c) = l1 ++ L_class_started 7 k1 reason1 :: l2 ++ L_class_started 7 k2 reason2 :: l3 /\
  L_class_updated 7 true ∈ l2.
Proof.
  assert (H : (c ← play contest (mkConf lesson staff); Some (wa_log (world c))) =
    Some [L_class_started 7 2 "min_participants"; L_class_updated 7 true; L_class_started 7 2 "min_participants"]%string)
    by (vm_compute; reflexivity).
  apply bind_Some in H as (c & E & H). injection H as H. apply play_reach in E.
  assert (Hr : class_reach (mkConf lesson ∅) c) by (etrans; [apply staff_spawned|exact E]).
  exists c, [], 2, "min_participants"%string, [L_class_updated 7 true], 2, "min_participants"%string, [].
  split; [exact Hr|]. split; [exact H|].
  exact (class_opens_once lesson c 7 [] 2 "min_participants" [L_class_updated 7 true] 2 "min_participants" [] eq_refl eq_refl eq_refl Hr H).
Defined.
