(* ===== verification/ClassCheck.v ===== *)
(** * What a class-start check decides

    One check alone, in its transaction, with every statement answered: the decision as
    a function of the room's row, the students connected and the time, and the row, the
    audit and the wakes it leaves.  And the stored setting, read back. *)

From S2P Require Import Prelude PyFloat PyValue OrchBase Wakeup RoomWakeup Interleave WakeupState WakeupService ClassStart.

(** ** The decision *)
Definition class_wakes (bindings : list Binding) (agents : gmap uuid Agent) : list WakeTarget :=
  flat_map (fun b =>
    match get_agent false agents (b_agent_id b) with
    | Some a =>
        let t := triggers (config (rw_effective (build_room_wakeup b a))) in
        if negb (b_observer b) && class_start t && negb (call_only t) then [(b_agent_id b, b_binding_id b)] else []
    | None => []
    end) bindings.
(** Nobody connected: the wait ends.  Otherwise it runs, from now at the latest, and the
    class opens when enough are connected or it has run out. *)
Definition decision (c : ClassStartConfig) (r : Room) (connected now : Z) : option string * Room :=
  if connected =? 0 then (None, with_first_arrival None r)
  else
    let since := default now (rm_first_arrival_at r) in
    let waiting := with_first_arrival (Some since) r in
    match start_reason c connected (now - since) with
    | Some reason => (Some reason, with_started (Some now) waiting)
    | None => (None, waiting)
    end.

Definition class_decision (r : Room) (connected now : Z) : option string * Room :=
  match from_stored (rm_class_config r) with
  | Some c => if armed r then decision c r connected now else (None, r)
  | None => (None, r)
  end.

(** * Facts *)

(** ** One step alone *)
Lemma alone_wait {A} (f : Watch -> option (A * Watch)) w : wa_fates w = [] ->
  run (wait_call f) w = match f w with Some (a, w') => Some (inr a, w') | None => None end.
Proof. intros Hf. simpl. rewrite Hf. simpl. rewrite fates_nil by done. by destruct (f w) as [[a w']|]. Qed.
Lemma run_targets bindings w : wa_fates w = [] ->
  run (class_targets bindings) w = Some (inr (class_wakes bindings (wa_agents w)), w).
Proof.
  intros Hf. induction bindings as [|b l IH]; [done|]. cbn [class_targets class_wakes flat_map].
  unfold for_state. rewrite run_bind, alone_ask by done. cbv beta iota. rewrite run_bind.
  match goal with |- match ?x with _ => _ end = _ => replace x with (run (class_targets l) w) by done end.
  rewrite IH. cbv beta iota. rewrite alone_ret. by destruct (get_agent _ _ _).
Qed.

(** ** A transaction over one room *)
Section transaction.
Context (id : positive) (room : uuid) (r : Room) (w : Watch).
Context (Hfates : wa_fates w = []) (Hroom : live_room room w = Some r)
  (Hfree : rt_open (wa_rooms w) !! room = None) (Hfresh : rt_staged (wa_rooms w) !! id = None).
Let tx := mkTx id (wa_now w).

(** The state when the transaction has written the row and audited. *)
Definition at_row (o : option Room) (ls : list WakeLog) : Watch :=
  put_rooms (fun t => mkTable (rt_rows t) (match o with Some s => <[room := (id, s)]> (rt_open t) | None => rt_open t end)
                        (match ls with [] => rt_staged t | _ => <[id := ls]> (rt_staged t) end)) w.
Lemma at_row_start : at_row None [] = w.
Proof using id room w. clear. unfold at_row. destruct w as [? [] ? ? ? ? ? ? ? ? ? ? ?]. done. Qed.
Lemma at_row_seen o ls : row tx room (at_row o ls) = Some (default r o).
Proof.
  unfold row, live_room, at_row. simpl. destruct o as [s|]; [by rewrite lookup_insert_eq; simpl; rewrite Pos.eqb_refl|].
  by rewrite Hfree.
Qed.
Lemma at_row_update {A} o ls when f (out : option Room -> A) :
  update_row tx room when f out (at_row o ls) =
  Some (if when (default r o) then (out (Some (f (default r o))), at_row (Some (f (default r o))) ls) else (out None, at_row o ls)).
Proof.
  unfold update_row, live_room. destruct o as [s|]; simpl.
  - rewrite lookup_insert_eq, Pos.eqb_refl. destruct (when s); [|done]. do 2 f_equal.
    unfold at_row, put_rooms, set_open. simpl. by rewrite insert_insert_eq.
  - rewrite Hfree. unfold live_room in Hroom. rewrite Hroom. destruct (when r); done.
Qed.
Lemma run_update {A} o ls when f (out : option Room -> A) :
  run (wait_call (update_row tx room when f out)) (at_row o ls) =
  Some (if when (default r o) then (inr (out (Some (f (default r o)))), at_row (Some (f (default r o))) ls) else (inr (out None), at_row o ls)).
Proof. rewrite alone_wait, at_row_update by done. by destruct (when _). Qed.
Lemma run_emit o l : run (emit tx l) (at_row o []) = Some (inr tt, at_row o [l]).
Proof.
  unfold emit. rewrite alone_tell by done. do 2 f_equal. unfold at_row, put_rooms, set_staged. simpl. by rewrite Hfresh.
Qed.
Lemma run_commit o ls : run (commit tx) (at_row o ls) = Some (inr tt, commit_rooms id (at_row o ls)).
Proof. unfold commit. by rewrite alone_tell. Qed.
Lemma committed o ls : live_room room (commit_rooms id (at_row o ls)) = Some (default r o) /\
  wa_log (commit_rooms id (at_row o ls)) = wa_log w ++ ls /\ rt_open (wa_rooms (commit_rooms id (at_row o ls))) !! room = None.
Proof.
  unfold live_room in *. unfold commit_rooms, at_row. simpl. split_and!.
  - rewrite lookup_union, lookup_omap. destruct o as [s|].
    + rewrite lookup_insert_eq. simpl. rewrite Pos.eqb_refl. by destruct (rt_rows (wa_rooms w) !! room).
    + by rewrite Hfree, Hroom.
  - destruct ls; [by rewrite Hfresh|by rewrite lookup_insert_eq].
  - apply map_lookup_filter_None. destruct o as [s|]; [right|by left]. intros x. rewrite lookup_insert_eq. intros [= <-]. simpl. auto.
Qed.
End transaction.

Lemma armed_sql r : armed r = true -> sql_armed r = true.
Proof.
  unfold armed, sql_armed, from_stored. destruct (rm_class_config r) as [[]|]; try done.
  destruct (dict_get_none "enabled" d) as [|b| | | | |]; try done. cbv beta iota.
  destruct (bounded _ CLASS_START_MIN_PARTICIPANTS_RANGE); [|done]. destruct (bounded _ _); [|done]. simpl. destruct b; simpl; [|done].
  destruct (rm_started_at r); [done|]. auto.
Qed.
Lemma sql_armed_first t r : sql_armed (with_first_arrival t r) = sql_armed r.
Proof. done. Qed.
Lemma first_arrival_kept r : with_first_arrival (rm_first_arrival_at r) r = r.
Proof. by destruct r. Qed.

Section check.
Context (id : positive) (room : uuid) (r : Room) (w : Watch) (c : ClassStartConfig).
Context (Hfates : wa_fates w = []) (Hroom : live_room room w = Some r)
  (Hfree : rt_open (wa_rooms w) !! room = None) (Hfresh : rt_staged (wa_rooms w) !! id = None)
  (Hconfig : from_stored (rm_class_config r) = Some c) (Harmed : armed r = true).
Let tx := mkTx id (wa_now w).
Let now := wa_now w.
Let connected := students r (firstn HEADCOUNT_PRESENCE_LIMIT (list_room room w)).

Notation at_row := (at_row id room w).
Definition wake_of (reason : option string) : option PlatformWake :=
  match reason with
  | Some _ => Some (mkWake (class_wakes (room_binding_wakeup_states room w) (wa_agents w)) connected)
  | None => None
  end.
Definition audit_of (reason : option string) : list WakeLog :=
  match reason with Some reason => [L_class_started room connected reason] | None => [] end.

(** The arrival of a student is recorded before the roster is read. *)
Definition arrival_counts (arriving : option uuid) : bool :=
  absent (rm_first_arrival_at r) && negb (absent arriving) && negb (bool_decide (arriving = rm_created_by r)).
Definition arrived (arriving : option uuid) : option Room :=
  if arrival_counts arriving then Some (with_first_arrival (Some now) r) else None.
Lemma run_arrival arriving :
  run (if arrival_counts arriving then _ ← record_first_arrival tx room; t ← get wa_now; mret (Some t) else mret (rm_first_arrival_at r)) w =
  Some (inr (rm_first_arrival_at (default r (arrived arriving))), at_row (arrived arriving) []).
Proof.
  unfold arrived. destruct (arrival_counts arriving) eqn:Ea; [|by rewrite alone_ret, at_row_start].
  unfold record_first_arrival. rewrite run_bind. rewrite <- (at_row_start id room w) at 1.
  unfold tx. rewrite (run_update id room r) by done. cbn [default Datatypes.id]. unfold arrival_counts in Ea. rewrite armed_sql by done.
  apply andb_true_iff in Ea as [[-> _]%andb_true_iff _]. done.
Qed.

(** What the transaction holds when it commits. *)
Definition final_row (arriving : option uuid) : option Room :=
  let s := (decision c r connected now).2 in
  if connected =? 0 then if absent (rm_first_arrival_at r) && negb (arrival_counts arriving) then None else Some s
  else match (decision c r connected now).1 with
       | Some _ => Some s
       | None => if absent (rm_first_arrival_at r) then Some s else None
       end.
Lemma final_row_is arriving : default r (final_row arriving) = (decision c r connected now).2.
Proof.
  unfold final_row, decision. destruct (connected =? 0).
  - destruct (absent _ && _) eqn:E; [|done]. apply andb_true_iff in E as [E _]. simpl.
    destruct (rm_first_arrival_at r) eqn:F; [done|]. by rewrite <- F, first_arrival_kept.
  - destruct (start_reason _ _ _); [done|]. simpl. destruct (rm_first_arrival_at r) eqn:F; [|done]. simpl.
    by rewrite <- F, first_arrival_kept.
Qed.
(** Once a student is seen connected, the wait runs. *)
Definition waiting : Room := with_first_arrival (Some (default now (rm_first_arrival_at r))) r.
Lemma run_waiting arriving :
  run (match rm_first_arrival_at (default r (arrived arriving)) with
       | Some t => mret t
       | None => _ ← record_first_arrival tx room; get wa_now
       end) (at_row (arrived arriving) []) =
  Some (inr (default now (rm_first_arrival_at r)), at_row (if absent (rm_first_arrival_at r) then Some waiting else None) []).
Proof.
  unfold arrived, arrival_counts, waiting. destruct (rm_first_arrival_at r) as [t|] eqn:F; cbn [absent default Datatypes.id andb]; [by rewrite F|].
  destruct (negb (absent arriving) && _); cbn [default Datatypes.id]; [done|]. rewrite F. unfold record_first_arrival, tx. rewrite run_bind, (run_update id room r) by done.
  cbn [default Datatypes.id]. by rewrite armed_sql, F by done.
Qed.
Lemma run_clear arriving :
  run (if absent (rm_first_arrival_at (default r (arrived arriving))) then mret tt else clear_first_arrival tx room)
    (at_row (arrived arriving) []) =
  Some (inr tt, at_row (if absent (rm_first_arrival_at r) && negb (arrival_counts arriving) then None
                        else Some (with_first_arrival None r)) []).
Proof.
  unfold arrived. destruct (arrival_counts arriving) eqn:Ea; cbn [default Datatypes.id negb].
  - rewrite andb_false_r. cbn [absent with_first_arrival rm_first_arrival_at]. unfold clear_first_arrival, tx. rewrite (run_update id room r) by done. cbn [default Datatypes.id].
    by rewrite sql_armed_first, armed_sql by done.
  - rewrite andb_true_r. destruct (rm_first_arrival_at r) eqn:F; cbn [absent]; [|done].
    unfold clear_first_arrival, tx. rewrite (run_update id room r) by done. cbn [default Datatypes.id]. by rewrite armed_sql, F by done.
Qed.
Lemma run_opening o reason : default r o = waiting ->
  run (mine ← claim_start tx room;
       if (mine : bool) then
         _ ← emit tx (L_class_started room connected reason);
         bindings ← ask (room_binding_wakeup_states room);
         targets ← class_targets bindings;
         mret (Some (mkWake targets connected))
       else mret None) (at_row o []) =
  Some (inr (wake_of (Some reason)), at_row (Some (with_started (Some now) waiting)) (audit_of (Some reason))).
Proof.
  intros Ho. rewrite run_bind. unfold claim_start, tx. rewrite (run_update id room r) by done. rewrite Ho.
  unfold waiting at 1. rewrite sql_armed_first, armed_sql by done. cbv beta iota. cbn [negb absent].
  rewrite run_bind, run_emit by done. cbv beta iota. rewrite run_bind, alone_ask by done. cbv beta iota.
  rewrite run_bind, run_targets by done. done.
Qed.
Lemma run_check arriving :
  run (on_class_start_check tx room arriving) w =
  Some (inr (wake_of (decision c r connected now).1), at_row (final_row arriving) (audit_of (decision c r connected now).1)).
Proof.
  unfold on_class_start_check. rewrite run_bind, alone_ask by done. cbv beta iota.
  assert (Hrow : row tx room w = Some r) by (unfold row; by rewrite Hfree). rewrite Hrow, Hconfig, Harmed. cbn [negb].
  rewrite run_bind, alone_ask by done. cbv beta iota. rewrite Hrow, run_bind.
  fold (arrival_counts arriving). rewrite run_arrival. cbv beta iota.
  rewrite run_bind, run_snapshot by done. cbv beta iota zeta.
  change (list_room room (at_row (arrived arriving) [])) with (list_room room w). fold connected.
  unfold final_row, decision. fold waiting. destruct (connected =? 0).
  { rewrite run_bind, run_clear. done. }
  rewrite run_bind, run_waiting. cbv beta iota. rewrite run_bind, alone_get. cbv beta iota.
  change (wa_now (at_row _ [])) with now. destruct (start_reason c connected _) as [reason|]; [|done].
  rewrite (run_opening _ reason); [done|]. unfold waiting. destruct (rm_first_arrival_at r) eqn:F; [|done]. simpl.
  by rewrite <- F, first_arrival_kept.
Qed.
End check.

(** What a class-start check decides.  A check that runs alone, with every statement
    answered, in a room no transaction holds: it wakes the bindings that ask for it, and
    audits the opening, exactly when the room is armed and enough students, or some and
    for long enough, are connected; it leaves the wait running while a student is
    connected and stopped when none is; in a room not armed it does nothing. *)
Theorem class_check_decides id room arriving w r (Hfates : wa_fates w = []) (Hroom : live_room room w = Some r)
    (Hfree : rt_open (wa_rooms w) !! room = None) (Hfresh : rt_staged (wa_rooms w) !! id = None) :
  let connected := students r (firstn HEADCOUNT_PRESENCE_LIMIT (list_room room w)) in
  let decided := class_decision r connected (wa_now w) in
  exists wake w', run (check_in_session id room arriving) w = Some (inr wake, w') /\
    live_room room w' = Some decided.2 /\ rt_open (wa_rooms w') !! room = None /\
    match decided.1 with
    | Some reason =>
        wake = Some (mkWake (class_wakes (room_binding_wakeup_states room w) (wa_agents w)) connected) /\
        wa_log w' = wa_log w ++ [L_class_started room connected reason]
    | None => wake = None /\ wa_log w' = wa_log w
    end.
Proof.
  intros connected decided.
  assert (H : exists o, run (on_class_start_check (mkTx id (wa_now w)) room arriving) w =
      Some (inr (wake_of room r w decided.1), at_row id room w o (audit_of room r w decided.1)) /\ default r o = decided.2).
  { unfold decided, class_decision. destruct (from_stored (rm_class_config r)) as [c|] eqn:Hc; [destruct (armed r) eqn:Ha|].
    - exists (final_row room r w c arriving). split; [by apply run_check|by apply final_row_is].
    - exists None. split; [|done]. rewrite at_row_start. unfold on_class_start_check. rewrite run_bind, alone_ask by done.
      unfold row. by rewrite Hfree, Hroom, Hc, Ha.
    - exists None. split; [|done]. rewrite at_row_start. unfold on_class_start_check. rewrite run_bind, alone_ask by done.
      unfold row. by rewrite Hfree, Hroom, Hc. }
  destruct H as (o & Hrun & Ho).
  destruct (committed id room r w Hroom Hfree Hfresh o (audit_of room r w decided.1)) as (H1 & H2 & H3).
  exists (wake_of room r w decided.1), (commit_rooms id (at_row id room w o (audit_of room r w decided.1))). split_and!.
  - unfold check_in_session. rewrite run_bind, alone_get. cbv beta iota. unfold catch. rewrite run_handle, run_bind, Hrun.
    cbv beta iota. rewrite run_bind, run_commit by done. done.
  - by rewrite H1, Ho.
  - done.
  - rewrite H2. destruct decided.1; [done|]. by rewrite app_nil_r.
Qed.

Lemma bounded_spec v range z : bounded v range = Some z <-> v = VInt z /\ range.1 <= z <= range.2.
Proof.
  unfold bounded. split.
  - destruct v; try done; simpl. destruct (_ && _) eqn:E; [|done]. intros [= <-]. apply andb_true_iff in E. split; [done|lia].
  - intros [-> Hz]. simpl. replace (range.1 <=? z) with true by lia. by replace (z <=? range.2) with true by lia.
Qed.
(** What is in force: a setting that is written down in full, within the limits. *)
Definition stored_as (raw : option pyval) (c : ClassStartConfig) : Prop :=
  exists d, raw = Some (VDict d) /\ dict_get_none "enabled" d = VBool (cs_enabled c) /\
    dict_get_none "min_participants" d = VInt (min_participants c) /\ 1 <= min_participants c <= 100 /\
    dict_get_none "max_wait_minutes" d = VInt (max_wait_minutes c) /\ 1 <= max_wait_minutes c <= 60.
Lemma from_stored_spec raw c : from_stored raw = Some c <-> stored_as raw c.
Proof.
  unfold from_stored, stored_as. split.
  - destruct raw as [[| | | | | |d]|]; try done. destruct (dict_get_none "enabled" d) eqn:E; try done.
    destruct (bounded _ CLASS_START_MIN_PARTICIPANTS_RANGE) eqn:E1; [|done]. destruct (bounded _ CLASS_START_MAX_WAIT_MINUTES_RANGE) eqn:E2; [|done].
    intros [= <-]. apply bounded_spec in E1 as [E1 H1], E2 as [E2 H2]. by exists d.
  - destruct c as [e m w]. intros (d & -> & -> & Hm & Hm' & Hw & Hw'). simpl in *.
    rewrite (proj2 (bounded_spec _ CLASS_START_MIN_PARTICIPANTS_RANGE m)) by (by split).
    by rewrite (proj2 (bounded_spec _ CLASS_START_MAX_WAIT_MINUTES_RANGE w)) by (by split).
Qed.

(** C40. The class-start setting is read as it is written, or not at all.  For every JSON
    value the column may hold, a setting is read exactly when it is an object whose
    [enabled] is a boolean and whose two numbers are integers - booleans do not count -
    within 1..100 and 1..60, and then it is that setting; any other value reads as no
    setting.  And what the creator's route puts together from such a value and from
    fields within the limits reads back as the same setting once it is stored. *)
Theorem class_setting_stored base enabled minimum wait c raw d
    (Hpatch : patched (from_stored base) enabled minimum wait = Some c)
    (Hmin : forall m, minimum = Some m -> 1 <= m <= 100) (Hwait : forall m, wait = Some m -> 1 <= m <= 60) :
  (from_stored raw = Some d <-> stored_as raw d) /\ from_stored (Some (to_stored c)) = Some c.
Proof.
  split; [apply from_stored_spec|]. apply from_stored_spec.
  assert (1 <= min_participants c <= 100 /\ 1 <= max_wait_minutes c <= 60) as [H1 H2].
  { unfold patched in Hpatch. destruct (from_stored base) as [b|] eqn:Hb.
    - apply from_stored_spec in Hb as (? & _ & _ & _ & Hb1 & _ & Hb2). simpl in Hpatch.
      destruct enabled, minimum, wait; injection Hpatch as <-; cbn [min_participants max_wait_minutes]; auto.
    - simpl in Hpatch. destruct enabled, minimum, wait; try done. injection Hpatch as <-; cbn [min_participants max_wait_minutes]; auto. }
  destruct c as [e m w]. cbn in H1, H2. eexists. split; [reflexivity|]. split_and!; cbn; (reflexivity || lia).
Qed.

(** ** Witnesses *)
Definition opener : Agent := mkAgent 9 2 true [] [("triggers", VDict [("class_start", enabled_dict true)])]%string false.
Definition classroom : Watch :=
  mkWatch {[9%positive := opener]}
    (mkTable {[7%positive := mkRoom (Some 1%positive) (Some (to_stored (mkClassStart true 3 10))) (Some 100) None None]} ∅ ∅)
    [mkBinding 7 9 5 false 1 [] [] None] ∅ {[7%positive := {[1%positive; 3%positive; 4%positive]}]} ∅ ∅ ∅ ∅ ∅ (minutes 11) [] [].
(** Two of three students, for more than ten minutes. *)
Lemma class_check_decides_witness : exists w',
  run (check_in_session 1 7 None) classroom = Some (inr (Some (mkWake [(9, 5)]%positive 2)), w') /\
  wa_log w' = [L_class_started 7 2 "max_wait"].
Proof.
  destruct (class_check_decides 1 7 None classroom _ eq_refl eq_refl eq_refl eq_refl) as (wake & w' & Hrun & _ & _ & H).
  exists w'. revert H. vm_compute (class_decision _ _ _). cbn [fst]. intros [-> ->]. split; [exact Hrun|]. vm_compute. reflexivity.
Defined.
(** [true] is no number of participants. *)
Definition odd_setting : option pyval := Some (VDict [("enabled", VBool true); ("min_participants", VBool true); ("max_wait_minutes", VInt 20)])%string.
Lemma class_setting_stored_witness :
  from_stored (Some (to_stored (mkClassStart false 5 20))) = Some (mkClassStart false 5 20) /\
  ~ stored_as odd_setting (mkClassStart true 1 20).
Proof.
  destruct (class_setting_stored (Some (to_stored (mkClassStart true 2 20))) (Some false) (Some 5) None
    (mkClassStart false 5 20) odd_setting (mkClassStart true 1 20) eq_refl) as [H1 H2]; [by intros m [= <-]|done|].
  split; [exact H2|]. intros H%H1. discriminate H.
Defined.
