(* ===== verification/KeyPolicy.v ===== *)
(** * Provider keys: capabilities and rotation policy

    The pure parts of the keys context: [contexts/keys/domain/providers.py] (which
    provider offers which capability), [domain/groups.py] (the rotation policy and the
    hourly limits of a group member), [application/router_policy.py] (what a status
    means, how long to back off).  The counters that the limits are checked against are
    in [UsageBuckets].

    Times are microseconds.  The delay is computed over the rationals: the rounding of
    its floating-point steps is not modelled, the overflow of the power is.  A random
    number of [random.random()] is a multiple of 2^-53 below one. *)

From Stdlib Require Import QArith Qround Qminmax Qpower Lqa.
From stdpp Require Import pretty.
From S2P Require Import Prelude PyFloat PyValue.
#[local] Open Scope Z_scope.

(** ** Providers *)

Inductive ApiKeyProvider := CLAUDE | OPENAI | GEMINI | VOYAGE | COHERE | OPENAI_COMPAT.
Inductive ProviderCapability := LLM_CHAT | EMBEDDING | RERANK.
#[export] Instance ApiKeyProvider_eq_dec : EqDecision ApiKeyProvider.
Proof. solve_decision. Defined.
#[export] Instance ProviderCapability_eq_dec : EqDecision ProviderCapability.
Proof. solve_decision. Defined.

Definition ProviderCapability_value (c : ProviderCapability) : string :=
  match c with LLM_CHAT => "llm_chat" | EMBEDDING => "embedding" | RERANK => "rerank" end.

Definition capabilities_of (p : ApiKeyProvider) : list ProviderCapability :=
  match p with
  | CLAUDE => [LLM_CHAT]
  | OPENAI => [LLM_CHAT; EMBEDDING]
  | GEMINI => [LLM_CHAT; EMBEDDING]
  | VOYAGE => [EMBEDDING]
  | COHERE => [RERANK]
  | OPENAI_COMPAT => [LLM_CHAT; EMBEDDING]
  end.
Definition supports (p : ApiKeyProvider) (c : ProviderCapability) : bool := bool_decide (c ∈ capabilities_of p).

(** [assert_capability]: true when it returns, false when it raises [CapabilityMismatch]. *)
Definition assert_capability (p : ApiKeyProvider) (c : ProviderCapability) (config : pydict) : bool :=
  supports p c &&
  match p, config with
  | OPENAI_COMPAT, _ :: _ =>
      match dict_get "capabilities" config with
      | Some (VList declared) => existsb (py_eq (VStr (ProviderCapability_value c))) declared
      | _ => true
      end
  | _, _ => true
  end.

(** ** Rotation policy and limits *)

Record RotationPolicy := mkRotation {
  rotate_on_error_codes : list Z;
  rotate_on_token_quota : bool;
  retry_on_error : bool;
  retry_initial_delay_ms : Z;
  retry_multiplier : Q;  (** a [Decimal] of two places *)
  retry_max_delay_ms : Z;
  retry_max : Z;
  retry_jitter_pct : Z;
}.
Definition default_rotation : RotationPolicy :=
  mkRotation [429; 500; 502; 503] true true 500 2 30000 3 20.

Record HourlyLimits := mkLimits {
  max_input_tokens_per_hour : option Z;
  max_output_tokens_per_hour : option Z;
  max_requests_per_hour : option Z;
}.
Definition default_limits : HourlyLimits := mkLimits None None None.

(** ** Classification of a response *)

Inductive RotationReason := R_OK | R_ROTATE | R_RETRY | R_QUOTA | R_FATAL | R_ABORT.
#[export] Instance RotationReason_eq_dec : EqDecision RotationReason.
Proof. solve_decision. Defined.

Record ErrorOutcome := mkOutcome {
  reason : RotationReason;
  o_http_status : option Z;
  o_error_code : option string;
  provider_detail : option string;
}.

Definition is_ok (status : Z) : bool := (200 <=? status) && (status <? 300).
Definition ABORT_STATUSES : list Z := [400; 404; 422].
Definition http_code (status : Z) : string := "http_" +:+ pretty status.

Definition classify_http (status : Z) (policy : RotationPolicy) : ErrorOutcome :=
  if is_ok status then mkOutcome R_OK (Some status) None None
  else if bool_decide (status ∈ [401; 403]) then mkOutcome R_FATAL (Some status) (Some "provider_unauthorized"%string) None
  else if bool_decide (status ∈ rotate_on_error_codes policy) then
    mkOutcome (if retry_on_error policy then R_RETRY else R_ROTATE) (Some status) (Some (http_code status)) None
  else if bool_decide (status ∈ ABORT_STATUSES) then mkOutcome R_ABORT (Some status) (Some (http_code status)) None
  else mkOutcome R_ROTATE (Some status) (Some (http_code status)) None.

(** Status to error code on the pinned paths. *)
Definition classify_pinned_status (status : Z) : option string :=
  if is_ok status then None
  else if bool_decide (status ∈ [401; 403]) then Some "provider_unauthorized"%string
  else Some (http_code status).

(** ** Back-off *)

(** The least magnitude that rounds to an infinite float. *)
Definition float_limit : Q := inject_Z (2 ^ 1024 - 2 ^ 970).

(** [r] is the value of [random()]; [None]: the power raises [OverflowError]. *)
Definition backoff_delay_ms (attempt : Z) (p : RotationPolicy) (r : Q) : option Z :=
  let pw := Qpower (retry_multiplier p) (Z.max 0 (attempt - 1)) in
  if Qle_bool float_limit pw then None else
  let base := (inject_Z (retry_initial_delay_ms p) * pw)%Q in
  let capped := Qmin base (inject_Z (retry_max_delay_ms p)) in
  let jitter := (capped * (inject_Z (retry_jitter_pct p) / 100) * (r * 2 - 1))%Q in
  Some (Z.max 0 (Qfloor (capped + jitter)%Q)).

Lemma backoff_nonneg a p r d : backoff_delay_ms a p r = Some d -> 0 <= d.
Proof. unfold backoff_delay_ms. case_match; [done|]. intros [= <-]. lia. Qed.

Lemma jitter_cap (c cap t r : Q) : (0 <= c -> c <= cap -> 0 <= t -> r < 1 -> c + c * t * (r * 2 - 1) <= cap + cap * t)%Q.
Proof. intros. assert (0 <= c * t)%Q by nra. nra. Qed.

(** The waits of the retry loop never exceed the cap by more than the jitter: with the
    values the API and the table accept, every delay lies between zero and the
    configured maximum plus [retry_jitter_pct] percent of it. *)
Theorem backoff_within_cap a p r d :
  0 <= retry_initial_delay_ms p -> 0 <= retry_max_delay_ms p -> (0 <= retry_multiplier p)%Q ->
  0 <= retry_jitter_pct p -> (r < 1)%Q -> backoff_delay_ms a p r = Some d ->
  0 <= d /\ 100 * d <= retry_max_delay_ms p * (100 + retry_jitter_pct p).
Proof.
  intros Hi Hm Hmul Hj Hr Hd. split; [by eapply backoff_nonneg|].
  unfold backoff_delay_ms in Hd. destruct (Qle_bool _ _); [done|]. apply (inj Some) in Hd as <-.
  set (pw := Qpower _ _). assert (H0 : 0 <= retry_max_delay_ms p * (100 + retry_jitter_pct p)) by nia.
  rewrite Zle_Qle in Hi. rewrite Zle_Qle in Hm. pose proof Hj as Hj'. rewrite Zle_Qle in Hj'. change (inject_Z 0) with 0%Q in *.
  assert (Hb : (0 <= inject_Z (retry_initial_delay_ms p) * pw)%Q) by (apply Qmult_le_0_compat; [done|by apply Qpower_0_le]).
  set (c := Qmin _ _). assert (Hc0 : (0 <= c)%Q) by (apply Q.min_glb; done).
  assert (Hc1 : (c <= inject_Z (retry_max_delay_ms p))%Q) by apply Q.le_min_r.
  pose proof (jitter_cap c _ (inject_Z (retry_jitter_pct p) / 100) r Hc0 Hc1 ltac:(unfold Qdiv; change (/ 100)%Q with (1 # 100)%Q; lra) Hr) as Hx.
  set (x := (c + _)%Q) in *. pose proof (Qfloor_le x) as Hf.
  clearbody x. destruct (Z.max_spec 0 (Qfloor x)) as [[_ ->]|[_ ->]]; [|lia].
  rewrite Zle_Qle, !inject_Z_mult, inject_Z_plus. change (inject_Z 100) with 100%Q. unfold Qdiv in Hx. change (/ 100)%Q with (1 # 100)%Q in Hx. lra.
Qed.
Lemma backoff_within_cap_witness : backoff_delay_ms 4 default_rotation (1 # 2) = Some 4000 /\ 100 * 4000 <= 30000 * (100 + 20).
Proof.
  assert (H : backoff_delay_ms 4 default_rotation (1 # 2) = Some 4000) by (vm_compute; reflexivity). split; [exact H|].
  apply (backoff_within_cap 4 default_rotation (1 # 2) 4000); [vm_compute; discriminate..|reflexivity|exact H].
Defined.
