(* ===== verification/UsageBuckets.v ===== *)
(** * Sliding-window usage counters

    [shared_kernel/infra/redis_buckets.py]: one Redis hash per subject and minute, with
    an expiry of sixty-one minutes; [usage] sums the trailing sixty.  Times are
    microseconds of one clock, which the application and Redis share; a counter that a
    hash does not hold reads as zero, as in the aggregation script. *)

From Stdlib Require Import Sorting.Sorted.
From S2P Require Import Prelude.

Definition BUCKET_US : Z := 60 * 1000000.
Definition WINDOW_BUCKETS : nat := 60.
Definition BUCKET_TTL_US : Z := BUCKET_US * (Z.of_nat WINDOW_BUCKETS + 1).

Record Bucket := mkBucket { b_input_tokens : Z; b_output_tokens : Z; b_requests : Z }.
Definition zero_bucket : Bucket := mkBucket 0 0 0.
Definition bucket_add (a b : Bucket) : Bucket :=
  mkBucket (b_input_tokens a + b_input_tokens b) (b_output_tokens a + b_output_tokens b) (b_requests a + b_requests b).
Definition bucket_sum (l : list Bucket) : Bucket := foldr bucket_add zero_bucket l.

(** The hashes, each with the instant it expires at. *)
Abbreviation hashes := (gmap (uuid * Z) (Bucket * Z)).

Definition current_bucket (now : Z) : Z := now `div` BUCKET_US.
(** What Redis answers for a key at [now]. *)
Definition hash_at (now : Z) (h : hashes) (k : uuid * Z) : Bucket :=
  match h !! k with Some (b, expires) => if now <? expires then b else zero_bucket | None => zero_bucket end.

(** [record]: the increments of one pipeline commute with those of another. *)
Definition record_usage (now : Z) (subject : uuid) (delta : Bucket) (h : hashes) : hashes :=
  if (b_input_tokens delta =? 0) && (b_output_tokens delta =? 0) && (b_requests delta =? 0) then h
  else let k := (subject, current_bucket now) in <[k := (bucket_add (hash_at now h k) delta, now + BUCKET_TTL_US)]> h.

(** [usage]: the keys are computed at [cur], the script runs at [now]. *)
Definition usage_keys (subject : uuid) (cur : Z) : list (uuid * Z) :=
  (fun i => (subject, cur - Z.of_nat i)) <$> seq 0 WINDOW_BUCKETS.
Definition aggregate (now : Z) (h : hashes) (keys : list (uuid * Z)) : Bucket := bucket_sum (hash_at now h <$> keys).

(** ** Specification: the calls of the window *)

(** What was recorded, the latest call first. *)
Record UseCall := mkUse { u_at : Z; u_subject : uuid; u_delta : Bucket }.
Definition replay (calls : list UseCall) : hashes := foldr (fun c => record_usage (u_at c) (u_subject c) (u_delta c)) ∅ calls.
(** The sum of the calls of [subject] that satisfy [p]. *)
Definition spent (subject : uuid) (p : Z -> bool) (calls : list UseCall) : Bucket :=
  bucket_sum (u_delta <$> List.filter (fun c => bool_decide (u_subject c = subject) && p (u_at c)) calls).
(** The instants a reading at bucket [cur] covers. *)
Definition in_window (cur t : Z) : bool := (cur - Z.of_nat WINDOW_BUCKETS <? current_bucket t) && (current_bucket t <=? cur).
(** Calls are recorded in the order of their instants. *)
Definition timed (calls : list UseCall) : Prop := Sorted (fun a b => u_at b <= u_at a) calls.

Lemma bucket_add_zero_r b : bucket_add b zero_bucket = b.
Proof. destruct b. unfold bucket_add. simpl. by rewrite !Z.add_0_r. Qed.
Lemma bucket_add_zero_l b : bucket_add zero_bucket b = b.
Proof. by destruct b. Qed.
#[export] Instance bucket_add_assoc : Assoc (=) bucket_add.
Proof. intros [] [] []. unfold bucket_add. simpl. by rewrite !Z.add_assoc. Qed.
#[export] Instance bucket_add_comm : Comm (=) bucket_add.
Proof. intros [] []. unfold bucket_add. simpl. f_equal; lia. Qed.

(** [spent] splits over a disjoint pair of windows and ignores what [p] excludes. *)
Lemma spent_cons s p c calls :
  spent s p (c :: calls) =
  (if bool_decide (u_subject c = s) && p (u_at c) then bucket_add (u_delta c) (spent s p calls) else spent s p calls).
Proof. unfold spent. simpl. by case_match. Qed.
Lemma spent_none s p calls : (forall c, c ∈ calls -> u_subject c = s -> p (u_at c) = false) -> spent s p calls = zero_bucket.
Proof.
  induction calls as [|c calls IH]; intros H; [done|]. rewrite spent_cons.
  rewrite IH; [|intros c' Hc; apply H; by apply elem_of_cons; right].
  case_bool_decide as E; [|done]. rewrite (H c); [done|apply list_elem_of_here|done].
Qed.
Lemma spent_or s p q calls : (forall t, p t = true -> q t = false) ->
  spent s (fun t => p t || q t) calls = bucket_add (spent s p calls) (spent s q calls).
Proof.
  intros Hpq. induction calls as [|c calls IH]; [done|]. rewrite !spent_cons, IH. case_bool_decide; simpl; [|done].
  specialize (Hpq (u_at c)). destruct (p (u_at c)); simpl.
  - rewrite Hpq by done. by rewrite (assoc bucket_add).
  - destruct (q (u_at c)); [|done]. rewrite !(assoc bucket_add). f_equal. apply (comm bucket_add).
Qed.
Lemma spent_ext s p q calls : (forall c, c ∈ calls -> p (u_at c) = q (u_at c)) -> spent s p calls = spent s q calls.
Proof.
  induction calls as [|c calls IH]; intros H; [done|]. rewrite !spent_cons.
  rewrite IH by (intros c' Hc; apply H; by apply elem_of_cons; right). rewrite (H c) by apply list_elem_of_here. done.
Qed.

(** A minute's hash holds exactly the calls of that minute, and expires sixty-one
    minutes after the last of them. *)
Definition minute (b t : Z) : bool := current_bucket t =? b.
Lemma minute_bounds b t : minute b t = true -> b * BUCKET_US <= t < (b + 1) * BUCKET_US.
Proof.
  unfold minute, current_bucket. intros E%Z.eqb_eq. pose proof (Z.mod_pos_bound t BUCKET_US eq_refl).
  pose proof (Z.div_mod t BUCKET_US). unfold BUCKET_US in *. lia.
Qed.

Lemma timed_head c calls : timed (c :: calls) -> forall c', c' ∈ calls -> u_at c' <= u_at c.
Proof.
  intros H. apply Sorted_StronglySorted in H; [|intros x y z; lia].
  apply StronglySorted_inv in H as [_ Hx]. intros c' Hc. rewrite Forall_forall in Hx. by apply Hx, list_elem_of_In.
Qed.

Lemma hash_at_later now h k b e : h !! k = Some (b, e) -> now < e -> hash_at now h k = b.
Proof. intros H He. unfold hash_at. rewrite H. by destruct (Z.ltb_spec now e); [|lia]. Qed.

Lemma replay_lookup calls s b : timed calls ->
  match replay calls !! (s, b) with
  | Some (v, e) => v = spent s (minute b) calls /\ exists t, minute b t = true /\ e = t + BUCKET_TTL_US
  | None => spent s (minute b) calls = zero_bucket
  end.
Proof.
  induction calls as [|c calls IH]; intros Ht; [by change (replay []) with (∅ : hashes); rewrite lookup_empty|].
  assert (Ht' : timed calls) by (by inversion Ht). specialize (IH Ht').
  pose proof (timed_head _ _ Ht) as Hle. rewrite spent_cons. simpl. unfold record_usage.
  destruct (_ && _ && _) eqn:Ez.
  { assert (u_delta c = zero_bucket) as -> by (destruct (u_delta c); simpl in *; f_equal; lia).
    rewrite bucket_add_zero_l. destruct (bool_decide _ && _); exact IH. }
  destruct (decide ((u_subject c, current_bucket (u_at c)) = (s, b))) as [[= Hs Hb]|Hne].
  - rewrite Hs, Hb, lookup_insert_eq. rewrite bool_decide_true by done.
    assert (Hm : minute b (u_at c) = true) by (by apply Z.eqb_eq). rewrite Hm. simpl.
    split; [|by exists (u_at c)]. rewrite (comm bucket_add). f_equal.
    destruct (replay calls !! (s, b)) as [[v e]|] eqn:Er.
    + destruct IH as (-> & t & Hmt & ->). apply (hash_at_later _ _ _ _ _ Er).
      apply minute_bounds in Hm, Hmt. unfold BUCKET_TTL_US, BUCKET_US, WINDOW_BUCKETS in *. lia.
    + unfold hash_at. by rewrite Er, IH.
  - rewrite lookup_insert_ne by done.
    assert (bool_decide (u_subject c = s) && minute b (u_at c) = false) as ->; [|exact IH].
    apply andb_false_iff. destruct (decide (u_subject c = s)) as [E|E]; [right|left; by apply bool_decide_eq_false].
    apply Z.eqb_neq. congruence.
Qed.

(** Summing minutes is selecting their union. *)
Lemma sum_minutes s calls cur n :
  bucket_sum ((fun i => spent s (minute (cur - Z.of_nat i)) calls) <$> seq 0 n) =
  spent s (fun t => (cur - Z.of_nat n <? current_bucket t) && (current_bucket t <=? cur)) calls.
Proof.
  induction n as [|n IH].
  { simpl. symmetry. apply spent_none. intros c _ _. lia. }
  rewrite seq_S, fmap_app. unfold bucket_sum. rewrite foldr_app. simpl. rewrite bucket_add_zero_r.
  assert (Hf : forall l z, foldr bucket_add z l = bucket_add (foldr bucket_add zero_bucket l) z).
  { intros l z. induction l as [|x l IHl]; simpl; [by rewrite bucket_add_zero_l|]. by rewrite IHl, (assoc bucket_add). }
  rewrite Hf. unfold bucket_sum in IH. rewrite IH, <- spent_or.
  - apply spent_ext. intros c _. unfold minute. lia.
  - intros t. unfold minute. lia.
Qed.

(** The limits are checked against the right numbers.  For any history of recorded
    calls, [usage] returns exactly the sums over the calls of that key whose minute is
    one of the trailing sixty, if the script runs within a minute of choosing its
    keys: no hash of the window has expired, no call is counted twice.  Every call of
    the last fifty-nine minutes is in the window, none of sixty minutes ago or before
    is. *)
Theorem usage_counts_window calls subject t now : timed calls -> (forall c, c ∈ calls -> u_at c <= now) ->
  t <= now < t + BUCKET_US ->
  aggregate now (replay calls) (usage_keys subject (current_bucket t)) = spent subject (in_window (current_bucket t)) calls /\
  (forall t', t - 59 * BUCKET_US <= t' <= t -> in_window (current_bucket t) t' = true) /\
  (forall t', t' <= t - 60 * BUCKET_US -> in_window (current_bucket t) t' = false).
Proof.
  intros Ht Hc Hn. split_and!.
  - unfold aggregate, usage_keys, in_window. rewrite <- list_fmap_compose, <- sum_minutes. f_equal.
    apply list_fmap_ext. intros i x [-> Hi]%lookup_seq. simpl. unfold hash_at.
    pose proof (replay_lookup calls subject (current_bucket t - Z.of_nat i) Ht) as H.
    destruct (replay calls !! _) as [[v e]|]; [|done]. destruct H as (-> & t0 & Hm & ->).
    apply minute_bounds in Hm. assert (Hb : minute (current_bucket t) t = true) by (by apply Z.eqb_eq).
    apply minute_bounds in Hb. destruct (Z.ltb_spec now (t0 + BUCKET_TTL_US)); [done|].
    unfold BUCKET_TTL_US, BUCKET_US, WINDOW_BUCKETS in *. lia.
  - intros t' Ht'. unfold in_window, current_bucket, WINDOW_BUCKETS, BUCKET_US in *.
    apply andb_true_iff. split; [apply Z.ltb_lt|apply Z.leb_le, Z.div_le_mono; lia].
    assert (t `div` (60 * 1000000) - 59 <= t' `div` (60 * 1000000)); [|lia].
    replace (t `div` (60 * 1000000) - 59) with ((t + (-59) * (60 * 1000000)) `div` (60 * 1000000)) by (rewrite Z.div_add; lia).
    apply Z.div_le_mono; lia.
  - intros t' Ht'. unfold in_window, current_bucket, WINDOW_BUCKETS, BUCKET_US in *.
    apply andb_false_iff. left. apply Z.ltb_ge.
    replace (t `div` (60 * 1000000) - Z.of_nat 60) with ((t + (-60) * (60 * 1000000)) `div` (60 * 1000000)) by (rewrite Z.div_add; lia).
    apply Z.div_le_mono; lia.
Qed.
(** Two calls of one key and one of another, forty minutes apart. *)
Definition w_calls : list UseCall :=
  [mkUse (100 * BUCKET_US) 10 (mkBucket 5 2 1); mkUse (61 * BUCKET_US) 11 (mkBucket 9 9 1); mkUse (60 * BUCKET_US) 10 (mkBucket 1 1 1);
   mkUse (40 * BUCKET_US) 10 (mkBucket 8 8 1)]%positive.
Lemma usage_counts_window_witness :
  aggregate (100 * BUCKET_US) (replay w_calls) (usage_keys 10 (current_bucket (100 * BUCKET_US))) = mkBucket 6 3 2.
Proof.
  destruct (usage_counts_window w_calls 10 (100 * BUCKET_US) (100 * BUCKET_US)) as [-> _].
  - unfold timed, w_calls. repeat constructor; vm_compute; discriminate.
  - intros c Hc. unfold w_calls in Hc. repeat (apply elem_of_cons in Hc as [->|Hc]; [vm_compute; discriminate|]). by apply not_elem_of_nil in Hc.
  - unfold BUCKET_US. lia.
  - vm_compute. reflexivity.
Defined.
