(* ===== verification/KeyStore.v ===== *)
(** * Provider keys: tables and repositories

    The tables of the keys context ([contexts/keys/infrastructure/tables.py] with the
    constraints of migration 0007) and the statements of its repositories
    (group_repository.py, carry_repository.py, repositories.py).  Instants are
    microseconds.  Names, previews, probe results and audit rows are not modelled; an
    envelope is kept as it is stored and opened by a parameter. *)

From stdpp Require Import sorting.
From S2P Require Import Prelude PyFloat PyValue KeyPolicy.

(** ** Rows *)

Record EnvelopeRecord := mkEnvelope {
  ciphertext : string; nonce : string; dek_wrapped : string; ciphertext_hmac : string;
  transit_key_version : Z; hmac_key_version : Z;
}.
Record ApiKey := mkApiKey {
  owner_user_id : uuid;
  provider : ApiKeyProvider;
  config : pydict;
  encrypted_proxy_headers : option pydict;
  envelope : EnvelopeRecord;
  k_deleted_at : option Z;
}.
Record Carry := mkCarry { carried : bool; added_by_user_id : uuid; withdrawn_at : option Z }.
Record KeyGroup := mkGroup { g_project_id : uuid; g_name : string; g_deleted_at : option Z }.
Record KeyGroupMember := mkMember { priority : Z; rotation : RotationPolicy; limits : HourlyLimits }.
Record UsageEvent := mkEvent {
  e_key_id : uuid; e_agent_id : option uuid;
  e_input_tokens : Z; e_output_tokens : Z; e_request_ms : Z;
  e_http_status : option Z; e_error_code : option string; e_at : Z;
}.

(** Carries are keyed by key and project, members by group and key, as the primary keys
    are; usage events are listed latest first. *)
Record KeyDb := mkDb {
  api_keys : gmap uuid ApiKey;
  key_projects : gmap (uuid * uuid) Carry;
  key_groups : gmap uuid KeyGroup;
  key_group_members : gmap (uuid * uuid) KeyGroupMember;
  key_usage_events : list UsageEvent;
}.
Definition with_keys (f : gmap uuid ApiKey -> gmap uuid ApiKey) (d : KeyDb) : KeyDb :=
  mkDb (f (api_keys d)) (key_projects d) (key_groups d) (key_group_members d) (key_usage_events d).
Definition with_carries (f : gmap (uuid * uuid) Carry -> gmap (uuid * uuid) Carry) (d : KeyDb) : KeyDb :=
  mkDb (api_keys d) (f (key_projects d)) (key_groups d) (key_group_members d) (key_usage_events d).
Definition with_groups (f : gmap uuid KeyGroup -> gmap uuid KeyGroup) (d : KeyDb) : KeyDb :=
  mkDb (api_keys d) (key_projects d) (f (key_groups d)) (key_group_members d) (key_usage_events d).
Definition with_members (f : gmap (uuid * uuid) KeyGroupMember -> gmap (uuid * uuid) KeyGroupMember) (d : KeyDb) : KeyDb :=
  mkDb (api_keys d) (key_projects d) (key_groups d) (f (key_group_members d)) (key_usage_events d).
Definition with_events (f : list UsageEvent -> list UsageEvent) (d : KeyDb) : KeyDb :=
  mkDb (api_keys d) (key_projects d) (key_groups d) (key_group_members d) (f (key_usage_events d)).

(** ** Keys *)

Definition get_active (d : KeyDb) (k : uuid) : option ApiKey :=
  key ← api_keys d !! k; match k_deleted_at key with None => Some key | Some _ => None end.
Definition get_active_with_envelope (d : KeyDb) (k : uuid) : option (ApiKey * EnvelopeRecord) :=
  key ← get_active d k; Some (key, envelope key).
Definition owner_of (d : KeyDb) (k : uuid) : option uuid := owner_user_id <$> api_keys d !! k.
Definition soft_delete_key (k : uuid) (at_ : Z) : KeyDb -> KeyDb :=
  with_keys (alter (fun key => match k_deleted_at key with
    | None => mkApiKey (owner_user_id key) (provider key) (config key) (encrypted_proxy_headers key) (envelope key) (Some at_)
    | Some _ => key end) k).

(** ** Carries *)

Definition upsert_carry (k p user : uuid) : KeyDb -> KeyDb :=
  with_carries (fun m => <[(k, p) := match m !! (k, p) with
    | Some c => mkCarry true (added_by_user_id c) None
    | None => mkCarry true user None end]> m).
Definition withdrawn (at_ : Z) (c : Carry) : Carry :=
  if carried c then mkCarry false (added_by_user_id c) (Some at_) else c.
(** True with the row flipped, when there was one to flip. *)
Definition withdraw_carry (k p : uuid) (at_ : Z) (d : KeyDb) : bool * KeyDb :=
  match key_projects d !! (k, p) with
  | Some c => if carried c then (true, with_carries <[(k, p) := withdrawn at_ c]> d) else (false, d)
  | None => (false, d)
  end.
(** [UPDATE ... WHERE] some condition on the row's key. *)
Definition withdraw_where (P : uuid * uuid -> bool) (at_ : Z) : KeyDb -> KeyDb :=
  with_carries (map_imap (fun kp c => Some (if P kp then withdrawn at_ c else c))).
Definition withdraw_all_for_key (k : uuid) (at_ : Z) : KeyDb -> KeyDb :=
  withdraw_where (fun kp => bool_decide (kp.1 = k)) at_.
Definition is_active_carry (d : KeyDb) (k p : uuid) : bool :=
  match key_projects d !! (k, p) with Some c => carried c | None => false end.
Definition is_carried (d : KeyDb) (k p : uuid) : bool :=
  is_active_carry d k p && match get_active d k with Some _ => true | None => false end.
(** The keys [list_active_in_project] returns; [any(c.id == key_id ...)] tests membership. *)
Definition list_active_in_project (d : KeyDb) (p : uuid) : list uuid :=
  List.filter (fun k => is_carried d k p) ((map_to_list (api_keys d)).*1).
Definition list_active_carries_for_user (d : KeyDb) (user p : uuid) : list uuid :=
  List.filter (fun k => is_active_carry d k p && bool_decide (owner_of d k = Some user)) ((map_to_list (api_keys d)).*1).
Definition carried_project_ids (d : KeyDb) (k : uuid) : list uuid :=
  omap (fun kc : uuid * uuid * Carry => if bool_decide (kc.1.1 = k) && carried kc.2 then Some kc.1.2 else None)
    (map_to_list (key_projects d)).

(** ** Groups and members *)

Definition get_active_group (d : KeyDb) (g : uuid) : option KeyGroup :=
  r ← key_groups d !! g; match g_deleted_at r with None => Some r | Some _ => None end.
Definition rename_group (g : uuid) (name : string) : KeyDb -> KeyDb :=
  with_groups (alter (fun r => mkGroup (g_project_id r) name (g_deleted_at r)) g).
Definition soft_delete_group (g : uuid) (at_ : Z) : KeyDb -> KeyDb :=
  with_groups (alter (fun r => mkGroup (g_project_id r) (g_name r) (Some at_)) g).

Definition by_priority (a b : uuid * KeyGroupMember) : Prop := priority a.2 <= priority b.2.
#[export] Instance by_priority_dec a b : Decision (by_priority a b).
Proof. unfold by_priority. apply _. Defined.
#[export] Instance by_priority_total : Total by_priority.
Proof. intros a b. unfold by_priority. lia. Qed.
#[export] Instance by_priority_trans : Transitive by_priority.
Proof. intros a b c. unfold by_priority. lia. Qed.

Definition members_of (d : KeyDb) (g : uuid) : list (uuid * KeyGroupMember) :=
  omap (fun gm : uuid * uuid * KeyGroupMember => if bool_decide (gm.1.1 = g) then Some (gm.1.2, gm.2) else None)
    (map_to_list (key_group_members d)).
Definition list_ordered (d : KeyDb) (g : uuid) : list (uuid * KeyGroupMember) := merge_sort by_priority (members_of d g).
(** The joins of [list_ordered_carried]: the group live, the key carried into the
    group's project, the key not deleted. *)
Definition carried_for_group (d : KeyDb) (g k : uuid) : bool :=
  match get_active_group d g with Some r => is_carried d k (g_project_id r) | None => false end.
Definition list_ordered_carried (d : KeyDb) (g : uuid) : list (uuid * KeyGroupMember) :=
  merge_sort by_priority (List.filter (fun m => carried_for_group d g m.1) (members_of d g)).

(** [list_for_project_with_counts]: the live groups of a project with the number of
    members that are carried and the providers among them (in no fixed order, as the
    aggregate has none). *)
Definition carried_providers (d : KeyDb) (g : uuid) : list ApiKeyProvider :=
  remove_dups (omap (fun m => provider <$> get_active d m.1) (list_ordered_carried d g)).
Definition list_for_project_with_counts (d : KeyDb) (p : uuid) : list (uuid * nat * list ApiKeyProvider) :=
  (fun g => (g, length (list_ordered_carried d g), carried_providers d g)) <$>
  List.filter (fun g => match get_active_group d g with Some r => bool_decide (g_project_id r = p) | None => false end)
    ((map_to_list (key_groups d)).*1).

Definition next_priority (d : KeyDb) (g : uuid) : Z := 1 + foldr (fun m a => Z.max (priority m.2) a) 0 (members_of d g).
(** The table's constraints on a member row: positive priority, unique in its group. *)
Definition priority_taken (d : KeyDb) (g k : uuid) (n : Z) : bool :=
  existsb (fun m => negb (bool_decide (m.1 = k)) && (priority m.2 =? n)) (members_of d g).
Definition add_row (g k : uuid) (m : KeyGroupMember) : KeyDb -> KeyDb := with_members <[(g, k) := m]>.
Definition remove_row (g k : uuid) (d : KeyDb) : bool * KeyDb :=
  match key_group_members d !! (g, k) with
  | Some _ => (true, with_members (delete (g, k)) d)
  | None => (false, d)
  end.
Definition remove_all_for_key (k : uuid) : KeyDb -> KeyDb :=
  with_members (filter (fun gm => bool_decide (gm.1.2 <> k))).
Definition set_priority (n : Z) (m : KeyGroupMember) : KeyGroupMember := mkMember n (rotation m) (limits m).
(** The updates of [reorder_atomic], one statement each. *)
Definition reorder_rows (g : uuid) (priorities : list (uuid * Z)) (d : KeyDb) : KeyDb :=
  foldl (fun d kn => with_members (alter (set_priority kn.2) (g, kn.1)) d) d priorities.

(** ** Lookup lemmas *)

Lemma members_of_elem d g k m : (k, m) ∈ members_of d g <-> key_group_members d !! (g, k) = Some m.
Proof.
  unfold members_of. rewrite list_elem_of_omap. split.
  - intros ([[g' k'] m'] & Hin & Heq). simpl in Heq. case_bool_decide; [|done]. injection Heq as -> ->. subst.
    by apply elem_of_map_to_list in Hin.
  - intros H. exists ((g, k), m). split; [by apply elem_of_map_to_list|]. simpl. by rewrite bool_decide_true.
Qed.
Lemma list_ordered_elem d g k m : (k, m) ∈ list_ordered d g <-> key_group_members d !! (g, k) = Some m.
Proof. unfold list_ordered. by rewrite merge_sort_Permutation, members_of_elem. Qed.
Lemma list_ordered_carried_elem d g k m :
  (k, m) ∈ list_ordered_carried d g <-> key_group_members d !! (g, k) = Some m /\ carried_for_group d g k = true.
Proof.
  unfold list_ordered_carried. rewrite merge_sort_Permutation, list_elem_of_In, List.filter_In, <- list_elem_of_In.
  by rewrite members_of_elem.
Qed.
(** A key is a member of a group at most once. *)
Lemma list_ordered_carried_keys d g : NoDup (list_ordered_carried d g).*1.
Proof.
  unfold list_ordered_carried. rewrite merge_sort_Permutation.
  eapply sublist_NoDup; [|apply fmap_sublist, filter_sublist]. unfold members_of.
  assert (H : forall l : list (uuid * uuid * KeyGroupMember), NoDup l.*1 ->
    NoDup (omap (fun gm => if bool_decide (gm.1.1 = g) then Some (gm.1.2, gm.2) else None) l).*1).
  { induction l as [|[[g' k] m] l IH]; [by constructor|]. intros [Hx Hl]%list.NoDup_cons. simpl. case_bool_decide as E; [|by apply IH].
    subst g'. simpl. constructor; [|by apply IH]. intros ([k2 m2] & E & ([[g3 k3] m3] & Hin & E3)%list_elem_of_omap)%list_elem_of_fmap.
    simpl in *. case_bool_decide; [|done]. simplify_eq. apply Hx. apply list_elem_of_fmap. by exists (g, k2, m2). }
  apply H, NoDup_fst_map_to_list.
Qed.
Lemma get_active_Some d k key : get_active d k = Some key <-> api_keys d !! k = Some key /\ k_deleted_at key = None.
Proof.
  unfold get_active. rewrite bind_Some. split.
  - intros (x & Hx & E). destruct (k_deleted_at x) eqn:Ed; [done|]. by injection E as ->.
  - intros [H E]. exists key. by rewrite E.
Qed.
Lemma get_active_group_Some d g r : get_active_group d g = Some r <-> key_groups d !! g = Some r /\ g_deleted_at r = None.
Proof.
  unfold get_active_group. rewrite bind_Some. split.
  - intros (x & Hx & E). destruct (g_deleted_at x) eqn:Ed; [done|]. by injection E as ->.
  - intros [H E]. exists r. by rewrite E.
Qed.
Lemma is_active_carry_Some d k p : is_active_carry d k p = true <-> exists c, key_projects d !! (k, p) = Some c /\ carried c = true.
Proof. unfold is_active_carry. destruct (key_projects d !! (k, p)) as [c|]; naive_solver. Qed.
Lemma is_carried_spec d k p : is_carried d k p = true <->
  (exists c, key_projects d !! (k, p) = Some c /\ carried c = true) /\ exists key, get_active d k = Some key.
Proof.
  unfold is_carried. rewrite andb_true_iff, is_active_carry_Some. destruct (get_active d k); naive_solver.
Qed.
Lemma list_active_in_project_elem d p k : k ∈ list_active_in_project d p <-> is_carried d k p = true.
Proof.
  unfold list_active_in_project. rewrite list_elem_of_In, List.filter_In, <- list_elem_of_In. split; [naive_solver|].
  intros H. split; [|done]. apply is_carried_spec in H as [_ [key Hk]]. apply get_active_Some in Hk as [Hk _].
  apply list_elem_of_fmap. exists (k, key). split; [done|]. by apply elem_of_map_to_list.
Qed.

(** ** What may be spent *)

(** The group may spend the key, in terms of the tables: the group is not deleted, the
    key is one of its members, is not deleted, and is carried into the group's project. *)
Definition may_spend (d : KeyDb) (g k : uuid) : Prop :=
  exists r m c key, key_groups d !! g = Some r /\ g_deleted_at r = None /\
    key_group_members d !! (g, k) = Some m /\
    key_projects d !! (k, g_project_id r) = Some c /\ carried c = true /\
    api_keys d !! k = Some key /\ k_deleted_at key = None.

Lemma carried_for_group_spec d g k : carried_for_group d g k = true <->
  exists r c key, key_groups d !! g = Some r /\ g_deleted_at r = None /\
    key_projects d !! (k, g_project_id r) = Some c /\ carried c = true /\ api_keys d !! k = Some key /\ k_deleted_at key = None.
Proof.
  unfold carried_for_group. split.
  - destruct (get_active_group d g) as [r|] eqn:Er; [|done]. intros [(c & Hc & Hca) (key & Hk)]%is_carried_spec.
    apply get_active_group_Some in Er as []. apply get_active_Some in Hk as []. naive_solver.
  - intros (r & c & key & Hg & Hgd & Hc & Hca & Hk & Hkd).
    assert (get_active_group d g = Some r) as -> by (by apply get_active_group_Some).
    apply is_carried_spec. split; [naive_solver|]. exists key. by apply get_active_Some.
Qed.
Lemma may_spend_listed d g k : may_spend d g k <-> exists m, (k, m) ∈ list_ordered_carried d g.
Proof.
  unfold may_spend. setoid_rewrite list_ordered_carried_elem. setoid_rewrite carried_for_group_spec. naive_solver.
Qed.
