(* ===== verification/KeyServices.v ===== *)
(** * Provider keys: groups, carries and revocation

    [contexts/keys/application/group_service.py] and carry_service.py and the deletion
    of [application/key_service.py].  Each operation is one transaction of a request: it
    returns the tables it commits, or raises and changes nothing.  Statements of two
    requests are not interleaved here; the router, which has to withstand that, reads
    the tables under an arbitrary environment ([ProviderRouter]).  The audit rows are not
    modelled; the revocations announced on Redis are, with the failures of Redis. *)

From S2P Require Import Prelude PyFloat PyValue KeyPolicy KeyStore.

Inductive KeysError :=
  | KeyNotFound | KeyNotOwnedByCaller | CapabilityMismatch | GroupWrongProject | GroupMemberConflict
  | UnknownWindow  (** a [ValueError] *)
  | IntegrityError  (** of the database, not translated *)
  | RedisError.
#[export] Instance KeysError_eq_dec : EqDecision KeysError.
Proof. solve_decision. Defined.

(** What a transaction works on: the tables and the keys announced as revoked so far. *)
Record KeyTx := mkTx { tx_db : KeyDb; tx_revoked : list uuid }.
Definition txn (A : Type) : Type := KeyTx -> KeysError + (A * KeyTx).
#[export] Instance txn_ret : MRet txn := fun A a t => inr (a, t).
#[export] Instance txn_bind : MBind txn := fun A B f m t =>
  match m t with inl e => inl e | inr (a, t') => f a t' end.
Definition fail {A} (e : KeysError) : txn A := fun _ => inl e.
Definition read {A} (f : KeyDb -> A) : txn A := fun t => inr (f (tx_db t), t).
Definition execute (f : KeyDb -> KeyDb) : txn unit := fun t => inr (tt, mkTx (f (tx_db t)) (tx_revoked t)).
(** A statement that reports something of the rows it changed. *)
Definition execute_ret {A} (f : KeyDb -> A * KeyDb) : txn A := fun t =>
  inr ((f (tx_db t)).1, mkTx (f (tx_db t)).2 (tx_revoked t)).
Definition require {A} (o : option A) (e : KeysError) : txn A := match o with Some a => mret a | None => fail e end.
Definition ensure (b : bool) (e : KeysError) : txn unit := if b then mret tt else fail e.

(** [publish_key_revoked], [publish_carry_revoked]: both make every worker drop the key. *)
Definition publish (redis_up : bool) (k : uuid) : txn unit := fun t =>
  if redis_up then inr (tt, mkTx (tx_db t) (tx_revoked t ++ [k])) else inl RedisError.
(** [try: publish ... except Exception: log] *)
Definition publish_guarded (redis_up : bool) (k : uuid) : txn unit := fun t =>
  match publish redis_up k t with inl _ => inr (tt, t) | r => r end.

(** ** KeyGroupService *)

(** The unique index on the names of a project's live groups. *)
Definition name_taken (d : KeyDb) (g p : uuid) (name : string) : bool :=
  existsb (fun gr : uuid * KeyGroup => negb (bool_decide (gr.1 = g)) && bool_decide (g_project_id gr.2 = p) &&
    String.eqb (g_name gr.2) name && match g_deleted_at gr.2 with None => true | Some _ => false end) (map_to_list (key_groups d)).
(** [g] is the identifier the insert generates. *)
Definition create_group (g p : uuid) (name : string) : txn unit :=
  bad ← read (fun d => bool_decide (is_Some (key_groups d !! g)) || name_taken d g p name);
  _ ← ensure (negb bad) IntegrityError;
  execute (with_groups <[g := mkGroup p name None]>).
Definition get_with_members (g : uuid) : txn (option (KeyGroup * list (uuid * KeyGroupMember))) :=
  group ← read (fun d => get_active_group d g);
  match group with
  | None => mret None
  | Some r => members ← read (fun d => list_ordered_carried d g); mret (Some (r, members))
  end.
Definition rename (g : uuid) (name : string) : txn unit :=
  group ← read (fun d => get_active_group d g);
  r ← require group KeyNotFound;
  bad ← read (fun d => name_taken d g (g_project_id r) name);
  _ ← ensure (negb bad) IntegrityError;
  execute (rename_group g name).
Definition delete_group (g : uuid) (now : Z) : txn unit :=
  group ← read (fun d => get_active_group d g);
  _ ← require group KeyNotFound;
  execute (soft_delete_group g now).

(** The insert, with the two unique constraints it can violate. *)
Definition insert_member (g k : uuid) (m : KeyGroupMember) : txn unit := fun t =>
  let d := tx_db t in
  if bool_decide (is_Some (key_group_members d !! (g, k))) || priority_taken d g k (priority m) then inl GroupMemberConflict
  else execute (add_row g k m) t.
Definition add_member (g k : uuid) : txn KeyGroupMember :=
  group ← read (fun d => get_active_group d g);
  r ← require group KeyNotFound;
  key ← read (fun d => get_active d k);
  row ← require key KeyNotFound;
  _ ← ensure (assert_capability (provider row) LLM_CHAT (config row)) CapabilityMismatch;
  keys ← read (fun d => list_active_in_project d (g_project_id r));
  _ ← ensure (bool_decide (k ∈ keys)) GroupWrongProject;
  n ← read (fun d => next_priority d g);
  let m := mkMember n default_rotation default_limits in
  _ ← insert_member g k m;
  mret m.

(** The columns a PATCH may carry; the priority column is checked at once. *)
Record MemberPatch := mkPatch { p_priority : option Z; p_rotation : option RotationPolicy; p_limits : option HourlyLimits }.
Definition patched_row (u : MemberPatch) (m : KeyGroupMember) : KeyGroupMember :=
  mkMember (default (priority m) (p_priority u)) (default (rotation m) (p_rotation u)) (default (limits m) (p_limits u)).
Definition update_member (g k : uuid) (u : MemberPatch) : txn unit := fun t =>
  let d := tx_db t in
  match key_group_members d !! (g, k) with
  | None => inr (tt, t)
  | Some m =>
      let m' := patched_row u m in
      if (1 <=? priority m') && negb (priority_taken d g k (priority m')) then execute (add_row g k m') t
      else inl IntegrityError
  end.
Definition patch_member (g k : uuid) (u : MemberPatch) : txn unit :=
  members ← read (fun d => list_ordered_carried d g);
  _ ← ensure (bool_decide (k ∈ members.*1)) KeyNotFound;
  update_member g k u.
Definition remove_member (g k : uuid) : txn unit :=
  removed ← execute_ret (remove_row g k);
  ensure removed KeyNotFound.

(** The positivity check runs with each update, the deferred uniqueness at the commit. *)
Definition positive_rows (g : uuid) (priorities : list (uuid * Z)) (d : KeyDb) : bool :=
  forallb (fun kn => (1 <=? kn.2) || negb (bool_decide (is_Some (key_group_members d !! (g, kn.1))))) priorities.
Definition unique_priorities (d : KeyDb) (g : uuid) : bool :=
  forallb (fun m => negb (priority_taken d g m.1 (priority m.2))) (members_of d g).
Definition reorder (g : uuid) (priorities : gmap uuid Z) : txn unit :=
  group ← read (fun d => get_active_group d g);
  _ ← require group KeyNotFound;
  ok ← read (positive_rows g (map_to_list priorities));
  _ ← ensure ok IntegrityError;
  _ ← execute (reorder_rows g (map_to_list priorities));
  unique ← read (fun d => unique_priorities d g);
  ensure unique IntegrityError.

(** ** CarryService and the deletion of a key *)

Definition carry (k p caller : uuid) : txn unit :=
  key ← read (fun d => get_active d k);
  row ← require key KeyNotFound;
  _ ← ensure (bool_decide (owner_user_id row = caller)) KeyNotOwnedByCaller;
  execute (upsert_carry k p caller).
Definition withdraw (redis_up : bool) (k p : uuid) (now : Z) : txn unit :=
  flipped ← execute_ret (withdraw_carry k p now);
  _ ← ensure flipped KeyNotFound;
  publish redis_up k.

Fixpoint withdraw_each (redis_up : bool) (p : uuid) (now : Z) (keys : list uuid) : txn (list uuid) :=
  match keys with
  | [] => mret []
  | k :: keys =>
      flipped ← execute_ret (withdraw_carry k p now);
      here ← (if flipped : bool then (_ ← publish_guarded redis_up k; mret [k]) else mret [] : txn (list uuid));
      rest ← withdraw_each redis_up p now keys;
      mret (M := txn) (here ++ rest)
  end.
Definition revoke_for_leaving_user (redis_up : bool) (user p : uuid) (now : Z) : txn (list uuid) :=
  keys ← read (fun d => list_active_carries_for_user d user p);
  withdraw_each redis_up p now keys.

Definition owned_in (d : KeyDb) (user : uuid) (projects : list uuid) (kp : uuid * uuid) : bool :=
  bool_decide (kp.2 ∈ projects) && bool_decide (owner_of d kp.1 = Some user).
(** The rows the batch statement returns. *)
Definition affected (d : KeyDb) (user : uuid) (projects : list uuid) : list uuid :=
  omap (fun kc : uuid * uuid * Carry => if owned_in d user projects kc.1 && carried kc.2 then Some kc.1.1 else None)
    (map_to_list (key_projects d)).
Fixpoint publish_each (redis_up : bool) (keys : list uuid) : txn unit :=
  match keys with [] => mret tt | k :: keys => _ ← publish_guarded redis_up k; publish_each redis_up keys end.
Definition revoke_for_user_in_projects (redis_up : bool) (user : uuid) (projects : list uuid) (now : Z) : txn nat :=
  match projects with
  | [] => mret 0%nat
  | _ =>
      rows ← execute_ret (fun d => (affected d user projects, withdraw_where (owned_in d user projects) now d));
      _ ← publish_each redis_up rows;
      mret (length rows)
  end.

Definition delete_key (redis_up : bool) (k caller : uuid) (now : Z) : txn unit :=
  key ← read (fun d => get_active d k);
  row ← require key KeyNotFound;
  _ ← ensure (bool_decide (owner_user_id row = caller)) KeyNotOwnedByCaller;
  _ ← execute (soft_delete_key k now);
  _ ← execute (remove_all_for_key k);
  _ ← execute (withdraw_all_for_key k now);
  publish redis_up k.

(** [KeyService.upload] puts in a new row: [env] is the sealed secret, the live probe
    has been run and only its result, which is not modelled, depends on it. *)
Definition insert_key (k owner : uuid) (p : ApiKeyProvider) (cfg : pydict) (headers : option pydict) (env : EnvelopeRecord) : txn unit :=
  fun t => if bool_decide (is_Some (api_keys (tx_db t) !! k)) then inl IntegrityError
           else execute (with_keys <[k := mkApiKey owner p cfg headers env None]>) t.

(** [CarryService.usage]: [agents] are the live agents of the project; an event counts
    as an error when it has no status or one outside 200-299. *)
Record UsageSummary := mkSummary { s_input_tokens : Z; s_output_tokens : Z; s_requests : Z; s_errors : Z }.
Definition WINDOWS : list (string * Z) :=
  [("1h", 3600 * 1000000); ("24h", 24 * 3600 * 1000000); ("7d", 7 * 24 * 3600 * 1000000); ("30d", 30 * 24 * 3600 * 1000000)]%string.
Definition is_error_event (e : UsageEvent) : bool := match e_http_status e with Some s => negb (is_ok s) | None => true end.
Definition events_in (d : KeyDb) (k : uuid) (agents : list uuid) (since : Z) : list UsageEvent :=
  List.filter (fun e => bool_decide (e_key_id e = k) && (since <=? e_at e) &&
    match e_agent_id e with Some a => bool_decide (a ∈ agents) | None => false end) (key_usage_events d).
Definition sum_of (f : UsageEvent -> Z) (l : list UsageEvent) : Z := foldr (fun e a => f e + a) 0 l.
Definition usage (k p : uuid) (agents : list uuid) (window : string) (now : Z) : txn UsageSummary :=
  delta ← require (snd <$> List.find (fun w => String.eqb w.1 window) WINDOWS) UnknownWindow;
  c ← read (fun d => is_active_carry d k p);
  _ ← ensure c KeyNotFound;
  es ← read (fun d => events_in d k agents (now - delta));
  mret (mkSummary (sum_of e_input_tokens es) (sum_of e_output_tokens es) (Z.of_nat (length es))
    (Z.of_nat (length (List.filter is_error_event es)))).
