(* ===== verification/KeyServiceFacts.v ===== *)
(** * Provider keys: what the services keep true

    The requests as steps on the tables ([perform]), the invariant they keep
    ([keys_wellformed]), and the permanence of a revocation ([revocation_sticks]). *)

From Stdlib Require Import Sorting.Sorted.
From stdpp Require Import sorting.
From S2P Require Import Prelude PyFloat PyValue KeyPolicy KeyStore KeyServices.

(** The requests that change the tables. *)
Inductive key_op :=
  | OCreate (g p : uuid) (name : string)
  | ORename (g : uuid) (name : string)
  | ODeleteGroup (g : uuid) (now : Z)
  | OAdd (g k : uuid)
  | OPatch (g k : uuid) (u : MemberPatch)
  | ORemove (g k : uuid)
  | OReorder (g : uuid) (priorities : gmap uuid Z)
  | OCarry (k p caller : uuid)
  | OWithdraw (up : bool) (k p : uuid) (now : Z)
  | OLeave (up : bool) (user p : uuid) (now : Z)
  | OAccount (up : bool) (user : uuid) (projects : list uuid) (now : Z)
  | ODeleteKey (up : bool) (k caller : uuid) (now : Z)
  | OInsert (k owner : uuid) (p : ApiKeyProvider) (cfg : pydict) (headers : option pydict) (env : EnvelopeRecord).

Definition dropped {A} (m : txn A) : txn unit := _ ← m; mret tt.
Definition handler (o : key_op) : txn unit :=
  match o with
  | OCreate g p name => create_group g p name
  | ORename g name => rename g name
  | ODeleteGroup g now => delete_group g now
  | OAdd g k => dropped (add_member g k)
  | OPatch g k u => patch_member g k u
  | ORemove g k => remove_member g k
  | OReorder g l => reorder g l
  | OCarry k p caller => carry k p caller
  | OWithdraw up k p now => withdraw up k p now
  | OLeave up user p now => dropped (revoke_for_leaving_user up user p now)
  | OAccount up user ps now => dropped (revoke_for_user_in_projects up user ps now)
  | ODeleteKey up k caller now => delete_key up k caller now
  | OInsert k owner p cfg headers env => insert_key k owner p cfg headers env
  end.
(** The committed tables, if the request succeeds. *)
Definition perform (o : key_op) (d : KeyDb) : option KeyDb :=
  match handler o (mkTx d []) with inr (_, t) => Some (tx_db t) | inl _ => None end.
(** A history of requests, some of them refused. *)
Inductive history (allowed : key_op -> Prop) : KeyDb -> KeyDb -> Prop :=
  | h_refl d : history allowed d d
  | h_step d o d1 d2 : allowed o -> perform o d = Some d1 -> history allowed d1 d2 -> history allowed d d2.

(** ** Running a transaction *)

(** [keeps R m]: what a successful [m] commits relates to what it began with. *)
Definition keeps (R : KeyDb -> KeyDb -> Prop) {A} (m : txn A) : Prop :=
  forall t a t', m t = inr (a, t') -> R (tx_db t) (tx_db t').
Section keeps.
Context (R : KeyDb -> KeyDb -> Prop) `{!PreOrder R}.
Lemma txn_keeps_ret {A} (a : A) : keeps R (mret a).
Proof. intros t a' t' [= <- <-]. reflexivity. Qed.
Lemma keeps_fail {A} e : keeps R (fail (A := A) e).
Proof. intros t a t'. done. Qed.
Lemma keeps_read {A} (f : KeyDb -> A) : keeps R (read f).
Proof. intros t a t' [= <- <-]. reflexivity. Qed.
Lemma txn_keeps_bind {A B} (m : txn A) (f : A -> txn B) : keeps R m -> (forall a, keeps R (f a)) -> keeps R (m ≫= f).
Proof.
  intros Hm Hf t b t'. unfold mbind, txn_bind. destruct (m t) as [e|[a t1]] eqn:E; [done|]. intros H.
  etrans; [by eapply Hm|by eapply Hf].
Qed.
Lemma keeps_read_bind {A B} (f : KeyDb -> A) (k : A -> txn B) :
  (forall t b t', k (f (tx_db t)) t = inr (b, t') -> R (tx_db t) (tx_db t')) -> keeps R (read f ≫= k).
Proof. intros H t b t' E. by eapply H. Qed.
Lemma keeps_require {A} (o : option A) e : keeps R (require o e).
Proof. destruct o; [apply txn_keeps_ret|apply keeps_fail]. Qed.
Lemma keeps_ensure b e : keeps R (ensure b e).
Proof. destruct b; [apply txn_keeps_ret|apply keeps_fail]. Qed.
Lemma keeps_execute f : (forall d, R d (f d)) -> keeps R (execute f).
Proof. intros H t a t' [= <- <-]. apply H. Qed.
Lemma keeps_execute_ret {A} (f : KeyDb -> A * KeyDb) : (forall d, R d (f d).2) -> keeps R (execute_ret f).
Proof. intros H t a t' [= <- <-]. apply H. Qed.
Lemma keeps_publish up k : keeps R (publish up k).
Proof. intros t a t'. unfold publish. destruct up; [|done]. intros [= <- <-]. reflexivity. Qed.
Lemma keeps_guarded up k : keeps R (publish_guarded up k).
Proof. intros t a t'. unfold publish_guarded, publish. destruct up; intros [= <- <-]; reflexivity. Qed.
End keeps.

(** Taking a successful run apart. *)
Lemma txn_bind_inr {A B} (m : txn A) (f : A -> txn B) t b t' :
  (m ≫= f) t = inr (b, t') -> exists a t1, m t = inr (a, t1) /\ f a t1 = inr (b, t').
Proof. unfold mbind, txn_bind. destruct (m t) as [e|[a t1]]; [done|]. intros H. by exists a, t1. Qed.
Lemma ensure_inr b e t u t' : ensure b e t = inr (u, t') -> b = true /\ t' = t.
Proof. destruct b; [by intros [= _ <-]|done]. Qed.
Lemma require_inr {A} (o : option A) e t a t' : require o e t = inr (a, t') -> o = Some a /\ t' = t.
Proof. destruct o; [by intros [= <- <-]|done]. Qed.
Lemma publish_inr up k t u t' : publish up k t = inr (u, t') -> tx_db t' = tx_db t.
Proof. unfold publish. destruct up; [by intros [= _ <-]|done]. Qed.
Lemma guarded_inr up k t u t' : publish_guarded up k t = inr (u, t') -> tx_db t' = tx_db t.
Proof. unfold publish_guarded, publish. by destruct up; intros [= _ <-]. Qed.
Lemma ret_inr {A} (a : A) t b t' : (mret a : txn A) t = inr (b, t') -> b = a /\ t' = t.
Proof. by intros [= <- <-]. Qed.
Lemma execute_inr f t u t' : execute f t = inr (u, t') -> t' = mkTx (f (tx_db t)) (tx_revoked t).
Proof. by intros [= _ <-]. Qed.
Ltac txn_inv := repeat match goal with
  | H : (?m ≫= ?f) _ = inr _ |- _ => apply txn_bind_inr in H as (? & ? & ? & H)
  | H : read _ _ = inr _ |- _ => injection H as <- <-
  | H : ensure _ _ _ = inr _ |- _ => apply ensure_inr in H as [? ->]
  | H : require _ _ _ = inr _ |- _ => apply require_inr in H as [? ->]
  | H : execute _ _ = inr _ |- _ => apply execute_inr in H as ->
  | H : execute_ret _ _ = inr _ |- _ => injection H as <- <-
  | H : mret _ _ = inr _ |- _ => apply ret_inr in H as [? ->]
  | H : publish _ _ _ = inr _ |- _ => apply publish_inr in H
  | H : publish_guarded _ _ _ = inr _ |- _ => apply guarded_inr in H
  | H : dropped _ _ = inr _ |- _ => unfold dropped in H
  end; cbn [tx_db] in *.

(** ** The invariant *)

(** A key's row keeps its owner and provider, and is never undeleted. *)
Definition keys_grow (d d' : KeyDb) : Prop := forall k key, api_keys d !! k = Some key ->
  exists key', api_keys d' !! k = Some key' /\ owner_user_id key' = owner_user_id key /\ provider key' = provider key /\
    (k_deleted_at key' = None -> k_deleted_at key = None).
#[export] Instance keys_grow_preorder : PreOrder keys_grow.
Proof.
  split; [intros d k key H; by exists key|]. intros a b c Hab Hbc k key H.
  destruct (Hab _ _ H) as (k1 & H1 & E1 & E2 & E3). destruct (Hbc _ _ H1) as (k2 & H2 & F1 & F2 & F3).
  exists k2. split_and!; [done|congruence|congruence|auto].
Qed.

Definition member_ok (d : KeyDb) : Prop := forall g k m, key_group_members d !! (g, k) = Some m ->
  1 <= priority m /\ exists key, get_active d k = Some key /\ supports (provider key) LLM_CHAT = true.
Definition priorities_unique (d : KeyDb) : Prop := forall g k k' m m',
  key_group_members d !! (g, k) = Some m -> key_group_members d !! (g, k') = Some m' -> priority m = priority m' -> k = k'.
Definition carry_ok (d : KeyDb) : Prop := forall k p c, key_projects d !! (k, p) = Some c ->
  exists key, api_keys d !! k = Some key /\ added_by_user_id c = owner_user_id key /\ (carried c = true -> k_deleted_at key = None).
Record wf (d : KeyDb) : Prop := mkWf { wf_members : member_ok d; wf_unique : priorities_unique d; wf_carries : carry_ok d }.

Definition preserves_wf (d d' : KeyDb) : Prop := wf d -> wf d'.
#[export] Instance preserves_wf_preorder : PreOrder preserves_wf.
Proof. split; [by intros d H|intros a b c H1 H2 H; auto]. Qed.

Lemma priority_taken_false d g k n : priority_taken d g k n = false <->
  forall k' m', key_group_members d !! (g, k') = Some m' -> priority m' = n -> k' = k.
Proof.
  unfold priority_taken. rewrite <- not_true_iff_false, existsb_exists. split.
  - intros H k' m' Hk Hn. destruct (decide (k' = k)) as [|Hne]; [done|]. destruct H. exists (k', m').
    split; [by apply list_elem_of_In, members_of_elem|]. simpl. rewrite bool_decide_false by done. simpl. lia.
  - intros H ([k' m'] & Hin & E). apply list_elem_of_In, members_of_elem in Hin. simpl in E.
    apply andb_true_iff in E as [E1 E2]. rewrite negb_true_iff, bool_decide_eq_false in E1. apply E1, (H _ m'); [done|lia].
Qed.
Lemma unique_priorities_spec d g : unique_priorities d g = true <->
  forall k k' m m', key_group_members d !! (g, k) = Some m -> key_group_members d !! (g, k') = Some m' -> priority m = priority m' -> k = k'.
Proof.
  unfold unique_priorities. rewrite forallb_forall. split.
  - intros H k k' m m' Hk Hk' E. specialize (H (k', m')). simpl in H. rewrite negb_true_iff, priority_taken_false in H.
    eapply H; [by apply list_elem_of_In, members_of_elem|done|done].
  - intros H [k m] Hin. apply list_elem_of_In, members_of_elem in Hin. simpl. rewrite negb_true_iff, priority_taken_false.
    intros k' m' Hk' E. by eapply H.
Qed.

(** A row written under its constraints. *)
Lemma add_row_wf d g k m key : wf d -> 1 <= priority m -> priority_taken d g k (priority m) = false ->
  get_active d k = Some key -> supports (provider key) LLM_CHAT = true -> wf (add_row g k m d).
Proof.
  intros [H1 H2 H3] Hp Ht Hk Hs. rewrite priority_taken_false in Ht. split; [| |done].
  - intros g' k' m'. unfold add_row. simpl. intros [[[= <- <-] <-]|[_ Hm]]%lookup_insert_Some; [by eauto|by eapply H1].
  - intros g' k1 k2 m1 m2. unfold add_row. simpl.
    intros [[[= <- <-] <-]|[N1 L1]]%lookup_insert_Some [[E2 <-]|[N2 L2]]%lookup_insert_Some E.
    + by injection E2.
    + symmetry. by eapply Ht.
    + injection E2 as <- <-. by eapply Ht.
    + by eapply H2.
Qed.
(** Dropping rows, or writing other tables. *)
Lemma members_subset_wf f d : (forall m, f m ⊆ m) -> wf d -> wf (with_members f d).
Proof.
  intros Hf [H1 H2 H3]. split; [| |done].
  - intros g k m Hm. apply (H1 g k m). eapply lookup_weaken; [exact Hm|apply Hf].
  - intros g k k' m m' L L' E. eapply (H2 g k k'); [eapply lookup_weaken; [exact L|apply Hf]|eapply lookup_weaken; [exact L'|apply Hf]|done].
Qed.
Lemma groups_wf f d : wf d -> wf (with_groups f d).
Proof. by intros [H1 H2 H3]. Qed.
Lemma carries_wf f d : (carry_ok d -> carry_ok (with_carries f d)) -> wf d -> wf (with_carries f d).
Proof. intros Hf [H1 H2 H3]. split; [done|done|auto]. Qed.
Lemma withdrawn_added a c : added_by_user_id (withdrawn a c) = added_by_user_id c.
Proof. unfold withdrawn. by destruct (carried c). Qed.
Lemma withdrawn_carried a c : carried (withdrawn a c) = false.
Proof. unfold withdrawn. destruct (carried c) eqn:E; [done|exact E]. Qed.

Lemma withdraw_carry_wf k p a d : wf d -> wf (withdraw_carry k p a d).2.
Proof.
  intros Hw. unfold withdraw_carry. destruct (key_projects d !! (k, p)) as [c|] eqn:Ec; [|done].
  destruct (carried c); [|done]. apply carries_wf; [|done]. intros H k' p' c'. simpl.
  intros [[[= <- <-] <-]|[_ L]]%lookup_insert_Some; [|by eapply H].
  destruct (H _ _ _ Ec) as (key & Hk & Ha & _). exists key. by rewrite withdrawn_added, withdrawn_carried.
Qed.
Lemma withdraw_where_wf P a d : wf d -> wf (withdraw_where P a d).
Proof.
  apply carries_wf. intros H k p c'. simpl. rewrite map_lookup_imap, bind_Some. intros (c & Hc & [= <-]).
  destruct (H _ _ _ Hc) as (key & Hk & Ha & Hcar). exists key. destruct (P (k, p)); [|done].
  by rewrite withdrawn_added, withdrawn_carried.
Qed.
Lemma upsert_carry_wf k p user key d : get_active d k = Some key -> owner_user_id key = user -> wf d -> wf (upsert_carry k p user d).
Proof.
  intros [Hk Hd]%get_active_Some Ho. apply carries_wf. intros H k' p' c'. simpl.
  intros [[[= <- <-] <-]|[_ L]]%lookup_insert_Some; [|by eapply H].
  exists key. destruct (key_projects d !! (k, p)) as [c|] eqn:Ec; simpl; [|by split_and!].
  destruct (H _ _ _ Ec) as (key' & Hk' & Ha & _). rewrite Hk in Hk'. injection Hk' as <-. by split_and!.
Qed.
Lemma delete_key_wf k a d : wf d -> wf (withdraw_all_for_key k a (remove_all_for_key k (soft_delete_key k a d))).
Proof.
  intros [H1 H2 H3].
  assert (Hother : forall k', k' <> k -> api_keys (soft_delete_key k a d) !! k' = api_keys d !! k').
  { intros k' Hne. unfold soft_delete_key. simpl. by rewrite lookup_alter_ne. }
  split.
  - intros g k' m. simpl. intros [Hm Hne]%map_lookup_filter_Some. simpl in Hne. apply bool_decide_unpack in Hne.
    destruct (H1 _ _ _ Hm) as (Hp & key & Hk & Hs). split; [done|]. exists key. split; [|done].
    apply get_active_Some in Hk as [Hk Hd]. apply get_active_Some. split; [|done].
    by rewrite <- (Hother k') in Hk.
  - intros g k1 k2 m1 m2. simpl. intros [L1 _]%map_lookup_filter_Some [L2 _]%map_lookup_filter_Some. by eapply H2.
  - intros k' p c. simpl. rewrite map_lookup_imap, bind_Some. intros (c0 & Hc & [= <-]). simpl.
    destruct (H3 _ _ _ Hc) as (key & Hk & Ha & Hcar). destruct (decide (k' = k)) as [->|Hne].
    + rewrite lookup_alter_eq, Hk. simpl. rewrite bool_decide_true by done. rewrite withdrawn_added, withdrawn_carried.
      eexists. split; [done|]. by destruct (k_deleted_at key).
    + rewrite lookup_alter_ne by done. rewrite bool_decide_false by done. by exists key.
Qed.

Lemma reorder_lookup_ne g l d g' k : g' <> g ->
  key_group_members (reorder_rows g l d) !! (g', k) = key_group_members d !! (g', k).
Proof.
  intros Hne. revert d. induction l as [|[k' n] l IH]; intros d; simpl; [done|]. rewrite IH. simpl.
  apply lookup_alter_ne. congruence.
Qed.
(** The last assignment of a key wins; the keys of a dictionary are distinct. *)
Lemma reorder_lookup g l d k : NoDup l.*1 ->
  key_group_members (reorder_rows g l d) !! (g, k) =
  match List.find (fun kn => bool_decide (kn.1 = k)) l with
  | Some kn => set_priority kn.2 <$> key_group_members d !! (g, k)
  | None => key_group_members d !! (g, k)
  end.
Proof.
  revert d. induction l as [|[k' n] l IH]; intros d; [done|]. intros [Hk' Hl]%list.NoDup_cons. simpl.
  rewrite IH by done. case_bool_decide as E; [subst k'|].
  - assert (List.find (fun kn => bool_decide (kn.1 = k)) l = None) as ->; [|simpl; by rewrite lookup_alter_eq].
    destruct (List.find _ l) as [[k1 n1]|] eqn:Ef; [|done]. apply List.find_some in Ef as [Hin E].
    apply bool_decide_eq_true in E. simpl in E. subst k1. destruct Hk'. apply list_elem_of_fmap. exists (k, n1).
    split; [done|]. by apply list_elem_of_In.
  - simpl. rewrite lookup_alter_ne by congruence. done.
Qed.
Lemma reorder_rows_other g l d : api_keys (reorder_rows g l d) = api_keys d /\
  key_projects (reorder_rows g l d) = key_projects d /\ key_groups (reorder_rows g l d) = key_groups d.
Proof. revert d. induction l as [|[k n] l IH]; intros d; simpl; [done|]. by destruct (IH (with_members (alter (set_priority n) (g, k)) d)) as (-> & -> & ->). Qed.

Lemma reordered g (ps : gmap uuid Z) d k :
  key_group_members (reorder_rows g (map_to_list ps) d) !! (g, k) =
  (fun m => set_priority (default (priority m) (ps !! k)) m) <$> key_group_members d !! (g, k).
Proof.
  rewrite reorder_lookup by apply NoDup_fst_map_to_list.
  destruct (List.find _ _) as [[k' n]|] eqn:Ef.
  - apply List.find_some in Ef as [Hin E]. apply bool_decide_eq_true in E. simpl in E. subst k'.
    apply list_elem_of_In, elem_of_map_to_list in Hin. by rewrite Hin.
  - destruct (ps !! k) as [n|] eqn:En.
    + apply elem_of_map_to_list, list_elem_of_In in En. pose proof (List.find_none _ _ Ef _ En) as H. simpl in H.
      by rewrite bool_decide_true in H.
    + destruct (key_group_members d !! (g, k)) as [[]|]; done.
Qed.
Lemma reorder_wf g (ps : gmap uuid Z) d : positive_rows g (map_to_list ps) d = true ->
  unique_priorities (reorder_rows g (map_to_list ps) d) g = true -> wf d -> wf (reorder_rows g (map_to_list ps) d).
Proof.
  intros Hpos Huniq [H1 H2 H3]. destruct (reorder_rows_other g (map_to_list ps) d) as (Ek & Ec & _). split.
  - intros g' k m. unfold get_active. rewrite Ek. fold (get_active d k). destruct (decide (g' = g)) as [->|Hne].
    + rewrite reordered. destruct (key_group_members d !! (g, k)) as [m0|] eqn:Em; [|done]. simpl. intros [= <-].
      destruct (H1 _ _ _ Em) as [Hp Hx]. split; [|done]. simpl. destruct (ps !! k) as [n|] eqn:En; [|done].
      unfold positive_rows in Hpos. rewrite forallb_forall in Hpos.
      apply elem_of_map_to_list, list_elem_of_In in En. specialize (Hpos _ En). simpl in Hpos.
      rewrite Em, bool_decide_true in Hpos by done. simpl. simpl in Hpos. lia.
    + rewrite reorder_lookup_ne by done. apply H1.
  - intros g' k k' m m'. destruct (decide (g' = g)) as [->|Hne]; [by apply unique_priorities_spec|].
    rewrite !reorder_lookup_ne by done. apply H2.
  - intros k p c. rewrite Ec, Ek. apply H3.
Qed.

Lemma insert_key_wf k row d : api_keys d !! k = None -> wf d -> wf (with_keys <[k := row]> d).
Proof.
  intros Hk [H1 H2 H3]. split.
  - intros g k' m Hm. destruct (H1 _ _ _ Hm) as (Hp & key & Ha & Hs). split; [done|]. exists key. split; [|done].
    apply get_active_Some in Ha as [Ha Hd]. apply get_active_Some. split; [|done]. simpl.
    rewrite lookup_insert_ne by congruence. done.
  - exact H2.
  - intros k' p c Hc. destruct (H3 _ _ _ Hc) as (key & Ha & Ho). exists key. split; [|done]. simpl.
    rewrite lookup_insert_ne by congruence. done.
Qed.
Lemma next_priority_above d g k m : key_group_members d !! (g, k) = Some m -> priority m < next_priority d g.
Proof.
  intros H. apply members_of_elem in H. unfold next_priority. induction (members_of d g) as [|x l IH]; [by apply not_elem_of_nil in H|].
  apply elem_of_cons in H as [<-|H]; simpl; [lia|]. specialize (IH H). lia.
Qed.
Lemma next_priority_pos d g : 1 <= next_priority d g.
Proof. unfold next_priority. induction (members_of d g) as [|x l IH]; simpl; lia. Qed.
Lemma assert_supports p c cfg : assert_capability p c cfg = true -> supports p c = true.
Proof. unfold assert_capability. by intros [? _]%andb_true_iff. Qed.

Lemma add_member_wf g k t a t' : add_member g k t = inr (a, t') -> wf (tx_db t) -> wf (tx_db t').
Proof.
  unfold add_member. intros H Hw. txn_inv. unfold insert_member in *. case_match; [done|]. txn_inv.
  eapply add_row_wf; [done|apply next_priority_pos| |by apply get_active_Some; apply get_active_Some|by eapply assert_supports].
  apply priority_taken_false. intros k' m' Hm. pose proof (next_priority_above _ _ _ _ Hm). simpl. lia.
Qed.
Lemma update_member_wf g k u t a t' : update_member g k u t = inr (a, t') -> wf (tx_db t) -> wf (tx_db t').
Proof.
  unfold update_member. destruct (key_group_members (tx_db t) !! (g, k)) as [m|] eqn:Em; [|by intros [= _ <-]].
  intros H Hw. case_match eqn:Ec; [|done]. txn_inv. apply andb_true_iff in Ec as [Hp Ht].
  destruct (wf_members _ Hw _ _ _ Em) as (_ & key & Hk & Hs). eapply add_row_wf; [done|lia| |done|done]. by apply negb_true_iff.
Qed.
Lemma withdraw_each_keeps R `{!PreOrder R} up p now keys :
  (forall k d, R d (withdraw_carry k p now d).2) -> keeps R (withdraw_each up p now keys).
Proof.
  intros Hk. induction keys as [|k keys IH]; cbn [withdraw_each]; [apply txn_keeps_ret, _|].
  apply txn_keeps_bind; [apply _|by apply keeps_execute_ret|]. intros b. apply txn_keeps_bind; [apply _| |].
  - destruct b; [|apply txn_keeps_ret, _]. apply txn_keeps_bind; [apply _|apply keeps_guarded, _|intros; apply txn_keeps_ret, _].
  - intros l. apply txn_keeps_bind; [apply _|done|]. intros l'. apply txn_keeps_ret, _.
Qed.
Lemma publish_each_db up keys t u t' : publish_each up keys t = inr (u, t') -> tx_db t' = tx_db t.
Proof.
  revert t. induction keys as [|k keys IH]; intros t H; cbn [publish_each] in H; txn_inv; [done|]. apply IH in H. congruence.
Qed.

Lemma perform_wf o d d' : perform o d = Some d' -> wf d -> wf d'.
Proof.
  unfold perform. destruct (handler o (mkTx d [])) as [e|[[] t']] eqn:E; [done|]. intros [= <-] Hw.
  change d with (tx_db (mkTx d [])) in Hw. revert E Hw. generalize (mkTx d []). intros t E Hw.
  destruct o; simpl in E.
  - unfold create_group in E. txn_inv. by apply groups_wf.
  - unfold rename in E. txn_inv. by apply groups_wf.
  - unfold delete_group in E. txn_inv. by apply groups_wf.
  - txn_inv. by eapply add_member_wf.
  - unfold patch_member in E. txn_inv. by eapply update_member_wf.
  - unfold remove_member in E. txn_inv. unfold remove_row.
    destruct (key_group_members (tx_db t) !! (g, k)); [|done]. apply members_subset_wf; [|done]. intros m. apply delete_subseteq.
  - unfold reorder in E. txn_inv. by apply reorder_wf.
  - unfold carry in E. txn_inv. eapply upsert_carry_wf; [by apply get_active_Some, get_active_Some|by eapply bool_decide_eq_true|done].
  - unfold withdraw in E. txn_inv. rewrite E. by apply withdraw_carry_wf.
  - txn_inv. unfold revoke_for_leaving_user in *. txn_inv.
    match goal with H : withdraw_each _ _ _ _ _ = _ |- _ => apply (withdraw_each_keeps preserves_wf) in H; [by apply H|] end.
    intros k d0. red. apply withdraw_carry_wf.
  - txn_inv. unfold revoke_for_user_in_projects in *. destruct projects; txn_inv; [done|].
    match goal with H : publish_each _ _ _ = _ |- _ => apply publish_each_db in H; rewrite H end.
    cbn [tx_db]. by apply withdraw_where_wf.
  - unfold delete_key in E. txn_inv. rewrite E. by apply delete_key_wf.
  - unfold insert_key in E. case_match eqn:Eb; [done|]. txn_inv. apply insert_key_wf; [|done].
    apply bool_decide_eq_false in Eb. by apply eq_None_not_Some.
Qed.

(** ** What a request does to keys and carries *)
Lemma perform_rel R `{!PreOrder R} o d d' :
  (forall a b, api_keys b = api_keys a -> key_projects b = key_projects a -> R a b) ->
  (forall k p t a, R a (withdraw_carry k p t a).2) -> (forall P t a, R a (withdraw_where P t a)) ->
  (forall k t a, R a (soft_delete_key k t a)) -> (forall k row a, api_keys a !! k = None -> R a (with_keys <[k := row]> a)) ->
  (forall k p caller, o = OCarry k p caller -> R d (upsert_carry k p caller d)) ->
  perform o d = Some d' -> R d d'.
Proof.
  intros Hsame Hw1 Hw2 Hdel Hins Hcarry. unfold perform. destruct (handler o (mkTx d [])) as [e|[[] t']] eqn:E; [done|].
  intros [= <-]. change d with (tx_db (mkTx d [])) in Hcarry |- *. revert E Hcarry. generalize (mkTx d []). intros t E Hcarry.
  destruct o; simpl in E.
  - unfold create_group in E. txn_inv. by apply Hsame.
  - unfold rename in E. txn_inv. by apply Hsame.
  - unfold delete_group in E. txn_inv. by apply Hsame.
  - txn_inv. unfold add_member in *. txn_inv. unfold insert_member in *. case_match; [done|]. txn_inv. by apply Hsame.
  - unfold patch_member in E. txn_inv. unfold update_member in E. case_match; [|by injection E as <-]. case_match; [|done]. txn_inv. by apply Hsame.
  - unfold remove_member in E. txn_inv. apply Hsame; unfold remove_row; by case_match.
  - unfold reorder in E. txn_inv. destruct (reorder_rows_other g (map_to_list priorities) (tx_db t)) as (E1 & E2 & _). by apply Hsame.
  - unfold carry in E. txn_inv. by apply Hcarry.
  - unfold withdraw in E. txn_inv. rewrite E. apply Hw1.
  - txn_inv. unfold revoke_for_leaving_user in *. txn_inv.
    match goal with H : withdraw_each _ _ _ _ _ = _ |- _ => apply (withdraw_each_keeps R) in H; [exact H|intros; apply Hw1] end.
  - txn_inv. unfold revoke_for_user_in_projects in *. destruct projects; txn_inv; [reflexivity|].
    match goal with H : publish_each _ _ _ = _ |- _ => apply publish_each_db in H; rewrite H end. apply Hw2.
  - unfold delete_key in E. txn_inv. rewrite E. etrans; [apply Hdel|]. etrans; [|apply Hw2]. by apply Hsame.
  - unfold insert_key in E. case_match eqn:Eb; [done|]. txn_inv. apply Hins.
    apply bool_decide_eq_false in Eb. by apply eq_None_not_Some.
Qed.
Lemma history_rel R `{!PreOrder R} allowed d d' :
  (forall o a b, allowed o -> perform o a = Some b -> R a b) -> history allowed d d' -> R d d'.
Proof. intros H. induction 1 as [|d o d1 d2 Ho Hp Hh IH]; [reflexivity|]. etrans; [by eapply H|done]. Qed.

(** A carry that is withdrawn stays so until somebody carries the key again. *)
Definition stays_out (k p : uuid) (d d' : KeyDb) : Prop := is_active_carry d k p = false -> is_active_carry d' k p = false.
#[export] Instance stays_out_preorder k p : PreOrder (stays_out k p).
Proof. split; [by intros d H|intros a b c H1 H2 H; auto]. Qed.
Lemma withdraw_carry_row k p t a k' p' : key_projects (withdraw_carry k p t a).2 !! (k', p') =
  if decide ((k, p) = (k', p')) then withdrawn t <$> key_projects a !! (k', p') else key_projects a !! (k', p').
Proof.
  unfold withdraw_carry. destruct (key_projects a !! (k, p)) as [c|] eqn:Ec.
  - destruct (carried c) eqn:Eca; simpl; case_decide as E.
    + injection E as -> ->. by rewrite lookup_insert_eq, Ec.
    + by rewrite lookup_insert_ne.
    + injection E as -> ->. rewrite Ec. simpl. unfold withdrawn. by rewrite Eca.
    + done.
  - simpl. case_decide as E; [|done]. injection E as -> ->. by rewrite Ec.
Qed.
Lemma withdraw_where_row P t a kp : key_projects (withdraw_where P t a) !! kp =
  (fun c => if P kp then withdrawn t c else c) <$> key_projects a !! kp.
Proof. simpl. rewrite map_lookup_imap. by destruct (key_projects a !! kp). Qed.

Lemma perform_stays_out k p o d d' : (forall caller, o <> OCarry k p caller) -> perform o d = Some d' -> stays_out k p d d'.
Proof.
  intros Ho. apply (perform_rel (stays_out k p)).
  - intros a b _ E. unfold stays_out, is_active_carry. by rewrite E.
  - intros k' p' t a. unfold stays_out, is_active_carry. rewrite withdraw_carry_row. case_decide; [|done].
    destruct (key_projects a !! (k, p)) as [c|]; simpl; [by rewrite withdrawn_carried|done].
  - intros P t a. unfold stays_out, is_active_carry. rewrite withdraw_where_row.
    destruct (key_projects a !! (k, p)) as [c|]; simpl; [|done]. case_match; [by rewrite withdrawn_carried|done].
  - intros k' t a H. exact H.
  - intros k' row a _ H. exact H.
  - intros k' p' caller ->. unfold stays_out, is_active_carry. simpl. rewrite lookup_insert_ne; [done|].
    intros [= -> ->]. by apply (Ho caller).
Qed.

(** A deleted key stays deleted. *)
Definition deleted (k : uuid) (d : KeyDb) : Prop := is_Some (api_keys d !! k) /\ get_active d k = None.
Definition stays_deleted (k : uuid) (d d' : KeyDb) : Prop := deleted k d -> deleted k d'.
#[export] Instance stays_deleted_preorder k : PreOrder (stays_deleted k).
Proof. split; [by intros d H|intros a b c H1 H2 H; auto]. Qed.
Lemma perform_stays_deleted k o d d' : perform o d = Some d' -> stays_deleted k d d'.
Proof.
  apply (perform_rel (stays_deleted k)).
  - intros a b E _. unfold stays_deleted, deleted, get_active. by rewrite E.
  - intros k' p t a. unfold stays_deleted, withdraw_carry. case_match; [|done]. by case_match.
  - intros P t a H. exact H.
  - intros k' t a [[key Hk] Hn]. unfold deleted, get_active in *. rewrite Hk in Hn. simpl in *. destruct (decide (k' = k)) as [->|Hne].
    + rewrite lookup_alter_eq, Hk. simpl. split; [done|]. destruct (k_deleted_at key) eqn:E; simpl; [by rewrite E|done].
    + by rewrite lookup_alter_ne, Hk.
  - intros k' row a Hk' [[key Hk] Hn]. unfold deleted, get_active in *. rewrite Hk in Hn. simpl in *. rewrite lookup_insert_ne by congruence. by rewrite Hk.
  - intros k' p caller -> H. exact H.
Qed.

(** ** The claims *)

Definition empty_db : KeyDb := mkDb ∅ ∅ ∅ ∅ [].
Lemma history_wf allowed d d' : history allowed d d' -> wf d -> wf d'.
Proof. intros H. apply (history_rel preserves_wf allowed d d'); [|done]. intros o a b _ E. red. by apply (perform_wf o). Qed.
Lemma empty_wf : wf empty_db.
Proof. split; [intros g k m H|intros g k k' m m' H|intros k p c H]; cbn [empty_db key_group_members key_projects] in H; by apply lookup_empty_Some in H. Qed.

(** The members the router gets are in strictly ascending priority. *)
Definition strictly (a b : uuid * KeyGroupMember) : Prop := priority a.2 < priority b.2.
Lemma ordered_strictly d g : priorities_unique d -> StronglySorted strictly (list_ordered_carried d g).
Proof.
  intros Hu.
  assert (Hs : StronglySorted by_priority (list_ordered_carried d g)) by apply (StronglySorted_merge_sort by_priority).
  assert (Hn : NoDup (list_ordered_carried d g)).
  { eapply NoDup_fmap_1, list_ordered_carried_keys. }
  assert (Hin : forall k m, (k, m) ∈ list_ordered_carried d g -> key_group_members d !! (g, k) = Some m).
  { intros k m. by intros [H _]%list_ordered_carried_elem. }
  induction (list_ordered_carried d g) as [|[k m] l IH]; constructor.
  - apply IH; [by inversion Hs|by inversion Hn|]. intros k' m' H. apply Hin. by apply elem_of_cons; right.
  - apply Forall_forall. intros [k' m'] H. apply StronglySorted_inv in Hs as [_ Hs]. rewrite Forall_forall in Hs.
    specialize (Hs _ H). apply list_elem_of_In in H. unfold by_priority, strictly in *. simpl in *.
    destruct (decide (priority m = priority m')) as [E|]; [|lia]. exfalso. apply list.NoDup_cons in Hn as [Hn _]. apply Hn.
    assert (k = k') as <- by (eapply (Hu g); [apply Hin, list_elem_of_here|apply Hin; by apply elem_of_cons; right|done]).
    assert (L1 := Hin k m (list_elem_of_here _ _)). assert (L2 := Hin k m' ltac:(by apply elem_of_cons; right)). by replace m with m' by congruence.
Qed.

(** C13. A project only ever spends keys their owners put there.  Whatever requests have
    been served since the tables were empty, a group may spend a key only if the key's
    own owner carried it into the group's project, the key is not deleted and its
    provider can chat; and the members a call tries come in strictly ascending
    priority. *)
Theorem spendable_by_owner d g k : history (fun _ => True) empty_db d -> may_spend d g k ->
  (exists key r c, get_active d k = Some key /\ supports (provider key) LLM_CHAT = true /\
     get_active_group d g = Some r /\ key_projects d !! (k, g_project_id r) = Some c /\ carried c = true /\
     added_by_user_id c = owner_user_id key) /\
  StronglySorted strictly (list_ordered_carried d g).
Proof.
  intros Hh (r & m & c & key & Hg & Hgd & Hm & Hc & Hca & Hk & Hkd).
  destruct (history_wf _ _ _ Hh empty_wf) as [H1 H2 H3]. split; [|by apply ordered_strictly].
  destruct (H1 _ _ _ Hm) as (_ & key' & Hk' & Hs). destruct (H3 _ _ _ Hc) as (key2 & Hk2 & Ha & _).
  assert (get_active d k = Some key) as Hact by (by apply get_active_Some).
  assert (key' = key) as -> by congruence. assert (key2 = key) as -> by congruence.
  exists key, r, c. split_and!; [done|done|by apply get_active_group_Some|done..].
Qed.

(** The requests that end the carry of key [k] into project [p]. *)
Definition revokes (d : KeyDb) (k p : uuid) (o : key_op) : Prop :=
  match o with
  | OWithdraw _ k' p' _ => k' = k /\ p' = p
  | OLeave _ user p' _ => p' = p /\ owner_of d k = Some user
  | OAccount _ user ps _ => p ∈ ps /\ owner_of d k = Some user
  | ODeleteKey _ k' _ _ => k' = k
  | _ => False
  end.
Lemma withdraw_each_member up p now keys k t l t' : k ∈ keys -> withdraw_each up p now keys t = inr (l, t') ->
  is_active_carry (tx_db t') k p = false.
Proof.
  assert (Hk : forall k' d, stays_out k p d (withdraw_carry k' p now d).2).
  { intros k' d. unfold stays_out, is_active_carry. rewrite withdraw_carry_row. case_decide; [|done].
    destruct (key_projects d !! (k, p)) as [c|]; simpl; [by rewrite withdrawn_carried|done]. }
  revert t l. induction keys as [|k' keys IH]; intros t l Hin H; [by apply not_elem_of_nil in Hin|].
  cbn [withdraw_each] in H. txn_inv. apply elem_of_cons in Hin as [<-|Hin]; [|by eapply IH].
  match goal with H : withdraw_each _ _ _ _ _ = _ |- _ => apply (withdraw_each_keeps (stays_out k p)) in H; [apply H|intros; apply Hk] end.
  assert (Hdb : tx_db x2 = (withdraw_carry k p now (tx_db t)).2).
  { destruct (withdraw_carry k p now (tx_db t)).1; txn_inv; done. }
  rewrite Hdb. unfold is_active_carry. rewrite withdraw_carry_row. rewrite decide_True by done.
  destruct (key_projects (tx_db t) !! (k, p)); simpl; [apply withdrawn_carried|done].
Qed.
Lemma active_carries_elem d user p k : is_active_carry d k p = true -> owner_of d k = Some user ->
  k ∈ list_active_carries_for_user d user p.
Proof.
  intros Hc Ho. unfold list_active_carries_for_user. rewrite list_elem_of_In, List.filter_In, <- list_elem_of_In. split.
  - unfold owner_of in Ho. destruct (api_keys d !! k) as [key|] eqn:Ek; [|done]. apply list_elem_of_fmap. exists (k, key).
    split; [done|]. by apply elem_of_map_to_list.
  - by rewrite Hc, bool_decide_true.
Qed.
(** A served revocation leaves the carry withdrawn. *)
Lemma revokes_carry d k p o d1 : revokes d k p o -> perform o d = Some d1 -> is_active_carry d1 k p = false.
Proof.
  intros Hr Hp. destruct (is_active_carry d k p) eqn:Ea.
  2: { eapply (perform_stays_out k p o d); [|done|done]. by intros c ->. }
  revert Hr Hp. unfold perform. destruct (handler o (mkTx d [])) as [e|[[] t']] eqn:E; [done|]. intros Hr [= <-].
  destruct o; simpl in Hr; try done; simpl in E.
  - destruct Hr as [-> ->]. unfold withdraw in E. txn_inv. rewrite E. unfold is_active_carry.
    rewrite withdraw_carry_row, decide_True by done. destruct (key_projects d !! (k, p)); simpl; [apply withdrawn_carried|done].
  - destruct Hr as [-> Ho]. txn_inv. unfold revoke_for_leaving_user in *. txn_inv.
    eapply withdraw_each_member; [|done]. by apply active_carries_elem.
  - destruct Hr as [Hin Ho]. txn_inv. unfold revoke_for_user_in_projects in *. destruct projects as [|p' ps]; [by apply not_elem_of_nil in Hin|].
    txn_inv. match goal with H : publish_each _ _ _ = _ |- _ => apply publish_each_db in H; rewrite H end. cbn [tx_db].
    unfold is_active_carry. rewrite withdraw_where_row. unfold owned_in. cbn [fst snd]. rewrite !bool_decide_true by done.
    destruct (key_projects d !! (k, p)); simpl; [apply withdrawn_carried|done].
  - subst k0. unfold delete_key in E. txn_inv. rewrite E. unfold is_active_carry, withdraw_all_for_key. rewrite withdraw_where_row.
    cbn [fst]. rewrite bool_decide_true by done. simpl. destruct (key_projects d !! (k, p)); simpl; [apply withdrawn_carried|done].
Qed.
Lemma delete_key_deletes up k caller now d d1 : perform (ODeleteKey up k caller now) d = Some d1 -> deleted k d1.
Proof.
  unfold perform. simpl. destruct (delete_key up k caller now (mkTx d [])) as [e|[[] t']] eqn:E; [done|]. intros [= <-].
  unfold delete_key in E. txn_inv. rewrite E. unfold deleted, get_active. simpl.
  match goal with H : get_active d k = Some _ |- _ => apply get_active_Some in H as [Hk Hd] end.
  rewrite lookup_alter_eq, Hk. simpl. by rewrite Hd.
Qed.

(** C12. A revocation sticks.  Once a request has withdrawn key [k] from project [p] - the
    withdrawal itself, its owner leaving the project or closing the account, or the
    deletion of the key - no group of [p] may spend the key, whatever requests are
    served afterwards, until the key is carried into [p] again; and a deleted key is
    never spent again at all. *)
Theorem revocation_sticks d d1 d2 o k p g r : perform o d = Some d1 ->
  get_active_group d2 g = Some r ->
  (revokes d k p o -> history (fun o' => forall caller, o' <> OCarry k p caller) d1 d2 -> g_project_id r = p -> ~ may_spend d2 g k) /\
  (forall up caller now, o = ODeleteKey up k caller now -> history (fun _ => True) d1 d2 -> ~ may_spend d2 g k).
Proof.
  intros Hp Hg. apply get_active_group_Some in Hg as [Hg _]. split.
  - intros Hr Hh Hpr (r' & m & c & key & Hg' & _ & _ & Hc & Hca & _). assert (r' = r) as -> by congruence. subst p.
    pose proof (revokes_carry _ _ _ _ _ Hr Hp) as H1.
    assert (H2 : stays_out k (g_project_id r) d1 d2).
    { eapply history_rel; [apply _| |exact Hh]. intros o' a b Ho. by apply perform_stays_out. }
    specialize (H2 H1). unfold is_active_carry in H2. rewrite Hc in H2. congruence.
  - intros up caller now -> Hh (r' & m & c & key & _ & _ & _ & _ & _ & Hk & Hkd).
    apply delete_key_deletes in Hp. assert (H2 : stays_deleted k d1 d2).
    { eapply history_rel; [apply _| |exact Hh]. intros o' a b _. apply perform_stays_deleted. }
    destruct (H2 Hp) as [_ H3]. unfold get_active in H3. rewrite Hk in H3. simpl in H3. by rewrite Hkd in H3.
Qed.

(** ** Witnesses *)

Definition w_env : EnvelopeRecord := mkEnvelope "c" "n" "d" "h" 1 1.
(** User 1 uploads key 10 and carries it into project 20, whose group 30 takes it in. *)
Definition w_setup : list key_op :=
  [OInsert 10 1 CLAUDE [] None w_env; OCarry 10 20 1; OCreate 30 20 "main"; OAdd 30 10]%positive.
Definition perform_all (os : list key_op) (d : KeyDb) : option KeyDb := foldl (fun o x => o ≫= perform x) (Some d) os.
Lemma perform_all_history (allowed : key_op -> Prop) os d d' : Forall allowed os -> perform_all os d = Some d' -> history allowed d d'.
Proof.
  unfold perform_all. intros Ha. revert d. induction Ha as [|o os Ho Hos IH]; intros d; simpl.
  - intros [= <-]. constructor.
  - destruct (perform o d) as [d1|] eqn:E; simpl.
    + intros H. eapply h_step; [done|exact E|by apply IH].
    + intros H. exfalso. clear -H. induction os; simpl in H; auto; done.
Qed.
Lemma spendable_by_owner_witness : exists d, history (fun _ => True) empty_db d /\ may_spend d 30%positive 10%positive /\
  exists key r c, get_active d 10%positive = Some key /\ get_active_group d 30%positive = Some r /\
    key_projects d !! (10%positive, g_project_id r) = Some c /\ added_by_user_id c = owner_user_id key.
Proof.
  assert (H : exists d, perform_all w_setup empty_db = Some d /\ bool_decide (10%positive ∈ (list_ordered_carried d 30%positive).*1) = true).
  { eexists. split; vm_compute; reflexivity. }
  destruct H as (d & Hd & Hs). exists d.
  assert (Hh : history (fun _ => True) empty_db d) by (eapply perform_all_history; [by repeat constructor|done]).
  assert (Hm : may_spend d 30%positive 10%positive).
  { apply may_spend_listed. apply bool_decide_eq_true, list_elem_of_fmap in Hs as ([k m] & E & Hin). simpl in E. subst k. by exists m. }
  split_and!; [done|done|]. destruct (spendable_by_owner d 30 10 Hh Hm) as [(key & r & c & H1 & _ & H2 & H3 & _ & H4) _].
  by exists key, r, c.
Defined.
Lemma revocation_sticks_witness : exists d d1 d2 r, perform (OWithdraw true 10%positive 20%positive 5) d = Some d1 /\
  may_spend d 30%positive 10%positive /\ perform (OCreate 31%positive 20%positive "next") d1 = Some d2 /\
  get_active_group d2 30%positive = Some r /\ g_project_id r = 20%positive /\ ~ may_spend d2 30%positive 10%positive.
Proof.
  assert (H : exists d d1 d2 r, perform_all w_setup empty_db = Some d /\ perform (OWithdraw true 10 20 5) d = Some d1 /\
    bool_decide (10%positive ∈ (list_ordered_carried d 30%positive).*1) = true /\
    perform (OCreate 31 20 "next") d1 = Some d2 /\ get_active_group d2 30%positive = Some r /\ g_project_id r = 20%positive).
  { do 4 eexists. split_and!; vm_compute; reflexivity. }
  destruct H as (d & d1 & d2 & r & Hd & Hw & Hs & Hc & Hg & Hp). exists d, d1, d2, r. split_and!; [done| |done..|].
  - apply may_spend_listed. apply bool_decide_eq_true, list_elem_of_fmap in Hs as ([k m] & E & Hin). simpl in E. subst k. by exists m.
  - destruct (revocation_sticks d d1 d2 _ 10 20 30 r Hw Hg) as [H _]. apply H; [by split| |done].
    eapply h_step; [|exact Hc|constructor]. done.
Defined.
