(* ===== verification/RouterBase.v ===== *)
(** * The provider router: state and effects

    What a provider call works on while other coroutines, workers and requests run: the
    tables, the Redis counters, the process's caches, two clocks.  A coroutine gives way
    at every [await]; [sched] holds what happens then, one [Batch] for each time, and
    every theorem about the router holds for every [sched].  [trace] records, latest
    first, what the coroutine did; nothing of the code reads it. *)

From S2P Require Import Prelude PyFloat PyValue KeyPolicy UsageBuckets KeyStore.

(** ** Requests and results *)

Record ProviderRequest := mkRequest {
  capability : ProviderCapability;
  payload : pydict;
  agent_id : option uuid;
  r_provider : option ApiKeyProvider;
  provider_config : option pydict;
}.
Record ProviderCallResult := mkResult {
  http_status : Z; body : pyval; input_tokens : Z; output_tokens : Z; request_ms : Z;
}.
Inductive StreamEvent := TokenDelta (text : string) | StreamComplete (r : ProviderCallResult).
(** What the adapter's stream does next; at the end of the list it stops. *)
Inductive stream_item := IDelta (text : string) | IComplete (r : ProviderCallResult) | IRaise.

(** The [reason] of [KeyGroupExhausted]. *)
Inductive exhausted_reason := no_members | provider_unavailable | request_rejected | all_errors | all_quota.
#[export] Instance exhausted_reason_eq_dec : EqDecision exhausted_reason.
Proof. solve_decision. Defined.

Inductive rexn :=
  | KeyGroupExhausted (why : exhausted_reason) (detail : option string)
  | XKeyNotFound | XCapabilityMismatch | KeyProjectScopeError
  | ProviderStreamError (status : Z)
  | KeyVanished | RotateStream | AbortGroup (status : Z) (detail : option string)
  | TransportError   (** what the adapter raised *)
  | GeneratorExit    (** the consumer abandoned the stream *)
  | XRedisError | DecryptError | XOverflowError | XValueError
  | XNoFuel.         (** not an outcome of the program: a bound of the model *)

#[export] Instance rexn_eq_dec : EqDecision rexn.
Proof. solve_decision. Defined.

(** ** The world *)

Record Shared := mkShared {
  db : KeyDb;
  redis : hashes;
  redis_up : bool;
  dek_cache : gmap uuid (string * Z);
  proxy_cache : gmap uuid (pydict * Z);
  wall : Z;  (** [time.time()] and the clocks of Redis and the database *)
}.
Definition with_db (f : KeyDb -> KeyDb) (s : Shared) : Shared :=
  mkShared (f (db s)) (redis s) (redis_up s) (dek_cache s) (proxy_cache s) (wall s).
Definition with_redis (f : hashes -> hashes) (s : Shared) : Shared :=
  mkShared (db s) (f (redis s)) (redis_up s) (dek_cache s) (proxy_cache s) (wall s).
Definition with_dek (f : gmap uuid (string * Z) -> gmap uuid (string * Z)) (s : Shared) : Shared :=
  mkShared (db s) (redis s) (redis_up s) (f (dek_cache s)) (proxy_cache s) (wall s).
Definition with_proxy (f : gmap uuid (pydict * Z) -> gmap uuid (pydict * Z)) (s : Shared) : Shared :=
  mkShared (db s) (redis s) (redis_up s) (dek_cache s) (f (proxy_cache s)) (wall s).

(** What happens while the coroutine waits: anything, and some time passes. *)
Record Batch := mkBatch { elapsed : N; effect : Shared -> Shared }.

Inductive event :=
  | EvRead (d : KeyDb)                      (** a statement read the tables [d] *)
  | EvPass                                  (** a pass over the members begins *)
  | EvBlocked (k : uuid)                    (** the key was found over a limit *)
  | EvDone (k : uuid)                       (** the member will not be tried again *)
  | EvInvoke (k : uuid)                     (** the secret goes out in a provider call *)
  | EvAnswer (k : uuid) (r : option ProviderCallResult)  (** the answer, or an exception *)
  | EvRedisDown                             (** a Redis command failed *)
  | EvCounters (k : uuid) (now : Z) (h h' : hashes)  (** a pipeline turned the counters [h] into [h'] *)
  | EvRows (k : uuid) (d d' : KeyDb)        (** an insert turned the tables [d] into [d'] *)
  | EvSleep (us : Z)
  | EvYield (ev : StreamEvent).             (** handed to the consumer *)

Record rst := mkR { sh : Shared; mono : Z; sched : list Batch; draws : nat; trace : list event }.
Definition rt (A : Type) : Type := rst -> (rexn + A) * rst.
#[export] Instance rt_ret : MRet rt := fun A a s => (inr a, s).
#[export] Instance rt_bind : MBind rt := fun A B f m s =>
  match m s with (inl e, s') => (inl e, s') | (inr a, s') => f a s' end.
Definition throw {A} (e : rexn) : rt A := fun s => (inl e, s).
(** The outcome as a value: [try] and [finally] are written with it. *)
Definition attempt {A} (m : rt A) : rt (rexn + A) := fun s => (inr (m s).1, (m s).2).
Definition resume {A} (r : rexn + A) : rt A := match r with inl e => throw e | inr a => mret a end.
(** [try: m except Exception: log] *)
Definition swallow (m : rt unit) : rt unit := _ ← attempt m; mret tt.

Definition note (e : event) : rt unit := fun s => (inr tt, mkR (sh s) (mono s) (sched s) (draws s) (e :: trace s)).
Definition yield : rt unit := fun s =>
  (inr tt, match sched s with
    | [] => s
    | b :: l => mkR (effect b (sh s)) (mono s + Z.of_N (elapsed b)) l (draws s) (trace s)
    end).
Definition look {A} (f : Shared -> A) : rt A := fun s => (inr (f (sh s)), s).
Definition change (f : Shared -> Shared) : rt unit := fun s => (inr tt, mkR (f (sh s)) (mono s) (sched s) (draws s) (trace s)).
(** Writes of the counters and of the tables on behalf of key [k], as they happened. *)
Definition change_redis (k : uuid) (f : Z -> hashes -> hashes) : rt unit := fun s =>
  let h := redis (sh s) in let h' := f (wall (sh s)) h in
  (inr tt, mkR (with_redis (fun _ => h') (sh s)) (mono s) (sched s) (draws s) (EvCounters k (wall (sh s)) h h' :: trace s)).
Definition change_db (k : uuid) (f : Z -> KeyDb -> KeyDb) : rt unit := fun s =>
  let d := db (sh s) in let d' := f (wall (sh s)) d in
  (inr tt, mkR (with_db (fun _ => d') (sh s)) (mono s) (sched s) (draws s) (EvRows k d d' :: trace s)).
Definition monotonic : rt Z := fun s => (inr (mono s), s).
Definition pass_time (us : Z) : rt unit := fun s =>
  (inr tt, mkR (sh s) (mono s + Z.max 0 us) (sched s) (draws s) (trace s)).
Definition sleep (us : Z) : rt unit := _ ← note (EvSleep us); _ ← pass_time us; yield.
(** [random.random()] is a multiple of 2^-53 below one; [rnd] says which. *)
Definition random (rnd : nat -> N) : rt QArith_base.Q := fun s =>
  (inr (QArith_base.Qmake (Z.of_N (rnd (draws s)) `mod` 2 ^ 53) (2 ^ 53)), mkR (sh s) (mono s) (sched s) (S (draws s)) (trace s)).

(** An awaited operation: others run before it takes effect and after. *)
Definition awaited {A} (m : rt A) : rt A := _ ← yield; a ← m; _ ← yield; mret a.
Definition query {A} (f : KeyDb -> A) : rt A :=
  awaited (s ← look db; _ ← note (EvRead s); mret (f s)).
Definition on_redis {A} (m : rt A) : rt A :=
  awaited (up ← look redis_up; if up : bool then m else _ ← note EvRedisDown; throw XRedisError).

(** ** Triples

    [ht T m Q]: from a trace in [T], however the environment behaves, [m] ends in an
    outcome and a trace in [Q]. *)

Definition ht {A} (T : list event -> Prop) (m : rt A) (Q : rexn + A -> list event -> Prop) : Prop :=
  forall s, T (trace s) -> Q (m s).1 (trace (m s).2).

Section ht.
Context {A B : Type}.
Implicit Types (T : list event -> Prop) (Q : rexn + A -> list event -> Prop).
Lemma ht_ret T (a : A) Q : (forall l, T l -> Q (inr a) l) -> ht T (mret a) Q.
Proof. intros H s HT. by apply H. Qed.
Lemma ht_throw T e Q : (forall l, T l -> Q (inl e) l) -> ht T (throw e) Q.
Proof. intros H s HT. by apply H. Qed.
Lemma ht_resume T (r : rexn + A) Q : (forall l, T l -> Q r l) -> ht T (resume r) Q.
Proof. intros H s HT. destruct r; by apply H. Qed.
Lemma ht_bind T (m : rt B) (R : rexn + B -> list event -> Prop) (f : B -> rt A) Q :
  ht T m R -> (forall e l, R (inl e) l -> Q (inl e) l) -> (forall b, ht (R (inr b)) (f b) Q) -> ht T (m ≫= f) Q.
Proof.
  intros Hm He Hf s HT. specialize (Hm s HT). unfold mbind, rt_bind. destruct (m s) as [[e|b] s']; simpl in *; [by apply He|by apply Hf].
Qed.
Lemma ht_attempt_bind T (m : rt B) (R : rexn + B -> list event -> Prop) (f : rexn + B -> rt A) Q :
  ht T m R -> (forall o, ht (R o) (f o) Q) -> ht T (attempt m ≫= f) Q.
Proof. intros Hm Hf s HT. unfold mbind, rt_bind, attempt. apply Hf. by apply Hm. Qed.
Lemma ht_mono T T' (m : rt A) Q Q' :
  ht T m Q -> (forall l, T' l -> T l) -> (forall r l, Q r l -> Q' r l) -> ht T' m Q'.
Proof. intros H H1 H2 s HT. by apply H2, H, H1. Qed.
Lemma ht_and T T' (m : rt A) Q Q' : ht T m Q -> ht T' m Q' -> ht (fun l => T l /\ T' l) m (fun r l => Q r l /\ Q' r l).
Proof. intros H H' s [HT HT']. split; [by apply H|by apply H']. Qed.
Lemma ht_pre T (F : Prop) (m : rt A) Q : (F -> ht T m Q) -> ht (fun l => F /\ T l) m Q.
Proof. intros H s [HF HT]. by apply H. Qed.

(** The primitives, as weakest preconditions. *)
Lemma ht_look T (f : Shared -> A) Q : (forall l a, T l -> Q (inr a) l) -> ht T (look f) Q.
Proof. intros H s HT. by apply H. Qed.
Lemma ht_awaited (m : rt A) T Q : ht T m Q -> ht T (awaited m) Q.
Proof.
  intros H s HT. unfold awaited, mbind, rt_bind, yield. simpl.
  assert (Hy : forall s1, trace s1 = trace s -> Q (m s1).1 (trace (m s1).2)) by (intros s1 E; apply H; by rewrite E).
  assert (Hs : trace (match sched s with [] => s | b :: l => mkR (effect b (sh s)) (mono s + Z.of_N (elapsed b)) l (draws s) (trace s) end) = trace s)
    by by destruct (sched s).
  specialize (Hy _ Hs). destruct (m _) as [[e|a] s2]; [done|]. simpl in *. by destruct (sched s2).
Qed.
Lemma ht_query T (f : KeyDb -> A) Q : (forall l d, T l -> Q (inr (f d)) (EvRead d :: l)) -> ht T (query f) Q.
Proof. intros H. apply ht_awaited. intros s HT. simpl. by apply H. Qed.
Lemma ht_on_redis (m : rt A) T Q : (forall l, T l -> Q (inl XRedisError) (EvRedisDown :: l)) -> ht T m Q -> ht T (on_redis m) Q.
Proof.
  intros He Hm. apply ht_awaited. intros s HT. unfold mbind, rt_bind, look. simpl. destruct (redis_up (sh s)); [by apply Hm|by apply He].
Qed.
End ht.
Lemma ht_note T e (Q : rexn + unit -> list event -> Prop) : (forall l, T l -> Q (inr tt) (e :: l)) -> ht T (note e) Q.
Proof. intros H s HT. by apply H. Qed.
Lemma ht_yield T (Q : rexn + unit -> list event -> Prop) : (forall l, T l -> Q (inr tt) l) -> ht T yield Q.
Proof. intros H s HT. unfold yield. simpl. destruct (sched s); by apply H. Qed.
Lemma ht_change T f (Q : rexn + unit -> list event -> Prop) : (forall l, T l -> Q (inr tt) l) -> ht T (change f) Q.
Proof. intros H s HT. by apply H. Qed.
Lemma ht_change_redis T k f (Q : rexn + unit -> list event -> Prop) :
  (forall l now h, T l -> Q (inr tt) (EvCounters k now h (f now h) :: l)) -> ht T (change_redis k f) Q.
Proof. intros H s HT. by apply H. Qed.
Lemma ht_change_db T k f (Q : rexn + unit -> list event -> Prop) :
  (forall l now d, T l -> Q (inr tt) (EvRows k d (f now d) :: l)) -> ht T (change_db k f) Q.
Proof. intros H s HT. by apply H. Qed.
Lemma ht_monotonic T (Q : rexn + Z -> list event -> Prop) : (forall l t, T l -> Q (inr t) l) -> ht T monotonic Q.
Proof. intros H s HT. by apply H. Qed.
Lemma ht_random T rnd (Q : rexn + QArith_base.Q -> list event -> Prop) : (forall l r, T l -> Q (inr r) l) -> ht T (random rnd) Q.
Proof. intros H s HT. by apply H. Qed.
Lemma ht_sleep T us (Q : rexn + unit -> list event -> Prop) : (forall l, T l -> Q (inr tt) (EvSleep us :: l)) -> ht T (sleep us) Q.
Proof. intros H s HT. unfold sleep, note, pass_time, yield, mbind, rt_bind. simpl. destruct (sched s); by apply H. Qed.
Lemma ht_swallow (m : rt unit) T (Q : rexn + unit -> list event -> Prop) : ht T m (fun _ => Q (inr tt)) -> ht T (swallow m) Q.
Proof. intros H. unfold swallow. eapply ht_attempt_bind; [exact H|]. intros o. by apply ht_ret. Qed.

(** ** Steps

    [steps P m]: time does not run backwards in [m], and it adds to the trace only
    events in [P]. *)
Definition follows (P : event -> Prop) (s s' : rst) : Prop :=
  mono s <= mono s' /\ exists new, trace s' = new ++ trace s /\ Forall P new.
Definition steps (P : event -> Prop) {A} (m : rt A) : Prop := forall s, follows P s (m s).2.
#[export] Instance follows_preorder P : PreOrder (follows P).
Proof.
  split.
  - intros s. split; [lia|]. by exists [].
  - intros a b c [H1 (n1 & E1 & F1)] [H2 (n2 & E2 & F2)]. split; [lia|]. exists (n2 ++ n1). split.
    + by rewrite E2, E1, (assoc_L (++)).
    + by apply Forall_app.
Qed.
Lemma follows_refl_trace P s s' : trace s' = trace s -> mono s <= mono s' -> follows P s s'.
Proof. intros E H. split; [done|]. by exists []. Qed.

Section steps.
Context (P : event -> Prop) {A B : Type}.
Lemma steps_ret (a : A) : steps P (mret a).
Proof. by intros s. Qed.
Lemma steps_throw e : steps P (throw (A := A) e).
Proof. by intros s. Qed.
Lemma steps_resume (r : rexn + A) : steps P (resume r).
Proof. destruct r; by intros s. Qed.
Lemma steps_bind (m : rt B) (f : B -> rt A) : steps P m -> (forall b, steps P (f b)) -> steps P (m ≫= f).
Proof.
  intros Hm Hf s. unfold mbind, rt_bind. pose proof (Hm s) as H. destruct (m s) as [[e|b] s']; simpl in *; [done|].
  etrans; [exact H|apply Hf].
Qed.
Lemma steps_attempt (m : rt A) : steps P m -> steps P (attempt m).
Proof. intros H s. apply H. Qed.
Lemma steps_look (f : Shared -> A) : steps P (look f).
Proof. by intros s. Qed.
Lemma steps_yield : steps P yield.
Proof. intros s. apply follows_refl_trace; unfold yield; simpl; destruct (sched s); simpl; try done; lia. Qed.
Lemma steps_change f : steps P (change f).
Proof. intros s. by apply follows_refl_trace. Qed.
Lemma steps_change_redis k f : (forall now h h', P (EvCounters k now h h')) -> steps P (change_redis k f).
Proof. intros H s. split; [simpl; lia|]. eexists [_]. split; [done|by constructor]. Qed.
Lemma steps_change_db k f : (forall d d', P (EvRows k d d')) -> steps P (change_db k f).
Proof. intros H s. split; [simpl; lia|]. eexists [_]. split; [done|by constructor]. Qed.
Lemma steps_monotonic : steps P monotonic.
Proof. by intros s. Qed.
Lemma steps_random rnd : steps P (random rnd).
Proof. intros s. by apply follows_refl_trace. Qed.
Lemma steps_note e : P e -> steps P (note e).
Proof. intros H s. split; [done|]. exists [e]. split; [done|by constructor]. Qed.
End steps.
Lemma steps_awaited P {A} (m : rt A) : steps P m -> steps P (awaited m).
Proof.
  intros H. apply steps_bind; [apply steps_yield|]. intros _. apply steps_bind; [done|]. intros a.
  apply steps_bind; [apply steps_yield|]. intros _. apply steps_ret.
Qed.
Lemma steps_query (P : event -> Prop) {A} (f : KeyDb -> A) : (forall d, P (EvRead d)) -> steps P (query f).
Proof.
  intros H. apply steps_awaited, steps_bind; [apply steps_look|]. intros s. apply steps_bind; [by apply steps_note|].
  intros _. apply steps_ret.
Qed.
Lemma steps_on_redis (P : event -> Prop) {A} (m : rt A) : P EvRedisDown -> steps P m -> steps P (on_redis m).
Proof.
  intros H Hm. apply steps_awaited, steps_bind; [apply steps_look|]. intros up. destruct up; [done|].
  apply steps_bind; [by apply steps_note|]. intros _. apply steps_throw.
Qed.
Lemma steps_sleep (P : event -> Prop) us : P (EvSleep us) -> steps P (sleep us).
Proof.
  intros H. apply steps_bind; [by apply steps_note|]. intros _. apply steps_bind; [|intros _; apply steps_yield].
  intros s. apply follows_refl_trace; simpl; [done|lia].
Qed.
Lemma steps_swallow P (m : rt unit) : steps P m -> steps P (swallow m).
Proof. intros H. apply steps_bind; [by apply steps_attempt|]. intros o. apply steps_ret. Qed.
Lemma steps_mono (P P' : event -> Prop) {A} (m : rt A) : (forall e, P e -> P' e) -> steps P m -> steps P' m.
Proof. intros HP H s. destruct (H s) as [H1 (n & E & F)]. split; [done|]. exists n. split; [done|]. by eapply Forall_impl. Qed.

(** An assertion that survives the events of [P] survives what [m] does. *)
Lemma ht_steps (P : event -> Prop) {A} (m : rt A) (T : list event -> Prop) :
  steps P m -> (forall e l, P e -> T l -> T (e :: l)) -> ht T m (fun _ => T).
Proof.
  intros H HT s HTs. destruct (H s) as [_ (n & -> & F)]. induction F as [|e n He F IH]; [done|]. by apply HT.
Qed.

(** The same when [m] is followed by something, and what it raises is of no concern. *)
Lemma ht_steps_bind (P : event -> Prop) {A B} (m : rt B) (f : B -> rt A) (T : list event -> Prop) (Q : rexn + A -> list event -> Prop) :
  steps P m -> (forall e l, P e -> T l -> T (e :: l)) -> (forall e l, T l -> Q (inl e) l) -> (forall b, ht T (f b) Q) -> ht T (m ≫= f) Q.
Proof. intros Hm HT He Hf. eapply ht_bind with (R := fun _ => T); [by eapply ht_steps|done|done]. Qed.

Create HintDb steps.
#[export] Hint Resolve steps_ret steps_throw steps_resume steps_attempt steps_look steps_yield steps_change steps_change_redis steps_change_db steps_monotonic
  steps_random steps_note steps_awaited steps_query steps_on_redis steps_sleep steps_swallow : steps.
(** Follow the structure of a program down to its primitives. *)
Ltac step_through := repeat first
  [ progress intros
  | solve [auto with steps]
  | match goal with |- steps _ (match ?x with _ => _ end) => destruct x end
  | apply steps_bind ].

(** [raises E m]: an exception of [m] is in [E]. *)
Definition raises (E : rexn -> Prop) {A} (m : rt A) : Prop := forall s e, (m s).1 = inl e -> E e.
Lemma raises_mono (E E' : rexn -> Prop) {A} (m : rt A) : (forall e, E e -> E' e) -> raises E m -> raises E' m.
Proof. intros H Hm s e He. by eapply H, Hm. Qed.
Section raises.
Context (E : rexn -> Prop) {A B : Type}.
Lemma raises_ret (a : A) : raises E (mret a).
Proof. by intros s e. Qed.
Lemma raises_throw e : E e -> raises E (throw (A := A) e).
Proof. by intros H s e' [= <-]. Qed.
Lemma raises_bind (m : rt B) (f : B -> rt A) : raises E m -> (forall b, raises E (f b)) -> raises E (m ≫= f).
Proof.
  intros Hm Hf s e. unfold mbind, rt_bind. pose proof (Hm s) as H. destruct (m s) as [[e1|b] s']; simpl in *; [|apply Hf].
  intros [= <-]. by apply H.
Qed.
Lemma raises_attempt (m : rt A) : raises E (attempt m).
Proof. by intros s e. Qed.
Lemma raises_attempt_bind (E' : rexn -> Prop) (m : rt B) (f : rexn + B -> rt A) :
  raises E' m -> (forall e, E' e -> raises E (f (inl e))) -> (forall b, raises E (f (inr b))) -> raises E (attempt m ≫= f).
Proof.
  intros Hm He Hf s e. unfold mbind, rt_bind, attempt. pose proof (Hm s) as H. destruct (m s) as [[e1|b] s']; simpl in *.
  - apply He. by apply H.
  - apply Hf.
Qed.
Lemma raises_look (f : Shared -> A) : raises E (look f).
Proof. by intros s e. Qed.
End raises.
Lemma raises_yield E : raises E yield.
Proof. by intros s e. Qed.
Lemma raises_change E f : raises E (change f).
Proof. by intros s e. Qed.
Lemma raises_change_redis E k f : raises E (change_redis k f).
Proof. by intros s e. Qed.
Lemma raises_change_db E k f : raises E (change_db k f).
Proof. by intros s e. Qed.
Lemma raises_note E v : raises E (note v).
Proof. by intros s e. Qed.
Lemma raises_monotonic E : raises E monotonic.
Proof. by intros s e. Qed.
Lemma raises_random E rnd : raises E (random rnd).
Proof. by intros s e. Qed.
Lemma raises_sleep E us : raises E (sleep us).
Proof. by intros s e. Qed.
Lemma raises_awaited E {A} (m : rt A) : raises E m -> raises E (awaited m).
Proof.
  intros H. apply raises_bind; [apply raises_yield|]. intros _. apply raises_bind; [done|]. intros a.
  apply raises_bind; [apply raises_yield|]. intros _. apply raises_ret.
Qed.
Lemma raises_query E {A} (f : KeyDb -> A) : raises E (query f).
Proof.
  apply raises_awaited, raises_bind; [apply raises_look|]. intros s. apply raises_bind; [apply raises_note|]. intros _. apply raises_ret.
Qed.
Lemma raises_on_redis (E : rexn -> Prop) {A} (m : rt A) : E XRedisError -> raises E m -> raises E (on_redis m).
Proof.
  intros H Hm. apply raises_awaited, raises_bind; [apply raises_look|]. intros up. destruct up; [done|].
  apply raises_bind; [apply raises_note|]. intros _. by apply raises_throw.
Qed.
Lemma raises_swallow E (m : rt unit) : raises E (swallow m).
Proof. apply raises_bind; [apply raises_attempt|]. intros o. apply raises_ret. Qed.

Lemma ht_raises E {A} T (m : rt A) Q : raises E m -> ht T m Q -> ht T m (fun r l => Q r l /\ match r with inl e => E e | inr _ => True end).
Proof. intros He Hm s HT. split; [by apply Hm|]. specialize (He s). destruct (m s) as [[e|a] s']; [by apply He|done]. Qed.

Create HintDb raises.
#[export] Hint Resolve raises_ret raises_throw raises_attempt raises_look raises_yield raises_change raises_change_redis raises_change_db raises_note raises_monotonic
  raises_random raises_sleep raises_awaited raises_query raises_on_redis raises_swallow : raises.
Ltac raise_through := repeat first
  [ progress intros
  | solve [auto with raises]
  | match goal with |- raises _ (match ?x with _ => _ end) => destruct x end
  | apply raises_bind ].
