(* ===== verification/ProviderRouter.v ===== *)
(** * The provider router

    [contexts/keys/application/provider_router.py] with the caches of
    [infrastructure/dek_cache.py], [usage_events.py] and the revocation listener: the
    rotation over the members of a key group, the retries of one member, the queue wait,
    the stream that may only rotate before its first token, the pinned calls, and the
    accounting of every call.

    Parameters: the adapters and what the providers answer through them (the n-th call
    may answer anything, or raise), the opening of envelopes by Vault, the random
    numbers.  The consumer of a stream decides at each event whether to go on.  Logs and
    the Prometheus counters are not modelled; of the columns of a usage row that only
    copy the request, the agent is kept. *)

From S2P Require Import Prelude PyFloat PyValue KeyPolicy UsageBuckets KeyStore RouterBase.

(** ** Caches *)

Definition TTL_US : Z := 60 * 1000000.
(** [DekCache.get] and [ProxyHeadersCache.get]: an entry is served for sixty seconds. *)
Definition fresh_entry {V} (now : Z) (e : option (V * Z)) : option V :=
  '(v, loaded) ← e; if TTL_US <? now - loaded then None else Some v.
Definition expire {V} (now : Z) (k : uuid) (m : gmap uuid (V * Z)) : gmap uuid (V * Z) :=
  match m !! k with Some (_, loaded) => if TTL_US <? now - loaded then delete k m else m | None => m end.
Definition dek_get (k : uuid) : rt (option string) :=
  now ← monotonic;
  v ← look (fun s => fresh_entry now (dek_cache s !! k));
  _ ← change (with_dek (expire now k));
  mret v.
Definition dek_put (k : uuid) (v : string) : rt unit := now ← monotonic; change (with_dek <[k := (v, now)]>).
Definition proxy_get (k : uuid) : rt (option pydict) :=
  now ← monotonic;
  v ← look (fun s => fresh_entry now (proxy_cache s !! k));
  _ ← change (with_proxy (expire now k));
  mret v.
Definition proxy_put (k : uuid) (v : pydict) : rt unit := now ← monotonic; change (with_proxy <[k := (v, now)]>).
(** [revocation_listener._handle]: part of what happens while a call waits. *)
Definition handle_revocation (k : uuid) (s : Shared) : Shared := with_proxy (delete k) (with_dek (delete k) s).

(** ** Accounting *)

Definition redis_record (k : uuid) (delta : Bucket) : rt unit :=
  on_redis (change_redis k (fun now => record_usage now k delta)).
(** The row goes in unless its foreign key fails; a failure is swallowed. *)
Definition record_usage_event (k : uuid) (agent : option uuid) (tin tout ms : Z) (status : option Z) (code : option string) : rt unit :=
  awaited (change_db k (fun now d => match api_keys d !! k with
    | Some _ => with_events (cons (mkEvent k agent tin tout ms status code now)) d
    | None => d
    end)).
Definition record_call (k : uuid) (result : option ProviderCallResult) (request : ProviderRequest) (elapsed_ms : Z) (code : option string) : rt unit :=
  match result with
  | Some r =>
      _ ← redis_record k (mkBucket (input_tokens r) (output_tokens r) 1);
      record_usage_event k (agent_id request) (input_tokens r) (output_tokens r)
        (if request_ms r =? 0 then elapsed_ms else request_ms r) (Some (http_status r)) code
  | None =>
      _ ← redis_record k (mkBucket 0 0 1);
      record_usage_event k (agent_id request) 0 0 elapsed_ms None (Some (default "transport_error"%string code))
  end.

(** ** Members *)

Record EligibleMember := mkEligible { em_key_id : uuid; em_member : KeyGroupMember; em_key : ApiKey }.
Record MemberState := mkState { attempts : Z; last_outcome : option ErrorOutcome; quota_blocked : bool; exhausted : bool }.
Definition fresh_state : MemberState := mkState 0 None false false.
Abbreviation member_states := (gmap uuid MemberState).

Definition serves (capability : ProviderCapability) (prov : option ApiKeyProvider) (key : ApiKey) : bool :=
  supports (provider key) capability &&
  match prov with Some p => bool_decide (provider key = p) | None => true end.
Fixpoint eligible_among (capability : ProviderCapability) (prov : option ApiKeyProvider) (ms : list (uuid * KeyGroupMember)) : rt (list EligibleMember) :=
  match ms with
  | [] => mret []
  | (k, m) :: ms =>
      key ← query (fun d => get_active d k);
      rest ← eligible_among capability prov ms;
      mret (match key with
        | Some row => if serves capability prov row then mkEligible k m row :: rest else rest
        | None => rest end)
  end.
Definition load_eligible (g : uuid) (capability : ProviderCapability) (prov : option ApiKeyProvider) : rt (list EligibleMember) :=
  members ← query (fun d => list_ordered_carried d g);
  eligible_among capability prov members.
Definition is_still_eligible (g k : uuid) (request : ProviderRequest) : rt bool :=
  members ← load_eligible g (capability request) (r_provider request);
  mret (bool_decide (k ∈ em_key_id <$> members)).

Definition over (limit : option Z) (used : Z) : bool := match limit with Some l => l <=? used | None => false end.
Definition quota_exceeded (em : EligibleMember) : rt bool :=
  let lim := limits (em_member em) in
  let check_tokens := rotate_on_token_quota (rotation (em_member em)) &&
    (bool_decide (is_Some (max_input_tokens_per_hour lim)) || bool_decide (is_Some (max_output_tokens_per_hour lim))) in
  let check_requests := bool_decide (is_Some (max_requests_per_hour lim)) in
  if negb check_tokens && negb check_requests then mret false else
  cur ← look (fun s => current_bucket (wall s));
  used ← on_redis (look (fun s => aggregate (wall s) (redis s) (usage_keys (em_key_id em) cur)));
  mret ((check_tokens && (over (max_input_tokens_per_hour lim) (b_input_tokens used) || over (max_output_tokens_per_hour lim) (b_output_tokens used)))
        || over (max_requests_per_hour lim) (b_requests used)).

(** [_provider_detail] *)
Definition provider_detail_of (r : ProviderCallResult) : option string :=
  match body r with VDict d => match dict_get "error" d with Some (VStr e) => Some e | _ => None end | _ => None end.
Definition is_truncated_finish_reason (v : pyval) : bool :=
  match v with VStr s => bool_decide (py_lower s ∈ ["max_tokens"; "length"; "max_output_tokens"]%string) | _ => false end.

(** The terminal result a stream left behind, and what the caller saw of it. *)
Record StreamTerminal := mkTerminal { complete : option ProviderCallResult; transport_exc : bool; first_token : bool; abandoned : bool }.

Inductive adapter_kind := NoAdapter | Unary | Streaming.

Section router.
Context (adapters : ApiKeyProvider -> adapter_kind)
  (invoke : nat -> ApiKeyProvider -> string -> ProviderRequest -> option ProviderCallResult)
  (stream : nat -> ApiKeyProvider -> string -> ProviderRequest -> list stream_item)
  (decrypt_envelope : EnvelopeRecord -> uuid -> option string)
  (unseal_headers : pydict -> uuid -> option pydict)
  (rnd : nat -> N)
  (keeps_reading : nat -> bool).

(** How many provider calls and consumer events there were before. *)
Definition calls_made (l : list event) : nat := length (List.filter (fun e => match e with EvInvoke _ => true | _ => false end) l).
Definition events_yielded (l : list event) : nat := length (List.filter (fun e => match e with EvYield _ => true | _ => false end) l).
Definition counter (f : list event -> nat) : rt nat := fun s => (inr (f (trace s)), s).

Definition unwrap_secret (k : uuid) : rt string :=
  cached ← dek_get k;
  match cached with
  | Some v => mret v
  | None =>
      loaded ← query (fun d => get_active_with_envelope d k);
      match loaded with
      | None => throw KeyVanished
      | Some (_, record) =>
          match decrypt_envelope record k with
          | None => throw DecryptError
          | Some v => _ ← dek_put k v; mret v
          end
      end
  end.

(** Legacy rows hold the headers in the clear. *)
Definition decrypt_proxy_headers (enc : pydict) (k : uuid) : option pydict :=
  if dict_has "ct" enc then unseal_headers enc k
  else match mapMr (fun kv => s ← py_str kv.2; mret (kv.1, VStr s)) enc with Ok d => Some d | _ => None end.
Definition with_config (request : ProviderRequest) (cfg : pydict) : ProviderRequest :=
  mkRequest (capability request) (payload request) (agent_id request) (r_provider request) (Some cfg).
Definition inject_provider_config (em : EligibleMember) (request : ProviderRequest) : rt ProviderRequest :=
  match config (em_key em) with
  | [] => mret request
  | cfg =>
      match encrypted_proxy_headers (em_key em) with
      | None | Some [] => mret (with_config request cfg)
      | Some enc =>
          cached ← proxy_get (em_key_id em);
          match cached with
          | Some h => mret (with_config request (dict_set "proxy_headers" (VDict h) cfg))
          | None =>
              match decrypt_proxy_headers enc (em_key_id em) with
              | None => throw DecryptError
              | Some h => _ ← proxy_put (em_key_id em) h; mret (with_config request (dict_set "proxy_headers" (VDict h) cfg))
              end
          end
      end
  end.

(** One provider call through an adapter; [None] when it raises. *)
Definition adapter_invoke (k : uuid) (p : ApiKeyProvider) (secret : string) (request : ProviderRequest) : rt (option ProviderCallResult) :=
  n ← counter calls_made;
  _ ← note (EvInvoke k);
  awaited (let r := invoke n p secret request in _ ← note (EvAnswer k r); mret r).
Definition elapsed_since (t0 : Z) : rt Z := t ← monotonic; mret ((t - t0) `div` 1000).

(** ** One member *)

Definition call_member (g : uuid) (em : EligibleMember) (request : ProviderRequest) : rt (ErrorOutcome * option ProviderCallResult) :=
  let k := em_key_id em in
  ok ← is_still_eligible g k request;
  if negb ok then throw KeyVanished else
  request' ← inject_provider_config em request;
  secret ← unwrap_secret k;
  t0 ← monotonic;
  r ← adapter_invoke k (provider (em_key em)) secret request';
  ms ← elapsed_since t0;
  match r with
  | None =>
      _ ← record_call k None request' ms (Some "transport_error"%string);
      mret (mkOutcome R_RETRY None (Some "transport_error"%string) None, None)
  | Some res =>
      let o := classify_http (http_status res) (rotation (em_member em)) in
      let o := if bool_decide (reason o = R_OK) then o
               else mkOutcome (reason o) (o_http_status o) (o_error_code o) (provider_detail_of res) in
      _ ← record_call k (Some res) request' ms (o_error_code o);
      mret (o, if bool_decide (reason o = R_OK) then Some res else None)
  end.

(** [st.exhausted = True] *)
Definition exhaust (k : uuid) (n : Z) (o : ErrorOutcome) : rt MemberState :=
  _ ← note (EvDone k); mret (mkState n (Some o) false true).
Definition vanished_outcome : ErrorOutcome := mkOutcome R_FATAL None (Some "key_vanished"%string) None.

Fixpoint try_member (fuel : nat) (g : uuid) (em : EligibleMember) (request : ProviderRequest) (st : MemberState)
    : rt (option ProviderCallResult * MemberState) :=
  match fuel with
  | O => throw XNoFuel
  | S fuel =>
      let k := em_key_id em in
      called ← attempt (call_member g em request);
      match called with
      | inl KeyVanished => st' ← exhaust k (attempts st) vanished_outcome; mret (None, st')
      | inl e => throw e
      | inr (o, result) =>
          let n := attempts st + 1 in
          match reason o with
          | R_OK => mret (result, mkState n (Some o) (quota_blocked st) (exhausted st))
          | R_RETRY =>
              if n <=? retry_max (rotation (em_member em)) then
                r ← random rnd;
                match backoff_delay_ms n (rotation (em_member em)) r with
                | None => throw XOverflowError
                | Some ms => _ ← sleep (ms * 1000); try_member fuel g em request (mkState n (Some o) (quota_blocked st) (exhausted st))
                end
              else st' ← exhaust k n o; mret (None, st')
          | _ => st' ← exhaust k n o; mret (None, st')
          end
      end
  end.
Definition try_fuel (em : EligibleMember) : nat := S (Z.to_nat (retry_max (rotation (em_member em)))).

(** ** The group *)

Definition no_adapter_outcome : ErrorOutcome := mkOutcome R_FATAL None (Some "no_adapter"%string) None.
(** One turn of the [for] loop: the result, if the member served the request. *)
Definition visit (g : uuid) (request : ProviderRequest) (em : EligibleMember) (states : member_states) : rt (option ProviderCallResult * member_states) :=
  let k := em_key_id em in
  let st := default fresh_state (states !! k) in
  if exhausted st then mret (None, states) else
  over_limit ← quota_exceeded em;
  if over_limit : bool then
    _ ← note (EvBlocked k);
    mret (None, <[k := mkState (attempts st) (last_outcome st) true (exhausted st)]> states)
  else
    let st := mkState (attempts st) (last_outcome st) false (exhausted st) in
    match adapters (provider (em_key em)) with
    | NoAdapter => st' ← exhaust k (attempts st) no_adapter_outcome; mret (None, <[k := st']> states)
    | _ =>
        tried ← try_member (try_fuel em) g em request st;
        let '(result, st') := tried in
        match result with
        | Some r => mret (Some r, <[k := st']> states)
        | None =>
            match last_outcome st' with
            | Some o => if bool_decide (reason o = R_ABORT) then throw (KeyGroupExhausted request_rejected (provider_detail o))
                        else mret (None, <[k := st']> states)
            | None => mret (None, <[k := st']> states)
            end
        end
    end.
Fixpoint one_pass (g : uuid) (request : ProviderRequest) (members : list EligibleMember) (states : member_states)
    : rt (option ProviderCallResult * member_states) :=
  match members with
  | [] => mret (None, states)
  | em :: members =>
      v ← visit g request em states;
      let '(result, states) := v in
      match result with Some r => mret (Some r, states) | None => one_pass g request members states end
  end.

Definition QUEUE_POLL_INTERVAL_US : Z := 5 * 1000000.
Definition MIN_SLEEP_US : Z := 500000.
Definition any_quota (states : member_states) : bool :=
  existsb (fun ks : uuid * MemberState => quota_blocked ks.2 && negb (exhausted ks.2)) (map_to_list states).

Fixpoint rotate (fuel : nat) (g : uuid) (request : ProviderRequest) (members : list EligibleMember) (deadline : Z) (states : member_states)
    : rt ProviderCallResult :=
  match fuel with
  | O => throw XNoFuel
  | S fuel =>
      _ ← note EvPass;
      v ← one_pass g request members states;
      let '(result, states) := v in
      match result with
      | Some r => mret r
      | None =>
          if negb (any_quota states) then throw (KeyGroupExhausted all_errors None) else
          now ← monotonic;
          if deadline <=? now then throw (KeyGroupExhausted all_quota None) else
          _ ← sleep (Z.min QUEUE_POLL_INTERVAL_US (Z.max MIN_SLEEP_US (deadline - now)));
          rotate fuel g request members deadline states
      end
  end.
(** Every wait is at least half a second. *)
Definition rotate_fuel (queue_wait_seconds : Z) : nat := S (S (Z.to_nat (2 * queue_wait_seconds))).
Definition no_member_reason (request : ProviderRequest) : exhausted_reason :=
  match r_provider request with Some _ => provider_unavailable | None => no_members end.
Definition initial_states (members : list EligibleMember) : member_states :=
  list_to_map ((fun em => (em_key_id em, fresh_state)) <$> members).
Definition call (queue_wait_seconds : Z) (g : uuid) (request : ProviderRequest) : rt ProviderCallResult :=
  members ← load_eligible g (capability request) (r_provider request);
  match members with
  | [] => throw (KeyGroupExhausted (no_member_reason request) None)
  | _ =>
      t ← monotonic;
      rotate (rotate_fuel queue_wait_seconds) g request members (t + queue_wait_seconds * 1000000) (initial_states members)
  end.

(** ** Streaming *)

(** Hand an event to the consumer: does it come back for more? *)
Definition emit (e : StreamEvent) : rt bool :=
  n ← counter events_yielded;
  _ ← note (EvYield e);
  _ ← yield;
  mret (keeps_reading n).
Fixpoint drive (items : list stream_item) (t : StreamTerminal) : rt StreamTerminal :=
  match items with
  | [] => mret t
  | IRaise :: _ => mret (mkTerminal (complete t) true (first_token t) (abandoned t))
  | IComplete r :: items => _ ← yield; drive items (mkTerminal (Some r) (transport_exc t) (first_token t) (abandoned t))
  | IDelta text :: items =>
      _ ← yield;
      more ← emit (TokenDelta text);
      if more : bool then drive items (mkTerminal (complete t) (transport_exc t) true (abandoned t))
      else mret (mkTerminal (complete t) (transport_exc t) true true)
  end.
Definition new_terminal : StreamTerminal := mkTerminal None false false false.
(** What the code records of the stream's end: its answer. *)
Definition open_stream (k : uuid) (p : ApiKeyProvider) (secret : string) (request : ProviderRequest) : rt StreamTerminal :=
  n ← counter calls_made;
  _ ← note (EvInvoke k);
  t ← awaited (drive (stream n p secret request) new_terminal);
  _ ← note (EvAnswer k (complete t));
  mret t.
Definition abort_code (t : StreamTerminal) : string := if transport_exc t then "transport_error" else "client_abort".
(** The accounting in [finally] swallows its own failures. *)
Definition account (k : uuid) (request : ProviderRequest) (t0 : Z) (t : StreamTerminal) (code : Z -> option string) : rt unit :=
  swallow (
    ms ← elapsed_since t0;
    match complete t with
    | Some r => record_call k (Some r) request ms (code (http_status r))
    | None => record_call k None request ms (Some (abort_code t))
    end).

(** After the loop: the verdict on the member, or the terminal event. *)
Definition stream_verdict (policy : RotationPolicy) (t : StreamTerminal) : rt unit :=
  if abandoned t then throw GeneratorExit else
  if transport_exc t then throw (if first_token t then TransportError else RotateStream) else
  match complete t with
  | None => throw (if first_token t then ProviderStreamError 0 else RotateStream)
  | Some r =>
      let o := classify_http (http_status r) policy in
      if bool_decide (reason o = R_OK) then
        more ← emit (StreamComplete r);
        if more : bool then mret tt else throw GeneratorExit
      else if first_token t then throw (ProviderStreamError (http_status r))
      else if bool_decide (reason o = R_ABORT) then throw (AbortGroup (http_status r) (provider_detail_of r))
      else throw RotateStream
  end.
Definition stream_member (g : uuid) (em : EligibleMember) (request : ProviderRequest) : rt unit :=
  let k := em_key_id em in
  ok ← is_still_eligible g k request;
  if negb ok then throw KeyVanished else
  request' ← inject_provider_config em request;
  secret ← unwrap_secret k;
  t0 ← monotonic;
  t ← open_stream k (provider (em_key em)) secret request';
  outcome ← attempt (stream_verdict (rotation (em_member em)) t);
  _ ← account k request' t0 t (fun s => o_error_code (classify_http s (rotation (em_member em))));
  resume outcome.

Fixpoint stream_members (g : uuid) (request : ProviderRequest) (members : list EligibleMember) (blocked : bool) : rt unit :=
  match members with
  | [] => throw (KeyGroupExhausted (if blocked then all_quota else all_errors) None)
  | em :: members =>
      over_limit ← quota_exceeded em;
      if over_limit : bool then stream_members g request members true else
      match adapters (provider (em_key em)) with
      | Streaming =>
          outcome ← attempt (stream_member g em request);
          match outcome with
          | inr _ => mret tt
          | inl RotateStream | inl KeyVanished => stream_members g request members blocked
          | inl (AbortGroup _ detail) => throw (KeyGroupExhausted request_rejected detail)
          | inl e => throw e
          end
      | _ => stream_members g request members blocked
      end
  end.
Definition call_stream (g : uuid) (request : ProviderRequest) : rt unit :=
  members ← load_eligible g (capability request) (r_provider request);
  match members with
  | [] => throw (KeyGroupExhausted (no_member_reason request) None)
  | _ => stream_members g request members false
  end.

(** ** Pinned calls *)

Definition pinned_config (key : ApiKey) (request : ProviderRequest) : ProviderRequest :=
  match config key with [] => request | cfg => with_config request cfg end.
Definition call_single_key (k p : uuid) (request : ProviderRequest) : rt ProviderCallResult :=
  key ← query (fun d => get_active d k);
  match key with
  | None => throw XKeyNotFound
  | Some row =>
      if negb (supports (provider row) (capability request)) then throw XCapabilityMismatch else
      carried ← query (fun d => is_carried d k p);
      if negb carried then throw KeyProjectScopeError else
      match adapters (provider row) with
      | NoAdapter => throw XValueError
      | _ =>
          let request' := pinned_config row request in
          secret ← unwrap_secret k;
          t0 ← monotonic;
          r ← adapter_invoke k (provider row) secret request';
          ms ← elapsed_since t0;
          match r with
          | None => _ ← record_call k None request' ms (Some "transport_error"%string); throw TransportError
          | Some res => _ ← record_call k (Some res) request' ms (classify_pinned_status (http_status res)); mret res
          end
      end
  end.
Definition pinned_verdict (t : StreamTerminal) : rt unit :=
  if abandoned t then throw GeneratorExit else
  if transport_exc t then throw TransportError else
  match complete t with
  | None => throw (ProviderStreamError 0)
  | Some r =>
      if is_ok (http_status r) then
        more ← emit (StreamComplete r);
        if more : bool then mret tt else throw GeneratorExit
      else throw (ProviderStreamError (http_status r))
  end.
Definition call_single_key_stream (k : uuid) (request : ProviderRequest) : rt unit :=
  key ← query (fun d => get_active d k);
  match key with
  | None => throw XKeyNotFound
  | Some row =>
      if negb (supports (provider row) (capability request)) then throw XCapabilityMismatch else
      match adapters (provider row) with
      | Streaming =>
          let request' := pinned_config row request in
          secret ← unwrap_secret k;
          t0 ← monotonic;
          t ← open_stream k (provider row) secret request';
          outcome ← attempt (pinned_verdict t);
          _ ← account k request' t0 t classify_pinned_status;
          resume outcome
      | _ => throw XValueError
      end
  end.
End router.
