(* ===== verification/RouterFacts.v ===== *)
(** * The provider router: which keys are spent, how often, and the account of it

    What holds of a provider call under every environment, operation by operation: no key
    goes out that was not just seen to be carried, a call ends, and every provider call is
    accounted for exactly once.  The theorems about whole calls are in [RouterClaims]. *)

From S2P Require Import Prelude PyFloat PyValue KeyPolicy UsageBuckets KeyStore RouterBase ProviderRouter.

Definition is_read (e : event) : Prop := match e with EvRead _ => True | _ => False end.

Section facts.
Context (adapters : ApiKeyProvider -> adapter_kind)
  (invoke : nat -> ApiKeyProvider -> string -> ProviderRequest -> option ProviderCallResult)
  (stream : nat -> ApiKeyProvider -> string -> ProviderRequest -> list stream_item)
  (decrypt_envelope : EnvelopeRecord -> uuid -> option string)
  (unseal_headers : pydict -> uuid -> option pydict)
  (rnd : nat -> N)
  (keeps_reading : nat -> bool).
#[local] Abbreviation unwrap_secret := (unwrap_secret decrypt_envelope).
#[local] Abbreviation inject := (inject_provider_config unseal_headers).
#[local] Abbreviation call_member := (call_member invoke decrypt_envelope unseal_headers).
#[local] Abbreviation try_member := (try_member invoke decrypt_envelope unseal_headers rnd).
#[local] Abbreviation visit := (visit adapters invoke decrypt_envelope unseal_headers rnd).
#[local] Abbreviation one_pass := (one_pass adapters invoke decrypt_envelope unseal_headers rnd).
#[local] Abbreviation rotate := (rotate adapters invoke decrypt_envelope unseal_headers rnd).
#[local] Abbreviation call := (call adapters invoke decrypt_envelope unseal_headers rnd).
#[local] Abbreviation open_stream := (open_stream stream keeps_reading).
#[local] Abbreviation stream_member := (stream_member stream decrypt_envelope unseal_headers keeps_reading).
#[local] Abbreviation stream_members := (stream_members adapters stream decrypt_envelope unseal_headers keeps_reading).
#[local] Abbreviation call_stream := (call_stream adapters stream decrypt_envelope unseal_headers keeps_reading).
#[local] Abbreviation call_single_key := (call_single_key adapters invoke decrypt_envelope).
#[local] Abbreviation call_single_key_stream := (call_single_key_stream adapters stream decrypt_envelope keeps_reading).

(** ** What each part adds to the trace *)
Section added.
Context (P : event -> Prop) (Hr : forall d, P (EvRead d)) (Hd : P EvRedisDown).
Lemma dek_get_steps k : steps P (dek_get k).
Proof using. unfold dek_get. step_through. Qed.
Lemma proxy_get_steps k : steps P (proxy_get k).
Proof using. unfold proxy_get. step_through. Qed.
Lemma dek_put_steps k v : steps P (dek_put k v).
Proof using. unfold dek_put. step_through. Qed.
Lemma proxy_put_steps k v : steps P (proxy_put k v).
Proof using. unfold proxy_put. step_through. Qed.
#[local] Hint Resolve dek_get_steps proxy_get_steps dek_put_steps proxy_put_steps : steps.
Lemma eligible_among_steps c p ms : steps P (eligible_among c p ms).
Proof using Hr. induction ms as [|[k m] ms IH]; cbn [eligible_among]; step_through. Qed.
#[local] Hint Resolve eligible_among_steps : steps.
Lemma load_eligible_steps g c p : steps P (load_eligible g c p).
Proof using Hr. unfold load_eligible. step_through. Qed.
#[local] Hint Resolve load_eligible_steps : steps.
Lemma is_still_eligible_steps g k r : steps P (is_still_eligible g k r).
Proof using Hr. unfold is_still_eligible. step_through. Qed.
Lemma quota_exceeded_steps em : steps P (quota_exceeded em).
Proof using Hd. unfold quota_exceeded. step_through. Qed.
Lemma unwrap_secret_steps k : steps P (unwrap_secret k).
Proof using Hr. unfold unwrap_secret. step_through. Qed.
Lemma inject_steps em r : steps P (inject em r).
Proof using. unfold inject_provider_config. step_through. Qed.
Lemma elapsed_steps t : steps P (elapsed_since t).
Proof using. unfold elapsed_since. step_through. Qed.
Section recording.
Context (k : uuid) (Hc : forall now h h', P (EvCounters k now h h')) (Hl : forall d d', P (EvRows k d d')).
Lemma redis_record_steps b : steps P (redis_record k b).
Proof using Hd Hc. unfold redis_record. step_through. Qed.
Lemma record_usage_event_steps a i o t st c : steps P (record_usage_event k a i o t st c).
Proof using Hl. unfold record_usage_event. step_through. Qed.
#[local] Hint Resolve redis_record_steps record_usage_event_steps : steps.
Lemma record_call_steps r q t c : steps P (record_call k r q t c).
Proof using Hd Hc Hl. unfold record_call. step_through. Qed.
End recording.
End added.
#[local] Hint Resolve dek_get_steps proxy_get_steps dek_put_steps proxy_put_steps load_eligible_steps is_still_eligible_steps
  quota_exceeded_steps unwrap_secret_steps inject_steps elapsed_steps redis_record_steps record_usage_event_steps record_call_steps : steps.

(** Every event of a call is one of these. *)
Definition any_event (e : event) : Prop := True.
Ltac any := solve [auto with steps | intros; exact I].
Lemma counter_steps P f : steps P (counter f).
Proof using. by intros s. Qed.
#[local] Hint Resolve counter_steps : steps.
Lemma adapter_invoke_steps P k p v q : P (EvInvoke k) -> (forall r, P (EvAnswer k r)) -> steps P (adapter_invoke invoke k p v q).
Proof using. intros H1 H2. unfold adapter_invoke. step_through. Qed.
Lemma call_member_steps P g em q : (forall d, P (EvRead d)) -> P EvRedisDown -> P (EvInvoke (em_key_id em)) ->
  (forall r, P (EvAnswer (em_key_id em) r)) -> (forall now h h', P (EvCounters (em_key_id em) now h h')) -> (forall d d', P (EvRows (em_key_id em) d d')) ->
  steps P (call_member g em q).
Proof using.
  intros. unfold ProviderRouter.call_member. cbv zeta. pose proof adapter_invoke_steps. step_through.
Qed.
Lemma exhaust_steps (P : event -> Prop) k n o : P (EvDone k) -> steps P (exhaust k n o).
Proof using. intros. unfold exhaust. step_through. Qed.
Lemma try_member_steps P fuel g em q st : (forall d, P (EvRead d)) -> P EvRedisDown -> P (EvInvoke (em_key_id em)) ->
  (forall r, P (EvAnswer (em_key_id em) r)) -> (forall now h h', P (EvCounters (em_key_id em) now h h')) -> (forall d d', P (EvRows (em_key_id em) d d')) ->
  P (EvDone (em_key_id em)) -> (forall us, P (EvSleep us)) -> steps P (try_member fuel g em q st).
Proof using.
  intros. revert st. induction fuel as [|fuel IH]; intros st; cbn [ProviderRouter.try_member]; [apply steps_throw|]. cbv zeta.
  pose proof call_member_steps. pose proof exhaust_steps. step_through.
Qed.

(** ** What a call may raise

    Besides what it raises itself: [XNoFuel] never, given enough fuel. *)
Definition plain_error (e : rexn) : Prop := match e with XRedisError | DecryptError | XOverflowError => True | _ => False end.
Definition call_error (e : rexn) : Prop := plain_error e \/ exists why detail, e = KeyGroupExhausted why detail.
Definition member_error (e : rexn) : Prop := plain_error e \/ e = KeyVanished.
Lemma counter_raises E f : raises E (counter f).
Proof using. by intros s e. Qed.
Lemma dek_get_raises E k : raises E (dek_get k).
Proof using. unfold dek_get. raise_through. Qed.
Lemma proxy_get_raises E k : raises E (proxy_get k).
Proof using. unfold proxy_get. raise_through. Qed.
Lemma dek_put_raises E k v : raises E (dek_put k v).
Proof using. unfold dek_put. raise_through. Qed.
Lemma proxy_put_raises E k v : raises E (proxy_put k v).
Proof using. unfold proxy_put. raise_through. Qed.
#[local] Hint Resolve counter_raises dek_get_raises proxy_get_raises dek_put_raises proxy_put_raises : raises.
Lemma eligible_among_raises E c p ms : raises E (eligible_among c p ms).
Proof using. induction ms as [|[k m] ms IH]; cbn [eligible_among]; raise_through. Qed.
#[local] Hint Resolve eligible_among_raises : raises.
Lemma load_eligible_raises E g c p : raises E (load_eligible g c p).
Proof using. unfold load_eligible. raise_through. Qed.
#[local] Hint Resolve load_eligible_raises : raises.
Lemma is_still_eligible_raises E g k r : raises E (is_still_eligible g k r).
Proof using. unfold is_still_eligible. raise_through. Qed.
Lemma elapsed_raises E t : raises E (elapsed_since t).
Proof using. unfold elapsed_since. raise_through. Qed.
Lemma adapter_invoke_raises E k p v q : raises E (adapter_invoke invoke k p v q).
Proof using. unfold adapter_invoke. raise_through. Qed.
Lemma record_usage_event_raises E k a i o t st c : raises E (record_usage_event k a i o t st c).
Proof using. unfold record_usage_event. raise_through. Qed.
#[local] Hint Resolve is_still_eligible_raises elapsed_raises adapter_invoke_raises record_usage_event_raises : raises.
Lemma quota_exceeded_raises (E : rexn -> Prop) em : E XRedisError -> raises E (quota_exceeded em).
Proof using. intros. unfold quota_exceeded. raise_through. Qed.
Lemma record_call_raises (E : rexn -> Prop) k r q t c : E XRedisError -> raises E (record_call k r q t c).
Proof using. intros. unfold record_call, redis_record. raise_through. Qed.
Lemma unwrap_secret_raises (E : rexn -> Prop) k : E KeyVanished -> E DecryptError -> raises E (unwrap_secret k).
Proof using. intros. unfold unwrap_secret. raise_through. Qed.
Lemma inject_raises (E : rexn -> Prop) em r : E DecryptError -> raises E (inject em r).
Proof using. intros. unfold inject_provider_config. raise_through. Qed.
#[local] Hint Resolve quota_exceeded_raises record_call_raises unwrap_secret_raises inject_raises : raises.
Lemma call_member_raises g em q : raises member_error (call_member g em q).
Proof using.
  assert (member_error XRedisError) by (by left). assert (member_error DecryptError) by (by left).
  assert (member_error KeyVanished) by (by right). unfold ProviderRouter.call_member. cbv zeta. raise_through.
Qed.
Lemma exhaust_raises E k n o : raises E (exhaust k n o).
Proof using. unfold exhaust. raise_through. Qed.
#[local] Hint Resolve call_member_raises exhaust_raises : raises.

(** The retries of a member fit the fuel. *)
Lemma try_member_raises fuel g em q st : retry_max (rotation (em_member em)) - attempts st < Z.of_nat fuel ->
  (0 < fuel)%nat -> raises plain_error (try_member fuel g em q st).
Proof using.
  revert st. induction fuel as [|fuel IH]; intros st Hf Hp; [lia|]. cbn [ProviderRouter.try_member]. cbv zeta.
  apply raises_attempt_bind with (E' := member_error); [apply call_member_raises| |].
  - intros e [He| ->]; [|raise_through]. destruct e; try done; by apply raises_throw.
  - intros [o r]. assert (plain_error XOverflowError) by done.
    destruct (reason o); try solve [raise_through].
    destruct (Z.leb_spec (attempts st + 1) (retry_max (rotation (em_member em)))); [|raise_through].
    apply raises_bind; [apply raises_random|]. intros x. destruct (backoff_delay_ms _ _ _); [|raise_through].
    apply raises_bind; [apply raises_sleep|]. intros _. apply IH; simpl; lia.
Qed.

(** ** One pass *)

(** No member's count of attempts is negative. *)
Definition counted_states (states : member_states) : Prop := forall k st, states !! k = Some st -> 0 <= attempts st.
Lemma try_member_attempts fuel g em q st s r st' s' : try_member fuel g em q st s = (inr (r, st'), s') -> attempts st <= attempts st'.
Proof using.
  revert st s. induction fuel as [|fuel IH]; intros st s; cbn [ProviderRouter.try_member]; [done|]. cbv zeta.
  unfold mbind at 1, rt_bind at 1, attempt at 1. destruct (call_member g em q s) as [[e1|[o r1]] s1]; simpl.
  - destruct e1; try done. cbn. by intros [= <- <- <-].
  - destruct (reason o); try (cbn; intros [= <- <- <-]; simpl; lia).
    destruct (_ <=? _); [|cbn; intros [= <- <- <-]; simpl; lia].
    unfold mbind at 1, rt_bind at 1, random at 1. cbn [fst snd]. destruct (backoff_delay_ms _ _ _); [|done].
    unfold mbind at 1, rt_bind at 1. destruct (sleep _ _) as [[e|[]] s2]; [done|]. intros H. apply IH in H. simpl in H. lia.
Qed.

End facts.
#[local] Hint Resolve dek_get_steps proxy_get_steps dek_put_steps proxy_put_steps load_eligible_steps is_still_eligible_steps
  quota_exceeded_steps unwrap_secret_steps inject_steps elapsed_steps redis_record_steps record_usage_event_steps record_call_steps
  counter_steps adapter_invoke_steps call_member_steps exhaust_steps try_member_steps : steps.

#[local] Hint Extern 3 => exact I : steps.

(** ** Reading a trace *)

(** The keys that went out and the answers that came back, latest first. *)
Definition invoked (l : list event) : list uuid := omap (fun e => match e with EvInvoke k => Some k | _ => None end) l.
Definition answers (l : list event) : list (uuid * option ProviderCallResult) :=
  omap (fun e => match e with EvAnswer k r => Some (k, r) | _ => None end) l.
(** The events after the last [EvPass]. *)
Fixpoint since_pass (l : list event) : list event :=
  match l with [] => [] | EvPass :: _ => [] | e :: l => e :: since_pass l end.
(** The tables read since the last call went out or the last sleep ended. *)
Fixpoint since (l : list event) : list KeyDb :=
  match l with
  | [] => [] | (EvInvoke _ | EvSleep _) :: _ => []
  | EvRead d :: l => d :: since l
  | _ :: l => since l
  end.

(** The gate: group [g] was seen to be allowed to spend the key, and the key's provider
    to serve the request, after the last call went out and the last sleep ended. *)
Definition seen (g : uuid) (q : ProviderRequest) (k : uuid) (l : list event) : Prop :=
  (exists d, d ∈ since l /\ may_spend d g k) /\
  (exists d key, d ∈ since l /\ get_active d k = Some key /\ serves (capability q) (r_provider q) key = true).
Fixpoint gated (ok : uuid -> list event -> Prop) (l : list event) : Prop :=
  match l with
  | [] => True
  | EvInvoke k :: l => ok k l /\ gated ok l
  | _ :: l => gated ok l
  end.
Definition still (e : event) : Prop := match e with EvInvoke _ | EvSleep _ => False | _ => True end.
Lemma gated_cons ok e l : still e -> gated ok l -> gated ok (e :: l).
Proof. by destruct e. Qed.
Lemma since_cons e l d : still e -> d ∈ since l -> d ∈ since (e :: l).
Proof. destruct e; simpl; try done. intros _ H. by apply elem_of_cons; right. Qed.
Lemma seen_cons g q k e l : still e -> seen g q k l -> seen g q k (e :: l).
Proof.
  intros He [(d & Hd & Hm) (d' & key & Hd' & Hk)]. split.
  - exists d. split; [by apply since_cons|done].
  - exists d', key. split; [by apply since_cons|done].
Qed.
Lemma is_read_still e : is_read e -> still e.
Proof. by destruct e. Qed.

Section gate.
Context (invoke : nat -> ApiKeyProvider -> string -> ProviderRequest -> option ProviderCallResult)
  (decrypt_envelope : EnvelopeRecord -> uuid -> option string)
  (unseal_headers : pydict -> uuid -> option pydict).

(** A loaded member is one the tables listed, and its key one they held. *)
Definition loaded (g : uuid) (c : ProviderCapability) (p : option ApiKeyProvider) (l : list event) (em : EligibleMember) : Prop :=
  (exists d, d ∈ since l /\ (em_key_id em, em_member em) ∈ list_ordered_carried d g) /\
  exists d, d ∈ since l /\ get_active d (em_key_id em) = Some (em_key em) /\ serves c p (em_key em) = true.
Lemma eligible_among_ht c p ms (T : list event -> Prop) : (forall e l, is_read e -> T l -> T (e :: l)) ->
  ht T (eligible_among c p ms) (fun r l => match r with
    | inl _ => False
    | inr ems => T l /\ ((fun em => (em_key_id em, em_member em)) <$> ems) `sublist_of` ms /\
        Forall (fun em => exists d, d ∈ since l /\ get_active d (em_key_id em) = Some (em_key em) /\ serves c p (em_key em) = true) ems
    end).
Proof.
  revert T. induction ms as [|[k m] ms IH]; intros T HT; cbn [eligible_among].
  { apply ht_ret. intros l Hl. by split_and!. }
  eapply ht_bind with (R := fun r l => match r with inl _ => False | inr key => T l /\ exists d, d ∈ since l /\ key = get_active d k end).
  - apply ht_query. intros l d Hl. split; [by apply HT|]. exists d. split; [apply list_elem_of_here|done].
  - done.
  - intros key. eapply ht_bind; [apply (IH (fun l => T l /\ exists d, d ∈ since l /\ key = get_active d k))|done|].
    + intros e l He [Hl (d & Hd & Hk)]. split; [by apply HT|]. exists d. split; [apply since_cons; [by apply is_read_still|done]|done].
    + intros ems. apply ht_ret. intros l ([Hl (d & Hd & Hk)] & Hsub & Hall). destruct key as [row|]; [|split_and!; [done|by constructor|done]].
      destruct (serves c p row) eqn:Es; [|split_and!; [done|by constructor|done]].
      split_and!; [done|simpl; by constructor|]. constructor; [|done]. by exists d.
Qed.
Lemma load_eligible_ht g c p (T : list event -> Prop) : (forall e l, is_read e -> T l -> T (e :: l)) ->
  ht T (load_eligible g c p) (fun r l => match r with
    | inl _ => False
    | inr ems => T l /\ NoDup (em_key_id <$> ems) /\ Forall (loaded g c p l) ems /\
        exists d, d ∈ since l /\ ((fun em => (em_key_id em, em_member em)) <$> ems) `sublist_of` list_ordered_carried d g
    end).
Proof.
  intros HT. unfold load_eligible.
  eapply ht_bind with (R := fun r l => match r with inl _ => False | inr ms => T l /\ exists d, d ∈ since l /\ ms = list_ordered_carried d g end).
  - apply ht_query. intros l d Hl. split; [by apply HT|]. exists d. split; [apply list_elem_of_here|done].
  - done.
  - intros ms. eapply ht_mono; [apply (eligible_among_ht c p ms (fun l => T l /\ exists d, d ∈ since l /\ ms = list_ordered_carried d g))|done|].
    + intros e l He [Hl (d & Hd & Hk)]. split; [by apply HT|]. exists d. split; [apply since_cons; [by apply is_read_still|done]|done].
    + intros [e|ems] l; [done|]. intros ([Hl (d & Hd & ->)] & Hsub & Hall). split_and!; [done| | |by exists d].
      * eapply sublist_NoDup; [apply (list_ordered_carried_keys d g)|].
        replace (em_key_id <$> ems) with (((fun em => (em_key_id em, em_member em)) <$> ems).*1); [by apply fmap_sublist|].
        by rewrite <- list_fmap_compose.
      * rewrite Forall_forall in Hall |- *. intros em Hem. split; [|by apply Hall]. exists d. split; [done|].
        eapply elem_of_sublist; [|exact Hsub]. apply list_elem_of_fmap. exists em. split; [done|by apply list_elem_of_In].
Qed.
Lemma loaded_seen g q l em : loaded g (capability q) (r_provider q) l em -> seen g q (em_key_id em) l.
Proof.
  intros [(d & Hd & Hin) (d' & Hd' & Hk & Hs)]. split.
  - exists d. split; [done|]. apply may_spend_listed. by exists (em_member em).
  - by exists d', (em_key em).
Qed.
Lemma is_still_eligible_ht g k q (T : list event -> Prop) : (forall e l, is_read e -> T l -> T (e :: l)) ->
  ht T (is_still_eligible g k q) (fun r l => match r with inl _ => False | inr b => T l /\ (b = true -> seen g q k l) end).
Proof.
  intros HT. unfold is_still_eligible. eapply ht_bind; [by apply load_eligible_ht|done|]. intros ems. apply ht_ret.
  intros l (Hl & _ & Hall & _). split; [done|]. intros (em & -> & Hem)%bool_decide_eq_true%list_elem_of_fmap.
  rewrite Forall_forall in Hall. by apply loaded_seen, Hall, list_elem_of_In.
Qed.
End gate.

(** ** The account *)

Definition charge (r : option ProviderCallResult) : Bucket :=
  match r with Some r => mkBucket (input_tokens r) (output_tokens r) 1 | None => mkBucket 0 0 1 end.
Abbreviation answer := (uuid * option ProviderCallResult)%type.
(** The writes of the counters and of the tables, latest first. *)
Definition counts (l : list event) : list (Z * hashes * hashes) :=
  omap (fun e => match e with EvCounters _ now h h' => Some (now, h, h') | _ => None end) l.
Definition logs (l : list event) : list (KeyDb * KeyDb) :=
  omap (fun e => match e with EvRows _ d d' => Some (d, d') | _ => None end) l.
(** The write added the charge of the answer to the minute of its key, and nothing else;
    the write added the row of the answer, if the key still has one for it to refer to. *)
Definition counted_for (a : answer) (c : Z * hashes * hashes) : Prop :=
  let '(now, h, h') := c in let m := (a.1, current_bucket now) in
  hash_at now h' m = bucket_add (hash_at now h m) (charge a.2) /\ forall m', m' <> m -> h' !! m' = h !! m'.
Definition logged_for (a : answer) (c : KeyDb * KeyDb) : Prop :=
  match api_keys c.1 !! a.1 with
  | Some _ => exists e, c.2 = with_events (cons e) c.1 /\ e_key_id e = a.1 /\ e_http_status e = http_status <$> a.2 /\
      mkBucket (e_input_tokens e) (e_output_tokens e) 1 = charge a.2
  | None => c.2 = c.1
  end.
Lemma charge_counted a now h : counted_for a (now, h, record_usage now a.1 (charge a.2) h).
Proof.
  unfold counted_for, record_usage. assert ((b_requests (charge a.2) =? 0) = false) as -> by by destruct (a.2).
  rewrite andb_false_r. cbv zeta. split; [|intros m' Hm; by apply lookup_insert_ne].
  unfold hash_at at 1. rewrite lookup_insert_eq. unfold BUCKET_TTL_US, BUCKET_US. by destruct (Z.ltb_spec now (now + 60 * 1000000 * (Z.of_nat WINDOW_BUCKETS + 1))); [|unfold WINDOW_BUCKETS in *; lia].
Qed.

(** Every call is answered, and unless Redis failed every answer has been counted and
    logged once, in the order of the calls. *)
Record accounted (l : list event) : Prop := mkAccounted {
  acc_answered : invoked l = (answers l).*1;
  acc_counted : EvRedisDown ∉ l -> Forall2 counted_for (answers l) (counts l) /\ Forall2 logged_for (answers l) (logs l);
}.
(** A call is out; its answer is not counted; it is counted and not logged. *)
Definition pending (k : uuid) (l : list event) : Prop :=
  invoked l = k :: (answers l).*1 /\ (EvRedisDown ∉ l -> Forall2 counted_for (answers l) (counts l) /\ Forall2 logged_for (answers l) (logs l)).
Definition owed (a : answer) (l : list event) : Prop :=
  invoked l = (answers l).*1 /\ (EvRedisDown ∉ l -> exists rest, answers l = a :: rest /\ Forall2 counted_for rest (counts l) /\ Forall2 logged_for rest (logs l)).
Definition unlogged (a : answer) (l : list event) : Prop :=
  invoked l = (answers l).*1 /\ (EvRedisDown ∉ l -> exists rest, answers l = a :: rest /\ Forall2 counted_for (answers l) (counts l) /\ Forall2 logged_for rest (logs l)).
Definition idle (e : event) : Prop := match e with EvInvoke _ | EvAnswer _ _ | EvCounters _ _ _ _ | EvRows _ _ _ => False | _ => True end.
Lemma idle_cons e l : idle e -> invoked (e :: l) = invoked l /\ answers (e :: l) = answers l /\
  counts (e :: l) = counts l /\ logs (e :: l) = logs l.
Proof. by destruct e. Qed.
Lemma down_cons e l : EvRedisDown ∉ e :: l -> EvRedisDown ∉ l.
Proof. intros H Hin. apply H. by apply elem_of_cons; right. Qed.
Ltac idle_step := let e := fresh "e" in let l := fresh "l" in let He := fresh in let Ha := fresh in let Hb := fresh in
  let Ei := fresh in let Ea := fresh in let En := fresh in let El := fresh in let Hd := fresh in
  intros e l He [Ha Hb]; destruct (idle_cons e l He) as (Ei & Ea & En & El);
  split; rewrite ?Ei, ?Ea; [exact Ha|intros Hd; rewrite ?En, ?El; apply Hb; by eapply down_cons].
Lemma accounted_idle : forall e l, idle e -> accounted l -> accounted (e :: l).
Proof. idle_step. Qed.
Lemma pending_idle k : forall e l, idle e -> pending k l -> pending k (e :: l).
Proof. idle_step. Qed.
Lemma owed_idle a : forall e l, idle e -> owed a l -> owed a (e :: l).
Proof. idle_step. Qed.
Lemma owed_down a l : owed a l -> accounted (EvRedisDown :: l).
Proof. intros [H1 H2]. split; [exact H1|]. intros H. destruct H. apply list_elem_of_here. Qed.

Lemma accounted_invoke k l : accounted l -> pending k (EvInvoke k :: l).
Proof. intros [H1 H2]. split; [simpl; by rewrite H1|]. intros Hd. apply down_cons in Hd. by apply H2. Qed.
Lemma pending_answer k r l : pending k l -> owed (k, r) (EvAnswer k r :: l).
Proof. intros [H1 H2]. split; [exact H1|]. intros Hd. apply down_cons in Hd. exists (answers l). split; [done|by apply H2]. Qed.
Lemma redis_record_ht k r b : b = charge r ->
  ht (owed (k, r)) (redis_record k b) (fun o => match o with inl e => fun l => e = XRedisError /\ accounted l | inr _ => unlogged (k, r) end).
Proof.
  intros ->. unfold redis_record. apply ht_on_redis; [intros l Hl; split; [done|by eapply owed_down]|].
  apply ht_change_redis. intros l now h [H1 H2]. split; [exact H1|]. intros Hd. apply down_cons in Hd.
  destruct (H2 Hd) as (rest & E & Hc & Hl). exists rest. split; [exact E|]. split; [|exact Hl].
  change (answers (EvCounters k now h (record_usage now k (charge r) h) :: l)) with (answers l). rewrite E.
  constructor; [|exact Hc]. apply (charge_counted (k, r)).
Qed.
Lemma record_usage_event_ht k r a i o t st c : mkBucket i o 1 = charge r -> st = http_status <$> r ->
  ht (unlogged (k, r)) (record_usage_event k a i o t st c) (fun r => match r with inl _ => fun _ => False | inr _ => accounted end).
Proof.
  intros Hb Hs. unfold record_usage_event. apply ht_awaited, ht_change_db. intros l now d [H1 H2]. split; [exact H1|].
  intros Hd. apply down_cons in Hd. destruct (H2 Hd) as (rest & E & Hc & Hl). split; [exact Hc|].
  change (answers (EvRows _ _ _ :: l)) with (answers l). rewrite E. constructor; [|exact Hl].
  unfold logged_for. cbn [fst snd]. destruct (api_keys d !! k); [|done]. by eexists.
Qed.
Lemma record_call_ht k r q t c : ht (owed (k, r)) (record_call k r q t c)
  (fun o => match o with inl e => fun l => e = XRedisError /\ accounted l | inr _ => accounted end).
Proof.
  unfold record_call. destruct r as [r|].
  - eapply ht_bind; [by apply redis_record_ht|done|]. intros u. eapply ht_mono; [by apply (record_usage_event_ht k (Some r))|done|]. by intros [e|[]] l H.
  - eapply ht_bind; [by apply redis_record_ht|done|]. intros u. eapply ht_mono; [by apply (record_usage_event_ht k None)|done|]. by intros [e|[]] l H.
Qed.

(** ** One provider call *)
Section one_call.
Context (invoke : nat -> ApiKeyProvider -> string -> ProviderRequest -> option ProviderCallResult)
  (decrypt_envelope : EnvelopeRecord -> uuid -> option string)
  (unseal_headers : pydict -> uuid -> option pydict).
#[local] Abbreviation call_member := (call_member invoke decrypt_envelope unseal_headers).

Definition ok_or {A} (T : list event -> Prop) (X : rexn -> list event -> Prop) (r : rexn + A) : list event -> Prop :=
  match r with inl e => X e | inr _ => T end.

Lemma adapter_invoke_gate ok k p v q :
  ht (fun l => gated ok l /\ ok k l) (adapter_invoke invoke k p v q) (fun _ => gated ok).
Proof.
  unfold adapter_invoke.
  apply (ht_steps_bind (fun _ => False)); [apply counter_steps|by intros e l []|by intros e l []|]. intros n.
  eapply ht_bind with (R := fun _ => gated ok); [|done|].
  - apply ht_note. intros l [H1 H2]. by split.
  - intros _. apply (ht_steps still); [|intros e l; apply gated_cons]. apply steps_awaited. step_through.
Qed.
Lemma call_member_gate g em q : ht (gated (seen g q)) (call_member g em q) (fun _ => gated (seen g q)).
Proof.
  unfold ProviderRouter.call_member. cbv zeta.
  eapply ht_bind; [apply is_still_eligible_ht; intros e l He; apply gated_cons; by apply is_read_still|done|].
  intros [|]; simpl negb; cbv iota; [|apply ht_throw; by intros l []].
  set (T := fun l => gated (seen g q) l /\ seen g q (em_key_id em) l).
  assert (HT : forall e l, still e -> T l -> T (e :: l)).
  { intros e l He [H1 H2]. split; [by apply gated_cons|by apply seen_cons]. }
  eapply (ht_mono T _ _ (fun _ => gated (seen g q))); [|intros l [H1 H2]; by split; [|apply H2]|done].
  apply (ht_steps_bind still); [by auto with steps|exact HT|by intros e l []|]. intros q'.
  apply (ht_steps_bind still); [by auto with steps|exact HT|by intros e l []|]. intros v.
  apply (ht_steps_bind still); [by auto with steps|exact HT|by intros e l []|]. intros t0.
  eapply ht_bind; [apply adapter_invoke_gate|done|]. intros r.
  apply (ht_steps still); [|intros e l; apply gated_cons]. step_through.
Qed.

Lemma adapter_invoke_account k p v q : ht accounted (adapter_invoke invoke k p v q)
  (fun r => match r with inl _ => fun _ => False | inr r => owed (k, r) end).
Proof.
  unfold adapter_invoke. eapply ht_bind with (R := fun r => match r with inl _ => fun _ => False | inr _ => accounted end); [by intros s|done|].
  intros n. eapply ht_bind with (R := fun r => match r with inl _ => fun _ => False | inr _ => pending k end); [apply ht_note, accounted_invoke|done|].
  intros _. apply ht_awaited. cbv zeta.
  eapply ht_bind with (R := fun r => match r with inl _ => fun _ => False | inr _ => owed (k, invoke n p v q) end);
    [apply ht_note, pending_answer|done|]. intros _. by apply ht_ret.
Qed.
(** The answer is recorded before the call is over. *)
Lemma recorded k r q t c {A} (f : unit -> rt A) : (forall u, ht accounted (f u) (fun _ => accounted)) ->
  ht (owed (k, r)) (record_call k r q t c ≫= f) (fun _ => accounted).
Proof. intros Hf. eapply ht_bind; [apply record_call_ht|by intros e l []|exact Hf]. Qed.

Lemma call_member_account g em q : ht accounted (call_member g em q) (fun _ => accounted).
Proof.
  unfold ProviderRouter.call_member. cbv zeta.
  apply (ht_steps_bind idle); [by auto with steps|apply accounted_idle|done|]. intros [|]; simpl negb; cbv iota; [|by apply ht_throw].
  apply (ht_steps_bind idle); [by auto with steps|apply accounted_idle|done|]. intros q'.
  apply (ht_steps_bind idle); [by auto with steps|apply accounted_idle|done|]. intros v.
  apply (ht_steps_bind idle); [by auto with steps|apply accounted_idle|done|]. intros t0.
  eapply ht_bind; [apply adapter_invoke_account|done|].
  intros r. eapply ht_bind with (R := fun o => match o with inl _ => fun _ => False | inr _ => owed (em_key_id em, r) end); [by intros s|done|].
  intros ms. destruct r as [r|]; apply recorded; intros u; by apply ht_ret.
Qed.
End one_call.
