(* ===== verification/RouterRotation.v ===== *)
(** * The provider router: the rotation

    What a unary call does with the members it loaded, under every environment: the
    order it tries them in, how often, and what its outcome says of the providers'
    answers.  The theorems about whole calls are in [RouterClaims]. *)

From S2P Require Import Prelude PyFloat PyValue KeyPolicy UsageBuckets KeyStore RouterBase ProviderRouter RouterFacts.

(** What the policy of a member makes of an answer; an exception counts as retryable. *)
Definition verdict (p : RotationPolicy) (a : option ProviderCallResult) : RotationReason :=
  match a with Some r => reason (classify_http (http_status r) p) | None => R_RETRY end.
Definition of_call (k : uuid) (e : event) : Prop :=
  match e with
  | EvRead _ | EvRedisDown => True
  | EvInvoke k' | EvAnswer k' _ | EvCounters k' _ _ _ | EvRows k' _ _ => k' = k
  | _ => False
  end.
(** Beside the call itself. *)
Definition aside (k : uuid) (e : event) : Prop :=
  match e with EvRead _ | EvRedisDown => True | EvCounters k' _ _ _ | EvRows k' _ _ => k' = k | _ => False end.
(** [k]'s tries; a member's budget of them. *)
Definition tries (k : uuid) (l : list event) : nat := length (List.filter (fun k' => bool_decide (k' = k)) (invoked l)).
Definition budget (em : EligibleMember) : nat := S (Z.to_nat (retry_max (rotation (em_member em)))).

Section segment.
Context (invoke : nat -> ApiKeyProvider -> string -> ProviderRequest -> option ProviderCallResult)
  (decrypt_envelope : EnvelopeRecord -> uuid -> option string)
  (unseal_headers : pydict -> uuid -> option pydict)
  (l0 : list event) (em : EligibleMember).
#[local] Abbreviation k := (em_key_id em).
#[local] Abbreviation policy := (rotation (em_member em)).

(** What one call has added to [l0]. *)
Definition segment (out : list uuid) (ans : list (uuid * option ProviderCallResult)) (l : list event) : Prop :=
  exists new, l = new ++ l0 /\ Forall (of_call k) new /\ invoked new = out /\ answers new = ans.
Lemma segment_aside out ans : forall e l, aside k e -> segment out ans l -> segment out ans (e :: l).
Proof.
  intros e l He (new & -> & Hf & Hi & Ha). exists (e :: new). split_and!; [done| | |].
  - constructor; [|done]. by destruct e.
  - by destruct e.
  - by destruct e.
Qed.
Definition called (r : rexn + ErrorOutcome * option ProviderCallResult) (l : list event) : Prop :=
  match r with
  | inr (o, res) => exists a, segment [k] [(k, a)] l /\ reason o = verdict policy a /\
      res = (if bool_decide (verdict policy a = R_OK) then a else None) /\
      (verdict policy a <> R_OK -> provider_detail o = a ≫= provider_detail_of)
  | inl e => segment [] [] l \/ e = XRedisError /\ exists a, segment [k] [(k, a)] l
  end.

#[local] Hint Resolve is_still_eligible_steps inject_steps unwrap_secret_steps elapsed_steps record_call_steps counter_steps : steps.
#[local] Hint Extern 3 => exact I : steps.
#[local] Hint Extern 3 => reflexivity : steps.
Lemma call_member_segment g q :
  ht (fun l => l = l0) (call_member invoke decrypt_envelope unseal_headers g em q) called.
Proof.
  eapply (ht_mono (segment [] []) _ _ called); [|intros l ->; by exists []|done].
  unfold call_member. cbv zeta.
  apply (ht_steps_bind (aside k)); [by auto with steps|apply segment_aside|by left|]. intros [|]; simpl negb; cbv iota; [|apply ht_throw; by left].
  apply (ht_steps_bind (aside k)); [by auto with steps|apply segment_aside|by left|]. intros q'.
  apply (ht_steps_bind (aside k)); [by auto with steps|apply segment_aside|by left|]. intros v.
  apply (ht_steps_bind (aside k)); [by auto with steps|apply segment_aside|by left|]. intros t0.
  eapply ht_bind with (R := fun r => match r with inl _ => fun _ => False | inr r => segment [k] [(k, r)] end); [|done|].
  { unfold adapter_invoke. eapply ht_bind with (R := fun r => match r with inl _ => fun _ => False | inr _ => segment [] [] end); [by intros s|done|]. intros n.
    eapply ht_bind with (R := fun r => match r with inl _ => fun _ => False | inr _ => segment [k] [] end); [|done|].
    - apply ht_note. intros l (new & -> & Hf & Hi & Ha). exists (EvInvoke k :: new). split_and!; [done|by constructor|simpl; by rewrite Hi|done].
    - intros _. apply ht_awaited. cbv zeta. set (r := invoke _ _ _ _).
      eapply ht_bind with (R := fun o => match o with inl _ => fun _ => False | inr _ => segment [k] [(k, r)] end); [|done|].
      + apply ht_note. intros l (new & -> & Hf & Hi & Ha). exists (EvAnswer k r :: new). split_and!; [done|by constructor|done|simpl; by rewrite Ha].
      + intros _. by apply ht_ret. }
  intros r. eapply ht_bind with (R := fun o => match o with inl _ => fun _ => False | inr _ => segment [k] [(k, r)] end); [by intros s|done|].
  intros ms. assert (Hrec : forall r' c q', ht (segment [k] [(k, r)]) (record_call k r' q' ms c)
    (fun o => match o with inl e => fun l => e = XRedisError /\ segment [k] [(k, r)] l | inr _ => segment [k] [(k, r)] end)).
  { intros r' c q1 s Hs. pose proof (record_call_raises (fun e => e = XRedisError) k r' q1 ms c eq_refl s) as Hr.
    assert (Hst : steps (aside k) (record_call k r' q1 ms c)) by auto with steps.
    apply (ht_steps _ _ _ Hst (segment_aside _ _)) in Hs. destruct (record_call k r' q1 ms c s) as [[e|[]] s']; [|done].
    split; [by apply Hr|done]. }
  destruct r as [r|].
  - eapply ht_bind; [apply Hrec|intros e l [He H]; right; split; [exact He|by exists (Some r)]|]. intros u. apply ht_ret.
    intros l H. exists (Some r). simpl. destruct (decide (reason (classify_http (http_status r) policy) = R_OK)) as [E|E].
    + rewrite !bool_decide_true by done. split_and!; [done..|]. by rewrite E.
    + rewrite !bool_decide_false by done. by split_and!.
  - eapply ht_bind; [apply Hrec|intros e l [He H]; right; split; [exact He|by exists None]|]. intros u. apply ht_ret.
    intros l H. exists None. by split_and!.
Qed.
End segment.

(** ** One call to the next *)

Section rotation.
Context (adapters : ApiKeyProvider -> adapter_kind)
  (invoke : nat -> ApiKeyProvider -> string -> ProviderRequest -> option ProviderCallResult)
  (decrypt_envelope : EnvelopeRecord -> uuid -> option string)
  (unseal_headers : pydict -> uuid -> option pydict)
  (rnd : nat -> N) (g : uuid) (q : ProviderRequest) (ms : list EligibleMember).
Hypothesis Hms : NoDup (em_key_id <$> ms).
#[local] Abbreviation call_member := (call_member invoke decrypt_envelope unseal_headers g).
#[local] Abbreviation try_member := (try_member invoke decrypt_envelope unseal_headers rnd).
#[local] Abbreviation visit := (visit adapters invoke decrypt_envelope unseal_headers rnd g q).
#[local] Abbreviation one_pass := (one_pass adapters invoke decrypt_envelope unseal_headers rnd g q).
#[local] Abbreviation rotate := (rotate adapters invoke decrypt_envelope unseal_headers rnd).

(** An answer after which the rotation goes on. *)
Definition goes_on (ka : uuid * option ProviderCallResult) : Prop :=
  exists em, em ∈ ms /\ em_key_id em = ka.1 /\ verdict (rotation (em_member em)) ka.2 <> R_OK /\ verdict (rotation (em_member em)) ka.2 <> R_ABORT.
Definition all_go_on (l : list event) : Prop := Forall goes_on (answers l).

(** Key [k] may be tried: every member before it was given up, or was found over its
    limit in this pass. *)
Definition set_aside (em : EligibleMember) (l : list event) : Prop :=
  EvDone (em_key_id em) ∈ l \/ EvBlocked (em_key_id em) ∈ since_pass l.
Definition in_turn (k : uuid) (l : list event) : Prop :=
  exists pre em post, ms = pre ++ em :: post /\ em_key_id em = k /\ (forall em', em' ∈ pre -> set_aside em' l).
(** What holds of every trace of a rotation. *)
Record fair (l : list event) : Prop := mkFair {
  fair_turn : gated in_turn l;
  fair_tries : forall em, em ∈ ms -> (tries (em_key_id em) l <= budget em)%nat;
}.

Definition no_pass (e : event) : Prop := match e with EvPass => False | _ => True end.
Lemma set_aside_cons em e l : no_pass e -> set_aside em l -> set_aside em (e :: l).
Proof using. intros He [H|H]; [left; by apply elem_of_cons; right|right]. destruct e; try done; by apply elem_of_cons; right. Qed.
Lemma in_turn_cons k e l : no_pass e -> in_turn k l -> in_turn k (e :: l).
Proof using. intros He (pre & em & post & E & Ek & H). exists pre, em, post. split_and!; [done..|]. intros em' Hin. by apply set_aside_cons, H. Qed.
(** A call of a key in its turn. *)
Lemma gated_call k new l : Forall (of_call k) new -> in_turn k l -> gated in_turn l -> gated in_turn (new ++ l) /\ in_turn k (new ++ l).
Proof using.
  intros Hf Ht Hg. induction Hf as [|e new He Hf [IH1 IH2]]; [done|]. split.
  - destruct e; simpl in *; try done. by subst.
  - simpl. apply in_turn_cons; [by destruct e|done].
Qed.
Lemma tries_app k new l : tries k (new ++ l) = (tries k new + tries k l)%nat.
Proof using. unfold tries, invoked. by rewrite omap_app, List.filter_app, length_app. Qed.
Lemma tries_cons_quiet k e l : match e with EvInvoke _ => False | _ => True end -> tries k (e :: l) = tries k l.
Proof using. by destruct e. Qed.
Lemma tries_single k' k new : invoked new = [k] -> tries k' new = if bool_decide (k = k') then 1%nat else 0%nat.
Proof using. intros H. unfold tries. rewrite H. simpl. by case_bool_decide. Qed.
Lemma tries_none k' new : invoked new = [] -> tries k' new = 0%nat.
Proof using. intros H. unfold tries. by rewrite H. Qed.

(** ** The retries of a member *)

Section member.
Context (em : EligibleMember) (Hem : em ∈ ms) (l0 : list event).
#[local] Abbreviation k := (em_key_id em).
#[local] Abbreviation policy := (rotation (em_member em)).

(** What the retries add: calls, sleeps, and at last the note that the member is done. *)
Definition of_try (e : event) : Prop := of_call k e \/ match e with EvSleep _ => True | EvDone k' => k' = k | _ => False end.
Definition others_kept (l : list event) : Prop := exists new, l = new ++ l0 /\ Forall of_try new.
Lemma others_cons e l : of_try e -> others_kept l -> others_kept (e :: l).
Proof using. intros He (new & -> & Hf). exists (e :: new). split; [done|by constructor]. Qed.
(** After [n] calls that went on. *)
Record trying (n : nat) (l : list event) : Prop := mkTrying {
  t_fair : gated in_turn l; t_turn : in_turn k l; t_on : all_go_on l; t_tries : tries k l = n; t_others : others_kept l;
}.
Definition served (r : ProviderCallResult) (l : list event) : Prop :=
  exists rest, answers l = (k, Some r) :: rest /\ verdict policy (Some r) = R_OK /\ Forall goes_on rest.
Definition rejected (detail : option string) (l : list event) : Prop :=
  exists r rest, answers l = (k, Some r) :: rest /\ verdict policy (Some r) = R_ABORT /\ detail = provider_detail_of r /\ Forall goes_on rest.
Definition tried (r : rexn + option ProviderCallResult * MemberState) (l : list event) : Prop :=
  gated in_turn l /\ (tries k l <= budget em)%nat /\ others_kept l /\
  match r with
  | inl _ => True
  | inr (Some res, _) => served res l
  | inr (None, st) => exhausted st = true /\ quota_blocked st = false /\ EvDone k ∈ l /\
      match last_outcome st with
      | Some o => if bool_decide (reason o = R_ABORT) then rejected (provider_detail o) l else all_go_on l
      | None => False
      end
  end.

(** A call was answered with [a], and the outcome says so. *)
Definition answered (n : nat) (o : ErrorOutcome) (res : option ProviderCallResult) (l : list event) : Prop :=
  exists a rest, gated in_turn l /\ in_turn k l /\ tries k l = S n /\ others_kept l /\
    answers l = (k, a) :: rest /\ Forall goes_on rest /\ reason o = verdict policy a /\
    res = (if bool_decide (verdict policy a = R_OK) then a else None) /\
    (verdict policy a <> R_OK -> provider_detail o = a ≫= provider_detail_of).
(** The step of one call, on any assertion about the trace it starts from. *)
Lemma call_member_step n :
  ht (trying n) (call_member em q) (fun r l => match r with
    | inr (o, res) => answered n o res l
    | inl e => (e = KeyVanished -> trying n l) /\ gated in_turn l /\ (tries k l <= S n)%nat /\ others_kept l
    end).
Proof using Hem.
  intros s [Hg Ht Ho Hn Hk]. pose proof (call_member_segment invoke decrypt_envelope unseal_headers (trace s) em g q s eq_refl) as H.
  assert (Hok : forall new, Forall (of_call k) new -> gated in_turn (new ++ trace s) /\ in_turn k (new ++ trace s) /\ others_kept (new ++ trace s)).
  { intros new Hf. destruct (gated_call k new (trace s) Hf Ht Hg) as [H1 H2]. split_and!; [done..|].
    destruct Hk as (new0 & -> & Hf0). exists (new ++ new0). split; [by rewrite (assoc_L (++))|]. apply Forall_app. split; [|done].
    eapply Forall_impl; [|exact Hf]. by left. }
  destruct (call_member em q s) as [[e|[o res]] s']; cbn [fst snd called] in *.
  - destruct H as [(new & -> & Hf & Hi & Ha)|(-> & a & new & -> & Hf & Hi & Ha)]; destruct (Hok _ Hf) as (H1 & H2 & H3).
    + split_and!; [|done| |done]; [|rewrite tries_app, (tries_none k new Hi), Hn; lia]. intros _. split; [done..| | |done].
      * unfold all_go_on, answers in *. by rewrite omap_app, Ha.
      * by rewrite tries_app, (tries_none k new Hi), Hn.
    + split_and!; [done|done| |done]. rewrite tries_app, (tries_single k k new Hi), Hn, bool_decide_true by done. lia.
  - destruct H as (a & (new & -> & Hf & Hi & Ha) & Hr & Hres & Hd). destruct (Hok _ Hf) as (H1 & H2 & H3).
    exists a, (answers (trace s)). split_and!; try done.
    + by rewrite tries_app, (tries_single k k new Hi), Hn, bool_decide_true.
    + unfold answers in *. by rewrite omap_app, Ha.
Qed.

Lemma goes_on_here a rest l : answers l = (k, a) :: rest -> Forall goes_on rest -> verdict policy a <> R_OK -> verdict policy a <> R_ABORT -> all_go_on l.
Proof using Hem. intros E Hr H1 H2. unfold all_go_on. rewrite E. constructor; [|done]. by exists em. Qed.

(** Giving the member up. *)
Definition ended (o : ErrorOutcome) (l : list event) : Prop :=
  gated in_turn l /\ (tries k l <= budget em)%nat /\ others_kept l /\
  if bool_decide (reason o = R_ABORT) then rejected (provider_detail o) l else all_go_on l.
Lemma exhaust_tried n o : ht (ended o) (_ ← note (EvDone k); mret (None, mkState n (Some o) false true)) tried.
Proof using.
  eapply ht_bind with (R := fun r => match r with inl _ => fun _ => False | inr _ => fun l => EvDone k ∈ l /\ ended o l end); [|done|].
  - apply ht_note. intros l (H1 & H2 & H3 & H4). split; [apply list_elem_of_here|]. split_and!; [done..| |].
    + apply others_cons; [by right|done].
    + case_bool_decide; done.
  - intros u. apply ht_ret. intros l (Hd & H1 & H2 & H3 & H4). by split_and!.
Qed.
Lemma exhaust_bind n o : ht (ended o) (st' ← exhaust k n o; mret (None, st')) tried.
Proof using. intros s H. exact (exhaust_tried n o s H). Qed.

Lemma trying_more n e l : of_try e -> match e with EvInvoke _ | EvAnswer _ _ | EvPass => False | _ => True end ->
  trying n l -> trying n (e :: l).
Proof using.
  intros He He' [L1 L2 L3 L4 L5]. split; [by destruct e|apply in_turn_cons; [by destruct e|done]| | |by apply others_cons].
  - unfold all_go_on in *. by destruct e.
  - by destruct e.
Qed.
Lemma trying_tried n l (e : rexn) : (n <= budget em)%nat -> trying n l -> tried (inl e) l.
Proof using. intros Hn [L1 L2 L3 L4 L5]. split_and!; [done|by rewrite L4|done|done]. Qed.
Lemma answered_ended n o res l : (n <= Z.to_nat (retry_max policy))%nat -> reason o <> R_OK -> answered n o res l -> ended o l.
Proof using Hem.
  intros Hb Ho (a & rest & H1 & H2 & H3 & H4 & H5 & H6 & H7 & H8 & H9). split_and!; [done|unfold budget; lia|done|]. clear H8. case_bool_decide as Ha.
  - destruct a as [r|]; [|cbn in H7; congruence]. exists r, rest. split_and!; [done|congruence| |done]. apply H9. congruence.
  - eapply goes_on_here; [done|done|congruence|congruence].
Qed.
Lemma answered_trying n o res l : reason o = R_RETRY -> answered n o res l -> trying (S n) l.
Proof using Hem.
  intros Ho (a & rest & H1 & H2 & H3 & H4 & H5 & H6 & H7 & H8 & H9). split; try done. eapply goes_on_here; [done|done|congruence|congruence].
Qed.
Lemma answered_served n o res l st : (n <= Z.to_nat (retry_max policy))%nat -> reason o = R_OK -> answered n o res l -> tried (inr (res, st)) l.
Proof using.
  intros Hb Ho (a & rest & H1 & H2 & H3 & H4 & H5 & H6 & H7 & H8 & H9). split_and!; [done|unfold budget; lia|done|].
  rewrite bool_decide_true in H8 by congruence. subst res. destruct a as [r|]; [|cbn in H7; congruence].
  exists rest. split_and!; [done|congruence|done].
Qed.

Lemma try_member_tried fuel n st : attempts st = Z.of_nat n -> (n <= Z.to_nat (retry_max policy))%nat ->
  ht (trying n) (try_member fuel g em q st) tried.
Proof using Hem.
  revert n st. induction fuel as [|fuel IH]; intros n st Hn Hb; cbn [ProviderRouter.try_member].
  { apply ht_throw. intros l Hl. apply (trying_tried n); [unfold budget; lia|done]. }
  cbv zeta. eapply ht_attempt_bind; [apply call_member_step|]. intros [e|[o res]].
  - destruct (decide (e = KeyVanished)) as [->|Hne].
    + eapply ht_mono; [apply exhaust_bind| |done]. intros l (H & H1 & H2 & H3). destruct (H eq_refl) as [_ _ H4 H5 _].
      split_and!; [done| |done|done]. rewrite H5. unfold budget. lia.
    + assert (E : forall T, (forall l, T l -> tried (inl e) l) -> ht T (match e with
        | KeyVanished => st' ← exhaust k (attempts st) vanished_outcome; mret (None, st') | _ => throw e end) tried).
      { intros T HT. destruct e; try done; by apply ht_throw. }
      apply E. intros l (_ & H1 & H2 & H3). split_and!; [done| |done|done]. unfold budget. lia.
  - change (ht (answered n o res) (match reason o with
      | R_OK => mret (res, mkState (attempts st + 1) (Some o) (quota_blocked st) (exhausted st))
      | R_RETRY => if attempts st + 1 <=? retry_max policy then
          r ← random rnd;
          match backoff_delay_ms (attempts st + 1) policy r with
          | None => throw XOverflowError
          | Some d => _ ← sleep (d * 1000); try_member fuel g em q (mkState (attempts st + 1) (Some o) (quota_blocked st) (exhausted st))
          end else st' ← exhaust k (attempts st + 1) o; mret (None, st')
      | _ => st' ← exhaust k (attempts st + 1) o; mret (None, st') end) tried).
    assert (Hend : reason o <> R_OK -> ht (answered n o res) (st' ← exhaust k (attempts st + 1) o; mret (None, st')) tried).
    { intros Ho. eapply ht_mono; [apply exhaust_bind| |done]. intros l. by apply answered_ended. }
    destruct (reason o) eqn:Eo; try (by apply Hend).
    + apply ht_ret. intros l. by apply answered_served.
    + destruct (Z.leb_spec (attempts st + 1) (retry_max policy)) as [Hle|Hgt]; [|by apply Hend].
      eapply (ht_mono (trying (S n)) _ _ tried); [|intros l; by apply answered_trying|done].
      assert (Hexn : forall e l, trying (S n) l -> tried (inl e) l) by (intros e l; apply trying_tried; unfold budget; lia).
      apply (ht_steps_bind (fun _ => False)); [apply steps_random|by intros e l []|exact Hexn|].
      intros x. destruct (backoff_delay_ms _ _ _) as [d|]; [|apply ht_throw; apply Hexn].
      eapply ht_bind with (R := fun r => match r with inl _ => fun _ => False | inr _ => trying (S n) end); [|done|].
      * apply ht_sleep. intros l. apply trying_more; [by right|done].
      * intros u. apply IH; simpl; lia.
Qed.
End member.

(** ** One turn of the loop *)

(** What a trace of [of_try] events leaves of the other members. *)
Lemma others_done em l0 l k' : k' <> em_key_id em -> others_kept em l0 l -> (EvDone k' ∈ l <-> EvDone k' ∈ l0).
Proof using.
  intros Hk (new & -> & Hf). rewrite elem_of_app. split; [intros [H|H]; [|done]|by right].
  rewrite Forall_forall in Hf. apply list_elem_of_In, Hf in H. destruct H as [H|H]; simpl in H; [done|by subst].
Qed.
Lemma others_tries em l0 l k' : k' <> em_key_id em -> others_kept em l0 l -> tries k' l = tries k' l0.
Proof using.
  intros Hk (new & -> & Hf). rewrite tries_app. cut (tries k' new = 0%nat); [lia|].
  induction Hf as [|e new He Hf IH]; [done|]. destruct e; try exact IH. unfold tries in *. simpl.
  destruct He as [He|He]; simpl in He; [|done]. by rewrite bool_decide_false by congruence.
Qed.
Lemma others_pass em l0 l e : others_kept em l0 l -> e ∈ since_pass l0 -> e ∈ since_pass l.
Proof using.
  intros (new & -> & Hf) He. induction Hf as [|v new Hv Hf IH]; [done|]. destruct v; simpl; try (by apply elem_of_cons; right).
  by destruct Hv.
Qed.

Record passing (pre : list EligibleMember) (states : member_states) (l : list event) : Prop := mkPassing {
  p_fair : fair l;
  p_on : all_go_on l;
  p_state : forall em, em ∈ ms -> exists st, states !! em_key_id em = Some st /\ (exhausted st = true <-> EvDone (em_key_id em) ∈ l) /\
    (exhausted st = false -> attempts st = 0 /\ tries (em_key_id em) l = 0%nat);
  p_dom : forall k st, states !! k = Some st -> exists em, em ∈ ms /\ em_key_id em = k;
  p_pre : forall em, em ∈ pre -> EvDone (em_key_id em) ∈ l \/
    (exists st, states !! em_key_id em = Some st /\ quota_blocked st = true) /\ EvBlocked (em_key_id em) ∈ since_pass l;
}.
Lemma same_key em em' : em ∈ ms -> em' ∈ ms -> em_key_id em = em_key_id em' -> em = em'.
Proof using Hms.
  clear -Hms. induction ms as [|x l IH]; intros H1 H2 E; [by apply not_elem_of_nil in H1|]. apply list.NoDup_cons in Hms as [Hx Hl].
  apply elem_of_cons in H1 as [->|H1], H2 as [->|H2]; [done| | |by apply IH]; exfalso; apply Hx; apply list_elem_of_fmap; eauto.
Qed.
Lemma passing_turn pre em post states l : ms = pre ++ em :: post -> passing pre states l -> in_turn (em_key_id em) l.
Proof using.
  intros E H. exists pre, em, post. split_and!; [done|done|]. intros em' Hin. destruct (p_pre _ _ _ H em' Hin) as [Hd|[_ Hb]]; [by left|by right].
Qed.
(** Events that say nothing of the calls. *)
Definition aloof (e : event) : Prop := match e with EvRead _ | EvRedisDown | EvBlocked _ => True | _ => False end.
Lemma fair_aloof e l : match e with EvInvoke _ => False | _ => True end -> fair l -> fair (e :: l).
Proof using. intros He [H1 H2]. split; [by destruct e|]. intros em Hem. rewrite tries_cons_quiet by done. by apply H2. Qed.
Lemma passing_aloof pre states : forall e l, aloof e -> passing pre states l -> passing pre states (e :: l).
Proof using.
  intros e l He [H1 H2 H3 H4 H5]. split; [by apply fair_aloof; [destruct e|]|unfold all_go_on in *; by destruct e| |done|].
  - intros em Hem. destruct (H3 em Hem) as (st & S1 & S2 & S3). exists st. split_and!; [done| |by rewrite tries_cons_quiet by by destruct e].
    rewrite elem_of_cons. split; [right; by apply S2|intros [Ee|Hd]; [by subst|by apply S2]].
  - intros em Hem. destruct (H5 em Hem) as [Hd|[Hb Hp]]; [left; by apply elem_of_cons; right|right; split; [done|]].
    destruct e; try done; by apply elem_of_cons; right.
Qed.

(** The state of a member that was visited, the others' as it was. *)
Lemma passing_extend pre em st states l l' : em ∈ ms -> passing pre states l -> fair l' -> all_go_on l' ->
  (exhausted st = true <-> EvDone (em_key_id em) ∈ l') -> (exhausted st = false -> attempts st = 0 /\ tries (em_key_id em) l' = 0%nat) ->
  (EvDone (em_key_id em) ∈ l' \/ quota_blocked st = true /\ EvBlocked (em_key_id em) ∈ since_pass l') ->
  (forall k, k <> em_key_id em -> (EvDone k ∈ l' <-> EvDone k ∈ l) /\ tries k l' = tries k l /\ (EvBlocked k ∈ since_pass l -> EvBlocked k ∈ since_pass l')) ->
  passing (pre ++ [em]) (<[em_key_id em := st]> states) l'.
Proof using Hms.
  intros Hem [H1 H2 H3 H4 H5] F1 F2 F3 F4 F5 F6. split; [done|done| | |].
  - intros em' Hem'. destruct (decide (em_key_id em' = em_key_id em)) as [E|E].
    + rewrite E, lookup_insert_eq. by exists st.
    + rewrite lookup_insert_ne by done. destruct (F6 _ E) as (E1 & E2 & _). destruct (H3 em' Hem') as (st' & S1 & S2 & S3).
      exists st'. rewrite E1, E2. by split_and!.
  - intros k st' [[<- _]|[_ H]]%lookup_insert_Some; [by exists em|by eapply H4].
  - intros em' [Hin| ->%list_elem_of_singleton]%elem_of_app.
    + destruct (decide (em_key_id em' = em_key_id em)) as [E|E].
      * rewrite E, lookup_insert_eq. destruct F5 as [F5|[F5 F5']]; [by left|right]. split; [by exists st|done].
      * rewrite lookup_insert_ne by done. destruct (F6 _ E) as (E1 & _ & E3). rewrite E1.
        destruct (H5 _ Hin) as [Hd|[Hb Hp]]; [by left|right]. split; [done|by apply E3].
    + rewrite lookup_insert_eq. destruct F5 as [F5|[F5 F5']]; [by left|right]. split; [by exists st|done].
Qed.

(** What a turn ends in. *)
Definition visited (pre : list EligibleMember) (em : EligibleMember) (r : rexn + option ProviderCallResult * member_states) (l : list event) : Prop :=
  match r with
  | inr (Some res, _) => fair l /\ served em res l
  | inr (None, states') => passing (pre ++ [em]) states' l
  | inl (KeyGroupExhausted why detail) => fair l /\ why = request_rejected /\ rejected em detail l
  | inl e => fair l /\ plain_error e
  end.
Lemma tried_fair em l0 r l : em ∈ ms -> fair l0 -> tried em l0 r l -> fair l.
Proof using Hms.
  intros Hem [_ H0] (H1 & H2 & H3 & _). split; [done|]. intros em' Hem'. destruct (decide (em_key_id em' = em_key_id em)) as [E|E].
  - by rewrite (same_key em' em).
  - rewrite (others_tries em l0) by done. by apply H0.
Qed.
(** A member just given up takes its place among those visited. *)
Lemma passing_done pre em st states l0 l : em ∈ ms -> passing pre states l0 -> fair l -> all_go_on l -> others_kept em l0 l ->
  EvDone (em_key_id em) ∈ l -> exhausted st = true -> passing (pre ++ [em]) (<[em_key_id em := st]> states) l.
Proof using Hms.
  intros Hem Hp Hf Ho Hk Hd He. eapply passing_extend; [done|exact Hp|done|done|by rewrite He| | |].
  - by rewrite He.
  - by left.
  - intros k Hne. split_and!; [by eapply others_done|by eapply others_tries|by eapply others_pass].
Qed.

Lemma visit_done_ht pre em states l0 n o : em ∈ ms -> passing pre states l0 ->
  ht (fun l => l = l0) (st' ← exhaust (em_key_id em) n o; mret (None, <[em_key_id em := st']> states)) (visited pre em).
Proof using Hms.
  intros Hem Hp. unfold exhaust. intros s Hs. subst l0. unfold mbind, rt_bind, note, mret, rt_ret. cbn [fst snd visited trace].
  eapply passing_done; [done|exact Hp| | | |apply list_elem_of_here|done].
  - apply fair_aloof; [done|apply Hp].
  - exact (p_on _ _ _ Hp).
  - exists [EvDone (em_key_id em)]. split; [done|]. constructor; [|constructor]. by right.
Qed.
Lemma fresh_trying pre em post states l : ms = pre ++ em :: post -> passing pre states l -> tries (em_key_id em) l = 0%nat -> trying em l 0 l.
Proof using.
  intros E Hp Ht. split; [apply Hp|by eapply passing_turn|apply Hp|done|by exists []].
Qed.
Lemma after_tried_ht pre em states l0 st r : em ∈ ms -> passing pre states l0 ->
  ht (tried em l0 (inr (r, st))) (match r with
    | Some res => mret (Some res, <[em_key_id em := st]> states)
    | None => match last_outcome st with
      | Some o => if bool_decide (reason o = R_ABORT) then throw (KeyGroupExhausted request_rejected (provider_detail o))
                  else mret (None, <[em_key_id em := st]> states)
      | None => mret (None, <[em_key_id em := st]> states)
      end
    end) (visited pre em).
Proof using Hms.
  intros Hem Hp. assert (Hf : forall l, tried em l0 (inr (r, st)) l -> fair l) by (intros l; by apply tried_fair; [|apply Hp]).
  destruct r as [res|].
  - apply ht_ret. intros l Hl. split; [by apply Hf|]. by destruct Hl as (_ & _ & _ & Hl).
  - destruct (last_outcome st) as [o|] eqn:Eo.
    + destruct (bool_decide (reason o = R_ABORT)) eqn:Ea.
      * apply ht_throw. intros l Hl. split_and!; [by apply Hf|done|]. destruct Hl as (_ & _ & _ & _ & _ & _ & Hl). by rewrite Eo, Ea in Hl.
      * apply ht_ret. intros l Hl. pose proof (Hf _ Hl) as Hfl. destruct Hl as (_ & _ & Hk & He & _ & Hd & Hl). rewrite Eo, Ea in Hl.
        by eapply passing_done.
    + apply ht_ret. intros l Hl. destruct Hl as (_ & _ & _ & _ & _ & _ & Hl). by rewrite Eo in Hl.
Qed.

(** Trying a member, from the trace [l0]. *)
Lemma visit_try_ht pre em post states st0 l0 : ms = pre ++ em :: post -> em ∈ ms -> passing pre states l0 ->
  attempts st0 = 0 -> tries (em_key_id em) l0 = 0%nat ->
  ht (fun l => l = l0) (tried ← try_member (try_fuel em) g em q st0;
    let '(result, st') := tried in
    match result with
    | Some r => mret (Some r, <[em_key_id em := st']> states)
    | None => match last_outcome st' with
      | Some o => if bool_decide (reason o = R_ABORT) then throw (KeyGroupExhausted request_rejected (provider_detail o))
                  else mret (None, <[em_key_id em := st']> states)
      | None => mret (None, <[em_key_id em := st']> states)
      end
    end) (visited pre em).
Proof using Hms.
  intros E Hem Hp Ha Ht.
  apply (ht_bind _ _ (fun r l => tried em l0 r l /\ match r with inl e => plain_error e | inr _ => True end)).
  - eapply (ht_mono (trying em l0 0)); [apply (ht_raises plain_error _ _ (tried em l0))| |].
    + apply try_member_raises; unfold try_fuel; lia.
    + apply try_member_tried; [done|by rewrite Ha|lia].
    + intros l ->. by eapply fresh_trying.
    + intros r l H. exact H.
  - intros e l [Htry Hpe]. assert (fair l) by (eapply tried_fair; [done|apply Hp|exact Htry]). by destruct e.
  - intros [r st']. eapply ht_mono; [by eapply after_tried_ht| |done]. by intros l [H _].
Qed.
(** A pass over a member that was given up changes nothing. *)
Lemma passing_skip pre em states l st : em ∈ ms -> passing pre states l -> states !! em_key_id em = Some st -> exhausted st = true ->
  passing (pre ++ [em]) states l.
Proof using.
  intros Hem Hp Hst He. destruct Hp as [H1 H2 H3 H4 H5]. split; [done..|].
  intros em' [Hin| ->%list_elem_of_singleton]%elem_of_app; [by apply H5|]. left.
  destruct (H3 em Hem) as (st' & S1 & S2 & _). apply S2. congruence.
Qed.
Lemma visit_ht pre em post states : ms = pre ++ em :: post -> ht (passing pre states) (visit em states) (visited pre em).
Proof using Hms.
  intros E. assert (Hem : em ∈ ms) by (rewrite E; apply elem_of_app; right; apply list_elem_of_here).
  unfold ProviderRouter.visit. cbv zeta. destruct (states !! em_key_id em) as [st|] eqn:Hst.
  2: { intros s Hp. destruct (p_state _ _ _ Hp em Hem) as (st & H & _). congruence. }
  cbn [default from_option Datatypes.id]. unfold Datatypes.id. destruct (exhausted st) eqn:He.
  { apply ht_ret. intros l Hp. by eapply passing_skip. }
  assert (Hfacts : forall l, passing pre states l -> attempts st = 0 /\ tries (em_key_id em) l = 0%nat).
  { intros l Hp. destruct (p_state _ _ _ Hp em Hem) as (st' & H1 & _ & H2). assert (st' = st) as -> by congruence. by apply H2. }
  apply (ht_bind _ _ (fun r => match r with inl e => fun l => e = XRedisError /\ passing pre states l | inr _ => passing pre states end)).
  { eapply ht_mono; [apply (ht_raises (fun e => e = XRedisError) (passing pre states) _ (fun _ => passing pre states))| |].
    - by apply quota_exceeded_raises.
    - apply (ht_steps aloof); [by apply quota_exceeded_steps|apply passing_aloof].
    - done.
    - by intros [e|b] l [H1 H2]. }
  { intros e l [-> Hp]. split; [apply Hp|done]. }
  intros [|].
  - apply (ht_bind _ _ (fun r => match r with inl _ => fun _ => False | inr _ => passing (pre ++ [em]) (<[em_key_id em := mkState (attempts st) (last_outcome st) true false]> states) end)); [|done|intros u; by apply ht_ret].
    apply ht_note. intros l Hp. destruct (Hfacts _ Hp) as [Ha Ht].
    assert (Hp' : passing pre states (EvBlocked (em_key_id em) :: l)) by (by apply passing_aloof).
    eapply passing_extend; [done|exact Hp'|apply Hp'|apply Hp'| |by intros _| |by intros k Hk].
    + simpl. split; [done|]. destruct (p_state _ _ _ Hp' em Hem) as (st' & S1 & S2 & _). intros H%S2. congruence.
    + right. split; [done|]. apply list_elem_of_here.
  - destruct (adapters (provider (em_key em))).
    { intros s Hp. by apply (visit_done_ht pre em states (trace s)). }
    all: intros s Hp; destruct (Hfacts _ Hp) as [Ha Ht]; by apply (visit_try_ht pre em post states _ (trace s)).
Qed.

(** ** The passes *)

(** A member served the request; the request itself was rejected. *)
Definition some_served (r : ProviderCallResult) (l : list event) : Prop := exists em, em ∈ ms /\ served em r l.
Definition some_rejected (detail : option string) (l : list event) : Prop := exists em, em ∈ ms /\ rejected em detail l.
Definition passed (r : rexn + option ProviderCallResult * member_states) (l : list event) : Prop :=
  match r with
  | inr (Some res, _) => fair l /\ some_served res l
  | inr (None, states') => passing ms states' l
  | inl (KeyGroupExhausted why detail) => fair l /\ why = request_rejected /\ some_rejected detail l
  | inl e => fair l /\ plain_error e
  end.
Lemma one_pass_ht pre post states : ms = pre ++ post -> ht (passing pre states) (one_pass post states) passed.
Proof using Hms.
  revert pre states. induction post as [|em post IH]; intros pre states E; cbn [ProviderRouter.one_pass].
  { apply ht_ret. intros l Hp. rewrite app_nil_r in E. by rewrite <- E in Hp. }
  assert (Hem : em ∈ ms) by (rewrite E; apply elem_of_app; right; apply list_elem_of_here).
  eapply ht_bind; [by apply visit_ht with (post := post)| |].
  - intros e l H. destruct e; try done. destruct H as (H1 & H2 & H3). split_and!; [done|done|]. by exists em.
  - intros [[r|] states'].
    + apply ht_ret. intros l [H1 H2]. split; [done|]. by exists em.
    + apply IH. by rewrite E, <- (assoc_L (++)).
Qed.

(** What the outcome of a call says of the answers, the latest first. *)
Definition outcome (r : rexn + ProviderCallResult) (l : list event) : Prop :=
  match r with
  | inr res => some_served res l
  | inl (KeyGroupExhausted request_rejected detail) => some_rejected detail l
  | inl (KeyGroupExhausted all_errors _) => all_go_on l /\ forall em, em ∈ ms -> EvDone (em_key_id em) ∈ l
  | inl (KeyGroupExhausted all_quota _) => all_go_on l /\ (forall em, em ∈ ms -> set_aside em l) /\
      exists em, em ∈ ms /\ EvDone (em_key_id em) ∉ l /\ EvBlocked (em_key_id em) ∈ since_pass l
  | inl (KeyGroupExhausted _ _) => False
  | inl e => plain_error e \/ e = XNoFuel
  end.
Lemma passing_restart states l e : e = EvPass \/ (exists us, e = EvSleep us) -> passing [] states l -> passing [] states (e :: l).
Proof using.
  intros He [H1 H2 H3 H4 _]. assert (Hq : match e with EvInvoke _ | EvAnswer _ _ | EvDone _ => False | _ => True end).
  { by destruct He as [->|[us ->]]. }
  split; [apply fair_aloof; [by destruct e|done]|unfold all_go_on in *; by destruct e| |done|by intros em ?%not_elem_of_nil].
  intros em Hem. destruct (H3 em Hem) as (st & S1 & S2 & S3). exists st. split_and!; [done| |by rewrite tries_cons_quiet by by destruct e].
  rewrite elem_of_cons. split; [right; by apply S2|intros [Ee|Hd]; [by subst|by apply S2]].
Qed.
Lemma passing_drop pre states l : passing pre states l -> passing [] states l.
Proof using. intros [H1 H2 H3 H4 _]. split; [done..|]. by intros em ?%not_elem_of_nil. Qed.

Lemma no_quota_errors states l : passing ms states l -> any_quota states = false -> outcome (inl (KeyGroupExhausted all_errors None)) l.
Proof using.
  intros Hp Hq. split; [apply Hp|]. intros em Hem. destruct (p_pre _ _ _ Hp em Hem) as [Hd|[(st & Hst & Hb) _]]; [done|].
  destruct (p_state _ _ _ Hp em Hem) as (st' & S1 & S2 & _). assert (st' = st) as -> by congruence. apply S2.
  destruct (exhausted st) eqn:He; [done|]. exfalso. revert Hq. apply not_false_iff_true. unfold any_quota. apply existsb_exists.
  exists (em_key_id em, st). split; [by apply list_elem_of_In, elem_of_map_to_list|]. simpl. by rewrite Hb, He.
Qed.
Lemma some_quota states l : passing ms states l -> any_quota states = true -> outcome (inl (KeyGroupExhausted all_quota None)) l.
Proof using.
  intros Hp Hq. assert (Ha : forall em, em ∈ ms -> set_aside em l).
  { intros em Hem. destruct (p_pre _ _ _ Hp em Hem) as [Hd|[_ Hb]]; [by left|by right]. }
  split_and!; [apply Hp|done|]. unfold any_quota in Hq. apply existsb_exists in Hq as ([k st] & Hin & E).
  apply list_elem_of_In, elem_of_map_to_list in Hin. simpl in E. apply andb_true_iff in E as [Eb Ee%negb_true_iff].
  destruct (p_dom _ _ _ Hp k st Hin) as (em & Hem & <-). exists em. destruct (p_state _ _ _ Hp em Hem) as (st' & S1 & S2 & _).
  assert (st' = st) as -> by congruence. assert (Hd : EvDone (em_key_id em) ∉ l) by (intros Hd%S2; congruence).
  split_and!; [done|done|]. by destruct (Ha em Hem).
Qed.

Lemma rotate_ht fuel deadline states : ht (passing [] states) (rotate fuel g q ms deadline states) (fun r l => fair l /\ outcome r l).
Proof using Hms.
  revert states. induction fuel as [|fuel IH]; intros states; cbn [ProviderRouter.rotate].
  { apply ht_throw. intros l Hp. split; [apply Hp|by right]. }
  eapply ht_bind with (R := fun r => match r with inl _ => fun _ => False | inr _ => passing [] states end); [|done|].
  { apply ht_note. intros l. apply passing_restart. by left. }
  intros u. eapply ht_bind; [by apply one_pass_ht| |].
  { intros e l H. destruct e; try (destruct H; split; [done|by left]). destruct H as (H1 & -> & H2). done. }
  intros [[r|] states']; [by apply ht_ret|]. destruct (any_quota states') eqn:Eq; cbn [negb].
  2: { apply ht_throw. intros l Hp. split; [apply Hp|by eapply no_quota_errors]. }
  eapply ht_bind with (R := fun r => match r with inl _ => fun _ => False | inr _ => passing ms states' end); [by apply ht_monotonic|done|].
  intros now. destruct (deadline <=? now).
  { apply ht_throw. intros l Hp. split; [apply Hp|by eapply some_quota]. }
  eapply ht_bind with (R := fun r => match r with inl _ => fun _ => False | inr _ => passing [] states' end); [|done|intros; apply IH].
  apply ht_sleep. intros l Hp. eapply passing_restart; [right; by eexists|by eapply passing_drop].
Qed.

(** ** The queue wait ends *)

#[local] Hint Resolve load_eligible_steps is_still_eligible_steps quota_exceeded_steps try_member_steps exhaust_steps : steps.
#[local] Hint Extern 3 => exact I : steps.
Lemma visit_any em states : steps any_event (visit em states).
Proof using. unfold ProviderRouter.visit. cbv zeta. step_through. Qed.
Lemma one_pass_any post states : steps any_event (one_pass post states).
Proof using.
  pose proof visit_any. revert states. induction post as [|em post IH]; intros states; cbn [ProviderRouter.one_pass]; step_through.
Qed.
Lemma rotate_any fuel deadline states : steps any_event (rotate fuel g q ms deadline states).
Proof using.
  pose proof one_pass_any. revert states. induction fuel as [|fuel IH]; intros states; cbn [ProviderRouter.rotate]; step_through.
Qed.
Lemma sleep_mono us s : mono s + us <= mono (sleep us s).2.
Proof using. unfold sleep, note, pass_time, yield, mbind, rt_bind. simpl. destruct (sched s); simpl; lia. Qed.
Lemma rotate_ends fuel deadline states s : passing [] states (trace s) -> (0 < fuel)%nat ->
  deadline - mono s <= MIN_SLEEP_US * (Z.of_nat fuel - 1) -> (rotate fuel g q ms deadline states s).1 <> inl XNoFuel.
Proof using Hms.
  revert states s. induction fuel as [|fuel IH]; intros states s Hp Hf Hd; [lia|]. cbn [ProviderRouter.rotate].
  set (s1 := mkR (sh s) (mono s) (sched s) (draws s) (EvPass :: trace s)).
  assert (Hp1 : passing [] states (trace s1)) by (apply passing_restart; [by left|done]).
  pose proof (one_pass_ht [] ms states eq_refl s1 Hp1) as H. pose proof (one_pass_any ms states s1) as [Hm _].
  unfold mbind, rt_bind at 1. change (note EvPass s) with ((inr tt, s1) : (rexn + unit) * rst). cbv beta iota.
  unfold rt_bind at 1. destruct (one_pass ms states s1) as [[e|[[r|] states']] s2]; cbn [fst snd] in *.
  - destruct e; try done; by destruct H as [_ []].
  - done.
  - destruct (any_quota states'); cbn [negb]; [|done]. unfold rt_bind at 1. cbn [monotonic].
    destruct (Z.leb_spec deadline (mono s2)); [done|].
    set (d := Z.min _ _). assert (MIN_SLEEP_US <= d) by (unfold d, QUEUE_POLL_INTERVAL_US, MIN_SLEEP_US; lia).
    pose proof (sleep_mono d s2) as Hs. assert (Hp3 : passing [] states' (trace (sleep d s2).2)).
    { refine (ht_sleep (passing ms states') d (fun _ => passing [] states') _ s2 H). intros l Hl.
      eapply passing_restart; [right; by eexists|by eapply passing_drop]. }
    unfold rt_bind. assert (E : (sleep d s2).1 = inr tt) by done. destruct (sleep d s2) as [[e|[]] s3]; [done|]. cbn [fst snd] in *.
    change (mono s1) with (mono s) in Hm. unfold MIN_SLEEP_US in *. apply IH; [done| |lia]. destruct fuel; lia.
Qed.
End rotation.

(** ** A whole call *)

Section whole_call.
Context (adapters : ApiKeyProvider -> adapter_kind)
  (invoke : nat -> ApiKeyProvider -> string -> ProviderRequest -> option ProviderCallResult)
  (decrypt_envelope : EnvelopeRecord -> uuid -> option string)
  (unseal_headers : pydict -> uuid -> option pydict)
  (rnd : nat -> N).
#[local] Abbreviation call := (call adapters invoke decrypt_envelope unseal_headers rnd).

Definition trace_reads (l : list event) : Prop := Forall is_read l.
Lemma reads_quiet l : trace_reads l -> invoked l = [] /\ answers l = [] /\ (forall k, EvDone k ∉ l).
Proof using.
  induction 1 as [|e l He Hl (I1 & I2 & I3)]; [split_and!; [done|done|by intros k ?%not_elem_of_nil]|]. destruct e; try done.
  split_and!; [done|done|]. intros k [?|H]%elem_of_cons; [done|by apply (I3 k)].
Qed.
(** The tables a call read first: it lists the members of its group in them. *)
Definition listing (l : list event) : option KeyDb := list.last (omap (fun e => match e with EvRead d => Some d | _ => None end) l).
Lemma listing_app new l d : listing l = Some d -> listing (new ++ l) = Some d.
Proof using. unfold listing. intros H. by rewrite omap_app, list.last_app, H. Qed.
(** The members a call works with: those of the listing that serve the request, in its order. *)
Definition members_read (g : uuid) (ms : list EligibleMember) (l : list event) : Prop :=
  ms <> [] /\ NoDup (em_key_id <$> ms) /\
  exists d, listing l = Some d /\ ((fun em => (em_key_id em, em_member em)) <$> ms) `sublist_of` list_ordered_carried d g.
Lemma load_listing g c p : ht (fun l => l = []) (load_eligible g c p) (fun r l => match r with
  | inl _ => False
  | inr ems => exists d, listing l = Some d /\ ((fun em => (em_key_id em, em_member em)) <$> ems) `sublist_of` list_ordered_carried d g
  end).
Proof using.
  unfold load_eligible.
  eapply ht_bind with (R := fun r l => match r with inl _ => False | inr ms => exists d, listing l = Some d /\ ms = list_ordered_carried d g end).
  - apply ht_query. intros l d ->. by exists d.
  - done.
  - intros ms. eapply ht_mono; [apply (eligible_among_ht c p ms (fun l => exists d, listing l = Some d /\ ms = list_ordered_carried d g))|done|].
    + intros e l _ (d & Hd & Hm). exists d. split; [by apply (listing_app [e])|done].
    + intros [e|ems] l; [done|]. intros ((d & Hd & ->) & Hsub & _). by exists d.
Qed.

Lemma passing_start ms l : NoDup (em_key_id <$> ms) -> trace_reads l -> passing ms [] (initial_states ms) l.
Proof using.
  intros Hnd Hl. destruct (reads_quiet l Hl) as (H1 & H2 & H3).
  assert (Hst : forall em, em ∈ ms -> initial_states ms !! em_key_id em = Some fresh_state).
  { intros em Hem. unfold initial_states. apply elem_of_list_to_map_1; [|apply list_elem_of_fmap; by exists em].
    rewrite <- list_fmap_compose. exact Hnd. }
  assert (Ht : forall k, tries k l = 0%nat) by (intros k; unfold tries; by rewrite H1).
  split; [split| | | |].
  - clear -Hl. induction Hl as [|e l He Hl IH]; [done|]. by destruct e.
  - intros em _. rewrite Ht. unfold budget. lia.
  - unfold all_go_on. rewrite H2. constructor.
  - intros em Hem. exists fresh_state. split_and!; [by apply Hst| |intros _; split; [done|apply Ht]].
    split; [done|]. intros Hd. by destruct (H3 (em_key_id em)).
  - intros k st Hk. unfold initial_states in Hk. apply elem_of_list_to_map_2, list_elem_of_fmap in Hk as (em & [= -> ->] & Hem). by exists em.
  - by intros em ?%not_elem_of_nil.
Qed.

(** What a call does, from the members it loads. *)
Lemma call_runs w g q s : trace s = [] ->
  ((call w g q s).1 = inl (KeyGroupExhausted (no_member_reason q) None) /\ trace_reads (trace (call w g q s).2) /\
   is_Some (listing (trace (call w g q s).2))) \/
  exists ms s1 , members_read g ms (trace s1) /\ passing ms [] (initial_states ms) (trace s1) /\
    call w g q s = rotate adapters invoke decrypt_envelope unseal_headers rnd (rotate_fuel w) g q ms (mono s1 + w * 1000000) (initial_states ms) s1.
Proof using.
  intros Hs. unfold ProviderRouter.call. pose proof (load_eligible_ht g (capability q) (r_provider q) trace_reads) as Hl.
  specialize (Hl (fun e l He H => Forall_cons _ _ _ He H) s). rewrite Hs in Hl. specialize (Hl (List.Forall_nil _)).
  pose proof (load_listing g (capability q) (r_provider q) s Hs) as Hd.
  unfold mbind, rt_bind. destruct (load_eligible g (capability q) (r_provider q) s) as [[e|ms] s1]; cbn [fst snd] in *; [done|].
  destruct Hl as (Hr & Hnd & _). destruct Hd as (d & Hd & Hsub). destruct ms as [|em ms]; [left; by eauto|]. right. exists (em :: ms), s1. split_and!.
  - split_and!; [done|done|]. by exists d.
  - by apply passing_start.
  - done.
Qed.
End whole_call.
