(* ===== verification/RouterStream.v ===== *)
(** * The provider router: streams and pinned calls

    The gate and the account of [RouterFacts] for every way a call goes out, and what
    the consumer of a stream is handed (stated for whole calls in [RouterClaims]). *)

From S2P Require Import Prelude PyFloat PyValue KeyPolicy UsageBuckets KeyStore RouterBase ProviderRouter RouterFacts RouterRotation.

(** The events handed to the consumer, latest first. *)
Definition yields (l : list event) : list StreamEvent := omap (fun e => match e with EvYield v => Some v | _ => None end) l.
Definition is_delta (v : StreamEvent) : Prop := match v with TokenDelta _ => True | StreamComplete _ => False end.
(** A call of the pinned key: it was seen carried into the project. *)
Definition seen_carried (p k : uuid) (l : list event) : Prop := exists d, d ∈ since l /\ is_carried d k p = true.
(** A call of a key that was seen not to be deleted. *)
Definition seen_active (k : uuid) (l : list event) : Prop := exists d key, d ∈ since l /\ get_active d k = Some key.

Section streams.
Context (adapters : ApiKeyProvider -> adapter_kind)
  (invoke : nat -> ApiKeyProvider -> string -> ProviderRequest -> option ProviderCallResult)
  (stream : nat -> ApiKeyProvider -> string -> ProviderRequest -> list stream_item)
  (decrypt_envelope : EnvelopeRecord -> uuid -> option string)
  (unseal_headers : pydict -> uuid -> option pydict)
  (rnd : nat -> N)
  (keeps_reading : nat -> bool).
#[local] Abbreviation call_member := (call_member invoke decrypt_envelope unseal_headers).
#[local] Abbreviation try_member := (try_member invoke decrypt_envelope unseal_headers rnd).
#[local] Abbreviation visit := (visit adapters invoke decrypt_envelope unseal_headers rnd).
#[local] Abbreviation one_pass := (one_pass adapters invoke decrypt_envelope unseal_headers rnd).
#[local] Abbreviation rotate := (rotate adapters invoke decrypt_envelope unseal_headers rnd).
#[local] Abbreviation call := (call adapters invoke decrypt_envelope unseal_headers rnd).
#[local] Abbreviation emit := (emit keeps_reading).
#[local] Abbreviation drive := (drive keeps_reading).
#[local] Abbreviation open_stream := (open_stream stream keeps_reading).
#[local] Abbreviation stream_verdict := (stream_verdict keeps_reading).
#[local] Abbreviation stream_member := (stream_member stream decrypt_envelope unseal_headers keeps_reading).
#[local] Abbreviation stream_members := (stream_members adapters stream decrypt_envelope unseal_headers keeps_reading).
#[local] Abbreviation call_stream := (call_stream adapters stream decrypt_envelope unseal_headers keeps_reading).
#[local] Abbreviation call_single_key := (call_single_key adapters invoke decrypt_envelope).
#[local] Abbreviation call_single_key_stream := (call_single_key_stream adapters stream decrypt_envelope keeps_reading).

#[local] Hint Resolve load_eligible_steps is_still_eligible_steps quota_exceeded_steps unwrap_secret_steps inject_steps elapsed_steps
  record_call_steps counter_steps exhaust_steps : steps.
#[local] Hint Extern 3 => exact I : steps.
Lemma emit_steps P v : P (EvYield v) -> steps P (emit v).
Proof using. intros. unfold ProviderRouter.emit. step_through. Qed.
#[local] Hint Resolve emit_steps : steps.
Lemma drive_steps P items t : (forall v, P (EvYield v)) -> steps P (drive items t).
Proof using.
  intros H. revert t. induction items as [|[x|r|] items IH]; intros t; cbn [ProviderRouter.drive]; step_through.
Qed.
#[local] Hint Resolve drive_steps : steps.
Lemma stream_verdict_steps P p t : (forall v, P (EvYield v)) -> steps P (stream_verdict p t).
Proof using. intros. unfold ProviderRouter.stream_verdict. cbv zeta. step_through. Qed.
Lemma pinned_verdict_steps P t : (forall v, P (EvYield v)) -> steps P (pinned_verdict keeps_reading t).
Proof using. intros. unfold pinned_verdict. step_through. Qed.
Lemma account_steps (P : event -> Prop) k q t0 t c : P EvRedisDown -> (forall now h h', P (EvCounters k now h h')) -> (forall d d', P (EvRows k d d')) -> steps P (account k q t0 t c).
Proof using. intros. unfold account. step_through. Qed.
#[local] Hint Resolve stream_verdict_steps pinned_verdict_steps account_steps : steps.

Lemma counter_raises' E f : raises E (counter f).
Proof using. by intros s e. Qed.
#[local] Hint Resolve counter_raises' : raises.
Lemma emit_raises E v : raises E (emit v).
Proof using. unfold ProviderRouter.emit. raise_through. Qed.
#[local] Hint Resolve emit_raises : raises.
Lemma drive_raises E items t : raises E (drive items t).
Proof using. revert t. induction items as [|[x|r|] items IH]; intros t; cbn [ProviderRouter.drive]; raise_through. Qed.

(** ** Following an assertion through a whole call

    An assertion that idle events keep, and one call keeps, every call keeps. *)
Section follow.
Context (T : list event -> Prop) (Hidle : forall e l, idle e -> T l -> T (e :: l)) (g : uuid) (q : ProviderRequest).
#[local] Abbreviation kept m := (ht T m (fun _ => T)).
Lemma kept_steps {A} (m : rt A) : steps idle m -> kept m.
Proof using Hidle. intros H. by eapply ht_steps. Qed.
Lemma kept_bind {A B} (m : rt B) (f : B -> rt A) : kept m -> (forall b, kept (f b)) -> kept (m ≫= f).
Proof using. intros Hm Hf. eapply ht_bind; [exact Hm|done|done]. Qed.
Lemma kept_attempt_bind {A B} (m : rt B) (f : rexn + B -> rt A) : kept m -> (forall o, kept (f o)) -> kept (attempt m ≫= f).
Proof using. intros Hm Hf. eapply ht_attempt_bind; [exact Hm|done]. Qed.
Ltac follow call := repeat first
  [ progress intros
  | solve [call]
  | solve [apply kept_steps; solve [auto with steps|step_through]]
  | match goal with |- ht _ (match ?x with _ => _ end) _ => destruct x end
  | assumption | apply kept_attempt_bind | apply kept_bind ].

Section unary.
Context (Hcall : forall em, kept (call_member g em q)).
Lemma try_member_kept fuel em st : kept (try_member fuel g em q st).
Proof using Hidle Hcall.
  revert st. induction fuel as [|fuel IH]; intros st; cbn [ProviderRouter.try_member]; [by apply ht_throw|]. cbv zeta.
  apply kept_attempt_bind; [apply Hcall|]. intros o. follow ltac:(apply IH).
Qed.
Lemma visit_kept em states : kept (visit g q em states).
Proof using Hidle Hcall. unfold ProviderRouter.visit. cbv zeta. follow ltac:(apply try_member_kept). Qed.
Lemma one_pass_kept ms states : kept (one_pass g q ms states).
Proof using Hidle Hcall.
  revert states. induction ms as [|em ms IH]; intros states; cbn [ProviderRouter.one_pass]; [by apply ht_ret|].
  apply kept_bind; [apply visit_kept|]. intros [[r|] st]; [by apply ht_ret|apply IH].
Qed.
Lemma rotate_kept fuel ms d states : kept (rotate fuel g q ms d states).
Proof using Hidle Hcall.
  revert states. induction fuel as [|fuel IH]; intros states; cbn [ProviderRouter.rotate]; [by apply ht_throw|].
  apply kept_bind; [apply kept_steps; by auto with steps|]. intros u. apply kept_bind; [apply one_pass_kept|]. follow ltac:(apply IH).
Qed.
Lemma call_kept w : kept (call w g q).
Proof using Hidle Hcall. unfold ProviderRouter.call. follow ltac:(apply rotate_kept). Qed.
End unary.
Section streaming.
Context (Hcall : forall em, kept (stream_member g em q)).
Lemma stream_members_kept ms b : kept (stream_members g q ms b).
Proof using Hidle Hcall.
  revert b. induction ms as [|em ms IH]; intros b; cbn [ProviderRouter.stream_members]; [by apply ht_throw|].
  apply kept_bind; [apply kept_steps; by auto with steps|]. intros o. follow ltac:(first [apply IH|apply Hcall]).
Qed.
Lemma call_stream_kept : kept (call_stream g q).
Proof using Hidle Hcall. unfold ProviderRouter.call_stream. follow ltac:(apply stream_members_kept). Qed.
End streaming.
End follow.

(** ** One stream *)

(** What precedes every call of a member: the recheck, the request, the secret. *)
Definition cleared_then {A} (g : uuid) (em : EligibleMember) (q : ProviderRequest) (K : ProviderRequest -> string -> rt A) : rt A :=
  ok ← is_still_eligible g (em_key_id em) q;
  if negb ok then throw KeyVanished else
  q' ← inject_provider_config unseal_headers em q;
  v ← unwrap_secret decrypt_envelope (em_key_id em);
  K q' v.
Lemma cleared_gate {A} g em q (K : ProviderRequest -> string -> rt A) :
  (forall q' v, ht (fun l => gated (seen g q) l /\ seen g q (em_key_id em) l) (K q' v) (fun _ => gated (seen g q))) ->
  ht (gated (seen g q)) (cleared_then g em q K) (fun _ => gated (seen g q)).
Proof using.
  intros HK. unfold cleared_then.
  eapply ht_bind; [apply is_still_eligible_ht; intros e l He; apply gated_cons; by apply is_read_still|done|].
  intros [|]; simpl negb; cbv iota; [|apply ht_throw; by intros l []].
  set (T := fun l => gated (seen g q) l /\ seen g q (em_key_id em) l).
  assert (HT : forall e l, still e -> T l -> T (e :: l)).
  { intros e l He [H1 H2]. split; [by apply gated_cons|by apply seen_cons]. }
  eapply (ht_mono T _ _ (fun _ => gated (seen g q))); [|intros l [H1 H2]; by split; [|apply H2]|done].
  apply (ht_steps_bind still); [by auto with steps|exact HT|by intros e l []|]. intros q'.
  apply (ht_steps_bind still); [by auto with steps|exact HT|by intros e l []|]. intros v. apply HK.
Qed.
Lemma open_stream_gate ok k p v q : ht (fun l => gated ok l /\ ok k l) (open_stream k p v q) (fun _ => gated ok).
Proof using.
  unfold ProviderRouter.open_stream. eapply ht_bind with (R := fun r => match r with inl _ => fun _ => False | inr _ => fun l => gated ok l /\ ok k l end); [by intros s|done|].
  intros n. eapply ht_bind with (R := fun _ => gated ok); [|done|].
  - apply ht_note. intros l [H1 H2]. by split.
  - intros _. apply (ht_steps still); [|intros e l; apply gated_cons]. step_through.
Qed.
Lemma stream_member_gate g em q : ht (gated (seen g q)) (stream_member g em q) (fun _ => gated (seen g q)).
Proof using.
  apply (cleared_gate g em q (fun q' v => t0 ← monotonic; t ← open_stream (em_key_id em) (provider (em_key em)) v q';
    outcome ← attempt (stream_verdict (rotation (em_member em)) t);
    _ ← account (em_key_id em) q' t0 t (fun s => o_error_code (classify_http s (rotation (em_member em)))); resume outcome)).
  intros q' v. eapply ht_bind with (R := fun r => match r with inl _ => fun _ => False | inr _ => fun l => gated (seen g q) l /\ seen g q (em_key_id em) l end);
    [by apply ht_monotonic|done|]. intros t0. eapply ht_bind; [apply open_stream_gate|done|]. intros t.
  apply (ht_steps still); [|intros e l; apply gated_cons]. step_through.
Qed.

Lemma open_stream_account k p v q : ht accounted (open_stream k p v q)
  (fun r => match r with inl _ => fun _ => False | inr t => owed (k, complete t) end).
Proof using.
  unfold ProviderRouter.open_stream. eapply ht_bind with (R := fun r => match r with inl _ => fun _ => False | inr _ => accounted end); [by intros s|done|].
  intros n. eapply ht_bind with (R := fun r => match r with inl _ => fun _ => False | inr _ => pending k end); [apply ht_note, accounted_invoke|done|].
  intros u. eapply ht_bind with (R := fun r => match r with inl _ => fun _ => False | inr _ => pending k end); [|done|].
  - eapply ht_mono; [apply (ht_raises (fun _ => False) (pending k) _ (fun _ => pending k))|done|by intros [e|a] l []].
    + apply raises_awaited, drive_raises.
    + apply (ht_steps idle); [by auto with steps|apply pending_idle].
  - intros t. eapply ht_bind with (R := fun r => match r with inl _ => fun _ => False | inr _ => owed (k, complete t) end);
      [apply ht_note, pending_answer|done|]. intros u'. by apply ht_ret.
Qed.
Lemma account_ht k q t0 t c : ht (owed (k, complete t)) (account k q t0 t c) (fun r => match r with inl _ => fun _ => False | inr _ => accounted end).
Proof using.
  unfold account. apply ht_swallow. eapply ht_bind with (R := fun r => match r with inl _ => fun _ => False | inr _ => owed (k, complete t) end);
    [by intros s|done|]. intros ms. destruct (complete t) as [r|].
  - eapply ht_mono; [apply record_call_ht|done|]. by intros [e|u] l; [intros [_ H]|intros H].
  - eapply ht_mono; [apply record_call_ht|done|]. by intros [e|u] l; [intros [_ H]|intros H].
Qed.
(** The end of a stream, whatever it is, is accounted for. *)
Lemma stream_end_account {A} k q t0 t c (m : rt A) : steps idle m ->
  ht (owed (k, complete t)) (outcome ← attempt m; _ ← account k q t0 t c; resume outcome) (fun _ => accounted).
Proof using.
  intros Hm. eapply ht_attempt_bind; [by eapply ht_steps; [exact Hm|apply owed_idle]|]. intros o.
  eapply ht_bind; [apply account_ht|done|]. intros u. by apply ht_resume.
Qed.
Lemma stream_member_account g em q : ht accounted (stream_member g em q) (fun _ => accounted).
Proof using.
  unfold ProviderRouter.stream_member. cbv zeta.
  apply (ht_steps_bind idle); [by auto with steps|apply accounted_idle|done|]. intros [|]; simpl negb; cbv iota; [|by apply ht_throw].
  apply (ht_steps_bind idle); [by auto with steps|apply accounted_idle|done|]. intros q'.
  apply (ht_steps_bind idle); [by auto with steps|apply accounted_idle|done|]. intros v.
  apply (ht_steps_bind idle); [by auto with steps|apply accounted_idle|done|]. intros t0.
  eapply ht_bind; [apply open_stream_account|done|]. intros t. apply stream_end_account. by auto with steps.
Qed.

(** ** Pinned calls *)

Lemma single_key_gate k p q : ht (gated (seen_carried p)) (call_single_key k p q) (fun _ => gated (seen_carried p)).
Proof using.
  unfold ProviderRouter.call_single_key. set (G := gated (seen_carried p)).
  assert (HG : forall e l, still e -> G l -> G (e :: l)) by (intros e l; apply gated_cons).
  apply (ht_steps_bind still); [by auto with steps|exact HG|done|]. intros [row|]; [|by apply ht_throw].
  destruct (negb _); [by apply ht_throw|].
  apply (ht_bind _ _ (fun r => match r with inl _ => fun _ => False | inr b => fun l => G l /\ (b = true -> seen_carried p k l) end)); [|done|].
  { apply ht_query. intros l d Hl. split; [by apply HG|]. intros E. exists d. split; [apply list_elem_of_here|done]. }
  intros [|]; cbn [negb]; [|apply ht_throw; by intros l []].
  set (T := fun l => G l /\ seen_carried p k l). eapply (ht_mono T _ _ (fun _ => G)); [|by intros l [H1 H2]; split; [|apply H2]|done].
  assert (HT : forall e l, still e -> T l -> T (e :: l)).
  { intros e l He [H1 (d & Hd & Hc)]. split; [by apply HG|]. exists d. split; [by apply since_cons|done]. }
  cbv zeta. destruct (adapters (provider row)); [by apply ht_throw; intros l []|..];
    (apply (ht_steps_bind still); [by auto with steps|exact HT|by intros e l []|]; intros v;
     apply (ht_steps_bind still); [by auto with steps|exact HT|by intros e l []|]; intros t0;
     eapply ht_bind; [apply adapter_invoke_gate|done|]; intros r;
     apply (ht_steps still); [|exact HG]; step_through).
Qed.
Lemma single_key_account k p q : ht accounted (call_single_key k p q) (fun _ => accounted).
Proof using.
  unfold ProviderRouter.call_single_key.
  apply (ht_steps_bind idle); [by auto with steps|apply accounted_idle|done|]. intros [row|]; [|by apply ht_throw].
  destruct (negb _); [by apply ht_throw|].
  apply (ht_steps_bind idle); [by auto with steps|apply accounted_idle|done|]. intros [|]; cbn [negb]; [|by apply ht_throw].
  cbv zeta. destruct (adapters (provider row)); [by apply ht_throw|..];
    (apply (ht_steps_bind idle); [by auto with steps|apply accounted_idle|done|]; intros v;
     apply (ht_steps_bind idle); [by auto with steps|apply accounted_idle|done|]; intros t0;
     eapply ht_bind; [apply adapter_invoke_account|done|]; intros r;
     eapply ht_bind with (R := fun o => match o with inl _ => fun _ => False | inr _ => owed (k, r) end); [by intros s|done|]; intros ms;
     destruct r as [r|]; apply recorded; intros u; [by apply ht_ret|by apply ht_throw]).
Qed.
Lemma single_stream_account k q : ht accounted (call_single_key_stream k q) (fun _ => accounted).
Proof using.
  unfold ProviderRouter.call_single_key_stream.
  apply (ht_steps_bind idle); [by auto with steps|apply accounted_idle|done|]. intros [row|]; [|by apply ht_throw].
  destruct (negb _); [by apply ht_throw|]. cbv zeta. destruct (adapters (provider row)); [by apply ht_throw|by apply ht_throw|].
  apply (ht_steps_bind idle); [by auto with steps|apply accounted_idle|done|]; intros v.
  apply (ht_steps_bind idle); [by auto with steps|apply accounted_idle|done|]; intros t0.
  eapply ht_bind; [apply open_stream_account|done|]. intros t. apply stream_end_account. by auto with steps.
Qed.
Lemma single_stream_gate k q : ht (gated seen_active) (call_single_key_stream k q) (fun _ => gated seen_active).
Proof using.
  unfold ProviderRouter.call_single_key_stream. set (G := gated seen_active).
  assert (HG : forall e l, still e -> G l -> G (e :: l)) by (intros e l; apply gated_cons).
  apply (ht_bind _ _ (fun r => match r with inl _ => fun _ => False | inr key => fun l => G l /\ (forall row, key = Some row -> seen_active k l) end)); [|done|].
  { apply ht_query. intros l d Hl. split; [by apply HG|]. intros row E. exists d, row. split; [apply list_elem_of_here|done]. }
  intros [row|]; [|apply ht_throw; by intros l []].
  set (T := fun l => G l /\ seen_active k l). eapply (ht_mono T _ _ (fun _ => G)); [|by intros l [H1 H2]; split; [|eapply H2]|done].
  assert (HT : forall e l, still e -> T l -> T (e :: l)).
  { intros e l He [H1 (d & key & Hd & Hc)]. split; [by apply HG|]. exists d, key. split; [by apply since_cons|done]. }
  destruct (negb _); [apply ht_throw; by intros l []|].
  cbv zeta. destruct (adapters (provider row)); [apply ht_throw; by intros l []|apply ht_throw; by intros l []|].
  apply (ht_steps_bind still); [by auto with steps|exact HT|by intros e l []|]. intros v.
  apply (ht_steps_bind still); [by auto with steps|exact HT|by intros e l []|]. intros t0.
  eapply ht_bind; [apply open_stream_gate|done|]. intros t. apply (ht_steps still); [|exact HG]. step_through.
Qed.

(** ** What the consumer is handed *)

(** No call goes out once something was handed over. *)
Definition nothing_yet (k : uuid) (l : list event) : Prop := yields l = [].
Definition streaming (t : StreamTerminal) (l : list event) : Prop :=
  gated nothing_yet l /\ Forall is_delta (yields l) /\ (first_token t = true <-> yields l <> []) /\ (abandoned t = true -> yields l <> []).
Definition unheard (e : event) : Prop := match e with EvYield _ | EvInvoke _ => False | _ => True end.
Lemma unheard_cons e l : unheard e -> yields (e :: l) = yields l /\ (gated nothing_yet l -> gated nothing_yet (e :: l)).
Proof using. by destruct e. Qed.
Lemma streaming_unheard t : forall e l, unheard e -> streaming t l -> streaming t (e :: l).
Proof using. intros e l He [H1 H2]. destruct (unheard_cons e l He) as [E1 E2]. unfold streaming. rewrite E1. split; [by apply E2|done]. Qed.
(** The outcome of a stream against what was handed over, latest first. *)
Definition contract (r : rexn + unit) (ys : list StreamEvent) : Prop :=
  match r with
  | inr _ => exists res rest, ys = StreamComplete res :: rest /\ Forall is_delta rest /\ is_ok (http_status res) = true
  | inl GeneratorExit => ys <> [] /\ (Forall is_delta ys \/ exists res rest, ys = StreamComplete res :: rest /\ Forall is_delta rest)
  | inl (ProviderStreamError _) | inl TransportError => ys <> [] /\ Forall is_delta ys
  | inl XNoFuel | inl XKeyNotFound | inl XCapabilityMismatch | inl KeyProjectScopeError | inl XValueError => False
  | inl _ => ys = []
  end.
Definition contracted (r : rexn + unit) (l : list event) : Prop := gated nothing_yet l /\ contract r (yields l).

Lemma emit_ht v (T : list event -> Prop) (Q : rexn + bool -> list event -> Prop) :
  (forall l b, T l -> Q (inr b) (EvYield v :: l)) -> ht T (emit v) Q.
Proof using.
  intros H. unfold ProviderRouter.emit. eapply ht_bind with (R := fun r => match r with inl _ => fun _ => False | inr _ => T end); [by intros s|done|].
  intros n. eapply ht_bind with (R := fun r => match r with inl _ => fun _ => False | inr _ => fun l => exists l', l = EvYield v :: l' /\ T l' end); [|done|].
  - apply ht_note. intros l Hl. by exists l.
  - intros u. eapply ht_bind with (R := fun r => match r with inl _ => fun _ => False | inr _ => fun l => exists l', l = EvYield v :: l' /\ T l' end); [by apply ht_yield|done|].
    intros u'. apply ht_ret. intros l (l' & -> & Hl'). by apply H.
Qed.
Lemma drive_ht items t : abandoned t = false -> ht (streaming t) (drive items t) (fun r l => match r with inl _ => False | inr t' => streaming t' l end).
Proof using.
  revert t. induction items as [|[x|r|] items IH]; intros t Ha; cbn [ProviderRouter.drive].
  - by apply ht_ret.
  - eapply ht_bind with (R := fun r => match r with inl _ => fun _ => False | inr _ => streaming t end); [by apply ht_yield|done|]. intros u.
    eapply ht_bind with (R := fun r => match r with inl _ => fun _ => False | inr _ => fun l => gated nothing_yet l /\ Forall is_delta (yields l) /\ yields l <> [] end); [|done|].
    + apply emit_ht. intros l b (H1 & H2 & _). split_and!; [done|simpl; by constructor|done].
    + intros [|].
      * eapply ht_mono; [apply IH; exact Ha| |done]. intros l (H1 & H2 & H3). split_and!; [done|done|done|]. simpl. congruence.
      * apply ht_ret. intros l (H1 & H2 & H3). by split_and!.
  - eapply ht_bind with (R := fun r => match r with inl _ => fun _ => False | inr _ => streaming t end); [by apply ht_yield|done|]. intros u.
    exact (IH (mkTerminal (Some r) (transport_exc t) (first_token t) (abandoned t)) Ha).
  - apply ht_ret. by intros l (H1 & H2 & H3 & H4).
Qed.
Lemma stream_verdict_ht p t : ht (streaming t) (stream_verdict p t) contracted.
Proof using.
  unfold ProviderRouter.stream_verdict. cbv zeta. destruct (abandoned t) eqn:Ea.
  { apply ht_throw. intros l (H1 & H2 & H3 & H4). split; [done|]. split; [by apply H4|by left]. }
  assert (Hempty : forall l, streaming t l -> first_token t = false -> yields l = []).
  { intros l (_ & _ & H & _) Hf. destruct (yields l) as [|y ys] eqn:Ey; [done|]. assert (first_token t = true) by (by apply H). congruence. }
  assert (Hsome : forall l, streaming t l -> first_token t = true -> yields l <> []) by (by intros l (_ & _ & H & _) Hf%H).
  destruct (transport_exc t).
  { destruct (first_token t) eqn:Ef; apply ht_throw; intros l Hl; (split; [apply Hl|]); [split; [by apply Hsome|apply Hl]|by apply Hempty]. }
  destruct (complete t) as [r|].
  2: { destruct (first_token t) eqn:Ef; apply ht_throw; intros l Hl; (split; [apply Hl|]); [split; [by apply Hsome|apply Hl]|by apply Hempty]. }
  case_bool_decide as Eo.
  - assert (Hok : is_ok (http_status r) = true).
    { unfold classify_http in Eo. destruct (is_ok (http_status r)); [done|]. repeat (destruct (bool_decide _) in Eo); try done. simpl in Eo. by destruct (retry_on_error p). }
    eapply ht_bind with (R := fun o => match o with inl _ => fun _ => False | inr _ => fun l => gated nothing_yet l /\ exists rest, yields l = StreamComplete r :: rest /\ Forall is_delta rest end); [|done|].
    + apply emit_ht. intros l b (H1 & H2 & _). split; [done|]. by exists (yields l).
    + intros [|]; [apply ht_ret|apply ht_throw]; intros l (H1 & rest & E & H2); (split; [done|]).
      * by exists r, rest.
      * split; [by rewrite E|]. right. by exists r, rest.
  - destruct (first_token t) eqn:Ef; [apply ht_throw; intros l Hl; (split; [apply Hl|]); split; [by apply Hsome|apply Hl]|].
    destruct (bool_decide _); apply ht_throw; intros l Hl; (split; [apply Hl|]); by apply Hempty.
Qed.

(** Nothing was handed over so far. *)
Definition silent (l : list event) : Prop := gated nothing_yet l /\ yields l = [].
Lemma silent_unheard : forall e l, unheard e -> silent l -> silent (e :: l).
Proof using. intros e l He [H1 H2]. destruct (unheard_cons e l He) as [E1 E2]. split; [by apply E2|by rewrite E1]. Qed.
Lemma contracted_unheard r : forall e l, unheard e -> contracted r l -> contracted r (e :: l).
Proof using. intros e l He [H1 H2]. destruct (unheard_cons e l He) as [E1 E2]. split; [by apply E2|by rewrite E1]. Qed.
Lemma open_stream_ht k p v q : ht silent (open_stream k p v q) (fun r l => match r with inl _ => False | inr t => streaming t l end).
Proof using.
  unfold ProviderRouter.open_stream. eapply ht_bind with (R := fun r => match r with inl _ => fun _ => False | inr _ => silent end); [by intros s|done|].
  intros n. eapply ht_bind with (R := fun r => match r with inl _ => fun _ => False | inr _ => streaming new_terminal end); [|done|].
  { apply ht_note. intros l [H1 H2]. unfold streaming. cbn [yields omap]. change (yields (EvInvoke k :: l)) with (yields l). rewrite H2. by split_and!. }
  intros u. eapply ht_bind; [apply ht_awaited, drive_ht; done|done|]. intros t.
  eapply ht_bind with (R := fun r => match r with inl _ => fun _ => False | inr _ => streaming t end); [|done|intros u'; by apply ht_ret].
  apply ht_note. intros l. by apply streaming_unheard.
Qed.
(** A step that hands nothing over and whose exceptions are failures of the back end. *)
Lemma silent_bind {A} (m : rt A) (f : A -> rt unit) : steps unheard m -> raises member_error m ->
  (forall a, ht silent (f a) contracted) -> ht silent (m ≫= f) contracted.
Proof using.
  intros Hm Hr Hf. eapply ht_bind with (R := fun r => match r with inl e => fun l => silent l /\ member_error e | inr _ => silent end); [| |exact Hf].
  - eapply ht_mono; [apply (ht_raises member_error silent _ (fun _ => silent)); [exact Hr|apply (ht_steps unheard); [exact Hm|apply silent_unheard]]|done|].
    by intros [e|a] l [H1 H2].
  - intros e l [[H1 H2] He]. split; [done|]. destruct He as [He| ->]; [|done]. by destruct e.
Qed.
Lemma stream_member_ht g em q : ht silent (stream_member g em q) contracted.
Proof using.
  unfold ProviderRouter.stream_member. cbv zeta.
  apply silent_bind; [by auto with steps|apply is_still_eligible_raises|]. intros [|]; simpl negb; cbv iota; [|apply ht_throw; by intros l [H1 H2]].
  apply silent_bind; [by auto with steps|apply inject_raises; by left|]. intros q'.
  apply silent_bind; [by auto with steps|apply unwrap_secret_raises; [by right|by left]|]. intros v.
  apply silent_bind; [by auto with steps|apply raises_monotonic|]. intros t0.
  eapply ht_bind; [apply open_stream_ht|done|]. intros t.
  eapply ht_attempt_bind; [apply stream_verdict_ht|]. intros o.
  eapply ht_bind with (R := fun r => match r with inl _ => fun _ => False | inr _ => contracted o end); [|done|intros u; by apply ht_resume].
  eapply ht_mono; [apply (ht_raises (fun _ => False) (contracted o) _ (fun _ => contracted o))|done|by intros [e|a] l []].
  - apply raises_swallow.
  - apply (ht_steps unheard); [|apply contracted_unheard]. by auto with steps.
Qed.

(** What reaches the caller of [call_stream]. *)
Definition internal (e : rexn) : Prop := match e with RotateStream | KeyVanished | AbortGroup _ _ => True | _ => False end.
Definition delivered (r : rexn + unit) (l : list event) : Prop :=
  contracted r l /\ match r with inl e => ~ internal e | inr _ => True end.
Lemma quota_silent {A} em (f : bool -> rt A) (Q : rexn + A -> list event -> Prop) :
  (forall l, silent l -> Q (inl XRedisError) l) -> (forall b, ht silent (f b) Q) -> ht silent (quota_exceeded em ≫= f) Q.
Proof using.
  intros He Hf. eapply ht_bind with (R := fun r => match r with inl e => fun l => silent l /\ e = XRedisError | inr _ => silent end);
    [|by intros e l [H ->]; apply He|exact Hf].
  eapply ht_mono; [apply (ht_raises (fun e => e = XRedisError) silent _ (fun _ => silent))|done|by intros [e|b] l [H1 H2]].
  - by apply quota_exceeded_raises.
  - apply (ht_steps unheard); [by auto with steps|apply silent_unheard].
Qed.
Lemma stream_members_ht g q ms b : ht silent (stream_members g q ms b) delivered.
Proof using.
  revert b. induction ms as [|em ms IH]; intros b; cbn [ProviderRouter.stream_members].
  { apply ht_throw. intros l [H1 H2]. split; [by split|by intros []]. }
  apply quota_silent; [intros l [H1 H2]; split; [by split|by intros []]|]. intros [|]; [apply IH|].
  destruct (adapters (provider (em_key em))); [apply IH|apply IH|].
  eapply ht_attempt_bind; [apply stream_member_ht|]. intros [e|u].
  - destruct e; try (apply ht_throw; intros l [H1 H2]; split; [by split|by intros []]).
    + eapply ht_mono; [apply IH|by intros l [H1 H2]|done].
    + eapply ht_mono; [apply IH|by intros l [H1 H2]|done].
  - apply ht_ret. by intros l H.
Qed.
Lemma call_stream_ht g q : ht silent (call_stream g q) delivered.
Proof using.
  unfold ProviderRouter.call_stream.
  eapply ht_bind with (R := fun r => match r with inl _ => fun _ => False | inr _ => silent end); [|done|].
  - eapply ht_mono; [apply (ht_raises (fun _ => False) silent _ (fun _ => silent))|done|by intros [e|a] l []].
    + apply load_eligible_raises.
    + apply (ht_steps unheard); [by auto with steps|apply silent_unheard].
  - intros [|em ms]; [apply ht_throw; intros l [H1 H2]; split; [by split|by intros []]|apply stream_members_ht].
Qed.
End streams.
