(* ===== verification/RouterClaims.v ===== *)
(** * The provider router: claims

    The theorems about a whole call, assembled from [RouterFacts] (the gate before a
    call and the account after it), [RouterRotation] (order, budgets, outcomes) and
    [RouterStream].  Each holds for every schedule of what other coroutines do, for
    every answer of the providers and for every draw of the random numbers. *)

From S2P Require Import Prelude PyFloat PyValue KeyPolicy UsageBuckets KeyStore RouterBase ProviderRouter RouterFacts RouterRotation RouterStream.

(** The calls that went out are those of listed members, within their budgets. *)
Lemma sum_bump (f : uuid -> nat) k ks : NoDup ks -> k ∈ ks ->
  sum_list ((fun k' => if bool_decide (k = k') then S (f k') else f k') <$> ks) = S (sum_list (f <$> ks)).
Proof.
  induction 1 as [|k0 ks Hk0 Hnd IH]; [by intros ?%not_elem_of_nil|]. rewrite !fmap_cons. cbn [sum_list_with]. unfold id in IH |- *. intros [<-|Hk]%elem_of_cons.
  - rewrite bool_decide_true by done. cbn [Nat.add]. do 3 f_equal. apply list_fmap_ext. intros i k' Hi%list_elem_of_lookup_2.
    rewrite bool_decide_false; [done|congruence].
  - rewrite bool_decide_false by congruence. rewrite (IH Hk). lia.
Qed.
Lemma invoked_length (ks : list uuid) l : NoDup ks -> Forall (fun k => k ∈ ks) (invoked l) -> length (invoked l) = sum_list ((fun k => tries k l) <$> ks).
Proof.
  intros Hnd. unfold tries. induction (invoked l) as [|k out IH]; intros Hin.
  - clear. simpl. by induction ks.
  - inversion_clear Hin as [|? ? Hk Hin']. cbn [length]. rewrite (IH Hin'), <- (sum_bump _ k) by done.
    f_equal. apply list_fmap_ext. intros i k' _. simpl. by case_bool_decide.
Qed.
Lemma gated_invoked ok l (P : uuid -> Prop) : (forall k l', ok k l' -> P k) -> gated ok l -> Forall P (invoked l).
Proof.
  intros H. induction l as [|e l IH]; simpl; [constructor|]. destruct e; simpl; try apply IH. intros [Hk Hl]. constructor; [by eapply H|by apply IH].
Qed.
Lemma sum_list_pointwise {A} (f h : A -> nat) (xs : list A) : (forall x, x ∈ xs -> f x <= h x)%nat -> (sum_list (f <$> xs) <= sum_list (h <$> xs))%nat.
Proof.
  induction xs as [|x xs IH]; simpl; intros H; [lia|]. apply Nat.add_le_mono; [apply H, list_elem_of_here|apply IH]. intros y Hy. by apply H, list_elem_of_further.
Qed.
(** A fair rotation calls only its members. *)
Lemma fair_members ms l : fair ms l -> Forall (fun k => k ∈ em_key_id <$> ms) (invoked l).
Proof.
  intros [Ht _]. eapply gated_invoked; [|exact Ht]. intros k l' (pre & em & post & -> & <- & _). rewrite fmap_app. apply elem_of_app. right. apply list_elem_of_here.
Qed.
(** A fair rotation makes at most the sum of its members' budgets of calls. *)
Lemma fair_calls ms l : NoDup (em_key_id <$> ms) -> fair ms l -> (length (invoked l) <= sum_list (budget <$> ms))%nat.
Proof.
  intros Hnd Hf. pose proof Hf as [Ht Hb]. rewrite (invoked_length (em_key_id <$> ms)); [|done|].
  - rewrite <- list_fmap_compose. by apply sum_list_pointwise.
  - by apply fair_members.
Qed.
Lemma sum_list_sublist (xs ys : list nat) : xs `sublist_of` ys -> (sum_list xs <= sum_list ys)%nat.
Proof. induction 1; simpl; lia. Qed.

Section claims.
Context (adapters : ApiKeyProvider -> adapter_kind)
  (invoke : nat -> ApiKeyProvider -> string -> ProviderRequest -> option ProviderCallResult)
  (stream : nat -> ApiKeyProvider -> string -> ProviderRequest -> list stream_item)
  (decrypt_envelope : EnvelopeRecord -> uuid -> option string)
  (unseal_headers : pydict -> uuid -> option pydict)
  (rnd : nat -> N)
  (keeps_reading : nat -> bool).
#[local] Abbreviation call := (call adapters invoke decrypt_envelope unseal_headers rnd).
#[local] Abbreviation call_stream := (call_stream adapters stream decrypt_envelope unseal_headers keeps_reading).
#[local] Abbreviation call_single_key := (call_single_key adapters invoke decrypt_envelope).
#[local] Abbreviation call_single_key_stream := (call_single_key_stream adapters stream decrypt_envelope keeps_reading).

(** A call that found members, from its listing to its end. *)
Lemma call_whole w g q s : trace s = [] ->
  let r := (call w g q s).1 in let l := trace (call w g q s).2 in
  (r = inl (KeyGroupExhausted (no_member_reason q) None) /\ trace_reads l /\ is_Some (listing l)) \/
  exists ms, members_read g ms l /\ fair ms l /\ outcome ms r l /\ r <> inl XNoFuel.
Proof using.
  intros Hs. destruct (call_runs adapters invoke decrypt_envelope unseal_headers rnd w g q s Hs) as [H|(ms & s1 & Hm & Hp & E)]; [by left|].
  right. exists ms. rewrite E. destruct Hm as (H1 & H2 & d & H3 & H4).
  pose proof (rotate_ht adapters invoke decrypt_envelope unseal_headers rnd g q ms H2 (rotate_fuel w) (mono s1 + w * 1000000) _ s1 Hp) as [Hf Ho].
  split_and!; [split_and!; [done|done|]|exact Hf|exact Ho|].
  - exists d. split; [|done]. pose proof (rotate_any adapters invoke decrypt_envelope unseal_headers rnd g q ms (rotate_fuel w) (mono s1 + w * 1000000) (initial_states ms) s1) as (_ & new & -> & _).
    by apply listing_app.
  - apply rotate_ends; [done|done|unfold rotate_fuel; lia|]. unfold rotate_fuel, MIN_SLEEP_US. lia.
Qed.

(** C11. A secret only goes out for a key that may be spent: each call of a group's
    member, unary or streamed, follows reads of the tables, made since the last call or
    sleep, that listed the key among the group's carried members and showed it live and
    able to serve the request; a pinned call follows a read that showed the key carried
    into the project; a pinned stream one that showed it live. *)
Theorem router_spends_only_carried w g k p q s : trace s = [] ->
  gated (seen g q) (trace (call w g q s).2) /\ gated (seen g q) (trace (call_stream g q s).2) /\
  gated (seen_carried p) (trace (call_single_key k p q s).2) /\ gated seen_active (trace (call_single_key_stream k q s).2).
Proof using.
  intros Hs. assert (Hidle : forall e l, idle e -> gated (seen g q) l -> gated (seen g q) (e :: l)) by by intros [].
  split_and!.
  - refine (call_kept _ _ _ _ _ _ Hidle g q _ w s _); [intros em; apply call_member_gate|by rewrite Hs].
  - refine (call_stream_kept _ _ _ _ _ _ Hidle g q _ s _); [intros em; apply stream_member_gate|by rewrite Hs].
  - refine (single_key_gate _ _ _ k p q s _). by rewrite Hs.
  - refine (single_stream_gate _ _ _ _ k q s _). by rewrite Hs.
Qed.

(** C14. Every provider call is accounted for once, whatever its end: an answer, a
    refusal, an exception of the adapter, a stream abandoned half way.  The answers are
    those of the calls, in their order; and unless a Redis command failed, for each of
    them one pipeline added its tokens and one request to the counters of its key's
    current minute and changed no other counter, and one insert added its row to the
    usage table, with its tokens and its status, or left the tables alone because the key
    has no row any more.  Nothing else is written to either.  (A unary call whose
    coroutine is cancelled is not covered.) *)
Theorem every_call_accounted w g k p q s : trace s = [] ->
  accounted (trace (call w g q s).2) /\ accounted (trace (call_stream g q s).2) /\
  accounted (trace (call_single_key k p q s).2) /\ accounted (trace (call_single_key_stream k q s).2).
Proof using.
  intros Hs. assert (H0 : accounted (trace s)) by by rewrite Hs. split_and!.
  - refine (call_kept _ _ _ _ _ _ accounted_idle g q _ w s H0). intros em. apply call_member_account.
  - refine (call_stream_kept _ _ _ _ _ _ accounted_idle g q _ s H0). intros em. apply stream_member_account.
  - exact (single_key_account _ _ _ k p q s H0).
  - exact (single_stream_account _ _ _ _ k q s H0).
Qed.

(** C15. A unary call ends: the rotation comes to a result or an exception before
    [rotate_fuel] passes, as every wait between passes is at least half a second.  By
    then it has only called carried members of the group, as the first statement of the
    call listed them, and each of them at most [retry_max + 1] times, so that the calls
    of all passes together are bounded by that listing. *)
Theorem call_terminates w g q s : trace s = [] ->
  let l := trace (call w g q s).2 in
  (call w g q s).1 <> inl XNoFuel /\
  exists d, listing l = Some d /\
    (forall k, k ∈ invoked l -> exists m, (k, m) ∈ list_ordered_carried d g /\ (tries k l <= S (Z.to_nat (retry_max (rotation m))))%nat) /\
    (length (invoked l) <= sum_list ((fun km => S (Z.to_nat (retry_max (rotation km.2)))) <$> list_ordered_carried d g))%nat.
Proof using.
  intros Hs l. destruct (call_whole w g q s Hs) as [(E & Hr & d & Hd)|(ms & (Hne & Hnd & d & Hd & Hsub) & Hf & _ & Hx)].
  - rewrite E. split; [done|]. exists d. split; [done|]. destruct (reads_quiet _ Hr) as [Hi _]. fold l in Hi. rewrite Hi.
    split; [by intros k ?%not_elem_of_nil|simpl; lia].
  - split; [done|]. exists d. split; [done|]. split.
    + intros k Hk. pose proof (fair_members _ _ Hf) as Hin. rewrite Forall_forall in Hin. apply list_elem_of_In, Hin in Hk.
      apply list_elem_of_fmap in Hk as (em & -> & Hem). exists (em_member em). split; [|by apply (fair_tries _ _ Hf)].
      eapply elem_of_sublist; [|exact Hsub]. apply list_elem_of_fmap. by exists em.
    + etrans; [by apply (fair_calls ms)|]. etrans; [|by apply sum_list_sublist, fmap_sublist, Hsub].
      rewrite <- list_fmap_compose. done.
Qed.

(** C16. Members are tried in the order of their priority: for the members the call
    listed (the group's carried members as one read showed them, those that serve the
    request kept), a key's secret only goes out while every member before it has been
    given up, or was found over its limit in the same pass, and no key is called more
    often than its policy's [retry_max + 1]. *)
Theorem rotation_in_order w g q s : trace s = [] -> invoked (trace (call w g q s).2) <> [] ->
  exists ms, members_read g ms (trace (call w g q s).2) /\ fair ms (trace (call w g q s).2).
Proof using.
  intros Hs Hi. destruct (call_whole w g q s Hs) as [(E & Hr & _)|(ms & Hm & Hf & _)]; [|by exists ms].
  by destruct (reads_quiet _ Hr) as [? _].
Qed.

(** C17. How a unary call ends says what happened: a result is the last answer, one its
    member's policy accepts, after answers that all called for going on; [no_members] or
    [provider_unavailable] mean nothing was called; [request_rejected] carries the
    detail of the last answer, which was a rejection; [all_errors] means every listed
    member was given up; [all_quota] that each was given up or over its limit in the
    last pass, and one not given up; and otherwise Redis, a decryption or the backoff's
    power failed. *)
Theorem call_outcome w g q s : trace s = [] ->
  let r := (call w g q s).1 in let l := trace (call w g q s).2 in
  (r = inl (KeyGroupExhausted (no_member_reason q) None) /\ trace_reads l) \/
  exists ms, members_read g ms l /\ outcome ms r l /\ r <> inl XNoFuel.
Proof using.
  intros Hs r l. destruct (call_whole w g q s Hs) as [(H & Hr & _)|(ms & Hm & _ & Ho & Hx)]; [by left|right]. by exists ms.
Qed.

(** C18. What the consumer of a stream sees of it: no provider call starts once an event
    was handed over, so the tokens are one member's; a stream that ends well hands over
    tokens and then one complete, successful result; one that fails after its first
    token raises and never completes; one that fails for any other reason handed over
    nothing; and the exceptions the rotation uses internally do not reach the caller. *)
Theorem stream_contract g q s : trace s = [] -> delivered (call_stream g q s).1 (trace (call_stream g q s).2).
Proof using. intros Hs. apply call_stream_ht. by rewrite Hs. Qed.
End claims.

(** ** Concrete calls

    A group of one member; the provider is unavailable at first, then it answers. *)
From S2P Require Import KeyServices KeyServiceFacts.

Definition w_db : KeyDb := default empty_db (perform_all w_setup empty_db).
Definition w_world : rst := mkR (mkShared w_db ∅ true ∅ ∅ 0) 0 [] 0 [].
Definition w_request : ProviderRequest := mkRequest LLM_CHAT [] None None None.
Definition w_adapters (p : ApiKeyProvider) : adapter_kind := Streaming.
Definition w_invoke (n : nat) (p : ApiKeyProvider) (secret : string) (q : ProviderRequest) : option ProviderCallResult :=
  match n with O => Some (mkResult 503 (VDict []) 0 0 0) | _ => Some (mkResult 200 (VDict []) 7 3 0) end.
Definition w_stream (n : nat) (p : ApiKeyProvider) (secret : string) (q : ProviderRequest) : list stream_item :=
  [IDelta "to"; IDelta "ken"; IComplete (mkResult 200 (VDict []) 7 3 0)]%string.
Definition w_open (e : EnvelopeRecord) (k : uuid) : option string := Some "secret"%string.
Definition w_unseal (h : pydict) (k : uuid) : option pydict := Some h.
Definition w_call := call w_adapters w_invoke w_open w_unseal (fun _ => 0%N) 30 30%positive w_request w_world.
Definition w_call_stream := call_stream w_adapters w_stream w_open w_unseal (fun _ => true) 30%positive w_request w_world.

Lemma router_spends_only_carried_witness :
  invoked (trace w_call.2) = [10; 10]%positive /\ gated (seen 30%positive w_request) (trace w_call.2).
Proof.
  split; [vm_compute; reflexivity|].
  exact (proj1 (router_spends_only_carried w_adapters w_invoke w_stream w_open w_unseal (fun _ => 0%N) (fun _ => true) 30 30 10 20 w_request w_world eq_refl)).
Defined.
Lemma every_call_accounted_witness :
  answers (trace w_call.2) = [(10, Some (mkResult 200 (VDict []) 7 3 0)); (10, Some (mkResult 503 (VDict []) 0 0 0))]%positive /\
  hash_at 0 (redis (sh w_call.2)) (10%positive, 0) = mkBucket 7 3 2 /\ accounted (trace w_call.2).
Proof.
  split; [vm_compute; reflexivity|]. split; [vm_compute; reflexivity|].
  exact (proj1 (every_call_accounted w_adapters w_invoke w_stream w_open w_unseal (fun _ => 0%N) (fun _ => true) 30 30 10 20 w_request w_world eq_refl)).
Defined.
Lemma call_terminates_witness : w_call.1 = inr (mkResult 200 (VDict []) 7 3 0) /\ w_call.1 <> inl XNoFuel /\
  invoked (trace w_call.2) = [10; 10]%positive /\
  exists d, listing (trace w_call.2) = Some d /\ exists m, (10%positive, m) ∈ list_ordered_carried d 30 /\ (2 <= S (Z.to_nat (retry_max (rotation m))))%nat.
Proof.
  split; [vm_compute; reflexivity|].
  destruct (call_terminates w_adapters w_invoke w_open w_unseal (fun _ => 0%N) 30 30 w_request w_world eq_refl) as (H & d & Hd & Hk & _).
  assert (Hi : invoked (trace w_call.2) = [10; 10]%positive) by (vm_compute; reflexivity).
  split; [exact H|]. split; [exact Hi|]. exists d. split; [exact Hd|]. destruct (Hk 10%positive) as (m & Hm & Ht).
  - fold w_call. rewrite Hi. apply list_elem_of_here.
  - exists m. split; [exact Hm|]. revert Ht. fold w_call. unfold tries. rewrite Hi. exact (fun H => H).
Defined.
Lemma rotation_in_order_witness : invoked (trace w_call.2) = [10; 10]%positive /\
  exists ms, members_read 30 ms (trace w_call.2) /\ fair ms (trace w_call.2).
Proof.
  assert (H : invoked (trace w_call.2) = [10; 10]%positive) by (vm_compute; reflexivity). split; [exact H|].
  refine (rotation_in_order w_adapters w_invoke w_open w_unseal (fun _ => 0%N) 30 30 w_request w_world eq_refl _).
  fold w_call. rewrite H. discriminate.
Defined.
Lemma call_outcome_witness : w_call.1 = inr (mkResult 200 (VDict []) 7 3 0) /\
  ((w_call.1 = inl (KeyGroupExhausted no_members None) /\ trace_reads (trace w_call.2)) \/
   exists ms, members_read 30 ms (trace w_call.2) /\ outcome ms w_call.1 (trace w_call.2) /\ w_call.1 <> inl XNoFuel).
Proof.
  split; [vm_compute; reflexivity|].
  exact (call_outcome w_adapters w_invoke w_open w_unseal (fun _ => 0%N) 30 30 w_request w_world eq_refl).
Defined.
Lemma stream_contract_witness :
  yields (trace w_call_stream.2) = [StreamComplete (mkResult 200 (VDict []) 7 3 0); TokenDelta "ken"; TokenDelta "to"]%string /\
  delivered w_call_stream.1 (trace w_call_stream.2).
Proof.
  split; [vm_compute; reflexivity|].
  exact (stream_contract w_adapters w_stream w_open w_unseal (fun _ => true) 30 w_request w_world eq_refl).
Defined.
