(* ===== verification/RateLimit.v ===== *)
(** * Sliding-window rate limits and concurrency slots

    The Lua scripts of [shared_kernel/auth/ratelimit.py] with [check_raw], [check] and
    the slots.  A sorted set's member carries its score in its text, so the set is one
    of pairs of a millisecond and a random number.  Redis seeds the random generator of
    a script anew on each run; the number is a parameter here. *)

From stdpp Require Import sorting.
From S2P Require Import Prelude PyFloat PyValue.

(** A Redis key's value and the instant, in microseconds, up to which it exists. *)
Definition live {A} (now : Z) (e : option (A * Z)) : option A := '(a, until) ← e; if until <? now then None else Some a.

Abbreviation members := (gset (Z * N)).
(** [ZREMRANGEBYSCORE key 0 limit] *)
Definition zremrangebyscore (limit : Z) (z : members) : members := filter (fun m => ~ (0 <= m.1 <= limit)) z.
(** The lowest score. *)
Definition oldest (z : members) : option Z := foldr (fun m o => Some (match o with Some s => Z.min m.1 s | None => m.1 end)) None (elements z).

Record RateDecision := mkDecision { allowed : bool; remaining : Z; limit : Z; reset_ms : Z; retry_after_seconds : Z }.

(** [_SCRIPT] *)
Definition script (now_ms window_ms max_count : Z) (rnd : N) (z : members) : (bool * Z * Z) * members :=
  let z := zremrangebyscore (now_ms - window_ms) z in
  let count := Z.of_nat (size z) in
  if max_count <=? count then ((false, count, default now_ms (oldest z) + window_ms), z)
  else ((true, count + 1, now_ms + window_ms), {[ (now_ms, rnd) ]} ∪ z).
Definition decision (now_ms max_count : Z) (raw : bool * Z * Z) : RateDecision :=
  let '(ok, count, reset) := raw in
  mkDecision ok (Z.max 0 (max_count - count)) max_count reset
    (if ok then 0 else Z.max 1 ((reset - now_ms) `div` 1000 + 1)).

(** The keys, with their expiries. *)
Abbreviation limiters := (gmap string (members * Z)).
Definition now_ms_of (clock : Z) : Z := clock `div` 1000.
Definition held (clock : Z) (key : string) (l : limiters) : members := default ∅ (live clock (l !! key)).
Definition check_raw (clock : Z) (rnd : N) (key : string) (window_sec max_count : Z) (l : limiters) : RateDecision * limiters :=
  let '(raw, z) := script (now_ms_of clock) (window_sec * 1000) max_count rnd (held clock key l) in
  (decision (now_ms_of clock) max_count raw,
   if raw.1.1 then <[key := (z, clock + window_sec * 1000 * 1000)]> l
   else if bool_decide (z = ∅) then delete key l else alter (fun e => (z, e.2)) key l).

(** [check]: the policy of a bucket and the identity it counts. *)
Inductive Scope := USER | IP | USER_AND_IP.
Record Policy := mkPolicy { window_sec : Z; max_count : Z; p_scope : Scope }.
Definition or_text (o : option string) (d : string) : string := match o with Some s => if String.eqb s "" then d else s | None => d end.
Definition identity (s : Scope) (user ip : option string) : string :=
  match s with
  | USER => match user with
            | Some u => if String.eqb u "" then "u:anon:" +:+ or_text ip "unknown" else "u:" +:+ u
            | None => "u:anon:" +:+ or_text ip "unknown" end
  | IP => "i:" +:+ or_text ip "unknown"
  | USER_AND_IP => "ui:" +:+ or_text user "anon" +:+ "|" +:+ or_text ip "unknown"
  end.
Definition check (clock : Z) (rnd : N) (bucket : string) (p : Policy) (user ip : option string) (l : limiters) : RateDecision * limiters :=
  check_raw clock rnd ("rl:" +:+ bucket +:+ ":" +:+ identity (p_scope p) user ip) (window_sec p) (max_count p) l.

(** ** Slots *)

(** The holders of a key and when they came, in milliseconds. *)
Abbreviation holders := (gmap positive Z).
Abbreviation slots := (gmap string (holders * Z)).
Definition slot_script (now_ms hold_ms max_count : Z) (token : positive) (z : holders) : bool * holders :=
  let z := filter (fun e : positive * Z => ~ (0 <= e.2 <= now_ms - hold_ms)) z in
  if max_count <=? Z.of_nat (size z) then (false, z) else (true, <[token := now_ms]> z).
Definition holding (clock : Z) (key : string) (s : slots) : holders := default ∅ (live clock (s !! key)).
Definition acquire_slot (clock : Z) (token : positive) (key : string) (max_count hold_sec : Z) (s : slots) : option positive * slots :=
  let '(got, z) := slot_script (now_ms_of clock) (hold_sec * 1000) max_count token (holding clock key s) in
  if got then (Some token, <[key := (z, clock + hold_sec * 1000 * 1000)]> s)
  else (None, if bool_decide (z = ∅) then delete key s else alter (fun e => (z, e.2)) key s).
Definition release_slot (clock : Z) (key : string) (token : positive) (s : slots) : slots :=
  let z := delete token (holding clock key s) in
  if bool_decide (z = ∅) then delete key s else alter (fun e => (z, e.2)) key s.

(** ** The window holds no more than its limit *)

Section window.
Context (key : string) (window max : Z).
(** The calls on one key, each a clock reading and a random number, earliest first; and
    those that were allowed, latest first. *)
Fixpoint let_through (calls : list (Z * N)) (l : limiters) (ok : list (Z * N)) : list (Z * N) :=
  match calls with
  | [] => ok
  | (clock, rnd) :: calls =>
      let '(d, l) := check_raw clock rnd key window max l in
      let_through calls l (if allowed d then (now_ms_of clock, rnd) :: ok else ok)
  end.
Definition in_window (T : Z) (m : Z * N) : Prop := T - window * 1000 < m.1 <= T.
#[export] Instance in_window_dec T m : Decision (in_window T m).
Proof. unfold in_window. apply _. Defined.

(** After a call at [clock], the calls still in the window are held, and will be as long
    as they are in it. *)
Record remembers (clock : Z) (l : limiters) (ok : list (Z * N)) : Prop := mkRemembers {
  rm_past : forall m, m ∈ ok -> 0 <= m.1 <= now_ms_of clock;
  rm_held : forall m, m ∈ ok -> now_ms_of clock - window * 1000 < m.1 ->
    exists z until, l !! key = Some (z, until) /\ m ∈ z /\ m.1 * 1000 + window * 1000000 <= until;
}.
Definition bounded (ok : list (Z * N)) : Prop := NoDup ok -> forall T, (length (filter (in_window T) ok) <= Z.to_nat max)%nat.

Lemma now_ms_le a b : a <= b -> now_ms_of a <= now_ms_of b.
Proof. intros H. apply Z.div_le_mono; lia. Qed.
Lemma now_ms_bounds c : now_ms_of c * 1000 <= c < now_ms_of c * 1000 + 1000.
Proof. unfold now_ms_of. pose proof (Z.div_mod c 1000). pose proof (Z.mod_pos_bound c 1000). lia. Qed.
Lemma remembers_later clock clock' l ok : clock <= clock' -> remembers clock l ok -> remembers clock' l ok.
Proof.
  intros Hc [H1 H2]. pose proof (now_ms_le _ _ Hc). split; intros m Hm; [specialize (H1 m Hm); lia|]. intros Hw. apply H2; [done|lia].
Qed.
Lemma held_now clock l ok m : remembers clock l ok -> m ∈ ok -> now_ms_of clock - window * 1000 < m.1 ->
  m ∈ zremrangebyscore (now_ms_of clock - window * 1000) (held clock key l).
Proof.
  intros [H1 H2] Hm Hw. destruct (H2 m Hm Hw) as (z & until & El & Hz & Hu). unfold held, live. rewrite El. cbn.
  pose proof (now_ms_bounds clock). destruct (Z.ltb_spec until clock); [lia|]. cbn. apply elem_of_filter. split; [lia|done].
Qed.
(** A call remembers what was remembered, and itself when it was allowed. *)
Lemma check_remembers clock rnd l ok : 0 <= clock -> remembers clock l ok ->
  let '(d, l') := check_raw clock rnd key window max l in
  remembers clock l' (if allowed d then (now_ms_of clock, rnd) :: ok else ok).
Proof.
  intros Hc Hr. unfold check_raw, script. set (z := zremrangebyscore _ _). pose proof (now_ms_bounds clock) as Hb.
  assert (H0 : 0 <= now_ms_of clock) by (apply Z.div_pos; lia). pose proof Hr as [H1 H2].
  destruct (Z.leb_spec max (Z.of_nat (size z))); cbn [allowed decision fst snd].
  - split; [exact H1|]. intros m Hm Hw. pose proof (held_now clock l ok m Hr Hm Hw) as Hz. fold z in Hz.
    rewrite bool_decide_false by (intros E; rewrite E in Hz; by apply elem_of_empty in Hz).
    destruct (H2 m Hm Hw) as (z0 & until & El & _ & Hu). exists z, until. rewrite lookup_alter_eq, El. by split_and!.
  - split.
    + intros m [->|Hm]%elem_of_cons; [simpl; lia|by apply H1].
    + intros m Hm Hw. exists ({[ (now_ms_of clock, rnd) ]} ∪ z), (clock + window * 1000 * 1000). rewrite lookup_insert_eq. split_and!; [done| |].
      * apply elem_of_cons in Hm as [->|Hm]; [set_solver|]. apply elem_of_union. right. by apply (held_now clock l ok).
      * apply elem_of_cons in Hm as [->|Hm]; [simpl; lia|]. specialize (H1 m Hm). lia.
Qed.
Lemma filter_size (T now : Z) (ok : list (Z * N)) (z : members) : NoDup ok -> (forall m, m ∈ ok -> m.1 <= now) -> now <= T ->
  (forall m, m ∈ ok -> now - window * 1000 < m.1 -> m ∈ z) -> (length (filter (in_window T) ok) <= size z)%nat.
Proof.
  intros Hnd Hp HT Hz. rewrite <- (size_list_to_set (C := members) (filter (in_window T) ok)) by by apply list.NoDup_filter.
  apply subseteq_size. intros m Hm%elem_of_list_to_set. apply list_elem_of_filter in Hm as [[Hw _] Hm]. apply Hz; [done|lia].
Qed.
Lemma check_bounded clock rnd l ok : 0 <= clock -> remembers clock l ok -> bounded ok ->
  let '(d, _) := check_raw clock rnd key window max l in bounded (if allowed d then (now_ms_of clock, rnd) :: ok else ok).
Proof.
  intros Hc Hr Hb. unfold check_raw, script. set (z := zremrangebyscore _ _).
  destruct (Z.leb_spec max (Z.of_nat (size z))) as [Hm|Hm]; cbn [allowed decision fst snd]; [exact Hb|].
  intros Hnd T. apply list.NoDup_cons in Hnd as [Hn Hnd]. cbn [filter list_filter].
  destruct (decide (in_window T (now_ms_of clock, rnd))) as [[Hw1 Hw2]|]; [|by apply Hb]. cbn [length] in *. simpl in Hw1, Hw2.
  pose proof (filter_size T (now_ms_of clock) ok z Hnd) as Hs. specialize (Hs ltac:(intros m Hin; by apply (rm_past _ _ _ Hr)) Hw2).
  specialize (Hs ltac:(intros m Hin Hw; by apply (held_now clock l ok))). apply (Nat.le_trans _ (S (size z))); [apply le_n_S; exact Hs|lia].
Qed.
(** The sliding window keeps its promise: whatever the calls on a key, at most
    [max_count] of those it allows lie in any window of [window_sec] seconds, provided
    no two allowed calls drew the same number in the same millisecond. *)
Theorem rate_limit_window calls : Sorted (fun a b => a.1 <= b.1) ((0, 0%N) :: calls) ->
  NoDup (let_through calls ∅ []) -> forall T, (length (filter (in_window T) (let_through calls ∅ [])) <= Z.to_nat max)%nat.
Proof.
  enough (H : forall calls c r l ok, 0 <= c -> Sorted (fun a b => a.1 <= b.1) ((c, r) :: calls) -> remembers c l ok -> bounded ok -> bounded (let_through calls l ok)).
  { intros Hs Hnd. apply (H calls 0 0%N ∅ []); [done|done| |intros _ T; simpl; lia|done]. split; intros m Hm; by apply not_elem_of_nil in Hm. }
  clear calls. induction calls as [|[c' r'] calls IH]; intros c r l ok Hc Hs Hr Hb; cbn [let_through]; [exact Hb|].
  apply Sorted_inv in Hs as [Hs Hhd]. apply HdRel_inv in Hhd. simpl in Hhd.
  pose proof (remembers_later c c' l ok Hhd Hr) as Hr'. pose proof (check_remembers c' r' l ok ltac:(lia) Hr') as H1.
  pose proof (check_bounded c' r' l ok ltac:(lia) Hr' Hb) as H2. destruct (check_raw c' r' key window max l) as [d l'].
  by apply (IH c' r'); [lia| | |].
Qed.
End window.
(** The proviso matters: with one number for every script, as Redis gives, all the calls
    of a millisecond pass a limit of two. *)
Example same_millisecond_burst : let_through "rl" 60 2 (replicate 50 (7000000, 1%N)) ∅ [] = replicate 50 (7000, 1%N).
Proof. vm_compute. reflexivity. Qed.
Definition w_checks : list (Z * N) := [(1000, 1%N); (2000, 1%N); (3000, 2%N); (70000000, 1%N)].
Lemma rate_limit_window_witness : let_through "rl" 60 2 w_checks ∅ [] = [(70000, 1%N); (2, 1%N); (1, 1%N)] /\
  (length (filter (in_window 60 70000) (let_through "rl" 60 2 w_checks ∅ [])) <= 2)%nat.
Proof.
  split; [vm_compute; reflexivity|]. apply (rate_limit_window "rl" 60 2 w_checks).
  - unfold w_checks. repeat constructor; vm_compute; discriminate.
  - apply (bool_decide_unpack _). vm_compute. exact I.
Defined.

(** ** The slots hold no more than their limit *)

Section slot_bound.
Context (key : string) (hold max : Z).
Inductive slot_op := Acquire (token : positive) | Release (token : positive).
(** Who has a slot and since when, after the operations, each at its time, earliest first. *)
Fixpoint use_slots (ops : list (Z * slot_op)) (s : slots) (active : holders) : slots * holders :=
  match ops with
  | [] => (s, active)
  | (clock, Acquire t) :: ops =>
      let '(got, s) := acquire_slot clock t key max hold s in
      use_slots ops s (match got with Some t => <[t := now_ms_of clock]> active | None => active end)
  | (clock, Release t) :: ops => use_slots ops (release_slot clock key t s) (delete t active)
  end.
(** Those that have not outstayed the hold. *)
Definition within (clock : Z) (e : positive * Z) : Prop := now_ms_of clock - hold * 1000 < e.2.
#[export] Instance within_dec clock e : Decision (within clock e).
Proof. unfold within. apply _. Defined.
Record occupied (clock : Z) (s : slots) (active : holders) : Prop := mkOccupied {
  oc_past : forall t ms, active !! t = Some ms -> 0 <= ms <= now_ms_of clock;
  oc_held : forall t ms, active !! t = Some ms -> within clock (t, ms) ->
    exists z until, s !! key = Some (z, until) /\ z !! t = Some ms /\ ms * 1000 + hold * 1000000 <= until;
}.
Definition crowd (clock : Z) (active : holders) : nat := size (filter (within clock) active).
Lemma occupied_later clock clock' s active : clock <= clock' -> occupied clock s active -> occupied clock' s active.
Proof.
  intros Hc [H1 H2]. pose proof (now_ms_le _ _ Hc). split; intros t ms Hm; [specialize (H1 t ms Hm); lia|]. intros Hw. apply (H2 t ms); [done|].
  unfold within in *. simpl in *. lia.
Qed.
Lemma crowd_later clock clock' active : clock <= clock' -> (crowd clock' active <= crowd clock active)%nat.
Proof.
  intros Hc. pose proof (now_ms_le _ _ Hc). apply map_subseteq_size. apply map_subseteq_spec. intros t ms [Hl Hw]%map_lookup_filter_Some.
  apply map_lookup_filter_Some. split; [done|]. unfold within in *. simpl in *. lia.
Qed.
Lemma holding_now clock s active t ms : occupied clock s active -> active !! t = Some ms -> within clock (t, ms) -> holding clock key s !! t = Some ms.
Proof.
  intros [H1 H2] Hm Hw. destruct (H2 t ms Hm Hw) as (z & until & El & Hz & Hu). unfold holding, live. rewrite El. cbn.
  pose proof (now_ms_bounds clock). unfold within in Hw. simpl in Hw. destruct (Z.ltb_spec until clock); [lia|done].
Qed.
Lemma kept_still clock s active t ms : occupied clock s active -> active !! t = Some ms -> within clock (t, ms) ->
  filter (fun e : positive * Z => ~ (0 <= e.2 <= now_ms_of clock - hold * 1000)) (holding clock key s) !! t = Some ms.
Proof.
  intros Ho Hm Hw. apply map_lookup_filter_Some. split; [by eapply holding_now|]. unfold within in Hw. simpl in *. lia.
Qed.
Lemma acquire_occupied clock s active t : 0 <= clock -> occupied clock s active -> (crowd clock active <= Z.to_nat max)%nat ->
  let '(got, s') := acquire_slot clock t key max hold s in
  let active' := match got with Some t => <[t := now_ms_of clock]> active | None => active end in
  occupied clock s' active' /\ (crowd clock active' <= Z.to_nat max)%nat.
Proof.
  intros Hc Ho Hb. unfold acquire_slot, slot_script. set (z := filter _ _). pose proof (now_ms_bounds clock) as Hn.
  assert (H0 : 0 <= now_ms_of clock) by (apply Z.div_pos; lia). pose proof Ho as [H1 H2].
  destruct (Z.leb_spec max (Z.of_nat (size z))) as [Hm|Hm].
  - split; [|done]. split; [exact H1|]. intros t' ms Ht Hw. pose proof (kept_still clock s active t' ms Ho Ht Hw) as Hz. fold z in Hz.
    rewrite bool_decide_false by (intros E; by rewrite E in Hz). destruct (H2 t' ms Ht Hw) as (z0 & until & El & _ & Hu).
    exists z, until. rewrite lookup_alter_eq, El. by split_and!.
  - split.
    + split.
      * intros t' ms [[<- <-]|[_ Ht]]%lookup_insert_Some; [lia|by apply (H1 t')].
      * intros t' ms Ht Hw. exists (<[t := now_ms_of clock]> z), (clock + hold * 1000 * 1000). rewrite lookup_insert_eq.
        apply lookup_insert_Some in Ht as [[<- <-]|[Hne Ht]]; [rewrite lookup_insert_eq; split_and!; [done|done|lia]|].
        rewrite lookup_insert_ne by done. split_and!; [done|by apply (kept_still clock s active)|]. specialize (H1 t' ms Ht). lia.
    + apply (Nat.le_trans _ (size (<[t := now_ms_of clock]> z))).
      * apply map_subseteq_size. apply map_subseteq_spec. intros t' ms [Ht Hw]%map_lookup_filter_Some. apply lookup_insert_Some.
        apply lookup_insert_Some in Ht as [[<- <-]|[Hne Ht]]; [by left|right]. split; [done|]. by apply (kept_still clock s active).
      * rewrite map_size_insert. destruct (z !! t); simpl; lia.
Qed.
Lemma release_occupied clock s active t : occupied clock s active -> occupied clock (release_slot clock key t s) (delete t active) /\ (crowd clock (delete t active) <= crowd clock active)%nat.
Proof.
  intros Ho. pose proof Ho as [H1 H2]. split; [split|].
  - intros t' ms [_ Ht]%lookup_delete_Some. by apply (H1 t').
  - intros t' ms [Hne Ht]%lookup_delete_Some Hw. pose proof (holding_now clock s active t' ms Ho Ht Hw) as Hz. unfold release_slot.
    assert (Hd : delete t (holding clock key s) !! t' = Some ms) by by rewrite lookup_delete_ne.
    rewrite bool_decide_false by (intros E; by rewrite E in Hd). destruct (H2 t' ms Ht Hw) as (z0 & until & El & _ & Hu).
    exists (delete t (holding clock key s)), until. rewrite lookup_alter_eq, El. by split_and!.
  - apply map_subseteq_size. apply map_subseteq_spec. intros t' ms [[_ Ht]%lookup_delete_Some Hw]%map_lookup_filter_Some. by apply map_lookup_filter_Some.
Qed.
(** A key's slots are never overbooked: whatever operations come in whatever order,
    no more holders than [max_count] have a slot they neither released nor outstayed. *)
Theorem slots_bounded ops clock : Sorted (fun a b => a.1 <= b.1) ((0, Release 1) :: ops ++ [(clock, Release 1)]) ->
  (crowd clock (use_slots ops ∅ ∅).2 <= Z.to_nat max)%nat.
Proof.
  enough (H : forall ops c o s active, 0 <= c -> Sorted (fun a b => a.1 <= b.1) ((c, o) :: ops ++ [(clock, Release 1)]) -> occupied c s active ->
    (crowd c active <= Z.to_nat max)%nat -> (crowd clock (use_slots ops s active).2 <= Z.to_nat max)%nat).
  { intros Hs. apply (H ops 0 (Release 1) ∅ ∅); [done|done|split; intros t ms Ht; by rewrite lookup_empty in Ht|vm_compute; lia]. }
  clear ops. induction ops as [|[c' o'] ops IH]; intros c o s active Hc Hs Ho Hb; cbn [use_slots].
  - apply Sorted_inv in Hs as [_ Hhd%HdRel_inv]. simpl in *. etrans; [by apply (crowd_later c)|done].
  - apply Sorted_inv in Hs as [Hs Hhd%HdRel_inv]. simpl in Hhd. pose proof (occupied_later c c' s active Hhd Ho) as Ho'.
    pose proof (crowd_later c c' active Hhd) as Hb'. destruct o' as [t|t].
    + pose proof (acquire_occupied c' s active t ltac:(lia) Ho' ltac:(lia)) as H. destruct (acquire_slot c' t key max hold s) as [got s'].
      destruct H as [H3 H4]. by apply (IH c' (Acquire t)); [lia| | |].
    + destruct (release_occupied c' s active t Ho') as [H3 H4]. apply (IH c' (Release t)); [lia|done|done|lia].
Qed.
End slot_bound.
Definition w_ops : list (Z * slot_op) := [(1000, Acquire 5%positive); (2000, Acquire 6%positive); (3000, Acquire 7%positive); (4000, Release 5%positive); (5000, Acquire 8%positive)].
Lemma slots_bounded_witness : dom (use_slots "slot" 60 2 w_ops ∅ ∅).2 = {[6; 8]}%positive /\ (crowd 60 6000 (use_slots "slot" 60 2 w_ops ∅ ∅).2 <= 2)%nat.
Proof.
  split; [apply (bool_decide_unpack _); vm_compute; exact I|]. apply (slots_bounded "slot" 60 2 w_ops 6000).
  unfold w_ops. repeat constructor; vm_compute; discriminate.
Defined.
