(* ===== verification/AuthStore.v ===== *)
(** * Accounts and sessions: tables, Redis keys, statements

    The tables of the identity context ([contexts/identity/infrastructure/tables.py])
    with the statements of its repositories (repositories.py), the Redis keys that
    sessions and login throttling use ([shared_kernel/auth/tokens.py],
    [contexts/identity/infrastructure/lockouts.py]), and the request's transaction
    ([shared_kernel/db/session.py]): what a request wrote to the tables is undone when
    it raises, what it wrote to Redis is not.

    Instants are microseconds, lifetimes whole seconds as in the code.  Random tokens,
    session ids and jtis are drawn from a supply that never repeats.  Display names,
    client addresses and the time of the last login are not modelled. *)

From stdpp Require Import sorting.
From S2P Require Import Prelude PyFloat PyValue Interleave RateLimit.

(** ** Tables *)

Inductive UserStatus := ACTIVE | PENDING | BANNED | DELETED.
#[export] Instance UserStatus_eq_dec : EqDecision UserStatus.
Proof. solve_decision. Defined.

Record User := mkUser {
  u_email : string;
  password_hash : option string;
  email_verified : bool;
  status : UserStatus;
  banned_reason : option string;
  u_deleted_at : option Z;
}.
(** What identifies a refresh token in Redis and in the tables: its SHA-256. *)
Abbreviation token := positive.
Abbreviation digest := positive.
Record SessionRow := mkSession {
  s_user_id : uuid; s_family_id : uuid; s_refresh_token_hash : digest; s_last_jti : option uuid;
  s_last_used_at : Z; s_expires_at : Z; s_revoked_at : option Z;
}.
Record OneTimeToken := mkOneTime { ot_user_id : uuid; ot_hash : digest; ot_expires_at : Z; ot_used_at : option Z }.
Abbreviation token_table := (gmap uuid OneTimeToken).
Record AuthIdentity := mkIdentity { ai_user_id : uuid; ai_provider : string; ai_subject : string }.
Record Impersonation := mkImpersonation { im_admin : uuid; im_target : uuid; im_started_at : Z; im_ended_at : option Z; im_jti : option uuid }.

Record AuthDb := mkAuthDb {
  users : gmap uuid User;
  sessions : gmap uuid SessionRow;
  verify_tokens : token_table;
  reset_tokens : token_table;
  identities : gmap uuid AuthIdentity;
  admins : gmap uuid (option Z);  (** when the role was revoked *)
  impersonations : gmap uuid Impersonation;
  audit_log : list (string * option uuid);
}.
Definition with_users f (d : AuthDb) := mkAuthDb (f (users d)) (sessions d) (verify_tokens d) (reset_tokens d) (identities d) (admins d) (impersonations d) (audit_log d).
Definition with_sessions f (d : AuthDb) := mkAuthDb (users d) (f (sessions d)) (verify_tokens d) (reset_tokens d) (identities d) (admins d) (impersonations d) (audit_log d).
Definition with_verify f (d : AuthDb) := mkAuthDb (users d) (sessions d) (f (verify_tokens d)) (reset_tokens d) (identities d) (admins d) (impersonations d) (audit_log d).
Definition with_reset f (d : AuthDb) := mkAuthDb (users d) (sessions d) (verify_tokens d) (f (reset_tokens d)) (identities d) (admins d) (impersonations d) (audit_log d).
Definition with_identities f (d : AuthDb) := mkAuthDb (users d) (sessions d) (verify_tokens d) (reset_tokens d) (f (identities d)) (admins d) (impersonations d) (audit_log d).
Definition with_admins f (d : AuthDb) := mkAuthDb (users d) (sessions d) (verify_tokens d) (reset_tokens d) (identities d) (f (admins d)) (impersonations d) (audit_log d).
Definition with_impersonations f (d : AuthDb) := mkAuthDb (users d) (sessions d) (verify_tokens d) (reset_tokens d) (identities d) (admins d) (f (impersonations d)) (audit_log d).
Definition with_audit f (d : AuthDb) := mkAuthDb (users d) (sessions d) (verify_tokens d) (reset_tokens d) (identities d) (admins d) (impersonations d) (f (audit_log d)).

(** ** Redis *)

(** [RefreshRecord], the hash under [session:]. *)
Record RefreshRecord := mkRecord {
  r_session_id : uuid; r_user_id : uuid; r_family_id : uuid; r_last_jti : option uuid;
  r_issued_at : Z; r_expires_at : Z; r_last_seen_at : Z;
}.
Definition SECOND : Z := 1000000.

(** A pending Google sign-in, and the user it links when it is not a login. *)
Inductive oauth_mode := LoginMode | LinkMode.
Record OAuthState := mkOAuthState { st_code_verifier : positive; st_nonce : positive; st_mode : oauth_mode; st_user_id : option uuid }.

Record AuthRedis := mkAuthRedis {
  session_keys : gmap digest (RefreshRecord * Z);
  session_family : gmap uuid (gset digest * Z);
  session_hash_family : gmap digest (uuid * Z);
  jti_denylist : gmap uuid (unit * Z);
  acct_failures : gmap string (Z * Z);
  ip_failures : gmap string (Z * Z);
  limits : limiters;
  oauth_states : gmap positive (OAuthState * Z);
}.

Definition with_session_keys f (r : AuthRedis) := mkAuthRedis (f (session_keys r)) (session_family r) (session_hash_family r) (jti_denylist r) (acct_failures r) (ip_failures r) (limits r) (oauth_states r).
Definition with_family f (r : AuthRedis) := mkAuthRedis (session_keys r) (f (session_family r)) (session_hash_family r) (jti_denylist r) (acct_failures r) (ip_failures r) (limits r) (oauth_states r).
Definition with_hash_family f (r : AuthRedis) := mkAuthRedis (session_keys r) (session_family r) (f (session_hash_family r)) (jti_denylist r) (acct_failures r) (ip_failures r) (limits r) (oauth_states r).
Definition with_denylist f (r : AuthRedis) := mkAuthRedis (session_keys r) (session_family r) (session_hash_family r) (f (jti_denylist r)) (acct_failures r) (ip_failures r) (limits r) (oauth_states r).
Definition with_acct_failures f (r : AuthRedis) := mkAuthRedis (session_keys r) (session_family r) (session_hash_family r) (jti_denylist r) (f (acct_failures r)) (ip_failures r) (limits r) (oauth_states r).
Definition with_ip_failures f (r : AuthRedis) := mkAuthRedis (session_keys r) (session_family r) (session_hash_family r) (jti_denylist r) (acct_failures r) (f (ip_failures r)) (limits r) (oauth_states r).
Definition with_limits f (r : AuthRedis) := mkAuthRedis (session_keys r) (session_family r) (session_hash_family r) (jti_denylist r) (acct_failures r) (ip_failures r) (f (limits r)) (oauth_states r).
Definition with_oauth_states f (r : AuthRedis) := mkAuthRedis (session_keys r) (session_family r) (session_hash_family r) (jti_denylist r) (acct_failures r) (ip_failures r) (limits r) (f (oauth_states r)).

(** ** The world of a request *)

Inductive Mail :=
  | VerifyMail (user : uuid) (t : token)
  | ResetMail (user : uuid) (t : token)
  | LinkedMail (user : uuid) (t : token)
  | AlreadyRegisteredMail (user : uuid).

Record World := mkWorld {
  db : AuthDb;         (** as the request's transaction sees it *)
  committed : AuthDb;  (** what a rollback goes back to *)
  redis : AuthRedis;
  clock : Z;
  next : positive;     (** the supply of random identifiers *)
  outbox : list Mail;
  hashed : list string; (** the passwords the hasher was given, latest first; nothing reads it *)
}.
Definition with_db f (w : World) := mkWorld (f (db w)) (committed w) (redis w) (clock w) (next w) (outbox w) (hashed w).
Definition with_redis f (w : World) := mkWorld (db w) (committed w) (f (redis w)) (clock w) (next w) (outbox w) (hashed w).

Inductive auth_error :=
  | InvalidCredentials | AccountNotVerified | AccountBanned | AccountDeleted | Lockout (retry_after : Z)
  | TokenInvalid | TokenExpired | TokenReuseError | CaptchaRequired | EmailDomainDenied | InvalidEmailFormat
  | PasswordPolicyViolation | EmailAlreadyRegistered | LastCredentialError
  | OAuthUnavailable | OAuthExchangeFailed | OAuthIdentityConflict | GoogleEmailUnverified
  | OriginalCreatorSelfDeleteBlocked | LastAdminError | SelfTargetError | NotFound | AlreadyActivated | RestoreConflict
  | IntegrityError | RuntimeError.
#[export] Instance auth_error_eq_dec : EqDecision auth_error.
Proof. solve_decision. Defined.

Abbreviation auth := (proc auth_error World).
Definition query {A} (f : AuthDb -> A) : auth A := get (fun w => f (db w)).
Definition execute (f : AuthDb -> AuthDb) : auth unit := act (fun w => (inr tt, with_db f w)).
Definition redis_do (f : Z -> AuthRedis -> AuthRedis) : auth unit := act (fun w => (inr tt, with_redis (f (clock w)) w)).
Definition now : auth Z := get clock.
(** [uuid.uuid4], [secrets.token_urlsafe] *)
Definition draw : auth positive := act (fun w => (inr (next w), mkWorld (db w) (committed w) (redis w) (clock w) (Pos.succ (next w)) (outbox w) (hashed w))).
Definition mail (m : Mail) : auth unit := act (fun w => (inr tt, mkWorld (db w) (committed w) (redis w) (clock w) (next w) (m :: outbox w) (hashed w))).
(** [PasswordHasher.verify], which [verify] stands for; and its use against [DUMMY_HASH]. *)
Definition hasher_verify (verify : string -> string -> bool * option string) (h password : string) : auth (bool * option string) :=
  act (fun w => (inr (verify h password), mkWorld (db w) (committed w) (redis w) (clock w) (next w) (outbox w) (password :: hashed w))).
Definition verify_dummy (password : string) : auth unit :=
  act (fun w => (inr tt, mkWorld (db w) (committed w) (redis w) (clock w) (next w) (outbox w) (password :: hashed w))).
Definition commit : auth unit := act (fun w => (inr tt, mkWorld (db w) (db w) (redis w) (clock w) (next w) (outbox w) (hashed w))).
(** [async with db.begin_nested()] around one insert that may violate a constraint. *)
Definition insert_or (e : auth_error) (bad : AuthDb -> bool) (f : AuthDb -> AuthDb) : auth unit :=
  act (fun w => if bad (db w) then (inl e, w) else (inr tt, with_db f w)).
Definition require {A} (o : option A) (e : auth_error) : auth A := match o with Some a => mret a | None => raise e end.
Definition audit (action : string) (actor : option uuid) : auth unit := execute (with_audit (cons (action, actor))).

(** [_request_transaction]: commit, or roll the tables back. *)
Definition request {A} (m : auth A) (w : World) : option ((auth_error + A) * World) :=
  match run m w with
  | Some (inr a, w') => Some (inr a, mkWorld (db w') (db w') (redis w') (clock w') (next w') (outbox w') (hashed w'))
  | Some (inl e, w') => Some (inl e, mkWorld (committed w') (committed w') (redis w') (clock w') (next w') (outbox w') (hashed w'))
  | None => None
  end.

(** ** Accounts *)

(** [uq_users_email_active] *)
Definition has_email (email : string) (u : User) : bool := String.eqb (u_email u) email && match u_deleted_at u with None => true | Some _ => false end.
Definition get_active_by_email (d : AuthDb) (email : string) : option (uuid * User) :=
  List.find (fun ku : uuid * User => has_email email ku.2) (map_to_list (users d)).
Definition get_by_id (d : AuthDb) (k : uuid) : option User := users d !! k.
Definition update_user (k : uuid) (f : User -> User) : AuthDb -> AuthDb := with_users (alter f k).
Definition set_password (k : uuid) (h : option string) : AuthDb -> AuthDb :=
  update_user k (fun u => mkUser (u_email u) h (email_verified u) (status u) (banned_reason u) (u_deleted_at u)).
Definition set_password_if (k : uuid) (h old : string) : AuthDb -> AuthDb :=
  update_user k (fun u => if bool_decide (password_hash u = Some old) then mkUser (u_email u) (Some h) (email_verified u) (status u) (banned_reason u) (u_deleted_at u) else u).
Definition set_email (k : uuid) (email : string) : AuthDb -> AuthDb :=
  update_user k (fun u => match status u with
    | ACTIVE | PENDING => mkUser email (password_hash u) false PENDING (banned_reason u) (u_deleted_at u)
    | _ => u end).
Definition promotable (d : AuthDb) (k : uuid) : bool := match users d !! k with Some u => bool_decide (status u = PENDING) | None => false end.
(** True when the row was promoted. *)
Definition mark_verified (k : uuid) : auth bool := act (fun w =>
  (inr (promotable (db w) k), with_db (update_user k (fun u => match status u with
    | PENDING => mkUser (u_email u) (password_hash u) true ACTIVE (banned_reason u) (u_deleted_at u)
    | _ => u end)) w)).
Definition soft_delete (k : uuid) (at_ : Z) : AuthDb -> AuthDb :=
  update_user k (fun u => mkUser (u_email u) (password_hash u) (email_verified u) DELETED (banned_reason u) (Some at_)).
Definition ban (k : uuid) (reason : string) : AuthDb -> AuthDb :=
  update_user k (fun u => mkUser (u_email u) (password_hash u) (email_verified u) BANNED (Some reason) (u_deleted_at u)).
Definition unban (k : uuid) : AuthDb -> AuthDb :=
  update_user k (fun u => mkUser (u_email u) (password_hash u) (email_verified u) ACTIVE None (u_deleted_at u)).
Definition email_taken (d : AuthDb) (email : string) : bool := match get_active_by_email d email with Some _ => true | None => false end.
Definition insert_user (k : uuid) (u : User) : AuthDb -> AuthDb := with_users <[k := u]>.
Definition is_admin (d : AuthDb) (k : uuid) : bool := bool_decide (admins d !! k = Some None).

(** ** Sessions *)

Definition by_last_use (a b : uuid * SessionRow) : Prop :=
  s_last_used_at b.2 < s_last_used_at a.2 \/ s_last_used_at a.2 = s_last_used_at b.2 /\ (b.1 <= a.1)%positive.
#[export] Instance by_last_use_dec a b : Decision (by_last_use a b).
Proof. unfold by_last_use. apply _. Defined.
Definition session_current (user : uuid) (now : Z) (s : SessionRow) : bool :=
  bool_decide (s_user_id s = user) && match s_revoked_at s with None => true | Some _ => false end && (now <? s_expires_at s).
Definition list_for_user (d : AuthDb) (user : uuid) (now : Z) (limit offset : nat) : list (uuid * SessionRow) :=
  take limit (drop offset (merge_sort by_last_use (List.filter (fun ks => session_current user now ks.2) (map_to_list (sessions d))))).
Definition insert_session (k : uuid) (s : SessionRow) : AuthDb -> AuthDb := with_sessions <[k := s]>.
Definition revoke_row (now : Z) (s : SessionRow) : SessionRow :=
  mkSession (s_user_id s) (s_family_id s) (s_refresh_token_hash s) (s_last_jti s) (s_last_used_at s) (s_expires_at s) (Some now).
Definition revoke_session_row (k : uuid) (now : Z) : AuthDb -> AuthDb := with_sessions (alter (revoke_row now) k).
Definition revoke_all_for_user (user : uuid) (now : Z) : AuthDb -> AuthDb :=
  with_sessions (fmap (fun s => if bool_decide (s_user_id s = user) && match s_revoked_at s with None => true | Some _ => false end
                               then revoke_row now s else s)).
Definition update_on_rotation (old new : digest) (jti : uuid) (now : Z) : AuthDb -> AuthDb :=
  with_sessions (fmap (fun s => if bool_decide (s_refresh_token_hash s = old)
    then mkSession (s_user_id s) (s_family_id s) new (Some jti) now (s_expires_at s) (s_revoked_at s) else s)).

(** ** One-time tokens *)

Definition burn (user : uuid) (now : Z) : token_table -> token_table :=
  fmap (fun o => if bool_decide (ot_user_id o = user) && match ot_used_at o with None => true | Some _ => false end
                 then mkOneTime (ot_user_id o) (ot_hash o) (ot_expires_at o) (Some now) else o).
Definition usable (h : digest) (now : Z) (o : OneTimeToken) : bool :=
  bool_decide (ot_hash o = h) && match ot_used_at o with None => true | Some _ => false end && (now <? ot_expires_at o).
(** The row a consumption marks, and the table after it. *)
Definition consume_row (h : digest) (now : Z) (t : token_table) : option (uuid * token_table) :=
  match List.find (fun ko : uuid * OneTimeToken => usable h now ko.2) (map_to_list t) with
  | Some (k, o) => Some (ot_user_id o, <[k := mkOneTime (ot_user_id o) (ot_hash o) (ot_expires_at o) (Some now)]> t)
  | None => None
  end.
Inductive token_kind := Verify | Reset.
#[export] Instance token_kind_eq_dec : EqDecision token_kind.
Proof. solve_decision. Defined.
Definition table_of (k : token_kind) (d : AuthDb) : token_table := match k with Verify => verify_tokens d | Reset => reset_tokens d end.
Definition with_table (k : token_kind) (f : token_table -> token_table) : AuthDb -> AuthDb := match k with Verify => with_verify f | Reset => with_reset f end.

Section hashed.
Context (sha256 : positive -> digest).
(** [_TokenRepo.issue]: earlier unused tokens of the user are used up first. *)
Definition issue (kind : token_kind) (user : uuid) (ttl : Z) : auth token :=
  t ← draw;
  n ← now;
  _ ← execute (with_table kind (burn user n));
  row ← draw;
  n ← now;
  _ ← execute (with_table kind <[row := mkOneTime user (sha256 t) (n + ttl * SECOND) None]>);
  mret t.
Definition consume (kind : token_kind) (t : token) : auth (option uuid) := act (fun w =>
  match consume_row (sha256 t) (clock w) (table_of kind (db w)) with
  | Some (user, tbl) => (inr (Some user), with_db (with_table kind (fun _ => tbl)) w)
  | None => (inr None, w)
  end).
End hashed.

(** ** Linked identities *)

Definition get_by_provider_subject (d : AuthDb) (p sub : string) : option (uuid * AuthIdentity) :=
  List.find (fun ki : uuid * AuthIdentity => String.eqb (ai_provider ki.2) p && String.eqb (ai_subject ki.2) sub) (map_to_list (identities d)).
Definition identities_of (d : AuthDb) (user : uuid) : list AuthIdentity :=
  List.filter (fun i => bool_decide (ai_user_id i = user)) (map_to_list (identities d)).*2.
(** The two unique constraints. *)
Definition identity_taken (d : AuthDb) (user : uuid) (p sub : string) : bool :=
  match get_by_provider_subject d p sub with Some _ => true | None => false end ||
  existsb (fun i => String.eqb (ai_provider i) p) (identities_of d user).
Definition insert_identity (k user : uuid) (p sub : string) : AuthDb -> AuthDb := with_identities <[k := mkIdentity user p sub]>.
Definition delete_identity (user : uuid) (p : string) : AuthDb -> AuthDb :=
  with_identities (filter (fun ki : uuid * AuthIdentity => ~ (ai_user_id ki.2 = user /\ ai_provider ki.2 = p))).
