(* ===== verification/RefreshTokens.v ===== *)
(** * Refresh tokens, the denylist and login throttling

    [shared_kernel/auth/tokens.py]: creating, rotating and revoking a session, killing a
    family, the denylist of access tokens; and [contexts/identity/infrastructure/lockouts.py].
    Each Redis command or pipeline is one atomic step.  A token is drawn in the step
    that stores it: it is random, and nobody sees it earlier. *)

From S2P Require Import Prelude PyFloat PyValue Interleave RateLimit AuthStore.

(** [JwtSection] of the settings, in seconds. *)
Record JwtSection := mkJwt { access_ttl_seconds : Z; refresh_ttl_seconds : Z; idle_timeout_seconds : Z }.
Definition default_jwt : JwtSection := mkJwt (15 * 60) (30 * 24 * 3600) (45 * 60).

(** [max(1, int((expires - now).total_seconds()))] *)
Definition ttl_until (expires now : Z) : Z := Z.max 1 ((expires - now) `quot` SECOND).

Section tokens.
Context (sha256 : positive -> digest) (cfg : JwtSection).

(** ** Sessions *)

Definition family_members (now : Z) (r : AuthRedis) (f : uuid) : gset digest := default ∅ (live now (session_family r !! f)).
(** The part [_write_session] and the pipeline of a rotation share. *)
Definition put_session (at_ ttl : Z) (h : digest) (rec : RefreshRecord) (gone : gset digest) (r : AuthRedis) : AuthRedis :=
  let until := at_ + ttl * SECOND in
  with_session_keys <[h := (rec, until)]>
    (with_family <[r_family_id rec := ({[h]} ∪ (family_members at_ r (r_family_id rec) ∖ gone), until)]>
      (with_hash_family <[h := (r_family_id rec, until)]> r)).
Definition create_session (user session : uuid) (jti : option uuid) : auth (token * RefreshRecord) :=
  family ← draw;
  act (fun w =>
    let t := next w in
    let issued := clock w in
    let rec := mkRecord session user family jti issued (issued + refresh_ttl_seconds cfg * SECOND) issued in
    (inr (t, rec), mkWorld (db w) (committed w) (put_session issued (ttl_until (r_expires_at rec) issued) (sha256 t) rec ∅ (redis w)) issued (Pos.succ t) (outbox w) (hashed w))).

Definition get_record (t : token) : auth (option RefreshRecord) := get (fun w => live (clock w) (session_keys (redis w) !! sha256 t)).

Definition drop_hash (h : digest) (r : AuthRedis) : AuthRedis := with_session_keys (delete h) (with_hash_family (delete h) r).
Definition kill_family (f : uuid) : auth unit :=
  hashes ← get (fun w => family_members (clock w) (redis w) f);
  if bool_decide (hashes = ∅) then mret tt else
  redis_do (fun _ r => with_family (delete f) (set_fold drop_hash r hashes)).
Definition kill_family_by_hash (h : digest) : auth unit :=
  family ← get (fun w => live (clock w) (session_hash_family (redis w) !! h));
  match family with Some f => kill_family f | None => mret tt end.

Definition rotate_session (old : token) (new_jti : uuid) : auth (token * RefreshRecord * digest) :=
  let old_hash := sha256 old in
  found ← get (fun w => (live (clock w) (session_keys (redis w) !! old_hash), clock w));
  match found with
  | (None, _) => _ ← kill_family_by_hash old_hash; raise TokenReuseError
  | (Some rec, n) =>
      if r_expires_at rec <? n then _ ← redis_do (fun _ => with_session_keys (delete old_hash)); raise TokenReuseError else
      act (fun w =>
        let t := next w in
        let rec' := mkRecord (r_session_id rec) (r_user_id rec) (r_family_id rec) (Some new_jti) (r_issued_at rec) (r_expires_at rec) n in
        (inr (t, rec', old_hash),
         mkWorld (db w) (committed w) (put_session (clock w) (ttl_until (r_expires_at rec) n) (sha256 t) rec' {[old_hash]} (with_session_keys (delete old_hash) (redis w)))
           (clock w) (Pos.succ t) (outbox w) (hashed w)))
  end.

Definition leave_family (now : Z) (f : uuid) (h : digest) (r : AuthRedis) : AuthRedis :=
  match live now (session_family r !! f) with
  | Some hs => if bool_decide (hs ∖ {[h]} = ∅) then with_family (delete f) r
               else with_family (alter (fun e => (e.1 ∖ {[h]}, e.2)) f) r
  | None => r
  end.
Definition revoke_session (t : token) : auth (option RefreshRecord) :=
  let h := sha256 t in
  found ← get_record t;
  match found with
  | None => mret None
  | Some rec => _ ← redis_do (fun n r => leave_family n (r_family_id rec) h (drop_hash h r)); mret (Some rec)
  end.

(** ** The denylist *)

(** [ttl] in microseconds, as a [timedelta]. *)
Definition deny_jti (jti : uuid) (ttl : Z) : auth unit :=
  redis_do (fun n => with_denylist <[jti := (tt, n + Z.max 1 (ttl `quot` SECOND) * SECOND)]>).
Definition deny_access_jti (jti : uuid) : auth unit := deny_jti jti (access_ttl_seconds cfg * SECOND).
Definition is_denied (jti : uuid) : auth bool := get (fun w => bool_decide (is_Some (live (clock w) (jti_denylist (redis w) !! jti)))).

(** ** Lockouts *)

Definition WINDOW : Z := 15 * 60.
Definition ACCOUNT_THRESHOLD : Z := 5.
Definition IP_THRESHOLD : Z := 20.
(** [INCR] then [EXPIRE]. *)
Definition bump (now : Z) (m : gmap string (Z * Z)) (k : string) : Z * gmap string (Z * Z) :=
  let n := default 0 (live now (m !! k)) + 1 in (n, <[k := (n, now + WINDOW * SECOND)]> m).
(** [TTL]: rounded to the second, negative without a key. *)
Definition ttl_of (now : Z) (m : gmap string (Z * Z)) (k : string) : Z :=
  match m !! k with Some (_, until) => if until <? now then -2 else (until - now + 500000) `div` SECOND | None => -2 end.
Definition failures (now : Z) (m : gmap string (Z * Z)) (k : string) : Z := default 0 (live now (m !! k)).

Definition check_only (email ip : string) : auth (option Z) :=
  a ← get (fun w => failures (clock w) (acct_failures (redis w)) email);
  i ← get (fun w => failures (clock w) (ip_failures (redis w)) ip);
  if ACCOUNT_THRESHOLD <=? a then ttl ← get (fun w => ttl_of (clock w) (acct_failures (redis w)) email); mret (Some (Z.max 1 ttl)) else
  if IP_THRESHOLD <=? i then ttl ← get (fun w => ttl_of (clock w) (ip_failures (redis w)) ip); mret (Some (Z.max 1 ttl)) else
  mret None.
Definition check_and_record_failure (email ip : string) : auth (option Z) :=
  counts ← act (fun w =>
    let '(a, am) := bump (clock w) (acct_failures (redis w)) email in
    let '(i, im) := bump (clock w) (ip_failures (redis w)) ip in
    (inr (a, i), with_redis (fun r => with_ip_failures (fun _ => im) (with_acct_failures (fun _ => am) r)) w));
  let '(a, i) := (counts : Z * Z) in
  if (ACCOUNT_THRESHOLD <=? a) || (IP_THRESHOLD <=? i) then
    ttl ← get (fun w => if ACCOUNT_THRESHOLD <=? a then ttl_of (clock w) (acct_failures (redis w)) email else ttl_of (clock w) (ip_failures (redis w)) ip);
    mret (Some (if 0 <? ttl then Z.max 1 ttl else WINDOW))
  else mret None.
Definition clear_account (email : string) : auth unit := redis_do (fun _ => with_acct_failures (delete email)).
End tokens.
