(* ===== verification/AuthService.v ===== *)
(** * Authentication

    [contexts/identity/application/auth_service.py], the access tokens of
    [shared_kernel/auth/jwt.py] and the password rule of [password.py].

    Parameters: SHA-256, the argon2 hasher, Unicode's NFKC, the captcha service, Google,
    the e-mail domain policy, the tenancy
    context's answer whether an organisation still needs the user, and the random number
    of a Lua script.  Access tokens are their claims: Vault's signature makes them
    unforgeable. *)

From stdpp Require Import pretty.
From S2P Require Import Prelude PyFloat PyValue Interleave RateLimit AuthStore RefreshTokens.

(** ** Text rules *)

Definition strip (s : string) : string := unchars (strip_chars is_space (chars s)).
(** [e.rfind("@")] *)
Fixpoint last_at (l : list ascii) (i : Z) (found : Z) : Z :=
  match l with [] => found | c :: l => last_at l (i + 1) (if bool_decide (c = "@"%char) then i else found) end.
Definition normalise_email (raw : string) : option string :=
  let e := py_lower (strip raw) in
  let n := Z.of_nat (String.length e) in
  let at_ := last_at (chars e) 0 (-1) in
  if (at_ <=? 0) || (n - 1 <=? at_) || (320 <? n) then None else Some e.

Definition is_letter (c : ascii) : bool := between 97 122 (code c) || between 65 90 (code c).
Definition is_digit10 (c : ascii) : bool := between 48 57 (code c).
Definition MIN_LEN : Z := 10.
Definition MAX_LEN : Z := 1024.
Definition password_ok (normalised : string) : bool :=
  let l := chars normalised in
  let n := Z.of_nat (length l) in
  (MIN_LEN <=? n) && (n <=? MAX_LEN) && existsb is_letter l && existsb is_digit10 l && existsb (fun c => negb (is_letter c || is_digit10 c)) l.

(** ** Results *)

Record AccessClaims := mkClaims { sub : uuid; c_session_id : uuid; jti : uuid; exp : Z; iat : Z; c_is_admin : bool }.
Record TokenPair := mkPair { access_token : AccessClaims; refresh_token : token }.
Record LoginOutcome := mkLogin { lo_user : uuid; lo_tokens : TokenPair; lo_session_id : uuid }.

Record GoogleProfile := mkProfile { g_sub : string; g_email : string; g_email_verified : bool }.
Inductive google_answer := Unconfigured | Unreachable | BadToken | Profile (p : GoogleProfile).

Definition GOOGLE : string := "google".
Definition VERIFY_TTL : Z := 24 * 3600.
Definition RESET_TTL : Z := 30 * 60.
Definition SESSION_LIMIT : nat := Z.to_nat 10000.

Section service.
Context (sha256 : positive -> digest) (cfg : JwtSection)
  (hash : string -> string) (verify : string -> string -> bool * option string) (nfkc : string -> string)
  (captcha_ok : option string -> bool) (domain_allowed : string -> bool)
  (google : positive -> positive -> positive -> google_answer)
  (org_needs : uuid -> bool) (hexdigest : string -> string) (lua : N).

Definition email_of (raw : string) : auth string := require (normalise_email raw) InvalidEmailFormat.
Definition validate_password (candidate : string) : auth unit := if password_ok (nfkc candidate) then mret tt else raise PasswordPolicyViolation.
(** [ratelimit.check_raw]: is the call allowed? *)
Definition within_limit (key : string) (window_sec max_count : Z) : auth bool := act (fun w =>
  let '(d, l) := check_raw (clock w) lua key window_sec max_count (limits (redis w)) in
  (inr (allowed d), with_redis (with_limits (fun _ => l)) w)).
Definition text_of (k : uuid) : string := pretty k.

(** ** Sessions *)

Definition sign_access_token (user session : uuid) (is_admin : bool) : auth AccessClaims :=
  issued ← now;
  j ← draw;
  mret (mkClaims user session j (issued + access_ttl_seconds cfg * SECOND) issued is_admin).
Definition remaining_ttl (c : AccessClaims) : auth Z := n ← now; mret (exp c - n).

Definition establish_session (user : uuid) (action : string) : auth LoginOutcome :=
  admin ← query (fun d => is_admin d user);
  session ← draw;
  claims ← sign_access_token user session admin;
  created ← create_session sha256 cfg user session (Some (jti claims));
  let '(t, rec) := (created : token * RefreshRecord) in
  n ← now;
  _ ← execute (insert_session session (mkSession user (r_family_id rec) (sha256 t) (Some (jti claims)) n (r_expires_at rec) None));
  _ ← audit action (Some user);
  mret (mkLogin user (mkPair claims t) session).

Fixpoint kill_families (rows : list (uuid * SessionRow)) : auth unit :=
  match rows with
  | [] => mret tt
  | (_, s) :: rows =>
      _ ← kill_family (s_family_id s);
      _ ← match s_last_jti s with Some j => deny_jti j (access_ttl_seconds cfg * SECOND) | None => mret tt end;
      kill_families rows
  end.
Definition invalidate_user_sessions (user : uuid) : auth unit :=
  n ← now;
  rows ← query (fun d => list_for_user d user n SESSION_LIMIT 0);
  _ ← kill_families rows;
  n ← now;
  execute (revoke_all_for_user user n).

(** ** Registration *)

Definition register (email password : string) (captcha : option string) : auth unit :=
  email ← email_of email;
  if negb (captcha_ok captcha) then raise CaptchaRequired else
  if negb (domain_allowed email) then raise EmailDomainDenied else
  _ ← validate_password password;
  existing ← query (fun d => get_active_by_email d email);
  match existing with
  | Some (user, _) =>
      ok ← within_limit ("rl:reg:e:" +:+ String.substring 0 24 (hexdigest email)) 600 5;
      if ok : bool then
        _ ← mail (AlreadyRegisteredMail user);
        audit "auth.register.existing_email" (Some user)
      else mret tt
  | None =>
      user ← draw;
      _ ← insert_or IntegrityError (fun d => email_taken d email) (insert_user user (mkUser email (Some (hash password)) false PENDING None None));
      t ← issue sha256 Verify user VERIFY_TTL;
      _ ← mail (VerifyMail user t);
      audit "user.created" (Some user)
  end.
Definition verify_email (t : token) : auth uuid :=
  consumed ← consume sha256 Verify t;
  user ← require consumed TokenInvalid;
  promoted ← mark_verified user;
  row ← query (fun d => get_by_id d user);
  match row with
  | None => raise RuntimeError
  | Some u =>
      if promoted : bool then _ ← audit "auth.email_verified" (Some user); mret user
      else if bool_decide (status u = BANNED) then raise AccountBanned else raise TokenInvalid
  end.

(** ** Login *)

(** Does the password fit?  A rehash is stored for live accounts. *)
Definition check_password (found : option (uuid * User)) (password : string) : auth bool :=
  match found with
  | None => _ ← verify_dummy password; mret false
  | Some (user, u) =>
      match password_hash u with
      | None => _ ← verify_dummy password; mret false
      | Some h =>
          verification ← hasher_verify verify h password;
          match (verification : bool * option string) with
          | (false, _) => mret false
          | (true, Some rehashed) =>
              _ ← (match status u with DELETED | BANNED => mret tt | _ => execute (set_password_if user rehashed h) end : auth unit);
              mret true
          | (true, None) => mret true
          end
      end
  end.
Definition login (email password ip : string) : auth LoginOutcome :=
  email ← email_of email;
  pre ← check_only email ip;
  match pre with
  | Some retry => raise (Lockout retry)
  | None =>
      found ← query (fun d => get_active_by_email d email);
      ok ← check_password found password;
      if negb ok then
        state ← check_and_record_failure email ip;
        _ ← audit "auth.login.failed" (fst <$> found);
        match state with Some retry => raise (Lockout retry) | None => raise InvalidCredentials end
      else
      match found with
      | None => raise RuntimeError
      | Some (user, u) =>
          if bool_decide (status u = DELETED) then raise AccountDeleted else
          if bool_decide (status u = BANNED) then raise AccountBanned else
          _ ← clear_account email;
          if negb (email_verified u) then raise AccountNotVerified else
          establish_session user "auth.login.success"
      end
  end.

(** ** Refresh and logout *)

Definition refresh (t : token) : auth TokenPair :=
  peeked ← get_record sha256 t;
  match peeked with
  | None => raise TokenInvalid
  | Some peek =>
      row ← query (fun d => get_by_id d (r_user_id peek));
      if negb (match row with Some u => bool_decide (status u = ACTIVE) | None => false end) then
        _ ← invalidate_user_sessions (r_user_id peek);
        raise TokenExpired
      else
      n ← now;
      if (0 <? idle_timeout_seconds cfg) && (idle_timeout_seconds cfg * SECOND <? n - r_last_seen_at peek) then
        _ ← revoke_session sha256 t;
        _ ← match r_last_jti peek with Some j => deny_access_jti cfg j | None => mret tt end;
        n ← now;
        _ ← execute (revoke_session_row (r_session_id peek) n);
        _ ← audit "auth.idle_timeout" (Some (r_user_id peek));
        raise TokenExpired
      else
      admin ← query (fun d => is_admin d (r_user_id peek));
      claims ← sign_access_token (r_user_id peek) (r_session_id peek) admin;
      rotated ← handle (rotate_session sha256 t (jti claims)) (fun r => match r with
        | inl TokenReuseError => ttl ← remaining_ttl claims; _ ← deny_jti (jti claims) ttl; raise TokenInvalid
        | inl e => raise e
        | inr x => mret x end);
      let '(new_token, _, old_hash) := (rotated : token * RefreshRecord * digest) in
      n ← now;
      _ ← execute (update_on_rotation old_hash (sha256 new_token) (jti claims) n);
      _ ← audit "auth.refresh" (Some (r_user_id peek));
      mret (mkPair claims new_token)
  end.
Definition logout (t : token) (access_jti : uuid) (access_ttl : Z) : auth unit :=
  record ← revoke_session sha256 t;
  _ ← deny_jti access_jti access_ttl;
  match record with
  | Some rec => n ← now; _ ← execute (revoke_session_row (r_session_id rec) n); audit "auth.logout" (Some (r_user_id rec))
  | None => mret tt
  end.
Definition revoke_own_session (user session : uuid) (access_ttl : Z) : auth unit :=
  row ← query (fun d => sessions d !! session);
  match row with
  | Some s =>
      if negb (bool_decide (s_user_id s = user)) then mret tt else
      n ← now;
      _ ← execute (revoke_session_row session n);
      _ ← match s_last_jti s with Some j => deny_jti j access_ttl | None => mret tt end;
      _ ← kill_family (s_family_id s);
      audit "auth.session_revoked" (Some user)
  | None => mret tt
  end.

(** ** Passwords, address, account *)

Definition request_password_reset (email : string) : auth unit :=
  email ← email_of email;
  ok ← within_limit ("rl:reset:e:" +:+ String.substring 0 24 (hexdigest email)) 600 5;
  if negb ok then mret tt else
  found ← query (fun d => get_active_by_email d email);
  match found with
  | None => mret tt
  | Some (user, _) =>
      t ← issue sha256 Reset user RESET_TTL;
      _ ← mail (ResetMail user t);
      audit "auth.password_reset_requested" (Some user)
  end.
Definition reset_password (t : token) (new_password : string) : auth unit :=
  _ ← validate_password new_password;
  consumed ← consume sha256 Reset t;
  user ← require consumed TokenInvalid;
  _ ← execute (set_password user (Some (hash new_password)));
  _ ← invalidate_user_sessions user;
  audit "auth.password_changed" (Some user).
(** Re-authentication with the current password. *)
Definition reauthenticate (user : uuid) (password : string) : auth unit :=
  row ← query (fun d => get_by_id d user);
  match row ≫= password_hash with
  | Some h =>
      verification ← hasher_verify verify h password;
      if verification.1 : bool then mret tt else raise InvalidCredentials
  | None => raise InvalidCredentials
  end.
Definition change_password (user : uuid) (current new_password : string) : auth unit :=
  _ ← validate_password new_password;
  _ ← reauthenticate user current;
  _ ← execute (set_password user (Some (hash new_password)));
  _ ← invalidate_user_sessions user;
  audit "auth.password_changed" (Some user).
Definition change_email (user : uuid) (new_email password : string) : auth unit :=
  new_email ← email_of new_email;
  if negb (domain_allowed new_email) then raise EmailDomainDenied else
  _ ← reauthenticate user password;
  taken ← query (fun d => email_taken d new_email);
  if taken : bool then raise EmailAlreadyRegistered else
  _ ← execute (set_email user new_email);
  t ← issue sha256 Verify user VERIFY_TTL;
  _ ← mail (VerifyMail user t);
  _ ← invalidate_user_sessions user;
  audit "auth.email_changed" (Some user).
(** The tenancy cascade works on tables that are not modelled here. *)
Definition delete_account (user : uuid) (password : string) : auth unit :=
  _ ← reauthenticate user password;
  if org_needs user then raise OriginalCreatorSelfDeleteBlocked else
  n ← now;
  _ ← execute (soft_delete user n);
  _ ← audit "user.self_deleted" (Some user);
  _ ← commit;
  catch (invalidate_user_sessions user) (fun _ => mret tt).

(** ** Google *)

Definition verify_google (code verifier nonce : positive) : auth GoogleProfile :=
  match google code verifier nonce with
  | Unconfigured | Unreachable => raise OAuthUnavailable
  | BadToken => raise OAuthExchangeFailed
  | Profile p => if g_email_verified p then mret p else raise GoogleEmailUnverified
  end.
Definition guard_oauth_status (user : uuid) (u : User) : auth unit :=
  match status u with
  | DELETED => _ ← audit "auth.oauth.login.rejected" (Some user); raise AccountDeleted
  | BANNED => _ ← audit "auth.oauth.login.rejected" (Some user); raise AccountBanned
  | _ => mret tt
  end.
Definition oauth_session (user : uuid) : auth LoginOutcome := establish_session user "auth.oauth.login.success".
(** An existing account of the same address: link it, and if nobody has verified the
    address, its password and sessions go. *)
Definition bind_existing (user : uuid) (u : User) (p : GoogleProfile) : auth (option LoginOutcome) :=
  _ ← guard_oauth_status user u;
  row ← draw;
  bad ← query (fun d => identity_taken d user GOOGLE (g_sub p));
  if bad : bool then mret None else
  _ ← execute (insert_identity row user GOOGLE (g_sub p));
  _ ← (if email_verified u then mret tt else
       _ ← mark_verified user;
       _ ← execute (set_password user None);
       _ ← invalidate_user_sessions user;
       t ← issue sha256 Reset user RESET_TTL;
       mail (LinkedMail user t));
  found ← query (fun d => get_by_id d user);
  _ ← require found OAuthExchangeFailed;
  o ← oauth_session user; mret (Some o).
Definition provision (email : string) (p : GoogleProfile) : auth (option LoginOutcome) :=
  user ← draw;
  row ← draw;
  bad ← query (fun d => email_taken d email || identity_taken d user GOOGLE (g_sub p));
  if bad : bool then mret None else
  _ ← execute (insert_user user (mkUser email None true ACTIVE None None));
  _ ← execute (insert_identity row user GOOGLE (g_sub p));
  _ ← audit "auth.oauth.provisioned" (Some user);
  o ← oauth_session user; mret (Some o).
Definition try_resolve_oauth_login (p : GoogleProfile) : auth (option LoginOutcome) :=
  known ← query (fun d => get_by_provider_subject d GOOGLE (g_sub p));
  match known with
  | Some (_, i) =>
      row ← query (fun d => get_by_id d (ai_user_id i));
      u ← require row OAuthExchangeFailed;
      _ ← guard_oauth_status (ai_user_id i) u;
      o ← oauth_session (ai_user_id i); mret (Some o)
  | None =>
      email ← email_of (g_email p);
      existing ← query (fun d => get_active_by_email d email);
      match existing with
      | Some (user, u) => bind_existing user u p
      | None => provision email p
      end
  end.
Definition complete_google_login (code verifier nonce : positive) : auth LoginOutcome :=
  p ← verify_google code verifier nonce;
  first ← try_resolve_oauth_login p;
  match first with
  | Some o => mret o
  | None =>
      second ← try_resolve_oauth_login p;
      require second OAuthExchangeFailed
  end.
Definition complete_google_link (user : uuid) (code verifier nonce : positive) : auth unit :=
  p ← verify_google code verifier nonce;
  known ← query (fun d => get_by_provider_subject d GOOGLE (g_sub p));
  match known with
  | Some (_, i) => if bool_decide (ai_user_id i = user) then mret tt else raise OAuthIdentityConflict
  | None =>
      row ← draw;
      _ ← insert_or OAuthIdentityConflict (fun d => identity_taken d user GOOGLE (g_sub p)) (insert_identity row user GOOGLE (g_sub p));
      audit "auth.oauth.account_linked" (Some user)
  end.
Definition unlink_google (user : uuid) : auth unit :=
  row ← query (fun d => get_by_id d user);
  match row with
  | None => raise InvalidCredentials
  | Some u =>
      ids ← query (fun d => identities_of d user);
      if negb (existsb (fun i => String.eqb (ai_provider i) GOOGLE) ids) then mret tt else
      if bool_decide (is_Some (password_hash u)) || existsb (fun i => negb (String.eqb (ai_provider i) GOOGLE)) ids then
        _ ← execute (delete_identity user GOOGLE);
        audit "auth.oauth.account_unlinked" (Some user)
      else raise LastCredentialError
  end.
(** [OAuthStateStore]: single use. *)
Definition STATE_TTL : Z := 600.
Definition start_google_oauth (configured : bool) (mode : oauth_mode) (user : option uuid) : auth positive :=
  if negb configured then raise OAuthUnavailable else
  verifier ← draw;
  state ← draw;
  nonce ← draw;
  _ ← redis_do (fun n => with_oauth_states <[state := (mkOAuthState verifier nonce mode user, n + STATE_TTL * SECOND)]>);
  mret state.
Definition pop_state (state : positive) : auth (option OAuthState) := act (fun w =>
  (inr (live (clock w) (oauth_states (redis w) !! state)), with_redis (with_oauth_states (delete state)) w)).
(** What the callback resolves to; it captures the errors, so the tables are committed. *)
Definition complete_google_callback (code state : positive) : auth (auth_error + option LoginOutcome) :=
  popped ← pop_state state;
  match popped with
  | None => mret (inl OAuthExchangeFailed)
  | Some st =>
      catch (match st_mode st with
        | LinkMode =>
            user ← require (st_user_id st) OAuthExchangeFailed;
            _ ← complete_google_link user code (st_code_verifier st) (st_nonce st);
            mret (inr None)
        | LoginMode =>
            o ← complete_google_login code (st_code_verifier st) (st_nonce st);
            mret (inr (Some o))
        end) (fun e => mret (inl e))
  end.
End service.
