(* ===== verification/AccountAdmin.v ===== *)
(** * Account administration and the gate

    [contexts/identity/application/admin_service.py]: provisioning, bans, deletion,
    restoring, administrators; impersonation
    ([impersonation_service.py]); and the gate every request with an access token
    passes, [app/api/middleware/auth.py] with [jwt.verify_access_token].  The
    notifications, the tenancy cascades and the purge of a hard deletion are not
    modelled. *)

From S2P Require Import Prelude PyFloat PyValue Interleave RateLimit AuthStore RefreshTokens AuthService.

Section admin.
Context (sha256 : positive -> digest) (cfg : JwtSection) (domain_allowed : string -> bool) (org_needs : uuid -> bool) (lua : N).

(** ** Provisioning *)

(** [_mint_activation_links]: a set-password and a verification token. *)
Definition mint_activation_links (user admin : uuid) : auth (token * token) :=
  r ← issue sha256 Reset user RESET_TTL;
  v ← issue sha256 Verify user VERIFY_TTL;
  _ ← audit "admin.user_activation_links_issued" (Some admin);
  mret (r, v).
Definition create_user (email : string) (admin : uuid) : auth (uuid * (token * token)) :=
  ok ← within_limit lua ("rl:admin-provision:u:" +:+ text_of admin) 600 60;
  if negb ok then raise (Lockout 0) else
  email ← email_of email;
  if negb (domain_allowed email) then raise EmailDomainDenied else
  taken ← query (fun d => email_taken d email);
  if taken : bool then raise EmailAlreadyRegistered else
  user ← draw;
  _ ← insert_or EmailAlreadyRegistered (fun d => email_taken d email) (insert_user user (mkUser email None false PENDING None None));
  _ ← audit "user.created" (Some admin);
  links ← mint_activation_links user admin;
  mret (user, links).
Definition issue_activation_links (target admin : uuid) : auth (token * token) :=
  row ← query (fun d => get_by_id d target);
  match row with
  | None => raise NotFound
  | Some u =>
      if bool_decide (is_Some (u_deleted_at u)) then raise NotFound else
      if bool_decide (status u = BANNED) then raise AccountBanned else
      ids ← query (fun d => identities_of d target);
      if email_verified u && (bool_decide (is_Some (password_hash u)) || negb (bool_decide (ids = []))) then raise AlreadyActivated else
      ok ← within_limit lua ("rl:actlink:u:" +:+ text_of target) 600 5;
      if negb ok then raise (Lockout 0) else mint_activation_links target admin
  end.

(** ** Bans, deletion, restoring *)

Definition require_user (user : uuid) : auth unit := row ← query (fun d => get_by_id d user); _ ← require row NotFound; mret tt.
Definition ban_user (target admin : uuid) (reason : string) : auth unit :=
  if bool_decide (admin = target) then raise SelfTargetError else
  _ ← require_user target;
  _ ← execute (ban target reason);
  _ ← invalidate_user_sessions cfg target;
  audit "admin.ban_user" (Some admin).
Definition unban_user (target admin : uuid) : auth unit :=
  _ ← require_user target;
  _ ← execute (unban target);
  audit "admin.unban_user" (Some admin).
Definition soft_delete_user (target admin : uuid) : auth unit :=
  if bool_decide (admin = target) then raise SelfTargetError else
  _ ← require_user target;
  if org_needs target then raise OriginalCreatorSelfDeleteBlocked else
  n ← now;
  _ ← execute (soft_delete target n);
  _ ← invalidate_user_sessions cfg target;
  audit "admin.delete_user" (Some admin).
(** The status a restored account goes back to. *)
Definition restored_status (u : User) : UserStatus :=
  if bool_decide (is_Some (banned_reason u)) then BANNED else if email_verified u then ACTIVE else PENDING.
Definition restore_user (target admin : uuid) : auth bool :=
  row ← query (fun d => get_by_id d target);
  match row with
  | None => mret false
  | Some u =>
      if bool_decide (u_deleted_at u = None) then mret false else
      _ ← insert_or RestoreConflict (fun d => email_taken d (u_email u))
        (update_user target (fun u => mkUser (u_email u) (password_hash u) (email_verified u) (status u) (banned_reason u) None));
      _ ← execute (update_user target (fun u => mkUser (u_email u) (password_hash u) (email_verified u) (restored_status u) (banned_reason u) (u_deleted_at u)));
      _ ← audit "admin.restore_resource" (Some admin);
      mret true
  end.

(** ** Administrators *)

Definition active_admin (d : AuthDb) (k : uuid) (revoked : option Z) : bool :=
  bool_decide (revoked = None) &&
  match users d !! k with Some u => bool_decide (status u = ACTIVE) && bool_decide (u_deleted_at u = None) | None => false end.
Definition list_active_admin_ids (d : AuthDb) : gset uuid :=
  dom (filter (fun ka : uuid * option Z => active_admin d ka.1 ka.2 = true) (admins d)).
Definition promote_admin (target admin : uuid) : auth unit :=
  _ ← require_user target;
  _ ← execute (with_admins <[target := None]>);
  audit "admin.promote" (Some admin).
Definition end_impersonations (mine : Impersonation -> bool) (n : Z) : gmap uuid Impersonation -> gmap uuid Impersonation :=
  fmap (fun i => if mine i then mkImpersonation (im_admin i) (im_target i) (im_started_at i) (Some n) (im_jti i) else i).
Definition open_impersonation (i : Impersonation) : bool := match im_ended_at i with None => true | Some _ => false end.
Fixpoint deny_all (jtis : list uuid) : auth unit :=
  match jtis with [] => mret tt | j :: jtis => _ ← deny_access_jti cfg j; deny_all jtis end.
Definition close_impersonations (mine : Impersonation -> bool) : auth nat :=
  n ← now;
  closed ← query (fun d => List.filter (fun i => open_impersonation i && mine i) (map_to_list (impersonations d)).*2);
  _ ← execute (with_impersonations (end_impersonations (fun i => open_impersonation i && mine i) n));
  _ ← deny_all (omap im_jti closed);
  mret (length closed).
Definition demote_admin (target admin : uuid) : auth unit :=
  ids ← query list_active_admin_ids;
  if (size ids <=? 1)%nat && bool_decide (target ∈ ids) then raise LastAdminError else
  n ← now;
  _ ← execute (with_admins (alter (fun _ => Some n) target));
  _ ← close_impersonations (fun i => bool_decide (im_admin i = target));
  audit "admin.demote" (Some admin).
(** [ImpersonationService.start]: an earlier one of the same administrator ends.  The
    token carries the administrator's id as well, which is not modelled. *)
Definition start_impersonation (admin target : uuid) : auth AccessClaims :=
  if bool_decide (admin = target) then raise SelfTargetError else
  _ ← require_user target;
  active ← query (fun d => List.find (fun ki : uuid * Impersonation => bool_decide (im_admin ki.2 = admin) && open_impersonation ki.2) (map_to_list (impersonations d)));
  _ ← (match active with
    | Some (k, i) =>
        n ← now;
        _ ← execute (with_impersonations (alter (fun i => mkImpersonation (im_admin i) (im_target i) (im_started_at i) (Some n) (im_jti i)) k));
        match im_jti i with Some j => deny_access_jti cfg j | None => mret tt end
    | None => mret tt
    end : auth unit);
  session ← draw;
  claims ← sign_access_token cfg target session false;
  row ← draw;
  n ← now;
  _ ← execute (with_impersonations <[row := mkImpersonation admin target n None (Some (jti claims))]>);
  _ ← audit "admin.view_as_started" (Some admin);
  mret claims.
Definition end_impersonation (admin target : uuid) : auth bool :=
  n ← close_impersonations (fun i => bool_decide (im_admin i = admin) && bool_decide (im_target i = target));
  if (n =? 0)%nat then mret false else _ ← audit "admin.view_as_ended" (Some admin); mret true.
Definition close_idle_sessions (idle_minutes : Z) : auth nat :=
  n ← now;
  close_impersonations (fun i => im_started_at i <? n - idle_minutes * 60 * SECOND).

(** ** The gate *)

Definition LEEWAY : Z := SECOND.
(** The times in a token are whole seconds. *)
Definition seconds (t : Z) : Z := t `div` SECOND * SECOND.
Definition verify_access_token (c : AccessClaims) (n : Z) : bool :=
  (seconds (iat c) <? seconds (exp c)) && (seconds (iat c) - LEEWAY <=? n) && (n <=? seconds (exp c) + LEEWAY) && (seconds (iat c) <=? n + LEEWAY).
Record Principal := mkPrincipal { p_user_id : uuid; p_is_admin : bool; p_email_verified : bool }.
Inductive gate_error := GateExpired | GateRevoked | GateNoAccount | GateBanned.
Definition authenticate (c : AccessClaims) : auth (gate_error + Principal) :=
  n ← now;
  if negb (verify_access_token c n) then mret (inl GateExpired) else
  denied ← is_denied (jti c);
  if denied : bool then mret (inl GateRevoked) else
  row ← query (fun d => get_by_id d (sub c));
  admin ← query (fun d => is_admin d (sub c));
  match row with
  | None => mret (inl GateNoAccount)
  | Some u =>
      match status u with
      | DELETED => mret (inl GateNoAccount)
      | BANNED => mret (inl GateBanned)
      | _ => mret (inr (mkPrincipal (sub c) admin (email_verified u)))
      end
  end.
End admin.
