(* ===== verification/SessionFacts.v ===== *)
(** * What becomes of refresh tokens

    The operations of the two services as one set, and a relation that every atomic step
    of every one of them respects: a session key, once gone, stays gone, and what it
    says never changes ([follows]).  It holds however the operations are interleaved:
    a refresh that starts without a record is refused, and one that succeeds has spent
    its token, whatever runs between its commands ([refresh_refused],
    [refresh_exchange]). *)

From S2P Require Import Prelude PyFloat PyValue Interleave RateLimit AuthStore RefreshTokens AuthService AccountAdmin.

Lemma live_some {A} (now : Z) (e : option (A * Z)) (a : A) : live now e = Some a <-> exists until, e = Some (a, until) /\ now <= until.
Proof.
  unfold live. destruct e as [[b until]|]; cbn; [|naive_solver]. destruct (Z.ltb_spec until now); split; [done| |intros [= ->]|]; [|eauto|]; intros (u & [= -> ->] & Hu); [lia|done].
Qed.

(** ** What killing a family removes *)

Lemma drop_all_spec (hs : gset digest) r h :
  (h ∈ hs -> session_keys (set_fold drop_hash r hs) !! h = None) /\
  (h ∉ hs -> session_keys (set_fold drop_hash r hs) !! h = session_keys r !! h).
Proof.
  revert h. apply (set_fold_ind_L (fun r' hs => forall h, (h ∈ hs -> session_keys r' !! h = None) /\ (h ∉ hs -> session_keys r' !! h = session_keys r !! h))); [set_solver|].
  intros x X r' Hx IH h. change (session_keys (drop_hash x r')) with (delete x (session_keys r')). destruct (decide (x = h)) as [->|Hne].
  - rewrite lookup_delete_eq. set_solver.
  - rewrite lookup_delete_ne by done. destruct (IH h) as [H1 H2]. split; intros Hh; [apply H1|apply H2]; set_solver.
Qed.
Lemma drop_all_keys (hs : gset digest) r h :
  session_keys (set_fold drop_hash r hs) !! h = if bool_decide (h ∈ hs) then None else session_keys r !! h.
Proof. destruct (drop_all_spec hs r h) as [H1 H2]. case_bool_decide; auto. Qed.
Lemma drop_all_family (hs : gset digest) r : session_family (set_fold drop_hash r hs) = session_family r.
Proof. apply (set_fold_ind_L (fun r' _ => session_family r' = session_family r)); [done|]. intros x X r' _ IH. exact IH. Qed.

Section operations.
Context (sha256 : positive -> digest) (cfg : JwtSection)
  (hash : string -> string) (verify : string -> string -> bool * option string) (nfkc : string -> string)
  (captcha_ok : option string -> bool) (domain_allowed : string -> bool)
  (google : positive -> positive -> positive -> google_answer)
  (org_needs : uuid -> bool) (hexdigest : string -> string) (lua : N).

(** ** The operations of both services *)

Definition discard {A} (m : auth A) : auth unit := _ ← m; mret tt.
Inductive operation : auth unit -> Prop :=
  | OpRegister email pw c : operation (register sha256 hash nfkc captcha_ok domain_allowed hexdigest lua email pw c)
  | OpVerifyEmail t : operation (discard (verify_email sha256 t))
  | OpLogin email pw ip : operation (discard (login sha256 cfg verify email pw ip))
  | OpRefresh t : operation (discard (refresh sha256 cfg t))
  | OpLogout t j ttl : operation (logout sha256 t j ttl)
  | OpRevokeSession u s ttl : operation (revoke_own_session u s ttl)
  | OpRequestReset email : operation (request_password_reset sha256 hexdigest lua email)
  | OpResetPassword t pw : operation (reset_password sha256 cfg hash nfkc t pw)
  | OpChangePassword u pw pw' : operation (change_password cfg hash verify nfkc u pw pw')
  | OpChangeEmail u email pw : operation (change_email sha256 cfg verify domain_allowed u email pw)
  | OpDeleteAccount u pw : operation (delete_account cfg verify org_needs u pw)
  | OpGoogleLogin c v n : operation (discard (complete_google_login sha256 cfg google c v n))
  | OpGoogleLink u c v n : operation (complete_google_link google u c v n)
  | OpUnlink u : operation (unlink_google u)
  | OpStartOauth b md u : operation (discard (start_google_oauth b md u))
  | OpCallback c s : operation (discard (complete_google_callback sha256 cfg google c s))
  | OpCreateUser email a : operation (discard (create_user sha256 domain_allowed lua email a))
  | OpActivationLinks u a : operation (discard (issue_activation_links sha256 lua u a))
  | OpBan u a reason : operation (ban_user cfg u a reason)
  | OpUnban u a : operation (unban_user u a)
  | OpSoftDelete u a : operation (soft_delete_user cfg org_needs u a)
  | OpRestore u a : operation (discard (restore_user u a))
  | OpPromote u a : operation (promote_admin u a)
  | OpDemote u a : operation (demote_admin cfg u a)
  | OpImpersonate a u : operation (discard (start_impersonation cfg a u))
  | OpEndImpersonation a u : operation (discard (end_impersonation cfg a u))
  | OpCloseIdle m : operation (discard (close_idle_sessions cfg m))
  | OpAuthenticate c : operation (discard (authenticate c)).

(** ** Records only disappear *)

Definition record_of (w : World) (t : token) : option RefreshRecord := live (clock w) (session_keys (redis w) !! sha256 t).
Record follows (w w' : World) : Prop := mkFollows {
  fl_next : (next w <= next w')%positive;
  fl_clock : clock w <= clock w';
  fl_record : forall t rec, (t < next w)%positive -> record_of w' t = Some rec -> record_of w t = Some rec;
}.
#[export] Instance follows_preorder : PreOrder follows.
Proof.
  split.
  - intros w. split; [lia|lia|done].
  - intros w1 w2 w3 [A1 A2 A3] [B1 B2 B3]. split; [lia|lia|]. intros t rec Ht H. apply A3; [done|]. apply B3; [lia|done].
Qed.

Lemma follows_keys w w' : (next w <= next w')%positive -> clock w' = clock w ->
  (forall t e, (t < next w)%positive -> session_keys (redis w') !! sha256 t = Some e -> session_keys (redis w) !! sha256 t = Some e) -> follows w w'.
Proof.
  intros Hn Hc Hk. split; [done|lia|]. intros t rec Ht. unfold record_of. rewrite Hc, !live_some. intros (u & E & Hu). exists u. split; [|done]. by apply Hk.
Qed.
Lemma follows_unchanged w w' : (next w <= next w')%positive -> clock w' = clock w -> session_keys (redis w') = session_keys (redis w) -> follows w w'.
Proof. intros Hn Hc Hk. apply follows_keys; [done..|]. by rewrite Hk. Qed.
Lemma follows_redis f w : session_keys (f (redis w)) ⊆ session_keys (redis w) -> follows w (with_redis f w).
Proof. intros Hk. apply follows_keys; cbn; [lia|done|]. intros t e _ H. by apply (lookup_weaken _ _ _ _ H). Qed.

(** Every atomic step [follows]. *)
Abbreviation quiet m := (moves (E := auth_error) follows m).
Context `{Hinj : !Inj (=) (=) sha256}.

Lemma quiet_same {A} (f : World -> (auth_error + A) * World) :
  (forall w, (next w <= next (f w).2)%positive /\ clock (f w).2 = clock w /\ session_keys (redis (f w).2) = session_keys (redis w)) -> quiet (act f).
Proof. intros H. apply moves_act. intros w. destruct (H w) as (H1 & H2 & H3). by apply follows_unchanged. Qed.
Lemma still_redis f : (forall n r, session_keys (f n r) ⊆ session_keys r) -> quiet (redis_do f).
Proof. intros H. apply moves_act. intros w. by apply follows_redis. Qed.
Lemma quiet_draw : quiet draw.
Proof. apply quiet_same. intros w. cbn. split_and!; [lia|done..]. Qed.
Lemma quiet_mret {A} (a : A) : quiet (mret a : auth A).
Proof. exact I. Qed.
Lemma quiet_raise {A} e : quiet (raise e : auth A).
Proof. exact I. Qed.
Lemma quiet_require {A} (o : option A) e : quiet (require o e).
Proof. by destruct o. Qed.
Lemma quiet_insert_or e bad f : quiet (insert_or e bad f).
Proof. apply quiet_same. intros w. by destruct (bad (db w)). Qed.
Lemma quiet_execute f : quiet (execute f).
Proof. by apply quiet_same. Qed.
Lemma quiet_mark_verified u : quiet (mark_verified u).
Proof. by apply quiet_same. Qed.
Lemma quiet_consume k t : quiet (consume sha256 k t).
Proof. apply quiet_same. intros w. by destruct (consume_row _ _ _) as [[u tbl]|]. Qed.
Lemma quiet_within_limit k a b : quiet (within_limit lua k a b).
Proof. apply quiet_same. intros w. by destruct (check_raw _ _ _ _ _ _) as [d l]. Qed.

Lemma new_key_follows w w' t e : next w = t -> next w' = Pos.succ t -> clock w' = clock w ->
  (exists m, session_keys (redis w') = <[sha256 t := e]> m /\ m ⊆ session_keys (redis w)) -> follows w w'.
Proof.
  intros Ht Hn Hc (m & Em & Hm). apply follows_keys; [lia|done|]. intros x e' Hx. rewrite Em.
  rewrite lookup_insert_ne; [apply (map_subseteq_spec _ _), Hm|]. intros Heq%Hinj. lia.
Qed.
Lemma quiet_create_session u s j : quiet (create_session sha256 cfg u s j).
Proof.
  apply moves_bind; [apply quiet_draw|]. intros f. apply moves_act. intros w.
  eapply (new_key_follows _ _ (next w)); [done..|]. by eexists.
Qed.
Lemma quiet_kill_family f : quiet (kill_family f).
Proof.
  apply moves_bind; [apply moves_get, _|]. intros hs. case_bool_decide; [done|]. apply still_redis. intros _ r. cbn.
  apply map_subseteq_spec. intros h e. rewrite drop_all_keys. by case_bool_decide.
Qed.
Lemma quiet_rotate_session t j : quiet (rotate_session sha256 t j).
Proof.
  apply moves_bind; [apply moves_get, _|]. intros [[rec|] n].
  - destruct (r_expires_at rec <? n).
    + apply moves_bind; [|done]. apply still_redis. intros _ r. apply delete_subseteq.
    + apply moves_act. intros w. eapply (new_key_follows _ _ (next w)); [done..|]. eexists. split; [done|]. cbn. apply delete_subseteq.
  - apply moves_bind; [|done]. apply moves_bind; [apply moves_get, _|]. intros [f|]; [apply quiet_kill_family|done].
Qed.
Lemma leave_family_keys n f h r : session_keys (leave_family n f h r) = session_keys r.
Proof. unfold leave_family. destruct (live n _) as [hs|]; [|done]. by case_bool_decide. Qed.
Lemma quiet_revoke_session t : quiet (revoke_session sha256 t).
Proof.
  apply moves_bind; [apply moves_get, _|]. intros [rec|]; [|done]. apply moves_bind; [|done]. apply still_redis.
  intros n r. rewrite leave_family_keys. cbn. apply delete_subseteq.
Qed.

Lemma still_bind {A B} (m : auth A) (k : A -> auth B) : quiet m -> (forall a, quiet (k a)) -> quiet (m ≫= k).
Proof. apply moves_bind. Qed.
Lemma still_handle {A B} (m : auth A) (k : auth_error + A -> auth B) : quiet m -> (forall r, quiet (k r)) -> quiet (handle m k).
Proof. apply moves_handle. Qed.
Lemma still_catch {A} (m : auth A) k : quiet m -> (forall e, quiet (k e)) -> quiet (catch m k).
Proof. apply moves_catch. Qed.
Lemma still_get {A} (f : World -> A) : quiet (get f).
Proof. apply moves_get, _. Qed.
Lemma quiet_query {A} (f : AuthDb -> A) : quiet (query f).
Proof. apply still_get. Qed.
Lemma quiet_now : quiet now.
Proof. apply still_get. Qed.
Lemma quiet_audit a u : quiet (audit a u).
Proof. apply quiet_execute. Qed.
Lemma quiet_mail m : quiet (mail m).
Proof. by apply quiet_same. Qed.
Lemma quiet_hasher v h pw : quiet (hasher_verify v h pw).
Proof. by apply quiet_same. Qed.
Lemma quiet_dummy pw : quiet (verify_dummy pw).
Proof. by apply quiet_same. Qed.
Lemma quiet_commit : quiet commit.
Proof. by apply quiet_same. Qed.
Lemma quiet_deny j ttl : quiet (deny_jti j ttl).
Proof. by apply still_redis. Qed.
Create HintDb quiet discriminated.
#[local] Hint Resolve quiet_mret quiet_raise quiet_require quiet_insert_or quiet_execute quiet_mark_verified quiet_consume
  quiet_within_limit quiet_create_session quiet_kill_family quiet_rotate_session quiet_revoke_session quiet_query quiet_now
  quiet_audit quiet_mail quiet_hasher quiet_dummy quiet_commit quiet_deny quiet_draw : quiet.
Ltac hush := walk ltac:(first [apply still_get | auto with quiet]) ltac:(apply still_bind) ltac:(apply still_handle) ltac:(apply still_catch).
Lemma quiet_establish u a : quiet (establish_session sha256 cfg u a).
Proof. unfold establish_session, sign_access_token. hush. Qed.
Lemma quiet_kill_families rows : quiet (kill_families cfg rows).
Proof. induction rows as [|[k s] rows IH]; cbn [kill_families]; hush. Qed.
Lemma quiet_invalidate u : quiet (invalidate_user_sessions cfg u).
Proof. unfold invalidate_user_sessions. hush. apply quiet_kill_families. Qed.
Lemma quiet_issue k u ttl : quiet (issue sha256 k u ttl).
Proof. unfold issue. hush. Qed.
Lemma quiet_check_password found pw : quiet (check_password verify found pw).
Proof. unfold check_password. hush. Qed.
Lemma quiet_check_only e ip : quiet (check_only e ip).
Proof. unfold check_only. hush. Qed.
Lemma quiet_check_and_record e ip : quiet (check_and_record_failure e ip).
Proof.
  unfold check_and_record_failure. apply still_bind; [|hush]. apply quiet_same. intros w. by destruct (bump _ (acct_failures _) _), (bump _ (ip_failures _) _).
Qed.
Lemma quiet_clear e : quiet (clear_account e).
Proof. by apply still_redis. Qed.
Lemma quiet_sign u s a : quiet (sign_access_token cfg u s a).
Proof. unfold sign_access_token. hush. Qed.
Lemma quiet_email_of e : quiet (email_of e).
Proof. unfold email_of. hush. Qed.
Lemma quiet_validate pw : quiet (validate_password nfkc pw).
Proof. unfold validate_password. hush. Qed.
Lemma quiet_reauthenticate u pw : quiet (reauthenticate verify u pw).
Proof. unfold reauthenticate. hush. Qed.
#[local] Hint Resolve quiet_establish quiet_invalidate quiet_issue quiet_check_password quiet_check_only quiet_check_and_record
  quiet_clear quiet_sign quiet_email_of quiet_validate quiet_reauthenticate : quiet.
Lemma quiet_verify_google c v n : quiet (verify_google google c v n).
Proof. unfold verify_google. hush. Qed.
Lemma quiet_resolve p : quiet (try_resolve_oauth_login sha256 cfg p).
Proof. unfold try_resolve_oauth_login, bind_existing, provision, guard_oauth_status, oauth_session. hush. Qed.
Lemma quiet_pop s : quiet (pop_state s).
Proof. by apply quiet_same. Qed.
Lemma quiet_start b md u : quiet (start_google_oauth b md u).
Proof. unfold start_google_oauth. hush. by apply still_redis. Qed.
Lemma quiet_deny_all js : quiet (deny_all cfg js).
Proof. induction js as [|j js IH]; cbn [deny_all]; hush; by apply still_redis. Qed.
Lemma quiet_close_imp mine : quiet (close_impersonations cfg mine).
Proof. unfold close_impersonations. hush. apply quiet_deny_all. Qed.
Lemma quiet_require_user u : quiet (require_user u).
Proof. unfold require_user. hush. Qed.
Lemma quiet_mint u a : quiet (mint_activation_links sha256 u a).
Proof. unfold mint_activation_links. hush. Qed.
#[local] Hint Resolve quiet_verify_google quiet_resolve quiet_pop quiet_start quiet_close_imp quiet_require_user quiet_mint : quiet.
Lemma quiet_google_login c v n : quiet (complete_google_login sha256 cfg google c v n).
Proof. unfold complete_google_login. hush. Qed.
Lemma quiet_google_link u c v n : quiet (complete_google_link google u c v n).
Proof. unfold complete_google_link. hush. Qed.
#[local] Hint Resolve quiet_google_login quiet_google_link : quiet.

Lemma operation_quiet m : operation m -> quiet m.
Proof.
  intros []; unfold discard, register, verify_email, login, refresh, logout, revoke_own_session, request_password_reset, reset_password,
    change_password, change_email, delete_account, unlink_google, complete_google_callback, create_user, issue_activation_links,
    ban_user, unban_user, soft_delete_user, restore_user, promote_admin, demote_admin, start_impersonation, end_impersonation, close_idle_sessions, authenticate,
    deny_access_jti, is_denied, remaining_ttl, get_record; hush.
Qed.

(** ** Spent once and for all *)

(** What the rest of the platform does between two steps: time passes, the tables change. *)
Definition elsewhere (w w' : World) : Prop :=
  exists d c dt o v, 0 <= dt /\ w' = mkWorld d c (redis w) (clock w + dt) (next w) o v.
Lemma elsewhere_follows w w' : elsewhere w w' -> follows w w'.
Proof.
  intros (d & c & dt & o & v & Hdt & ->). split; cbn; [lia|lia|]. intros t rec _. unfold record_of; cbn. rewrite !live_some.
  intros (u & E & Hu). exists u. split; [done|lia].
Qed.
(** The service's processes, each running operations step by step, and the rest. *)
Definition served (c c' : conf auth_error World unit) : Prop :=
  reach (fun _ => operation) (fun _ w => w) (fun _ => elsewhere) (fun _ _ => True) c c'.
Lemma served_follows c c' : served c c' -> (forall p m, pool c !! p = Some m -> quiet m) ->
  follows (world c) (world c') /\ forall p m, pool c' !! p = Some m -> quiet m.
Proof.
  apply reach_moves; [apply _|intros _ m; apply operation_quiet|reflexivity|intros _; apply elsewhere_follows].
Qed.
Lemma refresh_spent t w : record_of w t = None -> run (refresh sha256 cfg t) w = Some (inl TokenInvalid, w).
Proof. intros H. unfold refresh. rewrite run_bind. unfold get_record, get. rewrite run_act. cbn [fst snd]. unfold record_of in H. by rewrite H. Qed.

(** What may happen while one request waits between two of its commands: anything that
    the service's processes and the rest do. *)
Definition others (w w' : World) : Prop :=
  exists w0 c c', served (mkConf w0 ∅) c /\ served c c' /\ world c = w /\ world c' = w'.
Lemma others_follows w w' : others w w' -> follows w w'.
Proof.
  intros (w0 & c & c' & H0 & H1 & <- & <-). destruct (served_follows _ _ H0) as [_ Hq]; [done|]. by destruct (served_follows _ _ H1 Hq).
Qed.
Lemma others_refl w : others w w.
Proof. exists w, (mkConf w ∅), (mkConf w ∅). split_and!; [constructor|constructor|done..]. Qed.
Lemma record_gone w w' t : follows w w' -> (t < next w)%positive -> record_of w t = None -> record_of w' t = None.
Proof. intros [_ _ Hr] Ht Hn. destruct (record_of w' t) as [rec|] eqn:E; [|done]. apply Hr in E; [congruence|done]. Qed.
(** A refresh of a token whose record is gone. *)
Lemma refresh_refused w t : (t < next w)%positive -> record_of w t = None ->
  among others (fun r _ => r = inl TokenInvalid) (refresh sha256 cfg t) w.
Proof.
  intros Ht Hn. unfold refresh. apply among_bind, among_get. intros w1 Hw1. cbv beta iota.
  pose proof (record_gone w w1 t (others_follows _ _ Hw1) Ht Hn) as Hn1. unfold record_of in Hn1. by rewrite Hn1.
Qed.
(** One that succeeds has spent its token, which had a record, not expired, of the user
    the access token is for. *)
Definition exchange (t : token) (w : World) (r : auth_error + TokenPair) (w' : World) : Prop :=
  match r with
  | inl _ => True
  | inr o => record_of w' t = None /\ exists rec w1, follows w w1 /\ record_of w1 t = Some rec /\
      clock w1 <= r_expires_at rec /\ sub (access_token o) = r_user_id rec
  end.
Lemma rotation_spends t j w : (t < next w)%positive ->
  among others (fun r w' => match r with inl _ => True | inr _ => (t < next w')%positive /\ record_of w' t = None /\
    exists rec w1, follows w w1 /\ record_of w1 t = Some rec /\ clock w1 <= r_expires_at rec end) (rotate_session sha256 t j) w.
Proof.
  intros Ht. unfold rotate_session. apply among_bind, among_get. intros w1 Hw1%others_follows. cbv beta iota.
  destruct (live _ _) as [rec|] eqn:El; [|by apply among_bind, among_any; intros [e|u] w'].
  destruct (Z.ltb_spec (r_expires_at rec) (clock w1)); [by apply among_bind, among_any; intros [e|u] w'|].
  apply among_act. intros w2 Hw2%others_follows. cbn [fst snd next]. pose proof (fl_next _ _ Hw1). pose proof (fl_next _ _ Hw2).
  split_and!; [lia| |by exists rec, w1]. unfold record_of, put_session. cbn.
  rewrite lookup_insert_ne, lookup_delete_eq; [done|]. intros Heq%Hinj. lia.
Qed.
Lemma refresh_exchange w t : (t < next w)%positive -> among others (exchange t w) (refresh sha256 cfg t) w.
Proof.
  intros Ht. unfold refresh. apply among_bind, among_get. intros w1 Hw1%others_follows. cbv beta iota.
  destruct (live _ _) as [peek|] eqn:Ep; [|done]. apply among_bind, among_get. intros w2 Hw2%others_follows. cbv beta iota.
  destruct (negb _); [by apply among_bind, among_any; intros [e|u] w'|].
  apply among_bind, among_get. intros w3 Hw3%others_follows. cbv beta iota. destruct (_ && _).
  { apply among_bind, among_any. intros [e|u] w'; [done|]. apply among_bind, among_any. intros [e|u2] w4; [done|].
    apply among_bind, among_any. intros [e|n] w5; [done|]. apply among_bind, among_any. intros [e|u3] w6; [done|].
    apply among_bind, among_any. by intros [e|u4] w7. }
  apply among_bind, among_get. intros w4 Hw4%others_follows. cbv beta iota. unfold sign_access_token.
  apply among_bind, among_bind, among_get. intros w5 Hw5%others_follows. cbv beta iota. apply among_bind.
  eapply among_mono; [|apply (among_moves others follows), quiet_draw; apply others_follows]. intros [e|j] w6 Hw6; [done|]. cbn [among mret proc_ret].
  assert (follows w1 w6) as H16 by (repeat (etrans; [eassumption|]); reflexivity). assert (follows w w6) as H06 by (by etrans).
  apply among_bind, among_handle. eapply among_mono; [|apply rotation_spends; pose proof (fl_next _ _ H06); lia].
  intros [e|[[t' rec'] h]] w7.
  { intros _. destruct e; try exact I. cbn [among]. unfold remaining_ttl. apply among_bind, among_any. intros [e|ttl] w8; [done|].
    apply among_bind, among_any. by intros [e|u] w9. }
  intros (Ht7 & Hn7 & rec & w8 & Hw8 & Hr8 & He8). cbn [among mret proc_ret].
  apply among_bind, among_get. intros w9 Hw9%others_follows. cbv beta iota. apply among_bind, among_act. intros w10 Hw10%others_follows.
  apply among_bind, among_act. intros w11 Hw11%others_follows. cbn [fst snd among mret proc_ret exchange sub access_token]. split.
  - apply (record_gone w11); [by apply follows_unchanged|pose proof (fl_next _ _ Hw9); pose proof (fl_next _ _ Hw10); pose proof (fl_next _ _ Hw11); cbn in *; lia|].
    apply (record_gone w10); [etrans; [|exact Hw11]; by apply follows_unchanged|pose proof (fl_next _ _ Hw9); pose proof (fl_next _ _ Hw10); cbn in *; lia|].
    apply (record_gone w7); [by etrans|done..].
  - exists rec, w8. split_and!; [by etrans|done|done|]. pose proof (fl_record _ _ (transitivity H16 Hw8) t rec) as Hp.
    unfold record_of in Hp at 2. rewrite Ep in Hp. cbn in Hp. pose proof (fl_next _ _ Hw1). specialize (Hp ltac:(lia) Hr8). by injection Hp as ->.
Qed.
End operations.

(** ** A service to try the theorems on

    Two accounts, [1] and [2]; a hash that is its text, and passwords that are theirs. *)
Definition w_sha (p : positive) : digest := p.
#[export] Instance w_sha_inj : Inj (=) (=) w_sha.
Proof. by intros a b. Qed.
Definition w_hash (s : string) : string := s.
Definition w_verify (h p : string) : bool * option string := (String.eqb h p, None).
Definition w_user (email : string) : User := mkUser email (Some "correct horse 1") true ACTIVE None None.
Definition w_db : AuthDb := mkAuthDb (list_to_map [(1%positive, w_user "a@x.org"); (2%positive, w_user "b@x.org")]) ∅ ∅ ∅ ∅ ∅ ∅ [].
Definition w_world : World := mkWorld w_db w_db (mkAuthRedis ∅ ∅ ∅ ∅ ∅ ∅ ∅ ∅) 0 10%positive [] [].
(** The state after a request, and the token a login brings. *)
Definition w_after {A} (m : auth A) (w : World) : World := match request m w with Some (_, w') => w' | None => w end.
Definition w_login (email : string) : auth LoginOutcome := login w_sha default_jwt w_verify email "correct horse 1" "10.0.0.1".
Definition w_token (email : string) (w : World) : token :=
  match request (w_login email) w with Some (inr o, _) => refresh_token (lo_tokens o) | _ => 1%positive end.
Definition w_google (c v n : positive) : google_answer := Unconfigured.

Definition w_in : World := w_after (discard (w_login "a@x.org")) w_world.
Definition w_out : World := w_after (logout w_sha (w_token "a@x.org" w_world) 11 900) w_in.
