(* ===== verification/SessionLedger.v ===== *)
(** * Sessions in the table and in Redis

    A session lives in two places: a row of the table, which revoking all the sessions
    of a user goes through, and the keys of Redis, which a refresh consults.  [sound]
    ties them: every refresh token that can still be exchanged belongs to a row that
    says so and to the set of its family, and a session has one token at a time.  Every
    request preserves it, a failing one included, whose tables are rolled back while
    Redis keeps what it wrote; so the operations that end a user's sessions end all of
    them ([sessions_ended]).  Requests follow each other here: two at a time may break
    it. *)

From stdpp Require Import sorting.
From S2P Require Import Prelude PyFloat PyValue Interleave RateLimit AuthStore RefreshTokens AuthService AccountAdmin SessionFacts.

Section ledger.
Context (sha256 : positive -> digest) (cfg : JwtSection)
  (hash : string -> string) (verify : string -> string -> bool * option string) (nfkc : string -> string)
  (captcha_ok : option string -> bool) (domain_allowed : string -> bool)
  (google : positive -> positive -> positive -> google_answer)
  (org_needs : uuid -> bool) (hexdigest : string -> string) (lua : N).
Context `{Hinj : !Inj (=) (=) sha256}.

(** ** The invariant *)

(** A key that exists and whose session has not run out. *)
Definition fresh_key (c : Z) (r : AuthRedis) (h : digest) (rec : RefreshRecord) (until : Z) : Prop :=
  session_keys r !! h = Some (rec, until) /\ c <= until /\ c < r_expires_at rec.
Definition in_family (r : AuthRedis) (h : digest) (f : uuid) (until : Z) : Prop :=
  exists hs uf, session_family r !! f = Some (hs, uf) /\ until <= uf /\ h ∈ hs.
Definition row_of (d : AuthDb) (rec : RefreshRecord) : Prop :=
  exists s, sessions d !! r_session_id rec = Some s /\ s_user_id s = r_user_id rec /\ s_family_id s = r_family_id rec /\
    s_revoked_at s = None /\ s_expires_at s = r_expires_at rec.
Record sound (d : AuthDb) (r : AuthRedis) (c : Z) (n : positive) : Prop := mkSound {
  so_token : forall h e, session_keys r !! h = Some e ->
    (exists t, (t < n)%positive /\ h = sha256 t) /\ (r_session_id e.1 < n)%positive /\ (r_family_id e.1 < n)%positive;
  so_one : forall h1 h2 e1 e2, session_keys r !! h1 = Some e1 -> session_keys r !! h2 = Some e2 ->
    r_session_id e1.1 = r_session_id e2.1 \/ r_family_id e1.1 = r_family_id e2.1 -> h1 = h2;
  so_family : forall h rec until, fresh_key c r h rec until -> in_family r h (r_family_id rec) until;
  so_row : forall h rec until, fresh_key c r h rec until -> row_of d rec;
}.
(** No user has more sessions than the reader of the table returns at once. *)
Definition few (d : AuthDb) (c : Z) : Prop :=
  forall user, (length (List.filter (fun ks => session_current user c ks.2) (map_to_list (sessions d))) <= SESSION_LIMIT)%nat.
Definition sound_in (d : AuthDb) (w : World) : Prop := sound d (redis w) (clock w) (next w).
(** The tables as the request sees them, and as a rollback leaves them. *)
Definition both (w : World) : Prop := sound_in (db w) w /\ sound_in (committed w) w /\ few (db w) (clock w).
(** How a request may end. *)
Definition settled {A} (r : auth_error + A) (w : World) : Prop := match r with inl _ => both w | inr _ => sound_in (db w) w end.

Lemma sound_rows d d' r c n : sessions d' = sessions d -> sound d r c n -> sound d' r c n.
Proof. intros E [H1 H2 H3 H4]. split; [done..|]. intros h rec until H. unfold row_of. rewrite E. by apply (H4 h _ until). Qed.
Lemma sound_later d r c c' n : c <= c' -> sound d r c n -> sound d r c' n.
Proof.
  intros Hc [H1 H2 H3 H4]. assert (forall h rec until, fresh_key c' r h rec until -> fresh_key c r h rec until) as Hf.
  { intros h rec until (? & ? & ?). split_and!; [done|lia|lia]. }
  split; [done|done|intros; apply H3; auto|intros; eapply H4; eauto].
Qed.
Lemma sound_next d r c n n' : (n <= n')%positive -> sound d r c n -> sound d r c n'.
Proof. intros Hn [H1 H2 H3 H4]. split; [|done..]. intros h e (( t & Ht & ->) & Hs & Hf)%H1. split_and!; [exists t; split; [lia|done]|lia..]. Qed.
(** Keys may go as long as those that stay keep their family. *)
Lemma sound_fewer d r r' c n : sound d r c n ->
  (forall h e, session_keys r' !! h = Some e -> session_keys r !! h = Some e) ->
  (forall h rec until, fresh_key c r' h rec until -> session_family r' !! r_family_id rec = session_family r !! r_family_id rec) ->
  sound d r' c n.
Proof.
  intros [H1 H2 H3 H4] Hk Hf. assert (forall h rec until, fresh_key c r' h rec until -> fresh_key c r h rec until) as Hfr.
  { intros h rec until (H & ? & ?). split_and!; auto. }
  split; [by intros h e ?%Hk%H1|by intros h1 h2 e1 e2 ?%Hk ?%Hk; apply H2| |by intros h rec until ?%Hfr%H4].
  intros h rec until H. unfold in_family. rewrite (Hf _ _ _ H). by apply H3, Hfr.
Qed.
Lemma sound_same d r r' c n : session_keys r' = session_keys r -> session_family r' = session_family r -> sound d r c n -> sound d r' c n.
Proof. intros Ek Ef H. apply (sound_fewer d r); [done|by rewrite Ek|by rewrite Ef]. Qed.
(** A row may change as long as no usable token points to it. *)
Lemma sound_row d d' r c n : sound d r c n ->
  (forall h rec until s, fresh_key c r h rec until -> sessions d !! r_session_id rec = Some s -> s_user_id s = r_user_id rec ->
     s_family_id s = r_family_id rec -> s_revoked_at s = None -> exists s', sessions d' !! r_session_id rec = Some s' /\
     s_user_id s' = s_user_id s /\ s_family_id s' = s_family_id s /\ s_revoked_at s' = None /\ s_expires_at s' = s_expires_at s) ->
  sound d' r c n.
Proof.
  intros [H1 H2 H3 H4] Hd. split; [done..|]. intros h rec until H. destruct (H4 _ _ _ H) as (s & Es & Hu & Hf & Hr & He).
  destruct (Hd h rec until s H Es Hu Hf Hr) as (s' & Es' & Hu' & Hf' & Hr' & He'). exists s'. split_and!; [done|congruence..].
Qed.

(** ** A session begins, and its token is exchanged *)

Lemma lookup_put a ttl h rec gone r h' : session_keys (put_session a ttl h rec gone r) !! h' =
  if decide (h = h') then Some (rec, a + ttl * SECOND) else session_keys r !! h'.
Proof. change (session_keys (put_session a ttl h rec gone r)) with (<[h := (rec, a + ttl * SECOND)]> (session_keys r)). apply lookup_insert. Qed.
Lemma family_put a ttl h rec gone r f : session_family (put_session a ttl h rec gone r) !! f =
  if decide (r_family_id rec = f) then Some ({[h]} ∪ (family_members a r (r_family_id rec) ∖ gone), a + ttl * SECOND) else session_family r !! f.
Proof.
  change (session_family (put_session a ttl h rec gone r)) with
    (<[r_family_id rec := ({[h]} ∪ (family_members a r (r_family_id rec) ∖ gone), a + ttl * SECOND)]> (session_family r)). apply lookup_insert.
Qed.
(** A token [t] not drawn before, for a session of which no other key is left. *)
Lemma sound_put d r c n ttl t rec gone n' :
  sound d r c n -> (n <= n')%positive -> (n <= t < n')%positive -> (r_session_id rec < n')%positive -> (r_family_id rec < n')%positive ->
  (forall h e, session_keys r !! h = Some e -> r_session_id e.1 <> r_session_id rec /\ r_family_id e.1 <> r_family_id rec) ->
  (c < r_expires_at rec -> row_of d rec) ->
  sound d (put_session c ttl (sha256 t) rec gone r) c n'.
Proof.
  intros [H1 H2 H3 H4] Hn Ht Hs Hf Ho Hr. split.
  - intros h e. rewrite lookup_put. destruct (decide _) as [<-|Hne]; [intros [= <-]; split_and!; [exists t; split; [lia|done]|done..]|].
    intros ((x & Hx & ->) & ? & ?)%H1. split_and!; [exists x; split; [lia|done]|lia..].
  - intros h1 h2 e1 e2. rewrite !lookup_put. destruct (decide (sha256 t = h1)) as [<-|], (decide (sha256 t = h2)) as [<-|]; [done| | |by apply H2].
    + intros [= <-] E2%Ho [|]; cbn in *; naive_solver.
    + intros E1%Ho [= <-] [|]; cbn in *; naive_solver.
  - intros h rec' until (E & Hu & He). rewrite lookup_put in E. unfold in_family. rewrite family_put. destruct (decide _) as [<-|Hne].
    + injection E as <- <-. rewrite decide_True by done. eexists _, _. split_and!; [done|lia|set_solver].
    + destruct (Ho _ _ E) as [_ Hof]. cbn in Hof. rewrite decide_False by congruence. by apply H3.
  - intros h rec' until (E & Hu & He). rewrite lookup_put in E. destruct (decide _) as [<-|Hne]; [injection E as <- <-; by apply Hr|].
    by apply (H4 h _ until).
Qed.

(** ** What every operation but the beginning of a session keeps *)

Definition kept {A} (m : auth A) : Prop := forall w, both w -> after (fun _ => both) m w.
Definition settles {A} (m : auth A) : Prop := forall w, both w -> after settled m w.

Lemma kept_settles {A} (m : auth A) : kept m -> settles m.
Proof. intros H w Hw. eapply after_mono; [|by apply H]. intros [e|a] w' Hb; [done|apply Hb]. Qed.
Lemma kept_mret {A} (a : A) : kept (mret a : auth A).
Proof. by intros w Hw. Qed.
Lemma kept_raise {A} e : kept (raise e : auth A).
Proof. by intros w Hw. Qed.
Lemma kept_handle {A B} (m : auth A) (k : auth_error + A -> auth B) : kept m -> (forall r, kept (k r)) -> kept (handle m k).
Proof. intros Hm Hk w Hw. apply after_handle. eapply after_mono; [|by apply Hm]. intros r w' Hw'. by apply Hk. Qed.
Lemma kept_seq {A B} (m : auth A) (k : A -> auth B) : kept m -> (forall a, kept (k a)) -> kept (m ≫= k).
Proof. intros Hm Hk. apply kept_handle; [done|]. intros [e|a]; [apply kept_raise|apply Hk]. Qed.
Lemma kept_catch {A} (m : auth A) k : kept m -> (forall e, kept (k e)) -> kept (catch m k).
Proof. intros Hm Hk. apply kept_handle; [done|]. intros [e|a]; [apply Hk|apply kept_mret]. Qed.
Lemma kept_act {A} (f : World -> (auth_error + A) * World) : (forall w, both w -> both (f w).2) -> kept (act f).
Proof. intros H w Hw. apply after_act. by apply H. Qed.
Lemma settles_bind {A B} (m : auth A) (k : A -> auth B) : kept m -> (forall a, settles (k a)) -> settles (m ≫= k).
Proof. intros Hm Hk w Hw. apply after_bind. eapply after_mono; [|by apply Hm]. intros [e|a] w' Hw'; [done|by apply Hk]. Qed.
Lemma settles_then {A B} (m : auth A) (f : A -> B) : settles m -> settles (a ← m; mret (f a)).
Proof. intros Hm w Hw. apply after_bind. eapply after_mono; [|by apply Hm]. by intros [e|a] w' Hw'. Qed.

(** The parts of the state the invariant is about do not change. *)
Definition same_sessions (w w' : World) : Prop :=
  sessions (db w') = sessions (db w) /\ (sessions (committed w') = sessions (committed w) \/ sessions (committed w') = sessions (db w)) /\
  session_keys (redis w') = session_keys (redis w) /\ session_family (redis w') = session_family (redis w) /\
  clock w' = clock w /\ (next w <= next w')%positive.
Lemma both_same w w' : same_sessions w w' -> both w -> both w'.
Proof.
  intros (Ed & Ec & Ek & Ef & Et & En) (H1 & H2 & H3). unfold both, sound_in, few. rewrite Et, Ed.
  assert (forall d d', sessions d' = sessions d -> sound_in d w -> sound d' (redis w') (clock w) (next w')) as Hm.
  { intros d d' Es Hs. eapply sound_next; [exact En|]. eapply sound_same; [exact Ek|exact Ef|]. by eapply sound_rows. }
  split_and!; [by apply (Hm (db w))|destruct Ec as [Ec|Ec]; [by apply (Hm (committed w))|by apply (Hm (db w))]|done].
Qed.
Lemma kept_same {A} (f : World -> (auth_error + A) * World) : (forall w, same_sessions w (f w).2) -> kept (act f).
Proof. intros H. apply kept_act. intros w. by apply both_same. Qed.
Lemma same_sessions_refl w : same_sessions w w.
Proof. split_and!; auto; lia. Qed.
Lemma kept_get {A} (f : World -> A) : kept (get f).
Proof. apply kept_same, same_sessions_refl. Qed.
Ltac same := apply kept_same; intros w; unfold same_sessions; cbn; split_and!; auto; lia.
Lemma kept_query {A} (f : AuthDb -> A) : kept (query f).
Proof. apply kept_get. Qed.
Lemma kept_now : kept now.
Proof. apply kept_get. Qed.
Lemma kept_draw : kept draw.
Proof. same. Qed.
Lemma kept_mail m : kept (mail m).
Proof. same. Qed.
Lemma kept_hasher v h pw : kept (hasher_verify v h pw).
Proof. same. Qed.
Lemma kept_dummy pw : kept (verify_dummy pw).
Proof. same. Qed.
Lemma kept_commit : kept commit.
Proof. same. Qed.
Lemma kept_require {A} (o : option A) e : kept (require o e).
Proof. destruct o; [apply kept_mret|apply kept_raise]. Qed.
Lemma kept_execute f : (forall d, sessions (f d) = sessions d) -> kept (execute f).
Proof. intros H. apply kept_same. intros w. unfold same_sessions. cbn. rewrite H. split_and!; auto; lia. Qed.
Lemma kept_insert_or e bad f : (forall d, sessions (f d) = sessions d) -> kept (insert_or e bad f).
Proof.
  intros H. apply kept_same. intros w. destruct (bad (db w)); [apply same_sessions_refl|].
  unfold same_sessions. cbn. rewrite H. split_and!; auto; lia.
Qed.
Lemma kept_mark_verified u : kept (mark_verified u).
Proof. same. Qed.
Lemma with_table_sessions k f d : sessions (with_table k f d) = sessions d.
Proof. by destruct k. Qed.
Lemma kept_consume k t : kept (consume sha256 k t).
Proof.
  apply kept_same. intros w. destruct (consume_row _ _ _) as [[u tbl]|]; [|apply same_sessions_refl].
  unfold same_sessions. cbn. rewrite with_table_sessions. split_and!; auto; lia.
Qed.
Lemma kept_redis f : (forall n r, session_keys (f n r) = session_keys r /\ session_family (f n r) = session_family r) -> kept (redis_do f).
Proof. intros H. apply kept_same. intros w. destruct (H (clock w) (redis w)) as [E1 E2]. unfold same_sessions. cbn. rewrite E1, E2. split_and!; auto; lia. Qed.
Lemma kept_within_limit k a b : kept (within_limit lua k a b).
Proof. apply kept_same. intros w. destruct (check_raw _ _ _ _ _ _) as [d l]. unfold same_sessions. cbn. split_and!; auto; lia. Qed.
Lemma kept_audit a u : kept (audit a u).
Proof. by apply kept_execute. Qed.
Lemma kept_deny j ttl : kept (deny_jti j ttl).
Proof. by apply kept_redis. Qed.

(** ** Keys that go *)

Lemma both_redis f w : both w ->
  (forall d, sound_in d w -> sound d (f (redis w)) (clock w) (next w)) -> both (with_redis f w).
Proof. intros (H1 & H2 & H3) Hf. split_and!; [by apply Hf|by apply Hf|done]. Qed.

(** Killing a family leaves none of its tokens. *)
Definition killed (f : uuid) (r : AuthRedis) (c : Z) : Prop := forall h rec until, fresh_key c r h rec until -> r_family_id rec <> f.
Definition fewer_keys (w w' : World) : Prop :=
  clock w' = clock w /\ db w' = db w /\ forall h e, session_keys (redis w') !! h = Some e -> session_keys (redis w) !! h = Some e.
Lemma member_key d w h rec until : sound_in d w -> fresh_key (clock w) (redis w) h rec until ->
  h ∈ family_members (clock w) (redis w) (r_family_id rec).
Proof.
  intros Hs Hf. destruct (so_family _ _ _ _ Hs h rec until Hf) as (hs & uf & E & Hu & Hh). destruct Hf as (_ & Hc & _).
  unfold family_members. replace (live (clock w) (session_family (redis w) !! r_family_id rec)) with (Some hs); [done|].
  symmetry. apply live_some. exists uf. split; [done|lia].
Qed.
Definition kill_step (f : uuid) (c : Z) (r : AuthRedis) : AuthRedis :=
  if bool_decide (family_members c r f = ∅) then r else with_family (delete f) (set_fold drop_hash r (family_members c r f)).
Lemma kill_step_run f w : run (kill_family f) w = Some (inr tt, with_redis (kill_step f (clock w)) w).
Proof.
  unfold kill_family, kill_step, with_redis. rewrite run_bind. cbn [run get act fst snd].
  destruct (bool_decide (family_members (clock w) (redis w) f = ∅)); [by destruct w|done].
Qed.
Lemma kill_step_keys f c r h : session_keys (kill_step f c r) !! h = if bool_decide (h ∈ family_members c r f) then None else session_keys r !! h.
Proof.
  unfold kill_step. destruct (bool_decide (family_members c r f = ∅)) eqn:E; cbn [session_keys with_family]; [|apply drop_all_keys].
  apply bool_decide_eq_true in E. rewrite E. by rewrite bool_decide_eq_false_2 by set_solver.
Qed.
Lemma kill_step_family f c r f' : f <> f' -> session_family (kill_step f c r) !! f' = session_family r !! f'.
Proof.
  intros Hf. unfold kill_step. destruct (bool_decide _); [done|].
  change (delete f (session_family (set_fold drop_hash r (family_members c r f))) !! f' = session_family r !! f').
  rewrite lookup_delete_ne by done. by rewrite drop_all_family.
Qed.
Lemma kill_step_killed d f w : sound_in d w -> killed f (kill_step f (clock w) (redis w)) (clock w).
Proof.
  intros Hs h rec until (E & Hc & He) <-. rewrite kill_step_keys in E. case_bool_decide as Hh; [done|].
  apply Hh. eapply member_key; [exact Hs|]. by split_and!.
Qed.
Lemma kill_step_sound d f w : sound_in d w -> sound d (kill_step f (clock w) (redis w)) (clock w) (next w).
Proof.
  intros Hs. eapply sound_fewer; [exact Hs| |].
  - intros h e. rewrite kill_step_keys. by case_bool_decide.
  - intros h rec until H. apply kill_step_family. intros ->. by apply (kill_step_killed d (r_family_id rec) w Hs h rec until H).
Qed.
Lemma kept_kill_family f : kept (kill_family f).
Proof. intros w Hw. unfold after. rewrite kill_step_run. apply both_redis; [done|]. intros d. apply kill_step_sound. Qed.

Lemma leave_family_family n f h r f' : f <> f' -> session_family (leave_family n f h r) !! f' = session_family r !! f'.
Proof.
  intros Hf. unfold leave_family. destruct (live n _) as [hs|]; [|done]. case_bool_decide.
  - apply (lookup_delete_ne (session_family r) f f' Hf).
  - apply (lookup_alter_ne _ (session_family r) f f' Hf).
Qed.
Lemma drop_hash_keys h r h' e : session_keys (drop_hash h r) !! h' = Some e <-> h <> h' /\ session_keys r !! h' = Some e.
Proof. change (session_keys (drop_hash h r)) with (delete h (session_keys r)). apply lookup_delete_Some. Qed.
Lemma kept_revoke_session t : kept (revoke_session sha256 t).
Proof.
  intros w Hw. unfold revoke_session, get_record. apply after_bind, after_get. cbv beta iota.
  destruct (live _ _) as [rec|] eqn:El; [|done]. apply live_some in El as (until & E & Hu).
  apply after_bind, after_act. cbn [fst snd]. apply (both_redis (fun r => leave_family (clock w) (r_family_id rec) (sha256 t) (drop_hash (sha256 t) r)) w); [done|].
  intros d Hs. eapply sound_fewer; [exact Hs| |].
  - intros h e. rewrite leave_family_keys. intros H. by apply drop_hash_keys in H as [_ H].
  - intros h rec' u' (E' & _ & _). rewrite leave_family_keys in E'. apply drop_hash_keys in E' as [Hne E'].
    rewrite leave_family_family; [done|]. intros Hf. apply Hne. apply (so_one _ _ _ _ Hs (sha256 t) h (rec, until) (rec', u')); auto.
Qed.

(** ** A token is exchanged, a session begins *)

Lemma sound_deleted d w h : sound_in d w -> sound d (with_session_keys (delete h) (redis w)) (clock w) (next w).
Proof. intros Hs. eapply sound_fewer; [exact Hs| |done]. intros h' e H. by apply (lookup_delete_Some (session_keys (redis w))) in H as [_ H]. Qed.
Lemma kept_rotate_session t j : kept (rotate_session sha256 t j).
Proof.
  intros w Hw. unfold rotate_session. apply after_bind, after_get. cbv beta iota.
  destruct (live _ _) as [rec|] eqn:El.
  2:{ apply after_bind. eapply after_mono; [|apply (kept_seq (get _) _ (kept_get _)); [|done]].
      - by intros [e|u] w' H.
      - intros [f|]; [apply kept_kill_family|apply kept_mret]. }
  apply live_some in El as (until & E & Hu). destruct (r_expires_at rec <? clock w).
  { apply after_bind, after_act. apply (both_redis _ w Hw). intros d. apply sound_deleted. }
  apply after_act. destruct Hw as (H1 & H2 & H3). cbn [fst snd].
  match goal with |- both (mkWorld _ _ (put_session _ ?ttl _ ?rec' _ _) _ _ _ _) => set (rec1 := rec') end.
  assert (forall d, sound_in d w -> forall ttl, sound d (put_session (clock w) ttl (sha256 (next w)) rec1 {[sha256 t]} (with_session_keys (delete (sha256 t)) (redis w))) (clock w) (Pos.succ (next w))) as Hput.
  { intros d Hs ttl. destruct (so_token _ _ _ _ Hs _ _ E) as (_ & Hse & Hfa). cbn in Hse, Hfa.
    eapply sound_put; [by apply sound_deleted|lia|lia|cbn; lia|cbn; lia| |].
    - intros h e He. apply (lookup_delete_Some (session_keys (redis w))) in He as [Hne He]. cbn.
      split; intros Heq; apply Hne; by apply (so_one _ _ _ _ Hs _ _ (rec, until) e); auto.
    - cbn. intros He. by apply (so_row _ _ _ _ Hs (sha256 t) rec until). }
  split_and!; [by apply Hput|by apply Hput|exact H3].
Qed.

Lemma begin_sound d r c n k row rec ttl t n' :
  sound d r c n -> (n <= r_session_id rec < n')%positive -> (n <= r_family_id rec < n')%positive -> (n <= t < n')%positive ->
  k = r_session_id rec -> s_user_id row = r_user_id rec -> s_family_id row = r_family_id rec -> s_revoked_at row = None ->
  s_expires_at row = r_expires_at rec ->
  sound (insert_session k row d) (put_session c ttl (sha256 t) rec ∅ r) c n'.
Proof.
  intros Hs Hse Hfa Ht -> Hu Hf Hr He. eapply (sound_put _ r c n); [|lia|lia|lia|lia| |].
  - eapply sound_row; [exact Hs|]. intros h rec' until s' (E & _ & _) Es Hu' Hf' Hr'. exists s'. split_and!; [|done..].
    destruct (so_token _ _ _ _ Hs _ _ E) as (_ & Hlt & _). cbn in Hlt.
    change (sessions (insert_session (r_session_id rec) row d)) with (<[r_session_id rec := row]> (sessions d)).
    rewrite lookup_insert_ne; [done|]. lia.
  - intros h e (_ & H1 & H2)%(so_token _ _ _ _ Hs). lia.
  - intros _. exists row. split_and!; [apply (lookup_insert_eq (sessions d))|done..].
Qed.
Lemma settles_establish u a : settles (establish_session sha256 cfg u a).
Proof.
  intros w (Hw & _). unfold after, establish_session, sign_access_token, create_session. cbn.
  unfold sound_in. cbn. lazymatch goal with |- sound (with_audit _ ?d) _ _ _ => apply (sound_rows d); [done|] end.
  eapply begin_sound; [exact Hw|cbn; try lia; done..].
Qed.

(** ** Rows *)

Lemma few_shrink d d' c : few d c ->
  (forall k s' u, sessions d' !! k = Some s' -> session_current u c s' = true -> exists s, sessions d !! k = Some s /\ session_current u c s = true) ->
  few d' c.
Proof.
  intros H Hk u. etrans; [|apply (H u)]. rewrite <- (length_map fst), <- (length_map fst (List.filter _ (map_to_list (sessions d)))).
  apply submseteq_length, NoDup_submseteq.
  - eapply sublist_NoDup; [|apply fmap_sublist, filter_sublist]. apply NoDup_fst_map_to_list.
  - intros k Hk'. apply list_elem_of_fmap in Hk' as ([k' s'] & -> & Hin%list_elem_of_In). apply filter_In in Hin as [Hin Hc].
    apply list_elem_of_In, elem_of_map_to_list in Hin. destruct (Hk _ _ _ Hin Hc) as (s & Es & Hs).
    apply list_elem_of_fmap. exists (k', s). split; [done|]. apply list_elem_of_In, filter_In. split; [|done].
    by apply list_elem_of_In, elem_of_map_to_list.
Qed.

(** A change of rows that keeps what the invariant and the listing look at. *)
Lemma execute_sessions f w : run (execute (with_sessions f)) w = Some (inr tt, with_db (with_sessions f) w).
Proof. done. Qed.
Lemma both_rows f w : both w ->
  (forall h rec until s, fresh_key (clock w) (redis w) h rec until -> sessions (db w) !! r_session_id rec = Some s -> s_user_id s = r_user_id rec ->
     s_family_id s = r_family_id rec -> s_revoked_at s = None -> exists s', f (sessions (db w)) !! r_session_id rec = Some s' /\
     s_user_id s' = s_user_id s /\ s_family_id s' = s_family_id s /\ s_revoked_at s' = None /\ s_expires_at s' = s_expires_at s) ->
  (forall k s' u, f (sessions (db w)) !! k = Some s' -> session_current u (clock w) s' = true ->
     exists s, sessions (db w) !! k = Some s /\ session_current u (clock w) s = true) ->
  both (with_db (with_sessions f) w).
Proof.
  intros (H1 & H2 & H3) Hs Hc. split_and!; [by apply (sound_row (db w))|done|by apply (few_shrink (db w))].
Qed.
Lemma revoked_not_current u c n s : session_current u c (revoke_row n s) = false.
Proof. unfold session_current. cbn. by rewrite andb_false_r. Qed.
Lemma kept_update_on_rotation o n' j n : kept (execute (update_on_rotation o n' j n)).
Proof.
  intros w Hw. unfold after, update_on_rotation. rewrite execute_sessions. apply both_rows; [done| |].
  - intros h rec until s _ Es _ _ Hr. rewrite lookup_fmap, Es. cbn. eexists. split; [done|]. by case_bool_decide.
  - intros k s' u. rewrite lookup_fmap. destruct (sessions (db w) !! k) as [s|] eqn:E; [|done]. cbn. intros [= <-] Hc.
    exists s. split; [done|]. by case_bool_decide.
Qed.
(** Revoking one session, once none of its tokens is left. *)
Definition tokenless (k : uuid) (w : World) : Prop :=
  forall h rec until, fresh_key (clock w) (redis w) h rec until -> r_session_id rec <> k.
Lemma both_revoke_row k n w : both w -> tokenless k w -> both (with_db (revoke_session_row k n) w).
Proof.
  intros Hw Hk. apply both_rows; [done| |].
  - intros h rec until s Hf Es _ _ Hr. exists s. rewrite lookup_alter_ne; [done|]. intros ->. by apply (Hk h rec until).
  - intros k' s' u. destruct (decide (k = k')) as [->|Hne].
    + rewrite lookup_alter_eq. destruct (sessions (db w) !! k') as [s|]; [|done]. cbn. intros [= <-]. by rewrite revoked_not_current.
    + rewrite lookup_alter_ne by done. eauto.
Qed.
Lemma after_revoke_session t w : both w ->
  after (fun r w' => both w' /\ match r with inr (Some rec) => tokenless (r_session_id rec) w' | _ => True end) (revoke_session sha256 t) w.
Proof.
  intros Hw. pose proof (kept_revoke_session t w Hw) as Hk. revert Hk. unfold after, revoke_session, get_record. cbn.
  destruct (live _ _) as [rec|] eqn:El; [|done]. cbn. intros Hb. split; [exact Hb|].
  apply live_some in El as (until & E & Hu). intros h rec' u' (E' & _ & _). cbn in E'.
  rewrite leave_family_keys in E'. apply drop_hash_keys in E' as [Hne E']. intros Heq. apply Hne.
  destruct Hw as (Hs & _ & _). apply (so_one _ _ _ _ Hs (sha256 t) h (rec, until) (rec', u')); auto.
Qed.

(** ** All the sessions of a user *)

Definition gone (user : uuid) (w : World) : Prop :=
  forall h rec until, fresh_key (clock w) (redis w) h rec until -> r_user_id rec <> user.
Lemma list_for_user_complete d u c k s : few d c -> sessions d !! k = Some s -> session_current u c s = true ->
  (k, s) ∈ list_for_user d u c SESSION_LIMIT 0.
Proof.
  intros Hf E Hc. unfold list_for_user. rewrite skipn_O, take_ge; [|rewrite merge_sort_Permutation; apply Hf].
  rewrite merge_sort_Permutation. apply list_elem_of_In, filter_In. split; [|done]. by apply list_elem_of_In, elem_of_map_to_list.
Qed.
Lemma after_kill_families rows w : both w ->
  after (fun r w' => r = inr tt /\ both w' /\ fewer_keys w w' /\ forall k s, (k, s) ∈ rows -> killed (s_family_id s) (redis w') (clock w')) (kill_families cfg rows) w.
Proof.
  revert w. induction rows as [|[k s] rows IH]; intros w Hw; cbn [kill_families].
  { cbn. split_and!; [done|done|done|]. by intros k s ?%not_elem_of_nil. }
  apply after_bind. unfold after at 1. rewrite kill_step_run.
  set (w1 := with_redis _ w). assert (both w1) as Hw1 by (apply both_redis; [done|intros d; apply kill_step_sound]).
  assert (killed (s_family_id s) (redis w1) (clock w1)) as Hk by exact (kill_step_killed (db w) (s_family_id s) w (proj1 Hw)).
  assert (fewer_keys w w1) as Hf1 by (split_and!; [done..|]; intros h e; cbn; rewrite kill_step_keys; by case_bool_decide).
  apply after_bind. eapply (after_mono (fun r w' => r = inr tt /\ both w' /\ fewer_keys w1 w')).
  - intros r w2 (-> & Hw2 & Hf2). eapply after_mono; [|by apply IH]. intros r w3 (-> & Hw3 & Hf3 & Hr).
    assert (fewer_keys w1 w3) as (Ec & _ & Hk3).
    { destruct Hf2 as (? & ? & ?), Hf3 as (? & ? & ?). split_and!; [congruence..|auto]. }
    split_and!; [done|done| |].
    + destruct Hf1 as (? & ? & ?), Hf2 as (? & ? & ?), Hf3 as (? & ? & ?). split_and!; [congruence..|auto].
    + intros k' s' [[= -> ->]|Hin]%elem_of_cons; [|by apply (Hr k')].
      intros h rec until (E & Hu & He). rewrite Ec in Hu, He. apply (Hk h rec until). split_and!; auto.
  - destruct (s_last_jti s) as [j|]; cbn; [|by split_and!].
    split_and!; [done| |done..]. apply both_same with w1; [|done]. unfold same_sessions. cbn. split_and!; auto. lia.
Qed.
Lemma after_invalidate u w : both w -> after (fun r w' => r = inr tt /\ both w' /\ gone u w') (invalidate_user_sessions cfg u) w.
Proof.
  intros Hw. unfold invalidate_user_sessions. apply after_bind, after_get. cbv beta iota. apply after_bind, after_get. cbv beta iota.
  apply after_bind. eapply after_mono; [|by apply after_kill_families]. intros r w1 (-> & Hw1 & (Ec & Ed & _) & Hk).
  apply after_bind, after_get. cbv beta iota. unfold after, revoke_all_for_user. rewrite execute_sessions.
  assert (gone u w1) as Hg.
  { intros h rec until Hf Hu. destruct Hw1 as (Hs & _ & _). destruct (so_row _ _ _ _ Hs _ _ _ Hf) as (s & Es & Hsu & Hsf & Hsr & Hse).
    eapply (Hk (r_session_id rec) s); [|exact Hf|done]. apply list_for_user_complete; [apply Hw|congruence|].
    unfold session_current. rewrite Hsr, Hse, <- Ec. destruct Hf as (_ & _ & He). rewrite bool_decide_eq_true_2 by congruence. cbn. lia. }
  split_and!; [done| |exact Hg]. apply both_rows; [done| |].
  - intros h rec until s Hf Es Hu _ Hr. rewrite lookup_fmap, Es. cbn. exists s.
    rewrite bool_decide_eq_false_2; [done|]. rewrite Hu. by apply (Hg h rec until).
  - intros k s' u'. rewrite lookup_fmap. destruct (sessions (db w1) !! k) as [s|]; [|done]. cbn. intros [= <-]. 
    destruct (_ && _); [by rewrite revoked_not_current|]. eauto.
Qed.
Lemma kept_invalidate u : kept (invalidate_user_sessions cfg u).
Proof. intros w Hw. eapply after_mono; [|by apply after_invalidate]. by intros r w' (_ & H & _). Qed.

(** ** Every request *)

Create HintDb ledger discriminated.
#[local] Hint Resolve kept_mret kept_raise kept_get kept_query kept_now kept_draw kept_mail kept_hasher kept_dummy kept_commit kept_require kept_mark_verified
  kept_consume kept_within_limit kept_audit kept_deny kept_kill_family kept_revoke_session kept_rotate_session kept_update_on_rotation
  kept_invalidate : ledger.
#[local] Hint Extern 2 (settles (raise _)) => apply kept_settles, kept_raise : ledger.
#[local] Hint Extern 2 (settles (mret _)) => apply kept_settles, kept_mret : ledger.
#[local] Hint Extern 1 (kept (execute _)) => apply kept_execute; intros ?; solve [done | apply with_table_sessions] : ledger.
#[local] Hint Extern 1 (kept (insert_or _ _ _)) => apply kept_insert_or; intros ?; done : ledger.
#[local] Hint Extern 1 (kept (redis_do _)) => apply kept_redis; intros ??; done : ledger.
Ltac keep := walk ltac:(auto with ledger)
  ltac:(first [apply kept_seq | apply settles_bind]) ltac:(apply kept_handle) ltac:(apply kept_catch).
Lemma kept_issue k u ttl : kept (issue sha256 k u ttl).
Proof. unfold issue. keep. Qed.
Lemma kept_check_password found pw : kept (check_password verify found pw).
Proof. unfold check_password. keep. Qed.
Lemma kept_check_only e ip : kept (check_only e ip).
Proof. unfold check_only. keep. Qed.
Lemma kept_check_and_record e ip : kept (check_and_record_failure e ip).
Proof.
  unfold check_and_record_failure. apply kept_seq; [|keep]. apply kept_same. intros w.
  destruct (bump _ (acct_failures _) _), (bump _ (ip_failures _) _). unfold same_sessions. cbn. split_and!; auto. lia.
Qed.
Lemma kept_email_of e : kept (email_of e).
Proof. unfold email_of. keep. Qed.
Lemma kept_validate pw : kept (validate_password nfkc pw).
Proof. unfold validate_password. keep. Qed.
Lemma kept_reauthenticate u pw : kept (reauthenticate verify u pw).
Proof. unfold reauthenticate. keep. Qed.
Lemma kept_verify_google c v n : kept (verify_google google c v n).
Proof. unfold verify_google. keep. Qed.
Lemma kept_guard u x : kept (guard_oauth_status u x).
Proof. unfold guard_oauth_status. keep. Qed.
Lemma kept_pop s : kept (pop_state s).
Proof. apply kept_same. intros w. unfold same_sessions. cbn. split_and!; auto. lia. Qed.
Lemma kept_deny_all js : kept (deny_all cfg js).
Proof. induction js as [|j js IH]; cbn [deny_all]; unfold deny_access_jti; keep. Qed.
Lemma kept_close_imp mine : kept (close_impersonations cfg mine).
Proof. unfold close_impersonations. keep. apply kept_deny_all. Qed.
Lemma kept_require_user u : kept (require_user u).
Proof. unfold require_user. keep. Qed.
#[local] Hint Resolve kept_issue kept_check_password kept_check_only kept_check_and_record kept_email_of kept_validate kept_reauthenticate
  kept_verify_google kept_guard kept_pop kept_close_imp kept_require_user : ledger.
Lemma kept_mint u a : kept (mint_activation_links sha256 u a).
Proof. unfold mint_activation_links. keep. Qed.
Lemma kept_google_link u c v n : kept (complete_google_link google u c v n).
Proof. unfold complete_google_link. keep. Qed.
#[local] Hint Resolve kept_mint kept_google_link : ledger.

(** A session is closed after its token. *)
Lemma after_close_row k w (rest : auth unit) : both w -> tokenless k w -> kept rest ->
  after (fun _ => both) (n ← now; _ ← execute (revoke_session_row k n); rest) w.
Proof.
  intros Hw Ht Hr. apply after_bind, after_get. cbv beta iota. apply after_bind, after_act. cbn [fst snd].
  apply Hr. by apply both_revoke_row.
Qed.
Lemma after_deny j ttl k w (rest : auth unit) : both w -> tokenless k w ->
  (forall w', both w' -> tokenless k w' -> after (fun _ => both) rest w') -> after (fun _ => both) (_ ← deny_jti j ttl; rest) w.
Proof.
  intros Hw Ht Hr. apply after_bind, after_act. cbn [fst snd]. apply Hr; [|exact Ht].
  apply both_same with w; [|done]. unfold same_sessions. cbn. split_and!; auto. lia.
Qed.
Lemma kept_logout t j ttl : kept (logout sha256 t j ttl).
Proof.
  intros w Hw. unfold logout. apply after_bind. eapply after_mono; [|by apply after_revoke_session].
  intros [e|[rec|]] w' (Hw' & Ht); [done| |apply kept_seq; [apply kept_deny|intros _; apply kept_mret|done]].
  eapply after_deny; [done|exact Ht|]. intros w2 Hw2 Ht2. apply after_close_row; [done..|]. apply kept_audit.
Qed.
Lemma kept_revoke_own u k ttl : kept (revoke_own_session u k ttl).
Proof.
  intros w Hw. unfold revoke_own_session. apply after_bind, after_get. cbv beta iota.
  destruct (sessions (db w) !! k) as [s|] eqn:Es; [|done]. destruct (negb _); [done|].
  apply after_bind, after_get. cbv beta iota. apply after_bind, after_act. cbn [fst snd]. apply after_bind.
  eapply (after_mono (fun r w' => r = inr tt /\ exists r', w' = with_redis (fun _ => r') (with_db (revoke_session_row k (clock w)) w) /\
    session_keys r' = session_keys (redis w) /\ session_family r' = session_family (redis w))).
  2:{ destruct (s_last_jti s) as [j|]; [|split; [done|exists (redis w); by destruct w]]. unfold after. cbn. split; [done|]. by eexists. }
  intros r w' (-> & r' & -> & Ek & Ef). apply after_bind. unfold after at 1. rewrite kill_step_run. apply kept_audit.
  set (w1 := with_redis (fun _ => r') w). assert (both w1) as Hw1.
  { apply both_same with w; [|done]. unfold same_sessions. cbn. split_and!; auto. lia. }
  change (both (with_db (revoke_session_row k (clock w)) (with_redis (kill_step (s_family_id s) (clock w1)) w1))).
  apply both_revoke_row; [apply both_redis; [done|intros d; apply kill_step_sound]|].
  intros h rec until Hf Heq. pose proof (kill_step_sound (db w1) (s_family_id s) w1 (proj1 Hw1)) as Hs.
  destruct (so_row _ _ _ _ Hs _ _ _ Hf) as (s' & Es' & _ & Hfam & _). apply (kill_step_killed (db w1) (s_family_id s) w1 (proj1 Hw1) h rec until Hf).
  cbn in Es'. congruence.
Qed.
Lemma kept_sign u s a : kept (sign_access_token cfg u s a).
Proof. unfold sign_access_token. keep. Qed.
#[local] Hint Resolve kept_logout kept_revoke_own kept_sign : ledger.
Lemma kept_refresh t : kept (refresh sha256 cfg t).
Proof.
  intros w Hw. unfold refresh. apply after_bind, after_get. cbv beta iota.
  destruct (live _ _) as [peek|] eqn:Ep; [|done]. apply after_bind, after_get. cbv beta iota.
  destruct (negb _); [by apply (kept_seq _ _ (kept_invalidate _) (fun _ => kept_raise _))|].
  apply after_bind, after_get. cbv beta iota. destruct (_ && _).
  - apply after_bind. pose proof (after_revoke_session t w Hw) as Hr. revert Hr. unfold revoke_session at 1 2, get_record. unfold after at 1 2. cbn.
    rewrite Ep. cbn. intros [Hb Ht]. apply after_bind.
    assert (forall w1, both w1 -> tokenless (r_session_id peek) w1 -> after (fun _ => both) (n ← now; _ ← execute (revoke_session_row (r_session_id peek) n);
      _ ← audit "auth.idle_timeout" (Some (r_user_id peek)); raise TokenExpired : auth TokenPair) w1) as Hrest.
    { intros w1 Hw1 Ht1. apply after_bind, after_get. cbv beta iota. apply after_bind, after_act. cbn [fst snd].
      apply (kept_seq _ _ (kept_audit _ _) (fun _ => kept_raise _)). by apply both_revoke_row. }
    destruct (r_last_jti peek) as [j|]; [|by apply Hrest]. apply after_act. cbn [fst snd]. apply Hrest; [|exact Ht].
    eapply both_same; [|exact Hb]. unfold same_sessions. cbn. split_and!; auto. lia.
  - match goal with |- after _ ?m w => cut (kept m); [intros Hm; by apply Hm|] end. unfold remaining_ttl. keep.
Qed.
#[local] Hint Resolve kept_refresh : ledger.

(** Resolving a Google sign-in: without an outcome nothing has happened to sessions. *)
Definition resolves (m : auth (option LoginOutcome)) : Prop := forall w, both w ->
  after (fun r w' => match r with inr (Some _) => sound_in (db w') w' | _ => both w' end) m w.
Lemma resolves_bind {A} (m : auth A) k : kept m -> (forall a, resolves (k a)) -> resolves (m ≫= k).
Proof. intros Hm Hk w Hw. apply after_bind. eapply after_mono; [|by apply Hm]. intros [e|a] w' Hw'; [done|by apply Hk]. Qed.
Lemma resolves_kept m : kept m -> resolves m.
Proof. intros H w Hw. eapply after_mono; [|by apply H]. intros [e|[o|]] w' Hb; [done|apply Hb|done]. Qed.
Lemma resolves_session u : resolves (o ← oauth_session sha256 cfg u; mret (Some o)).
Proof. intros w Hw. apply after_bind. eapply after_mono; [|by apply settles_establish]. by intros [e|o] w' Hw'. Qed.
Lemma resolve_resolves p : resolves (try_resolve_oauth_login sha256 cfg p).
Proof.
  unfold try_resolve_oauth_login, bind_existing, provision.
  repeat lazymatch goal with
  | |- resolves (mbind _ (oauth_session _ _ _)) => apply resolves_session
  | |- resolves (mbind _ _) => apply resolves_bind; [keep|intros ?]
  | |- resolves (mret None) => apply resolves_kept, kept_mret
  | |- resolves (if ?b then _ else _) => destruct b
  | |- resolves (match ?x with _ => _ end) => destruct x
  end.
Qed.
Lemma settles_google_login c v n : settles (complete_google_login sha256 cfg google c v n).
Proof.
  unfold complete_google_login. apply settles_bind; [keep|]. intros p w Hw. apply after_bind.
  eapply after_mono; [|by apply resolve_resolves]. intros [e|[o|]] w1 Hw1; [done..|]. apply after_bind.
  eapply after_mono; [|by apply resolve_resolves]. by intros [e|[o|]] w2 Hw2.
Qed.
Lemma settles_callback c st : settles (complete_google_callback sha256 cfg google c st).
Proof.
  unfold complete_google_callback. apply settles_bind; [keep|]. intros [o|]; [|keep]. intros w Hw. apply after_catch.
  eapply (after_mono settled); [intros [e|r] w' Hw'; [apply Hw'|done]|]. destruct (st_mode o).
  - apply (settles_then (complete_google_login _ _ _ _ _ _) (fun o => inr (Some o))); [apply settles_google_login|done].
  - apply kept_settles; [keep|done].
Qed.
Lemma settles_login email pw ip : settles (login sha256 cfg verify email pw ip).
Proof. unfold login, clear_account. keep. apply settles_establish. Qed.

Lemma operation_settles m : operation sha256 cfg hash verify nfkc captcha_ok domain_allowed google org_needs hexdigest lua m -> settles m.
Proof.
  intros []; unfold discard; try apply settles_then;
    try first [apply settles_google_login | apply settles_callback | apply settles_login]; apply kept_settles;
    unfold register, verify_email, request_password_reset, reset_password, change_password, change_email, delete_account, unlink_google,
      start_google_oauth, create_user, issue_activation_links, ban_user, unban_user, soft_delete_user, restore_user, promote_admin,
      demote_admin, start_impersonation, deny_access_jti, sign_access_token, end_impersonation, close_idle_sessions, authenticate, is_denied; keep.
Qed.
End ledger.
