(* ===== verification/SessionClaims.v ===== *)
(** * Refreshing, and the end of a session

    [refresh_spec] says what a refresh that runs alone does with a token that has a
    record; [spent_token_never_revives] what becomes of a token without one, under every
    interleaving; [sessions_ended] that a password reset or change, a new address, a ban
    and a deletion end every session of the user, by the ledger of [SessionLedger] until
    then and by [follows] afterwards. *)

From S2P Require Import Prelude PyFloat PyValue Interleave RateLimit AuthStore RefreshTokens AuthService AccountAdmin SessionFacts SessionLedger.

#[local] Arguments put_session : simpl never.

Section claims.
Context (sha256 : positive -> digest) (cfg : JwtSection)
  (hash : string -> string) (verify : string -> string -> bool * option string) (nfkc : string -> string)
  (captcha_ok : option string -> bool) (domain_allowed : string -> bool)
  (google : positive -> positive -> positive -> google_answer)
  (org_needs : uuid -> bool) (hexdigest : string -> string) (lua : N).
Context `{Hinj : !Inj (=) (=) sha256}.

(** ** Refreshing *)

Abbreviation record_of := (record_of sha256).
Definition active (w : World) (u : uuid) : bool := match get_by_id (db w) u with Some x => bool_decide (status x = ACTIVE) | None => false end.
Definition idle (w : World) (rec : RefreshRecord) : bool :=
  (0 <? idle_timeout_seconds cfg) && (idle_timeout_seconds cfg * SECOND <? clock w - r_last_seen_at rec).
Definition exchanged (w : World) (rec : RefreshRecord) : RefreshRecord :=
  mkRecord (r_session_id rec) (r_user_id rec) (r_family_id rec) (Some (next w)) (r_issued_at rec) (r_expires_at rec) (clock w).


(** Ending sessions only touches Redis and the table of sessions. *)
Lemma kill_families_total rows w : exists r, run (kill_families cfg rows) w = Some (inr tt, with_redis (fun _ => r) w).
Proof.
  revert w. induction rows as [|[k s] rows IH]; intros w; cbn [kill_families]; [exists (redis w); by destruct w|].
  rewrite run_bind, kill_step_run, run_bind. destruct (s_last_jti s) as [j|]; cbn [run deny_jti redis_do act fst snd mret proc_ret].
  all: match goal with |- context [run _ ?w1] => destruct (IH w1) as [r ->]; by exists r end.
Qed.
Lemma invalidate_total u w : exists r n, run (invalidate_user_sessions cfg u) w = Some (inr tt, with_db (revoke_all_for_user u n) (with_redis (fun _ => r) w)).
Proof.
  unfold invalidate_user_sessions. rewrite run_bind. cbn [run now get act fst snd]. rewrite run_bind. cbn [run query get act fst snd]. rewrite run_bind.
  edestruct kill_families_total as [r ->]. by exists r, (clock w).
Qed.
Lemma refresh_inactive t w rec : record_of w t = Some rec -> active w (r_user_id rec) = false ->
  exists w', run (refresh sha256 cfg t) w = Some (inl TokenExpired, w') /\ (SessionLedger.both sha256 w -> gone (r_user_id rec) w').
Proof.
  unfold record_of, active. intros Hr Ha. unfold refresh. rewrite run_bind. cbn [run get get_record query act fst snd].
  rewrite Hr. cbn [run]. rewrite run_bind. cbn [run get query act fst snd]. rewrite Ha. cbn [negb].
  rewrite run_bind. destruct (invalidate_total (r_user_id rec) w) as (r & n & E). rewrite E. eexists. split; [reflexivity|].
  intros Hb. pose proof (after_invalidate sha256 cfg (r_user_id rec) w Hb) as Hg. unfold after in Hg. rewrite E in Hg. apply Hg.
Qed.
Lemma refresh_idle t w rec : record_of w t = Some rec -> active w (r_user_id rec) = true -> idle w rec = true ->
  exists w', run (refresh sha256 cfg t) w = Some (inl TokenExpired, w') /\ record_of w' t = None.
Proof.
  unfold record_of, active, idle. intros Hr Ha Hi. unfold refresh, revoke_session, get_record. cbn. rewrite Hr. cbn. rewrite Ha. cbn.
  rewrite Hi. cbn. rewrite Hr. cbn.
  assert (forall c, live c (session_keys (leave_family (clock w) (r_family_id rec) (sha256 t) (drop_hash (sha256 t) (redis w))) !! sha256 t) = None) as Hn.
  { intros c. rewrite leave_family_keys. change (session_keys (drop_hash ?h ?r)) with (delete h (session_keys r)). by rewrite lookup_delete_eq. }
  destruct (r_last_jti rec) as [j|]; cbn; (eexists; split; [reflexivity|]); cbn; apply Hn.
Qed.
Lemma refresh_late t w rec : record_of w t = Some rec -> active w (r_user_id rec) = true -> idle w rec = false -> r_expires_at rec < clock w ->
  exists w', run (refresh sha256 cfg t) w = Some (inl TokenInvalid, w') /\ record_of w' t = None.
Proof.
  unfold record_of, active, idle. intros Hr Ha Hi He. unfold refresh, rotate_session, get_record. cbn. rewrite Hr. cbn. rewrite Ha. cbn.
  rewrite Hi. cbn. rewrite Hr. cbn. replace (r_expires_at rec <? clock w) with true by lia. cbn. eexists. split; [reflexivity|]. cbn.
  change (live (clock w) (delete (sha256 t) (session_keys (redis w)) !! sha256 t) = None). by rewrite lookup_delete_eq.
Qed.
Lemma refresh_exchanges t w rec : record_of w t = Some rec -> active w (r_user_id rec) = true -> idle w rec = false ->
  clock w <= r_expires_at rec -> (t < next w)%positive ->
  exists w', run (refresh sha256 cfg t) w = Some (inr (mkPair (mkClaims (r_user_id rec) (r_session_id rec) (next w)
      (clock w + access_ttl_seconds cfg * SECOND) (clock w) (is_admin (db w) (r_user_id rec))) (Pos.succ (next w))), w') /\
    clock w' = clock w /\ record_of w' t = None /\ record_of w' (Pos.succ (next w)) = Some (exchanged w rec) /\
    forall t', (t' < next w)%positive -> t' <> t -> record_of w' t' = record_of w t'.
Proof.
  unfold record_of, active, idle. intros Hr Ha Hi He Ht. unfold refresh, rotate_session, get_record. cbn. rewrite Hr. cbn. rewrite Ha. cbn.
  rewrite Hi. cbn. rewrite Hr. cbn. replace (r_expires_at rec <? clock w) with false by lia. cbn. eexists. split; [reflexivity|]. cbn.
  match goal with |- context [session_keys (put_session _ _ _ _ ?gone ?r)] => set (r1 := r) end.
  assert (forall x, (x < next w)%positive -> sha256 (Pos.succ (next w)) <> sha256 x) as Hne by (intros x Hx Heq%Hinj; lia).
  assert (forall h, session_keys r1 !! h = delete (sha256 t) (session_keys (redis w)) !! h) as Hd by done.
  split_and!; [done| | |].
  - rewrite lookup_put, decide_False by auto. by rewrite Hd, lookup_delete_eq.
  - rewrite lookup_put, decide_True by done. apply live_some. eexists. split; [done|].
    unfold ttl_until, SECOND. lia.
  - intros t' Ht' Hn. rewrite lookup_put, decide_False by auto. rewrite Hd, lookup_delete_ne; [done|]. by intros ?%Hinj.
Qed.

(** C24. What a refresh that runs alone answers and what becomes of its token, for a
    token that has a record.  The token of an account that is not active is refused and,
    in a state that satisfies the ledger, every session of that account ends; the token
    of a session idle for longer than allowed, or past its end, is refused and gone;
    otherwise the token is exchanged for a new one of the same session with the same
    end, with an access token for its user that knows whether the user is an
    administrator now, and no other token is touched.  A token without a record is the
    matter of [spent_token_never_revives]. *)
Theorem refresh_spec t w rec : (t < next w)%positive -> record_of w t = Some rec ->
  if negb (active w (r_user_id rec)) then
    exists w', run (refresh sha256 cfg t) w = Some (inl TokenExpired, w') /\ (SessionLedger.both sha256 w -> gone (r_user_id rec) w')
  else if idle w rec then exists w', run (refresh sha256 cfg t) w = Some (inl TokenExpired, w') /\ record_of w' t = None
  else if r_expires_at rec <? clock w then exists w', run (refresh sha256 cfg t) w = Some (inl TokenInvalid, w') /\ record_of w' t = None
  else exists w', run (refresh sha256 cfg t) w = Some (inr (mkPair (mkClaims (r_user_id rec) (r_session_id rec) (next w)
         (clock w + access_ttl_seconds cfg * SECOND) (clock w) (is_admin (db w) (r_user_id rec))) (Pos.succ (next w))), w') /\
       clock w' = clock w /\ record_of w' t = None /\ record_of w' (Pos.succ (next w)) = Some (exchanged w rec) /\
       forall t', (t' < next w)%positive -> t' <> t -> record_of w' t' = record_of w t'.
Proof.
  intros Ht Hr. destruct (active w (r_user_id rec)) eqn:Ha; cbn [negb]; [|by apply (refresh_inactive t w rec)].
  destruct (idle w rec) eqn:Hi; [by apply (refresh_idle t w rec)|]. destruct (Z.ltb_spec (r_expires_at rec) (clock w)); [by apply (refresh_late t w rec)|].
  by apply (refresh_exchanges t w rec).
Qed.

(** ** A token without a record *)

(** The replay of a token that [rotate_session] sees: its family dies. *)
Lemma replay_kills_family t j w f : record_of w t = None -> live (clock w) (session_hash_family (redis w) !! sha256 t) = Some f ->
  exists w', run (rotate_session sha256 t j) w = Some (inl TokenReuseError, w') /\ clock w' = clock w /\
    (forall h, h ∈ family_members (clock w) (redis w) f -> session_keys (redis w') !! h = None) /\
    (forall h, h ∉ family_members (clock w) (redis w) f -> session_keys (redis w') !! h = session_keys (redis w) !! h) /\
    (sound_in sha256 (db w) w -> killed f (redis w') (clock w')).
Proof.
  unfold record_of. intros Hr Hf. unfold rotate_session. rewrite run_bind. cbn [run get act fst snd]. rewrite Hr. rewrite run_bind.
  unfold kill_family_by_hash. rewrite run_bind. cbn [run get act fst snd]. rewrite Hf, kill_step_run. cbn [run raise].
  eexists. split; [reflexivity|]. split; [done|]. split; [|split].
  1: intros h Hh; etrans; [by eapply kill_step_keys|by rewrite bool_decide_eq_true_2].
  1: intros h Hh; etrans; [by eapply kill_step_keys|by rewrite bool_decide_eq_false_2].
  intros Hs. by eapply (kill_step_killed sha256 (db w) f w).
Qed.

(** The service's processes, and what they may do while a request waits. *)
Abbreviation served := (served sha256 cfg hash verify nfkc captcha_ok domain_allowed google org_needs hexdigest lua).
Abbreviation others := (others sha256 cfg hash verify nfkc captcha_ok domain_allowed google org_needs hexdigest lua).

(** C20. Refresh tokens are spent once and for all, in every state [c1] the service can
    reach and every later one [c2], however the steps of its requests are interleaved.
    The record of a token never changes as long as it is there, and a token without a
    record - exchanged, logged out, revoked with its family or expired - never gets one
    again.  Whatever runs between its commands, a refresh that succeeds has spent its
    token, and one that starts once the record is gone answers [TokenInvalid].  And where [rotate_session] meets such a token
    while its family is still on record, it raises [TokenReuseError] and the whole
    family dies: every key of a member is deleted and no other key, and in a state that
    satisfies the ledger no usable token of the family is left.  Not claimed,
    because not so: [refresh] answers before it reaches [rotate_session], so a replay over
    the API does not kill the family; and two refreshes that read the record before
    either consumes it can both succeed. *)
Theorem spent_token_never_revives w0 c1 c2 t :
  served (mkConf w0 ∅) c1 -> served c1 c2 -> (t < next (world c1))%positive ->
  (forall rec, record_of (world c2) t = Some rec -> record_of (world c1) t = Some rec) /\
  among others (fun r w' => match r with inl _ => True | inr _ => record_of w' t = None end) (refresh sha256 cfg t) (world c1) /\
  (record_of (world c1) t = None ->
     among others (fun r _ => r = inl TokenInvalid) (refresh sha256 cfg t) (world c2) /\
     forall j f, live (clock (world c2)) (session_hash_family (redis (world c2)) !! sha256 t) = Some f ->
       exists w', run (rotate_session sha256 t j) (world c2) = Some (inl TokenReuseError, w') /\ clock w' = clock (world c2) /\
         (forall h, h ∈ family_members (clock (world c2)) (redis (world c2)) f -> session_keys (redis w') !! h = None) /\
         (forall h, h ∉ family_members (clock (world c2)) (redis (world c2)) f -> session_keys (redis w') !! h = session_keys (redis (world c2)) !! h) /\
         (sound_in sha256 (db (world c2)) (world c2) -> killed f (redis w') (clock w'))).
Proof.
  intros H1 H2 Ht. destruct (served_follows _ _ _ _ _ _ _ _ _ _ _ _ _ H1) as [_ Hq]; [done|].
  destruct (served_follows _ _ _ _ _ _ _ _ _ _ _ _ _ H2 Hq) as [Hf _]. split; [by intros rec; apply Hf|]. split.
  - eapply among_mono; [|by apply refresh_exchange]. intros [e|o] w' Hx; [done|apply Hx].
  - intros Hn. pose proof (record_gone _ _ _ t Hf Ht Hn) as Hn2. split; [|intros j f; by apply replay_kills_family].
    apply refresh_refused; [done|pose proof (fl_next _ _ _ Hf); lia|done].
Qed.

(** ** Ending all the sessions of a user *)

Abbreviation operation := (operation sha256 cfg hash verify nfkc captcha_ok domain_allowed google org_needs hexdigest lua).

(** Requests one after the other, time passing in between. *)
Definition tick (dt : Z) (w : World) : World := mkWorld (db w) (committed w) (redis w) (clock w + dt) (next w) (outbox w) (hashed w).
Inductive history : World -> World -> Prop :=
  | hi_start w : history w w
  | hi_request w w1 m r w2 : history w w1 -> operation m -> few (db w1) (clock w1) -> request m w1 = Some (r, w2) -> history w w2
  | hi_tick w w1 dt : history w w1 -> 0 <= dt -> history w (tick dt w1).
(** Before anyone has signed in. *)
Definition newborn (w : World) : Prop := session_keys (redis w) = ∅ /\ db w = committed w.
Definition ledger (w : World) : Prop := sound_in sha256 (db w) w /\ db w = committed w.

Lemma newborn_ledger w : newborn w -> ledger w.
Proof.
  intros [Hk Hc]. split; [|exact Hc]. split.
  - intros h e. rewrite Hk. discriminate.
  - intros h1 h2 e1 e2. rewrite Hk. discriminate.
  - intros h rec until [H _]. rewrite Hk in H. discriminate.
  - intros h rec until [H _]. rewrite Hk in H. discriminate.
Qed.
Lemma ledger_both w : ledger w -> few (db w) (clock w) -> both sha256 w.
Proof. intros [H1 H2] Hf. split_and!; [done|by rewrite <- H2|done]. Qed.
Lemma request_ledger m w r w' : ledger w -> few (db w) (clock w) -> operation m -> request m w = Some (r, w') -> ledger w'.
Proof.
  intros Hl Hf Hm. pose proof (operation_settles sha256 cfg hash verify nfkc captcha_ok domain_allowed google org_needs hexdigest lua m Hm w (ledger_both w Hl Hf)) as Hs.
  unfold after in Hs. unfold request. destruct (run m w) as [[[e|a] w1]|]; [| |done]; intros [= _ <-]; split; try done; apply Hs.
Qed.
Lemma history_ledger w w' : history w w' -> ledger w -> ledger w'.
Proof.
  induction 1 as [w|w w1 m r w2 _ IH Hm Hf Hr|w w1 dt _ IH Hdt]; intros Hl; [done|by eapply request_ledger; [apply IH| | |]|].
  destruct (IH Hl) as [H1 H2]. split; [|done]. eapply sound_later; [|exact H1]. cbn. lia.
Qed.

Lemma history_after w0 w m : history w0 w -> operation m -> few (db w) (clock w) -> history w0 (w_after m w).
Proof. intros Hh Hm Hf. unfold w_after. destruct (request m w) as [[r w']|] eqn:E; [by eapply hi_request|done]. Qed.

(** The operations that end the sessions of a user. *)
Inductive ends_sessions (w : World) (user : uuid) : auth unit -> Prop :=
  | ES_reset t pw tbl : consume_row (sha256 t) (clock w) (reset_tokens (db w)) = Some (user, tbl) ->
      ends_sessions w user (reset_password sha256 cfg hash nfkc t pw)
  | ES_password pw pw' : ends_sessions w user (change_password cfg hash verify nfkc user pw pw')
  | ES_email email pw : ends_sessions w user (change_email sha256 cfg verify domain_allowed user email pw)
  | ES_delete_account pw : ends_sessions w user (delete_account cfg verify org_needs user pw)
  | ES_ban admin reason : ends_sessions w user (ban_user cfg user admin reason)
  | ES_delete admin : ends_sessions w user (soft_delete_user cfg org_needs user admin).

Abbreviation both := (both sha256).
Abbreviation kept := (kept sha256).
Definition ending (u : uuid) (m : auth unit) : Prop :=
  forall w, both w -> after (fun r w' => match r with inr _ => gone u w' | inl _ => True end) m w.
Lemma ending_bind {A} u (m : auth A) k : kept m -> (forall a, ending u (k a)) -> ending u (m ≫= k).
Proof. intros Hm Hk w Hw. apply after_bind. eapply after_mono; [|by apply Hm]. intros [e|a] w' Hw'; [done|by apply Hk]. Qed.
Lemma ending_raise u e : ending u (raise e).
Proof. by intros w Hw. Qed.
Lemma ending_audit u (who : option uuid) a : ending u (_ ← invalidate_user_sessions cfg u; audit a who).
Proof. intros w Hw. apply after_bind. eapply after_mono; [|by apply (after_invalidate sha256)]. by intros r w' (-> & _ & Hg). Qed.
Lemma ending_catch u : ending u (catch (invalidate_user_sessions cfg u) (fun _ => mret tt)).
Proof. intros w Hw. apply after_catch. eapply after_mono; [|by apply (after_invalidate sha256)]. by intros r w' (-> & _ & Hg). Qed.
Lemma kept_user f : (forall d, sessions (f d) = sessions d) -> kept (execute f).
Proof. apply kept_execute. Qed.
Ltac keeps_it := lazymatch goal with
  | |- SessionLedger.kept _ (email_of _) => apply kept_email_of
  | |- SessionLedger.kept _ (query _) => apply kept_query
  | |- SessionLedger.kept _ (reauthenticate _ _ _) => apply kept_reauthenticate
  | |- SessionLedger.kept _ (issue _ _ _ _) => apply kept_issue
  | |- SessionLedger.kept _ (mail _) => apply kept_mail
  | |- SessionLedger.kept _ now => apply kept_now
  | |- SessionLedger.kept _ commit => apply kept_commit
  | |- SessionLedger.kept _ (audit _ _) => apply kept_audit
  | |- SessionLedger.kept _ (require_user _) => apply kept_require_user
  | |- SessionLedger.kept _ (validate_password _ _) => apply kept_validate
  | |- SessionLedger.kept _ (execute _) => by apply kept_execute
  end.
Lemma ends_sessions_ending w u m : both w -> ends_sessions w u m ->
  after (fun r w' => match r with inr _ => gone u w' | inl _ => True end) m w.
Proof.
  intros Hw [t pw tbl Hc|pw pw'|email pw|pw|admin reason|admin].
  { unfold reset_password, validate_password. destruct (password_ok _); [|done]. apply after_bind, after_bind, after_act.
    change (table_of Reset (db w)) with (reset_tokens (db w)). rewrite Hc. cbn [fst snd require].
    apply after_bind, after_bind, after_act. cbn [fst snd]. apply ending_audit.
    eapply both_same; [|exact Hw]. unfold same_sessions. cbn. split_and!; auto. lia. }
  all: revert w Hw; match goal with |- forall w, _ -> after _ ?m w => change (ending u m) end; unfold change_password, change_email, delete_account, ban_user, soft_delete_user.
  all: repeat lazymatch goal with
    | |- ending _ (mbind _ (invalidate_user_sessions _ _)) => apply ending_audit
    | |- ending _ (mbind _ _) => apply ending_bind; [keeps_it|intros ?]
    | |- ending _ (catch _ _) => apply ending_catch
    | |- ending _ (raise _) => apply ending_raise
    | |- ending _ (if ?b then _ else _) => destruct b
    end.
Qed.

(** C19. A password reset, a password change, a change of address, a self-deletion, a ban
    and an administrator's deletion end every session of the user.  The requests since
    the service started, and the ending one, run one after the other, and nobody had
    more than ten thousand sessions; when the ending one has succeeded, and from then on
    whatever requests run at the same time with their steps interleaved, no refresh
    started with a token that was out by then gets an access token for that user,
    whatever runs between its own commands.  Nothing is claimed of a refresh under way
    while the sessions are being ended: it may survive ([kill_family] reads the members
    and then deletes them). *)
Theorem sessions_ended w0 w user m w1 c2 t :
  newborn w0 -> history w0 w -> few (db w) (clock w) -> ends_sessions w user m -> request m w = Some (inr tt, w1) ->
  served (mkConf w1 ∅) c2 -> clock w1 < clock (world c2) -> (t < next w1)%positive ->
  among others (fun r _ => match r with inr o => sub (access_token o) <> user | inl _ => True end) (refresh sha256 cfg t) (world c2).
Proof.
  intros Hn Hh Hf Hm Hr Hs Hc Ht. pose proof (history_ledger _ _ Hh (newborn_ledger _ Hn)) as Hl.
  pose proof (ends_sessions_ending w user m (ledger_both w Hl Hf) Hm) as Hg. unfold after in Hg. unfold request in Hr.
  destruct (run m w) as [[[e|[]] w']|] eqn:E; [done| |done]. injection Hr as Hr.
  destruct (served_follows _ _ _ _ _ _ _ _ _ _ _ _ _ Hs) as [Hfo _]; [done|]. cbn [world] in Hfo.
  eapply among_mono; [|apply refresh_exchange; [done|pose proof (fl_next _ _ _ Hfo); lia]].
  intros [e|o] w3; [done|]. intros (_ & rec & w2 & Hw2 & Hrec & He & ->). pose proof (transitivity Hfo Hw2) as H12.
  apply H12 in Hrec; [|done]. apply live_some in Hrec as (until & Ek & Hu). pose proof (fl_clock _ _ _ Hw2). subst w1. cbn in Hc, Hu, Ek.
  apply (Hg (sha256 t) rec until). split_and!; [done|lia|lia].
Qed.
End claims.

(** ** Witnesses: both log in, and the first changes the password *)

Definition w_both_in : World := w_after (discard (w_login "b@x.org")) w_in.
Definition w_first : token := w_token "a@x.org" w_world.
Definition w_second : token := w_token "b@x.org" w_in.
Definition w_record : RefreshRecord := default (mkRecord 1 1 1 None 0 0 0) (SessionFacts.record_of w_sha w_both_in w_second).
Lemma refresh_spec_witness : (w_second < next w_both_in)%positive /\
  exists w' pair, run (refresh w_sha default_jwt w_second) w_both_in = Some (inr pair, w') /\ SessionFacts.record_of w_sha w' w_second = None.
Proof.
  assert (Ht : (w_second < next w_both_in)%positive) by (vm_compute; reflexivity). split; [exact Ht|].
  assert (Hr : SessionFacts.record_of w_sha w_both_in w_second = Some w_record) by (vm_compute; reflexivity).
  assert (Ha : active w_both_in (r_user_id w_record) = true) by (vm_compute; reflexivity).
  assert (Hi : idle default_jwt w_both_in w_record = false) by (vm_compute; reflexivity).
  assert (He : r_expires_at w_record <? clock w_both_in = false) by (vm_compute; reflexivity).
  pose proof (refresh_spec w_sha default_jwt w_second w_both_in w_record Ht Hr) as H. rewrite Ha, Hi, He in H. cbn [negb] in H.
  destruct H as (w' & H & _ & Hn & _). exists w'. eexists. exact (conj H Hn).
Defined.

Lemma few_small d c : Z.of_nat (length (map_to_list (sessions d))) <=? 10000 = true -> few d c.
Proof.
  intros H u. etrans; [apply (sublist_length _ _ (filter_sublist _ _))|]. unfold SESSION_LIMIT. apply Nat2Z.inj_le. rewrite Z2Nat.id by done. lia.
Qed.
Definition w_change : auth unit := change_password default_jwt w_hash w_verify w_hash 1 "correct horse 1" "a new secret 22".
Definition w_changed : World := w_after w_change w_both_in.
Definition w_refresh (t : token) (w : World) : option ((auth_error + TokenPair) * World) := run (refresh w_sha default_jwt t) w.
Definition w_later : World := tick SECOND w_changed.
Abbreviation w_others := (SessionFacts.others w_sha default_jwt w_hash w_verify w_hash (fun _ => true) (fun _ => true) w_google (fun _ => false) w_hash 0).
Lemma sessions_ended_witness : request w_change w_both_in = Some (inr tt, w_changed) /\
  among w_others (fun r _ => match r with inr o => sub (access_token o) <> 1%positive | inl _ => True end) (refresh w_sha default_jwt w_first) w_later.
Proof.
  assert (Hc : request w_change w_both_in = Some (inr tt, w_changed)) by (vm_compute; reflexivity). split; [exact Hc|].
  assert (Hh : history w_sha default_jwt w_hash w_verify w_hash (fun _ => true) (fun _ => true) w_google (fun _ => false) w_hash 0 w_world w_both_in).
  { apply history_after; [apply history_after; [apply hi_start|exact (OpLogin _ _ _ _ _ _ _ _ _ _ _ _ _ _)|]|exact (OpLogin _ _ _ _ _ _ _ _ _ _ _ _ _ _)|];
      apply few_small; vm_compute; reflexivity. }
  refine (sessions_ended w_sha default_jwt w_hash w_verify w_hash (fun _ => true) (fun _ => true) w_google (fun _ => false) w_hash 0
    w_world w_both_in 1 w_change w_changed (mkConf w_later ∅) w_first _ Hh _ _ Hc _ _ _).
  - split; reflexivity.
  - apply few_small. vm_compute. reflexivity.
  - constructor.
  - apply rtc_once, cs_env. exists (db w_changed), (committed w_changed), SECOND, (outbox w_changed), (hashed w_changed). split; [done|reflexivity].
  - vm_compute. reflexivity.
  - vm_compute. reflexivity.
Defined.

(** The second token is exchanged, and the old one shown to [rotate_session]: the new one dies. *)
Definition w_exchanged : World := match w_refresh w_second w_both_in with Some (_, w) => w | None => w_both_in end.
Definition w_new : token := match w_refresh w_second w_both_in with Some (inr o, _) => refresh_token o | _ => 1%positive end.
Lemma spent_token_never_revives_witness :
  among w_others (fun r _ => r = inl TokenInvalid) (refresh w_sha default_jwt w_second) w_exchanged /\
  is_Some (SessionFacts.record_of w_sha w_exchanged w_new) /\
  exists w', run (rotate_session w_sha w_second 77) w_exchanged = Some (inl TokenReuseError, w') /\ session_keys (redis w') !! w_sha w_new = None.
Proof.
  assert (Ht : (w_second < next w_exchanged)%positive) by (vm_compute; reflexivity).
  assert (Hr : SessionFacts.record_of w_sha w_exchanged w_second = None) by (vm_compute; reflexivity).
  destruct (spent_token_never_revives w_sha default_jwt w_hash w_verify w_hash (fun _ => true) (fun _ => true) w_google (fun _ => false) w_hash 0
    w_exchanged (mkConf w_exchanged ∅) (mkConf w_exchanged ∅) w_second (rtc_refl _ _) (rtc_refl _ _) Ht) as (_ & _ & H).
  destruct (H Hr) as [H1 H2]. split; [exact H1|]. split; [vm_compute; eexists; reflexivity|].
  set (f := default 1%positive (live (clock w_exchanged) (session_hash_family (redis w_exchanged) !! w_second))).
  assert (Hf : live (clock w_exchanged) (session_hash_family (redis w_exchanged) !! w_second) = Some f) by (vm_compute; reflexivity).
  destruct (H2 77%positive f Hf) as (w' & E & _ & Hk & _). exists w'. split; [exact E|].
  assert (Hm : bool_decide (w_sha w_new ∈ family_members (clock w_exchanged) (redis w_exchanged) f) = true) by (vm_compute; reflexivity).
  exact (Hk (w_sha w_new) (bool_decide_eq_true_1 _ Hm)).
Defined.
