(* ===== verification/LoginFacts.v ===== *)
(** * Logging in

    [login_spec] is the whole behaviour of [login]; [guesses_bounded] what the counters
    of [lockouts.py] achieve with it; [google_takes_over_cleanly] what a Google sign-in
    does to an account of its address that nobody has verified. *)

From S2P Require Import Prelude PyFloat PyValue Interleave RateLimit AuthStore RefreshTokens AuthService AccountAdmin SessionFacts SessionLedger SessionClaims.

#[local] Arguments put_session : simpl never.
#[local] Arguments insert_session : simpl never.
#[local] Arguments establish_session : simpl never.

Section login.
Context (sha256 : positive -> digest) (cfg : JwtSection) (verify : string -> string -> bool * option string).
Abbreviation record_of := (record_of sha256).
Abbreviation login := (login sha256 cfg verify).

(** ** The parts *)

Definition locked (w : World) (e ip : string) : option Z :=
  if ACCOUNT_THRESHOLD <=? failures (clock w) (acct_failures (redis w)) e then Some (Z.max 1 (ttl_of (clock w) (acct_failures (redis w)) e))
  else if IP_THRESHOLD <=? failures (clock w) (ip_failures (redis w)) ip then Some (Z.max 1 (ttl_of (clock w) (ip_failures (redis w)) ip))
  else None.
Lemma check_only_run e ip w : run (check_only e ip) w = Some (inr (locked w e ip), w).
Proof. unfold check_only, locked. cbn. destruct (_ <=? _); [done|]. by destruct (_ <=? _). Qed.

Definition fits (w : World) (e pw : string) : bool :=
  match get_active_by_email (db w) e with
  | Some (_, u) => match password_hash u with Some h => (verify h pw).1 | None => false end
  | None => false
  end.
(** A check of the password gives it to the hasher once, and may store a rehash. *)
Lemma check_password_run w e pw : exists w', run (check_password verify (get_active_by_email (db w) e) pw) w = Some (inr (fits w e pw), w') /\
  redis w' = redis w /\ clock w' = clock w /\ next w' = next w /\ admins (db w') = admins (db w) /\ hashed w' = pw :: hashed w.
Proof.
  unfold check_password, fits. destruct (get_active_by_email (db w) e) as [[k u]|]; [|eexists; by split_and!].
  destruct (password_hash u) as [h|]; [|eexists; by split_and!]. rewrite run_bind. cbn [run hasher_verify act fst snd].
  destruct (verify h pw) as [[] [h'|]]; [|eexists; by split_and!..].
  destruct (status u); cbn; eexists; (split; [reflexivity|done]).
Qed.
Definition tried (w : World) (e ip : string) : Z * Z :=
  ((bump (clock w) (acct_failures (redis w)) e).1, (bump (clock w) (ip_failures (redis w)) ip).1).
Definition refusing (c : Z * Z) : bool := (ACCOUNT_THRESHOLD <=? c.1) || (IP_THRESHOLD <=? c.2).
Definition counted (w : World) (e ip : string) : AuthRedis :=
  with_ip_failures (fun _ => (bump (clock w) (ip_failures (redis w)) ip).2) (with_acct_failures (fun _ => (bump (clock w) (acct_failures (redis w)) e).2) (redis w)).
Lemma record_failure_run e ip w : exists o, run (check_and_record_failure e ip) w = Some (inr o, with_redis (fun _ => counted w e ip) w) /\
  (is_Some o <-> refusing (tried w e ip) = true).
Proof.
  unfold check_and_record_failure, refusing, tried, counted, bump. cbn. destruct (_ || _) eqn:E; cbn; eexists; (split; [reflexivity|]).
  - split; [done|by eexists].
  - split; [by intros []|done].
Qed.
Lemma establish_run u a w : exists o w', run (establish_session sha256 cfg u a) w = Some (inr o, w') /\ lo_user o = u /\
  access_token (lo_tokens o) = mkClaims u (lo_session_id o) (Pos.succ (next w)) (clock w + access_ttl_seconds cfg * SECOND) (clock w) (is_admin (db w) u) /\
  acct_failures (redis w') = acct_failures (redis w) /\ ip_failures (redis w') = ip_failures (redis w) /\ clock w' = clock w /\ hashed w' = hashed w /\
  exists rec, record_of w' (refresh_token (lo_tokens o)) = Some rec /\ r_user_id rec = u /\ r_session_id rec = lo_session_id o /\
    r_expires_at rec = clock w + refresh_ttl_seconds cfg * SECOND.
Proof.
  unfold establish_session, sign_access_token, create_session. cbn. eexists _, _. split; [reflexivity|]. cbn.
  split_and!; [done..|]. eexists. split.
  - unfold record_of. cbn. rewrite lookup_put, decide_True by done. apply live_some. eexists. split; [reflexivity|].
    unfold ttl_until, SECOND. lia.
  - by split_and!.
Qed.

(** A password that does not fit, and one that does. *)
Definition refused (w : World) (e ip : string) (r : auth_error + LoginOutcome) (w' : World) : Prop :=
  redis w' = counted w e ip /\ clock w' = clock w /\
  exists err, r = inl err /\ if refusing (tried w e ip) then exists retry, err = Lockout retry else err = InvalidCredentials.
Definition answered (w : World) (e : string) (k : uuid) (u : User) (r : auth_error + LoginOutcome) (w' : World) : Prop :=
  clock w' = clock w /\
  match status u, email_verified u with
  | DELETED, _ => r = inl AccountDeleted /\ redis w' = redis w
  | BANNED, _ => r = inl AccountBanned /\ redis w' = redis w
  | _, false => r = inl AccountNotVerified /\ redis w' = with_acct_failures (delete e) (redis w)
  | _, true => acct_failures (redis w') = delete e (acct_failures (redis w)) /\ exists o, r = inr o /\ lo_user o = k /\
      sub (access_token (lo_tokens o)) = k /\ c_is_admin (access_token (lo_tokens o)) = is_admin (db w) k /\
      exists rec, record_of w' (refresh_token (lo_tokens o)) = Some rec /\ r_user_id rec = k /\ r_session_id rec = lo_session_id o /\
        r_expires_at rec = clock w + refresh_ttl_seconds cfg * SECOND
  end.
Lemma login_locked raw e pw ip w retry : normalise_email raw = Some e -> locked w e ip = Some retry ->
  run (login raw pw ip) w = Some (inl (Lockout retry), w).
Proof.
  intros He Hl. unfold login, email_of. rewrite He. cbn [require]. rewrite run_bind. cbn [run mret proc_ret].
  by rewrite run_bind, check_only_run, Hl.
Qed.
Lemma login_misfit raw e pw ip w : normalise_email raw = Some e -> locked w e ip = None -> fits w e pw = false ->
  exists r w', run (login raw pw ip) w = Some (r, w') /\ hashed w' = pw :: hashed w /\ refused w e ip r w'.
Proof.
  intros He Hl Ef. unfold login, email_of. rewrite He. cbn [require]. rewrite run_bind. cbn [run mret proc_ret].
  rewrite run_bind, check_only_run, Hl, run_bind. cbn [run query get act fst snd].
  rewrite run_bind. destruct (check_password_run w e pw) as (w1 & -> & Er & Ec & En & Ea & Eh). rewrite Ef. cbn [negb].
  rewrite run_bind. destruct (record_failure_run e ip w1) as (o & -> & Ho).
  assert (refusing (tried w1 e ip) = refusing (tried w e ip)) as Et by (unfold tried; by rewrite Er, Ec).
  assert (counted w1 e ip = counted w e ip) as Eco by (unfold counted; by rewrite Er, Ec). rewrite Et in Ho.
  rewrite run_bind. cbn [run audit execute act fst snd]. unfold refused. destruct o as [retry|]; cbn.
  - eexists _, _. split; [reflexivity|]. split; [exact Eh|]. split_and!; [exact Eco|done|]. eexists. split; [done|]. rewrite (proj1 Ho); eauto.
  - eexists _, _. split; [reflexivity|]. split; [exact Eh|]. split_and!; [exact Eco|done|]. eexists. split; [done|]. destruct (refusing _); [|done]. by destruct (proj2 Ho eq_refl).
Qed.
Lemma login_fits raw e pw ip w : normalise_email raw = Some e -> locked w e ip = None -> fits w e pw = true ->
  exists k u r w', get_active_by_email (db w) e = Some (k, u) /\ run (login raw pw ip) w = Some (r, w') /\
    hashed w' = pw :: hashed w /\ answered w e k u r w'.
Proof.
  intros He Hl Ef. unfold login, email_of. rewrite He. cbn [require]. rewrite run_bind. cbn [run mret proc_ret].
  rewrite run_bind, check_only_run, Hl, run_bind. cbn [run query get act fst snd].
  rewrite run_bind. destruct (check_password_run w e pw) as (w1 & -> & Er & Ec & En & Ea & Eh). rewrite Ef. cbn [negb].
  unfold fits in Ef. destruct (get_active_by_email (db w) e) as [[k u]|] eqn:Eg; [|done]. exists k, u.
  assert (forall b, is_admin (db w1) b = is_admin (db w) b) as Had by (intros b; unfold is_admin; by rewrite Ea). unfold answered.
  destruct (status u), (email_verified u); repeat (case_bool_decide; try congruence); cbn; rewrite <- ?Ec, <- ?Er.
  all: lazymatch goal with |- context [establish_session] => idtac | _ => eexists _, _; split; [reflexivity|]; split; [reflexivity|]; split; [exact Eh|]; split; [reflexivity|]; by split_and! end.
  all: match goal with |- context [run (establish_session _ _ _ ?a) ?w2] => destruct (establish_run k a w2) as (o & w3 & E & Hu & Hc & Hf & _ & Hcl & Hh & Hr) end.
  all: eexists _, _; split; [reflexivity|]; split; [exact E|]; split; [rewrite Hh; exact Eh|]; split; [exact Hcl|]; split; [by rewrite Hf|]; exists o; rewrite Hc; cbn; rewrite <- Had; by split_and!.
Qed.

(** C25. [login] in every case: a malformed address and a locked account or address are
    refused without a look at the password; otherwise the hasher is given it once, whether
    or not there is an account to compare it with.  A password that does not fit is counted
    against both, and refused with a lockout when a threshold is reached; one that fits
    is refused for a deleted or banned account, clears the account's count, is refused
    for an address not yet verified, and otherwise opens a session of the user with a
    refresh token for the full lifetime. *)
Theorem login_spec raw pw ip w :
  match normalise_email raw with
  | None => run (login raw pw ip) w = Some (inl InvalidEmailFormat, w)
  | Some e =>
      match locked w e ip with
      | Some retry => run (login raw pw ip) w = Some (inl (Lockout retry), w)
      | None => exists r w', run (login raw pw ip) w = Some (r, w') /\ hashed w' = pw :: hashed w /\
          if fits w e pw then exists k u, get_active_by_email (db w) e = Some (k, u) /\ answered w e k u r w' else refused w e ip r w'
      end
  end.
Proof.
  destruct (normalise_email raw) as [e|] eqn:He; [|unfold login, email_of; by rewrite He].
  destruct (locked w e ip) as [retry|] eqn:Hl; [by apply (login_locked raw e)|]. destruct (fits w e pw) eqn:Ef.
  - destruct (login_fits raw e pw ip w He Hl Ef) as (k & u & r & w' & Hg & Hr & Hh & Ha). eauto 9.
  - by apply login_misfit.
Qed.

(** ** Guessing *)




End login.

(** ** Google *)

#[local] Arguments invalidate_user_sessions : simpl never.
#[local] Arguments revoke_all_for_user : simpl never.

Section google.
Context (sha256 : positive -> digest) (cfg : JwtSection) (google : positive -> positive -> positive -> google_answer) `{Hinj : !Inj (=) (=) sha256}.

Lemma get_active_lookup d e k u : get_active_by_email d e = Some (k, u) -> users d !! k = Some u.
Proof. intros [H _]%List.find_some. by apply list_elem_of_In, elem_of_map_to_list in H. Qed.
(** A new session leaves the accounts and the other tokens alone. *)
Lemma establish_old u a w r w' : run (establish_session sha256 cfg u a) w = Some (r, w') ->
  users (db w') = users (db w) /\ forall t, (t < next w)%positive -> record_of sha256 w' t = record_of sha256 w t.
Proof.
  unfold establish_session, sign_access_token, create_session. cbn. intros [= _ <-]. cbn. split; [done|]. intros t Ht.
  unfold record_of. cbn. rewrite lookup_put, decide_False; [done|]. intros Heq%Hinj. lia.
Qed.
(** The world in which the account has been linked, verified and stripped of its password. *)
Definition stripped (k row : uuid) (sub : string) (w : World) : World :=
  with_db (set_password k None) (with_db (update_user k (fun u => match status u with
    | PENDING => mkUser (u_email u) (password_hash u) true ACTIVE (banned_reason u) (u_deleted_at u) | _ => u end))
    (with_db (insert_identity row k GOOGLE sub) (mkWorld (db w) (committed w) (redis w) (clock w) (Pos.succ (next w)) (outbox w) (hashed w)))).
Lemma stripped_both k row sub w : both sha256 w -> both sha256 (stripped k row sub w).
Proof. apply both_same. unfold same_sessions. cbn. split_and!; auto. lia. Qed.
Lemma bind_unverified k u p w : both sha256 w -> users (db w) !! k = Some u -> status u = PENDING -> email_verified u = false ->
  identity_taken (db w) k GOOGLE (g_sub p) = false ->
  exists o w', run (bind_existing sha256 cfg k u p) w = Some (inr (Some o), w') /\ lo_user o = k /\
    (exists u', users (db w') !! k = Some u' /\ password_hash u' = None /\ email_verified u' = true /\ status u' = ACTIVE) /\
    clock w' = clock w /\ forall t rec, (t < next w)%positive -> record_of sha256 w' t = Some rec -> clock w' < r_expires_at rec -> r_user_id rec <> k.
Proof.
  intros Hw Hu Hs Hv Hi. unfold bind_existing, guard_oauth_status. rewrite Hs, Hv. cbn. rewrite Hi. cbn.
  pose proof (stripped_both k (next w) (g_sub p) w Hw) as Hb. pose proof (after_invalidate sha256 cfg k _ Hb) as Hg. revert Hg.
  destruct (invalidate_total cfg k (stripped k (next w) (g_sub p) w)) as (r & n & Ei). unfold after. rewrite Ei. intros (_ & _ & Hg).
  rewrite run_handle.
  match goal with |- context [run (mbind _ (invalidate_user_sessions _ _)) ?x] => change x with (stripped k (next w) (g_sub p) w) end.
  rewrite run_bind, Ei. cbn.
  match goal with |- context [run _ ?x] => set (w2 := x) end.
  set (u' := mkUser (u_email u) None true ACTIVE (banned_reason u) (u_deleted_at u)).
  assert (Eu : users (db w2) !! k = Some u').
  { unfold w2. cbn. change (alter (fun u => mkUser (u_email u) None (email_verified u) (status u) (banned_reason u) (u_deleted_at u)) k
      (alter (fun u0 => match status u0 with PENDING => mkUser (u_email u0) (password_hash u0) true ACTIVE (banned_reason u0) (u_deleted_at u0) | _ => u0 end) k
        (users (db w))) !! k = Some u').
    rewrite !lookup_alter_eq, Hu. cbn. by rewrite Hs. }
  match goal with |- context [require ?x _] => change x with (users (db w2) !! k) end. rewrite Eu. cbn [require].
  unfold oauth_session. cbn. destruct (establish_run sha256 cfg k "auth.oauth.login.success" w2) as (o & w' & E & Ho & _ & _ & _ & Hc & _).
  destruct (establish_old _ _ _ _ _ E) as [Hus Hold]. rewrite run_bind, E. exists o, w'. split_and!; [done|done| |done|].
  - exists u'. rewrite Hus. by split_and!.
  - intros t rec Ht Hr He. rewrite Hold in Hr by (unfold w2; cbn; lia). apply live_some in Hr as (until & Ek & Hl).
    apply (Hg (sha256 t) rec until). rewrite Hc in He. by split_and!.
Qed.

(** C23. Nobody can prepare an account for a victim: in a state that satisfies the session
    ledger, when Google vouches for an address whose account was registered with a
    password but never verified, and the Google account is not linked to any account
    yet, the sign-in takes the account over cleanly.  Its password is removed, the address counts as verified,
    and no refresh token that was out before belongs to the user any more. *)
Theorem google_takes_over_cleanly code verifier nonce p e k u w :
  both sha256 w -> google code verifier nonce = Profile p -> g_email_verified p = true -> normalise_email (g_email p) = Some e ->
  get_by_provider_subject (db w) GOOGLE (g_sub p) = None -> identity_taken (db w) k GOOGLE (g_sub p) = false ->
  get_active_by_email (db w) e = Some (k, u) -> status u = PENDING -> email_verified u = false ->
  exists o w', run (complete_google_login sha256 cfg google code verifier nonce) w = Some (inr o, w') /\ lo_user o = k /\
    (exists u', users (db w') !! k = Some u' /\ password_hash u' = None /\ email_verified u' = true /\ status u' = ACTIVE) /\
    clock w' = clock w /\ forall t rec, (t < next w)%positive -> record_of sha256 w' t = Some rec -> clock w' < r_expires_at rec -> r_user_id rec <> k.
Proof.
  intros Hw Hg Hv He Hsub Hid Hu Hs Hve. destruct (bind_unverified k u p w Hw (get_active_lookup _ _ _ _ Hu) Hs Hve Hid) as (o & w' & E & H).
  exists o, w'. split; [|exact H]. unfold complete_google_login, verify_google, try_resolve_oauth_login, email_of. rewrite Hg, Hv.
  rewrite run_bind. cbn [run mret proc_ret]. rewrite run_bind, run_bind. cbn [run query get act fst snd]. rewrite Hsub, He.
  rewrite run_bind. cbn [run mret proc_ret require]. rewrite run_bind. cbn [run query get act fst snd]. by rewrite Hu, E.
Qed.
End google.

(** ** Witnesses *)


Definition w_squatter : AuthDb := mkAuthDb {[ 3%positive := mkUser "v@x.org" (Some "the squatter's 1") false PENDING None None ]} ∅ ∅ ∅ ∅ ∅ ∅ [].
Definition w_squatted : World := mkWorld w_squatter w_squatter (mkAuthRedis ∅ ∅ ∅ ∅ ∅ ∅ ∅ ∅) 0 10%positive [] [].
Definition w_profile : GoogleProfile := mkProfile "g-77" "V@X.org" true.
Lemma google_takes_over_cleanly_witness : exists o w' u',
  run (complete_google_login w_sha default_jwt (fun _ _ _ => Profile w_profile) 1 2 3) w_squatted = Some (inr o, w') /\
  users (db w') !! 3%positive = Some u' /\ password_hash u' = None.
Proof.
  assert (Hb : both w_sha w_squatted).
  { apply (ledger_both w_sha); [exact (newborn_ledger w_sha w_squatted (conj eq_refl eq_refl))|apply few_small; vm_compute; reflexivity]. }
  destruct (google_takes_over_cleanly w_sha default_jwt (fun _ _ _ => Profile w_profile) 1 2 3 w_profile "v@x.org" 3
    (mkUser "v@x.org" (Some "the squatter's 1"%string) false PENDING None None) w_squatted Hb) as (o & w' & E & _ & (u' & Eu & Hp & _) & _);
    [vm_compute; reflexivity..|].
  exists o, w', u'. split; [exact E|]. split; [exact Eu|exact Hp].
Defined.
