(* ===== verification/LinkFacts.v ===== *)
(** * One-time links

    The verification and password-reset tokens of the tables: every token is drawn once,
    a user has at most one of each kind that is not used up, and one that is used up is
    so for good ([links], kept by every request), so that a link works once
    ([link_works_once]). *)

From S2P Require Import Prelude PyFloat PyValue Interleave RateLimit AuthStore RefreshTokens AuthService AccountAdmin SessionFacts SessionLedger SessionClaims.

Section links.
Context (sha256 : positive -> digest) (cfg : JwtSection)
  (hash : string -> string) (verify : string -> string -> bool * option string) (nfkc : string -> string)
  (captcha_ok : option string -> bool) (domain_allowed : string -> bool)
  (google : positive -> positive -> positive -> google_answer)
  (org_needs : uuid -> bool) (hexdigest : string -> string) (lua : N).
Context `{Hinj : !Inj (=) (=) sha256}.

(** ** The invariant

    [used] are tokens of which no usable row may be left. *)
Context (used : token_kind -> token -> Prop).
Record links_of (t : token_table) (n : positive) (u : token -> Prop) : Prop := mkLinks {
  li_drawn : forall row o, t !! row = Some o -> (row < n)%positive /\ exists x, (x < n)%positive /\ ot_hash o = sha256 x;
  li_hash : forall r1 r2 o1 o2, t !! r1 = Some o1 -> t !! r2 = Some o2 -> ot_hash o1 = ot_hash o2 -> r1 = r2;
  li_one : forall r1 r2 o1 o2, t !! r1 = Some o1 -> t !! r2 = Some o2 -> ot_user_id o1 = ot_user_id o2 ->
    ot_used_at o1 = None -> ot_used_at o2 = None -> r1 = r2;
  li_used : forall x row o, u x -> t !! row = Some o -> ot_hash o = sha256 x -> ot_used_at o <> None;
  li_past : forall x, u x -> (x < n)%positive;
}.
Definition links (d : AuthDb) (n : positive) : Prop := forall kind, links_of (table_of kind d) n (used kind).
Definition linked (w : World) : Prop := links (db w) (next w) /\ links (committed w) (next w).

Lemma links_next t n n' u : (n <= n')%positive -> links_of t n u -> links_of t n' u.
Proof.
  intros Hn [H1 H2 H3 H4 H5]. split; [|done..|].
  - intros row o (Hr & x & Hx & E)%H1. split; [lia|]. exists x. split; [lia|done].
  - intros x Hx%H5. lia.
Qed.
(** Rows may be marked as used. *)
Lemma links_marked t t' n u : links_of t n u ->
  (forall row o', t' !! row = Some o' -> exists o, t !! row = Some o /\ ot_hash o' = ot_hash o /\ ot_user_id o' = ot_user_id o /\
     (ot_used_at o' = None -> ot_used_at o = None)) -> links_of t' n u.
Proof.
  intros [H1 H2 H3 H4 H5] Hm. split; [| | | |done].
  - intros row o' (o & E & Eh & _)%Hm. rewrite Eh. by apply H1.
  - intros r1 r2 o1 o2 (p1 & E1 & Eh1 & _)%Hm (p2 & E2 & Eh2 & _)%Hm Hh. apply (H2 r1 r2 p1 p2); [done..|congruence].
  - intros r1 r2 o1 o2 (p1 & E1 & _ & Eu1 & Hu1)%Hm (p2 & E2 & _ & Eu2 & Hu2)%Hm Hu Hn1 Hn2. apply (H3 r1 r2 p1 p2); [done..|congruence|auto|auto].
  - intros x row o' Hx (o & E & Eh & _ & Hu)%Hm Hh Hn. apply (H4 x row o Hx E); [congruence|auto].
Qed.
Lemma burn_marks user n t row o' : burn user n t !! row = Some o' -> exists o, t !! row = Some o /\ ot_hash o' = ot_hash o /\
  ot_user_id o' = ot_user_id o /\ (ot_used_at o' = None -> ot_used_at o = None).
Proof.
  unfold burn. rewrite lookup_fmap. destruct (t !! row) as [o|]; [|done]. cbn. intros [= <-]. exists o.
  destruct (_ && _); [by split_and!|done].
Qed.
Lemma burned user n t row o : burn user n t !! row = Some o -> ot_user_id o = user -> ot_used_at o <> None.
Proof.
  unfold burn. rewrite lookup_fmap. destruct (t !! row) as [o1|]; [|done]. cbn. intros [= <-].
  case_bool_decide as Hu; cbn; [|done]. destruct (ot_used_at o1) eqn:E; cbn; [congruence|done].
Qed.
Lemma links_issued t n u user row x until : links_of t n u -> (forall r o, t !! r = Some o -> ot_user_id o = user -> ot_used_at o <> None) ->
  (n <= row)%positive -> (n <= x)%positive -> forall n', (row < n')%positive -> (x < n')%positive -> (n <= n')%positive ->
  links_of (<[row := mkOneTime user (sha256 x) until None]> t) n' u.
Proof.
  intros [H1 H2 H3 H4 H5] Hb Hrow Hx n' Hr' Hx' Hn'.
  assert (forall r o, t !! r = Some o -> r <> row /\ ot_hash o <> sha256 x) as Hne.
  { intros r o (Hr & y & Hy & ->)%H1. split; [lia|]. intros Heq%Hinj. lia. }
  split.
  - intros r o [[<- <-]|[_ E]]%lookup_insert_Some; [split; [done|]; by exists x|]. apply H1 in E as (Hr & y & Hy & E). split; [lia|]. exists y. split; [lia|done].
  - intros r1 r2 o1 o2 [[<- <-]|[_ E1]]%lookup_insert_Some [[<- <-]|[_ E2]]%lookup_insert_Some Hh; [done| | |by apply (H2 r1 r2 o1 o2)].
    + destruct (Hne _ _ E2) as [_ Hn2]. by destruct Hn2.
    + destruct (Hne _ _ E1) as [_ Hn1]. by destruct Hn1.
  - intros r1 r2 o1 o2 [[<- <-]|[_ E1]]%lookup_insert_Some [[<- <-]|[_ E2]]%lookup_insert_Some Hu Hn1 Hn2; [done| | |by apply (H3 r1 r2 o1 o2)].
    + by destruct (Hb _ _ E2).
    + by destruct (Hb _ _ E1).
  - intros y r o Hy [[<- <-]|[_ E]]%lookup_insert_Some Hh; [|by apply (H4 y r o)]. cbn in Hh. apply Hinj in Hh. apply H5 in Hy. lia.
  - intros y Hy%H5. lia.
Qed.
Lemma consume_marks h n t user t' : consume_row h n t = Some (user, t') -> (forall row o', t' !! row = Some o' -> exists o, t !! row = Some o /\ ot_hash o' = ot_hash o /\
  ot_user_id o' = ot_user_id o /\ (ot_used_at o' = None -> ot_used_at o = None)) /\
  exists row o o', t !! row = Some o /\ ot_hash o = h /\ t' !! row = Some o' /\ ot_hash o' = h /\ ot_used_at o' <> None.
Proof.
  unfold consume_row. destruct (List.find _ _) as [[k o]|] eqn:E; [|done]. intros [= _ <-].
  apply List.find_some in E as [Hin Hu]. apply list_elem_of_In, elem_of_map_to_list in Hin. cbn in Hu. unfold usable in Hu.
  assert (ot_hash o = h) as Hh by (destruct (bool_decide_reflect (ot_hash o = h)); [done|by cbn in Hu]). split.
  - intros row o' [[<- <-]|[_ E]]%lookup_insert_Some; [exists o; by split_and!|by exists o'].
  - exists k, o. eexists. split_and!; [done|done|apply lookup_insert_eq|done|done].
Qed.

(** ** Every request keeps it *)

Definition keeps_links {A} (m : auth A) : Prop := forall w, linked w -> after (fun _ => linked) m w.
Lemma kl_mret {A} (a : A) : keeps_links (mret a : auth A).
Proof. by intros w Hw. Qed.
Lemma kl_raise {A} e : keeps_links (raise e : auth A).
Proof. by intros w Hw. Qed.
Lemma kl_handle {A B} (m : auth A) (k : auth_error + A -> auth B) : keeps_links m -> (forall r, keeps_links (k r)) -> keeps_links (handle m k).
Proof. intros Hm Hk w Hw. apply after_handle. eapply after_mono; [|by apply Hm]. intros r w' Hw'. by apply Hk. Qed.
Lemma kl_bind {A B} (m : auth A) (k : A -> auth B) : keeps_links m -> (forall a, keeps_links (k a)) -> keeps_links (m ≫= k).
Proof. intros Hm Hk. apply kl_handle; [done|]. intros [e|a]; [apply kl_raise|apply Hk]. Qed.
Lemma kl_catch {A} (m : auth A) k : keeps_links m -> (forall e, keeps_links (k e)) -> keeps_links (catch m k).
Proof. intros Hm Hk. apply kl_handle; [done|]. intros [e|a]; [apply Hk|apply kl_mret]. Qed.
(** A step that changes neither table. *)
Definition same_tables (d d' : AuthDb) : Prop := forall kind, table_of kind d' = table_of kind d.
Lemma links_same d d' n n' : same_tables d d' -> (n <= n')%positive -> links d n -> links d' n'.
Proof. intros E Hn H kind. rewrite E. eapply links_next; [exact Hn|apply H]. Qed.
Lemma kl_same {A} (f : World -> (auth_error + A) * World) :
  (forall w, same_tables (db w) (db (f w).2) /\ (same_tables (committed w) (committed (f w).2) \/ same_tables (db w) (committed (f w).2)) /\
     (next w <= next (f w).2)%positive) -> keeps_links (act f).
Proof.
  intros H w [H1 H2]. apply after_act. destruct (H w) as (Ed & Ec & Hn). split; [by eapply links_same|].
  destruct Ec; by eapply links_same.
Qed.
Lemma same_tables_refl d : same_tables d d.
Proof. done. Qed.
Lemma kl_get {A} (f : World -> A) : keeps_links (get f).
Proof. apply kl_same. intros w. cbn. split_and!; auto using same_tables_refl. lia. Qed.
Ltac same := apply kl_same; intros w; cbn; split_and!; auto using same_tables_refl; lia.
Lemma kl_execute f : (forall d, same_tables d (f d)) -> keeps_links (execute f).
Proof. intros H. apply kl_same. intros w. cbn. split_and!; auto using same_tables_refl. lia. Qed.
Lemma kl_insert_or e bad f : (forall d, same_tables d (f d)) -> keeps_links (insert_or e bad f).
Proof. intros H. apply kl_same. intros w. destruct (bad (db w)); cbn; split_and!; auto using same_tables_refl; lia. Qed.
Lemma kl_query {A} (f : AuthDb -> A) : keeps_links (query f).
Proof. apply kl_get. Qed.
Lemma kl_now : keeps_links now.
Proof. apply kl_get. Qed.
Lemma kl_draw : keeps_links draw.
Proof. same. Qed.
Lemma kl_mail m : keeps_links (mail m).
Proof. same. Qed.
Lemma kl_hasher v h pw : keeps_links (hasher_verify v h pw).
Proof. same. Qed.
Lemma kl_dummy pw : keeps_links (verify_dummy pw).
Proof. same. Qed.
Lemma kl_commit : keeps_links commit.
Proof. same. Qed.
Lemma kl_require {A} (o : option A) e : keeps_links (require o e).
Proof. destruct o; [apply kl_mret|apply kl_raise]. Qed.
Lemma kl_redis f : keeps_links (redis_do f).
Proof. same. Qed.
Lemma kl_mark_verified u : keeps_links (mark_verified u).
Proof. apply kl_same. intros w. cbn. split_and!; [by intros []|by left|lia]. Qed.
Lemma kl_within_limit k a b : keeps_links (within_limit lua k a b).
Proof. apply kl_same. intros w. destruct (check_raw _ _ _ _ _ _). cbn. split_and!; auto using same_tables_refl. lia. Qed.
Lemma kl_create_session u s j : keeps_links (create_session sha256 cfg u s j).
Proof. apply kl_bind; [apply kl_draw|]. intros f. same. Qed.
Lemma kl_bump e ip : keeps_links (check_and_record_failure e ip).
Proof.
  apply kl_bind.
  - apply kl_same. intros w. destruct (bump _ (acct_failures _) _), (bump _ (ip_failures _) _). cbn. split_and!; auto using same_tables_refl. lia.
  - intros [a i]. destruct (_ || _); [apply kl_bind; [apply kl_get|intros ?; apply kl_mret]|apply kl_mret].
Qed.
Lemma kl_pop s : keeps_links (pop_state s).
Proof. same. Qed.

(** A table of one kind is replaced by another that is as good. *)
Lemma linked_table kind f w : linked w -> links_of (f (table_of kind (db w))) (next w) (used kind) -> linked (with_db (with_table kind f) w).
Proof.
  intros [H1 H2] Hf. split; [|exact H2]. intros k. destruct kind, k; try exact Hf; [exact (H1 Reset)|exact (H1 Verify)].
Qed.
Lemma kl_consume kind t : keeps_links (consume sha256 kind t).
Proof.
  intros w Hw. apply after_act. destruct (consume_row _ _ _) as [[u tbl]|] eqn:E; [|done]. cbn.
  apply linked_table; [done|]. eapply links_marked; [exact (proj1 Hw kind)|]. exact (proj1 (consume_marks _ _ _ _ _ E)).
Qed.
Lemma kl_issue kind u ttl : keeps_links (issue sha256 kind u ttl).
Proof.
  intros w [H1 H2]. unfold after, issue. cbn. split; [|intros k; eapply links_next; [|apply H2]; cbn; lia]. intros k.
  assert (links_of (burn u (clock w) (table_of kind (db w))) (next w) (used kind)) as Hb by (eapply links_marked; [apply H1|apply burn_marks]).
  assert (forall k, k <> kind -> links_of (table_of k (db w)) (Pos.succ (Pos.succ (next w))) (used k)) as Ho by (intros k' _; eapply links_next; [|apply H1]; lia).
  destruct (decide (k = kind)) as [->|Hne].
  - destruct kind; cbn; (eapply links_issued; [exact Hb|apply burned|lia..]).
  - destruct kind, k; try done; cbn; by apply (Ho _ Hne).
Qed.

Create HintDb links discriminated.
#[local] Hint Resolve kl_mret kl_raise kl_get kl_query kl_now kl_draw kl_mail kl_hasher kl_dummy kl_commit kl_require kl_redis kl_mark_verified kl_within_limit
  kl_create_session kl_bump kl_pop kl_consume kl_issue : links.
#[local] Hint Extern 1 (keeps_links (execute _)) => apply kl_execute; intros ? []; reflexivity : links.
#[local] Hint Extern 1 (keeps_links (insert_or _ _ _)) => apply kl_insert_or; intros ? []; reflexivity : links.
#[local] Hint Extern 1 (keeps_links (audit _ _)) => apply kl_execute; intros ? []; reflexivity : links.
#[local] Hint Extern 1 (keeps_links (deny_jti _ _)) => apply kl_redis : links.
Ltac link := walk ltac:(auto with links) ltac:(apply kl_bind) ltac:(apply kl_handle) ltac:(apply kl_catch).
Lemma kl_kill_family f : keeps_links (kill_family f).
Proof. unfold kill_family. link. Qed.
#[local] Hint Resolve kl_kill_family : links.
Lemma kl_rotate t j : keeps_links (rotate_session sha256 t j).
Proof.
  unfold rotate_session, kill_family_by_hash. link.
Qed.
Lemma kl_revoke t : keeps_links (revoke_session sha256 t).
Proof. unfold revoke_session, get_record. link. Qed.
Lemma kl_kill_families rows : keeps_links (kill_families cfg rows).
Proof. induction rows as [|[k s] rows IH]; cbn [kill_families]; link. Qed.
#[local] Hint Resolve kl_rotate kl_revoke kl_kill_families : links.
Lemma kl_invalidate u : keeps_links (invalidate_user_sessions cfg u).
Proof. unfold invalidate_user_sessions. link. Qed.
Lemma kl_establish u a : keeps_links (establish_session sha256 cfg u a).
Proof. unfold establish_session, sign_access_token. link. Qed.
Lemma kl_check_password found pw : keeps_links (check_password verify found pw).
Proof. unfold check_password. link. Qed.
Lemma kl_check_only e ip : keeps_links (check_only e ip).
Proof. unfold check_only. link. Qed.
Lemma kl_email_of e : keeps_links (email_of e).
Proof. unfold email_of. link. Qed.
Lemma kl_validate pw : keeps_links (validate_password nfkc pw).
Proof. unfold validate_password. link. Qed.
Lemma kl_reauthenticate u pw : keeps_links (reauthenticate verify u pw).
Proof. unfold reauthenticate. link. Qed.
Lemma kl_deny_all js : keeps_links (deny_all cfg js).
Proof. induction js as [|j js IH]; cbn [deny_all]; unfold deny_access_jti; link. Qed.
#[local] Hint Resolve kl_invalidate kl_establish kl_check_password kl_check_only kl_email_of kl_validate kl_reauthenticate kl_deny_all : links.
Lemma kl_close_imp mine : keeps_links (close_impersonations cfg mine).
Proof. unfold close_impersonations. link. Qed.
Lemma kl_verify_google c v n : keeps_links (verify_google google c v n).
Proof. unfold verify_google. link. Qed.
Lemma kl_resolve p : keeps_links (try_resolve_oauth_login sha256 cfg p).
Proof. unfold try_resolve_oauth_login, bind_existing, provision, guard_oauth_status, oauth_session. link. Qed.
#[local] Hint Resolve kl_close_imp kl_verify_google kl_resolve : links.
Lemma kl_google_login c v n : keeps_links (complete_google_login sha256 cfg google c v n).
Proof. unfold complete_google_login. link. Qed.
Lemma kl_google_link u c v n : keeps_links (complete_google_link google u c v n).
Proof. unfold complete_google_link. link. Qed.
#[local] Hint Resolve kl_google_login kl_google_link : links.

Abbreviation operation := (operation sha256 cfg hash verify nfkc captcha_ok domain_allowed google org_needs hexdigest lua).
Abbreviation history := (history sha256 cfg hash verify nfkc captcha_ok domain_allowed google org_needs hexdigest lua).
Lemma operation_links m : operation m -> keeps_links m.
Proof.
  intros []; unfold discard, register, verify_email, login, refresh, logout, revoke_own_session, request_password_reset, reset_password,
    change_password, change_email, delete_account, unlink_google, start_google_oauth, complete_google_callback, create_user,
    issue_activation_links, mint_activation_links, ban_user, unban_user, soft_delete_user, restore_user, promote_admin, demote_admin,
    start_impersonation, end_impersonation, close_idle_sessions, authenticate, require_user, deny_access_jti, is_denied, remaining_ttl, get_record,
    sign_access_token, clear_account; link.
Qed.
Lemma request_links {A} (m : auth A) w r w' : keeps_links m -> linked w -> request m w = Some (r, w') -> linked w'.
Proof.
  intros Hm Hw. specialize (Hm w Hw). unfold after in Hm. unfold request.
  destruct (run m w) as [[[e|a] w1]|]; [| |done]; intros [= _ <-]; split; apply Hm.
Qed.
Lemma history_links w w' : history w w' -> linked w -> linked w'.
Proof.
  induction 1 as [w|w w1 m r w2 _ IH Hm Hf Hr|w w1 dt _ IH Hdt]; intros Hl; [done| |by apply IH].
  eapply request_links; [by apply operation_links|by apply IH|exact Hr].
Qed.
End links.

(** ** A link works once *)

Section once.
Context (sha256 : positive -> digest) (cfg : JwtSection)
  (hash : string -> string) (verify : string -> string -> bool * option string) (nfkc : string -> string)
  (captcha_ok : option string -> bool) (domain_allowed : string -> bool)
  (google : positive -> positive -> positive -> google_answer)
  (org_needs : uuid -> bool) (hexdigest : string -> string) (lua : N).
Context `{Hinj : !Inj (=) (=) sha256}.
Abbreviation history := (history sha256 cfg hash verify nfkc captcha_ok domain_allowed google org_needs hexdigest lua).
Definition no_links : token_kind -> token -> Prop := fun _ _ => False.
Definition this_link (kind : token_kind) (t : token) : token_kind -> token -> Prop := fun k x => k = kind /\ x = t.

(** Before anyone has registered. *)
Definition no_tokens (w : World) : Prop := verify_tokens (db w) = ∅ /\ reset_tokens (db w) = ∅ /\ db w = committed w.
Lemma no_tokens_linked w : no_tokens w -> linked sha256 no_links w.
Proof.
  intros (Hv & Hr & Hc). assert (links sha256 no_links (db w) (next w)) as H.
  { intros kind. assert (table_of kind (db w) = ∅) as -> by (by destruct kind). split; try done. all: intros *; by rewrite lookup_empty. }
  split; [done|by rewrite <- Hc].
Qed.
(** A consumed token is one of which no usable row is left. *)
Lemma consumed_used kind t w user tbl : linked sha256 no_links w -> consume_row (sha256 t) (clock w) (table_of kind (db w)) = Some (user, tbl) ->
  (t < next w)%positive /\ forall row o, tbl !! row = Some o -> ot_hash o = sha256 t -> ot_used_at o <> None.
Proof.
  intros [H _] E. destruct (consume_marks _ _ _ _ _ E) as [Hm (r & o & o' & Er & Eh & Er' & Eh' & Hu)]. specialize (H kind).
  destruct (li_drawn _ _ _ _ H r o Er) as (_ & x & Hx & Ex). rewrite Eh in Ex. apply Hinj in Ex as ->. split; [done|].
  intros row p Ep Hp. destruct (Hm row p Ep) as (q & Eq & Ehq & _). assert (row = r) as -> by (apply (li_hash _ _ _ _ H row r q o); [done..|congruence]). congruence.
Qed.
Lemma consume_used kind t w : linked sha256 (this_link kind t) w -> run (consume sha256 kind t) w = Some (inr None, w).
Proof.
  intros [H _]. unfold consume. rewrite run_act. unfold consume_row. destruct (List.find _ _) as [[k o]|] eqn:E; [|done]. exfalso.
  apply List.find_some in E as [Hin Hu]. apply list_elem_of_In, elem_of_map_to_list in Hin. cbn in Hu. unfold usable in Hu.
  destruct (bool_decide_reflect (ot_hash o = sha256 t)) as [Hh|]; [|done]. specialize (H kind).
  apply (li_used _ _ _ _ H t k o); [done|done|done|]. by destruct (ot_used_at o).
Qed.
(** Adding a token that is used up to those the invariant knows. *)
Lemma links_learn d n kind t : links sha256 no_links d n -> (t < n)%positive ->
  (forall row o, table_of kind d !! row = Some o -> ot_hash o = sha256 t -> ot_used_at o <> None) -> links sha256 (this_link kind t) d n.
Proof.
  intros H Ht Hu k. destruct (H k) as [H1 H2 H3 _ _]. split; [done..| |].
  - intros x row o [-> ->]. apply Hu.
  - by intros x [_ ->].
Qed.

(** What a successful reset did to the table. *)
Lemma reset_consumed t pw w w1 : linked sha256 no_links w -> db w = committed w ->
  request (reset_password sha256 cfg hash nfkc t pw) w = Some (inr tt, w1) -> linked sha256 (this_link Reset t) w1.
Proof.
  intros Hl Hc Hr. unfold reset_password, validate_password in Hr. destruct (password_ok (nfkc pw)); [|done].
  unfold request in Hr. rewrite run_bind in Hr. cbn [run mret proc_ret] in Hr. rewrite run_bind in Hr. unfold consume in Hr. rewrite run_act in Hr.
  destruct (consume_row (sha256 t) (clock w) (table_of Reset (db w))) as [[user tbl]|] eqn:E; [|done].
  destruct (consumed_used Reset t w user tbl Hl E) as [Ht Hu]. rewrite run_bind in Hr. cbn [run mret proc_ret require] in Hr.
  rewrite run_bind in Hr. cbn [run execute act fst snd] in Hr. rewrite run_bind in Hr.
  match type of Hr with context [run (invalidate_user_sessions _ _) ?x] => destruct (invalidate_total cfg user x) as (r & n & Ei); rewrite Ei in Hr end.
  cbn in Hr. injection Hr as <-. unfold linked. cbn.
  assert (links sha256 (this_link Reset t) (with_reset (fun _ => tbl) (db w)) (next w)) as H.
  { apply links_learn; [|done|exact Hu]. destruct Hl as [Hl _]. intros [|]; [exact (Hl Verify)|].
    eapply links_marked; [exact (Hl Reset)|exact (proj1 (consume_marks _ _ _ _ _ E))]. }
  split; (eapply links_same; [|apply Pos.le_refl|exact H]); intros []; reflexivity.
Qed.
Lemma history_committed w w' : history w w' -> db w = committed w -> db w' = committed w'.
Proof.
  induction 1 as [w|w w1 m r w2 _ _ _ _ Hr|w w1 dt _ IH _]; intros Hc; [done| |by apply IH].
  unfold request in Hr. destruct (run m w1) as [[[e|a] w3]|]; [| |done]; by injection Hr as _ <-.
Qed.

(** C21. One-time links, in any sequence of requests since the service started, one after
    the other and while nobody has more than ten thousand sessions: a user has at most
    one unused link of each kind, because issuing one uses up the earlier ones; and a
    password-reset link works once, because after a reset that succeeded with it,
    whatever requests follow, a reset with it and a new password that meets the policy
    answers [TokenInvalid] and changes nothing (one that does not is refused before the
    link is looked at). *)
Theorem link_works_once w0 w : no_tokens w0 -> history w0 w ->
  (forall kind r1 r2 o1 o2, table_of kind (db w) !! r1 = Some o1 -> table_of kind (db w) !! r2 = Some o2 ->
     ot_user_id o1 = ot_user_id o2 -> ot_used_at o1 = None -> ot_used_at o2 = None -> r1 = r2) /\
  forall t pw pw' w1 w2, request (reset_password sha256 cfg hash nfkc t pw) w = Some (inr tt, w1) -> history w1 w2 ->
    password_ok (nfkc pw') = true -> run (reset_password sha256 cfg hash nfkc t pw') w2 = Some (inl TokenInvalid, w2).
Proof.
  intros Hn Hh. assert (linked sha256 no_links w) as Hl by (eapply history_links; [exact Hinj|exact Hh|by apply no_tokens_linked]).
  split; [intros kind; apply (li_one _ _ _ _ (proj1 Hl kind))|]. intros t pw pw' w1 w2 Hr Hh2 Hpw.
  assert (db w = committed w) as Hc by (apply (history_committed w0 w Hh), Hn).
  pose proof (reset_consumed t pw w w1 Hl Hc Hr) as Hl1.
  assert (linked sha256 (this_link Reset t) w2) as Hl2 by (eapply history_links; [exact Hinj|exact Hh2|exact Hl1]).
  unfold reset_password, validate_password. rewrite Hpw, run_bind. cbn [run mret proc_ret]. by rewrite run_bind, (consume_used Reset t w2 Hl2).
Qed.
End once.

(** ** Witness: a reset link is used, and tried again *)

Definition w_ask : auth unit := request_password_reset w_sha w_hash 0 "a@x.org".
Definition w_asked : World := w_after w_ask w_world.
Definition w_link : token := match outbox w_asked with ResetMail _ t :: _ => t | _ => 1%positive end.
Definition w_reset (pw : string) : auth unit := reset_password w_sha default_jwt w_hash w_hash w_link pw.
Definition w_done : World := w_after (w_reset "a new secret 22") w_asked.
Lemma link_works_once_witness : request (w_reset "a new secret 22") w_asked = Some (inr tt, w_done) /\
  run (w_reset "another one 33!") w_done = Some (inl TokenInvalid, w_done).
Proof.
  assert (Hr : request (w_reset "a new secret 22") w_asked = Some (inr tt, w_done)) by (vm_compute; reflexivity).
  split; [exact Hr|].
  assert (Hh : history w_sha default_jwt w_hash w_verify w_hash (fun _ => true) (fun _ => true) w_google (fun _ => false) w_hash 0 w_world w_asked).
  { apply history_after; [apply hi_start|exact (OpRequestReset _ _ _ _ _ _ _ _ _ _ _ _)|apply few_small; vm_compute; reflexivity]. }
  assert (Hn : no_tokens w_world) by (split; [reflexivity|split; reflexivity]).
  assert (Hp : password_ok (w_hash "another one 33!") = true) by (vm_compute; reflexivity).
  exact (proj2 (link_works_once w_sha default_jwt w_hash w_verify w_hash (fun _ => true) (fun _ => true) w_google (fun _ => false) w_hash 0
    w_world w_asked Hn Hh) _ _ _ _ _ Hr (hi_start _ _ _ _ _ _ _ _ _ _ _ _) Hp).
Defined.
