(* ===== verification/Transactions.v ===== *)
(** * Concurrent transactions over rows

    PostgreSQL at READ COMMITTED, as the repositories use it: a statement sees the
    committed rows and what its own transaction wrote; a row that is written or selected
    FOR UPDATE belongs to its transaction until the end, and a statement that wants it
    waits, then looks at the row again; an insert that a unique index refuses waits for
    the transaction whose row is in the way.  [DB] holds the committed rows and, for each
    row taken by a transaction, its number and its uncommitted version, if any. *)

From S2P Require Import Prelude Interleave.

Section db.
Context {K V : Type} `{Countable K}.

Record DB := mkDB { rows : gmap K V; held : gmap K (positive * option V); next : positive }.

(** The version of a row that transaction [t] wrote, and what it sees. *)
Definition draft (t : positive) (d : DB) (k : K) : option V :=
  match held d !! k with Some (q, v) => if Pos.eqb q t then v else None | None => None end.
Definition drafts (t : positive) (d : DB) : gmap K V := omap (fun o : positive * option V => if Pos.eqb o.1 t then o.2 else None) (held d).
Definition seen (t : positive) (d : DB) : gmap K V := drafts t d ∪ rows d.
Definition free (t : positive) (d : DB) (k : K) : bool :=
  match held d !! k with Some (q, _) => Pos.eqb q t | None => true end.
Definition holds (t : positive) (d : DB) (k : K) : Prop := exists v, held d !! k = Some (t, v).

Definition hold (t : positive) (k : K) (v : option V) (d : DB) : DB := mkDB (rows d) (<[k := (t, v)]> (held d)) (next d).
Definition commit_db (t : positive) (d : DB) : DB :=
  mkDB (drafts t d ∪ rows d) (filter (fun o => o.2.1 <> t) (held d)) (next d).
Definition rollback_db (t : positive) (d : DB) : DB := mkDB (rows d) (filter (fun o => o.2.1 <> t) (held d)) (next d).

(** The rows a statement's condition selects, in its snapshot. *)
Definition matching (t : positive) (p : K -> V -> bool) (d : DB) : list K :=
  fst <$> List.filter (fun kv => p kv.1 kv.2) (map_to_list (seen t d)).
(** One selected row: wait for it, look again, take it; [None] is a wait. *)
Definition take_row (t : positive) (k : K) (p : K -> V -> bool) (f : option (V -> V)) (d : DB) : option (option V * DB) :=
  if free t d k then
    Some match seen t d !! k with
         | Some v => if p k v
                     then match f with
                          | Some g => (Some (g v), hold t k (Some (g v)) d)
                          | None => (Some v, hold t k (draft t d k) d)
                          end
                     else (None, d)
         | None => (None, d)
         end
  else None.

(** [conflict v v']: a unique index has no place for both. *)
Context (conflict : V -> V -> bool).
Definition in_the_way (t : positive) (v : V) (d : DB) : bool :=
  existsb (fun ko => match ko.2 with
                     | (q, Some w) => negb (Pos.eqb q t) && (conflict v w || match rows d !! ko.1 with Some w' => conflict v w' | None => false end)
                     | (_, None) => false
                     end) (map_to_list (held d)).
Definition clashes (t : positive) (v : V) (d : DB) : bool := existsb (fun kv => conflict v kv.2) (map_to_list (seen t d)).
(** [INSERT … RETURNING id]: [None] inside is a conflict. *)
Definition insert_row (t : positive) (mk : positive -> K) (v : V) (d : DB) : option (option positive * DB) :=
  if in_the_way t v d then None
  else if clashes t v d then Some (None, d)
  else Some (Some (next d), mkDB (rows d) (<[mk (next d) := (t, Some v)]> (held d)) (Pos.succ (next d))).
(** [INSERT … ON CONFLICT (key) DO UPDATE] *)
Definition upsert_row (t : positive) (k : K) (v : V) (d : DB) : option (unit * DB) :=
  if free t d k then Some (tt, hold t k (Some v) d) else None.

(** ** What a transaction sees *)
Lemma lookup_drafts t d k : drafts t d !! k = draft t d k.
Proof. unfold drafts, draft. rewrite lookup_omap. destruct (held d !! k) as [[q v]|]; simpl; by try destruct (Pos.eqb q t). Qed.
Lemma lookup_seen t d k : seen t d !! k = match draft t d k with Some v => Some v | None => rows d !! k end.
Proof. unfold seen. rewrite lookup_union, lookup_drafts. destruct (draft t d k), (rows d !! k); done. Qed.
Lemma draft_Some t d k v : draft t d k = Some v <-> held d !! k = Some (t, Some v).
Proof. unfold draft. destruct (held d !! k) as [[q w]|]; [|done]. destruct (Pos.eqb_spec q t) as [->|]; split; congruence. Qed.
Lemma draft_holds t d k v : draft t d k = Some v -> holds t d k.
Proof. rewrite draft_Some. by eexists. Qed.
Lemma seen_not_held t d k : ~ holds t d k -> seen t d !! k = rows d !! k.
Proof. intros Hn. rewrite lookup_seen. destruct (draft t d k) eqn:E; [|done]. by apply draft_holds in E. Qed.
Lemma free_held t d k q v : free t d k = true -> held d !! k = Some (q, v) -> q = t.
Proof. unfold free. intros Hf Hh. rewrite Hh in Hf. by apply Pos.eqb_eq in Hf. Qed.
Lemma holds_unique t q d k : holds t d k -> holds q d k -> t = q.
Proof. intros [v Hv] [w Hw]. congruence. Qed.
Lemma elem_of_matching t p d k : k ∈ matching t p d <-> exists v, seen t d !! k = Some v /\ p k v = true.
Proof.
  unfold matching. rewrite list_elem_of_fmap. split.
  - intros ([k' v] & -> & Hin). apply list_elem_of_In, filter_In in Hin as [Hin Hp]. apply list_elem_of_In, elem_of_map_to_list in Hin. by exists v.
  - intros (v & Hk & Hp). exists (k, v). split; [done|]. apply list_elem_of_In, filter_In. split; [|done]. by apply list_elem_of_In, elem_of_map_to_list.
Qed.

Lemma clashes_false t v d k w : clashes t v d = false -> seen t d !! k = Some w -> conflict v w = false.
Proof.
  unfold clashes. intros Hc Hk. destruct (conflict v w) eqn:E; [|done]. rewrite <-Hc. symmetry. apply existsb_exists.
  exists (k, w). split; [|done]. by apply list_elem_of_In, elem_of_map_to_list.
Qed.
Lemma in_the_way_false t v d q k w : in_the_way t v d = false -> held d !! k = Some (q, Some w) -> q <> t ->
  conflict v w = false /\ (forall w', rows d !! k = Some w' -> conflict v w' = false).
Proof.
  unfold in_the_way. intros Hc Hk Hq.
  assert (Hkey : conflict v w || match rows d !! k with Some w' => conflict v w' | None => false end = false).
  { destruct (_ || _) eqn:E; [|done]. rewrite <-Hc. symmetry. apply existsb_exists. exists (k, (q, Some w)).
    split; [by apply list_elem_of_In, elem_of_map_to_list|]. simpl. rewrite E. by apply Pos.eqb_neq in Hq as ->. }
  apply orb_false_iff in Hkey as [H1 H2]. split; [done|]. intros w' Hw. by rewrite Hw in H2.
Qed.

(** ** What the others leave to a transaction *)
Record tx_keeps (t : positive) (d d' : DB) : Prop := {
  tk_held k v : held d !! k = Some (t, v) <-> held d' !! k = Some (t, v);
  tk_rows k : holds t d k -> rows d' !! k = rows d !! k;
}.
#[export] Instance tx_keeps_preorder t : PreOrder (tx_keeps t).
Proof.
  split; [by intros d; split|]. intros d1 d2 d3 [A1 A2] [B1 B2]. split.
  - intros k v. by rewrite A1.
  - intros k Hk. rewrite <-A2 by done. apply B2. destruct Hk as [v Hv]. exists v. by apply A1.
Qed.
Section keeps.
Context (t : positive) (d d' : DB) (Hk : tx_keeps t d d').
Lemma keeps_holds k : holds t d k <-> holds t d' k.
Proof. split; intros [v Hv]; exists v; by apply (tk_held _ _ _ Hk). Qed.
Lemma keeps_draft k : draft t d' k = draft t d k.
Proof. apply option_eq. intros v. rewrite !draft_Some. symmetry. apply (tk_held _ _ _ Hk). Qed.
Lemma keeps_seen k : holds t d k -> seen t d' !! k = seen t d !! k.
Proof. intros Hh. by rewrite !lookup_seen, keeps_draft, (tk_rows _ _ _ Hk). Qed.
End keeps.

Lemma hold_keeps t q k v d : q <> t -> (forall q' w, held d !! k = Some (q', w) -> q' = t) -> tx_keeps q d (hold t k v d).
Proof.
  intros Hq Hf. split; [|done]. intros k' w. simpl. destruct (decide (k' = k)) as [->|Hn]; [|by rewrite lookup_insert_ne].
  rewrite lookup_insert_eq. split; [intros Hh; by apply Hf in Hh|congruence].
Qed.
Lemma hold_free t k d : free t d k = true -> forall q' w, held d !! k = Some (q', w) -> q' = t.
Proof. intros Hf q' w. by apply free_held. Qed.
Lemma draft_hold t k v d k' : draft t (hold t k v d) k' = if decide (k' = k) then v else draft t d k'.
Proof.
  unfold draft. simpl. case_decide as Hd; [subst; by rewrite lookup_insert_eq, Pos.eqb_refl|]. by rewrite lookup_insert_ne.
Qed.
Lemma draft_hold_other t q k v d k' : q <> t -> (forall q' w, held d !! k = Some (q', w) -> q' = t) -> draft q (hold t k v d) k' = draft q d k'.
Proof. intros Hq Hf. apply keeps_draft. by apply hold_keeps. Qed.
Lemma holds_hold t k v d k' : holds t (hold t k v d) k' <-> k' = k \/ holds t d k'.
Proof.
  unfold holds. simpl. destruct (decide (k' = k)) as [->|Hn]; [rewrite lookup_insert_eq|rewrite lookup_insert_ne by done]; naive_solver.
Qed.
Lemma held_commit t d k q v : held (commit_db t d) !! k = Some (q, v) <-> held d !! k = Some (q, v) /\ q <> t.
Proof. simpl. by rewrite map_lookup_filter_Some. Qed.
Lemma held_rollback t d k q v : held (rollback_db t d) !! k = Some (q, v) <-> held d !! k = Some (q, v) /\ q <> t.
Proof. simpl. by rewrite map_lookup_filter_Some. Qed.
Lemma rows_commit t d k : rows (commit_db t d) !! k = seen t d !! k.
Proof. done. Qed.
Lemma commit_keeps t q d : q <> t -> tx_keeps q d (commit_db t d).
Proof.
  intros Hq. split.
  - intros k v. rewrite held_commit. naive_solver.
  - intros k Hk. rewrite rows_commit, seen_not_held; [done|]. intros Ht. by apply Hq, (holds_unique q t d k).
Qed.
Lemma rollback_keeps t q d : q <> t -> tx_keeps q d (rollback_db t d).
Proof. intros Hq. split; [|done]. intros k v. rewrite held_rollback. naive_solver. Qed.
End db.
#[global] Arguments DB : clear implicits.
#[global] Arguments DB K V {_ _}.

(** ** Statements as steps of a process

    The shared state is the database and whatever else the program reads, [X]. *)
Section statements.
Context {E K V X : Type} `{Countable K}.
Abbreviation W := (DB K V * X)%type.
Abbreviation proc := (Interleave.proc E W).

Definition on_db {A} (f : DB K V -> option (A * DB K V)) : proc A :=
  await (fun w => match f w.1 with Some (a, d) => Some (a, (d, w.2)) | None => None end).
Fixpoint take_rows (t : positive) (p : K -> V -> bool) (f : option (V -> V)) (ks : list K) : proc (list (K * V)) :=
  match ks with
  | [] => mret []
  | k :: ks =>
      r ← on_db (take_row t k p f);
      rest ← take_rows t p f ks;
      mret (match r with Some v => (k, v) :: rest | None => rest end)
  end.
(** [SELECT … FOR UPDATE] and [UPDATE … WHERE … RETURNING]. *)
Definition select_for_update (t : positive) (p : K -> V -> bool) : proc (list (K * V)) :=
  ks ← get (fun w : W => matching t p w.1); take_rows t p None ks.
Definition update_where (t : positive) (p : K -> V -> bool) (f : V -> V) : proc (list (K * V)) :=
  ks ← get (fun w : W => matching t p w.1); take_rows t p (Some f) ks.
(** A request in its transaction. *)
Definition request {A} (t : positive) (body : proc A) : proc A :=
  handle body (fun r => match r with
    | inr a => _ ← act (fun w : W => (inr tt, (commit_db t w.1, w.2))); mret a
    | inl e => _ ← act (fun w : W => (inr tt, (rollback_db t w.1, w.2))); raise e
    end).
End statements.
