(* ===== verification/Consent.v ===== *)
(** * The consent fraction of a group task

    [contexts/activities/domain/group_consent.py]: reading and validating the fraction a
    type declares, how many approvals it requires of a group, and when they are out of
    reach.  The division of [required_approvals] is Python's [/] on integers, a
    correctly rounded float; the file proves that the count is the exact one. *)

From Stdlib Require Import SpecFloat.
From S2P Require Import Prelude PyFloat PyValue.

Definition MAX_DENOMINATOR : Z := 100.

(** [math.ceil] of a float. *)
Definition py_ceil (x : float) : res Z :=
  match x with
  | S754_zero _ => Ok 0
  | S754_infinity _ => Raise OverflowError
  | S754_nan => Raise ValueError
  | S754_finite s m e =>
      let v := if s then Zneg m else Zpos m in
      Ok (if 0 <=? e then v * 2 ^ e else - (- v / 2 ^ (- e)))
  end.

Definition required_approvals (numerator denominator group_size : Z) : res Z :=
  if group_size <=? 0 then Raise ValueError else
  raw ← int_truediv (numerator * group_size) denominator ≫= py_ceil;
  Ok (Z.max 1 (Z.min group_size raw)).
Definition is_unreachable (approvals undecided required : Z) : bool := approvals + undecided <? required.

(** [_require_int] *)
Definition require_int (value : pyval) : res Z := match value with VInt n => Ok n | _ => Raise ValueError end.
Definition only_keys (allowed : list string) (d : pydict) : bool :=
  forallb (fun kv => existsb (String.eqb kv.1) allowed) d.
Definition validate_group_config (raw : pyval) : res (Z * Z) :=
  match raw with
  | VDict d =>
      match dict_get_none "consent" d with
      | VDict consent =>
          if negb (only_keys ["consent"%string] d) then Raise ValueError
          else if negb (only_keys ["numerator"; "denominator"]%string consent) then Raise ValueError
          else
            numerator ← require_int (dict_get_none "numerator" consent);
            denominator ← require_int (dict_get_none "denominator" consent);
            if numerator <? 1 then Raise ValueError
            else if denominator <? numerator then Raise ValueError
            else if MAX_DENOMINATOR <? denominator then Raise ValueError
            else Ok (numerator, denominator)
      | _ => Raise ValueError
      end
  | _ => Raise ValueError
  end.
(** [None] is a type that is individual-only. *)
Definition parse_group_config (raw : pyval) : res (option (Z * Z)) :=
  match raw with VNone => Ok None | _ => fraction ← validate_group_config raw; Ok (Some fraction) end.
Definition is_individual_only (raw : pyval) : bool :=
  match parse_group_config raw with Ok None => true | _ => false end.

(** ** Rounding loses nothing

    While [int_truediv] works, a pair of a mantissa record and an exponent [e <= 0] tells
    the quotient of [a] by [d] up to a unit of [2 ^ e], and whether it is exact. *)
Definition exact (r : shr_record) : Prop := shr_r r = false /\ shr_s r = false.
Definition tells (a d : Z) (r : shr_record) (e : Z) : Prop :=
  shr_m r = a * 2 ^ (- e) / d /\ (exact r <-> a * 2 ^ (- e) mod d = 0).

Lemma shr_1_spec r : 0 <= shr_m r -> shr_m (shr_1 r) = shr_m r / 2 /\ (exact (shr_1 r) <-> exact r /\ shr_m r mod 2 = 0).
Proof.
  destruct r as [m r s]. unfold exact. cbn [shr_m]. intros Hm. rewrite <-Z.div2_div, Zmod_odd.
  destruct m as [|p|p]; [destruct r, s; split; naive_solver| |lia].
  destruct p as [p|p|]; destruct r, s; split; naive_solver.
Qed.
Lemma tells_shr_1 a d r e : 0 <= a -> 0 < d -> e + 1 <= 0 -> tells a d r e -> tells a d (shr_1 r) (e + 1).
Proof.
  intros Ha Hd He [Hm Hx]. assert (Hp : 2 ^ (- e) = 2 * 2 ^ (- (e + 1))) by (rewrite <-Z.pow_succ_r by lia; f_equal; lia).
  set (q := a * 2 ^ (- (e + 1))). assert (Hq : a * 2 ^ (- e) = 2 * q) by (unfold q; rewrite Hp; ring).
  assert (Hq0 : 0 <= q) by (apply Z.mul_nonneg_nonneg; [done|apply Z.pow_nonneg; lia]).
  rewrite Hq in Hm, Hx. destruct (shr_1_spec r) as [Hm' Hx']; [rewrite Hm; apply Z.div_pos; lia|].
  split; rewrite ?Hm', ?Hx', ?Hx, ?Hm.
  - fold q. rewrite Z.div_div by lia. rewrite (Z.mul_comm d 2), Z.div_mul_cancel_l by lia. done.
  - fold q. pose proof (Z.div_mod (2 * q) d ltac:(lia)). pose proof (Z.div_mod (2 * q / d) 2 ltac:(lia)).
    pose proof (Z.div_mod q d ltac:(lia)). pose proof (Z.mod_pos_bound q d Hd). split.
    + intros [Ha0 Ha1]. apply Z.mod_divide; [lia|]. exists (2 * q / d / 2). nia.
    + intros Ha0. assert (Hqd : 2 * q = (2 * (q / d)) * d) by lia. rewrite Hqd, Z.div_mul, Z.mod_mul by lia.
      split; [done|]. by rewrite Z.mul_comm, Z.mod_mul.
Qed.
Lemma tells_iter a d p r e : 0 <= a -> 0 < d -> e + Zpos p <= 0 -> tells a d r e ->
  tells a d (SpecFloat.iter_pos shr_1 p r) (e + Zpos p).
Proof.
  intros Ha Hd. revert r e. induction p as [p IH|p IH|]; intros r e He Ht; cbn [SpecFloat.iter_pos].
  - replace (e + Zpos p~1) with (e + 1 + Zpos p + Zpos p) by lia. apply IH; [lia|]. apply IH; [lia|]. by apply tells_shr_1; [..|lia|].
  - replace (e + Zpos p~0) with (e + Zpos p + Zpos p) by lia. apply IH; [lia|]. by apply IH; [lia|].
  - by apply tells_shr_1.
Qed.
Lemma tells_shr a d r e n : 0 <= a -> 0 < d -> e <= 0 -> e + n <= 0 -> tells a d r e ->
  tells a d (shr r e n).1 (shr r e n).2 /\ (shr r e n).2 = e + Z.max 0 n.
Proof.
  intros Ha Hd He Hn Ht. destruct n as [|p|p]; simpl; [split; [done|lia]| |split; [done|lia]].
  split; [by apply tells_iter|lia].
Qed.

Lemma digits2_spec p : 2 ^ (Zpos (digits2_pos p) - 1) <= Zpos p < 2 ^ Zpos (digits2_pos p).
Proof.
  induction p as [p IH|p IH|]; cbn [digits2_pos]; [| |done].
  all: rewrite Pos2Z.inj_succ, Z.pow_succ_r by lia; replace (Z.succ (Zpos (digits2_pos p)) - 1) with (Z.succ (Zpos (digits2_pos p) - 1)) by lia;
    rewrite Z.pow_succ_r by lia; rewrite ?Pos2Z.inj_xI, ?(Pos2Z.inj_xO p); lia.
Qed.
Lemma digits2_bound n k : 0 < n < 2 ^ k -> 0 <= k -> 0 < Zdigits2 n <= k.
Proof.
  intros [H0 H1] Hk. destruct n as [|p|p]; try lia. cbn [Zdigits2]. pose proof (digits2_spec p) as [H2 _].
  split; [lia|]. assert (2 ^ (Zpos (digits2_pos p) - 1) < 2 ^ k) by lia. apply Z.pow_lt_mono_r_iff in H; lia.
Qed.
Lemma digits2_small n : 0 <= n -> 0 <= Zdigits2 n /\ n < 2 ^ Zdigits2 n.
Proof. intros Hn. destruct n as [|p|p]; [done| |lia]. pose proof (digits2_spec p). cbn [Zdigits2]. lia. Qed.

Lemma loc_exact m l : exact (shr_record_of_loc m l) <-> l = loc_Exact.
Proof. destruct l as [|[]]; unfold exact; simpl; naive_solver. Qed.
Lemma new_location_exact d r : 0 <= r < d -> new_location d r = loc_Exact <-> r = 0.
Proof.
  intros Hr. unfold new_location, new_location_even, new_location_odd.
  destruct (Z.even d); destruct (Z.eqb_spec r 0) as [->|Hn]; try done; (split; [|done]); destruct (_ ?= _); done.
Qed.

(** A mantissa within the two integers around the quotient has the quotient's ceiling. *)
Lemma between_ceil a d u m : 0 < a -> 0 < d <= u ->
  a * u / d <= m <= a * u / d + 1 -> (a * u mod d = 0 -> m = a * u / d) -> - (- m / u) = - (- a / d).
Proof.
  intros Ha Hd Hm Hx. set (c := - (- a / d)).
  pose proof (Z.div_mod (- a) d ltac:(lia)) as H1. pose proof (Z.mod_pos_bound (- a) d ltac:(lia)) as H2.
  pose proof (Z.div_mod (a * u) d ltac:(lia)) as H3. pose proof (Z.mod_pos_bound (a * u) d ltac:(lia)) as H4.
  assert (Hc : (c - 1) * d < a <= c * d) by (unfold c; lia).
  assert (Hlo : (c - 1) * u + 1 <= a * u / d) by (apply Z.div_le_lower_bound; nia).
  assert (Hhi : m <= c * u).
  { destruct (Z.eq_dec (a * u mod d) 0) as [H0|H0]; [rewrite (Hx H0); apply Z.div_le_upper_bound; nia|].
    cut (a * u / d < c * u); [lia|]. apply Z.div_lt_upper_bound; [lia|]. apply Z.le_neq. split; [nia|].
    intros Heq. apply H0. rewrite Heq, Z.mul_comm, <-Z.mul_assoc, Z.mul_comm. replace (u * d * c) with ((u * c) * d) by ring. by apply Z.mod_mul; lia. }
  enough (- c = - m / u) by lia. apply Z.div_unique with (r := - m + c * u); lia.
Qed.

Lemma round_between m l : m <= round_nearest_even m l <= m + 1 /\ (l = loc_Exact -> round_nearest_even m l = m).
Proof. destruct l as [|[]]; simpl; [split; [lia|done]|destruct (Z.even m)| |]; (split; [lia|done]). Qed.
Lemma record_of_loc r : shr_record_of_loc (shr_m r) (loc_of_shr_record r) = r.
Proof. by destruct r as [m [] []]. Qed.

Lemma fexp_digits n e : - 500 <= e <= 0 -> 0 <= n -> 0 <= Zdigits2 n ->
  fexp fprec femax (Zdigits2 n + e) - e = Zdigits2 n - 53.
Proof. intros He Hn Hd. unfold fexp, emin, fprec, femax. lia. Qed.

Lemma aux_ceil a d q e l : 0 < a -> 0 < d <= 100 -> - 500 <= e <= - 9 -> 0 < q < 2 ^ 54 ->
  tells a d (shr_record_of_loc q l) e ->
  exists x, binary_round_aux fprec femax false q e l = x /\ fis_inf x = false /\ py_ceil x = Ok (- (- a / d)).
Proof.
  intros Ha Hd He Hq Ht. eexists. split; [done|]. unfold binary_round_aux, shr_fexp.
  destruct (digits2_bound q 54 ltac:(lia) ltac:(lia)) as [Hq1 Hq2].
  rewrite fexp_digits by lia. set (n := Zdigits2 q - 53).
  destruct (tells_shr a d (shr_record_of_loc q l) e n) as [Ht' He']; [lia..|done|].
  assert (Hm53 : shr_m (shr (shr_record_of_loc q l) e n).1 < 2 ^ 53).
  { destruct Ht' as [-> _]. rewrite He'. destruct Ht as [Hm _]. assert (Hm0 : q = a * 2 ^ (- e) / d) by (by destruct l as [|[]]).
    destruct (Z.le_gt_cases n 0) as [Hn|Hn].
    - rewrite Z.max_l by lia. rewrite Z.add_0_r, <-Hm0. destruct (digits2_small q) as [_ Hlt]; [lia|].
      eapply Z.lt_le_trans; [exact Hlt|]. apply Z.pow_le_mono_r; lia.
    - replace (Z.max 0 n) with 1 by lia. assert (Hp : a * 2 ^ (- e) = a * 2 ^ (- (e + 1)) * 2) by (rewrite <-Z.mul_assoc, (Z.mul_comm _ 2), <-Z.pow_succ_r by lia; do 2 f_equal; lia).
      rewrite Hp in Hm0. set (y := a * 2 ^ (- (e + 1))) in *. apply Z.div_lt_upper_bound; [lia|].
      pose proof (Z.div_mod (y * 2) d ltac:(lia)). pose proof (Z.mod_pos_bound (y * 2) d ltac:(lia)).
      assert (d * q <= d * (2 ^ 54 - 1)) by (apply Z.mul_le_mono_nonneg_l; lia). rewrite <-Hm0 in *. lia. }
  destruct (shr (shr_record_of_loc q l) e n) as [r1 e1]. simpl in He', Hm53, Ht'. simpl fst in *. simpl snd in *.
  destruct Ht' as [Hm1 Hx1]. assert (He1 : - 500 <= e1 <= - 8) by lia.
  set (u := 2 ^ (- e1)). fold u in Hm1, Hx1.
  assert (Hu : 100 <= u) by (unfold u; transitivity (2 ^ 8); [done|apply Z.pow_le_mono_r; lia]).
  destruct (round_between (shr_m r1) (loc_of_shr_record r1)) as [Hb Hbx].
  set (m := round_nearest_even (shr_m r1) (loc_of_shr_record r1)) in *.
  assert (Hge : 1 <= shr_m r1) by (rewrite Hm1; apply Z.div_le_lower_bound; nia).
  assert (Hceil : - (- m / u) = - (- a / d)).
  { apply between_ceil; [done|lia|by rewrite <-Hm1|]. intros H0. rewrite <-Hm1. apply Hbx, (loc_exact (shr_m r1)).
    rewrite record_of_loc. by apply Hx1. }
  destruct (digits2_small m) as [Hd0 Hdm]; [lia|]. rewrite fexp_digits by lia.
  assert (Hcase : Zdigits2 m - 53 <= 0 \/ m = 2 ^ 53).
  { destruct (Z.eq_dec m (2 ^ 53)) as [->|Hne]; [by right|left]. destruct (digits2_bound m 53); lia. }
  destruct Hcase as [Hn|Hn].
  - assert (Hs : shr (shr_record_of_loc m loc_Exact) e1 (Zdigits2 m - 53) = (shr_record_of_loc m loc_Exact, e1)) by (destruct (Zdigits2 m - 53); try done; lia).
    rewrite Hs. cbn [shr_m shr_record_of_loc]. destruct m as [|p|p]; [lia| |lia].
    replace (e1 <=? femax - fprec) with true by (unfold femax, fprec; lia). split; [done|].
    unfold py_ceil. replace (0 <=? e1) with false by lia. fold u. by rewrite Hceil.
  - rewrite Hn in *. change (Zdigits2 (2 ^ 53) - 53) with 1. cbn [shr SpecFloat.iter_pos].
    change (shr_m (shr_1 (shr_record_of_loc (2 ^ 53) loc_Exact))) with (Zpos 4503599627370496). cbv iota beta.
    assert (Hgoal : - (- 2 ^ 52 / 2 ^ (- (e1 + 1))) = - (- a / d)).
    { rewrite <-Hceil. unfold u. replace (- e1) with (Z.succ (- (e1 + 1))) by lia. rewrite Z.pow_succ_r by lia.
      change (- 2 ^ 53) with (2 * - 2 ^ 52). rewrite Z.div_mul_cancel_l; [done|lia..]. }
    replace (e1 + 1 <=? femax - fprec) with true by (unfold femax, fprec; lia). cbn [py_ceil fis_inf]. split; [done|].
    replace (0 <=? e1 + 1) with false by lia. rewrite <-Hgoal. reflexivity.
Qed.

Lemma truediv_ceil a d : 0 < a < 2 ^ 40 -> 0 < d <= 100 -> int_truediv a d ≫= py_ceil = Ok (- (- a / d)).
Proof.
  intros Ha Hd. unfold int_truediv. replace (a <? 0) with false by lia. replace (d <? 0) with false by lia.
  replace (a =? 0) with false by lia. rewrite !Z.abs_eq by lia. unfold SFdiv_core_binary.
  destruct (digits2_bound a 40) as [Ha0 Ha1]; [lia..|]. destruct (digits2_bound d 7) as [Hd0 Hd1]; [lia..|].
  set (e := Z.min _ _). assert (He : e = Zdigits2 a - Zdigits2 d - 53) by (unfold e, fexp, emin, fprec, femax; lia).
  replace (0 - 0 - e) with (- e) by lia. assert (Hs : (match - e with 0 => a | Zpos _ => Z.shiftl a (- e) | Zneg _ => 0 end) = a * 2 ^ (- e)).
  { rewrite <-Z.shiftl_mul_pow2 by lia. destruct (- e) eqn:E; [lia|done|lia]. }
  rewrite Hs. pose proof (Z_div_mod (a * 2 ^ (- e)) d ltac:(lia)) as Hdm.
  destruct (Z.div_eucl (a * 2 ^ (- e)) d) as [q r] eqn:Eq. destruct Hdm as [Hqr Hr].
  assert (Hq : q = a * 2 ^ (- e) / d) by (apply Z.div_unique with r; lia).
  assert (Hrm : r = a * 2 ^ (- e) mod d) by (apply Z.mod_unique with q; lia).
  destruct (digits2_small a) as [_ Hsa]; [lia|]. destruct d as [|pd|pd]; try lia. set (d := Zpos pd) in *.
  assert (Hdl : 2 ^ (Zdigits2 d - 1) <= d) by apply digits2_spec.
  destruct (aux_ceil a d q e (new_location d r)) as (x & Hx & Hinf & Hc); [lia..| | |].
  - split; [rewrite Hq; assert (256 <= 2 ^ (- e)) by (transitivity (2 ^ 8); [done|apply Z.pow_le_mono_r; lia]); apply Z.div_str_pos; nia|].
    rewrite Hq. apply Z.div_lt_upper_bound; [lia|].
    apply Z.lt_le_trans with (2 ^ Zdigits2 a * 2 ^ (- e)); [apply Z.mul_lt_mono_pos_r; lia|].
    rewrite <-Z.pow_add_r by lia. replace (Zdigits2 a + - e) with (Zdigits2 d - 1 + 54) by lia. rewrite Z.pow_add_r by lia.
    apply Z.mul_le_mono_nonneg_r; lia.
  - split; [by destruct (new_location d r) as [|[]]|]. rewrite loc_exact, new_location_exact by lia. by rewrite Hrm.
  - change (xorb false false) with false. rewrite Hx, Hinf. exact Hc.
Qed.

(** ** What a fraction requires *)

(** The least number of approvals whose share of the group reaches the fraction, and at
    least one. *)
Definition reaches (numerator denominator group_size k : Z) : Prop :=
  1 <= k /\ numerator * group_size <= k * denominator.

(** C30. For every fraction the settings accept and every group, the number of approvals
    required is the least positive number that reaches the fraction of the group, exactly:
    the floating-point division of the code never moves it.  It never exceeds the size of
    the group; a fraction of one requires everybody; it grows with the group; and a
    proposal is declared out of reach exactly when no completion of the ballots still
    missing can carry it. *)
Theorem approvals_exact n d size (Hf : 1 <= n <= d) (Hd : d <= MAX_DENOMINATOR) (Hs : 1 <= size < 2 ^ 32) :
  exists k, required_approvals n d size = Ok k /\ reaches n d size k /\ (forall j, reaches n d size j -> k <= j) /\
    k <= size /\ (n = d -> k = size) /\
    (forall size', size <= size' < 2 ^ 32 -> exists k', required_approvals n d size' = Ok k' /\ k <= k') /\
    forall approvals undecided, 0 <= undecided ->
      is_unreachable approvals undecided k = true <-> forall more, 0 <= more <= undecided -> approvals + more < k.
Proof.
  unfold MAX_DENOMINATOR in Hd.
  assert (Hreq : forall s, 1 <= s < 2 ^ 32 -> required_approvals n d s = Ok (- (- (n * s) / d)) /\ 1 <= - (- (n * s) / d) <= s).
  { intros s Hs'. unfold required_approvals. replace (s <=? 0) with false by lia.
    rewrite truediv_ceil by nia. cbn. set (c := - (- (n * s) / d)).
    pose proof (Z.div_mod (- (n * s)) d ltac:(lia)) as H1. pose proof (Z.mod_pos_bound (- (n * s)) d ltac:(lia)) as H2.
    assert (Hc : (c - 1) * d < n * s <= c * d) by (unfold c; lia).
    assert (1 <= c <= s) by nia. split; [f_equal; lia|done]. }
  destruct (Hreq size Hs) as [-> Hk]. set (k := - (- (n * size) / d)) in *.
  pose proof (Z.div_mod (- (n * size)) d ltac:(lia)) as H1. pose proof (Z.mod_pos_bound (- (n * size)) d ltac:(lia)) as H2.
  assert (Hc : (k - 1) * d < n * size <= k * d) by (unfold k; lia). clearbody k.
  exists k. unfold reaches. split_and!; [done|lia|lia| |lia| | |].
  - intros j [Hj1 Hj2]. nia.
  - intros ->. nia.
  - intros s' Hs'. destruct (Hreq s') as [-> _]; [lia|]. eexists. split; [done|].
    pose proof (Z.div_mod (- (n * s')) d ltac:(lia)). pose proof (Z.mod_pos_bound (- (n * s')) d ltac:(lia)). nia.
  - intros approvals undecided Hu. unfold is_unreachable. rewrite Z.ltb_lt. split; [intros; lia|]. intros H. by apply H.
Qed.
Lemma approvals_exact_witness : required_approvals 2 3 4 = Ok 3 /\ exists k, required_approvals 2 3 4 = Ok k /\ reaches 2 3 4 k.
Proof.
  split; [vm_compute; reflexivity|]. destruct (approvals_exact 2 3 4 ltac:(lia) ltac:(unfold MAX_DENOMINATOR; lia) ltac:(lia)) as (k & H1 & H2 & _).
  by exists k.
Defined.

(** A fraction that is stored and read is one the settings accept; nothing else is read
    as a fraction, and only the absence of a configuration means individual. *)
Lemma parse_group_config_spec raw :
  match parse_group_config raw with
  | Ok None => raw = VNone
  | Ok (Some (n, d)) => 1 <= n <= d /\ d <= MAX_DENOMINATOR /\
      exists top consent, raw = VDict top /\ dict_get "consent" top = Some (VDict consent) /\
        dict_get "numerator" consent = Some (VInt n) /\ dict_get "denominator" consent = Some (VInt d)
  | Raise e => e = ValueError
  | NoFuel => False
  end.
Proof.
  destruct raw as [| | | | | |top]; try by cbn. unfold parse_group_config, validate_group_config, dict_get_none.
  destruct (dict_get "consent" top) as [v|] eqn:Ec; [|by cbn]. cbn. destruct v as [| | | | | |consent]; try by cbn.
  destruct (only_keys ["consent"%string] top); [|by cbn].
  destruct (only_keys ["numerator"; "denominator"]%string consent); [|by cbn]. cbn [negb].
  destruct (dict_get "numerator" consent) as [v|] eqn:En; [|by cbn]. cbn. destruct v as [| |n| | | |]; try by cbn.
  destruct (dict_get "denominator" consent) as [v|] eqn:Ed; [|by cbn]. cbn. destruct v as [| |d| | | |]; try by cbn.
  cbn. destruct (Z.ltb_spec n 1); [reflexivity|]. destruct (Z.ltb_spec d n); [reflexivity|].
  destruct (Z.ltb_spec MAX_DENOMINATOR d); [reflexivity|]. cbn. split_and!; [lia..|]. by exists top, consent.
Qed.
