(* ===== verification/ActivityRows.v ===== *)
(** * Rounds, sessions, submissions, group proposals: the tables

    The rows of [contexts/activities/infrastructure/tables.py] with the unique indexes of
    the migrations 0049, 0050, 0077 and 0081, the domain records of
    [contexts/activities/domain/models.py], the errors, and what the services read of
    other tables and contexts ([Around], which anybody may change at any moment).  The
    audit log and the messages of the room are rows too ([KLog]): they are written in the
    transaction.  Instants are microseconds.  Scores, latencies, digests and the texts of
    messages are not modelled. *)

From S2P Require Import Prelude PyFloat PyValue Interleave Transactions.

Abbreviation uuid := positive.

Inductive ActivationStatus := ACTIVE | ENDED.
Inductive SessionStatus := OPEN | CLOSED.
Inductive ValidationStatus := PENDING | VALIDATED | ERROR.
Inductive ProposalStatus := P_OPEN | P_ACCEPTED | P_REJECTED | P_WITHDRAWN | P_EXPIRED.
Inductive VoteChoice := APPROVE | REJECT.
Inductive ValidatorKind := IN_PROCESS | MCP | WEBHOOK.
#[export] Instance ActivationStatus_eq_dec : EqDecision ActivationStatus.
Proof. solve_decision. Defined.
#[export] Instance SessionStatus_eq_dec : EqDecision SessionStatus.
Proof. solve_decision. Defined.
#[export] Instance ValidationStatus_eq_dec : EqDecision ValidationStatus.
Proof. solve_decision. Defined.
#[export] Instance ProposalStatus_eq_dec : EqDecision ProposalStatus.
Proof. solve_decision. Defined.
#[export] Instance VoteChoice_eq_dec : EqDecision VoteChoice.
Proof. solve_decision. Defined.

(** [ActivityType]; [at_project] is [None] exactly for a platform type. *)
Record ActivityType := mkType {
  at_platform : bool;
  at_project : option uuid;
  at_schema : pyval;
  at_kind : ValidatorKind;
  at_retention_days : option Z;
  at_expose_payload : bool;
  at_echo_content : bool;
  at_group_config : pyval;
  at_time_limit : option Z;
}.
Record Activation := mkActivation {
  ac_room : uuid;
  ac_type : uuid;
  ac_started_by : uuid;
  ac_agent : option uuid;
  ac_status : ActivationStatus;
  ac_created_at : Z;
  ac_ended_at : option Z;
  ac_limit : option Z;
  ac_deadline_at : option Z;
}.
Record Session := mkSession {
  se_type : uuid;
  se_room : uuid;
  se_user : option uuid;
  se_group : option uuid;
  se_guest : bool;
  se_activation : uuid;
  se_status : SessionStatus;
  se_closed_at : option Z;
  se_completed_at : option Z;
}.
Record Submission := mkSubmission {
  su_session : uuid;
  su_type : uuid;
  su_room : uuid;
  su_producer : uuid;
  su_guest : bool;
  su_payload : pyval;
  su_attempt : Z;
  su_status : ValidationStatus;
  su_is_valid : option bool;
  su_error : option string;
  su_created_at : Z;
  su_retain_until : option Z;
  su_validated_at : option Z;
}.
Record GroupProposal := mkProposal {
  gp_room : uuid;
  gp_activation : uuid;
  gp_type : uuid;
  gp_group : uuid;
  gp_proposer : uuid;
  gp_payload : pyval;
  gp_voters : list uuid;
  gp_required : Z;
  gp_status : ProposalStatus;
  gp_created_at : Z;
  gp_expires_at : Z;
  gp_resolved_at : option Z;
  gp_submission : option uuid;
}.
(** [GroupProposal.may_vote], [ActivityType.is_visible_to] *)
Definition may_vote (p : GroupProposal) (user : uuid) : bool := existsb (Pos.eqb user) (gp_voters p).
Definition is_visible_to (t : ActivityType) (project : uuid) (opted_in : bool) : bool :=
  if at_platform t then opted_in else bool_decide (at_project t = Some project).

Inductive Event :=
  | E_activation_started (activation : uuid) (agent : option uuid)
  | E_activation_ended (activation : uuid) (agent : option uuid) (sessions_closed proposals_expired : Z)
  | E_notice (activation : uuid) (started : bool)
  | E_opted_out (type : uuid) (ended : Z)
  | E_proposal_created (proposal : uuid) (voters required : Z)
  | E_proposal_voted (proposal : uuid)
  | E_proposal_resolved (proposal : uuid) (status : ProposalStatus) (submission : option uuid)
  | E_submitted (submission : uuid) (attempt : Z) (status : ValidationStatus)
  | E_echo (submission : uuid) (attempt : Z) (group : option uuid)
  | E_session_completion (session : uuid) (completed : bool)
  | E_session_closed (session : uuid)
  | E_validated (submission : uuid) (status : ValidationStatus).

(** ** Keys and rows *)
Inductive Key :=
  | KAct (id : uuid)
  | KProp (id : uuid)
  | KVote (proposal user : uuid)
  | KSess (id : uuid)
  | KSub (id : uuid)
  | KLog (id : uuid).
#[export] Instance Key_eq_dec : EqDecision Key.
Proof. solve_decision. Defined.
#[export] Instance Key_countable : Countable Key.
Proof.
  apply (inj_countable'
    (fun k => match k with
      | KAct a => inl (inl a) | KProp x => inl (inr (inl x)) | KVote x u => inl (inr (inr (x, u)))
      | KSess s => inr (inl s) | KSub i => inr (inr (inl i)) | KLog i => inr (inr (inr i)) end)
    (fun c => match c with
      | inl (inl a) => KAct a | inl (inr (inl x)) => KProp x | inl (inr (inr (x, u))) => KVote x u
      | inr (inl s) => KSess s | inr (inr (inl i)) => KSub i | inr (inr (inr i)) => KLog i end)).
  by intros [].
Defined.
Inductive Row :=
  | RAct (a : Activation)
  | RProp (p : GroupProposal)
  | RVote (c : VoteChoice)
  | RSess (s : Session)
  | RSub (s : Submission)
  | RLog (e : Event).

Definition as_act (r : option Row) : option Activation := match r with Some (RAct a) => Some a | _ => None end.
Definition as_prop (r : option Row) : option GroupProposal := match r with Some (RProp p) => Some p | _ => None end.
Definition as_vote (r : option Row) : option VoteChoice := match r with Some (RVote c) => Some c | _ => None end.
Definition as_sess (r : option Row) : option Session := match r with Some (RSess s) => Some s | _ => None end.
Definition as_sub (r : option Row) : option Submission := match r with Some (RSub s) => Some s | _ => None end.

(** The partial and full unique indexes: [uq_activity_activations_active],
    [uq_activity_group_proposals_open], [uq_activity_sessions_activation_subject],
    [uq_activity_sessions_activation_group], [uq_activity_sessions_open].  SQL's NULLs
    never conflict. *)
Definition both_some (x y : option uuid) : bool := match x, y with Some a, Some b => Pos.eqb a b | _, _ => false end.
Definition is_active (a : Activation) : bool := bool_decide (ac_status a = ACTIVE).
Definition is_open (p : GroupProposal) : bool := bool_decide (gp_status p = P_OPEN).
Definition session_open (s : Session) : bool := bool_decide (se_status s = OPEN).
Definition conflict (r r' : Row) : bool :=
  match r, r' with
  | RAct a, RAct b => is_active a && is_active b && Pos.eqb (ac_room a) (ac_room b)
  | RProp p, RProp q => is_open p && is_open q && Pos.eqb (gp_activation p) (gp_activation q) && Pos.eqb (gp_group p) (gp_group q)
  | RSess s, RSess s' =>
      (Pos.eqb (se_activation s) (se_activation s') && (both_some (se_user s) (se_user s') || both_some (se_group s) (se_group s')))
      || (session_open s && session_open s' && Pos.eqb (se_type s) (se_type s') && Pos.eqb (se_room s) (se_room s')
          && both_some (se_user s) (se_user s'))
  | _, _ => false
  end.

(** ** What the services read elsewhere *)

(** [ActivityPolicy]; the permissive one when no row was ever saved. *)
Record ActivityPolicy := mkPolicy {
  po_expose_default : bool;
  po_expose_locked : bool;
  po_echo_default : bool;
  po_echo_locked : bool;
  po_retention_max : option Z;
}.
Definition PERMISSIVE_POLICY : ActivityPolicy := mkPolicy true false false false None.
Record Around := mkAround {
  ar_now : Z;
  ar_types : gmap uuid ActivityType;
  ar_optins : gset (uuid * uuid);
  ar_policy : option ActivityPolicy;
  ar_limits : gmap (uuid * uuid) (option Z);
  ar_live_groups : gset (uuid * uuid);
  ar_bound_groups : gset (uuid * uuid);
  ar_rooms : gmap uuid (bool * bool);
  ar_members : gset (uuid * uuid);
  ar_guests : gset uuid;
}.

Inductive ActivityError :=
  | ActivityTypeNotFound | ActivityTypeViolatesPolicy | ActivityTypeNotGroupSubmittable
  | ActivityNotActive | ActivityAlreadyActive | ActivityActivationNotFound
  | MemberGroupNotBoundToRoom | NotAGroupMember
  | SubmissionPayloadInvalid | SubmissionNotFound | SessionNotFound
  | GroupProposalNotFound | GroupProposalResolved | GroupProposalAlreadyOpen
  | ServerError.

Abbreviation Store := (DB Key Row).
Abbreviation World := (Store * Around)%type.
Abbreviation proc := (Interleave.proc ActivityError World).

Definition minutes (n : Z) : Z := n * 60000000.
Definition days (n : Z) : Z := n * 86400000000.
(** [PROPOSAL_TTL = timedelta(hours=4)] *)
Definition PROPOSAL_TTL : Z := minutes 240.
