(* ===== verification/Activities.v ===== *)
(** * Rounds, sessions, submissions, group proposals: the services

    [contexts/activities/application]: activation_service.py, session_service.py,
    submission_service.py, group_proposal_service.py and reachability.py, over the
    statements of [infrastructure/repositories] (activation_repo.py, session_repo.py,
    submission_repo.py, proposal_repo.py).  Each operation is the body of a request's
    transaction; every statement is a step, and the rows it selects are taken one by one.

    Parameters: the JSON schema library ([payload_errors]) and the validators registered
    with the process ([in_process]; [None] is an exception of one). *)

From Stdlib Require Import Mergesort.
From stdpp Require Import sorting.
From S2P Require Import Prelude PyFloat PyValue Interleave Transactions Consent ActivityRows.

(** ** Reading *)
Definition now : proc Z := get (fun w => ar_now w.2).
Definition get_act (t : positive) (a : uuid) : proc (option Activation) := get (fun w => as_act (seen t w.1 !! KAct a)).
Definition get_prop (t : positive) (p : uuid) : proc (option GroupProposal) := get (fun w => as_prop (seen t w.1 !! KProp p)).
Definition get_sess (t : positive) (s : uuid) : proc (option Session) := get (fun w => as_sess (seen t w.1 !! KSess s)).
Definition get_sub (t : positive) (s : uuid) : proc (option Submission) := get (fun w => as_sub (seen t w.1 !! KSub s)).
Definition acts_where (p : uuid -> Activation -> bool) (k : Key) (r : Row) : bool :=
  match k, r with KAct a, RAct x => p a x | _, _ => false end.
Definition props_where (p : uuid -> GroupProposal -> bool) (k : Key) (r : Row) : bool :=
  match k, r with KProp a, RProp x => p a x | _, _ => false end.
Definition sessions_where (p : uuid -> Session -> bool) (k : Key) (r : Row) : bool :=
  match k, r with KSess a, RSess x => p a x | _, _ => false end.
Definition subs_where (p : uuid -> Submission -> bool) (k : Key) (r : Row) : bool :=
  match k, r with KSub a, RSub x => p a x | _, _ => false end.
Definition of_act (f : Activation -> Activation) (r : Row) : Row := match r with RAct a => RAct (f a) | _ => r end.
Definition of_prop (f : GroupProposal -> GroupProposal) (r : Row) : Row := match r with RProp p => RProp (f p) | _ => r end.
Definition of_sess (f : Session -> Session) (r : Row) : Row := match r with RSess s => RSess (f s) | _ => r end.
Definition of_sub (f : Submission -> Submission) (r : Row) : Row := match r with RSub s => RSub (f s) | _ => r end.

Definition found_act (l : list (Key * Row)) : option (uuid * Activation) :=
  head (omap (fun kr => match kr with (KAct a, RAct x) => Some (a, x) | _ => None end) l).
Definition found_sess (l : list (Key * Row)) : option (uuid * Session) :=
  head (omap (fun kr => match kr with (KSess a, RSess x) => Some (a, x) | _ => None end) l).
Definition found_prop (l : list (Key * Row)) : option (uuid * GroupProposal) :=
  head (omap (fun kr => match kr with (KProp a, RProp x) => Some (a, x) | _ => None end) l).
Definition rows_where (t : positive) (p : Key -> Row -> bool) (w : World) : list (Key * Row) :=
  List.filter (fun kr => p kr.1 kr.2) (map_to_list (seen t w.1)).

(** [audit.emit] and the messages of the room. *)
Definition emit (t : positive) (e : Event) : proc unit :=
  _ ← on_db (insert_row conflict t KLog (RLog e)); mret tt.

(** ** [ActivationRepository] *)
Definition active_in (room : uuid) : Key -> Row -> bool :=
  acts_where (fun _ a => Pos.eqb (ac_room a) room && is_active a).
Definition get_active (t : positive) (room : uuid) : proc (option (uuid * Activation)) :=
  get (fun w => found_act (rows_where t (active_in room) w)).
Definition get_active_for_update (t : positive) (room : uuid) : proc (option (uuid * Activation)) :=
  l ← select_for_update t (active_in room); mret (found_act l).
Definition create_active (t : positive) (room type by_user : uuid) (agent : option uuid) (limit : option Z) : proc (option uuid) :=
  at_ ← now;
  on_db (insert_row conflict t KAct
    (RAct (mkActivation room type by_user agent ACTIVE at_ None limit ((fun m => at_ + minutes m) <$> limit)))).
Definition ended (at_ : Z) (a : Activation) : Activation :=
  mkActivation (ac_room a) (ac_type a) (ac_started_by a) (ac_agent a) ENDED (ac_created_at a) (Some at_) (ac_limit a) (ac_deadline_at a).
Definition end_activation (t : positive) (id : uuid) : proc bool :=
  at_ ← now;
  l ← update_where t (acts_where (fun a x => Pos.eqb a id && is_active x)) (of_act (ended at_));
  mret (negb (bool_decide (l = []))).

(** ** [ActivitySessionRepository] *)
Definition get_for_activation (t : positive) (activation subject : uuid) : proc (option (uuid * Session)) :=
  get (fun w => found_sess (rows_where t
    (sessions_where (fun _ s => Pos.eqb (se_activation s) activation && bool_decide (se_user s = Some subject))) w)).
Definition get_for_activation_group (t : positive) (activation group : uuid) : proc (option (uuid * Session)) :=
  get (fun w => found_sess (rows_where t
    (sessions_where (fun _ s => Pos.eqb (se_activation s) activation && bool_decide (se_group s = Some group))) w)).
Definition create_open (t : positive) (type room subject activation : uuid) (guest : bool) : proc (option uuid) :=
  on_db (insert_row conflict t KSess (RSess (mkSession type room (Some subject) None guest activation OPEN None None))).
Definition create_open_for_group (t : positive) (type room group activation : uuid) : proc (option uuid) :=
  on_db (insert_row conflict t KSess (RSess (mkSession type room None (Some group) false activation OPEN None None))).
Definition absent {A} (o : option A) : bool := match o with None => true | Some _ => false end.
Definition completing (c : option Z) (s : Session) : Session :=
  mkSession (se_type s) (se_room s) (se_user s) (se_group s) (se_guest s) (se_activation s) (se_status s) (se_closed_at s) c.
Definition closing (at_ : Z) (s : Session) : Session :=
  mkSession (se_type s) (se_room s) (se_user s) (se_group s) (se_guest s) (se_activation s) CLOSED (Some at_) (se_completed_at s).
Definition set_completed (t : positive) (id : uuid) (completed : bool) : proc bool :=
  at_ ← now;
  l ← update_where t (sessions_where (fun a s => Pos.eqb a id && (if completed then absent (se_completed_at s) else negb (absent (se_completed_at s)))))
        (of_sess (completing (if completed then Some at_ else None)));
  mret (negb (bool_decide (l = []))).
Definition close_sessions (t : positive) (p : uuid -> Session -> bool) : proc Z :=
  at_ ← now;
  l ← update_where t (sessions_where (fun a s => p a s && session_open s)) (of_sess (closing at_));
  mret (Z.of_nat (length l)).
Definition close_open_for_activation (t : positive) (activation : uuid) : proc Z :=
  close_sessions t (fun _ s => Pos.eqb (se_activation s) activation).
Definition close_open_for_type (t : positive) (type : uuid) : proc Z :=
  close_sessions t (fun _ s => Pos.eqb (se_type s) type).
Definition close_open_for_type_in_rooms (t : positive) (type : uuid) (rooms : list uuid) : proc Z :=
  if bool_decide (rooms = []) then mret 0
  else close_sessions t (fun _ s => Pos.eqb (se_type s) type && existsb (Pos.eqb (se_room s)) rooms).
Definition close (t : positive) (id : uuid) : proc bool :=
  n ← close_sessions t (fun a _ => Pos.eqb a id); mret (0 <? n).
Definition lock_session (t : positive) (id : uuid) : proc (option (uuid * Session)) :=
  l ← select_for_update t (sessions_where (fun a _ => Pos.eqb a id)); mret (found_sess l).
(** [count_for_activation]: completed, in progress. *)
Definition count_sessions (t : positive) (activation : uuid) : proc (Z * Z) :=
  get (fun w => let n b := Z.of_nat (length (rows_where t (sessions_where (fun _ s =>
                  Pos.eqb (se_activation s) activation && Bool.eqb (absent (se_completed_at s)) b)) w)) in (n false, n true)).

(** ** [ActivitySubmissionRepository] *)
Definition attempts (session : uuid) (m : gmap Key Row) : list Z :=
  omap (fun kr => match kr with (KSub _, RSub s) => if Pos.eqb (su_session s) session then Some (su_attempt s) else None | _ => None end)
    (map_to_list m).
Definition next_attempt_no (t : positive) (session : uuid) : proc Z :=
  get (fun w => foldr Z.max 0 (attempts session (seen t w.1)) + 1).
Definition count_recent_same_error (t : positive) (session : uuid) (error : string) (since : Z) : proc Z :=
  get (fun w => Z.of_nat (length (rows_where t (subs_where (fun _ s =>
    Pos.eqb (su_session s) session && bool_decide (su_error s = Some error) && (since <=? su_created_at s))) w))).
Definition verdict (status : ValidationStatus) (valid : option bool) (error : option string) (at_ : Z) (s : Submission) : Submission :=
  mkSubmission (su_session s) (su_type s) (su_room s) (su_producer s) (su_guest s) (su_payload s) (su_attempt s)
    status (match status with VALIDATED => valid | _ => su_is_valid s end) error (su_created_at s) (su_retain_until s) (Some at_).
Definition pending (s : Submission) : bool := bool_decide (su_status s = PENDING).
Definition record_verdict (t : positive) (id : uuid) (status : ValidationStatus) (valid : option bool) (error : option string) : proc bool :=
  at_ ← now;
  l ← update_where t (subs_where (fun a s => Pos.eqb a id && pending s)) (of_sub (verdict status valid error at_));
  mret (negb (bool_decide (l = []))).
Definition SWEEP_LIMIT : nat := 500.
Definition sweep_rows (t : positive) (cutoff at_ : Z) : proc (list (Key * Row)) :=
  ks ← get (fun w : World => firstn SWEEP_LIMIT (matching t (subs_where (fun _ s => pending s && (su_created_at s <? cutoff))) w.1));
  take_rows t (subs_where (fun _ s => pending s)) (Some (of_sub (verdict ERROR None (Some "validation_timeout"%string) at_))) ks.

(** ** [GroupProposalRepository], [GroupProposalVoteRepository] *)
Definition create_proposal (t : positive) (p : GroupProposal) : proc uuid :=
  id ← on_db (insert_row conflict t KProp (RProp p));
  match id with Some i => mret i | None => raise GroupProposalAlreadyOpen end.
Definition lock_proposal (t : positive) (id : uuid) : proc (option GroupProposal) :=
  l ← select_for_update t (props_where (fun a _ => Pos.eqb a id)); mret (snd <$> found_prop l).
Definition resolved (status : ProposalStatus) (at_ : Z) (p : GroupProposal) : GroupProposal :=
  mkProposal (gp_room p) (gp_activation p) (gp_type p) (gp_group p) (gp_proposer p) (gp_payload p) (gp_voters p) (gp_required p)
    status (gp_created_at p) (gp_expires_at p) (Some at_) None.
Definition with_submission (s : uuid) (p : GroupProposal) : GroupProposal :=
  mkProposal (gp_room p) (gp_activation p) (gp_type p) (gp_group p) (gp_proposer p) (gp_payload p) (gp_voters p) (gp_required p)
    (gp_status p) (gp_created_at p) (gp_expires_at p) (gp_resolved_at p) (Some s).
Definition resolve (t : positive) (id : uuid) (status : ProposalStatus) : proc bool :=
  at_ ← now;
  l ← update_where t (props_where (fun a p => Pos.eqb a id && is_open p)) (of_prop (resolved status at_));
  mret (negb (bool_decide (l = []))).
Definition attach_submission (t : positive) (id submission : uuid) : proc bool :=
  l ← update_where t (props_where (fun a p => Pos.eqb a id && bool_decide (gp_status p = P_ACCEPTED) && absent (gp_submission p)))
        (of_prop (with_submission submission));
  mret (negb (bool_decide (l = []))).
Definition expiring (at_ : Z) (p : GroupProposal) : GroupProposal :=
  mkProposal (gp_room p) (gp_activation p) (gp_type p) (gp_group p) (gp_proposer p) (gp_payload p) (gp_voters p) (gp_required p)
    P_EXPIRED (gp_created_at p) (gp_expires_at p) (Some at_) (gp_submission p).
Definition expire_open_for_activation (t : positive) (activation : uuid) : proc (list (Key * Row)) :=
  at_ ← now;
  update_where t (props_where (fun _ p => Pos.eqb (gp_activation p) activation && is_open p)) (of_prop (expiring at_)).
Definition sooner (m : gmap Key Row) (k k' : Key) : Prop :=
  default 0 (gp_expires_at <$> as_prop (m !! k)) <= default 0 (gp_expires_at <$> as_prop (m !! k')).
#[export] Instance sooner_dec m : RelDecision (sooner m).
Proof. intros k k'. unfold sooner. apply _. Defined.
Definition expire_due (t : positive) (cutoff : Z) (limit : nat) : proc (list (Key * Row)) :=
  ks ← get (fun w : World => firstn limit (merge_sort (sooner (seen t w.1))
              (matching t (props_where (fun _ p => is_open p && (gp_expires_at p <=? cutoff))) w.1)));
  at_ ← now;
  take_rows t (props_where (fun _ p => is_open p)) (Some (of_prop (expiring at_))) ks.
Definition cast (t : positive) (proposal user : uuid) (choice : VoteChoice) : proc unit :=
  on_db (upsert_row t (KVote proposal user) (RVote choice)).
Definition ballots (proposal : uuid) (m : gmap Key Row) : list (uuid * VoteChoice) :=
  omap (fun kr => match kr with (KVote p u, RVote c) => if Pos.eqb p proposal then Some (u, c) else None | _ => None end) (map_to_list m).
Definition count_choice (c : VoteChoice) (l : list (uuid * VoteChoice)) : Z :=
  Z.of_nat (length (List.filter (fun b => bool_decide (b.2 = c)) l)).
Definition tally_of (proposal : uuid) (m : gmap Key Row) : Z * Z :=
  let l := ballots proposal m in (count_choice APPROVE l, count_choice REJECT l).
Definition counts (t : positive) (proposal : uuid) : proc (Z * Z) := get (fun w => tally_of proposal (seen t w.1)).
Definition list_for_proposal (t : positive) (proposal : uuid) : proc (list (uuid * VoteChoice)) :=
  get (fun w => ballots proposal (seen t w.1)).

(** ** [resolve_reachable_type], [assert_type_allowed] *)
Definition get_type (id : uuid) : proc (option ActivityType) := get (fun w => ar_types w.2 !! id).
Definition resolve_reachable_type (type project : uuid) : proc ActivityType :=
  found ← get_type type;
  match found with
  | None => raise ActivityTypeNotFound
  | Some ty =>
      opted_in ← (if at_platform ty then get (fun w : World => bool_decide ((project, type) ∈ ar_optins w.2)) else mret false);
      if is_visible_to ty project opted_in then mret ty else raise ActivityTypeNotFound
  end.
Definition policy_allows (po : ActivityPolicy) (ty : ActivityType) : bool :=
  negb (po_expose_locked po && negb (Bool.eqb (at_expose_payload ty) (po_expose_default po)))
  && negb (po_echo_locked po && negb (Bool.eqb (at_echo_content ty) (po_echo_default po)))
  && match po_retention_max po, at_retention_days ty with Some m, Some d => d <=? m | _, _ => true end.
Definition assert_type_allowed (ty : ActivityType) : proc unit :=
  po ← get (fun w => default PERMISSIVE_POLICY (ar_policy w.2));
  if policy_allows po ty then mret tt else raise ActivityTypeViolatesPolicy.
Definition resolve_time_limit (room type : uuid) (ty : ActivityType) : proc (option Z) :=
  get (fun w => match ar_limits w.2 !! (room, type) with Some limit => limit | None => at_time_limit ty end).

(** ** [ActivationService] *)
Record StartResult := mkStarted { sr_activation : uuid; sr_row : Activation; sr_notice : bool }.
Definition start (t : positive) (project room type by_user : uuid) (agent : option uuid) : proc StartResult :=
  ty ← resolve_reachable_type type project;
  _ ← assert_type_allowed ty;
  limit ← resolve_time_limit room type ty;
  id ← create_active t room type by_user agent limit;
  match id with
  | None =>
      active ← get_active t room;
      match active with
      | None => raise ActivityActivationNotFound
      | Some (a, x) => if Pos.eqb (ac_type x) type then mret (mkStarted a x false) else raise ActivityAlreadyActive
      end
  | Some a =>
      activation ← get_act t a;
      match activation with
      | None => raise ActivityActivationNotFound
      | Some x =>
          _ ← emit t (E_activation_started a agent);
          _ ← emit t (E_notice a true);
          mret (mkStarted a x true)
      end
  end.
(** [end]; the result is [transitioned]. *)
Definition end_round (t : positive) (room activation : uuid) (agent : option uuid) : proc bool :=
  found ← get_act t activation;
  match found with
  | None => raise ActivityActivationNotFound
  | Some x =>
      if negb (Pos.eqb (ac_room x) room) then raise ActivityActivationNotFound
      else
        moved ← end_activation t activation;
        if (moved : bool) then
          closed ← close_open_for_activation t activation;
          expired ← expire_open_for_activation t activation;
          _ ← emit t (E_activation_ended activation agent closed (Z.of_nat (length expired)));
          _ ← emit t (E_notice activation false);
          mret true
        else mret false
  end.
(** [ActivitiesFacade._cascade_delete] up to the tombstone, which is not of these tables:
    [list_active_for_type], [end] for each, [close_open_for_type]. *)
Fixpoint end_each (t : positive) (l : list (uuid * uuid)) : proc Z :=
  match l with
  | [] => mret 0
  | (a, room) :: l => moved ← end_round t room a None; n ← end_each t l; mret ((if moved : bool then 1 else 0) + n)
  end.
Definition end_for_type (t : positive) (type : uuid) : proc Z :=
  l ← get (fun w : World => omap (fun kr => match kr with (KAct a, RAct x) => Some (a, ac_room x) | _ => None end)
              (rows_where t (acts_where (fun _ a => Pos.eqb (ac_type a) type && is_active a)) w));
  n ← end_each t l;
  _ ← close_open_for_type t type;
  mret n.

(** [ActivityExampleService.opt_out] from the point where the opt-in, which is not of these
    tables, is removed; [rooms] are the project's. *)
Definition opt_out_cascade (t : positive) (type : uuid) (rooms : list uuid) : proc Z :=
  l ← get (fun w : World => omap (fun kr => match kr with
              | (KAct a, RAct x) => if existsb (Pos.eqb (ac_room x)) rooms then Some (a, ac_room x) else None | _ => None end)
              (rows_where t (acts_where (fun _ a => Pos.eqb (ac_type a) type && is_active a)) w));
  n ← end_each t l;
  _ ← close_open_for_type_in_rooms t type rooms;
  _ ← emit t (E_opted_out type n);
  mret n.

(** ** [ActivitySessionService] *)
Definition ensure_subject_is_caller (subject : uuid) (caller : option uuid) : proc unit :=
  match caller with Some c => if Pos.eqb subject c then mret tt else raise SessionNotFound | None => mret tt end.
Definition is_guest_subject (subject : uuid) : proc bool := get (fun w => bool_decide (subject ∈ ar_guests w.2)).
(** What remains of [_resolve_for_activation], [_resolve_session] and
    [_resolve_group_session] after the insert. *)
Definition after_insert (t : positive) (id : option uuid) (winner : proc (option (uuid * Session))) : proc (uuid * Session) :=
  let reselect := found ← winner; match found with Some s => mret s | None => raise SessionNotFound end in
  match id with
  | Some i => opened ← get_sess t i; match opened with Some s => mret (i, s) | None => reselect end
  | None => reselect
  end.
Definition resolve_for_activation (t : positive) (a : uuid) (x : Activation) (subject : uuid) : proc (uuid * Session) :=
  existing ← get_for_activation t a subject;
  match existing with
  | Some s => mret s
  | None =>
      guest ← is_guest_subject subject;
      id ← create_open t (ac_type x) (ac_room x) subject a guest;
      after_insert t id (get_for_activation t a subject)
  end.
Definition open_session (t : positive) (project type room subject : uuid) (caller : option uuid) : proc (uuid * Session) :=
  _ ← resolve_reachable_type type project;
  active ← get_active t room;
  match active with
  | None => raise ActivityNotActive
  | Some (a, x) =>
      if negb (Pos.eqb (ac_type x) type) then raise ActivityNotActive
      else _ ← ensure_subject_is_caller subject caller; resolve_for_activation t a x subject
  end.
Definition resolve_activation (t : positive) (project room activation : uuid) : proc Activation :=
  found ← get_act t activation;
  match found with
  | None => raise ActivityActivationNotFound
  | Some x =>
      if negb (Pos.eqb (ac_room x) room) then raise ActivityActivationNotFound
      else _ ← resolve_reachable_type (ac_type x) project; mret x
  end.
Definition set_completion (t : positive) (project room activation subject : uuid) (caller : option uuid) (completed : bool)
    : proc (uuid * Session * bool) :=
  x ← resolve_activation t project room activation;
  if negb (is_active x) then raise ActivityNotActive
  else
    _ ← ensure_subject_is_caller subject caller;
    s ← resolve_for_activation t activation x subject;
    transitioned ← set_completed t s.1 completed;
    if (transitioned : bool) then
      _ ← emit t (E_session_completion s.1 completed);
      refreshed ← get_sess t s.1;
      mret (match refreshed with Some r => (s.1, r, true) | None => (s, true) end)
    else mret (s, false).
Definition get_for_round (t : positive) (project room activation subject : uuid) (caller : option uuid) : proc (option (uuid * Session)) :=
  x ← resolve_activation t project room activation;
  _ ← ensure_subject_is_caller subject caller;
  get_for_activation t activation subject.
Definition close_session (t : positive) (session room : uuid) (subject : option uuid) : proc unit :=
  found ← get_sess t session;
  match found with
  | None => raise SessionNotFound
  | Some s =>
      if negb (Pos.eqb (se_room s) room) || negb (absent subject || bool_decide (se_user s = subject)) then raise SessionNotFound
      else
        closed ← close t session;
        if (closed : bool) then emit t (E_session_closed session) else mret tt
  end.
Definition count_for_activation (t : positive) (room activation : uuid) : proc (Z * Z) :=
  found ← get_act t activation;
  match found with
  | Some x => if Pos.eqb (ac_room x) room then count_sessions t activation else raise ActivityActivationNotFound
  | None => raise ActivityActivationNotFound
  end.

(** ** [SubmissionService] *)
Record Verdict := mkVerdict { v_is_valid : bool; v_error : option string }.
Section services.
Context (payload_errors : pyval -> pyval -> list string) (in_process : ActivityType -> pyval -> option Verdict).

Definition scored (ty : ActivityType) (payload : pyval) : ValidationStatus * option bool * option string :=
  match at_kind ty with
  | IN_PROCESS =>
      match in_process ty payload with
      | Some v => (VALIDATED, Some (v_is_valid v), v_error v)
      | None => (ERROR, None, Some "validator_error"%string)
      end
  | _ => (PENDING, None, None)
  end.
Definition ROLLING_WINDOW : Z := 60000000.
Definition same_error_count (t : positive) (s : Submission) : proc Z :=
  match su_error s with
  | None => mret 0
  | Some e => at_ ← now; count_recent_same_error t (su_session s) e (at_ - ROLLING_WINDOW)
  end.
(** The columns of a new submission. *)
Definition submission_row (ty : ActivityType) (type room session producer : uuid) (guest : bool) (payload : pyval) (attempt created : Z) : Submission :=
  let '(status, valid, error) := scored ty payload in
  mkSubmission session type room producer guest payload attempt status valid error created
    (match at_retention_days ty with Some 0 | None => None | Some n => Some (created + days n) end)
    (if bool_decide (status = PENDING) then None else Some created).
(** [_record]; the result is the submission and the rolling count of its signal. *)
Definition record (t : positive) (ty : ActivityType) (type : uuid) (session : uuid * Session) (room producer : uuid)
    (payload : pyval) (group : option uuid) (guest : bool) : proc (uuid * Submission * Z) :=
  _ ← (if absent (se_completed_at session.2) then mret false else set_completed t session.1 false);
  locked ← lock_session t session.1;
  match locked with
  | None => raise SessionNotFound
  | Some _ =>
      attempt ← next_attempt_no t session.1;
      created ← now;
      id ← on_db (insert_row conflict t KSub (RSub (submission_row ty type room session.1 producer guest payload attempt created)));
      match id with
      | None => raise ServerError
      | Some i =>
          _ ← emit t (E_echo i attempt group);
          _ ← emit t (E_submitted i attempt (scored ty payload).1.1);
          found ← get_sub t i;
          match found with
          | None => raise SubmissionNotFound
          | Some s => n ← same_error_count t s; mret (i, s, n)
          end
      end
  end.
(** [_resolve_session] with the client's session id. *)
Definition resolve_session (t : positive) (a : uuid) (x : Activation) (subject : uuid) (session : option uuid) : proc (uuid * Session) :=
  match session with
  | Some id =>
      found ← get_sess t id;
      match found with
      | None => raise SessionNotFound
      | Some s =>
          if Pos.eqb (se_activation s) a && Pos.eqb (se_type s) (ac_type x) && Pos.eqb (se_room s) (ac_room x)
             && bool_decide (se_user s = Some subject) && session_open s
          then mret (id, s) else raise SessionNotFound
      end
  | None => resolve_for_activation t a x subject
  end.
Definition submit (t : positive) (project type room producer subject : uuid) (caller : option uuid) (payload : pyval)
    (session : option uuid) (guest : bool) : proc (uuid * Submission * Z) :=
  ty ← resolve_reachable_type type project;
  _ ← ensure_subject_is_caller subject caller;
  active ← get_active_for_update t room;
  match active with
  | None => raise ActivityNotActive
  | Some (a, x) =>
      if negb (Pos.eqb (ac_type x) type) then raise ActivityNotActive
      else if negb (bool_decide (payload_errors (at_schema ty) payload = [])) then raise SubmissionPayloadInvalid
      else
        s ← resolve_session t a x subject session;
        record t ty type s room producer payload None guest
  end.
Definition resolve_group_session (t : positive) (a : uuid) (x : Activation) (group : uuid) : proc (uuid * Session) :=
  existing ← get_for_activation_group t a group;
  match existing with
  | Some s => mret s
  | None =>
      id ← create_open_for_group t (ac_type x) (ac_room x) group a;
      after_insert t id (get_for_activation_group t a group)
  end.
Definition submit_for_group (t : positive) (ty : ActivityType) (type a : uuid) (x : Activation) (group proposer : uuid) (payload : pyval)
    : proc (uuid * Submission * Z) :=
  if negb (bool_decide (payload_errors (at_schema ty) payload = [])) then raise SubmissionPayloadInvalid
  else
    s ← resolve_group_session t a x group;
    recorded ← record t ty type s (ac_room x) proposer payload (Some group) false;
    _ ← set_completed t s.1 true;
    mret recorded.
(** [record_validation], [record_validation_error], [sweep_stalled]. *)
Definition record_validation (t : positive) (id : uuid) (v : Verdict) : proc bool :=
  changed ← record_verdict t id VALIDATED (Some (v_is_valid v)) (v_error v);
  _ ← (if (changed : bool) then emit t (E_validated id VALIDATED) else mret tt);
  mret changed.
Definition record_validation_error (t : positive) (id : uuid) (error : string) : proc bool :=
  changed ← record_verdict t id ERROR None (Some error);
  _ ← (if (changed : bool) then emit t (E_validated id ERROR) else mret tt);
  mret changed.
Definition sweep_stalled (t : positive) (ttl_seconds : Z) : proc (list (Key * Row)) :=
  at_ ← now; sweep_rows t (at_ - 1000000 * ttl_seconds) at_.

(** ** [GroupProposalService] *)
Record Tally := mkTally { ta_proposal : GroupProposal; ta_approvals : Z; ta_rejections : Z; ta_undecided : Z; ta_votes : list (uuid * VoteChoice) }.
Record Resolution := mkResolution { re_tally : Tally; re_transitioned : bool; re_submission : option (uuid * Submission * Z) }.

(** [_group_fraction] *)
Definition group_fraction (ty : ActivityType) : proc (Z * Z) :=
  match parse_group_config (at_group_config ty) with
  | Ok (Some fraction) => mret fraction
  | _ => raise ActivityTypeNotGroupSubmittable
  end.
Definition undecided_of (p : GroupProposal) (approvals rejections : Z) : Z :=
  Z.max 0 (Z.of_nat (length (gp_voters p)) - approvals - rejections).
(** [_tally]; [given] is a row the caller has just read. *)
Definition tally (t : positive) (proposal viewer : uuid) (creator : bool) (given : option GroupProposal) : proc Tally :=
  current ← (match given with Some p => mret (Some p) | None => get_prop t proposal end);
  match current with
  | None => raise GroupProposalNotFound
  | Some p =>
      n ← counts t proposal;
      votes ← (if creator || may_vote p viewer then list_for_proposal t proposal else mret []);
      mret (mkTally p n.1 n.2 (undecided_of p n.1 n.2) votes)
  end.
(** [_locked] *)
Definition locked (t : positive) (room proposal caller : uuid) : proc GroupProposal :=
  found ← lock_proposal t proposal;
  match found with
  | None => raise GroupProposalNotFound
  | Some p => if Pos.eqb (gp_room p) room && may_vote p caller then mret p else raise GroupProposalNotFound
  end.
Definition accept (t : positive) (project proposal : uuid) (p : GroupProposal) (actor : uuid) : proc Resolution :=
  active ← get_active_for_update t (gp_room p);
  match active with
  | None => raise ActivityNotActive
  | Some (a, x) =>
      if negb (Pos.eqb a (gp_activation p) && is_active x) then raise ActivityNotActive
      else
        moved ← resolve t proposal P_ACCEPTED;
        if (moved : bool) then
          ty ← resolve_reachable_type (gp_type p) project;
          recorded ← submit_for_group t ty (gp_type p) a x (gp_group p) (gp_proposer p) (gp_payload p);
          _ ← attach_submission t proposal recorded.1.1;
          _ ← emit t (E_proposal_resolved proposal P_ACCEPTED (Some recorded.1.1));
          ta ← tally t proposal actor false None;
          mret (mkResolution ta true (Some recorded))
        else ta ← tally t proposal actor false None; mret (mkResolution ta false None)
  end.
Definition settle (t : positive) (project proposal : uuid) (p : GroupProposal) (actor : uuid) : proc Resolution :=
  n ← counts t proposal;
  if gp_required p <=? n.1 then accept t project proposal p actor
  else if is_unreachable n.1 (undecided_of p n.1 n.2) (gp_required p) then
    transitioned ← resolve t proposal P_REJECTED;
    _ ← (if (transitioned : bool) then emit t (E_proposal_resolved proposal P_REJECTED None) else mret tt);
    ta ← tally t proposal actor false None;
    mret (mkResolution ta transitioned None)
  else ta ← tally t proposal actor false None; mret (mkResolution ta false None).
(** [_pin_voters]; [sorted(set(...))]. *)
Definition group_members (group : uuid) (s : gset (uuid * uuid)) : list uuid :=
  omap (fun gu : uuid * uuid => if Pos.eqb gu.1 group then Some gu.2 else None) (elements s).
Definition sorted_set (l : list uuid) : list uuid := merge_sort Pos.le (remove_dups l).
Definition pin_voters (t : positive) (project room group proposer : uuid) : proc (list uuid) :=
  live ← get (fun w : World => bool_decide ((project, group) ∈ ar_live_groups w.2));
  bound ← get (fun w : World => bool_decide ((room, group) ∈ ar_bound_groups w.2));
  if negb (live && bound) then raise MemberGroupNotBoundToRoom
  else
    flags ← get (fun w : World => ar_rooms w.2 !! room);
    match flags with
    | Some (allow_member_groups, owners_only) =>
        if negb allow_member_groups || owners_only then raise MemberGroupNotBoundToRoom
        else
          member ← get (fun w : World => bool_decide ((group, proposer) ∈ ar_members w.2));
          if negb member then raise NotAGroupMember
          else
            members ← get (fun w : World => group_members group (ar_members w.2));
            mret (sorted_set (proposer :: members))
    | None => raise MemberGroupNotBoundToRoom
    end.
Definition create (t : positive) (project room group type proposer : uuid) (payload : pyval) : proc Resolution :=
  ty ← resolve_reachable_type type project;
  fraction ← group_fraction ty;
  active ← get_active_for_update t room;
  match active with
  | None => raise ActivityNotActive
  | Some (a, x) =>
      if negb (Pos.eqb (ac_type x) type) then raise ActivityNotActive
      else
        voters ← pin_voters t project room group proposer;
        if negb (bool_decide (payload_errors (at_schema ty) payload = [])) then raise SubmissionPayloadInvalid
        else
          match required_approvals fraction.1 fraction.2 (Z.of_nat (length voters)) with
          | Ok required =>
              at_ ← now;
              id ← create_proposal t (mkProposal room a type group proposer payload voters required P_OPEN at_ (at_ + PROPOSAL_TTL) None None);
              _ ← cast t id proposer APPROVE;
              _ ← emit t (E_proposal_created id (Z.of_nat (length voters)) required);
              created ← get_prop t id;
              match created with
              | None => raise GroupProposalNotFound
              | Some p => settle t project id p proposer
              end
          | _ => raise ServerError
          end
  end.
Definition vote (t : positive) (project room proposal voter : uuid) (approve : bool) : proc Resolution :=
  _ ← get_active_for_update t room;
  p ← locked t room proposal voter;
  if negb (is_open p) then raise GroupProposalResolved
  else
    _ ← cast t proposal voter (if approve then APPROVE else REJECT);
    _ ← emit t (E_proposal_voted proposal);
    settle t project proposal p voter.
Definition withdraw (t : positive) (room proposal caller : uuid) : proc Tally :=
  p ← locked t room proposal caller;
  if negb (Pos.eqb (gp_proposer p) caller) then raise GroupProposalNotFound
  else if negb (is_open p) then raise GroupProposalResolved
  else
    moved ← resolve t proposal P_WITHDRAWN;
    _ ← (if (moved : bool) then emit t (E_proposal_resolved proposal P_WITHDRAWN None) else mret tt);
    tally t proposal caller false None.
Definition expire_due_now (t : positive) (limit : nat) : proc (list (Key * Row)) :=
  at_ ← now; expire_due t at_ limit.
Definition get_tally (t : positive) (room proposal caller : uuid) (creator : bool) : proc Tally :=
  found ← get_prop t proposal;
  match found with
  | None => raise GroupProposalNotFound
  | Some p =>
      if negb (Pos.eqb (gp_room p) room) then raise GroupProposalNotFound
      else if negb creator && negb (may_vote p caller) then raise GroupProposalNotFound
      else tally t proposal caller creator (Some p)
  end.
Fixpoint tallies (t : positive) (viewer : uuid) (creator : bool) (l : list (uuid * GroupProposal)) : proc (list Tally) :=
  match l with
  | [] => mret []
  | (i, p) :: l => ta ← tally t i viewer creator (Some p); rest ← tallies t viewer creator l; mret (ta :: rest)
  end.
(** [list_round_for_caller]: the proposals and the groups the caller may propose for;
    names and orders are not modelled. *)
Definition list_round_for_caller (t : positive) (project room activation caller : uuid) (creator : bool)
    : proc (list Tally * list uuid) :=
  bound ← get (fun w : World => omap (fun rg : uuid * uuid => if Pos.eqb rg.1 room then Some rg.2 else None) (elements (ar_bound_groups w.2)));
  live_bound ← get (fun w : World => List.filter (fun g => bool_decide ((project, g) ∈ ar_live_groups w.2)) bound);
  eligible ← get (fun w : World => List.filter (fun g => bool_decide ((g, caller) ∈ ar_members w.2)) live_bound);
  let visible := if creator then live_bound else eligible in
  proposals ← (if bool_decide (visible = []) then mret []
               else get (fun w : World => omap (fun kr => match kr with (KProp i, RProp p) => Some (i, p) | _ => None end)
                     (rows_where t (props_where (fun _ p => Pos.eqb (gp_room p) room && Pos.eqb (gp_activation p) activation
                        && existsb (Pos.eqb (gp_group p)) visible && is_open p)) w)));
  views ← tallies t caller creator proposals;
  mret (views, eligible).
End services.
