(* ===== verification/ActivityFacts.v ===== *)
(** * Concurrent requests on rounds, submissions and group proposals

    What a request keeps of the tables whatever the others do: the committed rows are
    [consistent], a row only changes the way [grows] says, and what a transaction has
    taken, the others leave alone ([others_keep]).  Every statement is proved to respect
    this once; [st] is what holds of a transaction's own uncommitted rows, up to a [debt]
    it still has to settle before it commits. *)

From S2P Require Import Prelude PyFloat PyValue Interleave Transactions Consent ActivityRows Activities.

(** ** Rows by table *)
Definition act_at (m : gmap Key Row) (a : uuid) : option Activation := as_act (m !! KAct a).
Definition prop_at (m : gmap Key Row) (x : uuid) : option GroupProposal := as_prop (m !! KProp x).
Definition vote_at (m : gmap Key Row) (x u : uuid) : option VoteChoice := as_vote (m !! KVote x u).
Definition sess_at (m : gmap Key Row) (s : uuid) : option Session := as_sess (m !! KSess s).
Definition sub_at (m : gmap Key Row) (i : uuid) : option Submission := as_sub (m !! KSub i).
Definition attempt_at (m : gmap Key Row) (s i : uuid) : option Z :=
  match sub_at m i with Some b => if Pos.eqb (su_session b) s then Some (su_attempt b) else None | None => None end.
(** The attempts of a session are numbered from one, each number once. *)
Definition numbered (m : gmap Key Row) (s : uuid) : Prop :=
  (forall i j n, attempt_at m s i = Some n -> attempt_at m s j = Some n -> i = j) /\
  exists top, 0 <= top /\ forall n, (exists i, attempt_at m s i = Some n) <-> 1 <= n <= top.
Definition key_id (k : Key) : uuid :=
  match k with KAct i | KProp i | KVote i _ | KSess i | KSub i | KLog i => i end.

Lemma as_act_Some r a : as_act r = Some a <-> r = Some (RAct a).
Proof. destruct r as [[]|]; simpl; naive_solver. Qed.
Lemma as_prop_Some r a : as_prop r = Some a <-> r = Some (RProp a).
Proof. destruct r as [[]|]; simpl; naive_solver. Qed.
Lemma as_vote_Some r a : as_vote r = Some a <-> r = Some (RVote a).
Proof. destruct r as [[]|]; simpl; naive_solver. Qed.
Lemma as_sess_Some r a : as_sess r = Some a <-> r = Some (RSess a).
Proof. destruct r as [[]|]; simpl; naive_solver. Qed.
Lemma as_sub_Some r a : as_sub r = Some a <-> r = Some (RSub a).
Proof. destruct r as [[]|]; simpl; naive_solver. Qed.

(** ** How rows change *)
Definition same_proposal (p q : GroupProposal) : Prop :=
  gp_room q = gp_room p /\ gp_activation q = gp_activation p /\ gp_type q = gp_type p /\ gp_group q = gp_group p /\
  gp_proposer q = gp_proposer p /\ gp_payload q = gp_payload p /\ gp_voters q = gp_voters p /\ gp_required q = gp_required p.
Definition same_session (s s' : Session) : Prop :=
  se_type s' = se_type s /\ se_room s' = se_room s /\ se_user s' = se_user s /\ se_group s' = se_group s /\
  se_guest s' = se_guest s /\ se_activation s' = se_activation s.
Definition same_submission (b b' : Submission) : Prop :=
  su_session b' = su_session b /\ su_type b' = su_type b /\ su_room b' = su_room b /\ su_producer b' = su_producer b /\
  su_guest b' = su_guest b /\ su_payload b' = su_payload b /\ su_attempt b' = su_attempt b /\ su_created_at b' = su_created_at b.
Definition same_round (a b : Activation) : Prop :=
  ac_room b = ac_room a /\ ac_type b = ac_type a /\ ac_started_by b = ac_started_by a /\ ac_agent b = ac_agent a /\
  ac_deadline_at b = ac_deadline_at a.
(** A round ends once, a proposal is decided once, a verdict is given once; the rest of a
    row never changes. *)
Inductive grows : Row -> Row -> Prop :=
  | grows_same r : grows r r
  | grows_act a b : same_round a b -> is_active a = true -> is_active b = false -> grows (RAct a) (RAct b)
  | grows_prop p q : same_proposal p q -> is_open p = true -> is_open q = false -> grows (RProp p) (RProp q)
  | grows_vote c d : grows (RVote c) (RVote d)
  | grows_sess s s' : same_session s s' -> (session_open s = false -> session_open s' = false) -> grows (RSess s) (RSess s')
  | grows_sub b b' : same_submission b b' -> pending b = true -> pending b' = false -> grows (RSub b) (RSub b').
#[export] Instance same_proposal_preorder : PreOrder same_proposal.
Proof. split; [by intros p|]. intros p q r. unfold same_proposal. naive_solver congruence. Qed.
#[export] Instance same_session_preorder : PreOrder same_session.
Proof. split; [by intros p|]. intros p q r. unfold same_session. naive_solver congruence. Qed.
#[export] Instance same_submission_preorder : PreOrder same_submission.
Proof. split; [by intros p|]. intros p q r. unfold same_submission. naive_solver congruence. Qed.
#[export] Instance same_round_preorder : PreOrder same_round.
Proof. split; [by intros p|]. intros p q r. unfold same_round. naive_solver congruence. Qed.
#[export] Instance grows_preorder : PreOrder grows.
Proof.
  split; [intros r; constructor|]. intros r1 r2 r3 H1 H2.
  destruct H1; [done|..]; inversion H2; subst; try (constructor; assumption); try congruence.
  constructor; [by etrans|auto].
Qed.

(** ** The committed rows *)
Definition tagged (k : Key) (r : Row) : Prop :=
  match k, r with
  | KAct _, RAct _ | KProp _, RProp _ | KVote _ _, RVote _ | KSess _, RSess _ | KSub _, RSub _ | KLog _, RLog _ => True
  | _, _ => False
  end.
Definition well_formed (p : GroupProposal) : Prop :=
  NoDup (gp_voters p) /\ gp_proposer p ∈ gp_voters p /\ 1 <= gp_required p <= Z.of_nat (length (gp_voters p)).
Definition submission_of (m : gmap Key Row) (p : GroupProposal) (i : uuid) : Prop :=
  exists b y, sub_at m i = Some b /\ sess_at m (su_session b) = Some y /\ se_group y = Some (gp_group p) /\
    se_activation y = gp_activation p /\ su_payload b = gp_payload p /\ su_producer b = gp_proposer p.
Definition decided (p : GroupProposal) (i : uuid) : Prop := gp_status p = P_ACCEPTED /\ gp_submission p = Some i.
(** A session is a member's or a group's. *)
Definition one_subject (y : Session) : Prop := se_user y = None \/ se_group y = None.
(** What the ballots say of an open proposal so far: neither carried nor lost. *)
Definition in_doubt (m : gmap Key Row) (x : uuid) : Prop :=
  forall p, prop_at m x = Some p -> is_open p = true ->
    (tally_of x m).1 < gp_required p <= (tally_of x m).1 + undecided_of p (tally_of x m).1 (tally_of x m).2.
Record consistent (m : gmap Key Row) : Prop := {
  c_tagged k r : m !! k = Some r -> tagged k r;
  c_prop x p : prop_at m x = Some p -> well_formed p /\
    (is_open p = true -> exists a, act_at m (gp_activation p) = Some a /\ is_active a = true) /\
    (gp_status p <> P_ACCEPTED -> gp_submission p = None) /\
    (gp_status p = P_ACCEPTED -> gp_required p <= (tally_of x m).1 /\ exists i, gp_submission p = Some i /\ submission_of m p i);
  c_vote x u c : vote_at m x u = Some c -> exists p, prop_at m x = Some p /\ u ∈ gp_voters p;
  c_sub i b : sub_at m i = Some b -> exists y, sess_at m (su_session b) = Some y /\
    (se_group y <> None -> exists x p, prop_at m x = Some p /\ decided p i /\
       forall x' p', prop_at m x' = Some p' -> decided p' i -> x' = x);
  c_sess s y : sess_at m s = Some y -> one_subject y;
  c_doubt x : in_doubt m x;
  c_numbered s : numbered m s;
}.
Record inv (w : World) : Prop := {
  i_ids k : is_Some (rows w.1 !! k) \/ is_Some (held w.1 !! k) -> Pos.lt (key_id k) (next w.1);
  i_rows : consistent (rows w.1);
}.

(** ** What the others leave to a transaction *)

(** The round a submission was made in. *)
Definition round_of (m : gmap Key Row) (i : uuid) : option uuid :=
  match sub_at m i with Some b => se_activation <$> sess_at m (su_session b) | None => None end.
(** Committed rows only grow; nothing of an ended round is added or changed. *)
Record follows (m m' : gmap Key Row) : Prop := {
  f_grows k r : m !! k = Some r -> exists r', m' !! k = Some r' /\ grows r r';
  f_subs a z i : act_at m a = Some z -> is_active z = false -> round_of m' i = Some a -> round_of m i = Some a;
  f_props a z x p : act_at m a = Some z -> is_active z = false -> prop_at m' x = Some p -> gp_activation p = a ->
    prop_at m x = Some p;
}.
Record others_keep (t : positive) (w w' : World) : Prop := {
  ok_tx : tx_keeps t w.1 w'.1;
  ok_next : Pos.le (next w.1) (next w'.1);
  ok_follows : follows (rows w.1) (rows w'.1);
  ok_votes x u : holds t w.1 (KProp x) -> rows w'.1 !! KVote x u = rows w.1 !! KVote x u;
  ok_subs s i : holds t w.1 (KSess s) -> attempt_at (rows w'.1) s i = attempt_at (rows w.1) s i;
  ok_props a x p : holds t w.1 (KAct a) -> prop_at (rows w'.1) x = Some p -> is_open p = true -> gp_activation p = a ->
    prop_at (rows w.1) x = Some p;
}.

Lemma prop_at_grows m m' x p r' : prop_at m x = Some p -> m' !! KProp x = Some r' -> grows (RProp p) r' ->
  exists p', prop_at m' x = Some p' /\ same_proposal p p' /\ (is_open p = false -> p' = p).
Proof.
  intros Hp Hr Hg. unfold prop_at. rewrite Hr. inversion Hg; subst; simpl; eexists; (split; [done|]); (split; [done|]); congruence.
Qed.
Section grown.
Context (m m' : gmap Key Row) (Hf : forall k r, m !! k = Some r -> exists r', m' !! k = Some r' /\ grows r r').
Lemma grown_prop x p : prop_at m x = Some p -> exists p', prop_at m' x = Some p' /\ same_proposal p p' /\ (is_open p = false -> p' = p).
Proof. intros Hp. pose proof Hp as Hp0. apply as_prop_Some, Hf in Hp0 as (r' & Hr & Hg). by apply (prop_at_grows m m' x p r'). Qed.
Lemma grown_act a z : act_at m a = Some z -> exists z', act_at m' a = Some z' /\ same_round z z' /\ (is_active z = false -> z' = z).
Proof.
  intros Hp. apply as_act_Some, Hf in Hp as (r' & Hr & Hg). unfold act_at. rewrite Hr. inversion Hg; subst; simpl; eexists; (split; [done|]); (split; [done|]); congruence.
Qed.
Lemma grown_sess s y : sess_at m s = Some y -> exists y', sess_at m' s = Some y' /\ same_session y y'.
Proof. intros Hp. apply as_sess_Some, Hf in Hp as (r' & Hr & Hg). unfold sess_at. rewrite Hr. inversion Hg; subst; simpl; by eexists. Qed.
Lemma grown_sub i b : sub_at m i = Some b -> exists b', sub_at m' i = Some b' /\ same_submission b b' /\ (pending b = false -> b' = b).
Proof. intros Hp. apply as_sub_Some, Hf in Hp as (r' & Hr & Hg). unfold sub_at. rewrite Hr. inversion Hg; subst; simpl; eexists; (split; [done|]); (split; [done|]); congruence. Qed.
Lemma grown_vote x u c : vote_at m x u = Some c -> is_Some (vote_at m' x u).
Proof. intros Hp. apply as_vote_Some, Hf in Hp as (r' & Hr & Hg). unfold vote_at. rewrite Hr. inversion Hg; subst; simpl; by eexists. Qed.
End grown.
#[export] Instance follows_preorder : PreOrder follows.
Proof.
  split.
  - intros m. split; [intros k r Hr; by exists r|naive_solver|done].
  - intros m1 m2 m3 [A1 A2 A3] [B1 B2 B3]. split.
    + intros k r Hr. destruct (A1 _ _ Hr) as (r2 & Hr2 & Hg2). destruct (B1 _ _ Hr2) as (r3 & Hr3 & Hg3). exists r3. split; [done|by etrans].
    + intros a z i Ha Hz Hi. destruct (grown_act _ _ A1 _ _ Ha) as (z2 & Ha2 & _ & Hz2). rewrite Hz2 in Ha2 by done.
      apply (A2 a z i Ha Hz), (B2 a z i Ha2 Hz Hi).
    + intros a z x p Ha Hz Hp Hx. destruct (grown_act _ _ A1 _ _ Ha) as (z2 & Ha2 & _ & Hz2). rewrite Hz2 in Ha2 by done.
      apply (A3 a z x p Ha Hz); [|done]. by apply (B3 a z x p).
Qed.
#[export] Instance others_keep_preorder t : PreOrder (others_keep t).
Proof.
  split; [intros w; by split|]. intros w1 w2 w3 [A1 A2 A3 A4 A5 A6] [B1 B2 B3 B4 B5 B6].
  assert (Hh : forall k, holds t w1.1 k -> holds t w2.1 k) by (intros k; apply (keeps_holds _ _ _ A1)).
  split; [by etrans|lia|by etrans| | |].
  - intros x u Hx. rewrite B4 by auto. by apply A4.
  - intros s i Hs. rewrite B5 by auto. by apply A5.
  - intros a x p Ha Hp Ho He. apply (A6 a); [done| |done..]. by apply (B6 a x p); auto.
Qed.

(** ** Counting ballots *)
Lemma elem_of_ballots x m u c : (u, c) ∈ ballots x m <-> vote_at m x u = Some c.
Proof.
  unfold ballots, vote_at. rewrite list_elem_of_omap. split.
  - intros ([k r] & Hin & He). apply elem_of_map_to_list in Hin. destruct k as [| |p u'| | |]; try done. destruct r as [| |c'| | |]; try done.
    destruct (Pos.eqb_spec p x) as [->|]; [|done]. injection He as -> ->. by rewrite Hin.
  - intros Hv. apply as_vote_Some in Hv. exists (KVote x u, RVote c). split; [by apply elem_of_map_to_list|]. by rewrite Pos.eqb_refl.
Qed.
Lemma ballots_NoDup x m : NoDup (ballots x m).*1.
Proof.
  unfold ballots. pose proof (NoDup_fst_map_to_list m) as Hn. revert Hn. induction (map_to_list m) as [|[k r] l IH]; simpl; intros Hn; [constructor|].
  apply list.NoDup_cons in Hn as [Hk Hn]. destruct k as [| |p u| | |]; try by apply IH. destruct r as [| |c| | |]; try by apply IH.
  destruct (Pos.eqb_spec p x) as [->|]; [|by apply IH]. simpl. constructor; [|by apply IH].
  intros Hin. apply Hk. apply list_elem_of_fmap in Hin as ([u' c'] & -> & Hin). apply list_elem_of_omap in Hin as ([k' r'] & Hin & He).
  destruct k' as [| |p' u''| | |]; try done. destruct r' as [| |c''| | |]; try done. destruct (Pos.eqb_spec p' x) as [->|]; [|done].
  injection He as -> ->. apply list_elem_of_fmap. exists (KVote x u', RVote c'). done.
Qed.
Lemma tally_of_ext x m m' : (forall u, m !! KVote x u = m' !! KVote x u) -> tally_of x m = tally_of x m'.
Proof.
  intros Hm. assert (Hp : ballots x m ≡ₚ ballots x m').
  { apply NoDup_Permutation; [eapply NoDup_fmap_1, ballots_NoDup..|]. intros [u c]. rewrite !elem_of_ballots. unfold vote_at. by rewrite Hm. }
  unfold tally_of, count_choice. assert (Hc : forall f, length (List.filter f (ballots x m)) = length (List.filter f (ballots x m'))); [|by rewrite !Hc].
  intros f. induction Hp as [|b l l' Hp IH|b c l|l1 l2 l3 _ IH1 _ IH2]; simpl; [done|..|by rewrite IH1].
  - destruct (f b); simpl; by rewrite IH.
  - by destruct (f b), (f c).
Qed.

(** ** A transaction's own rows *)
Definition round_locked (t : positive) (d : Store) (a : uuid) (z : Activation) : Prop :=
  holds t d (KAct a) /\ draft t d (KAct a) = None /\ act_at (rows d) a = Some z /\ is_active z = true.
(** What is still to be done before a commit: the proposals of a round that was ended, the
    submission of a proposal that was accepted, the proposal of a submission, the count of
    the ballots of a proposal. *)
Record debt := mkDebt { d_end : option uuid; d_prop : option uuid; d_sub : option uuid; d_vote : option uuid }.
Definition no_debt : debt := mkDebt None None None None.
Definition round_over (m : gmap Key Row) (a : uuid) : Prop :=
  forall x p, prop_at m x = Some p -> gp_activation p = a -> is_open p = false.
Definition draft_ok (t : positive) (o : debt) (d : Store) (k : Key) (v : Row) : Prop :=
  (forall r, rows d !! k = Some r -> grows r v) /\
  match k, v with
  | KAct a, RAct z => is_active z = false -> d_end o = Some a \/ round_over (seen t d) a
  | KProp x, RProp p =>
      (rows d !! k = None -> well_formed p /\ exists z, round_locked t d (gp_activation p) z) /\
      (gp_status p <> P_ACCEPTED -> gp_submission p = None) /\
      (gp_status p = P_ACCEPTED -> gp_required p <= (tally_of x (seen t d)).1 /\
         (d_prop o = Some x /\ gp_submission p = None \/
          exists i b, gp_submission p = Some i /\ rows d !! KSub i = None /\ draft t d (KSub i) = Some (RSub b) /\ submission_of (seen t d) p i))
  | KVote x u, RVote c => holds t d (KProp x) /\ exists p, prop_at (seen t d) x = Some p /\ u ∈ gp_voters p /\
      (draft t d (KProp x) = None -> is_open p = true)
  | KSess s, RSess y => one_subject y
  | KSub j, RSub b => rows d !! k = None ->
      numbered (seen t d) (su_session b) /\ holds t d (KSess (su_session b)) /\
      exists y z, sess_at (seen t d) (su_session b) = Some y /\ round_locked t d (se_activation y) z /\
        (se_group y <> None -> d_sub o = Some j \/ exists x p, draft t d (KProp x) = Some (RProp p) /\ decided p j)
  | KLog _, RLog _ => True
  | _, _ => False
  end.
Definition touched (t : positive) (d : Store) (x : uuid) : Prop :=
  is_Some (draft t d (KProp x)) \/ exists u, is_Some (draft t d (KVote x u)).
Record st (t : positive) (o : debt) (d : Store) : Prop := {
  st_drafts k v : draft t d k = Some v -> draft_ok t o d k v;
  st_one x x' p p' : draft t d (KProp x) = Some (RProp p) -> draft t d (KProp x') = Some (RProp p') ->
    gp_status p = P_ACCEPTED -> gp_status p' = P_ACCEPTED -> x = x';
  st_doubt x : touched t d x -> d_vote o = Some x \/ in_doubt (seen t d) x;
}.

Section stable.
Context (t : positive) (w w' : World) (Hk : others_keep t w w').
Let Htx := ok_tx _ _ _ Hk.
Lemma ok_holds k : holds t w.1 k <-> holds t w'.1 k.
Proof. by apply keeps_holds. Qed.
Lemma ok_draft k : draft t w'.1 k = draft t w.1 k.
Proof. by apply keeps_draft. Qed.
Lemma ok_rows k : holds t w.1 k -> rows w'.1 !! k = rows w.1 !! k.
Proof. apply (tk_rows _ _ _ Htx). Qed.
Lemma ok_seen k : holds t w.1 k -> seen t w'.1 !! k = seen t w.1 !! k.
Proof. by apply keeps_seen. Qed.
Lemma ok_round a z : round_locked t w.1 a z -> round_locked t w'.1 a z.
Proof.
  intros (H1 & H2 & H3 & H4). split_and!; [by apply ok_holds|by rewrite ok_draft| |done]. unfold act_at. by rewrite ok_rows.
Qed.
Lemma ok_seen_vote x u : holds t w.1 (KProp x) -> seen t w'.1 !! KVote x u = seen t w.1 !! KVote x u.
Proof. intros Hx. by rewrite !lookup_seen, ok_draft, (ok_votes _ _ _ Hk). Qed.
Lemma ok_tally x : holds t w.1 (KProp x) -> tally_of x (seen t w'.1) = tally_of x (seen t w.1).
Proof. intros Hx. apply tally_of_ext. intros u. by apply ok_seen_vote. Qed.
Lemma ok_attempt s i : holds t w.1 (KSess s) -> attempt_at (seen t w'.1) s i = attempt_at (seen t w.1) s i.
Proof.
  intros Hs. pose proof (ok_subs _ _ _ Hk s i Hs) as He. unfold attempt_at, sub_at in *. rewrite !lookup_seen, ok_draft.
  by destruct (draft t w.1 (KSub i)).
Qed.
Lemma ok_numbered s : holds t w.1 (KSess s) -> numbered (seen t w.1) s -> numbered (seen t w'.1) s.
Proof.
  intros Hs [H1 (top & H2 & H3)]. split.
  - intros i j n. rewrite !ok_attempt by done. apply H1.
  - exists top. split; [done|]. intros n. rewrite <-H3. split; intros [i Hi]; exists i; [rewrite <-ok_attempt|rewrite ok_attempt]; done.
Qed.
Lemma ok_round_over a : holds t w.1 (KAct a) -> round_over (seen t w.1) a -> round_over (seen t w'.1) a.
Proof.
  intros Ha Ho x p Hp Hx. destruct (is_open p) eqn:Eo; [|done]. rewrite <-Eo. apply (Ho x); [|done].
  unfold prop_at in *. rewrite lookup_seen in Hp |- *. rewrite ok_draft in Hp. destruct (draft t w.1 (KProp x)); [done|].
  by apply (ok_props _ _ _ Hk a).
Qed.
Lemma ok_seen_prop x : holds t w.1 (KProp x) -> prop_at (seen t w'.1) x = prop_at (seen t w.1) x.
Proof. intros Hx. unfold prop_at. by rewrite ok_seen. Qed.
(** A session keeps its subject and its round, taken or not. *)
Lemma ok_seen_sess s y : sess_at (seen t w.1) s = Some y -> exists y', sess_at (seen t w'.1) s = Some y' /\ same_session y y'.
Proof.
  unfold sess_at. rewrite !lookup_seen, ok_draft. destruct (draft t w.1 (KSess s)); [intros Hs; by exists y|].
  apply grown_sess. apply (ok_follows _ _ _ Hk).
Qed.
Lemma ok_submission_of p i b : draft t w.1 (KSub i) = Some (RSub b) -> submission_of (seen t w.1) p i -> submission_of (seen t w'.1) p i.
Proof.
  intros Hd (b' & y & Hb & Hy & Hg & Ha & Hp & Hpr). destruct (ok_seen_sess _ _ Hy) as (y' & Hy' & Hs).
  exists b', y'. destruct Hs as (_&_&_&->&_&->). split_and!; try done. unfold sub_at in *. rewrite lookup_seen, ok_draft, Hd in *. done.
Qed.

Lemma touched_holds o x : (forall k v, draft t w.1 k = Some v -> draft_ok t o w.1 k v) -> touched t w.1 x -> holds t w.1 (KProp x).
Proof.
  intros Hd [[v Hv]|[u [v Hv]]]; [by eapply draft_holds|]. destruct (Hd _ _ Hv) as [_ Hc]. destruct v; try done. apply Hc.
Qed.
Lemma st_stable o : st t o w.1 -> st t o w'.1.
Proof.
  intros [Hd Ho Hdo]. split; [|intros x x' p p'; rewrite !ok_draft; apply Ho|].
  2: { intros x Hx. assert (Hx0 : touched t w.1 x) by (destruct Hx as [Hx|[u Hx]]; rewrite ok_draft in Hx; [by left|right; by exists u]).
       destruct (Hdo x Hx0) as [|Hd']; [by left|right]. assert (Hh : holds t w.1 (KProp x)) by (by apply (touched_holds o)).
       intros p. rewrite ok_seen_prop, ok_tally by done. apply Hd'. }
  intros k v. rewrite ok_draft. intros Hv. pose proof (draft_holds _ _ _ _ Hv) as Hh. pose proof (Hd _ _ Hv) as [Hg Hc].
  split; [by rewrite ok_rows|]. destruct k as [a|x|x u|s|j|l], v as [z|p|c|y|b|e]; try done.
  - intros Hz. destruct (Hc Hz) as [He|Hr]; [by left|right]. by apply ok_round_over.
  - rewrite ok_rows by done. destruct Hc as (H1 & H2 & H3). split_and!; [|done|].
    + intros Hn. destruct (H1 Hn) as [Hw [z Hz]]. split; [done|]. exists z. by apply ok_round.
    + intros Ha. destruct (H3 Ha) as [Ht Hs]. rewrite ok_tally by done. split; [done|]. destruct Hs as [Hs|(i & b & Hi & Hn & Hb & Hs)]; [by left|right].
      exists i, b. rewrite ok_draft. split_and!; [done| |done|by eapply ok_submission_of].
      rewrite ok_rows; [done|]. by eapply draft_holds.
  - destruct Hc as [H1 (p & Hp & Hu)]. split; [by apply ok_holds|]. exists p. by rewrite ok_seen_prop, ok_draft.
  - rewrite ok_rows by done. intros Hn. destruct (Hc Hn) as (H1 & H2 & y & z & Hy & Hz & Hgr).
    split_and!; [by apply ok_numbered|by apply ok_holds|]. destruct (ok_seen_sess _ _ Hy) as (y' & Hy' & Hs).
    exists y', z. destruct Hs as (_&_&_&->&_&->). split_and!; [done|by apply ok_round|]. intros Hgn.
    destruct (Hgr Hgn) as [Hi|(x & p & Hx & Hp)]; [by left|right]. exists x, p. by rewrite ok_draft.
Qed.
End stable.

(** ** What a transaction sees *)
Lemma numbered_ext m1 m2 s : (forall i, attempt_at m2 s i = attempt_at m1 s i) -> numbered m1 s -> numbered m2 s.
Proof.
  intros He [H1 (top & H2 & H3)]. split; [intros i j n; rewrite !He; apply H1|]. exists top. split; [done|].
  intros n. rewrite <-H3. split; intros [i H]; exists i; [by rewrite <-He|by rewrite He].
Qed.
Section own_view.
Context (t : positive) (w : World) (Hi : inv w) (o : debt) (Hst : st t o w.1).
Let m := rows w.1.
Let m' := seen t w.1.
Lemma own_cases k v : m' !! k = Some v -> draft t w.1 k = Some v /\ draft_ok t o w.1 k v \/ draft t w.1 k = None /\ m !! k = Some v.
Proof.
  unfold m'. rewrite lookup_seen. destruct (draft t w.1 k) as [v'|] eqn:E; [|by right]. intros [= <-]. left. split; [done|]. by apply (st_drafts _ _ _ Hst).
Qed.
Lemma own_grows k r : m !! k = Some r -> exists r', m' !! k = Some r' /\ grows r r'.
Proof.
  intros Hr. unfold m'. rewrite lookup_seen. destruct (draft t w.1 k) as [v|] eqn:E; [|by exists r].
  exists v. split; [done|]. by apply (st_drafts _ _ _ Hst k v E).
Qed.
Lemma touched_or_not x : touched t w.1 x \/ ~ touched t w.1 x.
Proof.
  set (f := fun kv : Key * Row => match kv.1 with KProp y | KVote y _ => Pos.eqb y x | _ => false end).
  destruct (existsb f (map_to_list (drafts t w.1))) eqn:E; [left|right].
  - apply existsb_exists in E as ([k v] & Hin & Hk). apply list_elem_of_In, elem_of_map_to_list in Hin. rewrite lookup_drafts in Hin.
    unfold f in Hk. simpl in Hk. destruct k; try done; apply Pos.eqb_eq in Hk as ->; [left|right]; [by eexists|]. eexists. by eexists.
  - assert (Hno : forall k v, draft t w.1 k = Some v -> f (k, v) = false).
    { intros k v Hv. destruct (f (k, v)) eqn:Ef; [|done]. rewrite <-E. symmetry. apply existsb_exists. exists (k, v). split; [|done].
      apply list_elem_of_In, elem_of_map_to_list. by rewrite lookup_drafts. }
    intros [[v Hv]|[u [v Hv]]]; apply Hno in Hv; unfold f in Hv; simpl in Hv; by rewrite Pos.eqb_refl in Hv.
Qed.
Lemma doubt_any x : d_vote o = Some x \/ in_doubt m' x.
Proof.
  destruct (touched_or_not x) as [Hx|Hx]; [by apply (st_doubt _ _ _ Hst)|right]. intros p Hp Hop.
  assert (Hv : forall u, draft t w.1 (KVote x u) = None).
  { intros u. destruct (draft t w.1 (KVote x u)) eqn:E; [|done]. destruct Hx. right. exists u. by rewrite E. }
  assert (Hpr : draft t w.1 (KProp x) = None) by (destruct (draft t w.1 (KProp x)) eqn:E; [|done]; destruct Hx; left; by rewrite E).
  assert (Ht : tally_of x m' = tally_of x m) by (apply tally_of_ext; intros u; unfold m', m; by rewrite lookup_seen, Hv).
  rewrite Ht. apply (c_doubt _ (i_rows _ Hi) x); [|done]. unfold prop_at, m' in Hp. by rewrite lookup_seen, Hpr in Hp.
Qed.
Lemma own_attempt s i : attempt_at m' s i = attempt_at m s i \/
  exists b, draft t w.1 (KSub i) = Some (RSub b) /\ su_session b = s /\ numbered m' s /\ holds t w.1 (KSess s).
Proof.
  unfold attempt_at, sub_at. destruct (m' !! KSub i) as [r|] eqn:Er.
  - apply own_cases in Er as [[Hd (Hg & Hnew)]|[_ ->]]; [|by left]. destruct r as [| | | |b|]; try done. unfold m in *.
    destruct (rows w.1 !! KSub i) as [r0|] eqn:E0.
    + left. specialize (Hg _ eq_refl). inversion Hg; subst; simpl; [done|]. destruct H0 as (->&_&_&_&_&_&->&_). done.
    + destruct (Pos.eqb_spec (su_session b) s) as [<-|Hn]; [right|by left; simpl; apply Pos.eqb_neq in Hn as ->].
      destruct (Hnew eq_refl) as (H1 & H2 & _). by exists b.
  - left. unfold m. destruct (rows w.1 !! KSub i) as [r|] eqn:E0; [|done]. apply own_grows in E0 as (r' & Hr & _). congruence.
Qed.
Lemma own_numbered s : numbered m' s.
Proof.
  set (P := fun kr : Key * Row => attempt_at m' s (key_id kr.1) <> attempt_at m s (key_id kr.1)).
  destruct (decide (Exists P (map_to_list m'))) as [He|He].
  - apply Exists_exists in He as ([k r] & _ & Hn). by destruct (own_attempt s (key_id k)) as [|(b & _ & _ & Hnum & _)].
  - apply (numbered_ext m); [|apply c_numbered, (i_rows _ Hi)]. intros i. destruct (own_attempt s i) as [|(b & Hb & _)]; [done|].
    destruct (decide (attempt_at m' s i = attempt_at m s i)) as [|Hn]; [done|]. destruct He. apply Exists_exists.
    exists (KSub i, RSub b). split; [|done]. apply list_elem_of_In, elem_of_map_to_list. unfold m'. by rewrite lookup_seen, Hb.
Qed.
End own_view.

(** ** The commit *)
Section commit.
Context (t : positive) (w : World) (Hi : inv w) (Hst : st t no_debt w.1).
Let m := rows w.1.
Let m' := seen t w.1.
Let w' : World := (commit_db t w.1, w.2).
Let commit_cases := own_cases t w no_debt Hst.
Let commit_grows := own_grows t w no_debt Hst.
Let commit_attempt := own_attempt t w no_debt Hst.
Let commit_numbered := own_numbered t w Hi no_debt Hst.
Lemma commit_active a z : act_at m a = Some z -> is_active z = true -> (exists x p, prop_at m' x = Some p /\ gp_activation p = a /\ is_open p = true) ->
  exists z', act_at m' a = Some z' /\ is_active z' = true.
Proof.
  intros Ha Hz (x & p & Hp & Hx & Ho). destruct (grown_act _ _ commit_grows _ _ Ha) as (z' & Hz' & _ & _). exists z'. split; [done|].
  destruct (is_active z') eqn:Ez; [done|]. pose proof Hz' as Hd. apply as_act_Some, commit_cases in Hd as [[_ [_ Hd]]|[_ Hd]].
  - destruct (Hd Ez) as [|Hr]; [done|]. by rewrite (Hr x p) in Ho.
  - unfold act_at, m in Ha. rewrite Hd in Ha. simpl in Ha. congruence.
Qed.
Lemma commit_submission_of p i : submission_of m p i -> submission_of m' p i.
Proof.
  intros (b & y & Hb & Hy & Hg & Ha & Hp & Hpr).
  destruct (grown_sub _ _ commit_grows _ _ Hb) as (b' & Hb' & (E1&_&_&E4&_&E6&_) & _).
  destruct (grown_sess _ _ commit_grows _ _ Hy) as (y' & Hy' & (_&_&_&F4&_&F6)).
  exists b', y'. rewrite E1, E4, E6, F4, F6. done.
Qed.
Lemma commit_prop x p : prop_at m' x = Some p -> well_formed p /\
    (is_open p = true -> exists a, act_at m' (gp_activation p) = Some a /\ is_active a = true) /\
    (gp_status p <> P_ACCEPTED -> gp_submission p = None) /\
    (gp_status p = P_ACCEPTED -> gp_required p <= (tally_of x m').1 /\ exists i, gp_submission p = Some i /\ submission_of m' p i).
Proof.
  intros Hp. pose proof Hp as Hc. apply as_prop_Some, commit_cases in Hc as [[Hd (Hg & H1 & H2 & H3)]|[Hd Hm]].
  - assert (Hacc : gp_status p = P_ACCEPTED -> gp_required p <= (tally_of x m').1 /\ exists i, gp_submission p = Some i /\ submission_of m' p i).
    { intros Ha. destruct (H3 Ha) as [Ht [[? _]|(i & b & Hs & _ & _ & Hso)]]; [done|]. split; [done|]. by exists i. }
    assert (Hold : (rows w.1 !! KProp x = None) \/ exists p0, prop_at m x = Some p0 /\ same_proposal p0 p /\ (is_open p = true -> p0 = p)).
    { destruct (rows w.1 !! KProp x) as [r|] eqn:Er; [right|by left]. specialize (Hg _ eq_refl). unfold prop_at, m. rewrite Er.
      inversion Hg; subst; simpl; eexists; (split; [done|]); (split; [done|]); congruence. }
    destruct Hold as [Hn|(p0 & Hp0 & Hs & Ho)].
    + destruct (H1 Hn) as [Hw [z (_ & Hdz & Hz & Haz)]]. split_and!; [done| |done|done].
      intros Hop. apply (commit_active _ z Hz Haz). by exists x, p.
    + destruct (c_prop _ (i_rows _ Hi) _ _ Hp0) as (Hw & Hact & _). split_and!; [| |done|done].
      * destruct Hs as (_&_&_&_&E5&_&E7&E8). unfold well_formed in *. by rewrite E5, E7, E8.
      * intros Hop. rewrite (Ho Hop) in Hact. destruct (Hact Hop) as (a & Ha & Hz). apply (commit_active _ a Ha Hz). by exists x, p.
  - assert (Hpm : prop_at m x = Some p) by (by apply as_prop_Some).
    destruct (c_prop _ (i_rows _ Hi) _ _ Hpm) as (Hw & Hact & Hsub & Hacc). split_and!; [done| |done|].
    + intros Hop. destruct (Hact Hop) as (a & Ha & Hz). apply (commit_active _ a Ha Hz). by exists x, p.
    + intros Ha. destruct (Hacc Ha) as [Ht (i & Hs & Hso)]. split; [|exists i; split; [done|by apply commit_submission_of]].
      rewrite (tally_of_ext x m' m); [done|]. intros u. unfold m'. rewrite lookup_seen. destruct (draft t w.1 (KVote x u)) as [v|] eqn:Ev; [|done].
      pose proof (st_drafts _ _ _ Hst _ _ Ev) as [_ Hv]. destruct v; try done. destruct Hv as [_ (p' & Hp' & _ & Ho)].
      fold m' in Hp'. assert (p' = p) as -> by congruence. specialize (Ho Hd). unfold is_open in Ho. by rewrite Ha in Ho.
Qed.
Lemma commit_old_sub i b : sub_at m i = Some b -> exists y, sess_at m' (su_session b) = Some y /\
    (se_group y <> None -> exists x p, prop_at m' x = Some p /\ decided p i /\
       forall x' p', prop_at m' x' = Some p' -> decided p' i -> x' = x).
Proof.
  intros Hb. destruct (c_sub _ (i_rows _ Hi) _ _ Hb) as (y & Hy & Hg).
  destruct (grown_sess _ _ commit_grows _ _ Hy) as (y' & Hy' & (_&_&_&E4&_)). exists y'. split; [done|]. rewrite E4. intros Hgn.
  destruct (Hg Hgn) as (x & p & Hp & Hd & Hu). destruct (grown_prop _ _ commit_grows _ _ Hp) as (p' & Hp' & _ & Hsame).
  rewrite Hsame in Hp' by (destruct Hd as [Hd _]; unfold is_open; by rewrite Hd).
  exists x, p. split_and!; [done..|]. intros x2 p2 Hp2 Hd2. pose proof Hp2 as Hc. apply as_prop_Some, commit_cases in Hc as [[_ (_ & _ & _ & H3)]|[_ Hm]].
  - destruct Hd2 as [Hd2 Hs2]. destruct (H3 Hd2) as [_ [[? _]|(i' & b' & Hs & Hn & _)]]; [done|].
    assert (i' = i) as -> by congruence. unfold sub_at, m in Hb. by rewrite Hn in Hb.
  - apply (Hu x2 p2); [|done]. by apply as_prop_Some.
Qed.
Lemma commit_sub i b : sub_at m' i = Some b -> exists y, sess_at m' (su_session b) = Some y /\
    (se_group y <> None -> exists x p, prop_at m' x = Some p /\ decided p i /\
       forall x' p', prop_at m' x' = Some p' -> decided p' i -> x' = x).
Proof.
  intros Hb. pose proof Hb as Hc. apply as_sub_Some, commit_cases in Hc as [[Hd (Hg & Hnew)]|[Hd Hm]].
  - destruct (rows w.1 !! KSub i) as [r|] eqn:Er.
    + specialize (Hg _ eq_refl). assert (exists b0, r = RSub b0 /\ same_submission b0 b) as (b0 & -> & Hs) by (inversion Hg; subst; by eexists).
      destruct Hs as [-> _]. apply commit_old_sub. by apply as_sub_Some.
    + destruct (Hnew eq_refl) as (_ & _ & y & z & Hy & _ & Hgr). exists y. split; [done|]. intros Hgn.
      destruct (Hgr Hgn) as [|(x & p & Hx & Hdec)]; [done|]. exists x, p. split_and!; [|done|].
      { apply as_prop_Some. unfold m'. by rewrite lookup_seen, Hx. }
      intros x' p' Hp' Hd'. pose proof Hp' as Hc. apply as_prop_Some, commit_cases in Hc as [[Hd2 _]|[_ Hm]].
      * apply (st_one _ _ _ Hst x' x p' p); [done..|apply Hd'|apply Hdec].
      * apply as_prop_Some in Hm. destruct (c_prop _ (i_rows _ Hi) _ _ Hm) as (_ & _ & _ & Hacc). destruct Hd' as [Hd1 Hd3].
        destruct (Hacc Hd1) as [_ (j & Hj & (b' & _ & Hb' & _))]. assert (j = i) as -> by congruence. unfold sub_at in Hb'. by rewrite Er in Hb'.
  - apply commit_old_sub. by apply as_sub_Some.
Qed.
Lemma commit_consistent : consistent m'.
Proof.
  split; [|apply commit_prop| |apply commit_sub| |intros x; by destruct (doubt_any t w Hi no_debt Hst x)|apply commit_numbered].
  - intros k r [[_ [_ Hd]]|[_ Hm]]%commit_cases; [by destruct k, r|by eapply c_tagged; [apply (i_rows _ Hi)|]].
  - intros x u c Hv. apply as_vote_Some, commit_cases in Hv as [[_ [_ (_ & p & Hp & Hu & _)]]|[_ Hm]]; [by exists p|].
    destruct (c_vote _ (i_rows _ Hi) x u c) as (p & Hp & Hu); [by apply as_vote_Some|].
    destruct (grown_prop _ _ commit_grows _ _ Hp) as (p' & Hp' & (_&_&_&_&_&_&Hvo&_) & _). exists p'. by rewrite Hvo.
  - intros s y Hy. apply as_sess_Some, commit_cases in Hy as [[_ [_ Hd]]|[_ Hm]]; [done|]. apply (c_sess _ (i_rows _ Hi) s). by apply as_sess_Some.
Qed.
Lemma commit_inv : inv w'.
Proof.
  split; [|apply commit_consistent]. intros k Hk. apply (i_ids _ Hi). simpl in Hk. destruct Hk as [[v Hv]|[[q v] Hv]].
  - apply (commit_cases k v) in Hv as [[Hd _]|[_ Hm]]; [right; apply draft_Some in Hd; by eexists|left; by eexists].
  - apply map_lookup_filter_Some in Hv as [Hv _]. right. by eexists.
Qed.
Lemma commit_new_prop x p : prop_at m' x = Some p -> prop_at m x = Some p \/
  (exists z, round_locked t w.1 (gp_activation p) z) \/ is_open p = false /\ exists p0, prop_at m x = Some p0 /\ is_open p0 = true /\ same_proposal p0 p.
Proof.
  intros Hp. pose proof Hp as Hc. apply as_prop_Some, commit_cases in Hc as [[Hd (Hg & H1 & _)]|[_ Hm]]; [|left; by apply as_prop_Some].
  unfold prop_at, m. destruct (rows w.1 !! KProp x) as [r|] eqn:Er; [|right; left; by apply H1].
  specialize (Hg _ eq_refl). inversion Hg; subst; [by left|]. right. right. split; [done|]. by exists p0.
Qed.
Lemma commit_follows : follows m m'.
Proof.
  split; [apply commit_grows| |].
  - intros a z i Ha Hz. unfold round_of. destruct (sub_at m' i) as [b|] eqn:Eb; [|done].
    destruct (sess_at m' (su_session b)) as [y|] eqn:Ey; [|done]. simpl. intros [= Hy].
    assert (Hold : exists b0, sub_at m i = Some b0 /\ su_session b = su_session b0).
    { apply as_sub_Some, commit_cases in Eb as [[Hd (Hg & Hnew)]|[_ Hm]]; [|exists b; split; [by apply as_sub_Some|done]].
      unfold sub_at, m. destruct (rows w.1 !! KSub i) as [r|].
      - specialize (Hg _ eq_refl). inversion Hg; subst; [by exists b|]. exists b0. split; [done|]. by destruct H0 as [-> _].
      - destruct (Hnew eq_refl) as (_ & _ & y' & z' & Hy' & (_ & _ & Hz' & Hact) & _). assert (y' = y) as -> by (unfold m' in Ey; congruence).
        rewrite Hy in Hz'. unfold m in Ha. congruence. }
    destruct Hold as (b0 & Hb0 & Hs). rewrite Hb0. destruct (c_sub _ (i_rows _ Hi) _ _ Hb0) as (y0 & Hy0 & _). fold m in Hy0. rewrite Hy0. simpl.
    destruct (grown_sess _ _ commit_grows _ _ Hy0) as (y1 & Hy1 & (_&_&_&_&_&Ha1)). fold m' in Hy1. rewrite Hs, Hy1 in Ey. injection Ey as ->. by rewrite <-Ha1, Hy.
  - intros a z x p Ha Hz Hp Hx. destruct (commit_new_prop _ _ Hp) as [?|[(z' & _ & _ & Hz' & Hact)|(_ & p0 & Hp0 & Ho & Hs)]]; [done|exfalso..].
    + rewrite Hx in Hz'. unfold m in Ha. congruence.
    + destruct (c_prop _ (i_rows _ Hi) _ _ Hp0) as (_ & Hact & _). destruct (Hact Ho) as (z' & Hz' & Ha'). destruct Hs as (_&He&_).
      rewrite <-He, Hx in Hz'. unfold m in Ha. congruence.
Qed.
Lemma commit_others q : q <> t -> others_keep q w w'.
Proof.
  intros Hq. split; [by apply commit_keeps|simpl; lia|apply commit_follows|..].
  - intros x u Hx. change (m' !! KVote x u = m !! KVote x u). unfold m', m. rewrite lookup_seen.
    destruct (draft t w.1 (KVote x u)) as [v|] eqn:Ev; [|done]. apply (st_drafts _ _ _ Hst) in Ev as [_ Ev]. destruct v; try done.
    destruct Ev as [Ht _]. destruct Hq. by apply (holds_unique q t w.1 (KProp x)).
  - intros s i Hs. destruct (commit_attempt s i) as [|(b & _ & _ & _ & Ht)]; [done|]. destruct Hq. by apply (holds_unique q t w.1 (KSess s)).
  - intros a x p Ha Hp Ho He. change (prop_at m' x = Some p) in Hp. destruct (commit_new_prop _ _ Hp) as [?|[(z' & Ht & _)|(Hc & _)]]; [done| |congruence].
    destruct Hq. rewrite He in Ht. by apply (holds_unique q t w.1 (KAct a)).
Qed.
End commit.
