(* ===== verification/ActivitySteps.v ===== *)
(** * Statements of the activities context, among other requests

    What each statement of [Activities] does to the assertion [st] of ActivityFacts.v and
    to facts that neither the others nor later statements of the same transaction undo
    ([framed]). *)

From S2P Require Import Prelude PyFloat PyValue Interleave Transactions Consent ActivityRows Activities ActivityFacts.

Abbreviation stable := (Interleave.stable inv others_keep).
Abbreviation triple := (Interleave.triple inv others_keep).
(** What holds when a step succeeds; a failure promises nothing. *)
Definition ok {A} (Q : A -> World -> Prop) (r : ActivityError + A) (w : World) : Prop :=
  match r with inl _ => True | inr a => Q a w end.
Definition on_rows (P : Store -> Prop) (w : World) : Prop := P w.1.

(** ** A transaction's own writes *)
Definition put (t : positive) (k : Key) (v : option Row) (n : positive) (d : Store) : Store :=
  mkDB (rows d) (<[k := (t, v)]> (held d)) n.
Record own_keeps (t : positive) (d d' : Store) : Prop := {
  ow_rows : rows d' = rows d;
  ow_next : Pos.le (next d) (next d');
  ow_holds k : holds t d k -> holds t d' k;
  ow_drafts k v : draft t d k = Some v -> is_Some (draft t d' k);
  ow_act a : draft t d' (KAct a) = draft t d (KAct a);
  ow_vote x u : draft t d' (KVote x u) = draft t d (KVote x u);
  ow_prop x : match prop_at (seen t d) x, prop_at (seen t d') x with
    | Some p, Some p' => same_proposal p p' /\ (is_open p = false -> p' = p)
    | None, None => True | _, _ => False end;
  ow_sess s y : sess_at (seen t d) s = Some y -> exists y', sess_at (seen t d') s = Some y' /\ same_session y y';
  ow_sub j b : sub_at (seen t d) j = Some b -> exists b', sub_at (seen t d') j = Some b' /\ same_submission b b';
  ow_num s : numbered (seen t d) s -> numbered (seen t d') s;
}.
#[export] Instance own_keeps_preorder t : PreOrder (own_keeps t).
Proof.
  split.
  - intros d. split; [done|lia|done|intros k v Hv; by exists v|done|done|intros x; by destruct (prop_at _ x)|intros s y H; by exists y|intros s y H; by exists y|done].
  - intros d1 d2 d3 [A1 A2 A3 A4 A5 A6 A7 A8 A9 A10] [B1 B2 B3 B4 B5 B6 B7 B8 B9 B10]. split; [congruence|lia|auto|..].
    + intros k v [v2 Hv]%A4. by apply (B4 k v2).
    + intros a. by rewrite B5.
    + intros x u. by rewrite B6.
    + intros x. specialize (A7 x). specialize (B7 x). destruct (prop_at (seen t d1) x), (prop_at (seen t d2) x) as [p2|], (prop_at (seen t d3) x); try done.
      destruct A7 as (a1 & a3), B7 as (b1 & b3). split; [by etrans|]. intros Hs. rewrite <-(a3 Hs). apply b3. by rewrite (a3 Hs).
    + intros s y (y2 & Hy2 & S2)%A8. apply B8 in Hy2 as (y3 & Hy3 & S3). exists y3. split; [done|by etrans].
    + intros s y (y2 & Hy2 & S2)%A9. apply B9 in Hy2 as (y3 & Hy3 & S3). exists y3. split; [done|by etrans].
    + auto.
Qed.

(** Facts that survive what the others do and later statements of the transaction: those
    that only lock ([tame]), those that accept no proposal and make no proposal or
    submission ([framed]), all ([lasting]). *)
Definition accepted (t : positive) (d : Store) (x : uuid) : Prop :=
  exists p, draft t d (KProp x) = Some (RProp p) /\ gp_status p = P_ACCEPTED.
Definition none_accepted (t : positive) (d : Store) : Prop := forall x, ~ accepted t d x.
Definition made_here (t : positive) (d : Store) (k : Key) : Prop :=
  rows d !! k = None /\ is_Some (draft t d k) /\ match k with KProp _ | KSub _ => True | _ => False end.
Definition none_made (t : positive) (d : Store) : Prop := forall k, ~ made_here t d k.
Record discreet (t : positive) (d d' : Store) : Prop := {
  di_keeps : own_keeps t d d';
  di_accepted x : accepted t d' x -> accepted t d x;
  di_made k : made_here t d' k -> made_here t d k;
}.
Record framed (t : positive) (F : Store -> Prop) : Prop := {
  fr_others w w' : others_keep t w w' -> F w.1 -> F w'.1;
  fr_own d d' : discreet t d d' -> F d -> F d';
}.
Record lasting (t : positive) (F : Store -> Prop) : Prop := {
  la_others w w' : others_keep t w w' -> F w.1 -> F w'.1;
  la_own d d' : own_keeps t d d' -> F d -> F d';
}.
Record tame (t : positive) (F : Store -> Prop) : Prop := {
  ta_others w w' : others_keep t w w' -> F w.1 -> F w'.1;
  ta_own d d' : own_keeps t d d' -> (forall k, draft t d' k = draft t d k) -> F d -> F d';
}.
Lemma framed_tame t F : framed t F -> tame t F.
Proof.
  intros [H1 H2]. split; [done|]. intros d d' Hk Hd. apply H2. split; [done|intros x (p & Hp & Ha); exists p; by rewrite <-Hd|].
  intros k (Hr & Hs & Hm). split; [by rewrite <-(ow_rows _ _ _ Hk)|]. by rewrite <-Hd.
Qed.
Lemma tame_and t F G : tame t F -> tame t G -> tame t (fun d => F d /\ G d).
Proof. intros [H1 H2] [H3 H4]. split; naive_solver. Qed.
Lemma lasting_framed t F : lasting t F -> framed t F.
Proof. intros [H1 H2]. split; [done|]. intros d d' [Hk _ _]. by apply H2. Qed.
Lemma framed_true t : framed t (fun _ => True).
Proof. by split. Qed.
Lemma framed_and t F G : framed t F -> framed t G -> framed t (fun d => F d /\ G d).
Proof. intros [H1 H2] [H3 H4]. split; naive_solver. Qed.
Lemma lasting_true t : lasting t (fun _ => True).
Proof. by split. Qed.
Lemma lasting_and t F G : lasting t F -> lasting t G -> lasting t (fun d => F d /\ G d).
Proof. intros [H1 H2] [H3 H4]. split; naive_solver. Qed.
Definition known_session (t : positive) (s : uuid) (group : option uuid) (a : uuid) (d : Store) : Prop :=
  exists y, sess_at (seen t d) s = Some y /\ se_group y = group /\ se_activation y = a.
Definition known_proposal (t : positive) (x : uuid) (p : GroupProposal) (d : Store) : Prop :=
  holds t d (KProp x) /\ exists p', prop_at (seen t d) x = Some p' /\ same_proposal p p'.
Definition supported (t : positive) (x : uuid) (n : Z) (d : Store) : Prop := holds t d (KProp x) /\ n <= (tally_of x (seen t d)).1.
Definition made (t : positive) (i s : uuid) (payload : pyval) (producer : uuid) (d : Store) : Prop :=
  rows d !! KSub i = None /\ exists b, draft t d (KSub i) = Some (RSub b) /\ su_session b = s /\ su_payload b = payload /\ su_producer b = producer.
Definition no_rounds (t : positive) (d : Store) : Prop := forall a, draft t d (KAct a) = None.

Lemma own_seen_vote t d d' x u : own_keeps t d d' -> seen t d' !! KVote x u = seen t d !! KVote x u.
Proof. intros H. by rewrite !lookup_seen, (ow_vote _ _ _ H), (ow_rows _ _ _ H). Qed.
Lemma own_tally t d d' x : own_keeps t d d' -> tally_of x (seen t d') = tally_of x (seen t d).
Proof. intros H. apply tally_of_ext. intros u. by apply own_seen_vote. Qed.
Lemma own_round t d d' a z : own_keeps t d d' -> round_locked t d a z -> round_locked t d' a z.
Proof. intros H (H1 & H2 & H3 & H4). split_and!; [by apply (ow_holds _ _ _ H)|by rewrite (ow_act _ _ _ H)|by rewrite (ow_rows _ _ _ H)|done]. Qed.
Lemma own_prop t d d' x p : own_keeps t d d' -> prop_at (seen t d) x = Some p ->
  exists p', prop_at (seen t d') x = Some p' /\ same_proposal p p' /\ (is_open p = false -> p' = p).
Proof. intros H Hp. pose proof (ow_prop _ _ _ H x) as Hx. rewrite Hp in Hx. destruct (prop_at (seen t d') x) as [p'|]; [|done]. by exists p'. Qed.
Lemma own_draft_sub t d d' i b : own_keeps t d d' -> draft t d (KSub i) = Some (RSub b) ->
  exists b', draft t d' (KSub i) = Some (RSub b') /\ same_submission b b'.
Proof.
  intros H Hb. assert (Hs : sub_at (seen t d) i = Some b) by (unfold sub_at; by rewrite lookup_seen, Hb).
  destruct (ow_sub _ _ _ H _ _ Hs) as (b' & Hb' & Hsame). exists b'. split; [|done].
  destruct (ow_drafts _ _ _ H _ _ Hb) as [v Hv]. unfold sub_at in Hb'. rewrite lookup_seen, Hv in Hb'. apply as_sub_Some in Hb'. congruence.
Qed.

Lemma lasting_round t a z : lasting t (fun d => round_locked t d a z).
Proof. split; [intros w w' Hk; by apply ok_round|intros d d' Hk; by apply own_round]. Qed.
Lemma lasting_session t s g a : lasting t (known_session t s g a).
Proof.
  split.
  - intros w w' Hk (y1 & Hy1 & <- & <-). apply (ok_seen_sess t w w' Hk) in Hy1 as (y2 & Hy2 & (_&_&_&E4&_&E6)). by exists y2.
  - intros d d' Hk (y1 & Hy1 & <- & <-). apply (ow_sess _ _ _ Hk) in Hy1 as (y2 & Hy2 & (_&_&_&E4&_&E6)). by exists y2.
Qed.
Lemma lasting_proposal t x p : lasting t (known_proposal t x p).
Proof.
  split.
  - intros w w' Hk (Hh & p1 & Hp1 & S1). split; [by apply (ok_holds t w w' Hk)|]. exists p1. by rewrite (ok_seen_prop t w w' Hk).
  - intros d d' Hk (Hh & p1 & Hp1 & S1). split; [by apply (ow_holds _ _ _ Hk)|].
    destruct (own_prop _ _ _ _ _ Hk Hp1) as (p2 & Hp2 & S2 & _). exists p2. split; [done|by etrans].
Qed.
Lemma lasting_supported t x n : lasting t (supported t x n).
Proof.
  split.
  - intros w w' Hk [Hh Hn]. split; [by apply (ok_holds t w w' Hk)|]. by rewrite (ok_tally t w w' Hk).
  - intros d d' Hk [Hh Hn]. split; [by apply (ow_holds _ _ _ Hk)|]. by rewrite (own_tally _ _ _ _ Hk).
Qed.
Lemma lasting_made t i s v u : lasting t (made t i s v u).
Proof.
  split.
  - intros w w' Hk (Hn & b & Hb & Hrest). split; [|exists b; by rewrite (ok_draft t w w' Hk)].
    rewrite (ok_rows t w w' Hk); [done|by eapply draft_holds].
  - intros d d' Hk (Hn & b & Hb & E1 & E2 & E3). split; [by rewrite (ow_rows _ _ _ Hk)|].
    destruct (own_draft_sub _ _ _ _ _ Hk Hb) as (b' & Hb' & (F1&_&_&F4&_&F6&_)). exists b'. split_and!; [done|congruence..].
Qed.
Lemma lasting_no_rounds t : lasting t (no_rounds t).
Proof.
  split.
  - intros w w' Hk H a. by rewrite (ok_draft t w w' Hk).
  - intros d d' Hk H a. by rewrite (ow_act _ _ _ Hk).
Qed.
Lemma framed_none_accepted t : framed t (none_accepted t).
Proof.
  split; [|intros d d' [_ Ha _] Hn x Hx; by apply (Hn x), Ha]. intros w w' Hk Hn x (p & Hp & Ha). apply (Hn x). exists p. by rewrite <-(ok_draft t w w' Hk).
Qed.
Lemma framed_none_made t : framed t (none_made t).
Proof.
  split; [|intros d d' [_ _ Ha] Hn x Hx; by apply (Hn x), Ha]. intros w w' Hk Hn k (Hr & [v Hv] & Hm). apply (Hn k).
  rewrite (ok_draft t w w' Hk) in Hv. split; [|split; [by exists v|done]]. rewrite <-Hr. symmetry. apply (ok_rows t w w' Hk). by apply (draft_holds t w.1 k v).
Qed.
(** A proposal it accepted, without its submission. *)
Definition unattached (t : positive) (x : uuid) (p : GroupProposal) (d : Store) : Prop :=
  exists q, draft t d (KProp x) = Some (RProp q) /\ gp_status q = P_ACCEPTED /\ gp_submission q = None /\ same_proposal p q.
Lemma lasting_unattached t x p : lasting t (unattached t x p).
Proof.
  split.
  - intros w w' Hk (q & Hq & Hrest). exists q. by rewrite (ok_draft t w w' Hk).
  - intros d d' Hk (q & Hq & Ha & Hrest). exists q. split; [|done]. destruct (ow_drafts _ _ _ Hk _ _ Hq) as [v Hv].
    assert (Hs : prop_at (seen t d) x = Some q) by (unfold prop_at; by rewrite lookup_seen, Hq).
    destruct (own_prop _ _ _ _ _ Hk Hs) as (q' & Hq' & _ & Hsame). rewrite Hsame in Hq' by (unfold is_open; by rewrite Ha).
    unfold prop_at in Hq'. rewrite lookup_seen, Hv in Hq'. apply as_prop_Some in Hq'. congruence.
Qed.
(** No row of the transaction's own. *)
Definition bare (t : positive) (d : Store) : Prop := forall k, draft t d k = None.
Lemma tame_bare t : tame t (bare t).
Proof.
  split; [intros w w' Hk H k; by rewrite (ok_draft t w w' Hk)|intros d d' _ Hd H k; by rewrite Hd].
Qed.
(** A proposal it holds, as it is. *)
Definition held_proposal (t : positive) (x : uuid) (p : GroupProposal) (d : Store) : Prop :=
  holds t d (KProp x) /\ prop_at (seen t d) x = Some p.
Lemma tame_held t x p : tame t (held_proposal t x p).
Proof.
  split.
  - intros w w' Hk [Hh Hp]. split; [by apply (ok_holds t w w' Hk)|by rewrite (ok_seen_prop t w w' Hk)].
  - intros d d' Hk Hd [Hh Hp]. split; [by apply (ow_holds _ _ _ Hk)|]. unfold prop_at in *. by rewrite lookup_seen, Hd, (ow_rows _ _ _ Hk), <-lookup_seen.
Qed.
Lemma lasting_holds t k : lasting t (fun d => holds t d k).
Proof. split; [intros w w' Hk Hh; by apply (ok_holds t w w' Hk)|intros d d' Hk Hh; by apply (ow_holds _ _ _ Hk)]. Qed.
Create HintDb rounds discriminated.
#[export] Hint Resolve framed_true framed_and lasting_true lasting_and lasting_framed framed_tame tame_and tame_bare tame_held lasting_unattached lasting_round lasting_session lasting_proposal lasting_supported
  lasting_made lasting_no_rounds framed_none_accepted framed_none_made lasting_holds : rounds.

(** ** [st] under a statement of its transaction *)
Lemma draft_ok_own t o d d' k v : own_keeps t d d' -> draft_ok t o d k v -> draft_ok t o d' k v.
Proof.
  intros Hk [Hg Hc]. pose proof (ow_rows _ _ _ Hk) as Hr. split; [by rewrite Hr|].
  destruct k as [a|x|x u|s|j|l], v as [z|p|c|y|b|e]; try done; rewrite ?Hr.
  - intros Hz. destruct (Hc Hz) as [?|Ho]; [by left|right]. intros x p Hp Hx. pose proof (ow_prop _ _ _ Hk x) as H. rewrite Hp in H.
    destruct (prop_at (seen t d) x) as [p0|] eqn:E0; [|done]. destruct H as ((_&E2&_) & Hop). assert (Hc0 : is_open p0 = false) by (apply (Ho x p0 E0); congruence). by rewrite (Hop Hc0).
  - destruct Hc as (H1 & H2 & H3). split_and!; [|done|].
    + intros Hn. destruct (H1 Hn) as [Hw [z Hz]]. split; [done|]. exists z. by eapply own_round.
    + intros Ha. rewrite (own_tally _ _ _ _ Hk). destruct (H3 Ha) as [Ht Hs]. split; [done|].
      destruct Hs as [?|(i & b & Hi & Hn & Hb & (b1 & y & Hb1 & Hy & Hrest))]; [by left|right].
      destruct (own_draft_sub _ _ _ _ _ Hk Hb) as (b' & Hb' & Hsame). exists i, b'. split_and!; [done..|].
      assert (b1 = b) as -> by (unfold sub_at in Hb1; rewrite lookup_seen, Hb in Hb1; simpl in Hb1; congruence).
      destruct (ow_sess _ _ _ Hk _ _ Hy) as (y' & Hy' & (_&_&_&E4&_&E6)). destruct Hsame as (F1&_&_&F4&_&F6&_).
      exists b', y'. rewrite F1, F4, F6, E4, E6. split_and!; try apply Hrest; [|done]. unfold sub_at. by rewrite lookup_seen, Hb'.
  - destruct Hc as [H1 (p & Hp & Hu & Ho)]. split; [by apply (ow_holds _ _ _ Hk)|].
    destruct (own_prop _ _ _ _ _ Hk Hp) as (p' & Hp' & (_&_&_&_&_&_&E7&_) & _). exists p'. rewrite E7. split_and!; [done..|].
    intros Hd. destruct (draft t d (KProp x)) as [v|] eqn:Ev; [apply (ow_drafts _ _ _ Hk) in Ev as [v' Hv']; congruence|].
    rewrite <-(Ho eq_refl). f_equal. unfold prop_at in Hp, Hp'. rewrite lookup_seen, Ev in Hp. rewrite lookup_seen, Hd, Hr in Hp'. congruence.
  - intros Hn. destruct (Hc Hn) as (H1 & H2 & y & z & Hy & Hz & Hgr).
    split_and!; [by apply (ow_num _ _ _ Hk)|by apply (ow_holds _ _ _ Hk)|].
    destruct (ow_sess _ _ _ Hk _ _ Hy) as (y' & Hy' & (_&_&_&E4&_&E6)). exists y', z. rewrite E4, E6.
    split_and!; [done|by eapply own_round|]. intros Hgn. destruct (Hgr Hgn) as [?|(x & p & Hx & Hp)]; [by left|right].
    exists x, p. split; [|done]. assert (Hs : prop_at (seen t d) x = Some p) by (unfold prop_at; by rewrite lookup_seen, Hx).
    destruct (own_prop _ _ _ _ _ Hk Hs) as (p' & Hp' & _ & Hsame). rewrite Hsame in Hp' by (unfold is_open; by destruct Hp as [-> _]).
    destruct (ow_drafts _ _ _ Hk _ _ Hx) as [v Hv]. unfold prop_at in Hp'. rewrite lookup_seen, Hv in Hp'. apply as_prop_Some in Hp'. congruence.
Qed.
Lemma undecided_same p p' a r : same_proposal p p' -> undecided_of p' a r = undecided_of p a r.
Proof. intros (_&_&_&_&_&_&E&_). unfold undecided_of. by rewrite E. Qed.
Lemma own_doubt t d d' x : own_keeps t d d' -> in_doubt (seen t d) x -> in_doubt (seen t d') x.
Proof.
  intros Hk Hd p' Hp' Ho. rewrite (own_tally t d) by done. pose proof (ow_prop _ _ _ Hk x) as Hx. rewrite Hp' in Hx.
  destruct (prop_at (seen t d) x) as [p|] eqn:E; [|done]. destruct Hx as [Hs Hc]. destruct (is_open p) eqn:Eo; [|by rewrite Hc, Eo in Ho].
  rewrite (undecided_same p p') by done. destruct Hs as (_&_&_&_&_&_&_&->). by apply (Hd p).
Qed.
(** The doubts a statement of the transaction leaves. *)
Lemma own_doubts t o w d' : inv w -> st t o w.1 -> own_keeps t w.1 d' -> forall x, d_vote o = Some x \/ in_doubt (seen t d') x.
Proof. intros Hi Hst Hk x. destruct (doubt_any t w Hi o Hst x) as [|Hd]; [by left|right]. by apply (own_doubt t w.1). Qed.
(** A statement that writes one row, or takes one. *)
Lemma st_put t o o' d d' K v : own_keeps t d d' -> st t o d -> draft t d' K = Some v ->
  (forall k, k <> K -> draft t d' k = draft t d k) -> draft_ok t o' d' K v ->
  (forall k w, k <> K -> draft t d k = Some w -> draft_ok t o d' k w -> draft_ok t o' d' k w) ->
  (forall x p, K = KProp x -> v = RProp p -> gp_status p = P_ACCEPTED ->
     forall x' p', x' <> x -> draft t d (KProp x') = Some (RProp p') -> gp_status p' <> P_ACCEPTED) ->
  (forall x, d_vote o' = Some x \/ in_doubt (seen t d') x) -> st t o' d'.
Proof.
  intros Hk [Hd Ho _] HK Hne Hnew Hup Hone Hdo. split; [| |by intros x _].
  - intros k w Hw. destruct (decide (k = K)) as [->|Hn]; [congruence|]. rewrite Hne in Hw by done.
    apply (Hup k w); [done..|]. apply (draft_ok_own t o d d'); auto.
  - intros x x' p p' Hp Hp' Ha Ha'. destruct (decide (x = x')) as [|Hx]; [done|exfalso].
    destruct (decide (KProp x = K)) as [<-|Hn]; [|destruct (decide (KProp x' = K)) as [<-|Hn']].
    + rewrite Hne in Hp' by congruence. by apply (Hone x p eq_refl ltac:(congruence) Ha x' p').
    + rewrite Hne in Hp by congruence. by apply (Hone x' p' eq_refl ltac:(congruence) Ha' x p).
    + rewrite Hne in Hp, Hp' by done. by apply Hx, (Ho x x' p p').
Qed.
Lemma st_lock t o d d' : own_keeps t d d' -> (forall k, draft t d' k = draft t d k) -> st t o d -> st t o d'.
Proof.
  intros Hk He [Hd Ho Hdo]. split; [|intros x x' p p'; rewrite !He; apply Ho|].
  2: { intros x Hx. destruct (Hdo x) as [|Hd']; [destruct Hx as [Hx|[u Hx]]; rewrite He in Hx; [by left|right; by exists u]|by left|right].
       by apply (own_doubt t d). }
  intros k v. rewrite He. intros Hv.
  apply (draft_ok_own t o d d'); auto.
Qed.

Lemma seen_put t k v n d k' : seen t (put t k v n d) !! k' = if decide (k' = k) then match v with Some r => Some r | None => rows d !! k end else seen t d !! k'.
Proof. rewrite !lookup_seen. change (draft t (put t k v n d) k') with (draft t (hold t k v d) k'). rewrite draft_hold. by case_decide as H; subst. Qed.
Lemma draft_put t k v n d k' : draft t (put t k v n d) k' = if decide (k' = k) then v else draft t d k'.
Proof. apply (draft_hold t k v d k'). Qed.
Lemma holds_put t k v n d k' : holds t (put t k v n d) k' <-> k' = k \/ holds t d k'.
Proof. apply (holds_hold t k v d k'). Qed.

(** The writes that [own_keeps] allows. *)
Definition write_fine (t : positive) (k : Key) (r : Row) (n : positive) (d : Store) : Prop :=
  match k, r with
  | KLog _, RLog _ => True
  | KSess s, RSess y' => forall y, sess_at (seen t d) s = Some y -> same_session y y'
  | KSub j, RSub b' => (forall b, sub_at (seen t d) j = Some b -> same_submission b b') /\
      (forall s, numbered (seen t d) s -> numbered (seen t (put t k (Some r) n d)) s)
  | KProp x, RProp p' => exists p, prop_at (seen t d) x = Some p /\ same_proposal p p' /\ is_open p = true
  | _, _ => False
  end.
Lemma own_put t k r n d : Pos.le (next d) n -> write_fine t k r n d -> own_keeps t d (put t k (Some r) n d).
Proof.
  intros Hn Hf.
  assert (Hnum : match k with KSub _ => True | _ => forall s, numbered (seen t d) s -> numbered (seen t (put t k (Some r) n d)) s end).
  { destruct k; try done; intros s; apply numbered_ext; intros i; unfold attempt_at, sub_at; by rewrite seen_put, decide_False. }
  split.
  - done.
  - done.
  - intros k' Hk. apply holds_put. by right.
  - intros k' v Hv. rewrite draft_put. case_decide; by eexists.
  - intros a. rewrite draft_put. by case_decide; subst; destruct r.
  - intros x u. rewrite draft_put. by case_decide; subst; destruct r.
  - intros x. unfold prop_at. rewrite seen_put. case_decide as E; [|by destruct (as_prop _)]. subst k. destruct r as [|p'| | | |]; try done.
    destruct Hf as (p & Hp & Hs & Ho). unfold prop_at in Hp. rewrite Hp. simpl. split; [done|congruence].
  - intros s y Hy. unfold sess_at. rewrite seen_put. case_decide as E; [|by exists y]. subst k. destruct r as [| | |y'| |]; try done. exists y'. by auto.
  - intros j b Hb. unfold sub_at. rewrite seen_put. case_decide as E; [|by exists b]. subst k. destruct r as [| | | |b'|]; try done. exists b'. split; [done|]. by apply Hf.
  - intros s. destruct k; try apply Hnum. destruct r; try done. apply Hf.
Qed.
Lemma own_lock t k d : own_keeps t d (put t k (draft t d k) (next d) d).
Proof.
  assert (He : forall k', seen t (put t k (draft t d k) (next d) d) !! k' = seen t d !! k').
  { intros k'. rewrite seen_put. case_decide; [subst; by rewrite lookup_seen|done]. }
  assert (Hm : seen t (put t k (draft t d k) (next d) d) = seen t d) by (by apply map_eq).
  assert (Hd : forall k', draft t (put t k (draft t d k) (next d) d) k' = draft t d k') by (intros k'; rewrite draft_put; by case_decide; subst).
  split; rewrite ?Hm.
  - done.
  - simpl. lia.
  - intros k' Hk. apply holds_put. by right.
  - intros k' v Hv. rewrite Hd. by exists v.
  - done.
  - done.
  - intros x. by destruct (prop_at _ x).
  - intros s y Hy. by exists y.
  - intros s y Hy. by exists y.
  - done.
Qed.

(** A statement leaves the committed rows alone. *)
Lemma step_put t k v n w : inv w -> Pos.lt (key_id k) n -> Pos.le (next w.1) n ->
  (forall q' v', held w.1 !! k = Some (q', v') -> q' = t) ->
  inv (put t k v n w.1, w.2) /\ forall q, q <> t -> others_keep q w (put t k v n w.1, w.2).
Proof.
  intros Hi Hk Hn Hf. split.
  - split; [|apply (i_rows _ Hi)]. intros k' Hk'. simpl in *.
    destruct (decide (k' = k)) as [->|Hne]; [done|]. rewrite lookup_insert_ne in Hk' by done. eapply Pos.lt_le_trans; [by apply (i_ids _ Hi)|done].
  - intros q Hq. destruct (hold_keeps t q k v w.1 Hq Hf) as [H1 H2]. by split.
Qed.
Lemma free_step t k v w : inv w -> free t w.1 k = true -> is_Some (seen t w.1 !! k) ->
  inv (put t k v (next w.1) w.1, w.2) /\ forall q, q <> t -> others_keep q w (put t k v (next w.1) w.1, w.2).
Proof.
  intros Hi Hf [r Hr]. apply step_put; [done| |lia|by apply hold_free]. apply (i_ids _ Hi). rewrite lookup_seen in Hr.
  destruct (draft t w.1 k) eqn:E; [right; apply draft_Some in E; by eexists|left; by eexists].
Qed.

(** ** Triples *)
Lemma done_stable {A} t (Q : A -> World -> Prop) : (forall a, stable t (Q a)) -> forall r, stable t (ok Q r).
Proof. by intros H [e|a]; [|apply H]. Qed.
Lemma triple_chain {A B} t P (m : proc A) (R : A -> World -> Prop) (k : A -> proc B) (Q : B -> World -> Prop) :
  triple t P m (ok R) -> (forall a, triple t (R a) (k a) (ok Q)) -> triple t P (m ≫= k) (ok Q).
Proof. intros Hm Hk. apply (triple_bind _ _ t P m R k (ok Q)); [|done|done]. eapply triple_conseq; [exact Hm|auto|]. by intros [e|a]. Qed.
Lemma triple_return {A} t (a : A) (Q : A -> World -> Prop) : stable t (Q a) -> triple t (Q a) (mret a) (ok Q).
Proof. intros HQ w Hi HQw w1 Hr Hi1. by apply (HQ w w1). Qed.
Lemma triple_raise {A} t P e (Q : A -> World -> Prop) : triple t P (raise e : proc A) (ok Q).
Proof. done. Qed.
Lemma triple_get_ok {A} t P (f : World -> A) (Q : A -> World -> Prop) : stable t P -> (forall a, stable t (Q a)) ->
  (forall w, inv w -> P w -> Q (f w) w) -> triple t P (get f) (ok Q).
Proof. intros HP HQ Hf. apply triple_act; [done|by apply done_stable|]. intros w Hi HPw. split_and!; [done|intros q _; reflexivity|by apply Hf]. Qed.
Lemma triple_mono {A} t (P P' : World -> Prop) (m : proc A) (Q Q' : A -> World -> Prop) :
  triple t P m (ok Q) -> (forall w, inv w -> P' w -> P w) -> (forall a w, inv w -> Q a w -> Q' a w) -> triple t P' m (ok Q').
Proof. intros H HP HQ. eapply triple_conseq; [exact H|exact HP|]. intros [e|a]; [done|apply HQ]. Qed.
Lemma triple_pre {A} t (P P' : World -> Prop) (m : proc A) (Q : A -> World -> Prop) :
  triple t P m (ok Q) -> (forall w, P' w -> P w) -> triple t P' m (ok Q).
Proof. intros H HP. eapply triple_mono; [exact H|auto|auto]. Qed.
Lemma triple_on_db {A} t (f : Store -> option (A * Store)) (P : World -> Prop) (Q : A -> World -> Prop) :
  stable t P -> (forall a, stable t (Q a)) ->
  (forall w a d, inv w -> P w -> f w.1 = Some (a, d) ->
     (inv (d, w.2) /\ forall q, q <> t -> others_keep q w (d, w.2)) /\ Q a (d, w.2)) ->
  triple t P (on_db f) (ok Q).
Proof.
  intros HP HQ Hf w0 Hi0 HP0 w Hr Hi. simpl. destruct (f w.1) as [[a d]|] eqn:E; [|done].
  destruct (Hf w a d Hi (HP w0 w Hr Hi HP0) E) as [[H1 H2] H3]. split_and!; [done..|].
  intros w1 Hr1 Hi1. by apply (HQ a _ w1 Hr1 Hi1).
Qed.
(** An intermediate [get] that the postcondition does not mention. *)
Lemma triple_read {A B} t (P : Store -> Prop) (f : World -> A) (k : A -> proc B) (Q : B -> World -> Prop) :
  stable t (on_rows P) -> (forall a, triple t (on_rows P) (k a) (ok Q)) -> triple t (on_rows P) (get f ≫= k) (ok Q).
Proof. intros HP Hk. eapply triple_chain; [|exact Hk]. by apply triple_get_ok. Qed.

Definition A (t : positive) (o : debt) (F : Store -> Prop) : World -> Prop := on_rows (fun d => st t o d /\ F d).
Lemma A_keeps t o F w w' : tame t F -> others_keep t w w' -> A t o F w -> A t o F w'.
Proof. intros HF Hk [H1 H2]. split; [by apply (st_stable t w w')|by apply (ta_others _ _ HF w w')]. Qed.
Lemma A_stable t o F : tame t F -> stable t (A t o F).
Proof. intros HF w w' Hk _. by apply A_keeps. Qed.
#[export] Hint Resolve A_stable : rounds.

(** The rows of a statement one after the other: [ks] remain, [l] were taken. *)
Lemma triple_take_rows t p f (I : list Key -> list (Key * Row) -> Store -> Prop) :
  (forall ks l w w', others_keep t w w' -> I ks l w.1 -> I ks l w'.1) ->
  (forall k ks l w v, inv w -> I (k :: ks) l w.1 -> free t w.1 k = true -> seen t w.1 !! k = Some v -> p k v = true ->
     I ks (l ++ [(k, match f with Some g => g v | None => v end)])
       (put t k (match f with Some g => Some (g v) | None => draft t w.1 k end) (next w.1) w.1)) ->
  (forall k ks l w, inv w -> I (k :: ks) l w.1 -> (forall v, seen t w.1 !! k = Some v -> p k v = false) -> I ks l w.1) ->
  forall ks l, triple t (on_rows (I ks l)) (take_rows t p f ks) (ok (fun l' => on_rows (I [] (l ++ l')))).
Proof.
  intros HI Htake Hskip ks. induction ks as [|k ks IH]; intros l.
  - eapply triple_mono; [apply (triple_return t [] (fun l' => on_rows (I [] (l ++ l'))))|..]; [|by intros w _; rewrite app_nil_r|done].
    intros w w' Hk _. by apply HI.
  - cbn [take_rows]. eapply triple_chain with (R := fun r => on_rows (I ks (l ++ match r with Some v => [(k, v)] | None => [] end))).
    + apply triple_on_db; [intros w w' Hk _; by apply HI|intros r w w' Hk _; by apply HI|].
      intros w r d Hi HIw. unfold take_row. destruct (free t w.1 k) eqn:Ef; [|done].
      assert (Hnone : (forall v, seen t w.1 !! k = Some v -> p k v = false) ->
        (inv (w.1, w.2) /\ (forall q, q <> t -> others_keep q w (w.1, w.2))) /\ on_rows (I ks (l ++ [])) (w.1, w.2)).
      { intros Hp. split; [split; [by destruct w|destruct w; intros q _; reflexivity]|]. rewrite app_nil_r. exact (Hskip k ks l w Hi HIw Hp). }
      destruct (seen t w.1 !! k) as [v|] eqn:Ev; [destruct (p k v) eqn:Ep|].
      * pose proof (Htake k ks l w v Hi HIw Ef Ev Ep) as H1. destruct f as [g|]; intros [= <- <-]; (split; [by apply free_step|done]).
      * intros [= <- <-]. apply Hnone. congruence.
      * intros [= <- <-]. by apply Hnone.
    + intros r. eapply triple_chain; [apply IH|]. intros l'. eapply triple_mono; [apply (triple_return t _ (fun l' => on_rows (I [] (l ++ l'))))|..]; [|..|done].
      * intros w w' Hk _. by apply HI.
      * intros w _ HIw. unfold on_rows in *. rewrite <-app_assoc in HIw. by destruct r.
Qed.

(** The usual cases: an update that keeps [st], and a lock. *)
Definition taken (G : Key -> Row -> Store -> Prop) (l : list (Key * Row)) (d : Store) : Prop := forall k v, (k, v) ∈ l -> G k v d.
Lemma framed_taken t G l : (forall k v, framed t (G k v)) -> framed t (taken G l).
Proof.
  intros HG. split; [intros w w' Hk H k v Hin; apply (fr_others _ _ (HG k v) w w' Hk); by apply H|].
  intros d d' Hk H k v Hin. apply (fr_own _ _ (HG k v) d d' Hk). by apply H.
Qed.
Lemma taken_snoc G l k v d : taken G l d -> G k v d -> taken G (l ++ [(k, v)]) d.
Proof. intros H1 H2 k' v' [Hin|Hin%list_elem_of_singleton]%elem_of_app; [by apply H1|]. by injection Hin as -> ->. Qed.
Lemma put_accepted t k v n d x : (forall p, v = Some (RProp p) -> k = KProp x -> gp_status p = P_ACCEPTED -> accepted t d x) ->
  accepted t (put t k v n d) x -> accepted t d x.
Proof.
  intros Hv (p & Hp & Ha). rewrite draft_put in Hp. case_decide as E; [by apply (Hv p)|]. by exists p.
Qed.
Lemma put_discreet t k r n d : own_keeps t d (put t k (Some r) n d) ->
  (is_Some (seen t d !! k) \/ match k with KProp _ | KSub _ => False | _ => True end) ->
  (forall x p, r = RProp p -> k = KProp x -> gp_status p = P_ACCEPTED -> accepted t d x) -> discreet t d (put t k (Some r) n d).
Proof.
  intros Hk Hs Hp. split; [done|intros x; apply put_accepted; intros p [= ->]; by apply Hp|]. intros k' (Hr & Hd & Hm). split; [done|]. split; [|done].
  destruct (decide (k' = k)) as [->|Hn]; [|by rewrite draft_put, decide_False in Hd].
  destruct Hs as [[v Hv]|Hs]; [|by destruct k]. rewrite lookup_seen in Hv. change (rows d !! k = None) in Hr. rewrite Hr in Hv. destruct (draft t d k); [by eexists|done].
Qed.
Lemma triple_update_where t o F p f G : framed t F -> (forall k v, framed t (G k v)) ->
  (forall w k v, inv w -> st t o w.1 -> F w.1 -> seen t w.1 !! k = Some v -> p k v = true -> free t w.1 k = true ->
     write_fine t k (f v) (next w.1) w.1 /\ (forall x q, f v = RProp q -> k = KProp x -> gp_status q = P_ACCEPTED -> accepted t w.1 x) /\
     let d := put t k (Some (f v)) (next w.1) w.1 in own_keeps t w.1 d -> st t o d /\ G k (f v) d) ->
  triple t (A t o F) (update_where t p f) (ok (fun l => A t o (fun d => F d /\ taken G l d))).
Proof.
  intros HF HG Hstep. apply triple_chain with (R := fun _ => A t o F).
  { apply triple_get_ok; [auto with rounds..|done]. }
  intros ks. eapply triple_mono; [apply (triple_take_rows t p (Some f) (fun _ l d => st t o d /\ F d /\ taken G l d)) with (l := [])|..].
  - intros _ l w w' Hk. apply (A_keeps t o (fun d => F d /\ taken G l d) w w'); [|done]. auto using framed_taken with rounds.
  - intros k _ l w v Hi (H1 & H2 & H3) Hf Hs Hp. destruct (Hstep w k v Hi H1 H2 Hs Hp Hf) as (Hw & Ha & Hst).
    pose proof (own_put t k (f v) (next w.1) w.1 ltac:(lia) Hw) as Hk. destruct (Hst Hk) as [H4 H5].
    assert (Hdi : discreet t w.1 (put t k (Some (f v)) (next w.1) w.1)) by (apply put_discreet; [done|left; by exists v|done]).
    split_and!; [done|by eapply fr_own|]. apply taken_snoc; [|done]. by eapply (fr_own _ _ (framed_taken t G l HG)).
  - done.
  - intros w _ [H1 H2]. split_and!; [done..|]. intros k v Hin. by apply not_elem_of_nil in Hin.
  - done.
Qed.
Lemma tame_taken t G l : (forall k v, tame t (G k v)) -> tame t (taken G l).
Proof.
  intros HG. split; [intros w w' Hk H k v Hin; apply (ta_others _ _ (HG k v) w w' Hk); by apply H|].
  intros d d' Hk Ha H k v Hin. apply (ta_own _ _ (HG k v) d d' Hk Ha). by apply H.
Qed.
Lemma triple_select t o F p G : tame t F -> (forall k v, tame t (G k v)) ->
  (forall w k v, inv w -> st t o w.1 -> F w.1 -> seen t w.1 !! k = Some v -> p k v = true ->
     let d := put t k (draft t w.1 k) (next w.1) w.1 in own_keeps t w.1 d -> G k v d) ->
  triple t (A t o F) (select_for_update t p) (ok (fun l => A t o (fun d => F d /\ taken G l d))).
Proof.
  intros HF HG Hstep. apply triple_chain with (R := fun _ => A t o F).
  { apply triple_get_ok; [auto with rounds..|done]. }
  intros ks. eapply triple_mono; [apply (triple_take_rows t p None (fun _ l d => st t o d /\ F d /\ taken G l d)) with (l := [])|..].
  - intros _ l w w' Hk. apply (A_keeps t o (fun d => F d /\ taken G l d) w w'); [|done]. auto using tame_taken with rounds.
  - intros k _ l w v Hi (H1 & H2 & H3) Hf Hs Hp. pose proof (own_lock t k w.1) as Hk.
    assert (Hd : forall k', draft t (put t k (draft t w.1 k) (next w.1) w.1) k' = draft t w.1 k') by (intros k'; rewrite draft_put; by case_decide; subst).
    split_and!; [by apply (st_lock t o w.1)|by eapply ta_own|]. apply taken_snoc; [by eapply (ta_own _ _ (tame_taken t G l HG))|by apply (Hstep w)].
  - done.
  - intros w _ [H1 H2]. split_and!; [done..|]. intros k v Hin. by apply not_elem_of_nil in Hin.
  - done.
Qed.
(** An insert of a row under a new key. *)
Lemma fresh_key w k : inv w -> ~ Pos.lt (key_id k) (next w.1) -> rows w.1 !! k = None /\ held w.1 !! k = None.
Proof.
  intros Hi Hk. split; [destruct (rows w.1 !! k) eqn:E|destruct (held w.1 !! k) eqn:E]; try done;
    (destruct Hk; apply (i_ids _ Hi); rewrite ?E; eauto).
Qed.
Lemma triple_insert t mk v (P : Store -> Prop) (Q : option positive -> Store -> Prop) :
  (forall i, key_id (mk i) = i) -> stable t (on_rows P) -> (forall r, stable t (on_rows (Q r))) ->
  (forall w, inv w -> P w.1 -> Q None w.1) ->
  (forall w, inv w -> P w.1 -> rows w.1 !! mk (next w.1) = None -> draft t w.1 (mk (next w.1)) = None ->
     Q (Some (next w.1)) (put t (mk (next w.1)) (Some v) (Pos.succ (next w.1)) w.1)) ->
  triple t (on_rows P) (on_db (insert_row conflict t mk v)) (ok (fun r => on_rows (Q r))).
Proof.
  intros Hmk HP HQ Hnone Hsome. apply triple_on_db; [done..|]. intros w r d Hi HPw. unfold insert_row.
  destruct (in_the_way _ _ _ _); [done|]. destruct (clashes _ _ _ _); intros [= <- <-].
  - split; [by split; [destruct w|destruct w; intros q _; reflexivity]|]. exact (Hnone w Hi HPw).
  - destruct (fresh_key w (mk (next w.1)) Hi) as [Hr Hh]; [rewrite Hmk; lia|].
    assert (Hd : draft t w.1 (mk (next w.1)) = None) by (unfold draft; by rewrite Hh).
    split; [|by apply Hsome]. apply (step_put t _ (Some v) (Pos.succ (next w.1)) w Hi); [rewrite Hmk; lia|lia|]. intros q v' Hv. congruence.
Qed.
Lemma triple_insert_own t o F mk v (Q : option positive -> Store -> Prop) : (forall i, key_id (mk i) = i) -> framed t F ->
  (forall r, stable t (on_rows (Q r))) ->
  (forall w, inv w -> st t o w.1 -> F w.1 -> Q None w.1) ->
  (forall w, inv w -> st t o w.1 -> F w.1 -> rows w.1 !! mk (next w.1) = None -> draft t w.1 (mk (next w.1)) = None ->
     let d := put t (mk (next w.1)) (Some v) (Pos.succ (next w.1)) w.1 in
     write_fine t (mk (next w.1)) v (Pos.succ (next w.1)) w.1 /\ match mk (next w.1) with KProp _ | KSub _ => False | _ => True end /\ (own_keeps t w.1 d -> F d -> Q (Some (next w.1)) d)) ->
  triple t (A t o F) (on_db (insert_row conflict t mk v)) (ok (fun r => on_rows (Q r))).
Proof.
  intros Hmk HF HQ Hnone Hsome. apply triple_insert; [done|apply (A_stable t o F); auto with rounds|done|intros w Hi [H1 H2]; by apply (Hnone w)|].
  intros w Hi [H1 H2] Hr Hd. destruct (Hsome w Hi H1 H2 Hr Hd) as (Hf & Hp & Hq).
  assert (Hk : own_keeps t w.1 (put t (mk (next w.1)) (Some v) (Pos.succ (next w.1)) w.1)) by (apply own_put; [lia|done]).
  apply Hq; [done|]. eapply fr_own; [done| |done]. apply put_discreet; [done|by right|]. intros x p _ He. by rewrite He in Hp.
Qed.
Lemma emit_triple t o F e : framed t F -> triple t (A t o F) (emit t e) (ok (fun _ => A t o F)).
Proof.
  intros HF. eapply triple_chain with (R := fun _ => A t o F).
  - apply (triple_insert_own t o F KLog (RLog e) (fun _ d => st t o d /\ F d)); [done|done|intros _; apply (A_stable t o F); auto with rounds|done|].
    intros w Hi Hst HFw Hr Hd. split; [done|]. split; [done|]. intros Hk HFd. split; [|done].
    eapply (st_put t o o w.1 _ (KLog (next w.1)) (RLog e)); [done|done|rewrite draft_put; by rewrite decide_True| | |done|done|by apply (own_doubts t o w)].
    + intros k Hk'. rewrite draft_put. by rewrite decide_False.
    + split; [|done]. intros r Hr'. simpl in Hr'. congruence.
  - intros r. apply (triple_return t tt (fun _ => A t o F)). auto with rounds.
Qed.
