(* ===== verification/ActivityOps.v ===== *)
(** * Statements of the activities context that decide something

    Locks on sessions, rounds and proposals, ballots, decisions, the acceptance of a
    proposal with the submission it gets, and the numbering of submissions: what each
    needs of its transaction, whatever the others do, and the debts it makes or settles. *)

From stdpp Require Import sorting.
From S2P Require Import Prelude PyFloat PyValue Interleave Transactions Consent ActivityRows Activities ActivityFacts ActivitySteps.

(** ** Statements that change one kind of row *)
Lemma seen_grows t o d k v r : st t o d -> seen t d !! k = Some v -> rows d !! k = Some r -> grows r v.
Proof.
  intros Hst. rewrite lookup_seen. destruct (draft t d k) as [v'|] eqn:E; intros Hv Hr.
  - injection Hv as <-. by apply (st_drafts _ _ _ Hst k v' E).
  - assert (r = v) as -> by congruence. done.
Qed.
Lemma st_put_same t o w k v n (d := w.1) : inv w -> own_keeps t d (put t k (Some v) n d) -> st t o d -> draft_ok t o (put t k (Some v) n d) k v ->
  (forall x p, k = KProp x -> v = RProp p -> gp_status p <> P_ACCEPTED) -> st t o (put t k (Some v) n d).
Proof.
  intros Hi Hk Hst Hd Hp. eapply (st_put t o o d _ k v); try done.
  - rewrite draft_put. by rewrite decide_True.
  - intros k' Hn. rewrite draft_put. by rewrite decide_False.
  - intros x p -> -> Ha. by destruct (Hp x p).
  - by apply (own_doubts t o w).
Qed.
Lemma seen_session t o w s y : inv w -> st t o w.1 -> sess_at (seen t w.1) s = Some y -> one_subject y.
Proof.
  intros Hi Hst Hy. apply as_sess_Some in Hy. apply (own_cases t w o Hst) in Hy as [[_ [_ Hd]]|[_ Hm]]; [done|].
  apply (c_sess _ (i_rows _ Hi) s). by apply as_sess_Some.
Qed.
Lemma one_subject_same y y' : same_session y y' -> one_subject y -> one_subject y'.
Proof. intros (_&_&E3&E4&_). unfold one_subject. by rewrite E3, E4. Qed.
Lemma update_sessions t o F p f : framed t F -> (forall y, same_session y (f y) /\ (session_open y = false -> session_open (f y) = false)) ->
  triple t (A t o F) (update_where t (sessions_where p) (of_sess f)) (ok (fun _ => A t o F)).
Proof.
  intros HF Hf. eapply triple_mono; [apply (triple_update_where t o F _ _ (fun _ _ _ => True) HF); [auto with rounds|]|auto|by intros l w _ (H1 & H2 & _)].
  intros w k v Hi Hst _ Hs Hp _. destruct k as [| | |s| |], v as [| | |y| |]; try done. destruct (Hf y) as [Hsame Hcl].
  split_and!; [|done|].
  - intros y0 Hy0. unfold sess_at in Hy0. rewrite Hs in Hy0. by injection Hy0 as <-.
  - intros d Hk. split; [|done]. apply st_put_same; [done..| |done]. split.
    + intros r Hr. etrans; [by apply (seen_grows t o w.1 (KSess s) (RSess y) r)|]. by constructor.
    + apply (one_subject_same y); [done|]. apply (seen_session t o w s); [done..|]. unfold sess_at. by rewrite Hs.
Qed.
Lemma set_completed_triple t o F s b : framed t F -> triple t (A t o F) (set_completed t s b) (ok (fun _ => A t o F)).
Proof.
  intros HF. apply triple_read; [apply (A_stable t o F); auto with rounds|]. intros at_.
  eapply triple_chain; [apply (update_sessions t o F); [done|]|intros l; apply (triple_return t _ (fun _ => A t o F)); auto with rounds].
  intros y. done.
Qed.
Lemma close_sessions_triple t o F p : framed t F -> triple t (A t o F) (close_sessions t p) (ok (fun _ => A t o F)).
Proof.
  intros HF. apply triple_read; [apply (A_stable t o F); auto with rounds|]. intros at_.
  eapply triple_chain; [apply (update_sessions t o F); [done|]|intros l; apply (triple_return t _ (fun _ => A t o F)); auto with rounds].
  intros y. split; [done|]. intros _. unfold session_open. simpl. done.
Qed.

Lemma verdict_fine t n w j b f : sub_at (seen t w) j = Some b -> (forall b, same_submission b (f b)) -> write_fine t (KSub j) (RSub (f b)) n w.
Proof.
  intros Hb Hf. split; [intros b0 Hb0; assert (b0 = b) as -> by congruence; apply Hf|].
  intros s. apply numbered_ext. intros i. unfold attempt_at, sub_at. rewrite seen_put. case_decide as E; [|done]. injection E as ->.
  simpl. unfold sub_at in Hb. rewrite Hb. destruct (Hf b) as (->&_&_&_&_&_&->&_). done.
Qed.
Lemma update_verdicts t o F f p : framed t F -> (forall b, same_submission b (f b) /\ pending (f b) = false) ->
  (forall k v, p k v = true -> exists j b, k = KSub j /\ v = RSub b /\ pending b = true) ->
  forall ks, triple t (A t o F) (take_rows t p (Some (of_sub f)) ks) (ok (fun _ => A t o F)).
Proof.
  intros HF Hf Hp ks. eapply triple_mono; [apply (triple_take_rows t p (Some (of_sub f)) (fun _ _ d => st t o d /\ F d)) with (l := [])|..]; try done.
  - intros _ _ w w' Hk. apply (A_keeps t o F w w'); auto with rounds.
  - intros k _ _ w v Hi [Hst HFw] _ Hs (j & b & -> & -> & Hpend)%Hp. cbn [of_sub]. destruct (Hf b) as [Hsame Hdone].
    assert (Hb : sub_at (seen t w.1) j = Some b) by (unfold sub_at; by rewrite Hs).
    assert (Hk : own_keeps t w.1 (put t (KSub j) (Some (RSub (f b))) (next w.1) w.1)).
    { apply own_put; [lia|]. apply verdict_fine; [done|apply Hf]. }
    split; [|eapply fr_own; [done| |done]; apply put_discreet; [done|left; by eexists|done]]. apply st_put_same; [done..| |done]. split.
    + intros r Hr. etrans; [by apply (seen_grows t o w.1 (KSub j) (RSub b) r)|]. by constructor.
    + intros Hn. rewrite lookup_seen in Hs. destruct (draft t w.1 (KSub j)) as [v|] eqn:Ed; [injection Hs as ->|simpl in Hn; congruence].
      pose proof (draft_ok_own t o _ _ _ _ Hk (st_drafts _ _ _ Hst _ _ Ed)) as [_ Hc]. specialize (Hc Hn). by destruct Hsame as [-> _].
Qed.
Lemma lock_session_triple t o F s : tame t F -> triple t (A t o F) (lock_session t s)
  (ok (fun r => A t o (fun d => F d /\ match r with Some (s', _) => s' = s /\ holds t d (KSess s) | None => True end))).
Proof.
  intros HF. eapply triple_chain; [apply (triple_select t o F _ (fun k _ d => k = KSess s /\ holds t d (KSess s)) HF)|].
  - intros k v. split.
    + intros w w' Hk [-> Hh]. split; [done|]. by apply (ok_holds t w w' Hk).
    + intros d d' Hk _ [-> Hh]. split; [done|]. by apply (ow_holds _ _ _ Hk).
  - intros w k v Hi Hst _ Hs Hp d Hk. destruct k as [| | |s'| |], v; try done. simpl in Hp. apply Pos.eqb_eq in Hp as ->. split; [done|].
    apply holds_put. by left.
  - intros l. eapply triple_mono; [apply (triple_return t (found_sess l) (fun r => A t o (fun d => F d /\ match r with Some (s', _) => s' = s /\ holds t d (KSess s) | None => True end)))|..|done].
    + apply A_stable. apply tame_and; [done|]. destruct (found_sess l) as [[s' y]|]; [|auto with rounds]. split.
      * intros w w' Hk [-> Hh]. split; [done|]. by apply (ok_holds t w w' Hk).
      * intros d d' Hk _ [-> Hh]. split; [done|]. by apply (ow_holds _ _ _ Hk).
    + intros w _ (H1 & H2 & H3). split; [done|]. split; [done|]. destruct (found_sess l) as [[s' y]|] eqn:E; [|done].
      assert (Hin : (KSess s', RSess y) ∈ l).
      { unfold found_sess in E. apply head_Some_elem_of, list_elem_of_omap in E as ([k v] & Hin & E). destruct k, v; try done. by injection E as -> ->. }
      destruct (H3 _ _ Hin) as [[= ->] Hh]. done.
Qed.

(** [get_active_for_update]: the round is the transaction's until the end. *)
Definition round_result (t room : positive) (r : option (uuid * Activation)) (d : Store) : Prop :=
  match r with Some (a, x) => round_locked t d a x /\ ac_room x = room | None => True end.
Lemma lasting_round_result t room r : lasting t (round_result t room r).
Proof.
  destruct r as [[a x]|]; [|apply lasting_true]. apply (lasting_and t _ (fun _ => _)); [auto with rounds|by split].
Qed.
Lemma get_active_triple t o F room : tame t F -> (forall d, F d -> no_rounds t d) -> triple t (A t o F) (get_active_for_update t room)
  (ok (fun r => A t o (fun d => F d /\ round_result t room r d))).
Proof.
  intros HF Hno. set (G := fun (k : Key) (v : Row) (d : Store) => match k, v with KAct a, RAct x => round_locked t d a x /\ ac_room x = room | _, _ => False end).
  eapply triple_chain; [apply (triple_select t o F _ G HF)|].
  - intros k v. destruct k as [a| | | | |], v as [x| | | | |]; unfold G; try by split.
    apply framed_tame, lasting_framed. exact (lasting_round_result t room (Some (a, x))).
  - intros w k v Hi Hst HFw Hs Hp d Hk. destruct k as [a| | | | |], v as [x| | | | |]; try done. simpl in Hp.
    apply andb_prop in Hp as [Hr Ha]. apply Pos.eqb_eq in Hr. unfold G. split; [|done].
    assert (Hd : draft t w.1 (KAct a) = None) by (by apply Hno). split_and!; [apply holds_put; by left| | |done].
    + unfold d. rewrite draft_put. by rewrite decide_True.
    + rewrite lookup_seen, Hd in Hs. unfold act_at. simpl. by rewrite Hs.
  - intros l. eapply triple_mono; [apply (triple_return t (found_act l) (fun r => A t o (fun d => F d /\ round_result t room r d)))|..|done].
    + apply A_stable. apply tame_and; [done|]. apply framed_tame, lasting_framed, lasting_round_result.
    + intros w _ (H1 & H2 & H3). split; [done|]. split; [done|]. destruct (found_act l) as [[a x]|] eqn:E; [|done].
      assert (Hin : (KAct a, RAct x) ∈ l).
      { unfold found_act in E. apply head_Some_elem_of, list_elem_of_omap in E as ([k v] & Hin & E). destruct k, v; try done. by injection E as -> ->. }
      exact (H3 _ _ Hin).
Qed.
Lemma lock_proposal_triple t o F x : tame t F -> triple t (A t o F) (lock_proposal t x)
  (ok (fun r => A t o (fun d => F d /\ match r with Some p => held_proposal t x p d | None => True end))).
Proof.
  intros HF. set (G := fun (k : Key) (v : Row) (d : Store) => match v with RProp p => k = KProp x /\ held_proposal t x p d | _ => True end).
  eapply triple_chain; [apply (triple_select t o F _ G HF)|].
  - intros k v. destruct v as [|p| | | |]; unfold G; try by split. apply (tame_and t (fun _ => _)); [by split|auto with rounds].
  - intros w k v Hi Hst HFw Hs Hp d Hk. destruct k as [|x'| | | |], v as [|p| | | |]; try done. simpl in Hp. apply Pos.eqb_eq in Hp as ->.
    split; [done|]. split; [apply holds_put; by left|]. unfold prop_at, d. rewrite seen_put, decide_True by done. rewrite <-lookup_seen. by rewrite Hs.
  - intros l. eapply triple_mono; [apply (triple_return t (snd <$> found_prop l) (fun r => A t o (fun d => F d /\ match r with Some p => held_proposal t x p d | None => True end)))|..|done].
    + apply A_stable. apply tame_and; [done|]. destruct (snd <$> found_prop l); auto with rounds.
    + intros w _ (H1 & H2 & H3). split; [done|]. split; [done|]. destruct (found_prop l) as [[x' p]|] eqn:E; [|done].
      assert (Hin : (KProp x', RProp p) ∈ l).
      { unfold found_prop in E. apply head_Some_elem_of, list_elem_of_omap in E as ([k v] & Hin & E). destruct k, v; try done. by injection E as -> ->. }
      by destruct (H3 _ _ Hin).
Qed.

(** ** Ballots and decisions *)
Definition undecided_yet (t : positive) (d : Store) : Prop := none_accepted t d /\ no_rounds t d.
Lemma framed_undecided t : framed t (undecided_yet t).
Proof. apply (framed_and t (none_accepted t)); auto with rounds. Qed.
#[export] Hint Resolve framed_undecided lasting_round_result : rounds.

Lemma seen_vote_put t x u c n d k : (forall y v, k <> KVote y v) -> seen t (put t (KVote x u) c n d) !! k = seen t d !! k.
Proof. intros Hk. rewrite seen_put. by rewrite decide_False. Qed.
Definition vote_debt (x : uuid) : debt := mkDebt None None None (Some x).
Lemma st_votes t x d : st t no_debt d -> st t (vote_debt x) d.
Proof. intros [H1 H2 H3]. split; [exact H1|exact H2|]. intros y Hy. destruct (H3 y Hy) as [|]; [done|by right]. Qed.
Lemma st_counted t x d : st t (vote_debt x) d -> in_doubt (seen t d) x -> st t no_debt d.
Proof. intros [H1 H2 H3] Hx. split; [exact H1|exact H2|]. intros y Hy. right. by destruct (H3 y Hy) as [[= <-]|]. Qed.
Lemma in_doubt_ext m m' x : prop_at m' x = prop_at m x -> (forall u, m' !! KVote x u = m !! KVote x u) -> in_doubt m x -> in_doubt m' x.
Proof. intros Hp Hv Hd p. rewrite Hp, (tally_of_ext x m' m) by done. apply Hd. Qed.
(** A ballot, while the proposal is open and nothing is accepted. *)
Lemma cast_triple t x u c p : u ∈ gp_voters p -> is_open p = true ->
  triple t (A t (vote_debt x) (fun d => undecided_yet t d /\ held_proposal t x p d)) (cast t x u c)
    (ok (fun _ => A t (vote_debt x) (fun d => undecided_yet t d /\ known_proposal t x p d))).
Proof.
  intros Hu Ho. apply triple_on_db; [apply A_stable; auto with rounds|intros _; apply A_stable; auto with rounds|].
  intros w [] d Hi (Hst & [Hna Hnr] & Hh & Hp). unfold upsert_row. destruct (free t w.1 (KVote x u)) eqn:Ef; [|done]. intros [= <-].
  set (d := put t (KVote x u) (Some (RVote c)) (next w.1) w.1).
  assert (Hdr : forall k, (forall y v, k <> KVote y v) -> draft t d k = draft t w.1 k).
  { intros k Hk. unfold d. rewrite draft_put. by rewrite decide_False. }
  assert (Hse : forall k, (forall y v, k <> KVote y v) -> seen t d !! k = seen t w.1 !! k) by (intros; by apply seen_vote_put).
  assert (Hho : forall k, holds t w.1 k -> holds t d k) by (intros k Hk; apply holds_put; by right).
  assert (Hrl : forall a z, round_locked t w.1 a z -> round_locked t d a z).
  { intros a z (H1 & H2 & H3). split_and!; [by apply Hho|by rewrite Hdr|apply H3..]. }
  split; [apply step_put; [done| |lia|by apply hold_free]; apply (i_ids _ Hi (KProp x)); right; destruct Hh as [v Hv]; by eexists|].
  split; [|split; [split|]].
  - split; [|intros y y' q q'; rewrite !Hdr by done; apply (st_one _ _ _ Hst)|].
    2: { intros y Hy. destruct (decide (y = x)) as [->|Hne]; [by left|right].
         assert (Hd : forall k, k <> KVote x u -> draft t d k = draft t w.1 k) by (intros k Hk; unfold d; by rewrite draft_put, decide_False).
         apply (in_doubt_ext (seen t w.1)); [unfold prop_at; by rewrite Hse|intros v; change (seen t d !! KVote y v = seen t w.1 !! KVote y v); unfold d; rewrite seen_put, decide_False by congruence; done|].
         destruct (st_doubt _ _ _ Hst y) as [[= ?]|]; [|congruence|done].
         destruct Hy as [Hy|[v Hy]]; rewrite Hd in Hy by congruence; [by left|right; by exists v]. }
    intros k v Hv. change (draft t d k = Some v) in Hv. unfold d in Hv. rewrite draft_put in Hv. case_decide as E.
    + subst k. injection Hv as <-. split.
      { intros r Hr. pose proof (c_tagged _ (i_rows _ Hi) _ _ Hr) as Ht. destruct r; try done. constructor. }
      split; [by apply Hho|]. exists p. unfold prop_at in *. rewrite Hse by done. done.
    + pose proof (st_drafts _ _ _ Hst k v Hv) as [Hg Hc]. split; [done|].
      destruct k as [a|y|y v'|s|j|l], v as [z|q|c'|y'|b|e]; try done.
      * intros Hz. destruct (Hc Hz) as [?|Hro]; [by left|right]. intros y q Hq. unfold prop_at in Hq. rewrite Hse in Hq by done. by apply (Hro y q).
      * destruct Hc as (H1 & H2 & H3). split_and!; [|done|intros Ha; destruct (Hna y); by exists q].
        intros Hn. destruct (H1 Hn) as [Hw [z Hz]]. split; [done|]. exists z. by apply Hrl.
      * destruct Hc as [H1 (q & Hq & Hrest)]. split; [by apply Hho|]. exists q. unfold prop_at. rewrite Hse, Hdr by done. done.
      * intros Hn. destruct (Hc Hn) as (H1 & H2 & ys & z & Hy & Hz & Hgr). split_and!; [|by apply Hho|].
        -- revert H1. apply numbered_ext. intros i. unfold attempt_at, sub_at. by rewrite Hse.
        -- exists ys, z. split_and!; [unfold sess_at; by rewrite Hse|by apply Hrl|]. intros Hgn. destruct (Hgr Hgn) as [?|(y & q & Hy' & Hq)]; [by left|right].
           exists y, q. by rewrite Hdr.
  - intros y (q & Hq & Ha). rewrite Hdr in Hq by done. apply (Hna y). by exists q.
  - intros a. by rewrite Hdr.
  - split; [by apply Hho|]. exists p. unfold prop_at in *. by rewrite Hse.
Qed.

Lemma open_no_submission t o w x q : inv w -> st t o w.1 -> prop_at (seen t w.1) x = Some q -> gp_status q <> P_ACCEPTED -> gp_submission q = None.
Proof.
  intros Hi Hst Hq Hn. unfold prop_at in Hq. rewrite lookup_seen in Hq. destruct (draft t w.1 (KProp x)) as [v|] eqn:E.
  - pose proof (st_drafts _ _ _ Hst _ _ E) as [_ Hc]. apply as_prop_Some in Hq. injection Hq as ->. by apply Hc.
  - by apply (c_prop _ (i_rows _ Hi) x q).
Qed.
Lemma is_open_status q : is_open q = true <-> gp_status q = P_OPEN.
Proof. unfold is_open. by rewrite bool_decide_eq_true. Qed.
(** An open proposal that is decided, one way or another. *)
Section decision.
Context (t : positive) (o : debt) (w : World) (x : uuid) (q q' : GroupProposal) (Hi : inv w) (Hst : st t o w.1)
  (Hq : seen t w.1 !! KProp x = Some (RProp q)) (Ho : is_open q = true) (Ho' : is_open q' = false) (Hs : same_proposal q q').
Let d := put t (KProp x) (Some (RProp q')) (next w.1) w.1.
Lemma decision_fine : write_fine t (KProp x) (RProp q') (next w.1) w.1.
Proof. exists q. split; [|done]. unfold prop_at. by rewrite Hq. Qed.
Lemma decision_keeps : own_keeps t w.1 d.
Proof. apply own_put; [lia|]. apply decision_fine. Qed.
Lemma decision_draft o' : (gp_status q' <> P_ACCEPTED -> gp_submission q' = None) ->
  (gp_status q' = P_ACCEPTED -> gp_required q' <= (tally_of x (seen t d)).1 /\ d_prop o' = Some x /\ gp_submission q' = None) ->
  draft_ok t o' d (KProp x) (RProp q').
Proof.
  intros Hna Ha. split.
  - intros r Hr. etrans; [by apply (seen_grows t o w.1 (KProp x) (RProp q) r)|]. by constructor.
  - split_and!; [|done|].
    + intros Hn. change (rows w.1 !! KProp x = None) in Hn. pose proof Hq as Hv. rewrite lookup_seen in Hv.
      destruct (draft t w.1 (KProp x)) as [v|] eqn:Ed; [injection Hv as ->|congruence].
      pose proof (st_drafts _ _ _ Hst _ _ Ed) as [_ (H1 & _)]. destruct (H1 Hn) as [Hw [z Hz]]. destruct Hs as (_&E2&_&_&E5&_&E7&E8).
      split; [unfold well_formed in *; by rewrite E5, E7, E8|]. exists z. rewrite E2. apply (own_round t w.1); [apply decision_keeps|done].
    + intros Hacc. destruct (Ha Hacc) as (H1 & H2 & H3). split; [done|]. by left.
Qed.
Lemma decision_doubts : (forall y, d_vote o = Some y -> y = x) -> forall y, in_doubt (seen t d) y.
Proof.
  intros Hv y. destruct (decide (y = x)) as [->|Hn].
  - intros p. unfold prop_at, d. rewrite seen_put, decide_True by done. intros [= <-]. congruence.
  - destruct (own_doubts t o w d Hi Hst decision_keeps y) as [He|]; [by apply Hv in He|done].
Qed.
End decision.
Lemma update_decisions t o F f p : framed t F -> (forall q, same_proposal q (f q) /\ is_open (f q) = false /\ gp_status (f q) <> P_ACCEPTED) ->
  (forall q, gp_submission q = None -> gp_submission (f q) = None) ->
  (forall k v, p k v = true -> exists x q, k = KProp x /\ v = RProp q /\ is_open q = true) ->
  forall ks, triple t (A t o F) (take_rows t p (Some (of_prop f)) ks) (ok (fun _ => A t o F)).
Proof.
  intros HF Hf Hsub Hp ks. eapply triple_mono; [apply (triple_take_rows t p (Some (of_prop f)) (fun _ _ d => st t o d /\ F d)) with (l := [])|..]; try done.
  - intros _ _ w w' Hk. apply (A_keeps t o F w w'); auto with rounds.
  - intros k _ _ w v Hi [Hst HFw] _ Hs (x & q & -> & -> & Ho)%Hp. cbn [of_prop]. destruct (Hf q) as (Hsame & Hdone & Hna).
    assert (Hk := decision_keeps t w x q (f q) Hs Ho Hdone Hsame).
    split; [|eapply fr_own; [done| |done]; apply put_discreet; [done|left; by eexists|]; intros y p0 [= <-] _ Hacc; by destruct Hna].
    apply st_put_same; [done..| |intros y p0 _ [= <-]; done]. apply (decision_draft t o w x q (f q)); [done..| |done].
    intros _. apply Hsub. apply (open_no_submission t o w x); [done..|unfold prop_at; by rewrite Hs|]. apply is_open_status in Ho. by rewrite Ho.
Qed.
Lemma resolve_triple t o F x status : framed t F -> status <> P_OPEN -> status <> P_ACCEPTED ->
  triple t (A t o F) (resolve t x status) (ok (fun _ => A t o F)).
Proof.
  intros HF H1 H2. apply triple_read; [apply (A_stable t o F); auto with rounds|]. intros at_.
  eapply triple_chain; [apply triple_read; [apply (A_stable t o F); auto with rounds|]; intros ks; apply (update_decisions t o F); [done|..]|].
  - intros q. split_and!; [done|by apply bool_decide_eq_false|done].
  - done.
  - intros k v Hp. destruct k as [|y| | | |], v as [|q| | | |]; try done. simpl in Hp. apply andb_prop in Hp as [_ Ho]. by exists y, q.
  - intros l. apply (triple_return t _ (fun _ => A t o F)). auto with rounds.
Qed.

(** Accepting: a debt until the submission is attached. *)
Definition debt_of (x : uuid) : debt := mkDebt None (Some x) None None.
Lemma debt_more t z o' d k v : d_end o' = None -> draft_ok t (vote_debt z) d k v -> draft_ok t o' d k v.
Proof.
  intros He [Hg Hc]. split; [done|]. destruct k as [a|x|x u|s|j|l], v as [r|p|c|y|b|e]; try done.
  - intros Hz. destruct (Hc Hz) as [?|?]; [done|by right].
  - destruct Hc as (H1 & H2 & H3). split_and!; [done..|]. intros Ha. destruct (H3 Ha) as [Ht [[? _]|Hs]]; [done|]. split; [done|by right].
  - intros Hn. destruct (Hc Hn) as (H1 & H2 & y & r & Hy & Hz & Hgr). split_and!; [done..|]. exists y, r. split_and!; [done..|].
    intros Hgn. destruct (Hgr Hgn) as [?|?]; [done|by right].
Qed.
Definition ready_to_accept (t : positive) (x : uuid) (p : GroupProposal) (d : Store) : Prop :=
  known_proposal t x p d /\ supported t x (gp_required p) d.
Lemma lasting_ready t x p : lasting t (ready_to_accept t x p).
Proof. apply (lasting_and t (known_proposal t x p)); auto with rounds. Qed.
#[export] Hint Resolve lasting_ready : rounds.
(** The proposal, if it is open still, is among the rows to look at. *)
Definition looking (t : positive) (x : uuid) (ks : list Key) (d : Store) : Prop :=
  holds t d (KProp x) /\ forall q, prop_at (seen t d) x = Some q -> is_open q = true -> KProp x ∈ ks.
Lemma looking_others t x ks w w' : others_keep t w w' -> looking t x ks w.1 -> looking t x ks w'.1.
Proof. intros Hk [Hh Hl]. split; [by apply (ok_holds t w w' Hk)|]. intros q. rewrite (ok_seen_prop t w w' Hk) by done. apply Hl. Qed.
Lemma looking_start t x p d : holds t d (KProp x) -> (forall q, p (KProp x) (RProp q) = is_open q) -> looking t x (matching t p d) d.
Proof. intros Hh Hp. split; [done|]. intros q Hq Ho. apply elem_of_matching. exists (RProp q). split; [by apply as_prop_Some|by rewrite Hp]. Qed.
Lemma looking_skip t x p k ks d : (forall q, p (KProp x) (RProp q) = is_open q) -> (forall v, seen t d !! k = Some v -> p k v = false) ->
  looking t x (k :: ks) d -> looking t x ks d.
Proof.
  intros Hp Hsk [Hh Hl]. split; [done|]. intros q Hq Ho. pose proof (Hl q Hq Ho) as Hin. apply elem_of_cons in Hin as [<-|Hin]; [exfalso|done].
  apply as_prop_Some in Hq. specialize (Hsk _ Hq). rewrite Hp in Hsk. congruence.
Qed.
Lemma looked t x d : st t (vote_debt x) d -> looking t x [] d -> st t no_debt d.
Proof. intros Hst [_ Hl]. apply (st_counted t x); [done|]. intros q Hq Ho. by apply (Hl q Hq), not_elem_of_nil in Ho. Qed.
Definition is_proposal (x : uuid) : Key -> Row -> bool := props_where (fun a p => Pos.eqb a x && is_open p).
Lemma is_proposal_open x q : is_proposal x (KProp x) (RProp q) = is_open q.
Proof. simpl. by rewrite Pos.eqb_refl. Qed.
Lemma is_proposal_spec x k v : is_proposal x k v = true -> exists q, k = KProp x /\ v = RProp q /\ is_open q = true.
Proof. destruct k as [|y| | | |], v as [|q| | | |]; try done. simpl. intros [Hx Ho]%andb_prop. apply Pos.eqb_eq in Hx as ->. by exists q. Qed.

(** Giving up a proposal settles its ballots. *)
Lemma reject_triple t x status : status <> P_OPEN -> status <> P_ACCEPTED ->
  triple t (A t (vote_debt x) (fun d => holds t d (KProp x))) (resolve t x status) (ok (fun _ => A t no_debt (fun _ => True))).
Proof.
  intros H1 H2. assert (Hh : tame t (fun d => holds t d (KProp x))) by auto with rounds.
  apply (triple_read t (fun d => st t (vote_debt x) d /\ holds t d (KProp x))); [by apply (A_stable t (vote_debt x) (fun d => holds t d (KProp x)))|]. intros at_.
  set (I := fun (ks : list Key) (l : list (Key * Row)) d => if bool_decide (l = []) then st t (vote_debt x) d /\ looking t x ks d else st t no_debt d).
  assert (HI : forall ks l w w', others_keep t w w' -> I ks l w.1 -> I ks l w'.1).
  { intros ks l w w' Hk. unfold I. case_bool_decide; [|by apply st_stable]. intros [H3 H4]. split; [by apply (st_stable t w w')|by apply (looking_others t x ks w w')]. }
  eapply triple_chain with (R := fun l => on_rows (I [] l)).
  - eapply triple_chain with (R := fun ks => on_rows (I ks [])).
    + apply triple_get_ok; [by apply (A_stable t (vote_debt x) (fun d => holds t d (KProp x)))|intros ks w w' Hk _; by apply (HI ks [] w w')|].
      intros w Hi [Hst Hhw]. split; [done|]. by apply looking_start; [|apply is_proposal_open].
    + intros ks. apply (triple_take_rows t (is_proposal x) (Some (of_prop (resolved status at_))) I HI) with (l := []).
      * intros k ks' l w v Hi HIw _ Hs (q & -> & -> & Ho)%is_proposal_spec. cbn [of_prop]. set (q' := resolved status at_ q).
        assert (Hst : st t (vote_debt x) w.1) by (revert HIw; unfold I; case_bool_decide; [by intros [Hv _]|apply st_votes]).
        assert (Hc : is_open q' = false) by (by apply bool_decide_eq_false).
        assert (Hk := decision_keeps t w x q q' Hs Ho Hc ltac:(done)). unfold I. rewrite bool_decide_false by (by destruct l).
        eapply (st_put t (vote_debt x) no_debt w.1 _ (KProp x) (RProp q')); [done|done|by rewrite draft_put, decide_True|..].
        -- intros k Hn. by rewrite draft_put, decide_False.
        -- by apply (decision_draft t (vote_debt x) w x q q').
        -- done.
        -- by intros y p0 _ [= <-] Ha.
        -- intros y. right. apply (decision_doubts t (vote_debt x) w x q q'); [done..|]. by intros z [= ->].
      * intros k ks' l w Hi. unfold I. case_bool_decide; [|done]. intros [Hst Hl] Hsk. split; [done|]. by apply (looking_skip t x (is_proposal x) k); [apply is_proposal_open|..].
  - intros l. eapply triple_mono; [apply (triple_return t _ (fun _ => A t no_debt (fun _ => True)))|..|done]; [auto with rounds|].
    intros w _. unfold on_rows, I. case_bool_decide; [|by split]. intros [Hst Hl]. split; [by apply (looked t x)|done].
Qed.
Definition accepting (t : positive) (x : uuid) (p : GroupProposal) (F : Store -> Prop) (ks : list Key) (l : list (Key * Row)) (d : Store) : Prop :=
  if bool_decide (l = []) then (st t (vote_debt x) d /\ F d /\ none_accepted t d) /\ looking t x ks d else st t (debt_of x) d /\ F d /\ unattached t x p d.
Lemma accepting_keeps t x p F ks l w w' : tame t F -> others_keep t w w' -> accepting t x p F ks l w.1 -> accepting t x p F ks l w'.1.
Proof.
  intros HF Hk. unfold accepting. case_bool_decide.
  - intros [H1 H2]. split; [|by apply (looking_others t x ks w w')]. apply (A_keeps t (vote_debt x) (fun d => F d /\ none_accepted t d) w w'); auto with rounds.
  - apply (A_keeps t (debt_of x) (fun d => F d /\ unattached t x p d) w w'); auto with rounds.
Qed.
Lemma accept_triple t F x p : lasting t F ->
  triple t (A t (vote_debt x) (fun d => (F d /\ ready_to_accept t x p d) /\ none_accepted t d)) (resolve t x P_ACCEPTED)
    (ok (fun moved : bool => if moved then A t (debt_of x) (fun d => (F d /\ ready_to_accept t x p d) /\ unattached t x p d) else A t no_debt (fun _ => True))).
Proof.
  intros HF. set (G := fun d => F d /\ ready_to_accept t x p d).
  assert (HG : lasting t G) by (apply (lasting_and t F); auto with rounds).
  assert (Hpre : stable t (on_rows (fun d => st t (vote_debt x) d /\ G d /\ none_accepted t d))).
  { apply (A_stable t (vote_debt x) (fun d => G d /\ none_accepted t d)); auto with rounds. }
  apply (triple_read t (fun d => st t (vote_debt x) d /\ G d /\ none_accepted t d)); [done|]. intros at_.
  assert (HI : forall ks l w w', others_keep t w w' -> accepting t x p G ks l w.1 -> accepting t x p G ks l w'.1).
  { intros ks l w w' Hk. apply accepting_keeps; auto with rounds. }
  eapply triple_chain with (R := fun l => on_rows (accepting t x p G [] l)).
  - eapply triple_chain with (R := fun ks => on_rows (accepting t x p G ks [])).
    + apply triple_get_ok; [done|intros ks w w' Hk _; by apply (HI ks [] w w')|]. intros w Hi (Hst & HGw & Hna). split; [done|].
      apply looking_start; [apply HGw|apply is_proposal_open].
    + intros ks. apply (triple_take_rows t (is_proposal x) (Some (of_prop (resolved P_ACCEPTED at_))) (accepting t x p G) HI) with (l := []).
      * intros k ks' l w v Hi Hacc _ Hs (q & -> & -> & Ho)%is_proposal_spec. cbn [of_prop]. revert Hacc. unfold accepting.
        rewrite (bool_decide_false (l ++ _ = [])) by (by destruct l). case_bool_decide as El.
        -- intros ((Hst & HGw & Hna) & _). set (q' := resolved P_ACCEPTED at_ q).
           assert (Hk := decision_keeps t w x q q' Hs Ho eq_refl ltac:(done)).
           destruct HGw as [HFw [[Hh (q0 & Hq0 & Hsame)] Hsup]]. pose proof Hq0 as Hq1. unfold prop_at in Hq1. rewrite Hs in Hq1. injection Hq1 as <-.
           split_and!.
           ++ eapply (st_put t (vote_debt x) (debt_of x) w.1 _ (KProp x) (RProp q')); [done|done|by rewrite draft_put, decide_True|..].
              ** intros k Hn. by rewrite draft_put, decide_False.
              ** apply (decision_draft t (vote_debt x) w x q q'); [done..|]. intros _. split_and!; [|done..].
                 rewrite (own_tally t w.1) by done. destruct Hsup as [_ Hsup]. destruct Hsame as (_&_&_&_&_&_&_&E8). change (gp_required q') with (gp_required q). by rewrite E8.
              ** intros k v' _ _. by apply debt_more.
              ** intros y p1 _ _ _ y' p2 _ Hy' Ha. apply (Hna y'). by exists p2.
              ** intros y. right. apply (decision_doubts t (vote_debt x) w x q q'); [done..|]. by intros z [= ->].
           ++ apply (la_own _ _ HG w.1); [done|]. split; [done|]. split; [|done]. split; [done|]. by exists q.
           ++ exists q'. split_and!; [by rewrite draft_put, decide_True|done..].
        -- intros (_ & _ & (q1 & Hq1 & Ha1 & _)). rewrite lookup_seen, Hq1 in Hs. injection Hs as ->. apply is_open_status in Ho. congruence.
      * intros k ks' l w Hi. unfold accepting. case_bool_decide; [|done]. intros [Hst Hl] Hsk. split; [done|]. by apply (looking_skip t x (is_proposal x) k); [apply is_proposal_open|..].
  - intros l. eapply triple_pre; [apply (triple_return t _ (fun moved : bool => if moved then A t (debt_of x) (fun d => G d /\ unattached t x p d) else A t no_debt (fun _ => True)))|].
    + destruct (negb _); apply A_stable; auto with rounds.
    + intros w. unfold on_rows, accepting. case_bool_decide; [|done]. intros [(Hst & _) Hl]. split; [by apply (looked t x)|done].
Qed.
Definition with_debt (x i : uuid) : debt := mkDebt None (Some x) (Some i) None.
(** The submission of the accepted proposal: nothing is left to do. *)
Lemma unattached_open t w o x q : inv w -> st t o w.1 -> d_prop o = None -> prop_at (seen t w.1) x = Some q -> gp_status q = P_ACCEPTED ->
  gp_submission q <> None.
Proof.
  intros Hi Hst Ho Hq Ha Hn. pose proof Hq as Hc. apply as_prop_Some in Hc. apply (own_cases t w o Hst) in Hc as [[_ (_ & _ & _ & Hacc)]|[_ Hm]].
  - destruct (Hacc Ha) as [_ [[? _]|(i & b & Hi' & _)]]; congruence.
  - apply as_prop_Some in Hm. destruct (c_prop _ (i_rows _ Hi) _ _ Hm) as (_ & _ & _ & Hacc). destruct (Hacc Ha) as (_ & i & Hs & _). congruence.
Qed.
Section attach.
Context (t : positive) (w : World) (x i s : uuid) (p q : GroupProposal) (Hi : inv w) (Hst : st t (with_debt x i) w.1)
  (Hq : draft t w.1 (KProp x) = Some (RProp q)) (Ha : gp_status q = P_ACCEPTED) (Hn : gp_submission q = None) (Hs : same_proposal p q)
  (Hy : known_session t s (Some (gp_group p)) (gp_activation p) w.1) (Hm : made t i s (gp_payload p) (gp_proposer p) w.1).
Let q' := with_submission i q.
Let d := put t (KProp x) (Some (RProp q')) (next w.1) w.1.
Let draft_d k : k <> KProp x -> draft t d k = draft t w.1 k.
Proof. intros Hk. unfold d. by rewrite draft_put, decide_False. Qed.
Let draft_x : draft t d (KProp x) = Some (RProp q').
Proof. unfold d. by rewrite draft_put, decide_True. Qed.
Let seen_d k : k <> KProp x -> seen t d !! k = seen t w.1 !! k.
Proof. intros Hk. unfold d. by rewrite seen_put, decide_False. Qed.
Let holds_d k : holds t w.1 k -> holds t d k.
Proof. intros Hk. apply holds_put. by right. Qed.
Let round_d a z : round_locked t w.1 a z -> round_locked t d a z.
Proof. intros (H1 & H2 & H3). split_and!; [by apply holds_d|by rewrite draft_d|apply H3..]. Qed.
Let prop_d y r : prop_at (seen t w.1) y = Some r -> exists r', prop_at (seen t d) y = Some r' /\ same_proposal r r' /\ is_open r' = is_open r.
Proof.
  intros Hr. destruct (decide (y = x)) as [->|Hne]; [|exists r; unfold prop_at; rewrite seen_d by congruence; done].
  assert (r = q) as -> by (unfold prop_at in Hr; rewrite lookup_seen, Hq in Hr; simpl in Hr; congruence).
  exists q'. unfold prop_at. rewrite lookup_seen, draft_x. done.
Qed.
Lemma attach_submission_of : exists b, rows d !! KSub i = None /\ draft t d (KSub i) = Some (RSub b) /\ submission_of (seen t d) q' i.
Proof.
  destruct Hm as (Hnew & b & Hb & E1 & E2 & E3). destruct Hy as (y & Hy' & G1 & G2). destruct Hs as (_&S2&_&S4&S5&S6&_).
  exists b. split_and!; [done|by rewrite draft_d|]. exists b, y. unfold sub_at, sess_at in *. rewrite lookup_seen, draft_d, Hb, E1, seen_d by done.
  split_and!; [done|done|rewrite G1; by f_equal; symmetry|rewrite G2; by symmetry|rewrite E2; by symmetry|rewrite E3; by symmetry].
Qed.
Lemma attach_draft : draft_ok t no_debt d (KProp x) (RProp q').
Proof.
  pose proof (st_drafts _ _ _ Hst _ _ Hq) as [Hg (H1 & _ & H3)]. split.
  - intros r Hr. pose proof (Hg _ Hr) as Hg'. inversion Hg' as [| |p0 q0 Hsame Ho Hc| | |]; subst.
    + destruct (c_prop _ (i_rows _ Hi) x q) as (_ & _ & _ & Hacc); [by apply as_prop_Some|]. destruct (Hacc Ha) as (_ & j & Hj & _). congruence.
    + by constructor.
  - split_and!; [intros Hr; destruct (H1 Hr) as [Hw [z Hz]]; split; [done|exists z; by apply round_d]|done|]. intros _.
    destruct (H3 Ha) as [Ht _]. split; [|right; destruct attach_submission_of as (b & Hb); by exists i, b].
    rewrite (tally_of_ext x (seen t d) (seen t w.1)); [done|]. intros u. by apply seen_d.
Qed.
Lemma attach_st : st t no_debt d.
Proof.
  split; [|intros y y' r r' Hy1 Hy2 A1 A2|].
  3: { intros y _. right. destruct (decide (y = x)) as [->|Hne].
       - intros r. unfold prop_at. rewrite lookup_seen, draft_x. intros [= <-] Ho. apply is_open_status in Ho. change (gp_status q = P_OPEN) in Ho. congruence.
       - apply (in_doubt_ext (seen t w.1)); [unfold prop_at; by rewrite seen_d by congruence|intros u; by apply seen_d|].
         by destruct (doubt_any t w Hi (with_debt x i) Hst y). }
  - intros k v Hv. destruct (decide (k = KProp x)) as [->|Hk]; [rewrite draft_x in Hv; injection Hv as <-; apply attach_draft|].
    rewrite draft_d in Hv by done. pose proof (st_drafts _ _ _ Hst k v Hv) as [Hg Hc]. split; [done|].
    destruct k as [a|y|y v'|s'|j|l], v as [z|r|c'|y'|b|e]; try done.
    + intros Hz. destruct (Hc Hz) as [?|Hro]; [done|right]. intros y r Hr Hra. destruct (prop_at (seen t w.1) y) as [r0|] eqn:E0.
      * destruct (prop_d y r0 E0) as (r1 & Hr1 & (_&E2&_) & Ho). assert (r1 = r) as -> by congruence. rewrite Ho. apply (Hro y r0 E0). congruence.
      * destruct (decide (y = x)) as [->|Hne]; [unfold prop_at in E0; by rewrite lookup_seen, Hq in E0|].
        unfold prop_at in Hr, E0. rewrite seen_d in Hr by congruence. congruence.
    + destruct Hc as (H1 & H2 & H3). split_and!; [intros Hr; destruct (H1 Hr) as [Hw [z Hz]]; split; [done|exists z; by apply round_d]|done|].
      intros Ha'. destruct Hk. f_equal. by apply (st_one _ _ _ Hst y x r q).
    + destruct Hc as [H1 (r & Hr & Hu & Ho)]. split; [by apply holds_d|]. destruct (prop_d y r Hr) as (r' & Hr' & (_&_&_&_&_&_&E7&_) & Hoo).
      exists r'. rewrite E7, Hoo. split_and!; [done..|]. destruct (decide (y = x)) as [->|Hne]; [by rewrite draft_x|]. by rewrite draft_d by congruence.
    + intros Hr. destruct (Hc Hr) as (H1 & H2 & ys & z & Hys & Hz & Hgr). split_and!; [|by apply holds_d|].
      * revert H1. apply numbered_ext. intros i0. unfold attempt_at, sub_at. by rewrite seen_d.
      * exists ys, z. split_and!; [unfold sess_at; by rewrite seen_d|by apply round_d|]. intros Hgn. right.
        destruct (Hgr Hgn) as [[= <-]|(y & r & Hy' & Hd1 & Hd2)]; [exists x, q'; split; [by apply draft_x|done]|].
        assert (y = x) as -> by (by apply (st_one _ _ _ Hst y x r q)). assert (r = q) as -> by congruence. congruence.
  - assert (Hacc : forall y r, draft t d (KProp y) = Some (RProp r) -> gp_status r = P_ACCEPTED -> y = x); [|by rewrite (Hacc y r), (Hacc y' r')].
    intros y0 r0 Hr0 Ha0. destruct (decide (y0 = x)) as [|Hne]; [done|]. rewrite draft_d in Hr0 by congruence. by apply (st_one _ _ _ Hst y0 x r0 q).
Qed.
End attach.
Lemma attach_triple t x i p s : 
  triple t (A t (with_debt x i) (fun d => (unattached t x p d /\ known_session t s (Some (gp_group p)) (gp_activation p) d) /\
              made t i s (gp_payload p) (gp_proposer p) d /\ supported t x (gp_required p) d))
    (attach_submission t x i) (ok (fun _ => A t no_debt (fun _ => True))).
Proof.
  set (F := fun d => (unattached t x p d /\ known_session t s (Some (gp_group p)) (gp_activation p) d) /\
              made t i s (gp_payload p) (gp_proposer p) d /\ supported t x (gp_required p) d).
  assert (HF : lasting t F) by (apply (lasting_and t (fun d => _ /\ _)); [apply (lasting_and t (unattached t x p))|apply (lasting_and t (made t i s (gp_payload p) (gp_proposer p)))]; auto with rounds).
  set (I := fun (ks : list Key) (l : list (Key * Row)) d => if bool_decide (l = []) then KProp x ∈ ks /\ st t (with_debt x i) d /\ F d else st t no_debt d).
  assert (HI : forall ks l w w', others_keep t w w' -> I ks l w.1 -> I ks l w'.1).
  { intros ks l w w' Hk. unfold I. case_bool_decide; [|by apply st_stable].
    intros (H1 & H2). split; [done|]. by apply (A_keeps t (with_debt x i) F w w'); auto with rounds. }
  eapply triple_chain with (R := fun l => on_rows (I [] l)).
  - eapply triple_chain with (R := fun ks => on_rows (I ks [])).
    + apply triple_get_ok; [apply (A_stable t (with_debt x i) F); auto with rounds|intros ks w w' Hk _; by apply HI|].
      intros w Hi [Hst HFw]. unfold on_rows, I. rewrite bool_decide_true by done. split; [|done]. apply elem_of_matching.
      destruct HFw as [[(q & Hq & Ha & Hn & _) _] _]. exists (RProp q). rewrite lookup_seen, Hq. split; [done|]. simpl. by rewrite Pos.eqb_refl, Ha, Hn.
    + intros ks. apply (triple_take_rows t _ (Some (of_prop (with_submission i))) I HI) with (l := []).
      * intros k ks' l w v Hi HIw _ Hs Hp. destruct k as [|y| | | |], v as [|q| | | |]; try done. cbn [props_where] in Hp.
        apply andb_prop in Hp as [[Hx Ha]%andb_prop Hn]. apply Pos.eqb_eq in Hx as ->. apply bool_decide_eq_true in Ha.
        destruct (gp_submission q) as [|] eqn:Es; [done|]. cbn [of_prop]. revert HIw. unfold I. rewrite (bool_decide_false (l ++ _ = [])) by (by destruct l).
        case_bool_decide as El.
        -- intros (_ & Hst & [[(q0 & Hq0 & _ & _ & Hsame) (y & Hy & Hyg & Hya)] [(Hn' & b & Hb & Hbs & Hbp & Hbu) [Hh Hsup]]]).
           assert (q0 = q) as -> by (rewrite lookup_seen, Hq0 in Hs; congruence).
           apply (attach_st t w x i s p q); [done..|by exists y|]. split; [done|]. by exists b.
        -- intros Hst. exfalso. apply (unattached_open t w no_debt x q); [done..|by unfold prop_at; rewrite Hs|done|done].
      * intros k ks' l w Hi. unfold I. case_bool_decide; [|done]. intros (Hin & Hst & HFw) Hsk. split; [|done].
        apply elem_of_cons in Hin as [<-|Hin]; [exfalso|done]. destruct HFw as [[(q & Hq & Ha & Hn & _) _] _].
        specialize (Hsk (RProp q)). rewrite lookup_seen, Hq in Hsk. specialize (Hsk eq_refl). simpl in Hsk. by rewrite Pos.eqb_refl, Ha, Hn in Hsk.
  - intros l. eapply triple_mono; [apply (triple_return t _ (fun _ => A t no_debt (fun _ => True)))|..|done]; [auto with rounds|].
    intros w _. unfold on_rows, I. case_bool_decide; [|by split]. intros [Hin _]. by apply not_elem_of_nil in Hin.
Qed.

(** ** Recording a submission *)
Lemma elem_of_attempts s m n : n ∈ attempts s m <-> exists i, attempt_at m s i = Some n.
Proof.
  unfold attempts, attempt_at, sub_at. rewrite list_elem_of_omap. split.
  - intros ([k r] & Hin & He). apply elem_of_map_to_list in Hin. destruct k as [| | | |i|], r as [| | | |b|]; try done. exists i. by rewrite Hin.
  - intros [i Hi]. destruct (m !! KSub i) as [[| | | |b|]|] eqn:E; try done. exists (KSub i, RSub b). split; [by apply elem_of_map_to_list|done].
Qed.
Lemma max_of_spec l n : n ∈ l -> n <= foldr Z.max 0 l.
Proof. induction l as [|m l IH]; [by intros ?%not_elem_of_nil|]. intros [->|Hin]%elem_of_cons; simpl; [lia|]. specialize (IH Hin). lia. Qed.
Lemma max_of_in l : foldr Z.max 0 l = 0 \/ foldr Z.max 0 l ∈ l.
Proof.
  induction l as [|m l IH]; [by left|]. simpl. destruct (Z.max_spec m (foldr Z.max 0 l)) as [[_ ->]|[_ ->]]; [|right; apply list_elem_of_here].
  destruct IH as [->|IH]; [by left|right; by apply list_elem_of_further].
Qed.
(** The numbers a session's attempts have, one short of [n]. *)
Definition used_up (m : gmap Key Row) (s : uuid) (n : Z) : Prop := 1 <= n /\ forall k, (exists i, attempt_at m s i = Some k) <-> 1 <= k < n.
Lemma next_attempt_spec m s : numbered m s -> used_up m s (foldr Z.max 0 (attempts s m) + 1).
Proof.
  intros [_ (top & Htop & Hall)]. assert (Hm : foldr Z.max 0 (attempts s m) = top).
  { destruct (max_of_in (attempts s m)) as [E|E].
    - rewrite E. destruct (Z.eq_dec top 0) as [|Hn]; [done|]. assert (Ht : top ∈ attempts s m) by (apply elem_of_attempts, Hall; lia).
      apply max_of_spec in Ht. lia.
    - pose proof E as E'. apply elem_of_attempts, Hall in E'. destruct (Z.eq_dec top 0) as [|Hn]; [lia|].
      assert (Ht : top ∈ attempts s m) by (apply elem_of_attempts, Hall; lia). apply max_of_spec in Ht. lia. }
  rewrite Hm. split; [lia|]. intros k. rewrite Hall. lia.
Qed.
Lemma numbered_put t j b n d s : sub_at (seen t d) j = None -> used_up (seen t d) (su_session b) (su_attempt b) -> numbered (seen t d) s ->
  numbered (seen t (put t (KSub j) (Some (RSub b)) n d)) s.
Proof.
  intros Hj [H1 Hup] Hnum. set (d' := put _ _ _ _ _).
  assert (He : forall i, attempt_at (seen t d') s i = if decide (i = j) then if Pos.eqb (su_session b) s then Some (su_attempt b) else None else attempt_at (seen t d) s i).
  { intros i. unfold attempt_at, sub_at, d'. rewrite seen_put. destruct (decide (i = j)) as [->|Hn]; [by rewrite decide_True|by rewrite decide_False by congruence]. }
  assert (Hj' : attempt_at (seen t d) s j = None) by (unfold attempt_at; by rewrite Hj).
  destruct (Pos.eqb_spec (su_session b) s) as [<-|Hne].
  - destruct Hnum as [Hone _]. split.
    + intros i i' k. rewrite !He. repeat case_decide; subst; [done|intros [= <-] Hk|intros Hk [= <-]|apply Hone];
        (assert (exists i, attempt_at (seen t d) (su_session b) i = Some (su_attempt b)) as Hx%Hup by eauto; lia).
    + exists (su_attempt b). split; [lia|]. intros k. split.
      * intros [i Hi]. rewrite He in Hi. case_decide; [injection Hi as <-; lia|]. assert (1 <= k < su_attempt b) by (apply Hup; eauto). lia.
      * intros Hk. destruct (Z.eq_dec k (su_attempt b)) as [->|Hnk]; [exists j; rewrite He; by case_decide|].
        destruct (proj2 (Hup k)) as [i Hi]; [lia|]. exists i. rewrite He. case_decide; [|done]. subst. congruence.
  - revert Hnum. apply numbered_ext. intros i. rewrite He. case_decide; [by subst|done].
Qed.
Definition sub_debt (g : option uuid) (o : debt) (i : uuid) : debt := if absent g then o else mkDebt (d_end o) (d_prop o) (Some i) (d_vote o).
Lemma debt_sub t g o d (i : uuid) k v : d_sub o = None -> draft_ok t o d k v -> draft_ok t (sub_debt g o i) d k v.
Proof.
  intros Ho. destruct g as [g|]; [|done]. intros [Hg Hc]. split; [done|]. destruct k as [a|x|x u|s|j|l], v as [z|q|c|y|b|e]; try done.
  intros Hn. destruct (Hc Hn) as (H1 & H2 & y & z & Hy & Hz & Hgr). split_and!; [done..|]. exists y, z. split_and!; [done..|].
  intros Hgn. destruct (Hgr Hgn) as [?|?]; [congruence|by right].
Qed.

Lemma sub_fresh t w j : inv w -> rows w.1 !! KSub j = None -> draft t w.1 (KSub j) = None -> sub_at (seen t w.1) j = None.
Proof. intros _ Hr Hd. unfold sub_at. by rewrite lookup_seen, Hd, Hr. Qed.
Lemma lasting_subject t s g a z : lasting t (fun d => known_session t s g a d /\ round_locked t d a z).
Proof. apply (lasting_and t (known_session t s g a)); auto with rounds. Qed.
Lemma used_up_others t w w' s n : others_keep t w w' -> holds t w.1 (KSess s) -> used_up (seen t w.1) s n -> used_up (seen t w'.1) s n.
Proof.
  intros Hk Hh [H1 H2]. split; [done|]. intros k. rewrite <-H2. split; intros [i Hi]; exists i; [rewrite <-(ok_attempt t w w' Hk)|rewrite (ok_attempt t w w' Hk)]; done.
Qed.
Definition numbering (t : positive) (s : uuid) (n : Z) (d : Store) : Prop := holds t d (KSess s) /\ used_up (seen t d) s n.
Lemma numbering_stable t o F s n : tame t F -> stable t (A t o (fun d => F d /\ numbering t s n d)).
Proof.
  intros HF w w' Hk _ (H1 & H2 & H3 & H4). split; [by apply (st_stable t w w')|]. split; [by apply (ta_others _ _ HF w w')|].
  split; [by apply (ok_holds t w w' Hk)|]. by apply (used_up_others t w w').
Qed.
Lemma insert_submission t o F s g a z b : d_sub o = None -> lasting t F -> su_session b = s ->
  triple t (A t o (fun d => (F d /\ known_session t s g a d /\ round_locked t d a z) /\ numbering t s (su_attempt b) d))
    (on_db (insert_row conflict t KSub (RSub b)))
    (ok (fun r => on_rows (fun d => match r with
      | Some i => st t (sub_debt g o i) d /\ F d /\ made t i s (su_payload b) (su_producer b) d | None => True end))).
Proof.
  intros Ho HF Hs. assert (HF' : lasting t (fun d => F d /\ known_session t s g a d /\ round_locked t d a z)).
  { apply (lasting_and t F); [done|]. apply lasting_subject. }
  apply (triple_insert t KSub (RSub b) (fun d => st t o d /\ (F d /\ known_session t s g a d /\ round_locked t d a z) /\ numbering t s (su_attempt b) d)); [done|..].
  - apply (numbering_stable t o (fun d => F d /\ known_session t s g a d /\ round_locked t d a z)). auto with rounds.
  - intros [i|]; [|done]. apply (A_stable t (sub_debt g o i) (fun d => F d /\ made t i s (su_payload b) (su_producer b) d)). auto with rounds.
  - done.
  - intros w Hi (Hst & HFw & Hh & Hup) Hr Hd. subst s. set (i := next w.1). set (d := put t (KSub i) (Some (RSub b)) (Pos.succ i) w.1).
    assert (Hj : sub_at (seen t w.1) i = None) by (by apply (sub_fresh t w i)).
    assert (Hk : own_keeps t w.1 d).
    { apply own_put; [unfold i; lia|]. split; [intros b0; by rewrite Hj|]. intros s0. by apply numbered_put. }
    assert (HFd : F d /\ known_session t (su_session b) g a d /\ round_locked t d a z).
    { by apply (la_own _ _ HF' w.1 d Hk). }
    assert (Hb : draft t d (KSub i) = Some (RSub b)) by (unfold d; by rewrite draft_put, decide_True).
    destruct HFd as (H1 & (y & Hy & Hg & Hya) & H3). split; [|split; [done|split; [done|by exists b]]].
    eapply (st_put t o (sub_debt g o i) w.1 d (KSub i) (RSub b)); [done|done|done| | | |done|].
    + intros k Hn. unfold d. by rewrite draft_put, decide_False.
    + split; [intros r0 Hr0; change (rows w.1 !! KSub i = Some r0) in Hr0; unfold i in Hr0; congruence|]. intros _.
      split_and!; [by apply numbered_put; [|..|apply (own_numbered t w Hi o Hst)]|by apply (ow_holds _ _ _ Hk)|].
      exists y, z. rewrite Hya. split_and!; [done..|]. intros Hgn. left. unfold sub_debt. destruct g; [done|congruence].
    + intros k v _ _. by apply debt_sub.
    + intros x. destruct (own_doubts t o w d Hi Hst Hk x); [left; by destruct g|by right].
Qed.
