(* ===== verification/ActivityRequests.v ===== *)
(** * Submissions and proposals of the activities context, among other requests

    The services of [Activities], from the statements of ActivityOps.v: what only reads
    ([reading]), the recording of a submission, the operations on group proposals (those
    on rounds are in ActivityRounds.v).  Each leaves its transaction without debts. *)

From stdpp Require Import sorting.
From S2P Require Import Prelude PyFloat PyValue Interleave Transactions Consent ActivityRows Activities ActivityFacts ActivitySteps ActivityOps.

(** ** Operations that only read *)
Definition reading {A} (m : proc A) : Prop := forall t P, stable t P -> triple t P m (ok (fun _ => P)).
Lemma reading_get {A} (f : World -> A) : reading (get f).
Proof. intros t P HP. by apply triple_get_ok. Qed.
Lemma reading_ret {A} (a : A) : reading (mret a).
Proof. intros t P HP. by apply (triple_return t a (fun _ => P)). Qed.
Lemma reading_raise {A} e : reading (raise e : proc A).
Proof. intros t P HP. apply triple_raise. Qed.
Lemma reading_bind {A B} (m : proc A) (k : A -> proc B) : reading m -> (forall a, reading (k a)) -> reading (m ≫= k).
Proof. intros Hm Hk t P HP. eapply triple_chain; [by apply Hm|]. intros a. by apply Hk. Qed.
Create HintDb reading discriminated.
#[export] Hint Resolve reading_get reading_ret reading_raise reading_bind : reading.
(** Walks a program that is built of reads. *)
Ltac reads := repeat first
  [ progress intros
  | apply reading_get | apply reading_ret | apply reading_raise
  | solve [auto with reading nocore]
  | apply reading_bind
  | match goal with |- reading (match ?x with _ => _ end) => destruct x end ].

Lemma reading_type type project : reading (resolve_reachable_type type project).
Proof. unfold resolve_reachable_type, get_type. reads. Qed.
Lemma reading_policy ty : reading (assert_type_allowed ty).
Proof. unfold assert_type_allowed. reads. Qed.
Lemma reading_caller subject caller : reading (ensure_subject_is_caller subject caller).
Proof. unfold ensure_subject_is_caller. reads. Qed.
Lemma reading_fraction ty : reading (group_fraction ty).
Proof. unfold group_fraction. reads. Qed.
Lemma reading_same_error t s : reading (same_error_count t s).
Proof. unfold same_error_count, now, count_recent_same_error. reads. Qed.
Lemma reading_tally t x u c g : reading (tally t x u c g).
Proof. unfold tally, get_prop, counts, list_for_proposal. reads. Qed.
#[export] Hint Resolve reading_type reading_policy reading_caller reading_fraction reading_same_error reading_tally : reading.
Lemma reading_voters t project room group proposer : reading (pin_voters t project room group proposer).
Proof. unfold pin_voters. reads. Qed.
Lemma reading_get_tally t room x u c : reading (get_tally t room x u c).
Proof. unfold get_tally, get_prop. reads. Qed.
Lemma reading_tallies t u c l : reading (tallies t u c l).
Proof. induction l as [|[i p] l IH]; cbn [tallies]; reads; apply IH. Qed.
#[export] Hint Resolve reading_voters reading_get_tally reading_tallies : reading.
Lemma reading_list t project room a u c : reading (list_round_for_caller t project room a u c).
Proof. unfold list_round_for_caller. reads. Qed.
Lemma reading_resolve_activation t project room a : reading (resolve_activation t project room a).
Proof. unfold resolve_activation, get_act. reads. Qed.
#[export] Hint Resolve reading_list reading_resolve_activation : reading.
Lemma reading_get_for_round t project room a u caller : reading (get_for_round t project room a u caller).
Proof. unfold get_for_round, get_for_activation. reads. Qed.
Lemma reading_count t room a : reading (count_for_activation t room a).
Proof. unfold count_for_activation, get_act, count_sessions. reads. Qed.
#[export] Hint Resolve reading_get_for_round reading_count : reading.

(** A read in an operation, and the end of one. *)
Lemma chain_read {A B} t o F (m : proc A) (k : A -> proc B) Q : reading m -> tame t F ->
  (forall a, triple t (ActivitySteps.A t o F) (k a) (ok Q)) -> triple t (ActivitySteps.A t o F) (m ≫= k) (ok Q).
Proof. intros Hm HF Hk. eapply triple_chain; [apply Hm; by apply A_stable|exact Hk]. Qed.
Lemma chain_emit {B} t o F e (k : unit -> proc B) Q : framed t F -> (forall u, triple t (ActivitySteps.A t o F) (k u) (ok Q)) ->
  triple t (ActivitySteps.A t o F) (emit t e ≫= k) (ok Q).
Proof. intros HF Hk. eapply triple_chain; [by apply emit_triple|exact Hk]. Qed.
Definition clean (t : positive) : World -> Prop := A t no_debt (fun _ => True).
Lemma clean_tx_stable t : stable t (clean t).
Proof. apply A_stable. auto with rounds. Qed.
Lemma end_reading {A} t (P : World -> Prop) (m : proc A) : reading m -> (forall w, P w -> clean t w) -> triple t P m (ok (fun _ => clean t)).
Proof. intros Hm HP. eapply triple_mono; [apply Hm, clean_tx_stable|auto|done]. Qed.
Lemma A_clean t F w : A t no_debt F w -> clean t w.
Proof. by intros [H _]. Qed.

(** ** Recording *)
Section record.
Context (in_process : ActivityType -> pyval -> option Verdict).
Context (t : positive) (o : debt) (Ho : d_sub o = None).
Lemma submission_columns ty type room session producer guest payload attempt created :
  let b := submission_row in_process ty type room session producer guest payload attempt created in
  su_session b = session /\ su_producer b = producer /\ su_payload b = payload /\ su_attempt b = attempt.
Proof. unfold submission_row. by destruct (scored in_process ty payload) as [[? ?] ?]. Qed.
Lemma next_attempt_triple F s : tame t F -> triple t (A t o (fun d => F d /\ holds t d (KSess s))) (next_attempt_no t s)
  (ok (fun n => A t o (fun d => F d /\ numbering t s n d))).
Proof.
  intros HF. apply triple_get_ok; [| |].
  - apply A_stable, tame_and; [done|]. split; [intros w w' Hk Hh; by apply (ok_holds t w w' Hk)|intros d d' Hk _ Hh; by apply (ow_holds _ _ _ Hk)].
  - intros n. by apply numbering_stable.
  - intros w Hi (Hst & HFw & Hh). split; [done|]. split; [done|]. split; [done|]. apply next_attempt_spec, (own_numbered t w Hi o Hst).
Qed.
Context (F : Store -> Prop) (HF : lasting t F).
Lemma record_triple ty type s room producer payload group guest g a z :
  triple t (A t o (fun d => F d /\ known_session t s.1 g a d /\ round_locked t d a z))
    (record in_process t ty type s room producer payload group guest)
    (ok (fun r => A t (sub_debt g o r.1.1) (fun d => F d /\ made t r.1.1 s.1 payload producer d))).
Proof.
  set (F1 := fun d => F d /\ known_session t s.1 g a d /\ round_locked t d a z).
  assert (HF1 : lasting t F1) by (apply (lasting_and t F); [done|apply lasting_subject]).
  eapply triple_chain with (R := fun _ => A t o F1).
  { destruct (absent _); [apply (triple_return t false (fun _ => A t o F1)); auto with rounds|by apply set_completed_triple, lasting_framed]. }
  intros _. eapply triple_chain; [apply lock_session_triple; auto with rounds|]. intros [[s' y]|]; [|apply triple_raise].
  eapply triple_pre; [|intros w (H1 & H2 & _ & H3); exact (conj H1 (conj H2 H3))].
  eapply triple_chain; [apply next_attempt_triple; auto with rounds|]. intros n.
  eapply triple_chain with (R := fun _ => A t o (fun d => F1 d /\ numbering t s.1 n d)).
  { apply reading_get, numbering_stable. auto with rounds. }
  intros created. destruct (submission_columns ty type room s.1 producer guest payload n created) as (E1 & E2 & E3 & E4).
  set (b := submission_row _ _ _ _ _ _ _ _ _ _) in *.
  eapply triple_pre with (P := A t o (fun d => F1 d /\ numbering t s.1 (su_attempt b) d)); [|by rewrite E4].
  eapply triple_chain; [by apply (insert_submission t o F s.1 g a z b)|]. intros [i|]; [|apply triple_raise].
  change (triple t (A t (sub_debt g o i) (fun d => F d /\ made t i s.1 (su_payload b) (su_producer b) d))
    (_ ← emit t (E_echo i n group); _ ← emit t (E_submitted i n (scored in_process ty payload).1.1); found ← get_sub t i;
     match found with None => raise SubmissionNotFound | Some s => m ← same_error_count t s; mret (i, s, m) end)
    (ok (fun r => A t (sub_debt g o r.1.1) (fun d => F d /\ made t r.1.1 s.1 payload producer d)))).
  rewrite E2, E3. set (F2 := fun d => F d /\ made t i s.1 payload producer d). assert (HF2 : lasting t F2) by (apply (lasting_and t F); auto with rounds).
  apply chain_emit; [by apply lasting_framed|]. intros _. apply chain_emit; [by apply lasting_framed|]. intros _.
  apply chain_read; [apply reading_get|auto with rounds|]. intros [c|]; [|apply triple_raise].
  apply chain_read; [apply reading_same_error|auto with rounds|]. intros m.
  apply (triple_return t (i, c, m) (fun r => A t (sub_debt g o r.1.1) (fun d => F d /\ made t r.1.1 s.1 payload producer d))). by apply A_stable, framed_tame, lasting_framed.
Qed.
End record.

(** ** Opening a session *)
Definition session_known (t : positive) (g : option uuid) (a : uuid) (r : option (uuid * Session)) (d : Store) : Prop :=
  match r with Some s => known_session t s.1 g a d | None => True end.
Lemma lasting_session_known t g a r : lasting t (session_known t g a r).
Proof. destruct r; [apply lasting_session|apply lasting_true]. Qed.
Definition id_known (t : positive) (g : option uuid) (a : uuid) (r : option uuid) (d : Store) : Prop :=
  match r with Some i => known_session t i g a d | None => True end.
Lemma lasting_id_known t g a r : lasting t (id_known t g a r).
Proof. destruct r; [apply lasting_session|apply lasting_true]. Qed.
#[export] Hint Resolve lasting_session_known lasting_id_known lasting_subject : rounds.
Section sessions.
Context (t : positive) (o : debt) (F : Store -> Prop) (HF : framed t F).
Lemma read_session (g : option uuid) a (f : World -> option (uuid * Session)) :
  (forall w s y, f w = Some (s, y) -> sess_at (seen t w.1) s = Some y /\ se_activation y = a /\ (one_subject y -> se_group y = g)) ->
  triple t (A t o F) (get f) (ok (fun r => A t o (fun d => F d /\ session_known t g a r d))).
Proof.
  intros Hf. apply triple_get_ok; [auto with rounds|intros r; apply A_stable; auto with rounds|]. intros w Hi [Hst HFw].
  split; [done|]. split; [done|]. destruct (f w) as [[s y]|] eqn:E; [|done]. destruct (Hf w s y E) as (Hs & Ha & Hg). exists y. split_and!; [done| |done].
  apply Hg. by apply (seen_session t o w s).
Qed.
Lemma rows_where_session w p s y : found_sess (rows_where t (sessions_where p) w) = Some (s, y) -> sess_at (seen t w.1) s = Some y /\ p s y = true.
Proof.
  unfold found_sess. intros E. apply head_Some_elem_of, list_elem_of_omap in E as ([k v] & Hin & E).
  apply list_elem_of_In, filter_In in Hin as [Hin Hp]. apply list_elem_of_In, elem_of_map_to_list in Hin.
  destruct k, v; try done. injection E as -> ->. split; [|done]. unfold sess_at. by rewrite Hin.
Qed.
Lemma for_activation_triple a subject : triple t (A t o F) (get_for_activation t a subject) (ok (fun r => A t o (fun d => F d /\ session_known t None a r d))).
Proof.
  apply read_session. intros w s y [Hs Hp]%rows_where_session. apply andb_prop in Hp as [Ha Hu]. apply Pos.eqb_eq in Ha.
  apply bool_decide_eq_true in Hu. split_and!; [done..|]. intros [Hn|Hn]; [congruence|done].
Qed.
Lemma for_group_triple a group : triple t (A t o F) (get_for_activation_group t a group) (ok (fun r => A t o (fun d => F d /\ session_known t (Some group) a r d))).
Proof.
  apply read_session. intros w s y [Hs Hp]%rows_where_session. apply andb_prop in Hp as [Ha Hu]. apply Pos.eqb_eq in Ha.
  by apply bool_decide_eq_true in Hu.
Qed.
Lemma insert_session y : one_subject y ->
  triple t (A t o F) (on_db (insert_row conflict t KSess (RSess y))) (ok (fun r => A t o (fun d => F d /\ id_known t (se_group y) (se_activation y) r d))).
Proof.
  intros Hy. apply (triple_insert_own t o F KSess (RSess y) (fun r d => st t o d /\ F d /\ id_known t (se_group y) (se_activation y) r d)); [done|done|..].
  - intros r. apply (A_stable t o (fun d => F d /\ id_known t (se_group y) (se_activation y) r d)).
    apply tame_and; [auto with rounds|]. apply framed_tame, lasting_framed, lasting_id_known.
  - done.
  - intros w Hi Hst HFw Hr Hd d. split; [|split; [done|]].
    { intros y0. unfold sess_at. rewrite lookup_seen, Hd, Hr. done. }
    intros Hk HFd. split_and!; [|done|exists y; unfold sess_at, d; by rewrite seen_put, decide_True].
    apply st_put_same; [done..| |done]. split; [|done]. intros r Hr'. simpl in Hr'. congruence.
Qed.
Lemma after_insert_triple g a r winner : triple t (A t o F) winner (ok (fun x => A t o (fun d => F d /\ session_known t g a x d))) ->
  triple t (A t o (fun d => F d /\ id_known t g a r d)) (after_insert t r winner) (ok (fun s => A t o (fun d => F d /\ known_session t s.1 g a d))).
Proof.
  intros Hw. assert (Hagain : triple t (A t o (fun d => F d /\ id_known t g a r d)) (found ← winner; match found with Some s => mret s | None => raise SessionNotFound end)
    (ok (fun s => A t o (fun d => F d /\ known_session t s.1 g a d)))).
  { eapply triple_pre; [|intros w (H1 & H2 & _); exact (conj H1 H2)]. eapply triple_chain; [exact Hw|]. intros [s|]; [|apply triple_raise].
    apply (triple_return t s (fun s => A t o (fun d => F d /\ known_session t s.1 g a d))). apply A_stable. auto with rounds. }
  destruct r as [i|]; [|exact Hagain]. apply chain_read; [apply reading_get|apply tame_and; auto with rounds|]. intros [s|]; [|exact Hagain].
  apply (triple_return t (i, s) (fun s => A t o (fun d => F d /\ known_session t s.1 g a d))). apply A_stable. auto with rounds.
Qed.
Lemma resolve_for_triple a x subject : triple t (A t o F) (resolve_for_activation t a x subject)
  (ok (fun s => A t o (fun d => F d /\ known_session t s.1 None a d))).
Proof.
  eapply triple_chain; [apply for_activation_triple|]. intros [s|].
  - apply (triple_return t s (fun s => A t o (fun d => F d /\ known_session t s.1 None a d))). apply A_stable. auto with rounds.
  - eapply triple_pre; [|intros w (H1 & H2 & _); exact (conj H1 H2)]. apply chain_read; [apply reading_get|auto with rounds|]. intros guest.
    eapply triple_chain; [apply insert_session; by right|]. intros r. apply after_insert_triple, for_activation_triple.
Qed.
Lemma resolve_group_triple a x group : triple t (A t o F) (resolve_group_session t a x group)
  (ok (fun s => A t o (fun d => F d /\ known_session t s.1 (Some group) a d))).
Proof.
  eapply triple_chain; [apply for_group_triple|]. intros [s|].
  - apply (triple_return t s (fun s => A t o (fun d => F d /\ known_session t s.1 (Some group) a d))). apply A_stable. auto with rounds.
  - eapply triple_pre; [|intros w (H1 & H2 & _); exact (conj H1 H2)].
    eapply triple_chain; [apply insert_session; by left|]. intros r. apply after_insert_triple, for_group_triple.
Qed.
Lemma resolve_session_triple a x subject session : triple t (A t o F) (resolve_session t a x subject session)
  (ok (fun s => A t o (fun d => F d /\ known_session t s.1 None a d))).
Proof.
  destruct session as [id|]; [|apply resolve_for_triple].
  eapply triple_chain with (R := fun r => A t o (fun d => F d /\ match r with Some y => known_session t id (se_group y) (se_activation y) d /\ one_subject y | None => True end)).
  - apply triple_get_ok; [auto with rounds|intros [y|]; apply A_stable; [apply tame_and; [auto with rounds|]; apply tame_and; [auto with rounds|by split]|auto with rounds]|].
    intros w Hi [Hst HFw]. split; [done|]. split; [done|]. destruct (as_sess _) as [y|] eqn:E; [|done]. split; [by exists y|]. by apply (seen_session t o w id).
  - intros [y|]; [|apply triple_raise]. destruct (_ && session_open y) eqn:E; [|apply triple_raise].
    apply andb_prop in E as [[[[Ha _]%andb_prop _]%andb_prop Hu]%andb_prop _]. apply Pos.eqb_eq in Ha. apply bool_decide_eq_true in Hu.
    eapply triple_pre; [apply (triple_return t (id, y) (fun s => A t o (fun d => F d /\ known_session t s.1 None a d))); apply A_stable; auto with rounds|].
    intros w (H1 & H2 & H3 & Hone). split; [done|]. split; [done|]. destruct Hone as [Hn|Hn]; [congruence|]. by rewrite Ha, Hn in H3.
Qed.
End sessions.

(** ** Submitting *)
Lemma bare_no_rounds t d : bare t d -> no_rounds t d.
Proof. intros H a. apply H. Qed.
Lemma bare_none_accepted t d : bare t d -> none_accepted t d.
Proof. intros H x (p & Hp & _). by rewrite H in Hp. Qed.
Definition begun (t : positive) : World -> Prop := A t no_debt (bare t).
(** A round of the room, taken at the start. *)
Lemma active_triple t room : triple t (begun t) (get_active_for_update t room)
  (ok (fun r => A t no_debt (fun d => bare t d /\ round_result t room r d))).
Proof. apply (get_active_triple t no_debt (bare t)); [auto with rounds|apply bare_no_rounds]. Qed.
Section services.
Context (payload_errors : pyval -> pyval -> list string) (in_process : ActivityType -> pyval -> option Verdict) (t : positive).
Lemma submit_triple project type room producer subject caller payload session guest :
  triple t (begun t) (submit payload_errors in_process t project type room producer subject caller payload session guest) (ok (fun _ => clean t)).
Proof.
  apply chain_read; [apply reading_type|auto with rounds|]. intros ty. apply chain_read; [apply reading_caller|auto with rounds|]. intros _.
  eapply triple_chain; [apply active_triple|]. intros [[a x]|]; [|apply triple_raise]. destruct (negb _); [apply triple_raise|].
  destruct (negb _); [apply triple_raise|].
  eapply triple_pre with (P := A t no_debt (fun d => round_locked t d a x)); [|by intros w (H1 & _ & H3 & _)].
  eapply triple_chain; [apply resolve_session_triple; auto with rounds|]. intros s.
  eapply triple_mono; [apply (record_triple in_process t no_debt eq_refl (fun _ => True) (lasting_true t) ty type s room producer payload None guest None a x)|..].
  - intros w _ (H1 & H2 & H3). done.
  - intros r w _ H. by apply (A_clean t (fun d => True /\ made t r.1.1 s.1 payload producer d)).
Qed.

(** ** Deciding a proposal *)
Definition settling (x : uuid) (p : GroupProposal) (a : uuid) (z : Activation) (d : Store) : Prop :=
  ready_to_accept t x p d /\ round_locked t d a z.
Lemma submit_for_group_triple ty x p a z : gp_activation p = a ->
  triple t (A t (debt_of x) (fun d => unattached t x p d /\ settling x p a z d))
    (submit_for_group payload_errors in_process t ty (gp_type p) a z (gp_group p) (gp_proposer p) (gp_payload p))
    (ok (fun r => A t (with_debt x r.1.1) (fun d => exists s, (unattached t x p d /\ known_session t s (Some (gp_group p)) (gp_activation p) d) /\
              made t r.1.1 s (gp_payload p) (gp_proposer p) d /\ supported t x (gp_required p) d))).
Proof.
  intros <-. unfold submit_for_group. destruct (negb _); [apply triple_raise|].
  set (F := fun d => unattached t x p d /\ supported t x (gp_required p) d). assert (HF : lasting t F) by (apply (lasting_and t (unattached t x p)); auto with rounds).
  eapply triple_pre with (P := A t (debt_of x) (fun d => F d /\ round_locked t d (gp_activation p) z)); [|by intros w (H1 & H2 & (H3 & H4) & H5)].
  eapply triple_chain; [apply resolve_group_triple; auto with rounds|]. intros s.
  set (K := fun d => F d /\ known_session t s.1 (Some (gp_group p)) (gp_activation p) d). assert (HK : lasting t K) by (apply (lasting_and t F); auto with rounds).
  eapply triple_chain.
  { eapply triple_pre; [apply (record_triple in_process t (debt_of x) eq_refl K HK ty (gp_type p) s (ac_room z) (gp_proposer p) (gp_payload p)
      (Some (gp_group p)) false (Some (gp_group p)) (gp_activation p) z)|]. by intros w (H1 & (H2 & H3) & H4). }
  intros r. set (M := fun d => K d /\ made t r.1.1 s.1 (gp_payload p) (gp_proposer p) d). assert (HM : lasting t M) by (apply (lasting_and t K); auto with rounds).
  eapply triple_chain with (R := fun _ => A t (with_debt x r.1.1) M); [by apply set_completed_triple, lasting_framed|]. intros _.
  eapply triple_mono; [apply (triple_return t r (fun r' w => r' = r /\ A t (with_debt x r.1.1) M w))|by split|].
  - intros w w' Hk Hi [H1 H2]. split; [done|]. revert H2. by apply A_stable; [apply framed_tame, lasting_framed|..].
  - intros r' w _ (-> & H1 & ((Hu & Hsup) & Hk) & Hm). split; [done|]. by exists s.1.
Qed.
Lemma triple_some {B X} (P : X -> World -> Prop) (m : proc B) (Q : B -> World -> Prop) :
  (forall s, triple t (P s) m (ok Q)) -> triple t (fun w => exists s, P s w) m (ok Q).
Proof. intros H w Hi [s Hs]. by apply (H s). Qed.
Lemma tally_triple x u c (k : Tally -> Resolution) (P : World -> Prop) : (forall w, P w -> clean t w) ->
  triple t P (ta ← tally t x u c None; mret (k ta)) (ok (fun _ => clean t)).
Proof. intros HP. apply end_reading; [|done]. reads. Qed.
(** The transaction holds the proposal, nothing is accepted in it. *)
Definition voting (x : uuid) (p : GroupProposal) (d : Store) : Prop := undecided_yet t d /\ known_proposal t x p d.
Lemma accept_done project x p actor :
  triple t (A t (vote_debt x) (fun d => undecided_yet t d /\ ready_to_accept t x p d)) (accept payload_errors in_process t project x p actor) (ok (fun _ => clean t)).
Proof.
  eapply triple_chain; [apply (get_active_triple t (vote_debt x) (fun d => undecided_yet t d /\ ready_to_accept t x p d)); [auto with rounds|by intros d [[_ H] _]]|].
  intros [[a z]|]; [|apply triple_raise]. destruct (negb _) eqn:Ea; [apply triple_raise|].
  apply negb_false_iff, andb_prop in Ea as [Ea _]. apply Pos.eqb_eq in Ea. subst a.
  set (F := fun d => round_locked t d (gp_activation p) z). assert (HF : lasting t F) by apply lasting_round.
  eapply triple_pre with (P := A t (vote_debt x) (fun d => (F d /\ ready_to_accept t x p d) /\ none_accepted t d)); [|by intros w (H1 & [[H2 _] H3] & H4 & _)].
  eapply triple_chain; [by apply accept_triple|]. intros [|].
  - eapply triple_pre with (P := A t (debt_of x) (fun d => unattached t x p d /\ settling x p (gp_activation p) z d)); [|by intros w (H1 & [H2 H3] & H4)].
    assert (Hset : tame t (fun d => unattached t x p d /\ settling x p (gp_activation p) z d)).
    { apply tame_and; [auto with rounds|]. apply framed_tame, lasting_framed, (lasting_and t (ready_to_accept t x p)); auto with rounds. }
    apply chain_read; [apply reading_type|done|]. intros ty. eapply triple_chain; [by apply submit_for_group_triple|]. intros r.
    eapply triple_chain with (R := fun _ => clean t).
    { eapply triple_pre; [apply (triple_some (X := uuid) _ _ _ (fun s => attach_triple t x r.1.1 p s))|]. intros w [H1 [s H2]]. by exists s. }
    intros _. apply chain_emit; [auto with rounds|]. intros _. by apply tally_triple.
  - by apply tally_triple.
Qed.
Definition counted (x : uuid) (n : Z * Z) (d : Store) : Prop := holds t d (KProp x) /\ tally_of x (seen t d) = n.
Lemma counted_stable p x n : stable t (A t (vote_debt x) (fun d => voting x p d /\ counted x n d)).
Proof.
  intros w w' Hk _ (H1 & H2 & H3 & H4). split; [by apply (st_stable t w w')|]. split.
  - revert H2. apply (ta_others t (voting x p)); [|done]. apply (tame_and t (undecided_yet t)); auto with rounds.
  - split; [by apply (ok_holds t w w' Hk)|]. by rewrite (ok_tally t w w' Hk).
Qed.
Lemma still_open x p n d : st t (vote_debt x) d -> known_proposal t x p d -> counted x n d -> n.1 < gp_required p -> gp_required p <= n.1 + undecided_of p n.1 n.2 ->
  st t no_debt d.
Proof.
  intros Hst (_ & p' & Hp' & Hs) [_ Hn] H1 H2. apply (st_counted t x); [done|]. intros q Hq _. assert (q = p') as -> by congruence.
  rewrite Hn, (undecided_same p p') by done. destruct Hs as (_&_&_&_&_&_&_&->). lia.
Qed.
Lemma settle_done project x p actor : triple t (A t (vote_debt x) (voting x p)) (settle payload_errors in_process t project x p actor) (ok (fun _ => clean t)).
Proof.
  assert (Hv : tame t (voting x p)) by (apply (tame_and t (undecided_yet t)); auto with rounds).
  eapply triple_chain with (R := fun n => A t (vote_debt x) (fun d => voting x p d /\ counted x n d)).
  { apply triple_get_ok; [by apply A_stable|intros n; apply counted_stable|]. intros w Hi (H1 & H2 & H3 & H4). done. }
  intros n. destruct (gp_required p <=? n.1) eqn:En.
  - eapply triple_pre; [apply accept_done|]. apply Z.leb_le in En. intros w (H1 & [H2 H3] & H4 & H5). split; [done|]. split; [done|].
    split; [done|]. split; [done|]. by rewrite H5.
  - destruct (is_unreachable _ _ _) eqn:Eu.
    2: { apply tally_triple. intros w (H1 & H2 & H3). split; [|done]. apply (still_open x p n); [done|apply H2|done|..].
         - apply Z.leb_gt in En. lia.
         - unfold is_unreachable in Eu. apply Z.ltb_ge in Eu. lia. }
    eapply triple_pre with (P := A t (vote_debt x) (fun d => holds t d (KProp x))); [|by intros w (H1 & (_ & H2 & _) & _)].
    eapply triple_chain; [by apply reject_triple|]. intros moved.
    eapply triple_chain with (R := fun _ => clean t).
    { destruct moved; [apply emit_triple; auto with rounds|apply (triple_return t tt (fun _ => clean t)), clean_tx_stable]. }
    intros _. by apply tally_triple.
Qed.
Lemma locked_triple F room x caller : tame t F ->
  triple t (A t no_debt F) (locked t room x caller) (ok (fun p => A t no_debt (fun d => F d /\ held_proposal t x p d /\ caller ∈ gp_voters p))).
Proof.
  intros HF. eapply triple_chain; [by apply lock_proposal_triple|]. intros [p|]; [|apply triple_raise].
  destruct (_ && _) eqn:E; [|apply triple_raise]. apply andb_prop in E as [_ E]. apply existsb_exists in E as (u & Hu & He).
  apply Pos.eqb_eq in He. subst u. apply list_elem_of_In in Hu.
  eapply triple_pre; [apply (triple_return t p (fun p => A t no_debt (fun d => F d /\ held_proposal t x p d /\ caller ∈ gp_voters p)))|].
  - apply A_stable. apply tame_and; [done|]. apply tame_and; [auto with rounds|by split].
  - by intros w (H1 & H2 & H3).
Qed.
Lemma vote_triple project room x voter approve :
  triple t (begun t) (vote payload_errors in_process t project room x voter approve) (ok (fun _ => clean t)).
Proof.
  eapply triple_chain; [apply active_triple|]. intros r.
  eapply triple_pre with (P := A t no_debt (bare t)); [|by intros w (H1 & H2 & _)].
  eapply triple_chain; [apply locked_triple; auto with rounds|]. intros p. destruct (is_open p) eqn:Ho; [|apply triple_raise].
  intros w Hi (H1 & H2 & H3 & Hu). revert w Hi H1 H2 H3.
  assert (H : triple t (A t (vote_debt x) (fun d => undecided_yet t d /\ held_proposal t x p d))
    (_ ← cast t x voter (if approve then APPROVE else REJECT); _ ← emit t (E_proposal_voted x); settle payload_errors in_process t project x p voter)
    (ok (fun _ => clean t))).
  - eapply triple_chain with (R := fun _ => A t (vote_debt x) (voting x p)); [by apply cast_triple|]. intros _. apply chain_emit; [apply (framed_and t (undecided_yet t)); auto with rounds|]. intros _. apply settle_done.
  - intros w Hi H1 H2 H3. apply H; [done|]. split; [by apply st_votes|]. split; [|done]. split; [by apply bare_none_accepted|by apply bare_no_rounds].
Qed.
Lemma withdraw_triple room x caller : triple t (begun t) (withdraw t room x caller) (ok (fun _ => clean t)).
Proof.
  eapply triple_chain; [apply locked_triple; auto with rounds|]. intros p. destruct (negb _); [apply triple_raise|]. destruct (negb _); [apply triple_raise|].
  eapply triple_pre with (P := clean t); [|by intros w (H & _)].
  eapply triple_chain; [apply (resolve_triple t no_debt (fun _ => True)); auto with rounds|]. intros moved.
  eapply triple_chain with (R := fun _ => clean t).
  { destruct moved; [apply emit_triple; auto with rounds|apply (triple_return t tt (fun _ => clean t)), clean_tx_stable]. }
  intros _. apply end_reading; [apply reading_tally|done].
Qed.

(** ** Making a proposal *)
Lemma create_proposal_triple a z p : gp_activation p = a -> well_formed p -> is_open p = true -> gp_submission p = None ->
  triple t (A t no_debt (fun d => bare t d /\ round_locked t d a z)) (create_proposal t p)
    (ok (fun i => A t (vote_debt i) (fun d => undecided_yet t d /\ held_proposal t i p d))).
Proof.
  intros Ha Hw Ho Hn. eapply triple_chain with (R := fun r => on_rows (fun d => match r with
    Some i => st t (vote_debt i) d /\ undecided_yet t d /\ held_proposal t i p d | None => True end)).
  - apply (triple_insert t KProp (RProp p) (fun d => st t no_debt d /\ bare t d /\ round_locked t d a z)); [done|..].
    + apply (A_stable t no_debt (fun d => bare t d /\ round_locked t d a z)). auto with rounds.
    + intros [i|]; [|done]. apply (A_stable t (vote_debt i) (fun d => undecided_yet t d /\ held_proposal t i p d)). auto with rounds.
    + done.
    + intros w Hi (Hst & Hb & (R1 & R2 & R3)) Hr Hd. set (i := next w.1) in *. set (d := put _ _ _ _ _).
      assert (Hdr : forall k, draft t d k = if decide (k = KProp i) then Some (RProp p) else None).
      { intros k. unfold d. rewrite draft_put. case_decide; [done|apply Hb]. }
      assert (Hp : gp_status p <> P_ACCEPTED) by (apply is_open_status in Ho; congruence).
      split_and!; [|split|split].
      * split; [|intros x x' q q'; rewrite !Hdr; do 2 (case_decide; [|done]); congruence|].
        2: { intros x Hx. left. destruct Hx as [[v Hx]|[u [v Hx]]]; rewrite Hdr in Hx; case_decide as E; try done. by injection E as ->. }
        intros k v. rewrite Hdr. case_decide as E; [|done]. intros [= <-]. subst k. split; [intros r Hr'; change (rows w.1 !! KProp i = Some r) in Hr'; congruence|].
        split_and!; [|done|intros Hacc; by destruct Hp]. intros _. split; [done|]. exists z. rewrite Ha. split_and!; [apply holds_put; by right|by rewrite Hdr|apply R3|apply R3].
      * intros x (q & Hq & Hacc). rewrite Hdr in Hq. case_decide; [|done]. congruence.
      * intros x. rewrite Hdr. by case_decide.
      * apply holds_put. by left.
      * unfold prop_at. by rewrite lookup_seen, Hdr, decide_True.
  - intros [i|]; [|apply triple_raise].
    apply (triple_return t i (fun i => A t (vote_debt i) (fun d => undecided_yet t d /\ held_proposal t i p d))). apply A_stable. auto with rounds.
Qed.
Lemma sorted_set_elem u l : u ∈ sorted_set l <-> u ∈ l.
Proof. unfold sorted_set. rewrite merge_sort_Permutation. apply elem_of_remove_dups. Qed.
Lemma sorted_set_NoDup l : NoDup (sorted_set l).
Proof. unfold sorted_set. rewrite merge_sort_Permutation. apply NoDup_remove_dups. Qed.
(** The voters: each once, the proposer among them. *)
Definition pinned (proposer : uuid) (l : list uuid) : Prop := NoDup l /\ proposer ∈ l.
Lemma pin_voters_triple P project room group proposer : stable t P ->
  triple t P (pin_voters t project room group proposer) (ok (fun l w => pinned proposer l /\ P w)).
Proof.
  intros HP. unfold pin_voters. do 2 (eapply triple_chain; [by apply reading_get|intros ?]). destruct (negb _); [apply triple_raise|].
  eapply triple_chain; [by apply reading_get|]. intros [[allow owners]|]; [|apply triple_raise]. destruct (_ || _); [apply triple_raise|].
  do 2 (eapply triple_chain; [by apply reading_get|intros ?]; try (destruct (negb _); [apply triple_raise|])).
  eapply triple_pre; [apply (triple_return t _ (fun l w => pinned proposer l /\ P w))|].
  - intros w w' Hk Hi [H1 H2]. split; [done|]. by apply (HP w w').
  - intros w HPw. split; [|done]. split; [apply sorted_set_NoDup|]. apply sorted_set_elem, list_elem_of_here.
Qed.
Lemma required_bounds n d k r : required_approvals n d k = Ok r -> 1 <= r <= k.
Proof.
  unfold required_approvals. destruct (Z.leb_spec k 0); [done|]. destruct (int_truediv _ _ ≫= py_ceil) as [m|e|]; [|done..].
  intros [= <-]. lia.
Qed.
Lemma create_triple project room group type proposer payload :
  triple t (begun t) (create payload_errors in_process t project room group type proposer payload) (ok (fun _ => clean t)).
Proof.
  apply chain_read; [apply reading_type|auto with rounds|]. intros ty. apply chain_read; [apply reading_fraction|auto with rounds|]. intros fraction.
  eapply triple_chain; [apply active_triple|]. intros [[a z]|]; [|apply triple_raise]. destruct (negb _); [apply triple_raise|].
  set (P := A t no_debt (fun d => bare t d /\ round_locked t d a z)). assert (HP : stable t P) by (apply A_stable; auto with rounds).
  eapply triple_pre with (P := P); [|by intros w (H1 & H2 & H3 & _)].
  eapply triple_chain; [by apply (pin_voters_triple P)|]. intros voters. destruct (negb _); [apply triple_raise|].
  destruct (required_approvals _ _ _) as [required|e|] eqn:Er; [|apply triple_raise..].
  intros w Hi [[Hnd Hpr] HPw]. revert w Hi HPw. eapply triple_chain; [by apply reading_get|]. intros at_.
  set (p := mkProposal _ _ _ _ _ _ _ _ _ _ _ _ _).
  eapply triple_chain; [apply (create_proposal_triple a z p); [done|exact (conj Hnd (conj Hpr (required_bounds _ _ _ _ Er)))|done|done]|]. intros i.
  eapply triple_chain with (R := fun _ => A t (vote_debt i) (voting i p)); [by apply cast_triple|]. intros _.
  assert (Hv : framed t (voting i p)) by (apply (framed_and t (undecided_yet t)); auto with rounds).
  apply chain_emit; [done|]. intros _.
  eapply triple_chain with (R := fun r => A t (vote_debt i) (fun d => voting i p d /\ match r with Some q => same_proposal p q | None => True end)).
  - apply triple_get_ok; [auto with rounds|intros r; apply A_stable, tame_and; [auto with rounds|by split]|]. intros w Hi (H1 & H2 & H3 & q & Hq & Hs).
    split; [done|]. unfold prop_at in Hq. rewrite Hq. split; [|done]. split; [done|]. split; [done|]. by exists q.
  - intros [q|]; [|apply triple_raise]. eapply triple_pre; [apply settle_done|]. intros w (H1 & (H2 & H3 & q' & Hq & Hs') & Hs).
    split; [done|]. split; [done|]. split; [done|].
  exists q'. split; [done|]. unfold same_proposal in *. naive_solver congruence.
Qed.
End services.
