(* ===== verification/ActivityRounds.v ===== *)
(** * Rounds of the activities context, among other requests

    What [start], [end_round], [end_for_type], the operations on sessions, the verdicts and
    the sweeps do, from the statements of ActivityOps.v.  Ending a round is a debt: its
    open proposals have to be decided before the commit. *)

From S2P Require Import Prelude PyFloat PyValue Interleave Transactions Consent ActivityRows Activities ActivityFacts ActivitySteps ActivityOps ActivityRequests.

(** ** Ending a round *)
Definition end_debt (a : uuid) : debt := mkDebt (Some a) None None None.
Section ending.
Context (t : positive) (w : World) (a : uuid) (o : debt) (z z' : Activation) (Hi : inv w) (Hst : st t o w.1) (Ho : o = no_debt \/ o = end_debt a)
  (Hm : none_made t w.1) (Hz : seen t w.1 !! KAct a = Some (RAct z)) (Ha : is_active z = true) (Ha' : is_active z' = false) (Hs : same_round z z').
Let d := put t (KAct a) (Some (RAct z')) (next w.1) w.1.
Let draft_d k : k <> KAct a -> draft t d k = draft t w.1 k.
Proof. intros Hk. unfold d. by rewrite draft_put, decide_False. Qed.
Let seen_d k : k <> KAct a -> seen t d !! k = seen t w.1 !! k.
Proof. intros Hk. unfold d. by rewrite seen_put, decide_False. Qed.
Let holds_d k : holds t w.1 k -> holds t d k.
Proof. intros Hk. apply holds_put. by right. Qed.
Lemma end_submission_of p i : submission_of (seen t w.1) p i -> submission_of (seen t d) p i.
Proof. intros (b & y & Hb & Hy & Hrest). exists b, y. unfold sub_at, sess_at in *. by rewrite !seen_d by done. Qed.
Lemma end_st : st t (end_debt a) d.
Proof.
  split; [|intros x x' p p'; rewrite !draft_d by done; apply (st_one _ _ _ Hst)|].
  2: { intros x _. right. apply (in_doubt_ext (seen t w.1)); [unfold prop_at; by rewrite seen_d|intros u; by apply seen_d|].
       destruct (doubt_any t w Hi o Hst x) as [He|]; [by destruct Ho as [-> | ->]|done]. }
  intros k v Hv. destruct (decide (k = KAct a)) as [->|Hk].
  - unfold d in Hv. rewrite draft_put, decide_True in Hv by done. injection Hv as <-. split; [|by left].
    intros r Hr. etrans; [by apply (seen_grows t o w.1 (KAct a) (RAct z) r)|]. by constructor.
  - rewrite draft_d in Hv by done. pose proof (st_drafts _ _ _ Hst k v Hv) as [Hg Hc]. split; [done|].
    assert (Hnew : match k with KProp _ | KSub _ => rows w.1 !! k <> None | _ => True end).
    { destruct k; try done; intros Hn; eapply Hm; (split; [exact Hn|]); (split; [by eexists|done]). }
    destruct k as [a1|x|x u|s|j|l], v as [z1|p|c|y|b|e]; try done.
    + intros Hz1. destruct (Hc Hz1) as [He|Hr]; [left|right]; [by destruct Ho as [-> | ->]|]. intros x p Hp. apply (Hr x p). unfold prop_at in *. by rewrite seen_d in Hp.
    + destruct Hc as (_ & H2 & H3). split_and!; [done|done|]. intros Hacc. destruct (H3 Hacc) as [Ht Hsub].
      rewrite (tally_of_ext x (seen t d) (seen t w.1)) by (intros u; by apply seen_d). split; [done|].
      destruct Hsub as [[? _]|(i & b & E1 & E2 & E3 & E4)]; [by destruct Ho as [-> | ->]|right]. exists i, b. rewrite draft_d by done.
      split_and!; [done..|by apply end_submission_of].
    + destruct Hc as [H1 (p & Hp & Hu)]. split; [by apply holds_d|]. exists p. unfold prop_at. by rewrite seen_d, draft_d.
Qed.
Lemma end_none_made : none_made t d.
Proof.
  intros k (Hr & Hd & Hk). apply (Hm k). split; [done|]. split; [|done]. rewrite <-draft_d; [done|]. by destruct k.
Qed.
End ending.

Lemma holds_stable t k : tame t (fun d => holds t d k).
Proof. split; [intros w w' Hk Hh; by apply (ok_holds t w w' Hk)|intros d d' Hk _ Hh; by apply (ow_holds _ _ _ Hk)]. Qed.
Definition ending (t : positive) (a : uuid) (moved : bool) (d : Store) : Prop :=
  if moved then st t (end_debt a) d /\ none_made t d /\ holds t d (KAct a) else st t no_debt d /\ none_made t d.
Lemma ending_keeps t a moved w w' : others_keep t w w' -> ending t a moved w.1 -> ending t a moved w'.1.
Proof.
  intros Hk. destruct moved; [apply (A_keeps t (end_debt a) (fun d => none_made t d /\ holds t d (KAct a)) w w')|apply (A_keeps t no_debt (none_made t) w w')];
    auto with rounds.
Qed.
Lemma end_activation_triple t a : triple t (A t no_debt (none_made t)) (end_activation t a) (ok (fun moved => on_rows (ending t a moved))).
Proof.
  apply (triple_read t (fun d => st t no_debt d /\ none_made t d)); [apply (A_stable t no_debt); auto with rounds|]. intros at_.
  eapply triple_chain with (R := fun l => on_rows (ending t a (negb (bool_decide (l = []))))).
  - apply (triple_read t (fun d => st t no_debt d /\ none_made t d)); [apply (A_stable t no_debt); auto with rounds|]. intros ks.
    eapply triple_mono; [apply (triple_take_rows t _ (Some (of_act (ended at_))) (fun _ l d => ending t a (negb (bool_decide (l = []))) d)) with (l := [])|..]; try done.
    + intros _ l w w' Hk. by apply ending_keeps.
    + intros k _ l w v Hi He _ Hs Hp. destruct k as [a1| | | | |], v as [z| | | | |]; try done. cbn [acts_where] in Hp. apply andb_prop in Hp as [Hx Ha].
      apply Pos.eqb_eq in Hx as ->. cbn [of_act]. rewrite (bool_decide_false (l ++ _ = [])) by (by destruct l).
      assert (Hpre : exists o, (o = no_debt \/ o = end_debt a) /\ st t o w.1 /\ none_made t w.1).
      { revert He. case_bool_decide; [intros [H1 H2]; exists no_debt|intros (H1 & H2 & _); exists (end_debt a)]; auto. }
      destruct Hpre as (o & Ho & Hst & Hm). split_and!; [by apply (end_st t w a o z (ended at_ z))|by apply (end_none_made t w a (ended at_ z))|].
      apply holds_put. by left.
  - intros l. apply (triple_return t _ (fun moved => on_rows (ending t a moved))). intros w w' Hk _. by apply ending_keeps.
Qed.
(** The open proposals of the round that are still among the rows to look at. *)
Definition leaving (t : positive) (a : uuid) (ks : list Key) (d : Store) : Prop :=
  holds t d (KAct a) /\ forall x p, prop_at (seen t d) x = Some p -> gp_activation p = a -> is_open p = true -> KProp x ∈ ks.
Lemma leaving_others t a ks w w' : others_keep t w w' -> leaving t a ks w.1 -> leaving t a ks w'.1.
Proof.
  intros Hk [Hh Hl]. split; [by apply (ok_holds t w w' Hk)|]. intros x p Hp Ha Ho. apply (Hl x p); [|done..].
  unfold prop_at in *. rewrite lookup_seen in Hp |- *. rewrite (ok_draft t w w' Hk) in Hp. destruct (draft t w.1 (KProp x)); [done|].
  by apply (ok_props _ _ _ Hk a).
Qed.
Lemma over_no_debt t a d : st t (end_debt a) d -> leaving t a [] d -> st t no_debt d.
Proof.
  intros [Hd Ho Hdo] [_ Hl]. split; [|done|done]. intros k v Hv. destruct (Hd k v Hv) as [Hg Hc]. split; [done|].
  destruct k as [a1|x|x u|s|j|l], v as [z|p|c|y|b|e]; try done.
  intros Hz. right. destruct (Hc Hz) as [[= ->]|Hr]; [|done]. intros x p Hp Ha. destruct (is_open p) eqn:Eo; [|done].
  by apply (Hl x p), not_elem_of_nil in Hp.
Qed.
Lemma expire_triple t a : triple t (A t (end_debt a) (fun d => none_made t d /\ holds t d (KAct a))) (expire_open_for_activation t a)
  (ok (fun _ => A t no_debt (none_made t))).
Proof.
  set (P := fun d => st t (end_debt a) d /\ none_made t d /\ holds t d (KAct a)).
  apply (triple_read t P); [apply (A_stable t (end_debt a) (fun d => none_made t d /\ holds t d (KAct a))); auto with rounds|]. intros at_.
  set (I := fun (ks : list Key) (_ : list (Key * Row)) d => (st t (end_debt a) d /\ none_made t d) /\ leaving t a ks d).
  assert (HI : forall ks l w w', others_keep t w w' -> I ks l w.1 -> I ks l w'.1).
  { intros ks l w w' Hk [H1 H2]. split; [|by apply (leaving_others t a ks w w')]. apply (A_keeps t (end_debt a) (none_made t) w w'); auto with rounds. }
  eapply triple_mono with (Q := fun l => on_rows (I [] l)); [|intros w _ H; exact H|intros l w _ [[H1 H2] H3]; split; [by apply (over_no_debt t a)|done]].
  eapply triple_chain with (R := fun ks => on_rows (I ks [])).
  - apply triple_get_ok; [apply (A_stable t (end_debt a) (fun d => none_made t d /\ holds t d (KAct a))); auto with rounds|intros ks w w' Hk _; by apply (HI ks [] w w')|].
    intros w Hi (H1 & H2 & H3). split; [done|]. split; [done|]. intros x p Hp Ha Ho. apply elem_of_matching. exists (RProp p).
    split; [by apply as_prop_Some|]. simpl. by rewrite Ha, Pos.eqb_refl, Ho.
  - intros ks. apply (triple_take_rows t _ (Some (of_prop (expiring at_))) I HI) with (l := []).
    + intros k ks' l w v Hi [[Hst Hm] [Hh Hl]] Hfree Hs Hp. destruct k as [|x| | | |], v as [|q| | | |]; try done. cbn [props_where] in Hp.
      apply andb_prop in Hp as [Hx Ho]. cbn [of_prop]. set (q' := expiring at_ q).
      assert (Hk := decision_keeps t w x q q' Hs Ho eq_refl ltac:(done)). set (d := put t _ _ _ _) in *.
      assert (Hdi : discreet t w.1 d) by (apply put_discreet; [done|left; by eexists|by intros y p0 [= <-] _]).
      split; [split|].
      * apply st_put_same; [done..| |by intros y p0 _ [= <-]]. apply (decision_draft t (end_debt a) w x q q'); [done..| |done].
        intros _. change (gp_submission q = None). apply (open_no_submission t (end_debt a) w x); [done..|unfold prop_at; by rewrite Hs|].
        apply is_open_status in Ho. by rewrite Ho.
      * by apply (fr_own _ _ (framed_none_made t) w.1).
      * split; [by apply (ow_holds _ _ _ Hk)|]. intros y p Hp Ha Hop. unfold prop_at, d in Hp. rewrite seen_put in Hp. case_decide as E.
        -- injection E as ->. by injection Hp as <-.
        -- assert (Hin : KProp y ∈ KProp x :: ks') by (by apply (Hl y p)). apply elem_of_cons in Hin as [|]; [done|done].
    + intros k ks' l w Hi [[Hst Hm] [Hh Hl]] Hsk. split; [done|]. split; [done|]. intros y p Hp Ha Ho.
      pose proof (Hl y p Hp Ha Ho) as Hin. apply elem_of_cons in Hin as [<-|Hin]; [exfalso|done].
      apply as_prop_Some in Hp. specialize (Hsk _ Hp). simpl in Hsk. by rewrite Ha, Pos.eqb_refl, Ho in Hsk.
Qed.
Lemma end_round_triple t room a agent : triple t (A t no_debt (none_made t)) (end_round t room a agent) (ok (fun _ => A t no_debt (none_made t))).
Proof.
  apply chain_read; [apply reading_get|auto with rounds|]. intros [x|]; [|apply triple_raise]. destruct (negb _); [apply triple_raise|].
  eapply triple_chain; [apply end_activation_triple|]. intros [|].
  - set (F := fun d => none_made t d /\ holds t d (KAct a)). assert (HF : framed t F) by (apply framed_and; auto with rounds).
    change (on_rows (ending t a true)) with (A t (end_debt a) F).
    eapply triple_chain with (R := fun _ => A t (end_debt a) F); [by apply close_sessions_triple|]. intros closed.
    eapply triple_chain with (R := fun _ => A t no_debt (none_made t)); [apply expire_triple|]. intros expired.
    apply chain_emit; [auto with rounds|]. intros _. apply chain_emit; [auto with rounds|]. intros _.
    apply (triple_return t true (fun _ => A t no_debt (none_made t))). auto with rounds.
  - apply (triple_return t false (fun _ => A t no_debt (none_made t))). auto with rounds.
Qed.
Lemma end_each_triple t l : triple t (A t no_debt (none_made t)) (end_each t l) (ok (fun _ => A t no_debt (none_made t))).
Proof.
  induction l as [|[a room] l IH]; cbn [end_each]; [apply (triple_return t 0 (fun _ => A t no_debt (none_made t))); auto with rounds|].
  eapply triple_chain; [apply end_round_triple|]. intros moved. eapply triple_chain; [apply IH|]. intros n.
  apply (triple_return t _ (fun _ => A t no_debt (none_made t))). auto with rounds.
Qed.
Lemma begun_none_made t w : begun t w -> A t no_debt (none_made t) w.
Proof. intros [H1 H2]. split; [done|]. intros k (_ & [v Hv] & _). by rewrite H2 in Hv. Qed.
Lemma end_for_type_triple t type : triple t (begun t) (end_for_type t type) (ok (fun _ => clean t)).
Proof.
  eapply triple_pre; [|apply begun_none_made]. apply chain_read; [apply reading_get|auto with rounds|]. intros l.
  eapply triple_chain; [apply end_each_triple|]. intros n. eapply triple_chain with (R := fun _ => clean t).
  - eapply triple_mono; [apply (close_sessions_triple t no_debt (none_made t)); auto with rounds|auto|]. intros m w _ H. by apply (A_clean t (none_made t)).
  - intros m. apply (triple_return t n (fun _ => clean t)), clean_tx_stable.
Qed.

Lemma opt_out_triple t type rooms : triple t (begun t) (opt_out_cascade t type rooms) (ok (fun _ => clean t)).
Proof.
  eapply triple_pre; [|apply begun_none_made]. apply chain_read; [apply reading_get|auto with rounds|]. intros l.
  eapply triple_chain; [apply end_each_triple|]. intros n. eapply triple_chain with (R := fun _ => A t no_debt (none_made t)).
  - unfold close_open_for_type_in_rooms. destruct (bool_decide _); [apply (triple_return t 0 (fun _ => A t no_debt (none_made t)))|apply close_sessions_triple];
      auto with rounds.
  - intros m. apply chain_emit; [auto with rounds|]. intros _. eapply triple_pre; [apply (triple_return t n (fun _ => clean t)), clean_tx_stable|].
    intros w. apply A_clean.
Qed.

(** ** Starting a round *)
Lemma create_active_triple t room type by_user agent limit : triple t (begun t) (create_active t room type by_user agent limit) (ok (fun _ => clean t)).
Proof.
  apply (triple_read t (fun d => st t no_debt d /\ bare t d)); [apply (A_stable t no_debt); auto with rounds|]. intros at_.
  set (z := mkActivation _ _ _ _ _ _ _ _ _).
  eapply triple_mono with (Q := fun _ => clean t); [|intros w _ H; exact H|auto].
  apply (triple_insert t KAct (RAct z) (fun d => st t no_debt d /\ bare t d) (fun _ d => st t no_debt d /\ True)); [done|..].
  - apply (A_stable t no_debt); auto with rounds.
  - intros r. apply (clean_tx_stable t).
  - by intros w _ [H _].
  - intros w Hi [Hst Hb] Hr Hd. split; [|done].
    assert (Hdr : forall k, draft t (put t (KAct (next w.1)) (Some (RAct z)) (Pos.succ (next w.1)) w.1) k = if decide (k = KAct (next w.1)) then Some (RAct z) else None).
    { intros k. rewrite draft_put. case_decide; [done|apply Hb]. }
    split; [|intros x x' p p'; by rewrite Hdr, decide_False|intros x [[v Hv]|[u [v Hv]]]; by rewrite Hdr, decide_False in Hv]. intros k v. rewrite Hdr. case_decide as E; [|done]. intros [= <-]. subst k.
    split; [|done]. intros r Hr'. change (rows w.1 !! KAct (next w.1) = Some r) in Hr'. congruence.
Qed.
Lemma start_triple t project room type by_user agent : triple t (begun t) (start t project room type by_user agent) (ok (fun _ => clean t)).
Proof.
  apply chain_read; [apply reading_type|auto with rounds|]. intros ty. apply chain_read; [apply reading_policy|auto with rounds|]. intros _.
  apply chain_read; [apply reading_get|auto with rounds|]. intros limit. eapply triple_chain with (R := fun _ => clean t); [apply create_active_triple|].
  assert (Hc : tame t (fun _ => True)) by auto with rounds. intros [a|].
  - apply (chain_read t no_debt (fun _ => True)); [apply reading_get|done|]. intros [x|]; [|apply triple_raise].
    do 2 (apply (chain_emit t no_debt (fun _ => True)); [auto with rounds|intros _]). apply (triple_return t _ (fun _ => clean t)), clean_tx_stable.
  - apply (end_reading t (clean t)); [|done]. unfold get_active. reads.
Qed.

(** ** Sessions, verdicts, sweeps *)
Lemma begun_clean t w : begun t w -> clean t w.
Proof. by intros [H _]. Qed.
Section operations.
Context (t : positive).
Let Hc : tame t (fun _ => True). Proof. auto with rounds. Qed.
Let Hf : framed t (fun _ => True). Proof. auto with rounds. Qed.
Lemma session_clean {B} a x subject (k : uuid * Session -> proc B) Q : (forall s, triple t (clean t) (k s) (ok Q)) ->
  triple t (clean t) (resolve_for_activation t a x subject ≫= k) (ok Q).
Proof.
  intros Hk. eapply triple_chain; [apply (resolve_for_triple t no_debt (fun _ => True) Hf a x subject)|]. intros s.
  eapply triple_pre; [apply Hk|]. by intros w [H _].
Qed.
Lemma open_session_triple project type room subject caller :
  triple t (begun t) (open_session t project type room subject caller) (ok (fun _ => clean t)).
Proof.
  eapply triple_pre; [|apply begun_clean]. apply (chain_read t no_debt (fun _ => True)); [apply reading_type|done|]. intros _.
  apply (chain_read t no_debt (fun _ => True)); [apply reading_get|done|]. intros [[a x]|]; [|apply triple_raise]. destruct (negb _); [apply triple_raise|].
  apply (chain_read t no_debt (fun _ => True)); [apply reading_caller|done|]. intros _.
  eapply triple_mono; [apply (resolve_for_triple t no_debt (fun _ => True) Hf a x subject)|auto|]. by intros s w _ [H _].
Qed.
Lemma set_completion_triple project room activation subject caller completed :
  triple t (begun t) (set_completion t project room activation subject caller completed) (ok (fun _ => clean t)).
Proof.
  eapply triple_pre; [|apply begun_clean]. apply (chain_read t no_debt (fun _ => True)); [apply reading_resolve_activation|done|]. intros x.
  destruct (negb _); [apply triple_raise|]. apply (chain_read t no_debt (fun _ => True)); [apply reading_caller|done|]. intros _.
  apply session_clean. intros s. eapply triple_chain with (R := fun _ => clean t); [by apply set_completed_triple|]. intros [|].
  - apply (chain_emit t no_debt (fun _ => True)); [done|]. intros _. apply (end_reading t (clean t)); [reads|done].
  - apply (triple_return t _ (fun _ => clean t)), clean_tx_stable.
Qed.
Lemma close_session_triple session room subject : triple t (begun t) (close_session t session room subject) (ok (fun _ => clean t)).
Proof.
  eapply triple_pre; [|apply begun_clean]. apply (chain_read t no_debt (fun _ => True)); [apply reading_get|done|]. intros [s|]; [|apply triple_raise].
  destruct (_ || _); [apply triple_raise|]. eapply triple_chain with (R := fun _ => clean t).
  - eapply triple_chain with (R := fun _ => clean t); [by apply close_sessions_triple|]. intros n. apply (triple_return t _ (fun _ => clean t)), clean_tx_stable.
  - intros [|]; [by apply emit_triple|apply (triple_return t _ (fun _ => clean t)), clean_tx_stable].
Qed.
Lemma record_verdict_triple id status valid error : status <> PENDING -> triple t (clean t) (record_verdict t id status valid error) (ok (fun _ => clean t)).
Proof.
  intros Hs. apply (chain_read t no_debt (fun _ => True)); [apply reading_get|done|]. intros at_. eapply triple_chain with (R := fun _ => clean t).
  - apply (chain_read t no_debt (fun _ => True)); [apply reading_get|done|]. intros ks. apply (update_verdicts t no_debt (fun _ => True)); [done|..].
    + intros b. split; [done|]. unfold pending. by apply bool_decide_eq_false.
    + intros k v Hp. destruct k, v; try done. simpl in Hp. apply andb_prop in Hp as [_ Hp]. by eauto.
  - intros l. apply (triple_return t _ (fun _ => clean t)), clean_tx_stable.
Qed.
Lemma emit_if {B} (changed : bool) e (b : B) : triple t (clean t) (_ ← (if changed then emit t e else mret tt); mret b) (ok (fun _ => clean t)).
Proof.
  eapply triple_chain with (R := fun _ => clean t); [|intros _; apply (triple_return t b (fun _ => clean t)), clean_tx_stable].
  destruct changed; [by apply emit_triple|apply (triple_return t _ (fun _ => clean t)), clean_tx_stable].
Qed.
Lemma record_validation_triple id v : triple t (begun t) (record_validation t id v) (ok (fun _ => clean t)).
Proof.
  eapply triple_pre; [|apply begun_clean]. eapply triple_chain with (R := fun _ => clean t); [by apply record_verdict_triple|]. intros changed. apply emit_if.
Qed.
Lemma record_validation_error_triple id error : triple t (begun t) (record_validation_error t id error) (ok (fun _ => clean t)).
Proof.
  eapply triple_pre; [|apply begun_clean]. eapply triple_chain with (R := fun _ => clean t); [by apply record_verdict_triple|]. intros changed. apply emit_if.
Qed.
Lemma sweep_triple ttl : triple t (begun t) (sweep_stalled t ttl) (ok (fun _ => clean t)).
Proof.
  eapply triple_pre; [|apply begun_clean]. do 2 (apply (chain_read t no_debt (fun _ => True)); [apply reading_get|done|intros ?]).
  apply (update_verdicts t no_debt (fun _ => True)); [done|done|]. intros k v Hp. destruct k, v; try done. by eauto.
Qed.
Lemma expire_due_triple limit : triple t (begun t) (expire_due_now t limit) (ok (fun _ => clean t)).
Proof.
  eapply triple_pre; [|apply begun_clean]. do 3 (apply (chain_read t no_debt (fun _ => True)); [apply reading_get|done|intros ?]).
  apply (update_decisions t no_debt (fun _ => True)); [done|done|done|]. intros k v Hp. destruct k, v; try done. by eauto.
Qed.
End operations.
