(* ===== verification/ActivityClaims.v ===== *)
(** * Claims about rounds, submissions and group proposals

    Any number of requests at a time, each in its transaction at READ COMMITTED, from an
    empty database: what the committed rows are at every moment ([consent_respected],
    [attempts_numbered]) and what of them is final ([ended_round_final]).  A process of the
    pool is a database connection: the number of its transaction is its own. *)

From S2P Require Import Prelude PyFloat PyValue Interleave Transactions Consent ActivityRows Activities ActivityFacts ActivitySteps ActivityOps ActivityRequests ActivityRounds.

(** ** Requests *)
Inductive Request :=
  | Start (project room type by_user : uuid) (agent : option uuid)
  | End_round (room activation : uuid) (agent : option uuid)
  | End_for_type (type : uuid)
  | Opt_out (type : uuid) (rooms : list uuid)
  | Open_session (project type room subject : uuid) (caller : option uuid)
  | Set_completion (project room activation subject : uuid) (caller : option uuid) (completed : bool)
  | Close_session (session room : uuid) (subject : option uuid)
  | Submit (project type room producer subject : uuid) (caller : option uuid) (payload : pyval) (session : option uuid) (guest : bool)
  | Propose (project room group type proposer : uuid) (payload : pyval)
  | Vote (project room proposal voter : uuid) (approve : bool)
  | Withdraw (room proposal caller : uuid)
  | Record_validation (submission : uuid) (v : Verdict)
  | Record_validation_error (submission : uuid) (error : string)
  | Sweep_stalled (ttl : Z)
  | Expire_due (limit : nat)
  | Get_tally (room proposal caller : uuid) (creator : bool)
  | List_round (project room activation caller : uuid) (creator : bool)
  | Get_for_round (project room activation subject : uuid) (caller : option uuid)
  | Count_for_activation (room activation : uuid).

Section claims.
Context (payload_errors : pyval -> pyval -> list string) (in_process : ActivityType -> pyval -> option Verdict).
Definition perform (t : positive) (r : Request) : proc unit :=
  let once {B} (m : proc B) : proc unit := request t (_ ← m; mret tt) in
  match r with
  | Start project room type by_user agent => once (start t project room type by_user agent)
  | End_round room activation agent => once (end_round t room activation agent)
  | End_for_type type => once (end_for_type t type)
  | Opt_out type rooms => once (opt_out_cascade t type rooms)
  | Open_session project type room subject caller => once (open_session t project type room subject caller)
  | Set_completion project room activation subject caller completed => once (set_completion t project room activation subject caller completed)
  | Close_session session room subject => once (close_session t session room subject)
  | Submit project type room producer subject caller payload session guest =>
      once (submit payload_errors in_process t project type room producer subject caller payload session guest)
  | Propose project room group type proposer payload => once (create payload_errors in_process t project room group type proposer payload)
  | Vote project room proposal voter approve => once (vote payload_errors in_process t project room proposal voter approve)
  | Withdraw room proposal caller => once (withdraw t room proposal caller)
  | Record_validation submission v => once (record_validation t submission v)
  | Record_validation_error submission error => once (record_validation_error t submission error)
  | Sweep_stalled ttl => once (sweep_stalled t ttl)
  | Expire_due limit => once (expire_due_now t limit)
  | Get_tally room proposal caller creator => once (get_tally t room proposal caller creator)
  | List_round project room activation caller creator => once (list_round_for_caller t project room activation caller creator)
  | Get_for_round project room activation subject caller => once (get_for_round t project room activation subject caller)
  | Count_for_activation room activation => once (count_for_activation t room activation)
  end.

(** A connection is lost: its transaction is rolled back.  Whatever is around changes at
    any moment. *)
Definition lose (t : positive) (w : World) : World := (rollback_db t w.1, w.2).
Definition elsewhere (_ : gset positive) (w w' : World) : Prop := w'.1 = w.1.
Definition unused (t : positive) (w : World) : Prop := forall k, ~ holds t w.1 k.
Definition requests (t : positive) (m : proc unit) : Prop := exists r, m = perform t r.
Definition runs : conf ActivityError World unit -> conf ActivityError World unit -> Prop := reach requests lose elsewhere unused.
Definition empty_db (around : Around) : World := (mkDB ∅ ∅ 1, around).

Lemma rollback_others q t w : q <> t -> others_keep q w (lose t w).
Proof. intros Hq. split; [by apply rollback_keeps|simpl; lia|reflexivity|done..]. Qed.
Lemma rollback_inv t w : inv w -> inv (lose t w).
Proof.
  intros Hi. split; [|apply (i_rows _ Hi)]. intros k Hk. apply (i_ids _ Hi). simpl in Hk. destruct Hk as [Hk|[[q v] Hv]]; [by left|right].
  apply map_lookup_filter_Some in Hv as [Hv _]. by eexists.
Qed.
Lemma begun_empty t w : (forall k, draft t w.1 k = None) -> begun t w.
Proof. intros H. split; [|exact H]. split; [intros k v; by rewrite H|intros x x' p p'; by rewrite H|intros x [[v Hv]|[u [v Hv]]]; by rewrite H in Hv]. Qed.
Lemma begun_stable t : stable t (begun t).
Proof. apply A_stable. auto with rounds. Qed.
Lemma draft_gone t (d : Store) k : draft t (rollback_db t d) k = None /\ draft t (commit_db t d) k = None.
Proof.
  split; (destruct (draft t _ k) as [v|] eqn:E; [|done]); apply draft_Some in E;
    [apply held_rollback in E as [_ E]|apply held_commit in E as [_ E]]; done.
Qed.
Lemma request_triple {B} t (m : proc B) : triple t (begun t) m (ok (fun _ => clean t)) -> triple t (begun t) (request t m) (fun _ => begun t).
Proof.
  intros Hm. apply (triple_handle inv others_keep t (begun t) m (ok (fun _ => clean t))); [exact Hm|]. intros [e|b].
  - apply (triple_handle inv others_keep t _ _ (fun _ => begun t)).
    + apply triple_act; [done|intros _; apply begun_stable|]. intros w Hi _. split_and!; [by apply rollback_inv|by intros q; apply rollback_others|].
      apply begun_empty. intros k. apply draft_gone.
    + intros [e'|[]]; apply (triple_done inv others_keep t _ (fun _ => begun t)), begun_stable.
  - apply (triple_handle inv others_keep t _ _ (fun _ => begun t)).
    + apply triple_act; [apply clean_tx_stable|intros _; apply begun_stable|]. intros w Hi [Hst _].
      split_and!; [by apply commit_inv|by intros q; apply commit_others|]. apply begun_empty. intros k. apply draft_gone.
    + intros [e'|[]]; apply (triple_done inv others_keep t _ (fun _ => begun t)), begun_stable.
Qed.
Lemma perform_triple t r : triple t (begun t) (perform t r) (fun _ => begun t).
Proof.
  assert (Honce : forall B (m : proc B), triple t (begun t) m (ok (fun _ => clean t)) -> triple t (begun t) (request t (_ ← m; mret tt)) (fun _ => begun t)).
  { intros B m Hm. apply request_triple. eapply triple_chain; [exact Hm|]. intros b. apply (triple_return t tt (fun _ => clean t)), clean_tx_stable. }
  destruct r; apply Honce; try (apply end_reading; [solve [reads]|apply begun_clean]).
  - apply start_triple.
  - eapply triple_mono; [apply end_round_triple|intros w _; apply begun_none_made|intros b w _; apply A_clean].
  - apply end_for_type_triple.
  - apply opt_out_triple.
  - apply open_session_triple.
  - apply set_completion_triple.
  - apply close_session_triple.
  - apply submit_triple.
  - apply create_triple.
  - apply vote_triple.
  - apply withdraw_triple.
  - apply record_validation_triple.
  - apply record_validation_error_triple.
  - apply sweep_triple.
  - apply expire_due_triple.
Qed.

(** ** Runs *)
Definition served (c : conf ActivityError World unit) : Prop := good inv others_keep (fun t _ => begun t) c.
Lemma request_safe t m w : requests t m -> inv w -> begun t w -> safe inv others_keep t m (fun _ => begun t) w.
Proof. intros [r ->] Hi Hb. by apply perform_triple. Qed.
Lemma unused_begun t w : unused t w -> inv w -> begun t w.
Proof. intros Hu _. apply begun_empty. intros k. destruct (draft t w.1 k) as [v|] eqn:E; [|done]. apply draft_holds in E. by apply Hu in E. Qed.
Lemma lose_others t w : inv w -> inv (lose t w) /\ forall q, q <> t -> others_keep q w (lose t w).
Proof. intros Hi. split; [by apply rollback_inv|]. intros q Hq. by apply rollback_others. Qed.
Lemma elsewhere_others alive w w' : elsewhere alive w w' -> inv w -> inv w' /\ forall q, q ∈ alive -> others_keep q w w'.
Proof.
  unfold elsewhere. intros He Hi. split; [split; rewrite He; apply Hi|]. intros q _. split; rewrite He; try done; reflexivity.
Qed.
Lemma runs_served c c' : runs c c' -> served c -> served c'.
Proof.
  apply (reach_good requests lose elsewhere unused inv others_keep (fun t _ => begun t) begun);
    [apply request_safe|apply unused_begun|done|apply lose_others|apply elsewhere_others].
Qed.
Lemma empty_served around : served (mkConf (empty_db around) ∅).
Proof.
  split; [|intros p m Hp; by apply (lookup_empty_Some p m) in Hp]. split.
  - intros k [[v Hv]|[v Hv]]; simpl in Hv; by rewrite lookup_empty in Hv.
  - split; unfold in_doubt; try (intros; unfold prop_at, vote_at, sub_at, sess_at in *; simpl in *; by rewrite lookup_empty in *).
    intros s. split; [intros i j n; unfold attempt_at, sub_at; simpl; by rewrite lookup_empty|]. exists 0. split; [lia|]. intros n. split; [|lia].
    intros [i Hi]. unfold attempt_at, sub_at in Hi. simpl in Hi. by rewrite lookup_empty in Hi.
Qed.
Definition committed (c : conf ActivityError World unit) : gmap Key Row := rows (world c).1.
#[local] Instance follows_worlds : PreOrder (fun w w' : World => follows (rows w.1) (rows w'.1)).
Proof. split; [intros w; simpl; reflexivity|intros w1 w2 w3 H1 H2; by etrans]. Qed.
Lemma runs_follows c c' : runs c c' -> served c -> follows (committed c) (committed c').
Proof.
  intros Hr Hg. apply (reach_relates requests lose elsewhere unused inv others_keep (fun t _ => begun t) begun request_safe unused_begun (fun _ _ _ H _ => H)
    lose_others elsewhere_others (fun w w' : World => follows (rows w.1) (rows w'.1)) c c'); [|intros t w; simpl; reflexivity|..|done|done].
  - intros t w w' Hk. apply (ok_follows _ _ _ Hk).
  - intros alive w w' ->. reflexivity.
Qed.
Lemma runs_consistent around c : runs (mkConf (empty_db around) ∅) c -> served c /\ consistent (committed c).
Proof. intros Hr. apply runs_served in Hr as Hg; [|apply empty_served]. split; [done|]. destruct Hg as [Hi _]. apply (i_rows _ Hi). Qed.

(** ** Who approved *)
Definition approvers (x : uuid) (m : gmap Key Row) : list uuid :=
  (List.filter (fun b : uuid * VoteChoice => bool_decide (b.2 = APPROVE)) (ballots x m)).*1.
Lemma approvers_length x m : Z.of_nat (length (approvers x m)) = (tally_of x m).1.
Proof. unfold approvers. by rewrite length_fmap. Qed.
Lemma elem_of_approvers x m u : u ∈ approvers x m <-> vote_at m x u = Some APPROVE.
Proof.
  unfold approvers. rewrite list_elem_of_fmap. split.
  - intros ([u' c] & -> & Hin). apply list_elem_of_In, filter_In in Hin as [Hin Hc]. apply bool_decide_eq_true in Hc. simpl in Hc. subst c.
    by apply list_elem_of_In, elem_of_ballots in Hin.
  - intros Hv. exists (u, APPROVE). split; [done|]. apply list_elem_of_In, filter_In. split; [|done]. by apply list_elem_of_In, elem_of_ballots.
Qed.
Lemma approvers_NoDup x m : NoDup (approvers x m).
Proof.
  unfold approvers. pose proof (ballots_NoDup x m) as Hn. revert Hn. induction (ballots x m) as [|[u c] l IH]; simpl; intros Hn; [constructor|].
  apply list.NoDup_cons in Hn as [Hu Hn]. destruct (bool_decide _); [|by apply IH]. simpl. constructor; [|by apply IH].
  intros Hin. apply Hu. apply list_elem_of_fmap in Hin as (b & -> & Hin). apply list_elem_of_fmap. exists b. split; [done|].
  apply list_elem_of_In, filter_In in Hin as [Hin _]. by apply list_elem_of_In.
Qed.

(** C6. What a group submits, the group has consented to.  Whatever requests ran and are
    running, fail or are lost: each submission of a group's session comes from exactly
    one accepted proposal, of the same group, round, payload and author; and each
    accepted proposal has its submission and the approval of at least the required
    number of different members, all pinned when it was proposed.  An open proposal's
    round is going on, and its ballots neither carry it nor rule that out. *)
Theorem consent_respected around c (Hr : runs (mkConf (empty_db around) ∅) c) :
  let m := committed c in
  (forall i b y g, sub_at m i = Some b -> sess_at m (su_session b) = Some y -> se_group y = Some g ->
     exists x p, prop_at m x = Some p /\ decided p i /\ gp_group p = g /\ gp_activation p = se_activation y /\
       gp_payload p = su_payload b /\ gp_proposer p = su_producer b /\
       forall x' p', prop_at m x' = Some p' -> decided p' i -> x' = x) /\
  (forall x p, prop_at m x = Some p -> gp_status p = P_ACCEPTED ->
     (exists i, gp_submission p = Some i /\ submission_of m p i) /\ 1 <= gp_required p <= Z.of_nat (length (gp_voters p)) /\
     exists l, NoDup l /\ gp_required p <= Z.of_nat (length l) /\ forall u, u ∈ l -> vote_at m x u = Some APPROVE /\ u ∈ gp_voters p) /\
  (forall x p, prop_at m x = Some p -> is_open p = true ->
     (exists z, act_at m (gp_activation p) = Some z /\ is_active z = true) /\
     let n := tally_of x m in n.1 < gp_required p /\ is_unreachable n.1 (undecided_of p n.1 n.2) (gp_required p) = false).
Proof.
  cbn zeta. apply runs_consistent in Hr as [_ Hc]. split; [|split].
  - intros i b y g Hb Hy Hg. destruct (c_sub _ Hc i b Hb) as (y' & Hy' & Hgr). assert (y' = y) as -> by congruence.
    destruct Hgr as (x & p & Hp & Hd & Hu); [congruence|]. exists x, p. destruct (c_prop _ Hc x p Hp) as (_ & _ & _ & Hacc).
    destruct (Hacc (proj1 Hd)) as (_ & i' & Hi' & (b' & y' & Hb' & Hy2 & E1 & E2 & E3 & E4)).
    assert (i' = i) as -> by (destruct Hd; congruence). assert (b' = b) as -> by congruence. assert (y' = y) as -> by congruence.
    split_and!; [done..|congruence|done|done|done|done].
  - intros x p Hp Ha. destruct (c_prop _ Hc x p Hp) as ((_ & _ & Hreq) & _ & _ & Hacc). destruct (Hacc Ha) as (Ht & Hs).
    split; [done|]. split; [done|]. exists (approvers x (committed c)). split; [apply approvers_NoDup|]. split; [by rewrite approvers_length|].
    intros u Hu. apply elem_of_approvers in Hu. split; [done|]. destruct (c_vote _ Hc x u _ Hu) as (p' & Hp' & Hin). congruence.
  - intros x p Hp Ho. destruct (c_prop _ Hc x p Hp) as (_ & Hact & _). split; [by apply Hact|].
    destruct (c_doubt _ Hc x p Hp Ho) as [H1 H2]. split; [done|]. by apply Z.ltb_ge.
Qed.

(** C7. The end of a round is final.  Once it is committed, whatever runs then or was
    running: the round stays ended; it gets no further submission and no further proposal,
    its proposals stay as they were, and none of them is open. *)
Theorem ended_round_final around c c' a z (Hr : runs (mkConf (empty_db around) ∅) c) (Hr' : runs c c')
    (Ha : act_at (committed c) a = Some z) (Hz : is_active z = false) :
  act_at (committed c') a = Some z /\
  (forall i, round_of (committed c') i = Some a -> round_of (committed c) i = Some a) /\
  (forall x p, prop_at (committed c') x = Some p -> gp_activation p = a -> prop_at (committed c) x = Some p /\ is_open p = false).
Proof.
  apply runs_consistent in Hr as [Hg Hc]. pose proof (runs_follows c c' Hr' Hg) as Hf. split_and!.
  - destruct (grown_act _ _ (f_grows _ _ Hf) a z Ha) as (z' & Hz' & _ & Hsame). by rewrite <-(Hsame Hz).
  - intros i. by apply (f_subs _ _ Hf a z).
  - intros x p Hp Hx. assert (Hp0 : prop_at (committed c) x = Some p) by (by apply (f_props _ _ Hf a z x p)). split; [done|].
    destruct (is_open p) eqn:Eo; [|done]. destruct (c_prop _ Hc x p Hp0) as (_ & Hact & _). destruct (Hact Eo) as (z' & Ha' & Hz'). congruence.
Qed.

(** C29. Work is not lost.  At every moment the attempts of a session are numbered 1, 2, …
    without gap or repetition; a submission stays what it was but for its verdict, which
    is given once; a decided proposal stays as it is, and a voter's ballot stays cast. *)
Theorem attempts_numbered around c c' (Hr : runs (mkConf (empty_db around) ∅) c) (Hr' : runs c c') :
  (forall s, (forall i j n, attempt_at (committed c) s i = Some n -> attempt_at (committed c) s j = Some n -> i = j) /\
     exists top, forall n, (exists i, attempt_at (committed c) s i = Some n) <-> 1 <= n <= top) /\
  (forall i b, sub_at (committed c) i = Some b -> exists b', sub_at (committed c') i = Some b' /\ same_submission b b' /\ (pending b = false -> b' = b)) /\
  (forall x p, prop_at (committed c) x = Some p -> exists p', prop_at (committed c') x = Some p' /\ same_proposal p p' /\ (is_open p = false -> p' = p)) /\
  forall x u v, vote_at (committed c) x u = Some v -> is_Some (vote_at (committed c') x u).
Proof.
  apply runs_consistent in Hr as [Hg Hc]. destruct (runs_follows c c' Hr' Hg) as [Hf _ _]. split_and!.
  - intros s. destruct (c_numbered _ Hc s) as [H1 (top & _ & H2)]. split; [done|]. by exists top.
  - by apply grown_sub.
  - by apply grown_prop.
  - by apply grown_vote.
Qed.
End claims.

(** ** Witnesses

    A group of three; two thirds have to approve.  One member starts the round and
    proposes; the two others' votes run against each other, one statement each in turn;
    the second to get the proposal finds it accepted.  Then the round ends. *)
Section schedule.
Context (payload_errors : pyval -> pyval -> list string) (in_process : ActivityType -> pyval -> option Verdict).
Abbreviation conf := (Interleave.conf ActivityError World unit).
(** One step of each listed connection that can take one. *)
Fixpoint weave (l : list positive) (c : conf) : conf :=
  match l with
  | [] => c
  | t :: l =>
      weave l match pool c !! t with
              | Some (Step f) => match f (world c) with Some (m, w) => mkConf w (<[t := m]> (pool c)) | None => c end
              | _ => c
              end
  end.
Definition is_unused (t : positive) (w : World) : bool := forallb (fun ko : Key * (positive * option Row) => negb (Pos.eqb ko.2.1 t)) (map_to_list (held w.1)).
(** A request on a connection that was not used before. *)
Definition ask (t : positive) (r : Request) (c : conf) : conf :=
  match pool c !! t with
  | None => if is_unused t (world c) then mkConf (world c) (<[t := perform payload_errors in_process t r]> (pool c)) else c
  | Some _ => c
  end.
Abbreviation runs := (runs payload_errors in_process).
Lemma weave_runs l : forall c, runs c (weave l c).
Proof.
  induction l as [|t l IH]; intros [w pl]; cbn [weave world pool]; [apply rtc_refl|]. etrans; [|apply IH].
  destruct (pl !! t) as [[r|f]|] eqn:E; [apply rtc_refl| |apply rtc_refl]. destruct (f w) as [[m w']|] eqn:Ef; [|apply rtc_refl].
  eapply rtc_once, cs_run; [exact E|exact Ef].
Qed.
Lemma ask_runs t r c : runs c (ask t r c).
Proof.
  destruct c as [w pl]. unfold ask. cbn [world pool]. destruct (pl !! t) eqn:E; [apply rtc_refl|]. destruct (is_unused t w) eqn:Eu; [|apply rtc_refl].
  apply rtc_once, cs_spawn; [done| |by exists r]. intros k [v Hv]. unfold is_unused in Eu.
  assert (Hin : In (k, (t, v)) (map_to_list (held w.1))) by (by apply list_elem_of_In, elem_of_map_to_list).
  pose proof (proj1 (forallb_forall _ _) Eu _ Hin) as H. simpl in H. by rewrite Pos.eqb_refl in H.
Qed.
End schedule.

Definition w_errors (schema payload : pyval) : list string := [].
Definition w_validate (ty : ActivityType) (payload : pyval) : option Verdict := Some (mkVerdict true None).
Definition w_type : ActivityType :=
  mkType false (Some 5%positive) VNone IN_PROCESS None true false
    (VDict [("consent", VDict [("numerator", VInt 2); ("denominator", VInt 3)])]%string) None.
Definition w_around : Around :=
  mkAround 1000 {[1%positive := w_type]} ∅ None ∅ {[(5, 50)%positive]} {[(7, 50)%positive]} {[7%positive := (true, false)]}
    {[(50, 11)%positive; (50, 12)%positive; (50, 13)%positive]} ∅.
Definition w_ask := ask w_errors w_validate.
Definition turns (n : nat) (l : list positive) := weave (concat (repeat l n)).
Definition w_ids (f : Key * Row -> option uuid) (c : conf ActivityError World unit) : list uuid := omap f (map_to_list (committed c)).
Definition w_rounds := w_ids (fun kr => match kr with (KAct a, _) => Some a | _ => None end).
Definition w_proposals := w_ids (fun kr => match kr with (KProp a, _) => Some a | _ => None end).
Definition w_subs := w_ids (fun kr => match kr with (KSub a, _) => Some a | _ => None end).
Definition w0 := turns 60 [1%positive] (w_ask 1 (Start 5 7 1 11 None) (mkConf (empty_db w_around) ∅)).
Definition w1 := turns 80 [2%positive] (w_ask 2 (Propose 5 7 50 1 11 (VInt 42)) w0).
Definition w_x : uuid := default 1%positive (head (w_proposals w1)).
Definition w_a : uuid := default 1%positive (head (w_rounds w0)).
Definition w2 := turns 120 [3%positive; 4%positive] (w_ask 4 (Vote 5 7 w_x 13 true) (w_ask 3 (Vote 5 7 w_x 12 true) w1)).
Definition w3 := turns 60 [5%positive] (w_ask 5 (End_round 7 w_a None) w2).
Definition w4 := turns 60 [6%positive] (w_ask 6 (Submit 5 1 7 12 12 None VNone None false) w3).
Abbreviation w_runs := (runs w_errors w_validate).
Lemma ask_turns t r n l c : w_runs c (turns n l (w_ask t r c)).
Proof. etrans; [apply ask_runs|apply weave_runs]. Qed.
Lemma ask_both t r t' r' n l c : w_runs c (turns n l (w_ask t' r' (w_ask t r c))).
Proof. etrans; [apply (ask_runs _ _ t r)|apply ask_turns]. Qed.
Lemma w_runs_0 : w_runs (mkConf (empty_db w_around) ∅) w0.
Proof. unfold w0. apply ask_turns. Qed.
Lemma w_runs_1 : w_runs w0 w1.
Proof. unfold w1. apply ask_turns. Qed.
Lemma w_runs_2 : w_runs (mkConf (empty_db w_around) ∅) w2.
Proof. etrans; [exact w_runs_0|]. etrans; [exact w_runs_1|]. unfold w2. apply ask_both. Qed.
Lemma w_runs_3 : w_runs w2 w3.
Proof. unfold w3. apply ask_turns. Qed.
Lemma w_runs_4 : w_runs w3 w4.
Proof. unfold w4. apply ask_turns. Qed.
Definition w_i : uuid := default 1%positive (head (w_subs w2)).
Definition accepted_one : bool :=
  match prop_at (committed w2) w_x, sub_at (committed w2) w_i with
  | Some p, Some b => bool_decide (gp_status p = P_ACCEPTED) && bool_decide (gp_submission p = Some w_i) && bool_decide (su_attempt b = 1)
  | _, _ => false
  end.
Lemma consent_respected_witness : w_runs (mkConf (empty_db w_around) ∅) w2 /\ accepted_one = true /\
  exists l, NoDup l /\ 2 <= Z.of_nat (length l) /\ forall u, u ∈ l -> vote_at (committed w2) w_x u = Some APPROVE.
Proof.
  split; [exact w_runs_2|]. assert (Ha : accepted_one = true) by (vm_compute; reflexivity). split; [exact Ha|].
  pose proof (consent_respected w_errors w_validate w_around w2 w_runs_2) as (_ & H & _).
  assert (Hp : exists p, prop_at (committed w2) w_x = Some p /\ gp_status p = P_ACCEPTED /\ gp_required p = 2) by (eexists; split; [vm_compute; reflexivity|split; reflexivity]).
  destruct Hp as (p & Hp & Hs & Hr). destruct (H w_x p Hp Hs) as (_ & _ & l & H1 & H2 & H3). exists l. rewrite <-Hr.
  split; [exact H1|]. split; [exact H2|]. intros u Hu. apply (H3 u Hu).
Defined.
Lemma ended_round_final_witness : w_runs w3 w4 /\ exists z, act_at (committed w3) w_a = Some z /\ is_active z = false /\ act_at (committed w4) w_a = Some z.
Proof.
  split; [exact w_runs_4|].
  assert (Hz : exists z, act_at (committed w3) w_a = Some z /\ is_active z = false) by (eexists; split; [vm_compute; reflexivity|reflexivity]).
  destruct Hz as (z & Ha & Hz). exists z. split; [exact Ha|]. split; [exact Hz|].
  assert (Hr : w_runs (mkConf (empty_db w_around) ∅) w3) by (etrans; [exact w_runs_2|exact w_runs_3]).
  destruct (ended_round_final w_errors w_validate w_around w3 w4 w_a z Hr w_runs_4 Ha Hz) as [H _]. exact H.
Defined.
Lemma attempts_numbered_witness : w_runs w2 w3 /\ exists b b', sub_at (committed w2) w_i = Some b /\ sub_at (committed w3) w_i = Some b' /\ same_submission b b'.
Proof.
  split; [exact w_runs_3|]. destruct (attempts_numbered w_errors w_validate w_around w2 w3 w_runs_2 w_runs_3) as (_ & H & _).
  assert (Hb : exists b, sub_at (committed w2) w_i = Some b) by (eexists; vm_compute; reflexivity). destruct Hb as [b Hb].
  destruct (H w_i b Hb) as (b' & Hb' & Hs & _). exists b, b'. exact (conj Hb (conj Hb' Hs)).
Defined.

(** A session may be left open in a round that has ended: opening reads the round without
    its row lock.  The index of 0049, on open sessions of one type and room, then refuses
    the member a session in the next round of that type, and the submission fails. *)
Definition late0 := turns 4 [7%positive] (w_ask 7 (Open_session 5 1 7 12 None) w0).
Definition late1 := turns 60 [7%positive] (turns 60 [5%positive] (w_ask 5 (End_round 7 w_a None) late0)).
Definition late2 := turns 60 [8%positive] (w_ask 8 (Start 5 7 1 11 None) late1).
Definition late3 := turns 60 [9%positive] (w_ask 9 (Submit 5 1 7 12 12 None (VInt 42) None false) late2).
Definition open_in (a : uuid) (c : conf ActivityError World unit) : bool :=
  existsb (fun kr => match kr.2 with RSess y => Pos.eqb (se_activation y) a && session_open y | _ => false end) (map_to_list (committed c)).
Lemma late_runs_1 : w_runs w0 late1.
Proof.
  assert (H0 : w_runs w0 late0) by (unfold late0; apply ask_turns). etrans; [exact H0|]. unfold late1.
  set (c := turns 60 [5%positive] _). assert (H1 : w_runs late0 c) by apply ask_turns. etrans; [exact H1|apply weave_runs].
Qed.
Lemma late_runs : w_runs (mkConf (empty_db w_around) ∅) late3.
Proof.
  assert (H2 : w_runs late1 late2) by (unfold late2; apply ask_turns). assert (H3 : w_runs late2 late3) by (unfold late3; apply ask_turns).
  etrans; [exact w_runs_0|]. etrans; [exact late_runs_1|]. etrans; [exact H2|exact H3].
Qed.
Example late_session : w_runs (mkConf (empty_db w_around) ∅) late3 /\
  (is_active <$> act_at (committed late1) w_a) = Some false /\ open_in w_a late1 = true /\
  match pool late3 !! 9%positive with Some (Done (inl SessionNotFound)) => true | _ => false end = true.
Proof. split; [exact late_runs|]. split_and!; vm_compute; reflexivity. Qed.
